(* ===== verification/_CoqProject ===== *)
-Q . S2P
Prelude.v
JsString.v
Base64.v
BufferInt.v
BufferOps.v
Utf8.v
BufferText.v
StringDecoder.v
Punycode.v
ImmutableMap.v
ImmutableBits.v
ImmutableTrie.v
ImmutableUpdate.v
ImmutableNode.v
ImmutableRoot.v
ImmutableHash.v
ImmutableMapOk.v
ImmutableIter.v
Regex.v
JsNum.v
YamlTypes.v
YamlTime.v
YamlSchema.v
YamlLoad.v
YamlTotal.v
YamlDump.v
YamlRoundtrip.v
JsonPatch.v
JsonPatchOk.v
JsonPatchCompare.v
Uri.v
QueryString.v
Cookie.v
NextTick.v
Reselect.v
ReduxStore.v
Events.v
Url.v
UrlOk.v
Ruler.v
ReduxCombine.v
UiUtils.v
UiValidate.v
ImmutableList.v
ImmutableListOk.v
ImmutableTree.v
SpecState.v
SpecOps.v
ClientStyle.v
ClientParams.v
ClientAuth.v
UiAuth.v
UiErrors.v
UiPlugins.v
SchemaSample.v
