(* ===== verification/Prelude.v ===== *)
(** * A verification development for the quicksilver repository

    quicksilver is a Cosmos chain.  Its own logic is Go (app, cmd, utils and the modules under
    x/); the JavaScript of the repository is Swagger UI, vendored under
    src/client/docs/swagger-ui to browse the API of a node.  This development verifies the
    JavaScript: the bundle swagger-ui-bundle.js, which holds Swagger UI and the packages it is
    built of.  The standalone preset next to it repeats modules of the bundle.  The Go code is
    not modelled.

    ** The parts, and how they meet

    Specifications come in as text and are read by js-yaml; the addresses in them go through url,
    punycode and querystring; changes of a document are JSON patches; the state of the page is a
    tree of Immutable maps in a Redux store, changed by combined reducers and read through
    memoized selectors, which put the description of an operation together with what the user has
    entered; parameters are validated before a request is made, and the client then puts their
    values and the credentials of the user into it; bytes are Buffers, with base64 and UTF-8 under
    them; events and process.nextTick order what runs when.

    - bytes and text: Base64 (base64-js), BufferInt, BufferOps, Utf8 and BufferText (Buffer),
      StringDecoder (string_decoder).  A buffer is a view of an ArrayBuffer in a store, or the
      list of its bytes where only these matter.
    - Immutable.Map: ImmutableMap is the code, with its nodes, entries and maps in a store, since
      withMutations changes in place what it owns; ImmutableHash is hash and is;
      ImmutableBits, ImmutableTrie, ImmutableUpdate, ImmutableNode and ImmutableRoot are the
      proofs about the trie, ImmutableMapOk and ImmutableIter the theorems about the maps.
      ImmutableList is List, a trie of nodes that are values, and ImmutableListOk proves it a list.
      ImmutableTree is getIn, updateIn, setIn, deleteIn, merge and mergeWith on trees of maps and
      lists, which are values there since the maps persist.
    - js-yaml: Regex, JsNum, YamlTypes, YamlTime and YamlSchema (types and schemas), YamlLoad
      (loader.js) with YamlTotal, YamlDump (dumper.js) with YamlRoundtrip.
    - JSON patches: JsonPatch (fast-json-patch and deep-equal), JsonPatchOk, JsonPatchCompare.
    - addresses: Uri (encodeURIComponent and decodeURIComponent), QueryString, Cookie, Punycode,
      Url with UrlOk.
    - the state of the page: ReduxStore (createStore), ReduxCombine (combineReducers of
      redux-immutable and of Redux), Reselect (selectors).
    - control: NextTick (the queue of process.nextTick), Events (EventEmitter), Ruler (the rules
      of the Remarkable parsers).
    - Swagger UI itself: UiUtils (sanitizeUrl, searches, forms, btoa and others), UiValidate
      (validateParam), SpecState (the reducers of the spec plugin, an operation and its parameters
      with their values, the decision about a request), SpecOps (operations by tags, content
      types), UiAuth (logging in and out), UiErrors (the list of errors), UiPlugins (the layout,
      configs and oas3 plugins), SchemaSample (the samples of schemas).
    - swagger-client: ClientStyle (the serialization of values by styles), ClientParams (the
      parameters of a request and the builders for Swagger 2 and OpenAPI 3), ClientAuth
      (credentials, cookies, media type and body).
    - Prelude and JsString: values, numbers, arrays and strings of the language, the tactics
      [concrete] and [dlia], and the lemmas that the components share.

    Each file names the lines it models.  Definitions keep the names of the source where the
    bundle has them, and those of the packages where the bundle has single letters.

    ** Conventions

    A string is its list of UTF-16 code units.  Code that throws returns [res]; code that throws
    after it has changed something returns the new state as well.  Numbers are exact: integers
    where the code computes with integers below 2^53, decimals in JsNum, which are rounded to
    doubles where UiValidate compares them; 32-bit operators wrap around as the language says.  Objects are in a store or a heap where the code compares them
    by identity, shares or changes them, and are values elsewhere.  Members that every object
    inherits are written out where the code meets them, and an assignment to __proto__ where it
    can change a prototype: the loader of YAML then ends with the outcome [Leaves], as it does
    where a function of the document would be called, and JsonPatch with the error [Outside].
    The stack of calls has no end.  Callbacks that may call the code again
    (listeners, reducers) are programs; callbacks of the queue are what they do.

    Functions of the page or of the language that are not written out are arguments: Unicode's
    toLowerCase (with what is relied on as a hypothesis), the regular expressions of a schema,
    Date.parse, JSON.parse, esprima.

    ** What is shown

    - Round trips: base64, UTF-8, integers and texts of buffers, punycode and domains, query
      strings, searches, forms, cookies, addresses, timestamps and strings in YAML, arrays in
      every style of parameters, and JSON patches: what compare finds, applyPatch does.
    - Refinement: Immutable.Map is a finite map whose versions persist, also under withMutations;
      Immutable.List is a list as long as no undefined values are stored and it has at most four
      levels of nodes;
      combined reducers act on their keys only, proved against the class [StateMapLaws] of which
      the maps are an instance; the store of Redux is one with a single list of listeners;
      emitters and rules are lists; the YAML schemas are their last types.
    - The application: a request is let through exactly if every parameter is valid and no error
      is left over; what is entered for a parameter is what is read for it, and nothing else
      changes; each operation is in the groups of its tags; paths through the state are lenses; a
      logout undoes a login and nothing else; what was chosen last is what is read; errors are
      recorded and sorted; a sample has the members of its schema that are to be shown.
    - Requests: the address of a Swagger 2 request is its template with every place filled by an
      escaped value; a required parameter without a value stops the request; of two parameters
      of one name and location the last counts; no credentials but those an operation requires
      have an influence on its request.
    - Invariants, safety, liveness: the order of nextTick and that it settles, at most one call
      for once, the lock of dispatch, header fields without line ends, links that are no scripts.
    - Totality: the loader of YAML ends on every input, with documents, an exception or at one of
      three places where the model ends; validateParam returns, but for two exceptions.
    - Bounds and errors: 31-bit hashes and the size of their cache; every checked write of an
      integer into a buffer, in range or not; an integer parameter against its bounds.
    - What the code does wrong is stated as theorems on concrete inputs, by the names
      ..._defects and others that the findings of the manifest list.
    The doc comment of a theorem states the conditions under which it holds.

    ** Fuel

    Loops over a range or a list are structural.  Where the code recurses on what it scans, the
    fuel is the length of the input or more, and a theorem shows it is enough
    (YamlTotal.yaml_load_total, Uri.decode_loop_scalars, Punycode).  The tries have at most seven
    levels and the fuel [depth] covers them; setListBounds adds one level at a time, for the sizes
    its theorems allow at most one, and has fuel for eight.  In ReduxStore and Events the fuel
    counts nested calls of programs that need not end: the theorems hold for every amount of it, and those of Events for
    the state that there is when it runs out too.

    ** Not modelled

    - The Go code of the chain: it shares nothing with the JavaScript.
    - The bytes of doubles: ieee754, the float accessors of Buffer, hashes of numbers.
    - The other collections of Immutable (Set, OrderedMap, Seq, Record) as they are represented:
      in the trees a map keeps its order and a set is its members.
    - React, the views and actions of Swagger UI, and all that acts on the page; of swagger-client
      the resolver, the base address of a request, the writing of its query (by qs) and fetch.
    - Regular expressions that are made of names at run time (serverEffectiveValue and the
      variables of servers), and the samples of schemas in XML.
    - Parsers of other languages (esprima, Remarkable but for its rules, XML, highlighting), the
      second URL and query-string packages (url-parse, qs), and the shims of the language
      (core-js, lodash, babel).
    - The observers of JSON patches, enhancers and the observable of Redux, and the excerpt in
      the message of a YAML exception. *)

From Stdlib Require Import String Ascii.
From stdpp Require Import base numbers list strings option.
Open Scope Z_scope.

(** Closes the side conditions of a statement at concrete arguments. *)
Ltac concrete :=
  vm_compute;
  repeat match goal with |- _ /\ _ => split end;
  try (reflexivity || discriminate).

(** ** JavaScript values the components share *)

(** An exception: the constructor of the error and its message. *)
Inductive jserr :=
| RangeError (msg : string)
| TypeError (msg : string)
| SyntaxError (msg : string)
| JsError (msg : string).

(** The result of code that may throw. *)
Inductive res (A : Type) :=
| Ok (a : A)
| Throw (e : jserr).
Arguments Ok {A} a.
Arguments Throw {A} e.

Definition res_bind {A B} (m : res A) (k : A -> res B) : res B :=
  match m with
  | Ok a => k a
  | Throw e => Throw e
  end.

Declare Scope js_scope.
Delimit Scope js_scope with js.
Notation "'let!' x ':=' m 'in' k" := (res_bind m (fun x => k))
  (at level 10, x pattern, m at level 100, k at level 200) : js_scope.
Notation "'guard!' b 'else' e 'in' k" := (if b then k else Throw e)
  (at level 10, b at level 100, e at level 100, k at level 200) : js_scope.
Open Scope js_scope.

(** A function that may throw on the elements of a list in turn. *)
Fixpoint res_map {A B} (f : A -> res B) (l : list A) : res (list B) :=
  match l with
  | [] => Ok []
  | x :: l => let! y := f x in let! ys := res_map f l in Ok (y :: ys)
  end.

#[export] Instance jserr_eq_dec : EqDecision jserr.
Proof. solve_decision. Defined.

(** A JavaScript string is its sequence of UTF-16 code units. *)
Abbreviation jsstring := (list Z).

(** The code units of an ASCII literal. *)
Fixpoint js (s : string) : jsstring :=
  match s with
  | EmptyString => []
  | String c s' => Z.of_N (N_of_ascii c) :: js s'
  end.

(** ** Numbers

    A number is modelled by the integer it denotes; a read out of the range of
    an array is [undefined] and arithmetic on it is [NaN]. *)
Inductive num :=
| Num (z : Z)
| NaN
| Undef.

#[export] Instance num_eq_dec : EqDecision num.
Proof. solve_decision. Defined.

Definition pow32 : Z := 4294967296.
Definition pow31 : Z := 2147483648.

(** ToUint32, ToInt32 and ToUint8 of the language. *)
Definition to_uint32 (z : Z) : Z := z mod pow32.
Definition to_int32 (z : Z) : Z :=
  let m := z mod pow32 in if m <? pow31 then m else m - pow32.
Definition to_uint8 (z : Z) : Z := z mod 256.

(** The value a bitwise operator sees: [NaN] and [undefined] count as 0. *)
Definition nint (n : num) : Z :=
  match n with Num z => to_int32 z | _ => 0 end.

(** The bitwise operators. *)
Definition js_or (a b : Z) : Z := Z.lor (to_int32 a) (to_int32 b).
Definition js_and (a b : Z) : Z := Z.land (to_int32 a) (to_int32 b).
Definition js_xor (a b : Z) : Z := Z.lxor (to_int32 a) (to_int32 b).
Definition js_shl (a n : Z) : Z := to_int32 (Z.shiftl (to_int32 a) (n mod 32)).
Definition js_shr (a n : Z) : Z := Z.shiftr (to_int32 a) (n mod 32).
Definition js_ushr (a n : Z) : Z := Z.shiftr (to_uint32 a) (n mod 32).

(** [+] and [*] where an operand may be [NaN] or [undefined]. *)
Definition num_add (a b : num) : num :=
  match a, b with Num x, Num y => Num (x + y) | _, _ => NaN end.
Definition num_mul (a b : num) : num :=
  match a, b with Num x, Num y => Num (x * y) | _, _ => NaN end.

(** ** Arrays *)

(** [l[i]]: [undefined] out of range. *)
Definition zget {A} (l : list A) (i : Z) : option A :=
  if i <? 0 then None else l !! Z.to_nat i.

(** [l[i] = v] on an array of fixed length: a store out of range is ignored. *)
Definition zset {A} (l : list A) (i : Z) (v : A) : list A :=
  if i <? 0 then l else <[Z.to_nat i := v]> l.

Definition zlen {A} (l : list A) : Z := Z.of_nat (length l).

(** The elements from [a] (included) to [b] (excluded). *)
Definition zsub {A} (l : list A) (a b : Z) : list A :=
  take (Z.to_nat (b - a)) (drop (Z.to_nat a) l).

(** A read of a byte array as a number. *)
Definition rd (l : list Z) (i : Z) : num :=
  match zget l i with Some z => Num z | None => Undef end.

(** The index of the first element equal to [x], as [indexOf] (-1 if none). *)
Fixpoint index_from (x : Z) (l : list Z) (i : Z) : Z :=
  match l with
  | [] => -1
  | y :: l' => if y =? x then i else index_from x l' (i + 1)
  end.
Definition index_of (x : Z) (l : list Z) : Z := index_from x l 0.

(** ** Loops

    [for (i = i0; i < stop; i += step) body]: the fuel [stop - i0] covers every
    iteration because a step is at least 1. *)
Section Loops.
Context {S : Type}.

Fixpoint for_fuel (fuel : nat) (i stop step : Z) (body : Z -> S -> S) (s : S) : S :=
  match fuel with
  | O => s
  | Datatypes.S k =>
      if i <? stop then for_fuel k (i + step) stop step body (body i s) else s
  end.

Definition forZ (i stop step : Z) (body : Z -> S -> S) (s : S) : S :=
  for_fuel (Z.to_nat (stop - i)) i stop step body s.

Lemma for_fuel_enough k1 k2 i stop step body s :
  0 < step -> stop - i <= Z.of_nat k1 -> stop - i <= Z.of_nat k2 ->
  for_fuel k1 i stop step body s = for_fuel k2 i stop step body s.
Proof.
  intros Hstep. revert k2 i s.
  induction k1 as [|k1 IH]; intros k2 i s H1 H2; destruct k2 as [|k2]; simpl; try done.
  - destruct (Z.ltb_spec i stop); [lia|done].
  - destruct (Z.ltb_spec i stop); [lia|done].
  - destruct (Z.ltb_spec i stop); [|done]. apply IH; lia.
Qed.

Lemma forZ_step i stop step body s :
  0 < step -> i < stop ->
  forZ i stop step body s = forZ (i + step) stop step body (body i s).
Proof.
  intros Hs Hi. unfold forZ.
  destruct (Z.to_nat (stop - i)) as [|k] eqn:E; [lia|]. simpl.
  destruct (Z.ltb_spec i stop); [|lia]. apply for_fuel_enough; lia.
Qed.

Lemma forZ_done i stop step body s : stop <= i -> forZ i stop step body s = s.
Proof. intros H. unfold forZ. by replace (Z.to_nat (stop - i)) with O by lia. Qed.

Lemma for_fuel_inv (P : Z -> S -> Prop) n i stop step body s :
  0 < step -> stop - i <= Z.of_nat n ->
  P i s ->
  (forall j t, i <= j < stop -> P j t -> P (j + step) (body j t)) ->
  exists j, stop <= j /\ i <= j /\ P j (for_fuel n i stop step body s).
Proof.
  intros Hs. revert i s. induction n as [|n IH]; intros i s Hn HP Hstep; simpl.
  - exists i. repeat split; [lia|lia|done].
  - destruct (Z.ltb_spec i stop); [|exists i; repeat split; auto; lia].
    destruct (IH (i + step) (body i s)) as (j & ? & ? & ?);
      [lia|apply Hstep; [lia|done]|intros; apply Hstep; [lia|done]|].
    exists j. repeat split; auto; lia.
Qed.

(** The invariant rule: [P i s] holds before each iteration; the loop ends at
    the first counter that is not below [stop]. *)
Lemma forZ_inv (P : Z -> S -> Prop) i stop step body s :
  0 < step ->
  P i s ->
  (forall j t, i <= j < stop -> P j t -> P (j + step) (body j t)) ->
  exists j, stop <= j /\ i <= j /\ P j (forZ i stop step body s).
Proof. intros. apply for_fuel_inv; auto; lia. Qed.

(** With a step of 1 the loop ends exactly at [stop]. *)
Lemma forZ_inv1 (P : Z -> S -> Prop) i stop body s :
  i <= stop ->
  P i s ->
  (forall j t, i <= j < stop -> P j t -> P (j + 1) (body j t)) ->
  P stop (forZ i stop 1 body s).
Proof.
  intros Hle HP Hstep.
  destruct (forZ_inv (fun j t => j <= stop /\ P j t) i stop 1 body s)
    as (j & ? & ? & ? & ?); [lia|auto| |].
  - intros j t Hj [? ?]. split; [lia|by apply Hstep].
  - assert (j = stop) as -> by lia. done.
Qed.
End Loops.

(** Two loops whose bodies agree on the iterations that run are equal. *)
Lemma forZ_ext {S} i stop (f g : Z -> S -> S) s :
  (forall j t, i <= j < stop -> f j t = g j t) -> forZ i stop 1 f s = forZ i stop 1 g s.
Proof.
  unfold forZ. remember (Z.to_nat (stop - i)) as n eqn:E. clear E.
  revert i s. induction n as [|n IH]; intros i s H; simpl; [done|].
  destruct (Z.ltb_spec i stop); [|done]. rewrite H by lia. apply IH. intros. apply H. lia.
Qed.

(** Renumbering the iterations. *)
Lemma forZ_shift {S} i stop d (f : Z -> S -> S) s :
  forZ i stop 1 f s = forZ (i + d) (stop + d) 1 (fun j => f (j - d)) s.
Proof.
  unfold forZ. replace (stop + d - (i + d)) with (stop - i) by lia.
  remember (Z.to_nat (stop - i)) as n eqn:E. clear E.
  revert i s. induction n as [|n IH]; intros i s; simpl; [done|].
  replace (i + d <? stop + d) with (i <? stop)
    by (destruct (Z.ltb_spec i stop), (Z.ltb_spec (i + d) (stop + d)); lia).
  destruct (i <? stop); [|done]. replace (i + d - d) with i by lia.
  rewrite IH. by replace (i + 1 + d) with (i + d + 1) by lia.
Qed.

(** ** Bit-level lemmas *)

(** [lia] with the division equations of [/], [mod], [quot] and [rem]. *)
Ltac dlia := Z.to_euclidean_division_equations; lia.

Definition byte_ok (z : Z) : Prop := 0 <= z < 256.
Definition bytes_ok (l : list Z) : Prop := Forall byte_ok l.

Lemma bytes_ok_cons b l : bytes_ok (b :: l) <-> byte_ok b /\ bytes_ok l.
Proof. apply Forall_cons_iff. Qed.

Lemma Forall_weaken {A} (P Q : A -> Prop) l :
  Forall P l -> (forall x, P x -> Q x) -> Forall Q l.
Proof. induction 1; constructor; auto. Qed.

(** A property of the numbers below [n], checked by evaluation. *)
Lemma forallb_below n (P : Z -> bool) :
  forallb P (seqZ 0 n) = true -> forall i, 0 <= i < n -> P i = true.
Proof.
  intros H i Hi. rewrite forallb_forall in H. apply H.
  apply list_elem_of_In, elem_of_seqZ. lia.
Qed.

Lemma to_int32_small z : - pow31 <= z < pow31 -> to_int32 z = z.
Proof.
  unfold to_int32, pow31, pow32. intros H.
  destruct (Z.ltb_spec (z mod 4294967296) 2147483648); dlia.
Qed.

Lemma to_uint32_small z : 0 <= z < pow32 -> to_uint32 z = z.
Proof. intros. by apply Z.mod_small. Qed.

Lemma to_int32_range z : - pow31 <= to_int32 z < pow31.
Proof.
  unfold to_int32, pow31, pow32.
  destruct (Z.ltb_spec (z mod 4294967296) 2147483648); dlia.
Qed.

Lemma to_int32_eq z : exists q, to_int32 z = z + q * 4294967296.
Proof.
  unfold to_int32, pow32. destruct (_ <? _).
  - exists (- (z / 4294967296)). dlia.
  - exists (- (z / 4294967296) - 1). dlia.
Qed.

Lemma to_int32_mod z k : 0 <= k <= 32 -> to_int32 z mod 2 ^ k = z mod 2 ^ k.
Proof.
  intros Hk.
  assert (exists q, to_int32 z = z + q * 2 ^ 32) as [q ->].
  { unfold to_int32, pow32. destruct (_ <? _).
    - exists (- (z / 4294967296)). dlia.
    - exists (- (z / 4294967296) - 1). dlia. }
  replace (2 ^ 32) with (2 ^ (32 - k) * 2 ^ k) by (rewrite <- Z.pow_add_r by lia; f_equal; lia).
  rewrite Z.mul_assoc. apply Z.mod_add. apply Z.pow_nonzero; lia.
Qed.

(** Masking with [2^k - 1] is the remainder, whatever the sign. *)
Lemma js_and_ones z k : 0 <= k <= 31 -> js_and z (2 ^ k - 1) = z mod 2 ^ k.
Proof.
  intros Hk. unfold js_and.
  assert (0 < 2 ^ k <= 2 ^ 31) by (split; [apply Z.pow_pos_nonneg; lia|apply Z.pow_le_mono_r; lia]).
  rewrite (to_int32_small (2 ^ k - 1)) by (unfold pow31; lia).
  replace (2 ^ k - 1) with (Z.ones k) by (rewrite Z.ones_equiv; lia).
  rewrite Z.land_ones by lia. apply to_int32_mod. lia.
Qed.

Lemma js_and_ones_l z k : 0 <= k <= 31 -> js_and (2 ^ k - 1) z = z mod 2 ^ k.
Proof. intros. unfold js_and. rewrite Z.land_comm. by apply js_and_ones. Qed.

Lemma js_shr_div z k : - pow31 <= z < pow31 -> 0 <= k < 32 -> js_shr z k = z / 2 ^ k.
Proof.
  intros. unfold js_shr. rewrite to_int32_small, Z.mod_small by lia.
  apply Z.shiftr_div_pow2. lia.
Qed.

Lemma js_ushr_div z k : 0 <= z < pow32 -> 0 <= k < 32 -> js_ushr z k = z / 2 ^ k.
Proof.
  intros. unfold js_ushr. rewrite to_uint32_small, Z.mod_small by lia.
  apply Z.shiftr_div_pow2. lia.
Qed.

Lemma js_shl_mul z k :
  - pow31 <= z < pow31 -> 0 <= k < 32 -> - pow31 <= z * 2 ^ k < pow31 ->
  js_shl z k = z * 2 ^ k.
Proof.
  intros. unfold js_shl. rewrite (to_int32_small z), Z.mod_small by lia.
  rewrite Z.shiftl_mul_pow2 by lia. by apply to_int32_small.
Qed.

(** A disjunction of a multiple of [2^k] and a number below [2^k] is their sum. *)
Lemma lor_add a b k : 0 <= k -> 0 <= b < 2 ^ k -> Z.lor (a * 2 ^ k) b = a * 2 ^ k + b.
Proof.
  intros Hk Hb. assert (Z.land (a * 2 ^ k) b = 0) as Hland.
  { apply Z.bits_inj'. intros n Hn. rewrite Z.land_spec, Z.bits_0.
    rewrite <- Z.shiftl_mul_pow2 by lia.
    destruct (Z.ltb_spec n k); [by rewrite Z.shiftl_spec_low by lia|].
    apply andb_false_intro2.
    rewrite <- (Z.mod_small b (2 ^ k)) by lia. by apply Z.mod_pow2_bits_high. }
  rewrite <- Z.lxor_lor by done. symmetry. by apply Z.add_nocarry_lxor.
Qed.

Lemma js_or_add a b k :
  0 <= k < 32 -> 0 <= b < 2 ^ k -> - pow31 <= a * 2 ^ k < pow31 -> b < pow31 ->
  js_or (a * 2 ^ k) b = a * 2 ^ k + b.
Proof.
  intros. unfold js_or. rewrite !to_int32_small by (unfold pow31 in *; lia).
  apply lor_add; lia.
Qed.

Lemma js_or_comm a b : js_or a b = js_or b a.
Proof. unfold js_or. by rewrite Z.lor_comm. Qed.

(** Setting bits above [k] in a number of [k] bits. *)
Lemma js_or_tag x m k :
  0 <= k < 32 -> 0 <= x < 2 ^ k -> 0 <= m * 2 ^ k < pow31 -> x < pow31 ->
  js_or x (m * 2 ^ k) = m * 2 ^ k + x.
Proof. intros. rewrite js_or_comm. apply js_or_add; unfold pow31 in *; lia. Qed.

(** ** List lemmas *)

Lemma zlen_nonneg {A} (l : list A) : 0 <= zlen l.
Proof. unfold zlen. lia. Qed.

Lemma zlen_app {A} (l k : list A) : zlen (l ++ k) = zlen l + zlen k.
Proof. unfold zlen. rewrite length_app. lia. Qed.

Lemma zlen_zset {A} (l : list A) i v : zlen (zset l i v) = zlen l.
Proof. unfold zlen, zset. destruct (i <? 0); by rewrite ?length_insert. Qed.

Lemma zlen_cons {A} (x : A) l : zlen (x :: l) = 1 + zlen l.
Proof. unfold zlen. cbn. lia. Qed.

Lemma zget_nat {A} (l : list A) n : zget l (Z.of_nat n) = l !! n.
Proof. unfold zget. destruct (Z.ltb_spec (Z.of_nat n) 0); [lia|]. by rewrite Nat2Z.id. Qed.

Lemma flat_map_nil {A B} (f : A -> list B) l : (forall x, In x l -> f x = []) -> flat_map f l = [].
Proof. induction l as [|x l IH]; intros Hf; [done|]. cbn. rewrite Hf by (by left). apply IH. intros y Hy. apply Hf. by right. Qed.

Lemma zget_zset_eq {A} (l : list A) i v : 0 <= i < zlen l -> zget (zset l i v) i = Some v.
Proof.
  unfold zlen, zget, zset. intros. destruct (Z.ltb_spec i 0); [lia|].
  apply list_lookup_insert_eq. lia.
Qed.

Lemma zget_zset_ne {A} (l : list A) i j v : i <> j -> zget (zset l i v) j = zget l j.
Proof.
  unfold zget, zset. intros. destruct (Z.ltb_spec i 0), (Z.ltb_spec j 0); try done.
  apply list_lookup_insert_ne. lia.
Qed.

Lemma zget_Some_lt {A} (l : list A) i v : zget l i = Some v -> 0 <= i < zlen l.
Proof.
  unfold zget, zlen. destruct (Z.ltb_spec i 0); [done|]. intros Hl.
  apply lookup_lt_Some in Hl. lia.
Qed.

Lemma zget_in_range {A} (l : list A) i : 0 <= i < zlen l -> exists v, zget l i = Some v.
Proof.
  unfold zget, zlen. intros. destruct (Z.ltb_spec i 0); [lia|].
  apply lookup_lt_is_Some. lia.
Qed.

Lemma zget_app_r {A} (l k : list A) i : zlen l <= i -> zget (l ++ k) i = zget k (i - zlen l).
Proof.
  unfold zget, zlen. intros. destruct (Z.ltb_spec i 0), (Z.ltb_spec (i - Z.of_nat (length l)) 0);
    try lia. rewrite lookup_app_r by lia. f_equal. lia.
Qed.

Lemma zget_app_l {A} (l k : list A) i : i < zlen l -> zget (l ++ k) i = zget l i.
Proof.
  unfold zget, zlen. intros. destruct (Z.ltb_spec i 0); [done|].
  apply lookup_app_l. lia.
Qed.

Lemma zset_app_r {A} (l k : list A) i v :
  zlen l <= i -> zset (l ++ k) i v = l ++ zset k (i - zlen l) v.
Proof.
  unfold zset, zlen. intros. destruct (Z.ltb_spec i 0), (Z.ltb_spec (i - Z.of_nat (length l)) 0);
    try lia. rewrite insert_app_r_alt by lia. do 2 f_equal. lia.
Qed.

Lemma zset_ge {A} (l : list A) i v : zlen l <= i -> zset l i v = l.
Proof.
  unfold zset, zlen. intros. destruct (Z.ltb_spec i 0); [done|].
  apply list_insert_ge. lia.
Qed.

Lemma list_eq_zget {A} (l k : list A) :
  zlen l = zlen k -> (forall i, 0 <= i < zlen l -> zget l i = zget k i) -> l = k.
Proof.
  unfold zlen. intros Hl Hg. apply list_eq_same_length with (length k); [done|lia|].
  intros i x y Hi Hx Hy. specialize (Hg (Z.of_nat i)). unfold zget in Hg.
  destruct (Z.ltb_spec (Z.of_nat i) 0); [lia|]. rewrite !Nat2Z.id in Hg.
  rewrite Hg in Hx by lia. congruence.
Qed.

Lemma zget_app_at {A} (l k : list A) j : 0 <= j -> zget (l ++ k) (zlen l + j) = zget k j.
Proof. intros. rewrite zget_app_r by lia. f_equal. lia. Qed.

Lemma rd_app_at l k j : 0 <= j -> rd (l ++ k) (zlen l + j) = rd k j.
Proof. intros. unfold rd. by rewrite zget_app_at. Qed.

Lemma nint_byte b : byte_ok b -> nint (Num b) = b.
Proof. unfold byte_ok. intros. apply to_int32_small. unfold pow31. lia. Qed.

Lemma zsub_app {A} (pre l post : list A) :
  zsub (pre ++ l ++ post) (zlen pre) (zlen pre + zlen l) = l.
Proof.
  unfold zsub, zlen. rewrite Nat2Z.id, drop_app_length.
  replace (Z.to_nat _) with (length l) by lia. apply take_app_length.
Qed.

(** A range of a list as the middle of a decomposition. *)
Lemma zsub_split {A} (l : list A) a b :
  0 <= a <= b -> b <= zlen l ->
  exists pre post, l = pre ++ zsub l a b ++ post /\ zlen pre = a /\ zlen (zsub l a b) = b - a.
Proof.
  unfold zlen, zsub. intros. exists (take (Z.to_nat a) l), (drop (Z.to_nat b) l).
  repeat split.
  - rewrite <- (take_drop (Z.to_nat a) l) at 1. f_equal.
    rewrite <- (take_drop (Z.to_nat (b - a)) (drop (Z.to_nat a) l)) at 1. f_equal.
    rewrite drop_drop. f_equal. lia.
  - rewrite length_take. lia.
  - rewrite length_take, length_drop. lia.
Qed.

Lemma zsub_adjacent {A} (l : list A) a b c :
  0 <= a <= b -> b <= c -> zsub l a b ++ zsub l b c = zsub l a c.
Proof.
  unfold zsub. intros.
  replace (Z.to_nat (c - a)) with (Z.to_nat (b - a) + Z.to_nat (c - b))%nat by lia.
  rewrite <- (take_take_drop (drop (Z.to_nat a) l)), drop_drop. do 3 f_equal. lia.
Qed.

Lemma Forall_zset {A} (P : A -> Prop) l i x : Forall P l -> P x -> Forall P (zset l i x).
Proof. intros. unfold zset. destruct (i <? 0); [done|]. by apply Forall_insert. Qed.

Lemma to_uint8_byte z : byte_ok (to_uint8 z).
Proof. unfold byte_ok, to_uint8. apply Z.mod_pos_bound. lia. Qed.

Lemma zget_zsub {A} (l : list A) a b i :
  0 <= a -> 0 <= i < b - a -> zget (zsub l a b) i = zget l (a + i).
Proof.
  intros Ha Hi. unfold zget, zsub. destruct (Z.ltb_spec i 0), (Z.ltb_spec (a + i) 0); try lia.
  rewrite lookup_take_lt, lookup_drop by lia. f_equal. lia.
Qed.

Lemma list_ext_zget {A} (l k : list A) : (forall i, zget l i = zget k i) -> l = k.
Proof.
  intros H. apply list_eq. intros i. specialize (H (Z.of_nat i)). unfold zget in H.
  destruct (Z.ltb_spec (Z.of_nat i) 0); [lia|]. by rewrite !Nat2Z.id in H.
Qed.

(** Replacing the middle of a list by one of the same length, element by element. *)
Lemma zget_replace {A} (pre mid new post : list A) i :
  zlen new = zlen mid ->
  zget (pre ++ new ++ post) i =
  if (zlen pre <=? i) && (i <? zlen pre + zlen mid) then zget new (i - zlen pre)
  else zget (pre ++ mid ++ post) i.
Proof.
  intros Hl. pose proof (zlen_nonneg pre). pose proof (zlen_nonneg mid).
  destruct (Z.leb_spec (zlen pre) i), (Z.ltb_spec i (zlen pre + zlen mid)); simpl.
  - rewrite (zget_app_r pre), (zget_app_l new) by lia. done.
  - rewrite !(zget_app_r pre), (zget_app_r new), (zget_app_r mid) by lia. f_equal. lia.
  - unfold zget. destruct (i <? 0) eqn:E; [done|]. unfold zlen in *. apply Z.ltb_ge in E.
    rewrite !lookup_app_l by lia. done.
  - lia.
Qed.

Lemma zsub_snoc {A} (l : list A) a b x :
  0 <= a <= b -> zget l b = Some x -> zsub l a (b + 1) = zsub l a b ++ [x].
Proof.
  intros Hab Hx. rewrite <- (zsub_adjacent l a b (b + 1)) by lia. f_equal.
  unfold zsub, zget in *. destruct (b <? 0); [done|].
  replace (Z.to_nat (b + 1 - b)) with 1%nat by lia.
  by rewrite (drop_S _ _ _ Hx).
Qed.

Lemma zsub_nil {A} (l : list A) a b : b <= a -> zsub l a b = [].
Proof. intros. unfold zsub. by replace (Z.to_nat (b - a)) with 0%nat by lia. Qed.

Lemma zsub_all {A} (l : list A) : zsub l 0 (zlen l) = l.
Proof. unfold zsub, zlen. rewrite drop_0. apply take_ge. lia. Qed.

Lemma Forall_zsub {A} (P : A -> Prop) l a b : Forall P l -> Forall P (zsub l a b).
Proof. intros. by apply Forall_take, Forall_drop. Qed.

Lemma zset_app_at {A} (l k : list A) j v :
  0 <= j -> zset (l ++ k) (zlen l + j) v = l ++ zset k j v.
Proof. intros. rewrite zset_app_r by lia. do 2 f_equal. lia. Qed.

Lemma index_from_app x l k i :
  x ∉ l -> index_from x (l ++ k) i = index_from x k (i + zlen l).
Proof.
  revert i. induction l as [|y l IH]; intros i Hx; simpl.
  - f_equal. unfold zlen. simpl. lia.
  - apply not_elem_of_cons in Hx as [Hy Hl]. destruct (Z.eqb_spec y x); [congruence|].
    rewrite IH by done. f_equal. unfold zlen. simpl. lia.
Qed.

Lemma index_of_none x l : x ∉ l -> index_of x l = -1.
Proof. intros. unfold index_of. rewrite <- (app_nil_r l). by rewrite index_from_app. Qed.

Lemma index_of_app x l k : x ∉ l -> index_of x (l ++ x :: k) = zlen l.
Proof.
  intros. unfold index_of. rewrite index_from_app by done. simpl.
  destruct (Z.eqb_spec x x); [lia|done].
Qed.

Lemma zget_reverse {A} (l : list A) k :
  0 <= k < zlen l -> zget (reverse l) k = zget l (zlen l - 1 - k).
Proof.
  unfold zget, zlen. intros.
  destruct (Z.ltb_spec k 0), (Z.ltb_spec (Z.of_nat (length l) - 1 - k) 0); try lia.
  rewrite reverse_lookup by lia. f_equal. lia.
Qed.

Lemma zlen_reverse {A} (l : list A) : zlen (reverse l) = zlen l.
Proof. unfold zlen. by rewrite length_reverse. Qed.

Lemma take_snoc {A} (l : list A) j x :
  0 <= j -> zget l j = Some x -> take (Z.to_nat (j + 1)) l = take (Z.to_nat j) l ++ [x].
Proof.
  intros Hj. unfold zget. destruct (Z.ltb_spec j 0); [lia|]. intros Hx.
  replace (Z.to_nat (j + 1)) with (S (Z.to_nat j)) by lia. by apply take_S_r.
Qed.

(** ** Base-256 digits, least significant first *)

Fixpoint le_bytes (n : nat) (z : Z) : list Z :=
  match n with
  | O => []
  | S n' => z mod 256 :: le_bytes n' (z / 256)
  end.

Fixpoint le_val (l : list Z) : Z :=
  match l with
  | [] => 0
  | b :: l' => b + 256 * le_val l'
  end.

Lemma pow256_pos n : 0 <= n -> 0 < 256 ^ n.
Proof. intros. by apply Z.pow_pos_nonneg. Qed.

Lemma length_le_bytes n z : length (le_bytes n z) = n.
Proof. revert z. induction n as [|n IH]; intros z; simpl; [done|]. by rewrite IH. Qed.

Lemma zget_le_bytes n z k :
  0 <= k < Z.of_nat n -> zget (le_bytes n z) k = Some (z / 256 ^ k mod 256).
Proof.
  revert z k. induction n as [|n IH]; intros z k Hk; [lia|].
  destruct (decide (k = 0)) as [->|]; [unfold zget; simpl; by rewrite Z.div_1_r|].
  change (le_bytes (S n) z) with ([z mod 256] ++ le_bytes n (z / 256)).
  rewrite zget_app_r by (unfold zlen; simpl; lia). change (zlen [z mod 256]) with 1.
  rewrite IH by lia. rewrite Z.div_div by (pose proof (pow256_pos (k - 1)); lia).
  do 3 f_equal. replace k with (1 + (k - 1)) at 2 by lia. rewrite Z.pow_add_r by lia. lia.
Qed.

Lemma bytes_ok_le_bytes n z : bytes_ok (le_bytes n z).
Proof.
  revert z. induction n as [|n IH]; intros z; simpl; [by constructor|].
  apply bytes_ok_cons. split; [unfold byte_ok; dlia|apply IH].
Qed.

Lemma le_val_le_bytes n z : le_val (le_bytes n z) = z mod 256 ^ Z.of_nat n.
Proof.
  revert z. induction n as [|n IH]; intros z; simpl le_val; [by rewrite Z.mod_1_r|].
  rewrite IH, Nat2Z.inj_succ, Z.pow_succ_r by lia.
  rewrite Z.rem_mul_r by (pose proof (pow256_pos (Z.of_nat n)); lia). lia.
Qed.

Lemma le_val_app l k : le_val (l ++ k) = le_val l + 256 ^ zlen l * le_val k.
Proof.
  induction l as [|b l IH]; simpl; [change (zlen []) with 0; lia|].
  rewrite IH. unfold zlen. simpl length. rewrite Nat2Z.inj_succ, Z.pow_succ_r by lia. ring.
Qed.

Lemma le_val_bound l : bytes_ok l -> 0 <= le_val l < 256 ^ zlen l.
Proof.
  induction l as [|b l IH]; intros Hok; simpl; [unfold zlen; simpl; lia|].
  apply bytes_ok_cons in Hok as [Hb Hl]. specialize (IH Hl). unfold byte_ok, zlen in *. simpl length.
  rewrite Nat2Z.inj_succ, Z.pow_succ_r by lia. lia.
Qed.

Create Rewrite HintDb zlen.
#[export] Hint Rewrite @zlen_app @zlen_zset : zlen.

(** A loop that appends something for each element of a range. *)
Lemma forZ_collect {A B} (g : option A -> list B) (l : list A) a b acc :
  0 <= a <= b -> b <= zlen l ->
  forZ a b 1 (fun i o => o ++ g (zget l i)) acc = acc ++ flat_map (fun x => g (Some x)) (zsub l a b).
Proof.
  intros Ha Hb.
  apply (forZ_inv1 (fun j s => s = acc ++ flat_map (fun x => g (Some x)) (zsub l a j))); [lia| |].
  - by rewrite zsub_nil, app_nil_r by lia.
  - intros j s Hj ->. destruct (zget_in_range l j) as [x Hx]; [lia|].
    rewrite (zsub_snoc l a j x) by (done || lia). rewrite flat_map_app, Hx. simpl.
    by rewrite app_nil_r, app_assoc.
Qed.
