(* ===== verification/JsString.v ===== *)
(** * JavaScript strings

    What the components use of String.prototype, parseInt and
    Number.prototype.toString, on lists of UTF-16 code units, with the facts about
    them the proofs share.  Numbers are exact integers. *)

From S2P Require Import Prelude.
From Stdlib Require Import String Ascii.
From stdpp Require Import base numbers list strings option.
Open Scope Z_scope.

(** ** White space and case *)

(** The code units that [trim], [parseInt] and [\s] take for white space. *)
Definition is_space (c : Z) : bool :=
  ((9 <=? c) && (c <=? 13)) || (c =? 32) || (c =? 160) || (c =? 5760)
  || ((8192 <=? c) && (c <=? 8202)) || (c =? 8232) || (c =? 8233) || (c =? 8239)
  || (c =? 8287) || (c =? 12288) || (c =? 65279).

Fixpoint trim_start (s : jsstring) : jsstring :=
  match s with
  | c :: s' => if is_space c then trim_start s' else s
  | [] => []
  end.

Definition trim (s : jsstring) : jsstring := reverse (trim_start (reverse (trim_start s))).

(** The names that every object has. *)
Definition inherited : list jsstring :=
  map js ["constructor"; "toString"; "toLocaleString"; "valueOf"; "hasOwnProperty"; "isPrototypeOf";
          "propertyIsEnumerable"; "__proto__"; "__defineGetter__"; "__defineSetter__"; "__lookupGetter__"; "__lookupSetter__"]%string.

(** [toLowerCase] on ASCII names. *)
Definition lower_ascii (a : ascii) : ascii :=
  let n := Z.of_nat (nat_of_ascii a) in
  if (65 <=? n) && (n <=? 90) then ascii_of_nat (Z.to_nat (n + 32)) else a.

Fixpoint lower (s : string) : string :=
  match s with
  | EmptyString => EmptyString
  | String a s' => String (lower_ascii a) (lower s')
  end.

(** ** Digits *)

(** The digit character of [d < 36] and the value of a digit character. *)
Definition digit_char (d : Z) : Z := if d <? 10 then 48 + d else 87 + d.

Definition digit_val (c : Z) : option Z :=
  if (48 <=? c) && (c <=? 57) then Some (c - 48)
  else if (97 <=? c) && (c <=? 122) then Some (c - 87)
  else if (65 <=? c) && (c <=? 90) then Some (c - 55)
  else None.

Definition digit_in (radix c : Z) : option Z :=
  match digit_val c with
  | Some d => if d <? radix then Some d else None
  | None => None
  end.

(** The value of the longest prefix of digits, if there is one. *)
Fixpoint parse_digits (radix : Z) (s : jsstring) (acc : option Z) : option Z :=
  match s with
  | c :: s' =>
      match digit_in radix c with
      | Some d => parse_digits radix s' (Some (default 0 acc * radix + d))
      | None => acc
      end
  | [] => acc
  end.

(** [parseInt(s, radix)] for a radix in 2..36. *)
Definition parseInt (s : jsstring) (radix : Z) : num :=
  let s := trim_start s in
  let '(sign, s) :=
    match s with
    | 45 :: s' => (-1, s')
    | 43 :: s' => (1, s')
    | _ => (1, s)
    end in
  let s := if radix =? 16 then
             match s with
             | 48 :: 120 :: s' | 48 :: 88 :: s' => s'
             | _ => s
             end
           else s in
  match parse_digits radix s None with
  | Some z => Num (sign * z)
  | None => NaN
  end.

(** The digits of a natural number, most significant first. *)
Fixpoint digits_fuel (fuel : nat) (radix z : Z) : jsstring :=
  match fuel with
  | O => []
  | S fuel =>
      if z <? radix then [digit_char z]
      else digits_fuel fuel radix (z / radix) ++ [digit_char (z mod radix)]
  end.

Definition digits (radix z : Z) : jsstring := digits_fuel (S (Z.to_nat (Z.log2 z))) radix z.

(** [z.toString(radix)]. *)
Definition num_to_string (z radix : Z) : jsstring :=
  if z <? 0 then 45 :: digits radix (- z) else digits radix z.

(** ** Facts *)

Lemma digit_in_char radix d : 2 <= radix <= 36 -> 0 <= d < radix -> digit_in radix (digit_char d) = Some d.
Proof.
  intros Hr Hd. unfold digit_in, digit_val, digit_char.
  destruct (Z.ltb_spec d 10).
  - rewrite (proj2 (Z.leb_le 48 _)), (proj2 (Z.leb_le _ 57)) by lia. simpl.
    replace (48 + d - 48) with d by lia. by rewrite (proj2 (Z.ltb_lt d radix)) by lia.
  - rewrite (proj2 (Z.leb_gt (87 + d) 57)) by lia. rewrite andb_false_r.
    rewrite (proj2 (Z.leb_le 97 _)), (proj2 (Z.leb_le _ 122)) by lia. simpl.
    replace (87 + d - 87) with d by lia. by rewrite (proj2 (Z.ltb_lt d radix)) by lia.
Qed.

Lemma parse_digits_app radix s1 s2 acc :
  Forall (fun c => is_Some (digit_in radix c)) s1 ->
  parse_digits radix (s1 ++ s2) acc = parse_digits radix s2 (parse_digits radix s1 acc).
Proof.
  intros Hs. revert acc. induction Hs as [|c s1 [d Hd] _ IH]; intros acc; simpl; [done|].
  by rewrite Hd, IH.
Qed.

Lemma digits_fuel_spec radix fuel z :
  2 <= radix <= 36 -> 0 <= z < 2 ^ Z.of_nat fuel -> (0 < fuel)%nat ->
  Forall (fun c => is_Some (digit_in radix c)) (digits_fuel fuel radix z) /\
  digits_fuel fuel radix z <> [] /\
  parse_digits radix (digits_fuel fuel radix z) None = Some z.
Proof.
  intros Hr. revert z. induction fuel as [|fuel IH]; intros z Hz Hf; [lia|]. simpl.
  destruct (Z.ltb_spec z radix).
  - assert (digit_in radix (digit_char z) = Some z) as Hd by (apply digit_in_char; lia).
    split; [repeat constructor; by rewrite Hd|]. split; [done|]. simpl. by rewrite Hd.
  - assert (0 <= z / radix < 2 ^ Z.of_nat fuel) as Hq.
    { rewrite Nat2Z.inj_succ, Z.pow_succ_r in Hz by lia. split; [apply Z.div_pos; lia|].
      apply Z.div_lt_upper_bound; nia. }
    destruct (decide (fuel = 0%nat)) as [->|].
    { simpl in Hz. change (2 ^ Z.of_nat 1) with 2 in Hz. lia. }
    destruct (IH (z / radix)) as (Hall & Hne & Hp); [done|lia|].
    assert (digit_in radix (digit_char (z mod radix)) = Some (z mod radix)) as Hd
      by (apply digit_in_char; [lia|apply Z.mod_pos_bound; lia]).
    split; [|split].
    + apply Forall_app. split; [done|]. repeat constructor. by rewrite Hd.
    + by destruct (digits_fuel fuel radix (z / radix)).
    + rewrite parse_digits_app by done. rewrite Hp. simpl. rewrite Hd. simpl.
      f_equal. pose proof (Z.div_mod z radix). lia.
Qed.

Lemma digits_spec radix z :
  2 <= radix <= 36 -> 0 <= z ->
  Forall (fun c => is_Some (digit_in radix c)) (digits radix z) /\
  digits radix z <> [] /\ parse_digits radix (digits radix z) None = Some z.
Proof.
  intros Hr Hz. apply digits_fuel_spec; [done| |lia]. split; [done|].
  rewrite Nat2Z.inj_succ, Z2Nat.id by apply Z.log2_nonneg.
  destruct (decide (z = 0)) as [->|]; [done|]. apply Z.log2_spec. lia.
Qed.

Lemma digits_fuel_enough radix f1 f2 z : 2 <= radix -> 0 <= z < 2 ^ Z.of_nat f1 -> z < 2 ^ Z.of_nat f2 ->
  (0 < f1)%nat -> (0 < f2)%nat -> digits_fuel f1 radix z = digits_fuel f2 radix z.
Proof.
  intros Hr. revert f2 z. induction f1 as [|f1 IH]; intros f2 z Hz1 Hz2 H1 H2; [lia|].
  destruct f2 as [|f2]; [lia|]. simpl. destruct (Z.ltb_spec z radix); [done|]. f_equal.
  rewrite Nat2Z.inj_succ, Z.pow_succ_r in Hz1, Hz2 by lia.
  assert (z / radix <= z / 2) by (apply Z.div_le_compat_l; lia).
  assert (0 <= z / radix) by (apply Z.div_pos; lia).
  assert (forall f, z < 2 * 2 ^ Z.of_nat f -> (0 < f)%nat /\ z / 2 < 2 ^ Z.of_nat f) as Hf.
  { intros f Hf. split; [destruct f; [simpl in Hf|]; lia|]. apply Z.div_lt_upper_bound; lia. }
  destruct (Hf f1), (Hf f2); [lia..|]. apply IH; lia.
Qed.

Lemma digits_unfold radix z : 2 <= radix -> radix <= z ->
  digits radix z = digits radix (z / radix) ++ [digit_char (z mod radix)].
Proof.
  intros Hr Hz. unfold digits at 1. cbn [digits_fuel].
  rewrite (proj2 (Z.ltb_ge z radix)) by done. f_equal. unfold digits.
  assert (0 < z / radix) by (apply Z.div_str_pos; lia).
  assert (z / radix <= z / 2) by (apply Z.div_le_compat_l; lia).
  pose proof (Z.log2_spec z) as Hl. pose proof (Z.log2_spec (z / radix)) as Hq.
  assert (0 < Z.log2 z) by (apply Z.log2_pos; lia).
  pose proof (Z.log2_nonneg (z / radix)).
  replace (Z.succ (Z.log2 z)) with (1 + Z.log2 z) in Hl by lia. rewrite Z.pow_add_r in Hl by lia.
  apply digits_fuel_enough; [done| | |lia|lia].
  - rewrite Z2Nat.id by lia. split; [lia|]. apply Z.le_lt_trans with (z / 2); [lia|].
    apply Z.div_lt_upper_bound; lia.
  - rewrite Nat2Z.inj_succ, Z2Nat.id by lia. lia.
Qed.

Lemma digits_mul10 z k : 0 < z -> digits 10 (z * 10 ^ Z.of_nat k) = digits 10 z ++ replicate k 48.
Proof.
  intros Hz. induction k as [|k IH]; [by rewrite Z.mul_1_r, app_nil_r|].
  rewrite Nat2Z.inj_succ, Z.pow_succ_r by lia.
  replace (z * (10 * 10 ^ Z.of_nat k)) with (z * 10 ^ Z.of_nat k * 10) by lia.
  pose proof (Z.pow_pos_nonneg 10 (Z.of_nat k)).
  rewrite digits_unfold by nia. rewrite Z.div_mul, Z.mod_mul, IH by lia.
  rewrite replicate_S_end, app_assoc. done.
Qed.

Lemma digits_length radix z n : 2 <= radix -> 0 <= z < radix ^ Z.of_nat n -> (0 < n)%nat ->
  (length (digits radix z) <= n)%nat.
Proof.
  intros Hr. revert z. induction n as [|n IH]; intros z Hz Hn; [lia|].
  destruct (Z.ltb_spec z radix) as [Hs|Hs].
  - unfold digits. cbn [digits_fuel]. rewrite (proj2 (Z.ltb_lt z radix)) by done. simpl. lia.
  - rewrite digits_unfold, length_app by lia. simpl.
    rewrite Nat2Z.inj_succ, Z.pow_succ_r in Hz by lia.
    assert (0 < n)%nat by (destruct n; [simpl in Hz|]; lia).
    enough (length (digits radix (z / radix)) <= n)%nat by lia.
    apply IH; [|done]. split; [apply Z.div_pos; lia|apply Z.div_lt_upper_bound; lia].
Qed.

Lemma digit_in_char_class radix c :
  radix <= 36 -> is_Some (digit_in radix c) ->
  is_space c = false /\ c <> 45 /\ c <> 43 /\ (radix = 16 -> c <> 120 /\ c <> 88).
Proof.
  intros Hr [d Hd]. unfold digit_in, digit_val in Hd.
  assert (48 <= c <= 57 \/ 97 <= c <= 122 /\ c - 87 < radix \/ 65 <= c <= 90 /\ c - 55 < radix) as Hc.
  { repeat case_match; simplify_eq; lia. }
  unfold is_space. split_and!; lia.
Qed.

(** A string of digits is parsed as a number, after an optional sign. *)
Lemma parseInt_unsigned radix s z :
  2 <= radix <= 36 -> Forall (fun c => is_Some (digit_in radix c)) s -> s <> [] ->
  parse_digits radix s None = Some z ->
  parseInt s radix = Num z /\ parseInt (45 :: s) radix = Num (- z).
Proof.
  intros Hr Hs Hne Hp. destruct s as [|c s]; [done|]. apply Forall_cons_iff in Hs as [Hc Hs].
  destruct (digit_in_char_class radix c) as (Hsp & H45 & H43 & Hx); [lia|done|].
  assert (forall s', (if radix =? 16 then match c :: s with
      | 48 :: 120 :: s' | 48 :: 88 :: s' => s' | _ => c :: s end else c :: s) = s' -> s' = c :: s) as Hpre.
  { intros s' <-. destruct (Z.eqb_spec radix 16) as [->|]; [|done].
    destruct s as [|c' s]; [by repeat case_match|]. apply Forall_cons_iff in Hs as [Hc' _].
    destruct (digit_in_char_class 16 c') as (_ & _ & _ & Hx'); [lia|done|].
    destruct (Hx' eq_refl). by repeat case_match; simplify_eq. }
  unfold parseInt. split.
  - simpl trim_start. rewrite Hsp.
    replace (match c :: s with 45 :: s' => (-1, s') | 43 :: s' => (1, s') | _ => (1, c :: s) end)
      with (1, c :: s) by (by repeat case_match; simplify_eq).
    rewrite (Hpre _ eq_refl), Hp. f_equal. lia.
  - simpl trim_start. cbv iota. rewrite (Hpre _ eq_refl), Hp. f_equal.
Qed.

(** [parseInt] inverts [toString]. *)
Lemma parseInt_toString z radix :
  2 <= radix <= 36 -> parseInt (num_to_string z radix) radix = Num z.
Proof.
  intros Hr. unfold num_to_string. destruct (Z.ltb_spec z 0).
  - destruct (digits_spec radix (- z)) as (Hd & Hne & Hp); [done|lia|].
    destruct (parseInt_unsigned radix (digits radix (- z)) (- z)) as [_ ->]; try done. f_equal. lia.
  - destruct (digits_spec radix z) as (Hd & Hne & Hp); [done|lia|].
    by destruct (parseInt_unsigned radix (digits radix z) z) as [-> _].
Qed.

Lemma trim_start_id s : Forall (fun c => is_space c = false) s -> trim_start s = s.
Proof. destruct 1 as [|c s Hc _]; [done|]. simpl. by rewrite Hc. Qed.

Lemma trim_id s : Forall (fun c => is_space c = false) s -> trim s = s.
Proof.
  intros Hs. unfold trim. rewrite (trim_start_id s) by done.
  rewrite trim_start_id by (by apply Forall_reverse). apply reverse_involutive.
Qed.

(** ** Splitting and joining *)

(** [s.split(c)] for a separator of one code unit. *)
Fixpoint split_on (c : Z) (s : jsstring) : list jsstring :=
  match s with
  | [] => [[]]
  | x :: s' =>
      if x =? c then [] :: split_on c s'
      else match split_on c s' with
           | p :: ps => (x :: p) :: ps
           | [] => [[x]]
           end
  end.

(** [l.join(sep)]. *)
Fixpoint join_with (sep : jsstring) (l : list jsstring) : jsstring :=
  match l with
  | [] => []
  | [p] => p
  | p :: l' => p ++ sep ++ join_with sep l'
  end.

(** [s.lastIndexOf(c)] for one code unit. *)
Fixpoint last_index_from (c : Z) (s : jsstring) (i r : Z) : Z :=
  match s with
  | [] => r
  | x :: s' => last_index_from c s' (i + 1) (if x =? c then i else r)
  end.
Definition last_index_of (c : Z) (s : jsstring) : Z := last_index_from c s 0 (-1).

Lemma split_on_cons c s : exists p ps, split_on c s = p :: ps.
Proof. destruct s as [|x s]; simpl; [eauto|]. repeat case_match; eauto. Qed.

Lemma join_split c s : join_with [c] (split_on c s) = s.
Proof.
  induction s as [|x s IH]; [done|]. simpl. destruct (split_on_cons c s) as (p & ps & E). rewrite E in *.
  destruct (Z.eqb_spec x c) as [->|_]; [simpl; by rewrite <- IH|].
  destruct ps; simpl in *; by rewrite IH.
Qed.

Lemma split_on_none c s : c ∉ s -> split_on c s = [s].
Proof.
  induction s as [|x s IH]; intros H; [done|]. apply not_elem_of_cons in H as [Hx Hs]. simpl.
  rewrite IH by done. by destruct (Z.eqb_spec x c).
Qed.

Lemma split_on_app c p s : c ∉ p -> split_on c (p ++ c :: s) = p :: split_on c s.
Proof.
  induction p as [|x p IH]; intros H; simpl; [by rewrite Z.eqb_refl|].
  apply not_elem_of_cons in H as [Hx Hp]. rewrite IH by done. by destruct (Z.eqb_spec x c).
Qed.

Lemma split_join c l : l <> [] -> Forall (fun p => c ∉ p) l -> split_on c (join_with [c] l) = l.
Proof.
  intros Hne H. induction H as [|p l Hp H IH]; [done|]. destruct l as [|q l]; [by apply split_on_none|].
  change (join_with [c] (p :: q :: l)) with (p ++ [c] ++ join_with [c] (q :: l)). cbn [app].
  rewrite split_on_app by done. by rewrite IH.
Qed.

Lemma split_on_no c s : Forall (fun p => c ∉ p) (split_on c s).
Proof.
  induction s as [|x s IH]; simpl; [repeat constructor; apply not_elem_of_nil|].
  destruct (Z.eqb_spec x c) as [->|Hx]; [constructor; [apply not_elem_of_nil|done]|].
  destruct (split_on c s) as [|p ps]; [constructor; [|constructor]; by rewrite list_elem_of_singleton|].
  inversion_clear IH. constructor; [by apply not_elem_of_cons|done].
Qed.

Lemma last_index_from_none c s i r : c ∉ s -> last_index_from c s i r = r.
Proof.
  revert i r. induction s as [|x s IH]; intros i r H; [done|]. apply not_elem_of_cons in H as [Hx Hs]. simpl.
  rewrite IH by done. by destruct (Z.eqb_spec x c).
Qed.

Lemma last_index_of_app c p s : c ∉ s -> last_index_of c (p ++ c :: s) = zlen p.
Proof.
  intros Hs. unfold last_index_of.
  assert (forall i r, last_index_from c (p ++ c :: s) i r = i + zlen p) as H.
  { induction p as [|x p IH]; intros i r; simpl.
    - rewrite Z.eqb_refl, last_index_from_none by done. unfold zlen. simpl. lia.
    - rewrite IH. unfold zlen. simpl. lia. }
  by rewrite H.
Qed.

Lemma last_index_of_none c s : c ∉ s -> last_index_of c s = -1.
Proof. apply last_index_from_none. Qed.
