(* ===== verification/Base64.v ===== *)
(** * base64-js: the base64 coder the Buffer component calls

    Models module 528 of src/client/docs/swagger-ui/swagger-ui-bundle.js: the two
    lookup tables, [getLens], [byteLength], [toByteArray], [encodeChunk] and
    [fromByteArray].  A string is its list of code units, a byte array a list of
    integers, and a thrown [Error] a [Throw].  [ref_encode] is the specification:
    base64 by structural recursion on groups of three bytes. *)

From S2P Require Import Prelude.
From Stdlib Require Import String.
From stdpp Require Import base numbers list strings option.
Open Scope Z_scope.

Module Base64.

(** ** The code *)

Definition code : jsstring :=
  js "ABCDEFGHIJKLMNOPQRSTUVWXYZabcdefghijklmnopqrstuvwxyz0123456789+/".

(** [r[i]] in a string concatenation. *)
Definition lookup (i : Z) : jsstring :=
  match zget code i with Some c => [c] | None => js "undefined" end.

(** The table [o], latest assignment first: the loop over [code], then the
    aliases ["-"] and ["_"] of the URL-safe alphabet. *)
Definition revTable : list (Z * Z) :=
  (95, 63) :: (45, 62) :: reverse (imap (fun i c => (c, Z.of_nat i)) code).

Fixpoint assoc (c : Z) (l : list (Z * Z)) : option Z :=
  match l with
  | [] => None
  | (k, v) :: l' => if k =? c then Some v else assoc c l'
  end.

(** [o[e.charCodeAt(i)]] as an operand of a bitwise operator. *)
Definition revLookup (e : jsstring) (i : Z) : Z :=
  match zget e i with
  | Some c => default 0 (assoc c revTable)
  | None => 0
  end.

Definition getLens (e : jsstring) : res (Z * Z) :=
  let t := zlen e in
  if 0 <? t mod 4 then Throw (JsError "Invalid string. Length must be a multiple of 4")
  else
    let n := index_of 61 e in
    let n := if n =? -1 then t else n in
    Ok (n, if n =? t then 0 else 4 - n mod 4).

Definition byteLength (e : jsstring) : res Z :=
  let! (n, r) := getLens e in Ok (3 * (n + r) / 4 - r).

(** One round of the decoding loop: the array, the next index to write, the
    next index to read. *)
Definition decodeStep (e : jsstring) (f : Z) (st : list Z * Z * Z) : list Z * Z * Z :=
  let '(u, s, _) := st in
  let t := js_or (js_or (js_or (js_shl (revLookup e f) 18) (js_shl (revLookup e (f + 1)) 12))
                        (js_shl (revLookup e (f + 2)) 6))
                 (revLookup e (f + 3)) in
  (zset (zset (zset u s (js_and (js_shr t 16) 255)) (s + 1) (js_and (js_shr t 8) 255))
        (s + 2) (js_and 255 t),
   s + 3, f + 4).

Definition toByteArray (e : jsstring) : res (list Z) :=
  let! (r, a) := getLens e in
  let len := 3 * (r + a) / 4 - a in
  if len <? 0 then Throw (RangeError "Invalid typed array length") else
  let c := if 0 <? a then r - 4 else r in
  let '(u, s, f) := forZ 0 c 4 (decodeStep e) (replicate (Z.to_nat len) 0, 0, 0) in
  let '(u, s) :=
    if a =? 2 then
      let t := js_or (js_shl (revLookup e f) 2) (js_shr (revLookup e (f + 1)) 4) in
      (zset u s (js_and 255 t), s + 1)
    else (u, s) in
  let '(u, s) :=
    if a =? 1 then
      let t := js_or (js_or (js_shl (revLookup e f) 10) (js_shl (revLookup e (f + 1)) 4))
                     (js_shr (revLookup e (f + 2)) 2) in
      (zset (zset u s (js_and (js_shr t 8) 255)) (s + 1) (js_and 255 t), s + 2)
    else (u, s) in
  Ok u.

(** The four characters the loop body appends for the group at [u]. *)
Definition quad (e : list Z) (u : Z) : jsstring :=
  let o := js_and (js_shl (nint (rd e u)) 16) 16711680
           + js_and (js_shl (nint (rd e (u + 1))) 8) 65280
           + js_and 255 (nint (rd e (u + 2))) in
  lookup (js_and (js_shr o 18) 63) ++ lookup (js_and (js_shr o 12) 63)
    ++ lookup (js_and (js_shr o 6) 63) ++ lookup (js_and 63 o).

Definition encodeChunk (e : list Z) (t n : Z) : jsstring :=
  forZ t n 3 (fun u a => a ++ quad e u) [].

Definition fromByteArray (e : list Z) : jsstring :=
  let n := zlen e in
  let o := n mod 3 in
  let u := n - o in
  let i := forZ 0 u 16383
             (fun a i => i ++ encodeChunk e a (if u <? a + 16383 then u else a + 16383)) [] in
  if o =? 1 then
    let t := nint (rd e (n - 1)) in
    i ++ lookup (js_shr t 2) ++ lookup (js_and (js_shl t 4) 63) ++ js "=="
  else if o =? 2 then
    let t := js_shl (nint (rd e (n - 2))) 8 + nint (rd e (n - 1)) in
    i ++ lookup (js_shr t 10) ++ lookup (js_and (js_shr t 4) 63)
      ++ lookup (js_and (js_shl t 2) 63) ++ js "="
  else i.

(** ** The specification *)

Definition sextet (i : Z) : Z := default 0 (zget code i).

Fixpoint ref_encode (bs : list Z) : jsstring :=
  match bs with
  | b0 :: b1 :: b2 :: rest =>
      sextet (b0 / 4) :: sextet (b0 mod 4 * 16 + b1 / 16)
      :: sextet (b1 mod 16 * 4 + b2 / 64) :: sextet (b2 mod 64) :: ref_encode rest
  | [b0; b1] => [sextet (b0 / 4); sextet (b0 mod 4 * 16 + b1 / 16); sextet (b1 mod 16 * 4); 61]
  | [b0] => [sextet (b0 / 4); sextet (b0 mod 4 * 16); 61; 61]
  | [] => []
  end.

Example enc_man : fromByteArray [77; 97; 110; 77] = js "TWFuTQ==".
Proof. vm_compute. reflexivity. Qed.
Example dec_man : toByteArray (js "TWFuTQ==") = Ok [77; 97; 110; 77].
Proof. vm_compute. reflexivity. Qed.
Example dec_bad : toByteArray (js "AAAA====") = Ok [0; 0].
Proof. vm_compute. reflexivity. Qed.


(** ** The tables *)

Lemma lookup_sextet i : 0 <= i < 64 -> lookup i = [sextet i].
Proof.
  intros Hi. apply (bool_decide_unpack (lookup i = [sextet i])).
  apply Is_true_true. revert i Hi. apply (forallb_below 64). vm_compute. reflexivity.
Qed.

Lemma assoc_sextet i : 0 <= i < 64 -> assoc (sextet i) revTable = Some i.
Proof.
  intros Hi. apply (bool_decide_unpack (assoc (sextet i) revTable = Some i)).
  apply Is_true_true. revert i Hi. apply (forallb_below 64). vm_compute. reflexivity.
Qed.

Lemma sextet_not_pad i : 0 <= i < 64 -> sextet i <> 61.
Proof.
  intros Hi. apply (bool_decide_unpack (sextet i <> 61)).
  apply Is_true_true. revert i Hi. apply (forallb_below 64). vm_compute. reflexivity.
Qed.

(** ** Bit arithmetic of one group *)

Lemma triple_word b0 b1 b2 :
  byte_ok b0 -> byte_ok b1 -> byte_ok b2 ->
  js_and (js_shl b0 16) 16711680 + js_and (js_shl b1 8) 65280 + js_and 255 b2
  = b0 * 65536 + b1 * 256 + b2.
Proof.
  intros H0 H1 H2. unfold byte_ok in *.
  rewrite !js_shl_mul by (unfold pow31; lia).
  change 255 with (2 ^ 8 - 1). rewrite js_and_ones_l by lia.
  assert (forall b k, 0 <= b < 256 -> 0 <= k <= 16 ->
    js_and (b * 2 ^ k) (255 * 2 ^ k) = b * 2 ^ k) as Hmask.
  { intros b k Hb Hk. assert (0 < 2 ^ k <= 2 ^ 16)
      by (split; [apply Z.pow_pos_nonneg; lia|apply Z.pow_le_mono_r; lia]).
    unfold js_and. rewrite !to_int32_small by (unfold pow31; nia).
    rewrite <- !Z.shiftl_mul_pow2, <- Z.shiftl_land by lia.
    change 255 with (Z.ones 8). rewrite Z.land_ones by lia.
    rewrite Z.mod_small; [done|lia]. }
  change 16711680 with (255 * 2 ^ 16). change 65280 with (255 * 2 ^ 8).
  rewrite (Hmask b0 16), (Hmask b1 8) by lia. dlia.
Qed.

Lemma word_sextets w :
  0 <= w < 16777216 ->
  js_and (js_shr w 18) 63 = w / 262144 /\
  js_and (js_shr w 12) 63 = w / 4096 mod 64 /\
  js_and (js_shr w 6) 63 = w / 64 mod 64 /\
  js_and 63 w = w mod 64.
Proof.
  intros H. rewrite !js_shr_div by (unfold pow31; lia).
  change 63 with (2 ^ 6 - 1). rewrite !js_and_ones, js_and_ones_l by lia.
  change (2 ^ 18) with 262144. change (2 ^ 12) with 4096. change (2 ^ 6) with 64.
  repeat split; dlia.
Qed.

Lemma sextets_word x0 x1 x2 x3 :
  0 <= x0 < 64 -> 0 <= x1 < 64 -> 0 <= x2 < 64 -> 0 <= x3 < 64 ->
  js_or (js_or (js_or (js_shl x0 18) (js_shl x1 12)) (js_shl x2 6)) x3
  = x0 * 262144 + x1 * 4096 + x2 * 64 + x3.
Proof.
  intros. rewrite !js_shl_mul by (unfold pow31; lia).
  rewrite js_or_add by (unfold pow31; lia).
  replace (x0 * 2 ^ 18 + x1 * 2 ^ 12) with ((x0 * 64 + x1) * 2 ^ 12) by lia.
  rewrite js_or_add by (unfold pow31; lia).
  replace ((x0 * 64 + x1) * 2 ^ 12 + x2 * 2 ^ 6) with ((x0 * 4096 + x1 * 64 + x2) * 2 ^ 6) by lia.
  rewrite js_or_add by (unfold pow31; lia). lia.
Qed.

Lemma word_bytes w :
  0 <= w < 16777216 ->
  js_and (js_shr w 16) 255 = w / 65536 /\
  js_and (js_shr w 8) 255 = w / 256 mod 256 /\
  js_and 255 w = w mod 256.
Proof.
  intros H. rewrite !js_shr_div by (unfold pow31; lia).
  change 255 with (2 ^ 8 - 1). rewrite !js_and_ones, js_and_ones_l by lia.
  change (2 ^ 16) with 65536. change (2 ^ 8) with 256. repeat split; dlia.
Qed.

(** ** Encoding *)

(** Induction by groups of three. *)
Lemma triples_ind (P : list Z -> Prop) :
  P [] -> (forall b0 b1 b2 l, P l -> P (b0 :: b1 :: b2 :: l)) ->
  forall l, zlen l mod 3 = 0 -> P l.
Proof.
  intros H0 H3 l. remember (length l) as n eqn:Hn. revert l Hn.
  induction n as [n IH] using lt_wf_ind. intros l -> Hm.
  destruct l as [|b0 [|b1 [|b2 l]]]; try done.
  apply H3, (IH (length l)); [simpl; lia|done|]. unfold zlen in *. simpl in Hm. dlia.
Qed.

Lemma ref_encode_app l k :
  zlen l mod 3 = 0 -> ref_encode (l ++ k) = ref_encode l ++ ref_encode k.
Proof.
  intros H. revert l H. apply triples_ind; [done|].
  intros b0 b1 b2 l IH. simpl. by rewrite IH.
Qed.

Lemma triple_sextets b0 b1 b2 :
  byte_ok b0 -> byte_ok b1 -> byte_ok b2 ->
  let w := b0 * 65536 + b1 * 256 + b2 in
  w / 262144 = b0 / 4 /\ w / 4096 mod 64 = b0 mod 4 * 16 + b1 / 16 /\
  w / 64 mod 64 = b1 mod 16 * 4 + b2 / 64 /\ w mod 64 = b2 mod 64.
Proof. unfold byte_ok. intros. cbv zeta. repeat split; dlia. Qed.

Lemma quad_bytes e u b0 b1 b2 :
  byte_ok b0 -> byte_ok b1 -> byte_ok b2 ->
  rd e u = Num b0 -> rd e (u + 1) = Num b1 -> rd e (u + 2) = Num b2 ->
  quad e u = [sextet (b0 / 4); sextet (b0 mod 4 * 16 + b1 / 16);
              sextet (b1 mod 16 * 4 + b2 / 64); sextet (b2 mod 64)].
Proof.
  intros H0 H1 H2 R0 R1 R2. unfold quad. rewrite R0, R1, R2, !nint_byte, triple_word by done.
  cbv zeta. destruct (word_sextets (b0 * 65536 + b1 * 256 + b2)) as (-> & -> & -> & ->);
    [unfold byte_ok in *; lia|].
  destruct (triple_sextets b0 b1 b2) as (-> & -> & -> & ->); [done..|].
  unfold byte_ok in *. rewrite !lookup_sextet by dlia. reflexivity.
Qed.

Lemma encodeChunk_loop e ts pre post acc :
  zlen ts mod 3 = 0 -> bytes_ok ts -> e = pre ++ ts ++ post ->
  forZ (zlen pre) (zlen pre + zlen ts) 3 (fun u a => a ++ quad e u) acc
  = acc ++ ref_encode ts.
Proof.
  intros Hm Hok He. revert pre acc Hok He. pattern ts. apply triples_ind; [| |done]; clear ts Hm.
  - intros pre acc _ _. rewrite forZ_done by (unfold zlen; simpl; lia). by rewrite app_nil_r.
  - intros b0 b1 b2 l IH pre acc Hok He.
    rewrite !bytes_ok_cons in Hok. destruct Hok as (H0 & H1 & H2 & Hok).
    rewrite forZ_step by (unfold zlen; simpl; lia).
    replace (zlen pre + zlen (b0 :: b1 :: b2 :: l)) with (zlen (pre ++ [b0; b1; b2]) + zlen l)
      by (unfold zlen; rewrite length_app; simpl; lia).
    replace (zlen pre + 3) with (zlen (pre ++ [b0; b1; b2])) by (by rewrite zlen_app).
    rewrite IH; [|done|by rewrite <- app_assoc].
    rewrite (quad_bytes e (zlen pre) b0 b1 b2); try done; rewrite ?He.
    + by rewrite <- app_assoc.
    + by rewrite <- (Z.add_0_r (zlen pre)), rd_app_at by lia.
    + by rewrite rd_app_at by lia.
    + by rewrite rd_app_at by lia.
Qed.

Lemma encodeChunk_ref e t n :
  bytes_ok e -> 0 <= t <= n -> n <= zlen e -> (n - t) mod 3 = 0 ->
  encodeChunk e t n = ref_encode (zsub e t n).
Proof.
  intros Hok Ht Hn Hm. destruct (zsub_split e t n) as (pre & post & He & Hpre & Hlen); [done|done|].
  rewrite <- (app_nil_l (ref_encode _)), <- (encodeChunk_loop e (zsub e t n) pre post []).
  - unfold encodeChunk. rewrite Hlen, Hpre. by replace (t + (n - t)) with n by lia.
  - by rewrite Hlen.
  - by apply Forall_zsub.
  - done.
Qed.

(** The outer loop encodes the whole groups, 16383 bytes at a time. *)
Lemma chunks_ref e u :
  bytes_ok e -> 0 <= u <= zlen e -> u mod 3 = 0 ->
  forZ 0 u 16383
    (fun a i => i ++ encodeChunk e a (if u <? a + 16383 then u else a + 16383)) []
  = ref_encode (zsub e 0 u).
Proof.
  intros Hok Hu Hm.
  destruct (forZ_inv (fun a i => a mod 3 = 0 /\ i = ref_encode (zsub e 0 (Z.min a u)))
    0 u 16383 (fun a i => i ++ encodeChunk e a (if u <? a + 16383 then u else a + 16383)) [])
    as (j & Hj & _ & _ & ->); [lia| | |].
  - by rewrite Z.min_l by lia.
  - intros a i Ha [Ha3 ->]. split; [dlia|].
    rewrite (Z.min_l a) by lia.
    replace (if u <? a + 16383 then u else a + 16383) with (Z.min (a + 16383) u)
      by (destruct (Z.ltb_spec u (a + 16383)); lia).
    rewrite encodeChunk_ref by (try done; dlia).
    rewrite <- ref_encode_app.
    + by rewrite zsub_adjacent by lia.
    + destruct (zsub_split e 0 a) as (? & ? & ? & ? & ->); lia || dlia.
  - by rewrite Z.min_r by lia.
Qed.

Lemma tail_one e b :
  byte_ok b -> lookup (js_shr b 2) ++ lookup (js_and (js_shl b 4) 63) ++ js e
  = sextet (b / 4) :: sextet (b mod 4 * 16) :: js e.
Proof.
  unfold byte_ok. intros H. rewrite js_shr_div, js_shl_mul by (unfold pow31; lia).
  change 63 with (2 ^ 6 - 1). rewrite js_and_ones by lia.
  change (2 ^ 2) with 4. change (2 ^ 4) with 16. change (2 ^ 6) with 64.
  replace (b * 16 mod 64) with (b mod 4 * 16) by dlia.
  by rewrite !lookup_sextet by dlia.
Qed.

Lemma tail_two e b0 b1 :
  byte_ok b0 -> byte_ok b1 ->
  let t := js_shl b0 8 + b1 in
  lookup (js_shr t 10) ++ lookup (js_and (js_shr t 4) 63)
    ++ lookup (js_and (js_shl t 2) 63) ++ js e
  = sextet (b0 / 4) :: sextet (b0 mod 4 * 16 + b1 / 16) :: sextet (b1 mod 16 * 4) :: js e.
Proof.
  unfold byte_ok. intros H0 H1. rewrite js_shl_mul by (unfold pow31; lia). cbv zeta.
  change (2 ^ 8) with 256.
  rewrite !js_shr_div, js_shl_mul by (unfold pow31; lia).
  change 63 with (2 ^ 6 - 1). rewrite !js_and_ones by lia.
  change (2 ^ 2) with 4. change (2 ^ 4) with 16. change (2 ^ 6) with 64. change (2 ^ 10) with 1024.
  replace ((b0 * 256 + b1) / 1024) with (b0 / 4) by dlia.
  replace ((b0 * 256 + b1) / 16 mod 64) with (b0 mod 4 * 16 + b1 / 16) by dlia.
  replace ((b0 * 256 + b1) * 4 mod 64) with (b1 mod 16 * 4) by dlia.
  by rewrite !lookup_sextet by dlia.
Qed.

(** The bytes after the last whole group. *)
Lemma tail_split (e : list Z) :
  exists p t : list Z, e = p ++ t /\ zlen p = zlen e - zlen e mod 3 /\ zlen t = zlen e mod 3 /\
    zsub e 0 (zlen e - zlen e mod 3) = p.
Proof.
  pose proof (zlen_nonneg e).
  destruct (zsub_split e 0 (zlen e - zlen e mod 3)) as (pre & post & He & Hp & Hl); [dlia|dlia|].
  destruct pre; [|unfold zlen in Hp; simpl in Hp; lia]. simpl in He.
  exists (zsub e 0 (zlen e - zlen e mod 3)), post. repeat split; [done|lia|].
  apply (f_equal (@zlen Z)) in He. rewrite zlen_app in He. lia.
Qed.

Lemma encode_is_ref bs : bytes_ok bs -> fromByteArray bs = ref_encode bs.
Proof.
  intros Hok. unfold fromByteArray. pose proof (zlen_nonneg bs).
  rewrite chunks_ref by (try done; dlia).
  destruct (tail_split bs) as (p & t & He & Hp & Ht & ->).
  assert (zlen p mod 3 = 0) by (rewrite Hp; dlia).
  assert (Hok' : bytes_ok t).
  { unfold bytes_ok in Hok. rewrite He, Forall_app in Hok. apply Hok. }
  clear Hok. rename Hok' into Hok.
  assert (Hrd : forall j, 0 <= j -> rd bs (zlen p + j) = rd t j).
  { intros. rewrite He. by apply rd_app_at. }
  replace (ref_encode bs) with (ref_encode p ++ ref_encode t)
    by (rewrite He, ref_encode_app; done).
  destruct t as [|b0 [|b1 [|b2 t]]].
  4: { unfold zlen in Ht at 1. simpl in Ht. dlia. }
  - change (zlen []) with 0 in Ht. rewrite <- Ht. simpl. by rewrite app_nil_r.
  - change (zlen [b0]) with 1 in Ht. rewrite <- Ht. simpl (_ =? _).
    replace (zlen bs - 1) with (zlen p + 0) by lia. rewrite Hrd by lia.
    apply bytes_ok_cons in Hok as [Hb0 _].
    change (rd [b0] 0) with (Num b0). rewrite nint_byte by done.
    cbv iota zeta. f_equal. by rewrite tail_one.
  - change (zlen [b0; b1]) with 2 in Ht. rewrite <- Ht. simpl (_ =? _).
    replace (zlen bs - 2) with (zlen p + 0) by lia. replace (zlen bs - 1) with (zlen p + 1) by lia.
    rewrite !Hrd by lia. rewrite !bytes_ok_cons in Hok. destruct Hok as (Hb0 & Hb1 & _).
    change (rd [b0; b1] 0) with (Num b0). change (rd [b0; b1] 1) with (Num b1).
    rewrite !nint_byte by done. cbv iota. f_equal. by apply tail_two.
Qed.

(** ** Decoding *)

Lemma revLookup_sextet e i x : zget e i = Some (sextet x) -> 0 <= x < 64 -> revLookup e i = x.
Proof. intros He Hx. unfold revLookup. by rewrite He, assoc_sextet. Qed.

Lemma sextets_of_triple b0 b1 b2 :
  byte_ok b0 -> byte_ok b1 -> byte_ok b2 ->
  b0 / 4 * 262144 + (b0 mod 4 * 16 + b1 / 16) * 4096 + (b1 mod 16 * 4 + b2 / 64) * 64 + b2 mod 64
  = b0 * 65536 + b1 * 256 + b2.
Proof. unfold byte_ok. intros. dlia. Qed.

Lemma word_of_triple b0 b1 b2 :
  byte_ok b0 -> byte_ok b1 -> byte_ok b2 ->
  let w := b0 * 65536 + b1 * 256 + b2 in
  w / 65536 = b0 /\ w / 256 mod 256 = b1 /\ w mod 256 = b2.
Proof. unfold byte_ok. intros. cbv zeta. repeat split; dlia. Qed.

Lemma sextet_ranges b0 b1 b2 :
  byte_ok b0 -> byte_ok b1 -> byte_ok b2 ->
  0 <= b0 / 4 < 64 /\ 0 <= b0 mod 4 * 16 + b1 / 16 < 64 /\
  0 <= b1 mod 16 * 4 + b2 / 64 < 64 /\ 0 <= b2 mod 64 < 64.
Proof. unfold byte_ok. intros. repeat split; dlia. Qed.

Lemma decodeStep_triple pre b0 b1 b2 post dn z0 z1 z2 rest f0 :
  byte_ok b0 -> byte_ok b1 -> byte_ok b2 ->
  decodeStep (pre ++ ref_encode [b0; b1; b2] ++ post) (zlen pre)
    (dn ++ z0 :: z1 :: z2 :: rest, zlen dn, f0)
  = (dn ++ b0 :: b1 :: b2 :: rest, zlen dn + 3, zlen pre + 4).
Proof.
  intros H0 H1 H2. destruct (sextet_ranges b0 b1 b2) as (R0 & R1 & R2 & R3); [done..|].
  unfold decodeStep.
  rewrite (revLookup_sextet _ (zlen pre) (b0 / 4)),
          (revLookup_sextet _ (zlen pre + 1) (b0 mod 4 * 16 + b1 / 16)),
          (revLookup_sextet _ (zlen pre + 2) (b1 mod 16 * 4 + b2 / 64)),
          (revLookup_sextet _ (zlen pre + 3) (b2 mod 64));
    try done; try (by rewrite zget_app_at by lia).
  2: { by rewrite <- (Z.add_0_r (zlen pre)), zget_app_at by lia. }
  rewrite sextets_word, sextets_of_triple by done.
  destruct (word_bytes (b0 * 65536 + b1 * 256 + b2)) as (-> & -> & ->);
    [unfold byte_ok in *; lia|].
  destruct (word_of_triple b0 b1 b2) as (-> & -> & ->); [done..|].
  rewrite <- (Z.add_0_r (zlen dn)) at 1. by rewrite !zset_app_at by lia.
Qed.

Lemma zlen_ref_triples ts : zlen ts mod 3 = 0 -> 3 * zlen (ref_encode ts) = 4 * zlen ts.
Proof.
  intros H. pattern ts. apply triples_ind; [done| |done].
  intros b0 b1 b2 l. unfold zlen. simpl. lia.
Qed.

Lemma decode_loop e ts pre post dn zs rest stop f0 :
  zlen ts mod 3 = 0 -> bytes_ok ts -> e = pre ++ ref_encode ts ++ post ->
  zlen zs = zlen ts ->
  zlen pre + zlen (ref_encode ts) - 4 < stop <= zlen pre + zlen (ref_encode ts) ->
  f0 = zlen pre ->
  forZ (zlen pre) stop 4 (decodeStep e) (dn ++ zs ++ rest, zlen dn, f0)
  = (dn ++ ts ++ rest, zlen dn + zlen ts, zlen pre + zlen (ref_encode ts)).
Proof.
  intros Hm. revert pre dn zs f0. pattern ts. apply triples_ind; [| |done]; clear ts Hm.
  - intros pre dn zs f0 _ -> Hz Hst ->. rewrite forZ_done by (unfold zlen in *; simpl in *; lia).
    destruct zs; [|unfold zlen in Hz; simpl in Hz; lia].
    rewrite !Z.add_0_r. done.
  - intros b0 b1 b2 l IH pre dn zs f0 Hok He Hz Hst ->.
    rewrite !bytes_ok_cons in Hok. destruct Hok as (H0 & H1 & H2 & Hok).
    destruct zs as [|z0 [|z1 [|z2 zs]]]; try (unfold zlen in Hz; simpl in Hz; lia).
    change (ref_encode (b0 :: b1 :: b2 :: l)) with (ref_encode [b0; b1; b2] ++ ref_encode l) in *.
    rewrite zlen_app in Hst. change (zlen (ref_encode [b0; b1; b2])) with 4 in Hst.
    pose proof (zlen_nonneg (ref_encode l)).
    assert (Hstep : decodeStep e (zlen pre) (dn ++ (z0 :: z1 :: z2 :: zs) ++ rest, zlen dn, zlen pre)
      = (dn ++ b0 :: b1 :: b2 :: zs ++ rest, zlen dn + 3, zlen pre + 4)).
    { rewrite He, <- app_assoc. by apply decodeStep_triple. }
    rewrite forZ_step by lia. rewrite Hstep.
    specialize (IH (pre ++ ref_encode [b0; b1; b2]) (dn ++ [b0; b1; b2]) zs (zlen pre + 4)).
    rewrite <- !app_assoc in IH. rewrite !zlen_app in IH.
    change (zlen (ref_encode [b0; b1; b2])) with 4 in IH.
    change (zlen [b0; b1; b2]) with 3 in IH. simpl app in IH. simpl app.
    rewrite IH; [|done|by rewrite He, <- app_assoc|unfold zlen in *; simpl in *; lia|lia|done].
    apply f_equal2; [apply f_equal2; [done|]|]; unfold zlen; simpl; lia.
Qed.

(** The valid length and the padding [getLens] finds in an encoding. *)
Lemma ref_triples_no_pad ts : zlen ts mod 3 = 0 -> bytes_ok ts -> 61 ∉ ref_encode ts.
Proof.
  intros H. pattern ts. apply triples_ind; [| |done]; clear ts H.
  - intros _. apply not_elem_of_nil.
  - intros b0 b1 b2 l IH Hok. rewrite !bytes_ok_cons in Hok. destruct Hok as (H0 & H1 & H2 & Hok).
    destruct (sextet_ranges b0 b1 b2) as (R0 & R1 & R2 & R3); [done..|].
    simpl. rewrite !not_elem_of_cons.
    split_and!; [| | | |by apply IH]; intros Heq; symmetry in Heq; by apply sextet_not_pad in Heq.
Qed.

(** Every byte array is whole groups followed by at most two bytes. *)
Inductive shape : list Z -> Prop :=
| shape0 ts : zlen ts mod 3 = 0 -> shape ts
| shape1 ts b : zlen ts mod 3 = 0 -> shape (ts ++ [b])
| shape2 ts b0 b1 : zlen ts mod 3 = 0 -> shape (ts ++ [b0; b1]).

Lemma shape_of bs : shape bs.
Proof.
  destruct (tail_split bs) as (p & t & He & Hp & Ht & _).
  assert (zlen p mod 3 = 0) by (rewrite Hp; pose proof (zlen_nonneg bs); dlia).
  rewrite He in Ht |- *. destruct t as [|b0 [|b1 [|b2 t]]].
  - rewrite app_nil_r. by constructor.
  - by constructor.
  - by constructor.
  - unfold zlen in Ht at 1. simpl in Ht. dlia.
Qed.

Lemma tail_one_decode b :
  byte_ok b ->
  js_and 255 (js_or (js_shl (b / 4) 2) (js_shr (b mod 4 * 16) 4)) = b.
Proof.
  unfold byte_ok. intros H. rewrite js_shl_mul, js_shr_div by (unfold pow31; dlia).
  rewrite js_or_add by (unfold pow31; change (2 ^ 4) with 16; change (2 ^ 2) with 4; dlia).
  change 255 with (2 ^ 8 - 1). rewrite js_and_ones_l by lia.
  change (2 ^ 4) with 16; change (2 ^ 2) with 4; change (2 ^ 8) with 256. dlia.
Qed.

Lemma tail_two_decode b0 b1 :
  byte_ok b0 -> byte_ok b1 ->
  let t := js_or (js_or (js_shl (b0 / 4) 10) (js_shl (b0 mod 4 * 16 + b1 / 16) 4))
                 (js_shr (b1 mod 16 * 4) 2) in
  js_and (js_shr t 8) 255 = b0 /\ js_and 255 t = b1.
Proof.
  unfold byte_ok. intros H0 H1. cbv zeta.
  assert (0 <= b0 / 4 < 64 /\ 0 <= b0 mod 4 * 16 + b1 / 16 < 64 /\ 0 <= b1 mod 16 * 4 < 64) by dlia.
  rewrite !js_shl_mul, (js_shr_div (b1 mod 16 * 4)) by (unfold pow31; lia).
  rewrite (js_or_add (b0 / 4)) by (unfold pow31; lia).
  replace (b0 / 4 * 2 ^ 10 + (b0 mod 4 * 16 + b1 / 16) * 2 ^ 4)
    with ((b0 * 16 + b1 / 16) * 2 ^ 4) by dlia.
  replace (b1 mod 16 * 4 / 2 ^ 2) with (b1 mod 16) by dlia.
  rewrite js_or_add by (unfold pow31; dlia).
  replace ((b0 * 16 + b1 / 16) * 2 ^ 4 + b1 mod 16) with (b0 * 256 + b1) by dlia.
  rewrite js_shr_div by (unfold pow31; lia).
  change 255 with (2 ^ 8 - 1). rewrite js_and_ones, js_and_ones_l by lia. split; dlia.
Qed.

Lemma getLens_whole ts :
  zlen ts mod 3 = 0 -> bytes_ok ts ->
  getLens (ref_encode ts) = Ok (zlen (ref_encode ts), 0).
Proof.
  intros Hm Hok. unfold getLens. pose proof (zlen_ref_triples ts Hm). pose proof (zlen_nonneg ts).
  rewrite index_of_none by (by apply ref_triples_no_pad).
  destruct (Z.ltb_spec 0 (zlen (ref_encode ts) mod 4)); [dlia|].
  simpl. by rewrite Z.eqb_refl.
Qed.

Lemma getLens_padded ts w k :
  zlen ts mod 3 = 0 -> bytes_ok ts -> 61 ∉ w -> 1 <= k <= 3 -> zlen w = 4 - k ->
  getLens (ref_encode ts ++ w ++ replicate (Z.to_nat k) 61)
  = Ok (zlen (ref_encode ts) + zlen w, k).
Proof.
  intros Hm Hok Hw Hk Hlw. unfold getLens. pose proof (zlen_ref_triples ts Hm).
  pose proof (zlen_nonneg ts).
  set (e := ref_encode ts ++ w ++ replicate (Z.to_nat k) 61).
  assert (He : zlen e = zlen (ref_encode ts) + 4).
  { unfold e. rewrite !zlen_app, Hlw. unfold zlen at 2. rewrite length_replicate. lia. }
  assert (Hi : index_of 61 e = zlen (ref_encode ts) + zlen w).
  { unfold e. destruct (Z.to_nat k) as [|k'] eqn:E; [lia|]. simpl. rewrite app_assoc.
    rewrite index_of_app, zlen_app; [done|]. rewrite elem_of_app.
    intros [Hin|Hin]; [by apply ref_triples_no_pad in Hin|done]. }
  rewrite He, Hi. destruct (Z.ltb_spec 0 ((zlen (ref_encode ts) + 4) mod 4)); [dlia|].
  destruct (Z.eqb_spec (zlen (ref_encode ts) + zlen w) (-1)); [lia|].
  destruct (Z.eqb_spec (zlen (ref_encode ts) + zlen w) (zlen (ref_encode ts) + 4)); [lia|].
  do 2 f_equal. dlia.
Qed.

(** The decoding loop on an encoding: the whole groups are in place and the
    cursors stand after them. *)
Lemma decode_groups ts w stop m :
  zlen ts mod 3 = 0 -> bytes_ok ts ->
  zlen (ref_encode ts) - 4 < stop <= zlen (ref_encode ts) ->
  forZ 0 stop 4 (decodeStep (ref_encode ts ++ w))
    (replicate (length ts + m) 0, 0, 0)
  = (ts ++ replicate m 0, zlen ts, zlen (ref_encode ts)).
Proof.
  intros Hm Hok Hst.
  pose proof (decode_loop (ref_encode ts ++ w) ts [] w [] (replicate (length ts) 0)
    (replicate m 0) stop 0) as Hl.
  rewrite replicate_add. change (zlen []) with 0 in Hl. rewrite !Z.add_0_l in Hl.
  apply Hl; try done. unfold zlen. by rewrite length_replicate.
Qed.

Lemma toByteArray_whole ts :
  zlen ts mod 3 = 0 -> bytes_ok ts -> toByteArray (ref_encode ts) = Ok ts.
Proof.
  intros Hm Hok. unfold toByteArray. rewrite getLens_whole by done. simpl res_bind.
  pose proof (zlen_ref_triples ts Hm). pose proof (zlen_nonneg ts).
  replace (3 * (zlen (ref_encode ts) + 0) / 4 - 0) with (zlen ts) by dlia.
  destruct (Z.ltb_spec (zlen ts) 0); [lia|]. simpl (if 0 <? 0 then _ else _).
  replace (Z.to_nat (zlen ts)) with (length ts + 0)%nat by (unfold zlen; lia).
  pose proof (decode_groups ts [] (zlen (ref_encode ts)) 0) as Hd. rewrite app_nil_r in Hd.
  rewrite Hd by (done || lia). simpl. by rewrite app_nil_r.
Qed.

Lemma toByteArray_one ts b :
  zlen ts mod 3 = 0 -> bytes_ok ts -> byte_ok b ->
  toByteArray (ref_encode (ts ++ [b])) = Ok (ts ++ [b]).
Proof.
  intros Hm Hok Hb. unfold toByteArray. rewrite ref_encode_app by done.
  pose proof (sextet_ranges b 0 0 Hb) as (R0 & R1 & _); [done|done|].
  change (0 / 16) with 0 in R1. rewrite Z.add_0_r in R1.
  set (w := [sextet (b / 4); sextet (b mod 4 * 16)]).
  change (ref_encode [b]) with (w ++ replicate (Z.to_nat 2) 61).
  rewrite getLens_padded; [|done|done| |lia|done].
  2: { unfold w. rewrite !not_elem_of_cons. split_and!; [..|apply not_elem_of_nil];
       intros Heq; symmetry in Heq; by apply sextet_not_pad in Heq. }
  simpl res_bind. change (zlen w) with 2. pose proof (zlen_ref_triples ts Hm).
  pose proof (zlen_nonneg ts).
  replace (3 * (zlen (ref_encode ts) + 2 + 2) / 4 - 2) with (zlen ts + 1) by dlia.
  destruct (Z.ltb_spec (zlen ts + 1) 0); [lia|]. simpl (if 0 <? 2 then _ else _).
  replace (Z.to_nat (zlen ts + 1)) with (length ts + 1)%nat by (unfold zlen; lia).
  rewrite decode_groups by (done || lia). simpl (_ =? _). cbv iota beta zeta.
  rewrite (revLookup_sextet _ (zlen (ref_encode ts)) (b / 4)),
          (revLookup_sextet _ (zlen (ref_encode ts) + 1) (b mod 4 * 16)); try done.
  - rewrite tail_one_decode by done.
    rewrite <- (Z.add_0_r (zlen ts)), zset_app_at by lia. done.
  - by rewrite zget_app_at by lia.
  - by rewrite <- (Z.add_0_r (zlen (ref_encode ts))), zget_app_at by lia.
Qed.

Lemma toByteArray_two ts b0 b1 :
  zlen ts mod 3 = 0 -> bytes_ok ts -> byte_ok b0 -> byte_ok b1 ->
  toByteArray (ref_encode (ts ++ [b0; b1])) = Ok (ts ++ [b0; b1]).
Proof.
  intros Hm Hok H0 H1. unfold toByteArray. rewrite ref_encode_app by done.
  pose proof (sextet_ranges b0 b1 0 H0 H1) as (R0 & R1 & R2 & _); [done|].
  change (0 / 64) with 0 in R2. rewrite Z.add_0_r in R2.
  set (w := [sextet (b0 / 4); sextet (b0 mod 4 * 16 + b1 / 16); sextet (b1 mod 16 * 4)]).
  change (ref_encode [b0; b1]) with (w ++ replicate (Z.to_nat 1) 61).
  rewrite getLens_padded; [|done|done| |lia|done].
  2: { unfold w. rewrite !not_elem_of_cons. split_and!; [..|apply not_elem_of_nil];
       intros Heq; symmetry in Heq; by apply sextet_not_pad in Heq. }
  simpl res_bind. change (zlen w) with 3. pose proof (zlen_ref_triples ts Hm).
  pose proof (zlen_nonneg ts).
  replace (3 * (zlen (ref_encode ts) + 3 + 1) / 4 - 1) with (zlen ts + 2) by dlia.
  destruct (Z.ltb_spec (zlen ts + 2) 0); [lia|]. simpl (if 0 <? 1 then _ else _).
  replace (Z.to_nat (zlen ts + 2)) with (length ts + 2)%nat by (unfold zlen; lia).
  rewrite decode_groups by (done || lia). simpl (_ =? _). cbv iota beta zeta.
  rewrite (revLookup_sextet _ (zlen (ref_encode ts)) (b0 / 4)),
          (revLookup_sextet _ (zlen (ref_encode ts) + 1) (b0 mod 4 * 16 + b1 / 16)),
          (revLookup_sextet _ (zlen (ref_encode ts) + 2) (b1 mod 16 * 4)); try done.
  - destruct (tail_two_decode b0 b1) as [-> ->]; [done..|].
    rewrite <- (Z.add_0_r (zlen ts)) at 1. by rewrite !zset_app_at by lia.
  - by rewrite zget_app_at by lia.
  - by rewrite zget_app_at by lia.
  - by rewrite <- (Z.add_0_r (zlen (ref_encode ts))), zget_app_at by lia.
Qed.

Lemma toByteArray_ref bs : bytes_ok bs -> toByteArray (ref_encode bs) = Ok bs.
Proof.
  intros Hok. destruct (shape_of bs) as [ts|ts b|ts b0 b1].
  - by apply toByteArray_whole.
  - apply Forall_app in Hok as [? Hb]. apply bytes_ok_cons in Hb as [? _].
    by apply toByteArray_one.
  - apply Forall_app in Hok as [? Hb]. rewrite !Forall_cons_iff in Hb. destruct Hb as (? & ? & _).
    by apply toByteArray_two.
Qed.

(** The sextets of an encoding, without the padding. *)
Fixpoint sextets (bs : list Z) : list Z :=
  match bs with
  | b0 :: b1 :: b2 :: rest =>
      b0 / 4 :: b0 mod 4 * 16 + b1 / 16 :: b1 mod 16 * 4 + b2 / 64 :: b2 mod 64 :: sextets rest
  | [b0; b1] => [b0 / 4; b0 mod 4 * 16 + b1 / 16; b1 mod 16 * 4]
  | [b0] => [b0 / 4; b0 mod 4 * 16]
  | [] => []
  end.

Lemma triples_ind_all (P : list Z -> Prop) :
  P [] -> (forall a, P [a]) -> (forall a b, P [a; b]) ->
  (forall a b c l, P l -> P (a :: b :: c :: l)) -> forall l, P l.
Proof.
  intros H0 H1 H2 H3. fix IH 1. intros [|a [|b [|c l]]]; [done|apply H1|apply H2|apply H3, IH].
Qed.

Lemma ref_encode_sextets bs :
  exists pad, (pad <= 2)%nat /\
    ref_encode bs = map sextet (sextets bs) ++ replicate pad 61 /\
    (zlen (sextets bs) + Z.of_nat pad) mod 4 = 0 /\ (bs <> [] -> 2 <= zlen (sextets bs)).
Proof.
  induction bs as [|a|a b|a b c l (pad & Hp & He & Hm & Hl)] using triples_ind_all.
  - exists 0%nat. split_and!; [lia|done|done|done].
  - exists 2%nat. split_and!; [lia|done|done|]. intros _. unfold zlen. simpl. lia.
  - exists 1%nat. split_and!; [lia|done|done|]. intros _. unfold zlen. simpl. lia.
  - exists pad. split; [done|]. simpl. rewrite He. unfold zlen in *. simpl length. split_and!; [done| |lia].
    rewrite !Nat2Z.inj_succ. dlia.
Qed.

Lemma sextets_range bs : bytes_ok bs -> Forall (fun i => 0 <= i < 64) (sextets bs).
Proof.
  induction bs as [|a|a b|a b c l IH] using triples_ind_all; intros Hb;
    repeat (apply bytes_ok_cons in Hb as [? Hb]); unfold byte_ok in *; simpl;
    repeat (constructor; [dlia|]); try constructor. by apply IH.
Qed.

(** Decoding what [fromByteArray] encoded gives back the bytes, for every
    byte array (all three padding cases). *)
Theorem base64_roundtrip bs : bytes_ok bs -> toByteArray (fromByteArray bs) = Ok bs.
Proof. intros H. rewrite encode_is_ref by done. by apply toByteArray_ref. Qed.

Lemma base64_roundtrip_witness : toByteArray (fromByteArray [0; 255; 17; 94]) = Ok [0; 255; 17; 94].
Proof. apply base64_roundtrip. repeat constructor; concrete. Defined.

(** [fromByteArray], which cuts its input in chunks of 16383 bytes, is the
    standard encoding: sextets of the bit string, padded with [=]. *)
Theorem encode_standard bs : bytes_ok bs -> fromByteArray bs = ref_encode bs.
Proof. apply encode_is_ref. Qed.

Lemma encode_standard_witness : fromByteArray [77; 97] = ref_encode [77; 97].
Proof. apply encode_standard. repeat constructor; concrete. Defined.

End Base64.
