(* ===== verification/BufferInt.v ===== *)
(** * Buffer: integer reads and writes

    Models the numeric accessors of module 54 of
    src/client/docs/swagger-ui/swagger-ui-bundle.js (the browser port of Node's
    Buffer): the range checks, the generic 1..6-byte readers and writers, the
    8/16/32-bit ones and the byte-wise fallback stores.  [this] is the list of
    bytes of the buffer, a store goes through the conversion of a Uint8Array, a
    read out of range is [Undef], a writer returns the new bytes with the offset
    it returns.  Numbers are exact integers, which JavaScript's doubles are up to
    2^53: that covers the 6 bytes the accessors document.

    The specification is positional notation: [le_bytes n z] are the [n] base-256
    digits of [z], least significant first, and [le_val] is their value. *)

From S2P Require Import Prelude.
From Stdlib Require Import String.
From stdpp Require Import base numbers list strings option.
Open Scope Z_scope.

Module BufferInt.

(** ** The code *)

(** [this[i] = v] on a Uint8Array. *)
Definition st (this : list Z) (i v : Z) : list Z := zset this i (to_uint8 v).

Definition checkOffset (e t n : Z) : res unit :=
  if e <? 0 then Throw (RangeError "offset is not uint")
  else if n <? e + t then Throw (RangeError "Trying to access beyond buffer length")
  else Ok tt.

Definition checkInt (this : list Z) (value offset ext max min : Z) : res unit :=
  if (max <? value) || (value <? min) then Throw (RangeError "'value' argument is out of bounds")
  else if zlen this <? offset + ext then Throw (RangeError "Index out of range")
  else Ok tt.

(** [noAssert || check]. *)
Definition unless (noAssert : bool) (c : res unit) : res unit :=
  if noAssert then Ok tt else c.

(** One round of a reading loop: [o *= 256] and [r += v * o]. *)
Definition addDigit (v : num) (s : num * Z) : num * Z :=
  let '(r, o) := s in (num_add r (num_mul v (Num (o * 256))), o * 256).

Definition readUIntLE (this : list Z) (e t : Z) (noAssert : bool) : res num :=
  let e := to_int32 e in
  let t := to_int32 t in
  let! _ := unless noAssert (checkOffset e t (zlen this)) in
  Ok (fst (forZ 1 t 1 (fun i => addDigit (rd this (e + i))) (rd this e, 1))).

(** The [j]-th round of the loop reads [this[e + t - 2 - j]]. *)
Definition readUIntBE (this : list Z) (e t : Z) (noAssert : bool) : res num :=
  let e := to_int32 e in
  let t := to_int32 t in
  let! _ := unless noAssert (checkOffset e t (zlen this)) in
  let t := t - 1 in
  Ok (fst (forZ 0 t 1 (fun j => addDigit (rd this (e + (t - 1 - j)))) (rd this (e + t), 1))).

Definition readUInt8 (this : list Z) (e : Z) (noAssert : bool) : res num :=
  let! _ := unless noAssert (checkOffset e 1 (zlen this)) in
  Ok (rd this e).

Definition readUInt16LE (this : list Z) (e : Z) (noAssert : bool) : res Z :=
  let! _ := unless noAssert (checkOffset e 2 (zlen this)) in
  Ok (js_or (nint (rd this e)) (js_shl (nint (rd this (e + 1))) 8)).

Definition readUInt16BE (this : list Z) (e : Z) (noAssert : bool) : res Z :=
  let! _ := unless noAssert (checkOffset e 2 (zlen this)) in
  Ok (js_or (js_shl (nint (rd this e)) 8) (nint (rd this (e + 1)))).

Definition readUInt32LE (this : list Z) (e : Z) (noAssert : bool) : res num :=
  let! _ := unless noAssert (checkOffset e 4 (zlen this)) in
  Ok (num_add
        (Num (js_or (js_or (nint (rd this e)) (js_shl (nint (rd this (e + 1))) 8))
                    (js_shl (nint (rd this (e + 2))) 16)))
        (num_mul (Num 16777216) (rd this (e + 3)))).

Definition readUInt32BE (this : list Z) (e : Z) (noAssert : bool) : res num :=
  let! _ := unless noAssert (checkOffset e 4 (zlen this)) in
  Ok (num_add (num_mul (Num 16777216) (rd this e))
        (Num (js_or (js_or (js_shl (nint (rd this (e + 1))) 16)
                           (js_shl (nint (rd this (e + 2))) 8))
                    (nint (rd this (e + 3)))))).

(** [r >= (o *= 128) && (r -= Math.pow(2, 8 * t)), r]. *)
Definition signed (r : num) (o t : Z) : num :=
  match r with
  | Num z => if o * 128 <=? z then Num (z - 2 ^ (8 * t)) else Num z
  | _ => r
  end.

Definition readIntLE (this : list Z) (e t : Z) (noAssert : bool) : res num :=
  let e := to_int32 e in
  let t := to_int32 t in
  let! _ := unless noAssert (checkOffset e t (zlen this)) in
  let '(r, o) := forZ 1 t 1 (fun i => addDigit (rd this (e + i))) (rd this e, 1) in
  Ok (signed r o t).

Definition readIntBE (this : list Z) (e t : Z) (noAssert : bool) : res num :=
  let e := to_int32 e in
  let t := to_int32 t in
  let! _ := unless noAssert (checkOffset e t (zlen this)) in
  let r := t - 1 in
  let '(i, o) := forZ 0 r 1 (fun j => addDigit (rd this (e + (r - 1 - j)))) (rd this (e + r), 1) in
  Ok (signed i o t).

Definition readInt8 (this : list Z) (e : Z) (noAssert : bool) : res num :=
  let! _ := unless noAssert (checkOffset e 1 (zlen this)) in
  Ok (match rd this e with
      | Num z => if js_and 128 z =? 0 then Num z else Num (-1 * (255 - z + 1))
      | n => n
      end).

Definition readInt16LE (this : list Z) (e : Z) (noAssert : bool) : res Z :=
  let! _ := unless noAssert (checkOffset e 2 (zlen this)) in
  let n := js_or (nint (rd this e)) (js_shl (nint (rd this (e + 1))) 8) in
  Ok (if js_and 32768 n =? 0 then n else js_or 4294901760 n).

Definition readInt16BE (this : list Z) (e : Z) (noAssert : bool) : res Z :=
  let! _ := unless noAssert (checkOffset e 2 (zlen this)) in
  let n := js_or (nint (rd this (e + 1))) (js_shl (nint (rd this e)) 8) in
  Ok (if js_and 32768 n =? 0 then n else js_or 4294901760 n).

Definition readInt32LE (this : list Z) (e : Z) (noAssert : bool) : res Z :=
  let! _ := unless noAssert (checkOffset e 4 (zlen this)) in
  Ok (js_or (js_or (js_or (nint (rd this e)) (js_shl (nint (rd this (e + 1))) 8))
                   (js_shl (nint (rd this (e + 2))) 16))
            (js_shl (nint (rd this (e + 3))) 24)).

Definition readInt32BE (this : list Z) (e : Z) (noAssert : bool) : res Z :=
  let! _ := unless noAssert (checkOffset e 4 (zlen this)) in
  Ok (js_or (js_or (js_or (js_shl (nint (rd this e)) 24) (js_shl (nint (rd this (e + 1))) 16))
                   (js_shl (nint (rd this (e + 2))) 8))
            (nint (rd this (e + 3)))).

(** One round of an unsigned writing loop: [o *= 256] and [this[k] = e / o & 255]. *)
Definition storeDigit (e k : Z) (s : list Z * Z) : list Z * Z :=
  let '(b, o) := s in (st b k (js_and (Z.quot e (o * 256)) 255), o * 256).

Definition writeUIntLE (this : list Z) (e t n : Z) (noAssert : bool) : res (list Z * Z) :=
  let t := to_int32 t in
  let n := to_int32 n in
  let! _ := unless noAssert (checkInt this e t n (2 ^ (8 * n) - 1) 0) in
  let '(this, _) := forZ 1 n 1 (fun i => storeDigit e (t + i)) (st this t (js_and 255 e), 1) in
  Ok (this, t + n).

(** The [j]-th round of the loop writes [this[t + n - 2 - j]]. *)
Definition writeUIntBE (this : list Z) (e t n : Z) (noAssert : bool) : res (list Z * Z) :=
  let t := to_int32 t in
  let n := to_int32 n in
  let! _ := unless noAssert (checkInt this e t n (2 ^ (8 * n) - 1) 0) in
  let o := n - 1 in
  let '(this, _) := forZ 0 o 1 (fun j => storeDigit e (t + (o - 1 - j)))
                      (st this (t + o) (js_and 255 e), 1) in
  Ok (this, t + n).

(** [e < 0 && 0 === u && 0 !== this[k] && (u = 1)]; [0 !== this[k]] is also true
    of a read out of range. *)
Definition borrow (b : list Z) (e k u : Z) : Z :=
  if (e <? 0) && (u =? 0) && negb (bool_decide (rd b k = Num 0)) then 1 else u.

(** One round of a signed writing loop, the byte written before being at [k']. *)
Definition storeSigned (e k' k : Z) (s : list Z * Z * Z) : list Z * Z * Z :=
  let '(b, a, u) := s in
  (st b k (js_and (to_int32 (Z.quot e (a * 256)) - borrow b e k' u) 255), a * 256, borrow b e k' u).

Definition writeIntLE (this : list Z) (e t n : Z) (noAssert : bool) : res (list Z * Z) :=
  let t := to_int32 t in
  let! _ := unless noAssert
     (let o := 2 ^ (8 * n - 1) in checkInt this e t n (o - 1) (- o)) in
  let '(this, _, _) := forZ 1 n 1 (fun i => storeSigned e (t + i - 1) (t + i))
                         (st this t (js_and 255 e), 1, 0) in
  Ok (this, t + n).

Definition writeIntBE (this : list Z) (e t n : Z) (noAssert : bool) : res (list Z * Z) :=
  let t := to_int32 t in
  let! _ := unless noAssert
     (let o := 2 ^ (8 * n - 1) in checkInt this e t n (o - 1) (- o)) in
  let i := n - 1 in
  let '(this, _, _) := forZ 0 i 1
     (fun j => storeSigned e (t + (i - 1 - j) + 1) (t + (i - 1 - j)))
     (st this (t + i) (js_and 255 e), 1, 0) in
  Ok (this, t + n).

(** The stores of the engines without typed arrays. *)
Definition objectWriteUInt16 (this : list Z) (value offset : Z) (littleEndian : bool) : list Z :=
  let t := if value <? 0 then 65535 + value + 1 else value in
  forZ 0 (Z.min (zlen this - offset) 2) 1
    (fun o b => let sh := 8 * (if littleEndian then o else 1 - o) in
       zset b (offset + o) (js_ushr (js_and t (js_shl 255 sh)) sh)) this.

Definition objectWriteUInt32 (this : list Z) (value offset : Z) (littleEndian : bool) : list Z :=
  let t := if value <? 0 then 4294967295 + value + 1 else value in
  forZ 0 (Z.min (zlen this - offset) 4) 1
    (fun o b => let sh := 8 * (if littleEndian then o else 3 - o) in
       zset b (offset + o) (js_and (js_ushr t sh) 255)) this.

Section FixedWidth.
(** [Buffer.TYPED_ARRAY_SUPPORT]. *)
Context (tas : bool).

Definition writeUInt8 (this : list Z) (e t : Z) (noAssert : bool) : res (list Z * Z) :=
  let t := to_int32 t in
  let! _ := unless noAssert (checkInt this e t 1 255 0) in
  Ok (st this t (js_and 255 e), t + 1).

Definition writeUInt16LE (this : list Z) (e t : Z) (noAssert : bool) : res (list Z * Z) :=
  let t := to_int32 t in
  let! _ := unless noAssert (checkInt this e t 2 65535 0) in
  Ok (if tas then st (st this t (js_and 255 e)) (t + 1) (js_ushr e 8)
      else objectWriteUInt16 this e t true, t + 2).

Definition writeUInt16BE (this : list Z) (e t : Z) (noAssert : bool) : res (list Z * Z) :=
  let t := to_int32 t in
  let! _ := unless noAssert (checkInt this e t 2 65535 0) in
  Ok (if tas then st (st this t (js_ushr e 8)) (t + 1) (js_and 255 e)
      else objectWriteUInt16 this e t false, t + 2).

Definition writeUInt32LE (this : list Z) (e t : Z) (noAssert : bool) : res (list Z * Z) :=
  let t := to_int32 t in
  let! _ := unless noAssert (checkInt this e t 4 4294967295 0) in
  Ok (if tas then
        st (st (st (st this (t + 3) (js_ushr e 24)) (t + 2) (js_ushr e 16))
               (t + 1) (js_ushr e 8)) t (js_and 255 e)
      else objectWriteUInt32 this e t true, t + 4).

Definition writeUInt32BE (this : list Z) (e t : Z) (noAssert : bool) : res (list Z * Z) :=
  let t := to_int32 t in
  let! _ := unless noAssert (checkInt this e t 4 4294967295 0) in
  Ok (if tas then
        st (st (st (st this t (js_ushr e 24)) (t + 1) (js_ushr e 16))
               (t + 2) (js_ushr e 8)) (t + 3) (js_and 255 e)
      else objectWriteUInt32 this e t false, t + 4).

Definition writeInt8 (this : list Z) (e t : Z) (noAssert : bool) : res (list Z * Z) :=
  let t := to_int32 t in
  let! _ := unless noAssert (checkInt this e t 1 127 (-128)) in
  let e := if e <? 0 then 255 + e + 1 else e in
  Ok (st this t (js_and 255 e), t + 1).

Definition writeInt16LE (this : list Z) (e t : Z) (noAssert : bool) : res (list Z * Z) :=
  let t := to_int32 t in
  let! _ := unless noAssert (checkInt this e t 2 32767 (-32768)) in
  Ok (if tas then st (st this t (js_and 255 e)) (t + 1) (js_ushr e 8)
      else objectWriteUInt16 this e t true, t + 2).

Definition writeInt16BE (this : list Z) (e t : Z) (noAssert : bool) : res (list Z * Z) :=
  let t := to_int32 t in
  let! _ := unless noAssert (checkInt this e t 2 32767 (-32768)) in
  Ok (if tas then st (st this t (js_ushr e 8)) (t + 1) (js_and 255 e)
      else objectWriteUInt16 this e t false, t + 2).

Definition writeInt32LE (this : list Z) (e t : Z) (noAssert : bool) : res (list Z * Z) :=
  let t := to_int32 t in
  let! _ := unless noAssert (checkInt this e t 4 2147483647 (-2147483648)) in
  Ok (if tas then
        st (st (st (st this t (js_and 255 e)) (t + 1) (js_ushr e 8))
               (t + 2) (js_ushr e 16)) (t + 3) (js_ushr e 24)
      else objectWriteUInt32 this e t true, t + 4).

Definition writeInt32BE (this : list Z) (e t : Z) (noAssert : bool) : res (list Z * Z) :=
  let t := to_int32 t in
  let! _ := unless noAssert (checkInt this e t 4 2147483647 (-2147483648)) in
  let e := if e <? 0 then 4294967295 + e + 1 else e in
  Ok (if tas then
        st (st (st (st this t (js_ushr e 24)) (t + 1) (js_ushr e 16))
               (t + 2) (js_ushr e 8)) (t + 3) (js_and 255 e)
      else objectWriteUInt32 this e t false, t + 4).
End FixedWidth.

Example int_le : writeIntLE [9; 9; 9; 9] (-258) 1 3 false = Ok ([9; 254; 254; 255], 4).
Proof. vm_compute. reflexivity. Qed.
Example int_le_read : readIntLE [9; 254; 254; 255] 1 3 false = Ok (Num (-258)).
Proof. vm_compute. reflexivity. Qed.

(** ** Reading *)

Lemma rd_Some l i z : zget l i = Some z -> rd l i = Num z.
Proof. unfold rd. by intros ->. Qed.

(** The accumulation loop over digits [f 0], [f 1], ... *)
Lemma value_loop (f : Z -> num) ds n :
  zlen ds = n -> 1 <= n -> (forall i, 0 <= i < n -> f i = rd ds i) ->
  forZ 1 n 1 (fun i => addDigit (f i)) (f 0, 1)
  = (Num (le_val ds), 256 ^ (n - 1)).
Proof.
  intros Hlen Hn Hf.
  pose (P := fun j (s : num * Z) => s = (Num (le_val (take (Z.to_nat j) ds)), 256 ^ (j - 1))).
  assert (P n (forZ 1 n 1 (fun i => addDigit (f i)) (f 0, 1))) as ->.
  - apply forZ_inv1; [lia| |].
    + unfold P. rewrite Hf by lia. destruct ds as [|d ds]; [unfold zlen in Hlen; simpl in Hlen; lia|].
      change (take (Z.to_nat 1) (d :: ds)) with [d]. change (rd (d :: ds) 0) with (Num d).
      simpl. by rewrite Z.add_0_r.
    + intros j s Hj ->. destruct (zget_in_range ds j) as [d Hd]; [lia|].
      rewrite Hf, (rd_Some _ _ _ Hd) by lia. unfold P. rewrite (take_snoc ds j d) by (done || lia).
      rewrite le_val_app. unfold addDigit, num_mul, num_add.
      assert (zlen (take (Z.to_nat j) ds) = j) as ->
        by (unfold zlen in *; rewrite length_take; lia).
      replace (256 ^ (j - 1) * 256) with (256 ^ j)
        by (rewrite Z.mul_comm, <- Z.pow_succ_r by lia; f_equal; lia).
      replace (j + 1 - 1) with j by lia. simpl. do 2 f_equal. lia.
  - do 3 f_equal. apply take_ge. unfold zlen in *. lia.
Qed.

(** A buffer with the [n] bytes [bs] at offset [t]. *)
Definition at_offset (this : list Z) (t : Z) (bs : list Z) : Prop :=
  exists pre post, this = pre ++ bs ++ post /\ zlen pre = t.

Lemma at_offset_rd this t bs i : at_offset this t bs -> 0 <= i < zlen bs -> rd this (t + i) = rd bs i.
Proof.
  intros (pre & post & -> & <-) Hi. rewrite rd_app_at by lia.
  unfold rd. by rewrite zget_app_l by lia.
Qed.

Lemma at_offset_bound this t bs : at_offset this t bs -> 0 <= t /\ t + zlen bs <= zlen this.
Proof.
  intros (pre & post & -> & <-). rewrite !zlen_app.
  pose proof (zlen_nonneg pre). pose proof (zlen_nonneg post). lia.
Qed.

Lemma checkOffset_ok e t n : 0 <= e -> e + t <= n -> checkOffset e t n = Ok tt.
Proof.
  intros. unfold checkOffset. destruct (Z.ltb_spec e 0); [lia|].
  destruct (Z.ltb_spec n (e + t)); [lia|done].
Qed.

Lemma unless_ok b c : c = Ok tt -> unless b c = Ok tt.
Proof. by destruct b. Qed.

(** Offsets and byte counts in the range of a 32-bit integer survive [|= 0]. *)
Definition small (z : Z) : Prop := - pow31 <= z < pow31.

Section Readers.
Context (this bs : list Z) (t : Z) (noAssert : bool).
Hypothesis Hat : at_offset this t bs.
Hypothesis Hne : 1 <= zlen bs.
Hypothesis Hlen : small (zlen this).

Lemma offset_small : small t /\ small (zlen bs) /\ 0 <= t /\ t + zlen bs <= zlen this.
Proof.
  destruct (at_offset_bound _ _ _ Hat). pose proof (zlen_nonneg bs).
  unfold small, pow31 in *. lia.
Qed.

Lemma readUIntLE_spec : readUIntLE this t (zlen bs) noAssert = Ok (Num (le_val bs)).
Proof.
  destruct offset_small as (Ht & Hn & Hp & Hb). unfold readUIntLE.
  rewrite !to_int32_small by done. rewrite unless_ok by (apply checkOffset_ok; lia). simpl res_bind.
  pose proof (value_loop (fun i => rd this (t + i)) bs (zlen bs)) as Hl. simpl in Hl.
  rewrite Z.add_0_r in Hl. rewrite Hl; [done|done|done|]. intros. by apply at_offset_rd.
Qed.

Lemma readIntLE_spec :
  readIntLE this t (zlen bs) noAssert = Ok (signed (Num (le_val bs)) (256 ^ (zlen bs - 1)) (zlen bs)).
Proof.
  destruct offset_small as (Ht & Hn & Hp & Hb). unfold readIntLE.
  rewrite !to_int32_small by done. rewrite unless_ok by (apply checkOffset_ok; lia). simpl res_bind.
  pose proof (value_loop (fun i => rd this (t + i)) bs (zlen bs)) as Hl. simpl in Hl.
  rewrite Z.add_0_r in Hl. rewrite Hl; [done|done|done|]. intros. by apply at_offset_rd.
Qed.

Lemma be_loop :
  forZ 0 (zlen bs - 1) 1 (fun j => addDigit (rd this (t + (zlen bs - 1 - 1 - j))))
    (rd this (t + (zlen bs - 1)), 1)
  = (Num (le_val (reverse bs)), 256 ^ (zlen bs - 1)).
Proof.
  rewrite (forZ_shift _ _ 1). replace (zlen bs - 1 + 1) with (zlen bs) by lia.
  pose proof (value_loop (fun i => rd this (t + (zlen bs - 1 - i))) (reverse bs) (zlen bs)) as Hl.
  cbv beta in Hl. rewrite Z.sub_0_r, zlen_reverse in Hl. rewrite <- Hl; [|done|done|].
  - apply forZ_ext. intros j s Hj. do 3 f_equal. lia.
  - intros i Hi. rewrite at_offset_rd with (bs := bs) by (done || lia).
    unfold rd. by rewrite zget_reverse by lia.
Qed.

Lemma readUIntBE_spec : readUIntBE this t (zlen bs) noAssert = Ok (Num (le_val (reverse bs))).
Proof.
  destruct offset_small as (Ht & Hn & Hp & Hb). unfold readUIntBE.
  rewrite !to_int32_small by done. rewrite unless_ok by (apply checkOffset_ok; lia). simpl res_bind.
  cbv zeta. by rewrite be_loop.
Qed.

Lemma readIntBE_spec :
  readIntBE this t (zlen bs) noAssert
  = Ok (signed (Num (le_val (reverse bs))) (256 ^ (zlen bs - 1)) (zlen bs)).
Proof.
  destruct offset_small as (Ht & Hn & Hp & Hb). unfold readIntBE.
  rewrite !to_int32_small by done. rewrite unless_ok by (apply checkOffset_ok; lia). simpl res_bind.
  cbv zeta. by rewrite be_loop.
Qed.
End Readers.

(** ** Writing *)

(** [b] is [this] with the values [dig 0 .. dig (n-1)] at [p 0 .. p (n-1)]. *)
Definition written (this : list Z) (p dig : Z -> Z) (n : Z) (b : list Z) : Prop :=
  zlen b = zlen this /\
  (forall k, 0 <= k < n -> zget b (p k) = Some (dig k)) /\
  (forall i, (forall k, 0 <= k < n -> i <> p k) -> zget b i = zget this i).

Lemma written_step this p dig n b :
  written this p dig n b -> 0 <= n -> 0 <= p n < zlen this ->
  (forall k, 0 <= k < n -> p k <> p n) -> byte_ok (dig n) ->
  written this p dig (n + 1) (st b (p n) (dig n)).
Proof.
  intros (Hlen & Hin & Hout) Hn Hp Hinj Hd. unfold st, to_uint8.
  rewrite Z.mod_small by done. repeat split.
  - by rewrite zlen_zset.
  - intros k Hk. destruct (decide (k = n)) as [->|]; [apply zget_zset_eq; lia|].
    rewrite zget_zset_ne by (apply not_eq_sym, Hinj; lia). apply Hin. lia.
  - intros i Hi. rewrite zget_zset_ne by (apply not_eq_sym, Hi; lia).
    apply Hout. intros. apply Hi. lia.
Qed.

Lemma written_0 this p dig : written this p dig 0 this.
Proof. unfold written. split_and!; [done|intros; lia|done]. Qed.

(** What was written, as a list. *)
Lemma written_le pre mid post dig n b :
  zlen mid = Z.of_nat n ->
  written (pre ++ mid ++ post) (fun k => zlen pre + k) dig (Z.of_nat n) b ->
  forall z, (forall k, 0 <= k < Z.of_nat n -> dig k = z / 256 ^ k mod 256) ->
  b = pre ++ le_bytes n z ++ post.
Proof.
  intros Hmid (Hlen & Hin & Hout) z Hdig.
  assert (zlen (le_bytes n z) = Z.of_nat n) as Hlb by (unfold zlen; by rewrite length_le_bytes).
  apply list_eq_zget; [rewrite Hlen, !zlen_app; lia|]. rewrite Hlen, !zlen_app. intros i Hi.
  destruct (decide (i < zlen pre)).
  - rewrite Hout by lia. by rewrite !zget_app_l by lia.
  - destruct (decide (i < zlen pre + Z.of_nat n)).
    + replace i with (zlen pre + (i - zlen pre)) by lia. rewrite Hin, zget_app_at by lia.
      rewrite zget_app_l, zget_le_bytes by lia. by rewrite Hdig by lia.
    + rewrite Hout by lia. rewrite !(zget_app_r pre) by lia. rewrite !zget_app_r by lia.
      f_equal. lia.
Qed.

Lemma written_be pre mid post dig n b :
  zlen mid = Z.of_nat n ->
  written (pre ++ mid ++ post) (fun k => zlen pre + (Z.of_nat n - 1 - k)) dig (Z.of_nat n) b ->
  forall z, (forall k, 0 <= k < Z.of_nat n -> dig k = z / 256 ^ k mod 256) ->
  b = pre ++ reverse (le_bytes n z) ++ post.
Proof.
  intros Hmid (Hlen & Hin & Hout) z Hdig.
  assert (zlen (reverse (le_bytes n z)) = Z.of_nat n) as Hlb
    by (rewrite zlen_reverse; unfold zlen; by rewrite length_le_bytes).
  apply list_eq_zget; [rewrite Hlen, !zlen_app; lia|]. rewrite Hlen, !zlen_app. intros i Hi.
  destruct (decide (i < zlen pre)).
  - rewrite Hout by lia. by rewrite !zget_app_l by lia.
  - destruct (decide (i < zlen pre + Z.of_nat n)).
    + replace i with (zlen pre + (Z.of_nat n - 1 - (zlen pre + Z.of_nat n - 1 - i))) at 1 by lia.
      rewrite Hin by lia. rewrite zget_app_r, zget_app_l by lia.
      rewrite zlen_reverse in Hlb. rewrite zget_reverse, Hlb, zget_le_bytes by lia.
      rewrite Hdig by lia. do 4 f_equal. lia.
    + rewrite Hout by lia. rewrite !(zget_app_r pre) by lia. rewrite !zget_app_r by lia.
      f_equal. lia.
Qed.

(** The unsigned loop: round [i] stores the [i]-th digit. *)
Lemma unsigned_loop this p e n :
  0 <= e -> 1 <= n -> (forall k, 0 <= k < n -> 0 <= p k < zlen this) ->
  (forall j k, 0 <= j < n -> 0 <= k < n -> p j = p k -> j = k) ->
  written this p (fun k => e / 256 ^ k mod 256) n
    (fst (forZ 1 n 1
       (fun i => storeDigit e (p i))
       (st this (p 0) (js_and 255 e), 1))).
Proof.
  intros He Hn Hp Hinj.
  pose (P := fun j (s : list Z * Z) =>
    written this p (fun k => e / 256 ^ k mod 256) j s.1 /\ s.2 = 256 ^ (j - 1)).
  assert (forall x, byte_ok (x mod 256)) as Hb by (intros; unfold byte_ok; dlia).
  enough (P n (forZ 1 n 1
    (fun i => storeDigit e (p i))
    (st this (p 0) (js_and 255 e), 1))) as [? _] by done.
  apply forZ_inv1; [lia| |].
  - split; [|done]. simpl. change 255 with (2 ^ 8 - 1). rewrite js_and_ones_l by lia.
    pose proof (written_step this p (fun k => e / 256 ^ k mod 256) 0 this) as Hw. simpl in Hw.
    rewrite Z.div_1_r in Hw. apply Hw; [apply written_0|lia|apply Hp; lia|lia|apply Hb].
  - intros j [b o] Hj [Hw Ho]. simpl in *. subst o.
    replace (256 ^ (j - 1) * 256) with (256 ^ j)
      by (rewrite Z.mul_comm, <- Z.pow_succ_r by lia; f_equal; lia).
    split; simpl; [|f_equal; lia].
    change 255 with (2 ^ 8 - 1). rewrite js_and_ones by lia. change (2 ^ 8) with 256.
    rewrite Z.quot_div_nonneg by (pose proof (pow256_pos j); lia).
    apply (written_step this p (fun k => e / 256 ^ k mod 256)); [done|lia|apply Hp; lia| |apply Hb].
    intros k Hk Heq. apply Hinj in Heq; lia.
Qed.

(** Truncating division minus the borrow is flooring division. *)
Lemma quot_borrow e a :
  0 < a -> Z.quot e a - (if (e <? 0) && negb (e mod a =? 0) then 1 else 0) = e / a.
Proof.
  intros Ha. destruct (Z.ltb_spec e 0); [|rewrite Z.quot_div_nonneg by lia; simpl; lia].
  destruct (Z.eqb_spec (e mod a) 0); simpl; [|Z.to_euclidean_division_equations; nia].
  rewrite (Z.div_mod e a) at 1 by lia. rewrite e0, Z.add_0_r, Z.mul_comm, Z.quot_mul by lia. lia.
Qed.

Lemma mod_pow_succ e i :
  0 <= i -> (e mod 256 ^ (i + 1) =? 0) = (e mod 256 ^ i =? 0) && (e / 256 ^ i mod 256 =? 0).
Proof.
  intros Hi. pose proof (pow256_pos i Hi). rewrite Z.pow_add_r, Z.pow_1_r by lia.
  rewrite Z.rem_mul_r by lia.
  pose proof (Z.mod_pos_bound e (256 ^ i)). pose proof (Z.mod_pos_bound (e / 256 ^ i) 256).
  destruct (Z.eqb_spec (e mod 256 ^ i) 0), (Z.eqb_spec (e / 256 ^ i mod 256) 0);
    destruct (Z.eqb_spec (e mod 256 ^ i + 256 ^ i * (e / 256 ^ i mod 256)) 0); nia.
Qed.

(** The borrow before round [i]: the value is negative and a lower digit is not 0. *)
Definition borrowed (e i : Z) : Z := if (e <? 0) && negb (e mod 256 ^ i =? 0) then 1 else 0.

Lemma borrow_step b e k i :
  0 <= i -> rd b k = Num (e / 256 ^ i mod 256) -> borrow b e k (borrowed e i) = borrowed e (i + 1).
Proof.
  intros Hi Hk. unfold borrow, borrowed. rewrite Hk, mod_pow_succ by done.
  destruct (e <? 0); [|done]. destruct (e mod 256 ^ i =? 0); [|done]. simpl.
  destruct (Z.eqb_spec (e / 256 ^ i mod 256) 0) as [->|]; [done|].
  rewrite bool_decide_eq_false_2 by congruence. done.
Qed.

Lemma signed_loop this p e n :
  1 <= n -> (forall k, 0 <= k < n -> 0 <= p k < zlen this) ->
  (forall j k, 0 <= j < n -> 0 <= k < n -> p j = p k -> j = k) ->
  written this p (fun k => e / 256 ^ k mod 256) n
    (fst (fst (forZ 1 n 1
       (fun i => storeSigned e (p (i - 1)) (p i))
       (st this (p 0) (js_and 255 e), 1, 0)))).
Proof.
  intros Hn Hp Hinj.
  pose (P := fun j (s : list Z * Z * Z) =>
    written this p (fun k => e / 256 ^ k mod 256) j s.1.1 /\
    s.1.2 = 256 ^ (j - 1) /\ s.2 = borrowed e (j - 1)).
  assert (forall x, byte_ok (x mod 256)) as Hb by (intros; unfold byte_ok; dlia).
  enough (P n (forZ 1 n 1
       (fun i => storeSigned e (p (i - 1)) (p i))
       (st this (p 0) (js_and 255 e), 1, 0))) as [? _] by done.
  apply forZ_inv1; [lia| |].
  - unfold P. simpl. split_and!; [|done|].
    + change 255 with (2 ^ 8 - 1). rewrite js_and_ones_l by lia.
      pose proof (written_step this p (fun k => e / 256 ^ k mod 256) 0 this) as Hw. simpl in Hw.
      rewrite Z.div_1_r in Hw. apply Hw; [apply written_0|lia|apply Hp; lia|lia|apply Hb].
    + unfold borrowed. simpl. rewrite Z.mod_1_r. simpl. by rewrite andb_false_r.
  - intros j [[b a] u] Hj (Hw & Ha & Hu). simpl in *. subst a u.
    replace (256 ^ (j - 1) * 256) with (256 ^ j)
      by (rewrite Z.mul_comm, <- Z.pow_succ_r by lia; f_equal; lia).
    rewrite (borrow_step b e (p (j - 1)) (j - 1)) by
      (lia || (apply rd_Some; apply Hw; lia)).
    replace (j - 1 + 1) with j by lia.
    unfold P. simpl. replace (j + 1 - 1) with j by lia. split_and!; [|done|done].
    change 255 with (2 ^ 8 - 1). rewrite js_and_ones by lia.
    rewrite Zminus_mod, to_int32_mod, <- Zminus_mod by lia. change (2 ^ 8) with 256.
    unfold borrowed. rewrite quot_borrow by (apply pow256_pos; lia).
    apply (written_step this p (fun k => e / 256 ^ k mod 256)); [done|lia|apply Hp; lia| |apply Hb].
    intros k Hk Heq. apply Hinj in Heq; lia.
Qed.

Lemma checkInt_ok this v o n max min :
  min <= v <= max -> o + n <= zlen this -> checkInt this v o n max min = Ok tt.
Proof.
  intros. unfold checkInt. destruct (Z.ltb_spec max v), (Z.ltb_spec v min); try lia.
  destruct (Z.ltb_spec (zlen this) (o + n)); [lia|done].
Qed.

Lemma pow8 k : 0 <= k -> 2 ^ (8 * k) = 256 ^ k.
Proof. intros. by rewrite Z.pow_mul_r by lia. Qed.

Section Writers.
Context (pre mid post : list Z) (n : nat) (e : Z) (noAssert : bool).
Let this := pre ++ mid ++ post.
Hypothesis Hmid : zlen mid = Z.of_nat n.
Hypothesis Hn : (1 <= n)%nat.
Hypothesis Hlen : small (zlen this).

Lemma write_small :
  small (zlen pre) /\ small (Z.of_nat n) /\ zlen pre + Z.of_nat n <= zlen this.
Proof.
  unfold this, small, pow31 in *. rewrite !zlen_app in *.
  pose proof (zlen_nonneg pre). pose proof (zlen_nonneg post). lia.
Qed.

Lemma writeUIntLE_spec :
  0 <= e < 256 ^ Z.of_nat n ->
  writeUIntLE this e (zlen pre) (Z.of_nat n) noAssert
  = Ok (pre ++ le_bytes n e ++ post, zlen pre + Z.of_nat n).
Proof.
  intros He. destruct write_small as (Ht & Hk & Hb). unfold writeUIntLE.
  rewrite !to_int32_small by done. rewrite pow8 by lia.
  rewrite unless_ok by (apply checkInt_ok; lia). cbn [res_bind].
  pose proof (unsigned_loop this (fun k => zlen pre + k) e (Z.of_nat n)) as Hw.
  cbv beta in Hw. rewrite Z.add_0_r in Hw.
  destruct (forZ _ _ _ _ _) as [b o]. f_equal. f_equal. simpl in Hw.
  apply (written_le pre mid post (fun k => e / 256 ^ k mod 256) n b Hmid); [|done].
  pose proof (zlen_nonneg pre). apply Hw; intros; lia.
Qed.

Lemma writeUIntBE_spec :
  0 <= e < 256 ^ Z.of_nat n ->
  writeUIntBE this e (zlen pre) (Z.of_nat n) noAssert
  = Ok (pre ++ reverse (le_bytes n e) ++ post, zlen pre + Z.of_nat n).
Proof.
  intros He. destruct write_small as (Ht & Hk & Hb). unfold writeUIntBE.
  rewrite !to_int32_small by done. rewrite pow8 by lia.
  rewrite unless_ok by (apply checkInt_ok; lia). cbn [res_bind]. cbv zeta.
  pose proof (unsigned_loop this (fun k => zlen pre + (Z.of_nat n - 1 - k)) e (Z.of_nat n)) as Hw.
  rewrite (forZ_shift _ _ 1). replace (Z.of_nat n - 1 + 1) with (Z.of_nat n) by lia.
  cbv beta zeta in Hw. rewrite Z.sub_0_r in Hw. rewrite Z.add_0_l.
  rewrite (forZ_ext _ _ _ (fun j => storeDigit e (zlen pre + (Z.of_nat n - 1 - j))))
    by (intros; f_equal; lia).
  destruct (forZ _ _ _ _ _) as [b o]. f_equal. f_equal. simpl in Hw.
  apply (written_be pre mid post (fun k => e / 256 ^ k mod 256) n b Hmid); [|done].
  pose proof (zlen_nonneg pre). apply Hw; intros; lia.
Qed.

Lemma half_range : - 2 ^ (8 * Z.of_nat n - 1) <= e < 2 ^ (8 * Z.of_nat n - 1) ->
  checkInt this e (zlen pre) (Z.of_nat n)
    (2 ^ (8 * Z.of_nat n - 1) - 1) (- 2 ^ (8 * Z.of_nat n - 1)) = Ok tt.
Proof. intros. destruct write_small as (_ & _ & ?). apply checkInt_ok; lia. Qed.

Lemma writeIntLE_spec :
  - 2 ^ (8 * Z.of_nat n - 1) <= e < 2 ^ (8 * Z.of_nat n - 1) ->
  writeIntLE this e (zlen pre) (Z.of_nat n) noAssert
  = Ok (pre ++ le_bytes n e ++ post, zlen pre + Z.of_nat n).
Proof.
  intros He. destruct write_small as (Ht & Hk & Hb). unfold writeIntLE.
  rewrite !to_int32_small by done. rewrite unless_ok by (by apply half_range). cbn [res_bind].
  pose proof (signed_loop this (fun k => zlen pre + k) e (Z.of_nat n)) as Hw.
  cbv beta in Hw. rewrite Z.add_0_r in Hw.
  rewrite (forZ_ext _ _ _ (fun i => storeSigned e (zlen pre + (i - 1)) (zlen pre + i)))
    by (intros; f_equal; lia).
  destruct (forZ _ _ _ _ _) as [[b a] u]. f_equal. f_equal. simpl in Hw.
  apply (written_le pre mid post (fun k => e / 256 ^ k mod 256) n b Hmid); [|done].
  pose proof (zlen_nonneg pre). apply Hw; intros; lia.
Qed.

Lemma writeIntBE_spec :
  - 2 ^ (8 * Z.of_nat n - 1) <= e < 2 ^ (8 * Z.of_nat n - 1) ->
  writeIntBE this e (zlen pre) (Z.of_nat n) noAssert
  = Ok (pre ++ reverse (le_bytes n e) ++ post, zlen pre + Z.of_nat n).
Proof.
  intros He. destruct write_small as (Ht & Hk & Hb). unfold writeIntBE.
  rewrite !to_int32_small by done. rewrite unless_ok by (by apply half_range). cbn [res_bind].
  cbv zeta.
  pose proof (signed_loop this (fun k => zlen pre + (Z.of_nat n - 1 - k)) e (Z.of_nat n)) as Hw.
  cbv beta in Hw. rewrite Z.sub_0_r in Hw.
  rewrite (forZ_shift _ _ 1). replace (Z.of_nat n - 1 + 1) with (Z.of_nat n) by lia.
  rewrite Z.add_0_l.
  rewrite (forZ_ext _ _ _ (fun i => storeSigned e (zlen pre + (Z.of_nat n - 1 - (i - 1)))
    (zlen pre + (Z.of_nat n - 1 - i)))) by (intros; f_equal; lia).
  destruct (forZ _ _ _ _ _) as [[b a] u]. f_equal. f_equal. simpl in Hw.
  apply (written_be pre mid post (fun k => e / 256 ^ k mod 256) n b Hmid); [|done].
  pose proof (zlen_nonneg pre). apply Hw; intros; lia.
Qed.
End Writers.

(** ** Round trips *)

(** Two's complement: reading [n] digits of [e] as a signed number. *)
Lemma signed_mod e n :
  (1 <= n)%nat -> - 2 ^ (8 * Z.of_nat n - 1) <= e < 2 ^ (8 * Z.of_nat n - 1) ->
  signed (Num (e mod 256 ^ Z.of_nat n)) (256 ^ (Z.of_nat n - 1)) (Z.of_nat n) = Num e.
Proof.
  intros Hn He. unfold signed. rewrite pow8 by lia.
  assert (256 ^ Z.of_nat n = 256 * 256 ^ (Z.of_nat n - 1)) as Hp
    by (rewrite <- Z.pow_succ_r by lia; f_equal; lia).
  assert (2 ^ (8 * Z.of_nat n - 1) = 128 * 256 ^ (Z.of_nat n - 1)) as Hh.
  { change 256 with (2 ^ 8). change 128 with (2 ^ 7).
    rewrite <- Z.pow_mul_r, <- Z.pow_add_r by lia. f_equal. lia. }
  rewrite Hh in He. rewrite Hp. pose proof (pow256_pos (Z.of_nat n - 1)).
  destruct (decide (0 <= e)).
  - rewrite Z.mod_small by lia. destruct (Z.leb_spec (256 ^ (Z.of_nat n - 1) * 128) e); [lia|done].
  - rewrite <- (Z.mod_add e 1) by lia. rewrite Z.mod_small by lia.
    destruct (Z.leb_spec (256 ^ (Z.of_nat n - 1) * 128)
      (e + 1 * (256 * 256 ^ (Z.of_nat n - 1)))); [f_equal; lia|lia].
Qed.

Lemma at_offset_written pre n e post (d : list Z) :
  d = le_bytes n e \/ d = reverse (le_bytes n e) ->
  at_offset (pre ++ d ++ post) (zlen pre) d /\ zlen d = Z.of_nat n.
Proof.
  intros Hd. split; [by exists pre, post|].
  destruct Hd as [-> | ->]; rewrite ?zlen_reverse; unfold zlen; by rewrite length_le_bytes.
Qed.

(** A writer followed by the reader of the same kind at the same place. *)
Definition write_read (w : list Z -> Z -> Z -> Z -> bool -> res (list Z * Z))
    (r : list Z -> Z -> Z -> bool -> res num)
    (this : list Z) (e t n : Z) (na : bool) : res num :=
  let! (this', _) := w this e t n na in r this' t n na.

Lemma split_at (this : list Z) t n :
  0 <= t -> 0 <= n -> t + n <= zlen this ->
  exists pre mid post, this = pre ++ mid ++ post /\ zlen pre = t /\ zlen mid = n.
Proof.
  intros. destruct (zsub_split this t (t + n)) as (pre & post & He & Hp & Hl); [lia|lia|].
  exists pre, (zsub this t (t + n)), post. repeat split; [done|done|lia].
Qed.

(** An unsigned integer of 1 to 6 bytes is read back as it was written, in
    both byte orders, wherever it fits in the buffer. *)
Theorem uint_roundtrip this e t n na :
  small (zlen this) -> 1 <= n <= 6 -> 0 <= t -> t + n <= zlen this -> 0 <= e < 256 ^ n ->
  write_read writeUIntLE readUIntLE this e t n na = Ok (Num e) /\
  write_read writeUIntBE readUIntBE this e t n na = Ok (Num e).
Proof.
  intros Hs Hn Ht Hfit He. destruct (split_at this t n) as (pre & mid & post & -> & <- & Hm); [lia..|].
  rewrite <- (Z2Nat.id n) in * by lia. unfold write_read.
  rewrite writeUIntLE_spec, writeUIntBE_spec by (done || lia). cbn [res_bind].
  destruct (at_offset_written pre (Z.to_nat n) e post (le_bytes (Z.to_nat n) e)) as [Ha Hl]; [by left|].
  destruct (at_offset_written pre (Z.to_nat n) e post (reverse (le_bytes (Z.to_nat n) e)))
    as [Ha' Hl']; [by right|].
  rewrite !zlen_app in Hs.
  split.
  - rewrite <- Hl. rewrite readUIntLE_spec by (done || lia || (rewrite !zlen_app, Hl; by rewrite Hm in Hs)).
    rewrite le_val_le_bytes, Z.mod_small by done. done.
  - rewrite <- Hl'. rewrite readUIntBE_spec by (done || lia || (rewrite !zlen_app, Hl'; by rewrite Hm in Hs)).
    rewrite reverse_involutive, le_val_le_bytes, Z.mod_small by done. done.
Qed.

Lemma uint_roundtrip_witness :
  write_read writeUIntLE readUIntLE [0; 0; 0; 0] 66051 1 3 false = Ok (Num 66051) /\
  write_read writeUIntBE readUIntBE [0; 0; 0; 0] 66051 1 3 false = Ok (Num 66051).
Proof. apply uint_roundtrip; concrete. Defined.

(** A signed integer of 1 to 6 bytes is read back as it was written, in both
    byte orders: the writers' borrow flag computes the two's complement digits. *)
Theorem int_roundtrip this e t n na :
  small (zlen this) -> 1 <= n <= 6 -> 0 <= t -> t + n <= zlen this ->
  - 2 ^ (8 * n - 1) <= e < 2 ^ (8 * n - 1) ->
  write_read writeIntLE readIntLE this e t n na = Ok (Num e) /\
  write_read writeIntBE readIntBE this e t n na = Ok (Num e).
Proof.
  intros Hs Hn Ht Hfit He. destruct (split_at this t n) as (pre & mid & post & -> & <- & Hm); [lia..|].
  rewrite <- (Z2Nat.id n) in * by lia. unfold write_read.
  rewrite writeIntLE_spec, writeIntBE_spec by (done || lia). cbn [res_bind].
  destruct (at_offset_written pre (Z.to_nat n) e post (le_bytes (Z.to_nat n) e)) as [Ha Hl]; [by left|].
  destruct (at_offset_written pre (Z.to_nat n) e post (reverse (le_bytes (Z.to_nat n) e)))
    as [Ha' Hl']; [by right|].
  rewrite !zlen_app in Hs.
  split.
  - rewrite <- Hl. rewrite readIntLE_spec by (done || lia || (rewrite !zlen_app, Hl; by rewrite Hm in Hs)).
    rewrite le_val_le_bytes, Hl, signed_mod by (done || lia). done.
  - rewrite <- Hl'. rewrite readIntBE_spec by (done || lia || (rewrite !zlen_app, Hl'; by rewrite Hm in Hs)).
    rewrite reverse_involutive, le_val_le_bytes, Hl', signed_mod by (done || lia). done.
Qed.

Lemma int_roundtrip_witness :
  write_read writeIntLE readIntLE [0; 0; 0; 0] (-66048) 1 3 false = Ok (Num (-66048)) /\
  write_read writeIntBE readIntBE [0; 0; 0; 0] (-66048) 1 3 false = Ok (Num (-66048)).
Proof. apply int_roundtrip; concrete. Defined.

(** ** The fixed-width readers are instances of the generic ones *)

Lemma or16 a b : byte_ok a -> byte_ok b -> js_or a (js_shl b 8) = a + 256 * b.
Proof.
  unfold byte_ok. intros. rewrite js_shl_mul, js_or_comm, js_or_add by (unfold pow31; lia). lia.
Qed.

Lemma or24 a b c :
  byte_ok a -> byte_ok b -> byte_ok c ->
  js_or (js_or a (js_shl b 8)) (js_shl c 16) = a + 256 * (b + 256 * c).
Proof.
  intros Ha Hb Hc. rewrite or16 by done. unfold byte_ok in *.
  rewrite js_shl_mul, js_or_comm, js_or_add by (unfold pow31; lia). lia.
Qed.

(** The top byte shifted into the sign: [a] or [a - 256]. *)
Definition sbyte (a : Z) : Z := if a <? 128 then a else a - 256.

Lemma shl24 a : byte_ok a -> js_shl a 24 = sbyte a * 2 ^ 24.
Proof.
  unfold byte_ok, sbyte. intros Ha. unfold js_shl. rewrite (to_int32_small a) by (unfold pow31; lia).
  change (24 mod 32) with 24. rewrite Z.shiftl_mul_pow2 by lia. unfold to_int32, pow32, pow31.
  change (2 ^ 24) with 16777216.
  destruct (Z.ltb_spec a 128); destruct (Z.ltb_spec (a * 16777216 mod 4294967296) 2147483648); dlia.
Qed.

Lemma or32 a b c d :
  byte_ok a -> byte_ok b -> byte_ok c -> byte_ok d ->
  js_or (js_or (js_or a (js_shl b 8)) (js_shl c 16)) (js_shl d 24)
  = a + 256 * (b + 256 * (c + 256 * sbyte d)).
Proof.
  intros Ha Hb Hc Hd. rewrite or24, shl24, js_or_comm by done. unfold byte_ok, sbyte in *.
  destruct (d <? 128) eqn:E; rewrite js_or_add by (unfold pow31; lia); lia.
Qed.

Lemma or32_assoc a b c d :
  js_or (js_or (js_or (js_shl d 24) (js_shl c 16)) (js_shl b 8)) a
  = js_or (js_or (js_or a (js_shl b 8)) (js_shl c 16)) (js_shl d 24).
Proof.
  assert (forall x y, to_int32 (js_or x y) = js_or x y) as Hor.
  { intros x y. apply to_int32_small. unfold js_or.
    pose proof (to_int32_range x). pose proof (to_int32_range y).
    change pow31 with (2 ^ 31) in *.
    assert (forall z, - 2 ^ 31 <= z < 2 ^ 31 <-> Z.shiftr z 31 = 0 \/ Z.shiftr z 31 = -1) as Hsr.
    { intros z. rewrite Z.shiftr_div_pow2 by lia. change (2 ^ 31) with 2147483648. dlia. }
    rewrite Hsr in *. rewrite Z.shiftr_lor.
    destruct H as [-> | ->], H0 as [-> | ->]; simpl; auto. }
  unfold js_or at 1 4. rewrite !Hor. unfold js_or at 1 3. rewrite !Hor. unfold js_or.
  rewrite (Z.lor_comm (Z.lor (Z.lor _ _) _) (to_int32 a)).
  rewrite (Z.lor_comm (Z.lor (Z.lor (to_int32 a) _) _)).
  rewrite !Z.lor_assoc, (Z.lor_comm (to_int32 a) (to_int32 (js_shl d 24))).
  rewrite <- !Z.lor_assoc. f_equal. rewrite !Z.lor_assoc. rewrite (Z.lor_comm (to_int32 a)).
  rewrite <- !Z.lor_assoc. rewrite Z.lor_comm, <- !Z.lor_assoc. done.
Qed.

Lemma or24_be a b c :
  byte_ok a -> byte_ok b -> byte_ok c ->
  js_or (js_or (js_shl c 16) (js_shl b 8)) a = a + 256 * (b + 256 * c).
Proof.
  unfold byte_ok. intros. rewrite !js_shl_mul, js_or_add by (unfold pow31; lia).
  replace (c * 2 ^ 16 + b * 2 ^ 8) with ((c * 256 + b) * 2 ^ 8) by lia.
  rewrite js_or_add by (unfold pow31; lia). lia.
Qed.

Lemma land_pow2 k z : 0 <= k -> Z.land (2 ^ k) z = if Z.testbit z k then 2 ^ k else 0.
Proof.
  intros Hk. apply Z.bits_inj'. intros n Hn. rewrite Z.land_spec, Z.pow2_bits_eqb by lia.
  destruct (Z.eqb_spec k n) as [->|Hne].
  - destruct (Z.testbit z n); [by rewrite Z.pow2_bits_true by lia|by rewrite Z.bits_0].
  - destruct (Z.testbit z k); [by rewrite Z.pow2_bits_false by lia|by rewrite Z.bits_0].
Qed.

(** Testing the top bit of a [k+1]-bit number. *)
Lemma js_and_top k z :
  0 <= k < 31 -> 0 <= z < 2 ^ (k + 1) -> (js_and (2 ^ k) z =? 0) = (z <? 2 ^ k).
Proof.
  intros Hk Hz. assert (2 ^ (k + 1) = 2 * 2 ^ k) as Hp by (rewrite Z.pow_add_r by lia; lia).
  assert (0 < 2 ^ k <= 2 ^ 30) by (split; [apply Z.pow_pos_nonneg; lia|apply Z.pow_le_mono_r; lia]).
  unfold js_and. rewrite !to_int32_small by (unfold pow31; lia).
  rewrite land_pow2, Z.testbit_odd, Z.shiftr_div_pow2 by lia.
  destruct (Z.ltb_spec z (2 ^ k)).
  - rewrite (Z.div_small z (2 ^ k)) by lia. done.
  - replace (z / 2 ^ k) with 1; [simpl; by destruct (Z.eqb_spec (2 ^ k) 0); [lia|]|].
    apply Z.div_unique with (z - 2 ^ k); lia.
Qed.

Lemma sign16 n :
  0 <= n < 65536 ->
  (if js_and 32768 n =? 0 then n else js_or 4294901760 n) = if n <? 32768 then n else n - 65536.
Proof.
  intros Hn. change 32768 with (2 ^ 15). rewrite js_and_top by (simpl; lia).
  destruct (Z.ltb_spec n (2 ^ 15)); [done|]. unfold js_or.
  change (to_int32 4294901760) with (-1 * 2 ^ 16).
  rewrite to_int32_small by (unfold pow31; lia). rewrite lor_add by lia. lia.
Qed.

(** A reader that yields an integer, next to one that yields a number. *)
Definition as_num (r : res Z) : res num := let! z := r in Ok (Num z).

Section FixedReaders.
Context (this : list Z) (t : Z) (na : bool) (b0 b1 b2 b3 : Z).
Hypothesis Hat : at_offset this t [b0; b1; b2; b3].
Hypothesis Hb : bytes_ok [b0; b1; b2; b3].
Hypothesis Hlen : small (zlen this).

Lemma at_prefix bs k : bs ++ k = [b0; b1; b2; b3] -> at_offset this t bs.
Proof.
  intros E. destruct Hat as (pre & post & -> & <-). exists pre, (k ++ post).
  rewrite <- E. by rewrite <- !app_assoc.
Qed.

Lemma rd4 : rd this t = Num b0 /\ rd this (t + 1) = Num b1 /\ rd this (t + 2) = Num b2 /\
  rd this (t + 3) = Num b3 /\ 0 <= t /\ t + 4 <= zlen this.
Proof.
  destruct (at_offset_bound _ _ _ Hat) as [? ?].
  rewrite <- (Z.add_0_r t) at 1. rewrite !(at_offset_rd _ _ _ _ Hat) by (unfold zlen; simpl; lia).
  done.
Qed.

Lemma generic_reads :
  readUIntLE this t 1 na = Ok (Num b0) /\
  readUIntLE this t 2 na = Ok (Num (b0 + 256 * b1)) /\
  readUIntBE this t 2 na = Ok (Num (b1 + 256 * b0)) /\
  readUIntLE this t 4 na = Ok (Num (b0 + 256 * (b1 + 256 * (b2 + 256 * b3)))) /\
  readUIntBE this t 4 na = Ok (Num (b3 + 256 * (b2 + 256 * (b1 + 256 * b0)))).
Proof.
  pose proof (at_prefix [b0] [b1; b2; b3] eq_refl) as H1.
  pose proof (at_prefix [b0; b1] [b2; b3] eq_refl) as H2.
  pose proof (readUIntLE_spec this [b0] t na H1) as E1.
  pose proof (readUIntLE_spec this [b0; b1] t na H2) as E2.
  pose proof (readUIntBE_spec this [b0; b1] t na H2) as E3.
  pose proof (readUIntLE_spec this [b0; b1; b2; b3] t na Hat) as E4.
  pose proof (readUIntBE_spec this [b0; b1; b2; b3] t na Hat) as E5.
  unfold reverse in *. simpl in *. change (zlen [b0]) with 1 in *. change (zlen [b0; b1]) with 2 in *.
  change (zlen [b0; b1; b2; b3]) with 4 in *.
  rewrite E1, E2, E3, E4, E5 by (done || lia). rewrite ?Z.mul_0_r, ?Z.add_0_r. done.
Qed.

Lemma generic_signed_reads :
  readIntLE this t 1 na = Ok (signed (Num b0) 1 1) /\
  readIntLE this t 2 na = Ok (signed (Num (b0 + 256 * b1)) 256 2) /\
  readIntBE this t 2 na = Ok (signed (Num (b1 + 256 * b0)) 256 2) /\
  readIntLE this t 4 na = Ok (signed (Num (b0 + 256 * (b1 + 256 * (b2 + 256 * b3)))) 16777216 4) /\
  readIntBE this t 4 na = Ok (signed (Num (b3 + 256 * (b2 + 256 * (b1 + 256 * b0)))) 16777216 4).
Proof.
  pose proof (at_prefix [b0] [b1; b2; b3] eq_refl) as H1.
  pose proof (at_prefix [b0; b1] [b2; b3] eq_refl) as H2.
  pose proof (readIntLE_spec this [b0] t na H1) as E1.
  pose proof (readIntLE_spec this [b0; b1] t na H2) as E2.
  pose proof (readIntBE_spec this [b0; b1] t na H2) as E3.
  pose proof (readIntLE_spec this [b0; b1; b2; b3] t na Hat) as E4.
  pose proof (readIntBE_spec this [b0; b1; b2; b3] t na Hat) as E5.
  unfold reverse in *. simpl rev_append in *. simpl le_val in *.
  change (zlen [b0]) with 1 in *. change (zlen [b0; b1]) with 2 in *.
  change (zlen [b0; b1; b2; b3]) with 4 in *.
  rewrite E1, E2, E3, E4, E5 by (done || lia). rewrite ?Z.mul_0_r, ?Z.add_0_r. done.
Qed.

Lemma uint_readers :
  readUInt8 this t na = readUIntLE this t 1 na /\
  as_num (readUInt16LE this t na) = readUIntLE this t 2 na /\
  as_num (readUInt16BE this t na) = readUIntBE this t 2 na /\
  readUInt32LE this t na = readUIntLE this t 4 na /\
  readUInt32BE this t na = readUIntBE this t 4 na.
Proof.
  destruct generic_reads as (-> & -> & -> & -> & ->).
  destruct rd4 as (R0 & R1 & R2 & R3 & Ht & Hl).
  rewrite !bytes_ok_cons in Hb. destruct Hb as (H0 & H1 & H2 & H3 & _).
  unfold readUInt8, readUInt16LE, readUInt16BE, readUInt32LE, readUInt32BE.
  rewrite R0, R1, R2, R3, !nint_byte by done.
  rewrite !unless_ok by (apply checkOffset_ok; lia). cbn [res_bind as_num num_mul num_add].
  rewrite or24, or24_be, or16 by done. rewrite js_or_comm, or16 by done.
  split_and!; do 2 f_equal; lia.
Qed.

Lemma int_readers :
  readInt8 this t na = readIntLE this t 1 na /\
  as_num (readInt16LE this t na) = readIntLE this t 2 na /\
  as_num (readInt16BE this t na) = readIntBE this t 2 na /\
  as_num (readInt32LE this t na) = readIntLE this t 4 na /\
  as_num (readInt32BE this t na) = readIntBE this t 4 na.
Proof.
  destruct generic_signed_reads as (-> & -> & -> & -> & ->).
  destruct rd4 as (R0 & R1 & R2 & R3 & Ht & Hl).
  rewrite !bytes_ok_cons in Hb. destruct Hb as (H0 & H1 & H2 & H3 & _).
  unfold readInt8, readInt16LE, readInt16BE, readInt32LE, readInt32BE.
  rewrite R0, R1, R2, R3, !nint_byte by done.
  rewrite !unless_ok by (apply checkOffset_ok; lia). cbn [res_bind as_num].
  rewrite or32_assoc, !or32, !or16 by done. unfold byte_ok in *. rewrite !sign16 by lia.
  change 128 with (2 ^ 7) at 1. rewrite js_and_top by (simpl; lia). change (2 ^ 7) with 128.
  unfold signed, sbyte. simpl (_ * 128). simpl (2 ^ _).
  split_and!; repeat case_match; do 2 f_equal; lia.
Qed.
End FixedReaders.

(** On four bytes of the buffer, every 8-, 16- and 32-bit reader returns what
    the generic reader of that width, byte order and signedness returns: the bit
    tricks of the fixed-width readers (masks, sign tests, shifts into the sign bit)
    agree with the digit sums of the generic ones. *)
Theorem readers_agree this t na b0 b1 b2 b3 :
  at_offset this t [b0; b1; b2; b3] -> bytes_ok [b0; b1; b2; b3] -> small (zlen this) ->
  (readUInt8 this t na = readUIntLE this t 1 na /\
   as_num (readUInt16LE this t na) = readUIntLE this t 2 na /\
   as_num (readUInt16BE this t na) = readUIntBE this t 2 na /\
   readUInt32LE this t na = readUIntLE this t 4 na /\
   readUInt32BE this t na = readUIntBE this t 4 na) /\
  (readInt8 this t na = readIntLE this t 1 na /\
   as_num (readInt16LE this t na) = readIntLE this t 2 na /\
   as_num (readInt16BE this t na) = readIntBE this t 2 na /\
   as_num (readInt32LE this t na) = readIntLE this t 4 na /\
   as_num (readInt32BE this t na) = readIntBE this t 4 na).
Proof.
  intros. split; [by apply (uint_readers _ _ _ b0 b1 b2 b3)|by apply (int_readers _ _ _ b0 b1 b2 b3)].
Qed.

Lemma readers_agree_witness :
  readUInt32LE [9; 1; 2; 3; 255] 1 false = readUIntLE [9; 1; 2; 3; 255] 1 4 false /\
  as_num (readInt32LE [9; 1; 2; 3; 255] 1 false) = readIntLE [9; 1; 2; 3; 255] 1 4 false.
Proof.
  split; apply (readers_agree [9; 1; 2; 3; 255] 1 false 1 2 3 255);
    try (exists [9], []; split; reflexivity); try concrete; repeat constructor; concrete.
Defined.

(** ** The fixed-width writers are instances of the generic ones *)

(** Byte [k] of any integer through an unsigned shift. *)
Lemma ushr_byte e k :
  0 <= k <= 3 -> to_uint8 (js_ushr e (8 * k)) = e / 256 ^ k mod 256.
Proof.
  intros Hk. unfold to_uint8, js_ushr, to_uint32, pow32.
  rewrite (Z.mod_small (8 * k)) by lia. rewrite Z.shiftr_div_pow2 by lia.
  assert (k = 0 \/ k = 1 \/ k = 2 \/ k = 3) as Hc by lia.
  destruct Hc as [-> | [-> | [-> | ->]]]; simpl (2 ^ _); simpl (256 ^ _); dlia.
Qed.

Lemma and_byte e : to_uint8 (js_and 255 e) = e mod 256.
Proof.
  unfold to_uint8. change 255 with (2 ^ 8 - 1). rewrite js_and_ones_l by lia.
  change (2 ^ 8) with 256. by rewrite Z.mod_mod by lia.
Qed.

Section StoreAt.
Context (pre post : list Z).

Lemma st_0 m l v : st (pre ++ m :: l) (zlen pre) v = pre ++ to_uint8 v :: l.
Proof. unfold st. rewrite <- (Z.add_0_r (zlen pre)), zset_app_at by lia. done. Qed.
Lemma st_1 a m l v : st (pre ++ a :: m :: l) (zlen pre + 1) v = pre ++ a :: to_uint8 v :: l.
Proof. unfold st. by rewrite zset_app_at by lia. Qed.
Lemma st_2 a b m l v : st (pre ++ a :: b :: m :: l) (zlen pre + 2) v = pre ++ a :: b :: to_uint8 v :: l.
Proof. unfold st. by rewrite zset_app_at by lia. Qed.
Lemma st_3 a b c m l v :
  st (pre ++ a :: b :: c :: m :: l) (zlen pre + 3) v = pre ++ a :: b :: c :: to_uint8 v :: l.
Proof. unfold st. by rewrite zset_app_at by lia. Qed.
End StoreAt.
Create Rewrite HintDb stores.
#[local] Hint Rewrite st_0 st_1 st_2 st_3 and_byte : stores.

(** The digits of [e], as the writers compute them. *)
Lemma digits2 e : le_bytes 2 e = [e mod 256; to_uint8 (js_ushr e 8)].
Proof.
  pose proof (ushr_byte e 1) as E1. change (8 * 1) with 8 in E1. by rewrite E1 by lia.
Qed.

Lemma digits4 e :
  le_bytes 4 e = [e mod 256; to_uint8 (js_ushr e 8); to_uint8 (js_ushr e 16); to_uint8 (js_ushr e 24)].
Proof.
  simpl. pose proof (ushr_byte e 1) as E1. pose proof (ushr_byte e 2) as E2.
  pose proof (ushr_byte e 3) as E3. change (8 * 1) with 8 in E1.
  change (8 * 2) with 16 in E2. change (8 * 3) with 24 in E3. rewrite E1, E2, E3 by lia.
  rewrite !Z.div_div by lia. done.
Qed.

(** A value and the same value plus [2^32] (or [2^16]) have the same low digits. *)
Lemma le_bytes_mod n e m : 0 < m -> (256 ^ Z.of_nat n | m) -> forall q, le_bytes n (e + q * m) = le_bytes n e.
Proof.
  revert e m. induction n as [|n IH]; intros e m Hm [c Hc] q; [done|].
  rewrite Nat2Z.inj_succ, Z.pow_succ_r in Hc by lia. simpl.
  assert (Hm' : m = 256 * (c * 256 ^ Z.of_nat n)) by lia.
  assert (He : e + q * m = e + (q * (c * 256 ^ Z.of_nat n)) * 256) by (rewrite Hm'; ring).
  rewrite He, Z.mod_add, Z.div_add by lia. f_equal.
  apply IH; [lia|by exists c].
Qed.

Lemma objectWriteUInt16_spec pre m0 m1 post e le :
  -32768 <= e < 65536 ->
  objectWriteUInt16 (pre ++ [m0; m1] ++ post) e (zlen pre) le
  = pre ++ (if le then le_bytes 2 e else reverse (le_bytes 2 e)) ++ post.
Proof.
  intros He. unfold objectWriteUInt16.
  set (v := if e <? 0 then 65535 + e + 1 else e).
  assert (0 <= v < 65536 /\ le_bytes 2 v = le_bytes 2 e) as [Hv <-].
  { unfold v. destruct (Z.ltb_spec e 0); [|split; [lia|done]]. split; [lia|].
    rewrite <- (le_bytes_mod 2 e 65536) with (q := 1); [|lia|by exists 1]. f_equal. lia. }
  replace (Z.min _ 2) with 2 by (rewrite !zlen_app; pose proof (zlen_nonneg post); unfold zlen; simpl; lia).
  rewrite !forZ_step by lia. rewrite forZ_done by lia.
  assert (forall sh, sh = 0 \/ sh = 8 ->
    js_ushr (js_and v (js_shl 255 sh)) sh = v / 2 ^ sh mod 256) as Hd.
  { intros sh [-> | ->].
    - change (js_shl 255 0) with (2 ^ 8 - 1). rewrite js_and_ones by lia.
      rewrite js_ushr_div by (unfold pow32; simpl; dlia). simpl. rewrite !Z.div_1_r. done.
    - change (js_shl 255 8) with 65280. unfold js_and. rewrite !to_int32_small by (unfold pow31; lia).
      assert (Z.land v 65280 = v / 256 * 256) as ->.
      { change 65280 with (Z.shiftl (Z.ones 8) 8). apply Z.bits_inj'. intros n Hn.
        rewrite Z.land_spec. change 256 with (2 ^ 8). rewrite <- Z.shiftl_mul_pow2, <- Z.shiftr_div_pow2 by lia.
        destruct (Z.ltb_spec n 8).
        - rewrite !Z.shiftl_spec_low by lia. by rewrite andb_false_r.
        - rewrite !Z.shiftl_spec by lia. rewrite Z.shiftr_spec by lia.
          replace (n - 8 + 8) with n by lia.
          destruct (Z.ltb_spec n 16).
          + rewrite Z.ones_spec_low by lia. by rewrite andb_true_r.
          + rewrite <- (Z.mod_small v (2 ^ 16)) by (simpl; lia).
            rewrite Z.mod_pow2_bits_high by lia. done. }
      rewrite js_ushr_div by (unfold pow32; dlia). change (2 ^ 8) with 256. dlia. }
  rewrite !Hd by (destruct le; auto). rewrite Z.add_0_r.
  pose proof (zset_app_at pre ([m0; m1] ++ post) 0) as Z0. rewrite Z.add_0_r in Z0.
  rewrite Z0, zset_app_at by lia.
  destruct le; simpl; unfold reverse; simpl; rewrite ?Z.div_1_r; f_equal; f_equal; f_equal; dlia.
Qed.

Lemma objectWriteUInt32_spec pre m0 m1 m2 m3 post e le :
  - pow31 <= e < pow32 ->
  objectWriteUInt32 (pre ++ [m0; m1; m2; m3] ++ post) e (zlen pre) le
  = pre ++ (if le then le_bytes 4 e else reverse (le_bytes 4 e)) ++ post.
Proof.
  intros He. unfold objectWriteUInt32.
  set (v := if e <? 0 then 4294967295 + e + 1 else e).
  assert (le_bytes 4 v = le_bytes 4 e) as <-.
  { unfold v. destruct (Z.ltb_spec e 0); [|done].
    rewrite <- (le_bytes_mod 4 e 4294967296) with (q := 1); [|lia|by exists 1]. f_equal. lia. }
  replace (Z.min _ 4) with 4 by (rewrite !zlen_app; pose proof (zlen_nonneg post); unfold zlen; simpl; lia).
  rewrite !forZ_step by lia. rewrite forZ_done by lia.
  assert (forall k, 0 <= k <= 3 -> js_and (js_ushr v (8 * k)) 255 = v / 256 ^ k mod 256) as Hd.
  { intros k Hk. rewrite <- ushr_byte by done. unfold to_uint8.
    change 255 with (2 ^ 8 - 1). by rewrite js_and_ones by lia. }
  rewrite !Hd by (destruct le; lia). rewrite !Z.add_0_r, !Z.add_0_l.
  pose proof (zset_app_at pre ([m0; m1; m2; m3] ++ post) 0) as Z0. rewrite Z.add_0_r in Z0.
  rewrite Z0, !zset_app_at by lia.
  destruct le; simpl; unfold reverse; simpl; rewrite ?Z.div_1_r, ?Z.div_div by lia; done.
Qed.

Section FixedWriters.
Context (tas : bool) (pre post : list Z) (m0 m1 m2 m3 : Z) (e : Z) (na : bool).
Let this2 := pre ++ [m0; m1] ++ post.
Let this4 := pre ++ [m0; m1; m2; m3] ++ post.

Lemma fixed_writes16 :
  -32768 <= e < 65536 ->
  (if tas then st (st this2 (zlen pre) (js_and 255 e)) (zlen pre + 1) (js_ushr e 8)
   else objectWriteUInt16 this2 e (zlen pre) true) = pre ++ le_bytes 2 e ++ post /\
  (if tas then st (st this2 (zlen pre) (js_ushr e 8)) (zlen pre + 1) (js_and 255 e)
   else objectWriteUInt16 this2 e (zlen pre) false) = pre ++ reverse (le_bytes 2 e) ++ post.
Proof.
  intros He. unfold this2. destruct tas; [|by rewrite !objectWriteUInt16_spec by done].
  rewrite digits2. simpl app. autorewrite with stores. done.
Qed.

Lemma fixed_writes32 :
  - pow31 <= e < pow32 ->
  (if tas then st (st (st (st this4 (zlen pre + 3) (js_ushr e 24)) (zlen pre + 2) (js_ushr e 16))
                      (zlen pre + 1) (js_ushr e 8)) (zlen pre) (js_and 255 e)
   else objectWriteUInt32 this4 e (zlen pre) true) = pre ++ le_bytes 4 e ++ post /\
  (if tas then st (st (st (st this4 (zlen pre) (js_and 255 e)) (zlen pre + 1) (js_ushr e 8))
                      (zlen pre + 2) (js_ushr e 16)) (zlen pre + 3) (js_ushr e 24)
   else objectWriteUInt32 this4 e (zlen pre) true) = pre ++ le_bytes 4 e ++ post /\
  (if tas then st (st (st (st this4 (zlen pre) (js_ushr e 24)) (zlen pre + 1) (js_ushr e 16))
                      (zlen pre + 2) (js_ushr e 8)) (zlen pre + 3) (js_and 255 e)
   else objectWriteUInt32 this4 e (zlen pre) false) = pre ++ reverse (le_bytes 4 e) ++ post.
Proof.
  intros He. unfold this4. destruct tas; [|by rewrite !objectWriteUInt32_spec by done].
  rewrite digits4. simpl app. autorewrite with stores. done.
Qed.
End FixedWriters.

Lemma split2 (this : list Z) t :
  0 <= t -> t + 2 <= zlen this ->
  exists pre m0 m1 post, this = pre ++ [m0; m1] ++ post /\ zlen pre = t.
Proof.
  intros. destruct (split_at this t 2) as (pre & mid & post & -> & <- & Hm); [lia..|].
  destruct mid as [|m0 [|m1 [|? ?]]]; try (unfold zlen in Hm; simpl in Hm; lia).
  by exists pre, m0, m1, post.
Qed.

Lemma split4 (this : list Z) t :
  0 <= t -> t + 4 <= zlen this ->
  exists pre m0 m1 m2 m3 post, this = pre ++ [m0; m1; m2; m3] ++ post /\ zlen pre = t.
Proof.
  intros. destruct (split_at this t 4) as (pre & mid & post & -> & <- & Hm); [lia..|].
  destruct mid as [|m0 [|m1 [|m2 [|m3 [|? ?]]]]]; try (unfold zlen in Hm; simpl in Hm; lia).
  by exists pre, m0, m1, m2, m3, post.
Qed.

(** The 16-bit writers -- typed-array stores or the byte-wise fallback,
    unsigned or signed -- store what the generic writer of two bytes stores. *)
Theorem writers16_agree tas this e t na :
  small (zlen this) -> 0 <= t -> t + 2 <= zlen this ->
  (0 <= e < 65536 ->
     writeUInt16LE tas this e t na = writeUIntLE this e t 2 na /\
     writeUInt16BE tas this e t na = writeUIntBE this e t 2 na) /\
  (-32768 <= e < 32768 ->
     writeInt16LE tas this e t na = writeIntLE this e t 2 na /\
     writeInt16BE tas this e t na = writeIntBE this e t 2 na).
Proof.
  intros Hs Ht Hfit. destruct (split2 this t) as (pre & m0 & m1 & post & -> & <-); [lia..|].
  assert (small (zlen pre)) by (unfold small, pow31 in *; rewrite !zlen_app in *; lia).
  split; intros He.
  - pose proof (writeUIntLE_spec pre [m0; m1] post 2 e na) as E1.
    pose proof (writeUIntBE_spec pre [m0; m1] post 2 e na) as E2.
    change (Z.of_nat 2) with 2 in *. rewrite E1, E2 by (done || lia).
    unfold writeUInt16LE, writeUInt16BE. rewrite !to_int32_small by done.
    rewrite !unless_ok by (apply checkInt_ok; lia). cbn [res_bind].
    by destruct (fixed_writes16 tas pre post m0 m1 e) as [-> ->]; [lia|].
  - pose proof (writeIntLE_spec pre [m0; m1] post 2 e na) as E1.
    pose proof (writeIntBE_spec pre [m0; m1] post 2 e na) as E2.
    change (Z.of_nat 2) with 2 in *. rewrite E1, E2 by (done || (simpl; lia)).
    unfold writeInt16LE, writeInt16BE. rewrite !to_int32_small by done.
    rewrite !unless_ok by (apply checkInt_ok; lia). cbn [res_bind].
    by destruct (fixed_writes16 tas pre post m0 m1 e) as [-> ->]; [lia|].
Qed.

Lemma writers16_agree_witness :
  (writeUInt16LE false [0; 0; 0] 258 1 false = writeUIntLE [0; 0; 0] 258 1 2 false /\
   writeUInt16BE false [0; 0; 0] 258 1 false = writeUIntBE [0; 0; 0] 258 1 2 false) /\
  (writeInt16LE false [0; 0; 0] (-2) 1 false = writeIntLE [0; 0; 0] (-2) 1 2 false /\
   writeInt16BE false [0; 0; 0] (-2) 1 false = writeIntBE [0; 0; 0] (-2) 1 2 false).
Proof. split; apply writers16_agree; concrete. Defined.

(** The 32-bit writers agree with the generic writer of four bytes, whatever
    the order of their stores, with or without typed arrays, signed or not. *)
Theorem writers32_agree tas this e t na :
  small (zlen this) -> 0 <= t -> t + 4 <= zlen this ->
  (0 <= e < pow32 ->
     writeUInt32LE tas this e t na = writeUIntLE this e t 4 na /\
     writeUInt32BE tas this e t na = writeUIntBE this e t 4 na) /\
  (- pow31 <= e < pow31 ->
     writeInt32LE tas this e t na = writeIntLE this e t 4 na /\
     writeInt32BE tas this e t na = writeIntBE this e t 4 na).
Proof.
  intros Hs Ht Hfit.
  destruct (split4 this t) as (pre & m0 & m1 & m2 & m3 & post & -> & <-); [lia..|].
  assert (small (zlen pre)) by (unfold small, pow31 in *; rewrite !zlen_app in *; lia).
  unfold pow31, pow32. split; intros He.
  - pose proof (writeUIntLE_spec pre [m0; m1; m2; m3] post 4 e na) as E1.
    pose proof (writeUIntBE_spec pre [m0; m1; m2; m3] post 4 e na) as E2.
    change (Z.of_nat 4) with 4 in *. rewrite E1, E2 by (done || lia).
    unfold writeUInt32LE, writeUInt32BE. rewrite !to_int32_small by done.
    rewrite !unless_ok by (apply checkInt_ok; lia). cbn [res_bind].
    by destruct (fixed_writes32 tas pre post m0 m1 m2 m3 e) as (-> & _ & ->);
      [unfold pow31, pow32; lia|].
  - pose proof (writeIntLE_spec pre [m0; m1; m2; m3] post 4 e na) as E1.
    pose proof (writeIntBE_spec pre [m0; m1; m2; m3] post 4 e na) as E2.
    change (Z.of_nat 4) with 4 in *. rewrite E1, E2 by (done || (simpl; lia)).
    unfold writeInt32LE, writeInt32BE. rewrite !to_int32_small by done.
    rewrite !unless_ok by (apply checkInt_ok; lia). cbn [res_bind].
    assert (exists q, (if e <? 0 then 4294967295 + e + 1 else e) = e + q * 4294967296 /\
      - pow31 <= e + q * 4294967296 < pow32) as (q & -> & Hq).
    { unfold pow31, pow32. destruct (Z.ltb_spec e 0); [exists 1|exists 0]; lia. }
    destruct (fixed_writes32 tas pre post m0 m1 m2 m3 e) as (_ & -> & _);
      [unfold pow31, pow32; lia|].
    destruct (fixed_writes32 tas pre post m0 m1 m2 m3 (e + q * 4294967296)) as (_ & _ & ->); [done|].
    rewrite le_bytes_mod; [done|lia|by exists 1].
Qed.

Lemma writers32_agree_witness :
  (writeUInt32LE true [0; 0; 0; 0; 0] 258 1 false = writeUIntLE [0; 0; 0; 0; 0] 258 1 4 false /\
   writeUInt32BE true [0; 0; 0; 0; 0] 258 1 false = writeUIntBE [0; 0; 0; 0; 0] 258 1 4 false) /\
  (writeInt32LE true [0; 0; 0; 0; 0] (-2) 1 false = writeIntLE [0; 0; 0; 0; 0] (-2) 1 4 false /\
   writeInt32BE true [0; 0; 0; 0; 0] (-2) 1 false = writeIntBE [0; 0; 0; 0; 0] (-2) 1 4 false).
Proof. split; apply writers32_agree; concrete. Defined.

(** [checkInt] does not look at the sign of the offset: at a negative offset
    [writeUInt8] throws nothing, stores nothing and returns the next offset,
    where the readers (and the float writers) reject the offset. *)
Theorem write_negative_offset this e t :
  small t -> t < 0 -> 0 <= e <= 255 ->
  writeUInt8 this e t false = Ok (this, t + 1) /\
  readUInt8 this t false = Throw (RangeError "offset is not uint").
Proof.
  intros Hs Ht He. unfold writeUInt8, readUInt8. rewrite to_int32_small by done.
  rewrite unless_ok by (apply checkInt_ok; [lia|pose proof (zlen_nonneg this); lia]).
  unfold st, zset, checkOffset, unless. cbn [res_bind].
  by destruct (Z.ltb_spec t 0); [|lia].
Qed.

Lemma write_negative_offset_witness :
  writeUInt8 [7; 7] 255 (-1) false = Ok ([7; 7], 0) /\
  readUInt8 [7; 7] (-1) false = Throw (RangeError "offset is not uint").
Proof. apply (write_negative_offset [7; 7] 255 (-1)); concrete. Defined.

(** ** Every writer *)

(** The writers of integers: of 8, 16 and 32 bits and of a given number of bytes, signed or not, in
    both byte orders. *)
Inductive writer :=
| UInt8 | Int8
| UInt16 (le : bool) | Int16 (le : bool)
| UInt32 (le : bool) | Int32 (le : bool)
| UInt (le : bool) (n : nat) | Int (le : bool) (n : nat).

Definition bytes_of (w : writer) : nat :=
  match w with UInt8 | Int8 => 1 | UInt16 _ | Int16 _ => 2 | UInt32 _ | Int32 _ => 4 | UInt _ n | Int _ n => n end.
Definition is_signed (w : writer) : bool := match w with Int8 | Int16 _ | Int32 _ | Int _ _ => true | _ => false end.
Definition little (w : writer) : bool :=
  match w with UInt8 | Int8 => true | UInt16 le | Int16 le | UInt32 le | Int32 le | UInt le _ | Int le _ => le end.

Definition write_int (tas : bool) (w : writer) (this : list Z) (e t : Z) (noAssert : bool) : res (list Z * Z) :=
  match w with
  | UInt8 => writeUInt8 this e t noAssert
  | Int8 => writeInt8 this e t noAssert
  | UInt16 le => (if le then writeUInt16LE tas else writeUInt16BE tas) this e t noAssert
  | Int16 le => (if le then writeInt16LE tas else writeInt16BE tas) this e t noAssert
  | UInt32 le => (if le then writeUInt32LE tas else writeUInt32BE tas) this e t noAssert
  | Int32 le => (if le then writeInt32LE tas else writeInt32BE tas) this e t noAssert
  | UInt le n => (if le then writeUIntLE else writeUIntBE) this e t (Z.of_nat n) noAssert
  | Int le n => (if le then writeIntLE else writeIntBE) this e t (Z.of_nat n) noAssert
  end.

(** The integers of the width of a writer, and their bytes. *)
Definition least (w : writer) : Z := if is_signed w then - 2 ^ (8 * Z.of_nat (bytes_of w) - 1) else 0.
Definition greatest (w : writer) : Z := if is_signed w then 2 ^ (8 * Z.of_nat (bytes_of w) - 1) - 1 else 2 ^ (8 * Z.of_nat (bytes_of w)) - 1.
Definition int_bytes (w : writer) (e : Z) : list Z := (if little w then id else reverse) (le_bytes (bytes_of w) e).

(** Every writer makes the check of its width first. *)
Lemma write_checks tas w this e t :
  small t -> (bytes_of w <= 6)%nat ->
  exists r, write_int tas w this e t false = let! _ := checkInt this e t (Z.of_nat (bytes_of w)) (greatest w) (least w) in Ok r.
Proof.
  intros Ht Hn. assert (Hs : small (Z.of_nat (bytes_of w))) by (unfold small, pow31; lia).
  destruct w as [| |[]|[]|[]|[]|[] n|[] n]; cbn [write_int bytes_of] in *;
    unfold writeUInt8, writeInt8, writeUInt16LE, writeUInt16BE, writeInt16LE, writeInt16BE, writeUInt32LE, writeUInt32BE, writeInt32LE, writeInt32BE, writeUIntLE, writeUIntBE, writeIntLE, writeIntBE;
    rewrite ?(to_int32_small t), ?(to_int32_small (Z.of_nat n)) by done; cbn [unless is_signed bytes_of]; try (eexists; reflexivity);
    unfold greatest, least; cbn [is_signed bytes_of]; destruct (checkInt _ _ _ _ _ _); cbn [res_bind]; try (exists (this, 0); reflexivity); destruct (forZ _ _ _ _ _); try (eexists; reflexivity); by destruct p; eexists.
Qed.

Lemma write8 pre m0 post e : to_uint8 (js_and 255 e) = e mod 256 -> st (pre ++ [m0] ++ post) (zlen pre) (js_and 255 e) = pre ++ le_bytes 1 e ++ post.
Proof. intros H. cbn [app]. rewrite st_0, H. by cbn. Qed.

(** In range, a writer stores what the generic writer of its width stores. *)
Lemma write_generic tas w this e t :
  small (zlen this) -> 0 <= t -> t + Z.of_nat (bytes_of w) <= zlen this -> least w <= e <= greatest w ->
  (1 <= bytes_of w)%nat ->
  write_int tas w this e t false = write_int tas ((if is_signed w then Int else UInt) (little w) (bytes_of w)) this e t false.
Proof.
  intros Hs Ht Hfit He Hn. destruct w as [| |le|le|le|le|le n|le n]; try done; cbn [write_int is_signed little bytes_of] in *; unfold least, greatest in He; cbn [is_signed bytes_of] in He;
    change (Z.of_nat 1) with 1 in *; change (Z.of_nat 2) with 2 in *; change (Z.of_nat 4) with 4 in *; cbn in He;
    try (destruct (writers16_agree tas this e t false Hs Ht Hfit) as [H1 H2], le; (apply H1 || apply H2); lia);
    try (destruct (writers32_agree tas this e t false Hs Ht Hfit) as [H1 H2], le; (apply H1 || apply H2); unfold pow31, pow32; lia);
    destruct (split_at this t 1) as (pre & mid & post & -> & <- & Hm); [lia..|]; destruct mid as [|m0 [|]]; try (unfold zlen in Hm; simpl in Hm; lia).
  pose proof (writeIntLE_spec pre [m0] post 1 e false) as E1. change (Z.of_nat 1) with 1 in E1. rewrite E1 by (done || (cbn; lia)). unfold writeInt8.
  rewrite to_int32_small by (unfold small in *; rewrite !zlen_app in *; pose proof (zlen_nonneg pre); lia). rewrite unless_ok by (apply checkInt_ok; lia). cbn [res_bind].
  rewrite write8 by apply and_byte. destruct (e <? 0); [|done]. replace (255 + e + 1) with (e + 1 * 256) by lia. rewrite (le_bytes_mod 1 e 256); [done|lia|by exists 1].
Qed.

(** C39: a checked write of an integer at an offset that is not negative, of any width up to six
    bytes, signed or not and in either byte order, is exact: if the integer is one of that width and its bytes fit into the buffer,
    they are put at the offset in their order, every other byte stays and the offset behind them
    is returned; otherwise there is a RangeError, which says whether it was the value or the
    place. *)
Theorem writers_exact tas w this e t :
  small (zlen this) -> 0 <= t < pow31 -> (1 <= bytes_of w <= 6)%nat ->
  let n := Z.of_nat (bytes_of w) in
  write_int tas w this e t false =
    if (least w <=? e) && (e <=? greatest w) then
      if t + n <=? zlen this then Ok (zsub this 0 t ++ int_bytes w e ++ zsub this (t + n) (zlen this), t + n)
      else Throw (RangeError "Index out of range")
    else Throw (RangeError "'value' argument is out of bounds").
Proof.
  intros Hs Ht Hn n. assert (Hst : small t) by (unfold small; lia).
  destruct (Z.leb_spec (least w) e), (Z.leb_spec e (greatest w)); cbn [andb];
    [|destruct (write_checks tas w this e t Hst ltac:(lia)) as [r ->]; unfold checkInt; destruct (Z.ltb_spec (greatest w) e), (Z.ltb_spec e (least w)); (lia || done)..].
  destruct (Z.leb_spec (t + n) (zlen this)).
  2: { destruct (write_checks tas w this e t Hst ltac:(lia)) as [r ->]. unfold checkInt. fold n. rewrite !(proj2 (Z.ltb_ge _ _)) by lia. cbn [orb]. by rewrite (proj2 (Z.ltb_lt _ _)) by done. }
  rewrite write_generic by (done || lia). destruct (split_at this t n) as (pre & mid & post & -> & <- & Hm); [lia..|].
  assert (Hpre : zsub (pre ++ mid ++ post) 0 (zlen pre) = pre) by apply (zsub_app [] pre (mid ++ post)).
  assert (Hpost : zsub (pre ++ mid ++ post) (zlen pre + n) (zlen (pre ++ mid ++ post)) = post).
  { rewrite app_assoc, <- Hm, <- zlen_app, (zlen_app (pre ++ mid)). rewrite <- (app_nil_r post) at 1. apply zsub_app. }
  rewrite Hpre, Hpost. unfold int_bytes. unfold least, greatest in *.
  destruct (is_signed w), (little w); cbn [write_int id]; subst n;
    [apply writeIntLE_spec|apply writeIntBE_spec|apply writeUIntLE_spec|apply writeUIntBE_spec]; try done; try lia; rewrite <- pow8 by lia; lia.
Qed.

Lemma writers_exact_witness :
  write_int true (Int16 false) [7; 7; 7] (-2) 1 false = Ok ([7; 255; 254], 3) /\
  write_int false (UInt true 3) [7; 7; 7; 7] 66051 0 false = Ok ([3; 2; 1; 7], 3) /\
  write_int true UInt8 [7] 256 0 false = Throw (RangeError "'value' argument is out of bounds").
Proof.
  split_and!.
  - rewrite (writers_exact true (Int16 false) [7; 7; 7] (-2) 1) by (concrete; lia). reflexivity.
  - rewrite (writers_exact false (UInt true 3) [7; 7; 7; 7] 66051 0) by (concrete; lia). reflexivity.
  - rewrite (writers_exact true UInt8 [7] 256 0) by (concrete; lia). reflexivity.
Defined.

End BufferInt.
