(* ===== verification/BufferOps.v ===== *)
(** * Buffer: memory, slices, copies, comparison and search

    Models the operations of module 54 of
    src/client/docs/swagger-ui/swagger-ui-bundle.js that work on whole buffers.
    A buffer object is a view of an ArrayBuffer: slices share its bytes, so the
    model keeps the ArrayBuffers in a store and the identity of each buffer
    object, which [copy] and [equals] test with [===].  Operations that only look
    at the bytes of one or two buffers ([compare], [indexOf]) take those bytes. *)

From S2P Require Import Prelude BufferInt.
From Stdlib Require Import String.
From stdpp Require Import base numbers list strings option gmap.
Open Scope Z_scope.

Module BufferOps.
Import BufferInt.

(** ** Memory *)

Abbreviation mem := (gmap nat (list Z)).

(** A buffer object: its identity, the ArrayBuffer it views, offset and length. *)
Record view := View { vid : nat; vbuf : nat; voff : Z; vlen : Z }.

Definition peek (m : mem) (b : nat) (p : Z) : option Z :=
  match m !! b with Some l => zget l p | None => None end.
Definition poke (m : mem) (b : nat) (p v : Z) : mem := alter (fun l => zset l p v) b m.

(** [v[i]] and [v[i] = x]. *)
Definition vget (m : mem) (v : view) (i : Z) : option Z :=
  if (0 <=? i) && (i <? vlen v) then peek m (vbuf v) (voff v + i) else None.
Definition vset (m : mem) (v : view) (i x : Z) : mem :=
  if (0 <=? i) && (i <? vlen v) then poke m (vbuf v) (voff v + i) (to_uint8 x) else m.

Definition contents (m : mem) (v : view) : list Z :=
  match m !! vbuf v with Some l => zsub l (voff v) (voff v + vlen v) | None => [] end.

(** The heap: the store and the next unused object and ArrayBuffer number. *)
Record heap := Heap { hmem : mem; hnext : nat }.

Definition kMaxLength (tas : bool) : Z := if tas then 2147483647 else 1073741823.

Section Ops.
(** [Buffer.TYPED_ARRAY_SUPPORT]. *)
Context (tas : bool).

(** [createBuffer]: a zeroed Uint8Array of [t] bytes. *)
Definition createBuffer (h : heap) (t : Z) : res (heap * view) :=
  if kMaxLength tas <? t then Throw (RangeError "Invalid typed array length")
  else if t <? 0 then Throw (RangeError "Invalid typed array length")
  else Ok (Heap (<[hnext h := replicate (Z.to_nat t) 0]> (hmem h)) (S (hnext h)),
           View (hnext h) (hnext h) 0 t).

Definition checked (length : Z) : res Z :=
  if kMaxLength tas <=? length
  then Throw (RangeError (if tas
    then "Attempt to allocate Buffer larger than maximum size: 0x7fffffff bytes"
    else "Attempt to allocate Buffer larger than maximum size: 0x3fffffff bytes"))
  else Ok (to_int32 length).

Definition assertSize (e : Z) : res unit :=
  if e <? 0 then Throw (RangeError "'size' argument must not be negative") else Ok tt.

Definition allocUnsafe (h : heap) (t : Z) : res (heap * view) :=
  let! _ := assertSize t in
  let! n := (if t <? 0 then Ok 0 else checked t) in
  createBuffer h n.

(** [Buffer.from] of an array-like: each element masked to a byte. *)
Definition fromArrayLike (h : heap) (t : list Z) : res (heap * view) :=
  let! n := checked (zlen t) in
  let! (h, e) := createBuffer h n in
  Ok (Heap (forZ 0 n 1 (fun r m => vset m e r (js_and 255 (nint (rd t r)))) (hmem h)) (hnext h), e).

(** ** slice *)
Definition clamp (x r : Z) : Z :=
  if x <? 0 then (if x + r <? 0 then 0 else x + r) else if r <? x then r else x.

Definition slice_bounds (r e : Z) (t : option Z) : Z * Z :=
  let e := to_int32 e in
  let t := match t with None => r | Some t => to_int32 t end in
  let e := clamp e r in
  let t := clamp t r in
  (e, if t <? e then e else t).

(** [subarray] makes a new object on the same ArrayBuffer; without typed arrays
    the bytes are copied into a new buffer. *)
Definition slice (h : heap) (this : view) (e : Z) (t : option Z) : res (heap * view) :=
  let '(e, t) := slice_bounds (vlen this) e t in
  if tas then
    Ok (Heap (hmem h) (S (hnext h)), View (hnext h) (vbuf this) (voff this + e) (t - e))
  else
    let! (h, n) := allocUnsafe h (t - e) in
    Ok (Heap (forZ 0 (t - e) 1 (fun i m => vset m n i (default 0 (vget m this (i + e)))) (hmem h))
          (hnext h), n).

(** ** copy *)
Definition copy_byte (m : mem) (this e : view) (t n o : Z) : mem :=
  vset m e (o + t) (default 0 (vget m this (o + n))).

(** [Uint8Array.prototype.set]: the source is read before anything is stored. *)
Definition typed_set (m : mem) (this e : view) (t n i : Z) : mem :=
  forZ 0 i 1 (fun o m' => vset m' e (o + t) (default 0 (vget m this (o + n)))) m.

Definition copy (m : mem) (this e : view) (t n : Z) (r : option Z) : res (mem * Z) :=
  let r := default (vlen this) r in
  let t := if vlen e <=? t then vlen e else t in
  let r := if (0 <? r) && (r <? n) then n else r in
  if r =? n then Ok (m, 0)
  else if (vlen e =? 0) || (vlen this =? 0) then Ok (m, 0)
  else if t <? 0 then Throw (RangeError "targetStart out of bounds")
  else if (n <? 0) || (vlen this <=? n) then Throw (RangeError "sourceStart out of bounds")
  else if r <? 0 then Throw (RangeError "sourceEnd out of bounds")
  else
    let r := if vlen this <? r then vlen this else r in
    let r := if vlen e - t <? r - n then vlen e - t + n else r in
    let i := r - n in
    let m' :=
      if (vid this =? vid e)%nat && (n <? t) && (t <? r)
      then forZ 0 i 1 (fun j m => copy_byte m this e t n (i - 1 - j)) m
      else if (i <? 1000) || negb tas
      then forZ 0 i 1 (fun o m => copy_byte m this e t n o) m
      else typed_set m this e t n i in
    Ok (m', i).

(** ** concat *)
Definition concat (h : heap) (e : list view) (t : option Z) : res (heap * view) :=
  match e with
  | [] => createBuffer h 0
  | _ =>
      let t := match t with
               | Some t => t
               | None => fold_left (fun t v => t + vlen v) e 0
               end in
      let! (h, r) := allocUnsafe h t in
      let! (m, _) := fold_left
        (fun acc a => let! (m, o) := acc in
           let! (m, _) := copy m a r o 0 None in Ok (m, o + vlen a))
        e (Ok (hmem h, 0)) in
      Ok (Heap m (hnext h), r)
  end.
End Ops.

(** ** compare, equals *)

(** The bytes at the first index where the two differ, or the two lengths. *)
Fixpoint first_diff (l k : list Z) (n r : Z) : Z * Z :=
  match l, k with
  | x :: l', y :: k' => if x =? y then first_diff l' k' n r else (x, y)
  | _, _ => (n, r)
  end.

Definition order (p : Z * Z) : Z :=
  let '(n, r) := p in if n <? r then -1 else if r <? n then 1 else 0.

Definition compare (e t : list Z) : Z := order (first_diff e t (zlen e) (zlen t)).

Definition equals (m : mem) (this e : view) : bool :=
  (vid this =? vid e)%nat || (compare (contents m this) (contents m e) =? 0).

(** [Buffer.prototype.compare] with ranges: [target[t..n)] against [this[r..o)];
    [same] says whether the two are the same object. *)
Definition compare_range (same : bool) (this e : list Z) (t n r o : option Z) : res Z :=
  let t := default 0 t in
  let n := default (zlen e) n in
  let r := default 0 r in
  let o := default (zlen this) o in
  if (t <? 0) || (zlen e <? n) || (r <? 0) || (zlen this <? o)
  then Throw (RangeError "out of range index")
  else if (o <=? r) && (n <=? t) then Ok 0
  else if o <=? r then Ok (-1)
  else if n <=? t then Ok 1
  else if same then Ok 0
  else Ok (order (first_diff (zsub this r o) (zsub e t n) (o - r) (n - t))).

(** ** swap *)
Definition swap (b : list Z) (n m : Z) : list Z :=
  let i := default 0 (zget b n) in
  zset (zset b n (default 0 (zget b m))) m i.

Definition swap16 (this : list Z) : res (list Z) :=
  if negb (zlen this mod 2 =? 0) then Throw (RangeError "Buffer size must be a multiple of 16-bits")
  else Ok (forZ 0 (zlen this) 2 (fun t b => swap b t (t + 1)) this).

Definition swap32 (this : list Z) : res (list Z) :=
  if negb (zlen this mod 4 =? 0) then Throw (RangeError "Buffer size must be a multiple of 32-bits")
  else Ok (forZ 0 (zlen this) 4 (fun t b => swap (swap b t (t + 3)) (t + 1) (t + 2)) this).

Definition swap64 (this : list Z) : res (list Z) :=
  if negb (zlen this mod 8 =? 0) then Throw (RangeError "Buffer size must be a multiple of 64-bits")
  else Ok (forZ 0 (zlen this) 8
         (fun t b => swap (swap (swap (swap b t (t + 7)) (t + 1) (t + 6)) (t + 2) (t + 5))
                          (t + 3) (t + 4)) this).

(** ** fill with a number or with the bytes of a buffer *)
Inductive fill_value := FillNum (z : Z) | FillBytes (a : list Z).

Definition fill (this : list Z) (e : fill_value) (t : Z) (n : option Z) : res (list Z) :=
  let e := match e with FillNum z => FillNum (js_and z 255) | FillBytes a => FillBytes a end in
  if (t <? 0) || (zlen this <? t) || (match n with Some n => zlen this <? n | None => false end)
  then Throw (RangeError "Out of range index")
  else if match n with Some n => n <=? t | None => false end then Ok this
  else
    let t := to_uint32 t in
    let n := match n with None => zlen this | Some n => to_uint32 n end in
    match e with
    | FillNum z => Ok (forZ t n 1 (fun i b => st b i z) this)
    | FillBytes a =>
        let u := zlen a in
        Ok (forZ 0 (n - t) 1
              (fun i b => st b (i + t) (if u =? 0 then 0 else default 0 (zget a (i mod u)))) this)
    end.

(** ** indexOf, lastIndexOf *)

(** The forward search of [arrayIndexOf] on single bytes: [i] is the position
    looked at, [c] the start of the match under way or -1.  A mismatch inside a
    match goes back to the position after its start. *)
Fixpoint search_fwd (fuel : nat) (e t : list Z) (i c : Z) : Z :=
  match fuel with
  | O => -1
  | S fuel' =>
      if i <? zlen e then
        if bool_decide (zget e i = zget t (if c =? -1 then 0 else i - c)) then
          let c := if c =? -1 then i else c in
          if i - c + 1 =? zlen t then c else search_fwd fuel' e t (i + 1) c
        else
          let i := if c =? -1 then i else i - (i - c) in
          search_fwd fuel' e t (i + 1) (-1)
      else -1
  end.

(** The backward search: [f] of the inner loop, then the outer loop. *)
Definition match_at (e t : list Z) (i : Z) : bool :=
  forZ 0 (zlen t) 1
    (fun p f => f && bool_decide (zget e (i + p) = zget t p)) true.

Fixpoint search_bwd (fuel : nat) (e t : list Z) (i : Z) : Z :=
  match fuel with
  | O => -1
  | S fuel' => if 0 <=? i then if match_at e t i then i else search_bwd fuel' e t (i - 1) else -1
  end.

(** Each position starts at most one match attempt, of at most [zlen t + 1] steps. *)
Definition search_fuel (e t : list Z) (n : Z) : nat := S (Z.to_nat ((zlen e - n) * (zlen t + 1))).

Definition arrayIndexOf (e t : list Z) (n : Z) (dir : bool) : Z :=
  if dir then search_fwd (search_fuel e t n) e t n (-1)
  else
    let n := if zlen e <? n + zlen t then zlen e - zlen t else n in
    search_bwd (S (Z.to_nat (n + 1))) e t n.

(** [bidirectionalIndexOf] for a needle of bytes: the offset is clamped to 32
    bits, counted from the end when negative, and cut to the buffer. *)
Definition bidirectionalIndexOf (e t : list Z) (n : num) (dir : bool) : Z :=
  if zlen e =? 0 then -1 else
  let n := match n with
           | Num n => if 2147483647 <? n then 2147483647
                      else if n <? -2147483648 then -2147483648 else n
           | _ => if dir then 0 else zlen e - 1
           end in
  let n := if n <? 0 then zlen e + n else n in
  if zlen e <=? n then
    if dir then -1
    else if zlen t =? 0 then -1 else arrayIndexOf e t (zlen e - 1) dir
  else if n <? 0 then
    if negb dir then -1
    else if zlen t =? 0 then -1 else arrayIndexOf e t 0 dir
  else if zlen t =? 0 then -1 else arrayIndexOf e t n dir.

(** The same searches in UTF-16 mode: the unit is two bytes, read with
    [readUInt16BE], and the positions are counted in units. *)
Fixpoint search_fwd16 (fuel : nat) (e t : list Z) (i c : Z) : res Z :=
  match fuel with
  | O => Ok (-1)
  | S fuel' =>
      if 2 * i <? zlen e then
        let! x := readUInt16BE e (2 * i) false in
        let! y := readUInt16BE t (2 * (if c =? -1 then 0 else i - c)) false in
        if x =? y then
          let c := if c =? -1 then i else c in
          if 2 * (i - c + 1) =? zlen t then Ok (c * 2) else search_fwd16 fuel' e t (i + 1) c
        else
          let i := if c =? -1 then i else i - (i - c) in
          search_fwd16 fuel' e t (i + 1) (-1)
      else Ok (-1)
  end.

Fixpoint match_at16 (fuel : nat) (e t : list Z) (i p : Z) : res bool :=
  match fuel with
  | O => Ok true
  | S fuel' =>
      if 2 * p <? zlen t then
        let! x := readUInt16BE e (2 * (i + p)) false in
        let! y := readUInt16BE t (2 * p) false in
        if x =? y then match_at16 fuel' e t i (p + 1) else Ok false
      else Ok true
  end.

(** On success the backward search returns the unit [i], not the byte [2 * i]. *)
Fixpoint search_bwd16 (fuel : nat) (e t : list Z) (i : Z) : res Z :=
  match fuel with
  | O => Ok (-1)
  | S fuel' =>
      if 0 <=? i then
        let! f := match_at16 (length t) e t i 0 in
        if f then Ok i else search_bwd16 fuel' e t (i - 1)
      else Ok (-1)
  end.

(** ** Memory lemmas *)

Definition in_mem (m : mem) (b : nat) (p : Z) : Prop :=
  exists l, m !! b = Some l /\ 0 <= p < zlen l.

Definition wf_view (m : mem) (v : view) : Prop :=
  exists l, m !! vbuf v = Some l /\ 0 <= voff v /\ 0 <= vlen v /\ voff v + vlen v <= zlen l.

Definition wf_mem (m : mem) : Prop := forall b l, m !! b = Some l -> bytes_ok l.

Lemma peek_poke_eq m b p v : in_mem m b p -> peek (poke m b p v) b p = Some v.
Proof.
  intros (l & Hl & Hp). unfold peek, poke. rewrite lookup_alter_eq, Hl. simpl.
  by apply zget_zset_eq.
Qed.

Lemma peek_poke_ne m b p v b' p' : b <> b' \/ p <> p' -> peek (poke m b p v) b' p' = peek m b' p'.
Proof.
  intros H. unfold peek, poke. destruct (decide (b = b')) as [->|Hb].
  - rewrite lookup_alter_eq. destruct (m !! b'); simpl; [|done].
    apply zget_zset_ne. destruct H; congruence.
  - by rewrite lookup_alter_ne by congruence.
Qed.

Lemma wf_view_poke m v b p x : wf_view m v -> wf_view (poke m b p x) v.
Proof.
  intros (l & Hl & H). unfold wf_view, poke. destruct (decide (b = vbuf v)) as [->|Hb].
  - rewrite lookup_alter_eq, Hl. simpl. exists (zset l p x). by rewrite zlen_zset.
  - rewrite lookup_alter_ne by congruence. by exists l.
Qed.

Lemma wf_view_in m v i : wf_view m v -> 0 <= i < vlen v -> in_mem m (vbuf v) (voff v + i).
Proof. intros (l & Hl & H) Hi. exists l. split; [done|lia]. Qed.

Lemma peek_byte m b p : wf_mem m -> in_mem m b p -> exists x, peek m b p = Some x /\ byte_ok x.
Proof.
  intros Hm (l & Hl & Hp). unfold peek. rewrite Hl. destruct (zget_in_range l p Hp) as [x Hx].
  exists x. split; [done|]. specialize (Hm b l Hl). unfold bytes_ok in Hm.
  rewrite Forall_lookup in Hm. unfold zget in Hx. destruct (p <? 0); [done|]. by eapply Hm.
Qed.

Lemma vget_in m v i : 0 <= i < vlen v -> vget m v i = peek m (vbuf v) (voff v + i).
Proof.
  intros. unfold vget. destruct (Z.leb_spec 0 i), (Z.ltb_spec i (vlen v)); try lia. done.
Qed.

Lemma vset_in m v i x : 0 <= i < vlen v -> vset m v i x = poke m (vbuf v) (voff v + i) (to_uint8 x).
Proof.
  intros. unfold vset. destruct (Z.leb_spec 0 i), (Z.ltb_spec i (vlen v)); try lia. done.
Qed.

(** ** slice *)

Lemma slice_bounds_range r a b :
  0 <= r ->
  0 <= fst (slice_bounds r a b) <= snd (slice_bounds r a b) /\ snd (slice_bounds r a b) <= r.
Proof. intros Hr. unfold slice_bounds, clamp. simpl. repeat case_match; lia. Qed.

(** A slice is clamped to its buffer and shares its bytes: reading or storing
    at [i] in the slice is reading or storing at [start + i] in the buffer. *)
Theorem slice_alias h this a b :
  0 <= vlen this ->
  exists h' s, slice true h this a b = Ok (h', s) /\ hmem h' = hmem h /\
    let start := fst (slice_bounds (vlen this) a b) in
    0 <= start /\ 0 <= vlen s /\ start + vlen s <= vlen this /\
    forall i x, 0 <= i < vlen s ->
      vget (hmem h) s i = vget (hmem h) this (start + i) /\
      vset (hmem h) s i x = vset (hmem h) this (start + i) x.
Proof.
  intros Hlen. unfold slice. pose proof (slice_bounds_range (vlen this) a b Hlen) as Hb.
  destruct (slice_bounds (vlen this) a b) as [e t]. simpl in *.
  do 2 eexists. split; [reflexivity|]. simpl. split_and!; [done|lia..|].
  intros i x Hi. rewrite !vget_in, !vset_in by (simpl; lia). simpl. by rewrite Z.add_assoc.
Qed.

Lemma slice_alias_witness :
  exists h' s, slice true (Heap {[ 0%nat := [1; 2; 3; 4] ]} 1) (View 0 0 0 4) 1 (Some (-1)) = Ok (h', s) /\
    vget (hmem h') s 1 = Some 3.
Proof.
  destruct (slice_alias (Heap {[ 0%nat := [1; 2; 3; 4] ]} 1) (View 0 0 0 4) 1 (Some (-1)))
    as (h' & s & Hs & _); [concrete|].
  exists h', s. split; [exact Hs|]. vm_compute in Hs. injection Hs as <- <-. reflexivity.
Defined.

(** ** copy *)

(** [m'] is [m] with bytes [a..b) of the copied range moved. *)
Definition moved (m m' : mem) (this e : view) (t n a b : Z) : Prop :=
  forall k p, peek m' k p =
    if decide (k = vbuf e /\ voff e + t + a <= p < voff e + t + b)
    then peek m (vbuf this) (p - (voff e + t) + (voff this + n))
    else peek m k p.

Section Copy.
Context (m : mem) (this e : view) (t n i : Z).
Hypothesis Hm : wf_mem m.
Hypothesis Hthis : wf_view m this.
Hypothesis He : wf_view m e.
Hypothesis Ht : 0 <= t /\ t + i <= vlen e.
Hypothesis Hn : 0 <= n /\ n + i <= vlen this.

(** One store that extends the moved range at either end. *)
Lemma copy_step m' a b o :
  0 <= o < i ->
  wf_view m' e -> moved m m' this e t n a b ->
  (b = o /\ a <= b \/ a = o + 1 /\ a <= b) ->
  wf_view (vset m' e (o + t) (default 0 (peek m (vbuf this) (voff this + (o + n))))) e /\
  moved m (vset m' e (o + t) (default 0 (peek m (vbuf this) (voff this + (o + n)))))
    this e t n (Z.min a o) (Z.max b (o + 1)).
Proof using Hm Hthis He Ht Hn.
  intros Ho Hwf Hmv Hab. rewrite vset_in by lia. split; [by apply wf_view_poke|].
  destruct (peek_byte m (vbuf this) (voff this + (o + n))) as (x & Hx & Hb);
    [done|apply wf_view_in; [done|lia]|].
  rewrite Hx. simpl. unfold to_uint8. rewrite Z.mod_small by done.
  intros k p. destruct (decide (k = vbuf e /\ p = voff e + (o + t))) as [[-> ->]|Hne].
  - rewrite peek_poke_eq by (apply wf_view_in; [done|lia]).
    rewrite decide_True by lia. rewrite <- Hx. f_equal. lia.
  - rewrite peek_poke_ne by (destruct (decide (vbuf e = k)); [right; intros Heq; apply Hne; by rewrite Heq|by left]).
    rewrite Hmv. repeat case_decide; done || lia.
Qed.

Lemma typed_set_moved : 0 <= i -> moved m (typed_set m this e t n i) this e t n 0 i.
Proof using Hm Hthis He Ht Hn.
  intros Hi. enough (wf_view (typed_set m this e t n i) e /\
    moved m (typed_set m this e t n i) this e t n 0 i) by tauto.
  unfold typed_set.
  apply (forZ_inv1 (fun o m' => wf_view m' e /\ moved m m' this e t n 0 o)); [done| |].
  - split; [done|]. intros k p. rewrite decide_False by lia. done.
  - intros o m' Ho [Hwf Hmv]. rewrite vget_in by lia.
    pose proof (copy_step m' 0 o o) as H. rewrite Z.min_l, Z.max_r in H by lia.
    apply H; auto; lia.
Qed.

Lemma ascending_moved :
  0 <= i ->
  vbuf this <> vbuf e \/ voff e + t <= voff this + n \/ voff this + n + i <= voff e + t ->
  moved m (forZ 0 i 1 (fun o m => copy_byte m this e t n o) m) this e t n 0 i.
Proof using Hm Hthis He Ht Hn.
  intros Hi Hsafe. enough (wf_view (forZ 0 i 1 (fun o m => copy_byte m this e t n o) m) e /\
    moved m (forZ 0 i 1 (fun o m => copy_byte m this e t n o) m) this e t n 0 i) by tauto.
  apply (forZ_inv1 (fun o m' => wf_view m' e /\ moved m m' this e t n 0 o)); [done| |].
  - split; [done|]. intros k p. rewrite decide_False by lia. done.
  - intros o m' Ho [Hwf Hmv]. unfold copy_byte. rewrite vget_in by lia.
    rewrite (Hmv (vbuf this)). rewrite decide_False by (intros [? ?]; destruct Hsafe as [?|[?|?]]; lia || done).
    pose proof (copy_step m' 0 o o) as H. rewrite Z.min_l, Z.max_r in H by lia.
    apply H; auto; lia.
Qed.

Lemma descending_moved :
  0 <= i -> vbuf this <> vbuf e \/ voff this + n <= voff e + t ->
  moved m (forZ 0 i 1 (fun j m => copy_byte m this e t n (i - 1 - j)) m) this e t n 0 i.
Proof using Hm Hthis He Ht Hn.
  intros Hi Hsafe.
  enough (wf_view (forZ 0 i 1 (fun j m => copy_byte m this e t n (i - 1 - j)) m) e /\
    moved m (forZ 0 i 1 (fun j m => copy_byte m this e t n (i - 1 - j)) m) this e t n (i - i) i)
    by (rewrite Z.sub_diag in *; tauto).
  apply (forZ_inv1 (fun j m' => wf_view m' e /\ moved m m' this e t n (i - j) i)); [done| |].
  - split; [done|]. intros k p. rewrite decide_False by lia. done.
  - intros j m' Hj [Hwf Hmv]. unfold copy_byte. rewrite vget_in by lia.
    rewrite (Hmv (vbuf this)). rewrite decide_False by (intros [? ?]; destruct Hsafe; lia || done).
    pose proof (copy_step m' (i - j) i (i - 1 - j)) as H.
    rewrite Z.min_r, Z.max_l in H by lia. replace (i - (j + 1)) with (i - 1 - j) by lia.
    apply H; auto; lia.
Qed.
End Copy.

Lemma copy_memmove tas m this e t n r :
  wf_mem m -> wf_view m this -> wf_view m e -> (vid this = vid e -> this = e) ->
  0 <= t <= vlen e -> 0 <= n <= r -> r <= vlen this ->
  let i := Z.min (r - n) (vlen e - t) in
  vbuf this <> vbuf e \/ vid this = vid e \/ (tas = true /\ 1000 <= i) \/
    voff e + t <= voff this + n \/ voff this + n + i <= voff e + t ->
  exists m', copy tas m this e t n (Some r) = Ok (m', i) /\ moved m m' this e t n 0 i.
Proof.
  intros Hm Hth He Hid Ht Hn Hr i Hsafe. unfold copy. simpl default.
  assert (moved m m this e t n 0 0) as Hnone
    by (intros k p; rewrite decide_False by lia; done).
  replace (if vlen e <=? t then vlen e else t) with t
    by (destruct (Z.leb_spec (vlen e) t); lia).
  replace (if (0 <? r) && (r <? n) then n else r) with r
    by (destruct (Z.ltb_spec r n); [lia|by rewrite andb_false_r]).
  destruct (Z.eqb_spec r n) as [->|Hne].
  { assert (i = 0) as -> by lia. by exists m. }
  destruct (Z.eqb_spec (vlen e) 0).
  { assert (i = 0) as -> by lia. by exists m. }
  destruct (Z.eqb_spec (vlen this) 0); [lia|]. simpl orb.
  destruct (Z.ltb_spec t 0); [lia|]. destruct (Z.ltb_spec n 0); [lia|].
  destruct (Z.leb_spec (vlen this) n); [lia|]. simpl orb.
  destruct (Z.ltb_spec r 0); [lia|].
  replace (if vlen this <? r then vlen this else r) with r
    by (destruct (Z.ltb_spec (vlen this) r); lia).
  replace (if vlen e - t <? r - n then vlen e - t + n else r) with (n + i)
    by (destruct (Z.ltb_spec (vlen e - t) (r - n)); lia).
  replace (n + i - n) with i by lia. cbv iota beta. eexists; split; [reflexivity|].
  destruct (Nat.eqb_spec (vid this) (vid e)) as [Hv|Hv].
  - specialize (Hid Hv). subst e. simpl andb.
    destruct (Z.ltb_spec n t), (Z.ltb_spec t (n + i)); simpl andb; cbv iota.
    + apply descending_moved; try done; lia.
    + destruct ((i <? 1000) || negb tas);
        [apply ascending_moved|apply typed_set_moved]; try done; lia.
    + destruct ((i <? 1000) || negb tas);
        [apply ascending_moved|apply typed_set_moved]; try done; lia.
    + destruct ((i <? 1000) || negb tas);
        [apply ascending_moved|apply typed_set_moved]; try done; lia.
  - simpl andb. cbv iota. destruct (Z.ltb_spec i 1000); simpl orb; cbv iota.
    + apply ascending_moved; try done; [lia|lia|lia|].
      destruct Hsafe as [?|[?|[?|?]]]; auto; lia.
    + destruct tas; simpl; [apply typed_set_moved; try done; lia|].
      apply ascending_moved; try done; [lia|lia|lia|].
      destruct Hsafe as [?|[?|[[? ?]|?]]]; auto; done.
Qed.

(** [copy] is a memmove: it returns the number of bytes that fit and moves
    exactly those, when the two buffers have different memory, are the same
    object, are 1000 bytes or more, or overlap in the direction of the loop. *)
Theorem copy_moves tas m this e t n r :
  wf_mem m -> wf_view m this -> wf_view m e -> (vid this = vid e -> this = e) ->
  0 <= t <= vlen e -> 0 <= n <= r -> r <= vlen this ->
  let i := Z.min (r - n) (vlen e - t) in
  vbuf this <> vbuf e \/ vid this = vid e \/ (tas = true /\ 1000 <= i) \/
    voff e + t <= voff this + n \/ voff this + n + i <= voff e + t ->
  exists m', copy tas m this e t n (Some r) = Ok (m', i) /\ moved m m' this e t n 0 i.
Proof. apply copy_memmove. Qed.

Lemma copy_moves_witness :
  exists m', copy true {[ 0%nat := [1; 2; 3; 4] ]} (View 0 0 0 4) (View 0 0 0 4) 1 0 (Some 3) = Ok (m', 3) /\
    moved {[ 0%nat := [1; 2; 3; 4] ]} m' (View 0 0 0 4) (View 0 0 0 4) 1 0 0 3.
Proof.
  assert (wf_view {[ 0%nat := [1; 2; 3; 4] ]} (View 0 0 0 4)) as Hv
    by (exists [1; 2; 3; 4]; split; [reflexivity|concrete]).
  apply (copy_moves true {[ 0%nat := [1; 2; 3; 4] ]} (View 0 0 0 4) (View 0 0 0 4) 1 0 3);
    [|exact Hv|exact Hv|done|concrete..|].
  - intros b l Hl. apply lookup_singleton_Some in Hl as [_ <-]. repeat constructor; concrete.
  - right. left. reflexivity.
Defined.

(** Two overlapping slices of one buffer are different objects, so [copy] runs
    the ascending loop and overwrites bytes it has still to read: copying
    [1,2,3,4] two places up gives [1,2,1,2,1,2], not [1,2,1,2,3,4]. *)
Theorem copy_overlap_bug :
  let m : mem := {[ 0%nat := [1; 2; 3; 4; 5; 6] ]} in
  let parent := View 1 0 0 6 in
  exists h1 src h2 dst m',
    slice true (Heap m 2) parent 0 (Some 4) = Ok (h1, src) /\
    slice true h1 parent 2 None = Ok (h2, dst) /\
    copy true (hmem h2) src dst 0 0 None = Ok (m', 4) /\
    contents m' parent = [1; 2; 1; 2; 1; 2] /\
    ~ moved (hmem h2) m' src dst 0 0 0 4.
Proof.
  do 5 eexists. split_and!; [vm_compute; reflexivity..|].
  intros Hmv. specialize (Hmv 0%nat 4). vm_compute in Hmv. discriminate.
Qed.

(** ** concat *)

(** The bytes of an ArrayBuffer; an unknown one has none. *)
Definition bytes_of (m : mem) (b : nat) : list Z := default [] (m !! b).

Lemma peek_bytes_of m b p : peek m b p = zget (bytes_of m b) p.
Proof. unfold peek, bytes_of. destruct (m !! b); simpl; [done|]. unfold zget. by destruct (p <? 0). Qed.

Lemma contents_bytes_of m v : contents m v = zsub (bytes_of m (vbuf v)) (voff v) (voff v + vlen v).
Proof.
  unfold contents, bytes_of. destruct (m !! vbuf v); [done|]. simpl. unfold zsub.
  by rewrite drop_nil, take_nil.
Qed.

Lemma zlen_contents m v : wf_view m v -> zlen (contents m v) = vlen v.
Proof.
  intros (l & Hl & ?). unfold contents. rewrite Hl. unfold zsub, zlen in *.
  rewrite length_take, length_drop. lia.
Qed.

Lemma flat_contents_agree m m' e :
  Forall (fun v => bytes_of m' (vbuf v) = bytes_of m (vbuf v)) e ->
  flat_map (contents m') e = flat_map (contents m) e.
Proof.
  induction 1 as [|v e Hv _ IH]; simpl; [done|]. by rewrite IH, !contents_bytes_of, Hv.
Qed.

(** Every view refers to an allocated ArrayBuffer below the allocation mark. *)
Definition wf_heap (h : heap) : Prop :=
  wf_mem (hmem h) /\ forall b, (hnext h <= b)%nat -> hmem h !! b = None.

Definition old_view (h : heap) (v : view) : Prop := wf_view (hmem h) v /\ (vid v < hnext h)%nat.

(** One step of the loop: the whole of [a] lands at [zlen pre] in a fresh buffer. *)
Lemma copy_append tas m a r pre mid post :
  wf_mem m -> wf_view m a -> vbuf a <> vbuf r -> vid a <> vid r -> voff r = 0 ->
  m !! vbuf r = Some (pre ++ mid ++ post) -> zlen (pre ++ mid ++ post) = vlen r ->
  vlen a = zlen mid ->
  exists m', copy tas m a r (zlen pre) 0 None = Ok (m', vlen a) /\
    bytes_of m' (vbuf r) = pre ++ contents m a ++ post /\
    forall b, b <> vbuf r -> bytes_of m' b = bytes_of m b.
Proof.
  intros Hm Ha Hb Hid Hoff Hr Hlen Hmid. pose proof (zlen_contents m a Ha) as Hc.
  pose proof (zlen_nonneg pre). pose proof (zlen_nonneg mid). pose proof (zlen_nonneg post).
  pose proof Hlen as Hlen'. rewrite !zlen_app in Hlen'.
  assert (wf_view m r) as Hwr by (eexists; split; [apply Hr|]; lia).
  destruct (copy_memmove tas m a r (zlen pre) 0 (vlen a)) as (m' & Hcopy & Hmv); try done; try lia.
  rewrite Z.min_l, Z.sub_0_r in * by lia. exists m'. split; [apply Hcopy|].
  split.
  - apply list_ext_zget. intros p. rewrite (zget_replace pre mid) by lia.
    rewrite <- peek_bytes_of, (Hmv (vbuf r) p), Hoff, Hmid. simpl Z.add.
    destruct (Z.leb_spec (zlen pre) p), (Z.ltb_spec p (zlen pre + zlen mid)); simpl.
    + rewrite decide_True by (split; [done|lia]). destruct Ha as (l & Hl & Ha).
      unfold contents, peek. rewrite Hl, zget_zsub by lia. f_equal. lia.
    + rewrite decide_False by (intros [? ?]; lia). unfold peek. by rewrite Hr.
    + rewrite decide_False by (intros [? ?]; lia). unfold peek. by rewrite Hr.
    + lia.
  - intros b Hne. apply list_ext_zget. intros p. rewrite <- !peek_bytes_of, (Hmv b p).
    by rewrite decide_False by tauto.
Qed.

Definition total_length (e : list view) : Z := fold_left (fun t v => t + vlen v) e 0.

Lemma fold_lengths e t : fold_left (fun t v => t + vlen v) e t = t + total_length e.
Proof.
  unfold total_length. revert t. induction e as [|v e IH]; intros t; simpl; [lia|].
  rewrite (IH (t + vlen v)). change (fold_left _ e (vlen v)) with
    (fold_left (fun t v => t + vlen v) e (0 + vlen v)). rewrite (IH (0 + vlen v)). lia.
Qed.

Lemma total_length_cons v e : total_length (v :: e) = vlen v + total_length e.
Proof. unfold total_length at 1. simpl. by rewrite fold_lengths. Qed.

Lemma total_length_nonneg m e : Forall (wf_view m) e -> 0 <= total_length e.
Proof.
  induction 1 as [|v e (l & _ & Hv) _ IH]; [done|]. rewrite total_length_cons. lia.
Qed.

Definition zeros (n : Z) : list Z := replicate (Z.to_nat n) 0.

Lemma zlen_zeros n : 0 <= n -> zlen (zeros n) = n.
Proof. intros. unfold zlen, zeros. rewrite length_replicate. lia. Qed.

Lemma zeros_add a b : 0 <= a -> 0 <= b -> zeros (a + b) = zeros a ++ zeros b.
Proof. intros. unfold zeros. rewrite Z2Nat.inj_add by done. apply replicate_add. Qed.

(** Stores keep the ArrayBuffers allocated and full of bytes. *)
Definition keeps (m m' : mem) : Prop :=
  (wf_mem m -> wf_mem m') /\ forall b, is_Some (m !! b) -> is_Some (m' !! b).

Lemma keeps_refl m : keeps m m.
Proof. by split. Qed.

Lemma keeps_vset m m' v i x : keeps m m' -> keeps m (vset m' v i x).
Proof.
  intros [Hw Hs]. unfold vset. destruct (_ && _); [|done]. unfold poke. split.
  - intros Hm b l. rewrite lookup_alter_Some. intros [(<- & k & Hk & ->)|[_ Hl]]; [|by apply (Hw Hm b)].
    apply Forall_zset; [by apply (Hw Hm (vbuf v))|]. apply to_uint8_byte.
  - intros b Hb. apply lookup_alter_is_Some. by apply Hs.
Qed.

Lemma keeps_loop m n (body : Z -> mem -> mem) :
  (forall i m', keeps m m' -> keeps m (body i m')) -> keeps m (forZ 0 n 1 body m).
Proof.
  intros Hb. destruct (Z.le_gt_cases 0 n); [|rewrite forZ_done by lia; apply keeps_refl].
  apply (forZ_inv1 (fun _ m' => keeps m m')); [done|apply keeps_refl|auto].
Qed.

Lemma copy_keeps tas m this e t n r m' k : copy tas m this e t n r = Ok (m', k) -> keeps m m'.
Proof.
  unfold copy. intros H. repeat case_match; simplify_eq; try apply keeps_refl.
  all: apply keeps_loop; intros; by apply keeps_vset.
Qed.

(** The views of an allocated part of the memory see the same bytes in a memory
    that agrees on it. *)
Lemma wf_view_agree m m' v :
  bytes_of m' (vbuf v) = bytes_of m (vbuf v) -> is_Some (m' !! vbuf v) -> wf_view m v -> wf_view m' v.
Proof.
  unfold bytes_of. intros Hb [l' Hl'] (l & Hl & Hv). rewrite Hl, Hl' in Hb. simpl in Hb. subst l'.
  by exists l.
Qed.

Lemma concat_loop tas r e m pre :
  wf_mem m -> voff r = 0 ->
  Forall (fun v => wf_view m v /\ vbuf v <> vbuf r /\ vid v <> vid r) e ->
  m !! vbuf r = Some (pre ++ zeros (total_length e)) -> vlen r = zlen pre + total_length e ->
  exists m' o, fold_left
      (fun acc a => let! (m, o) := acc in
         let! (m, _) := copy tas m a r o 0 None in Ok (m, o + vlen a))
      e (Ok (m, zlen pre)) = Ok (m', o) /\
    bytes_of m' (vbuf r) = pre ++ flat_map (contents m) e /\
    forall b, b <> vbuf r -> bytes_of m' b = bytes_of m b.
Proof.
  intros Hm Hoff. revert m pre Hm. induction e as [|a e IH]; intros m pre Hm He Hr Hlen.
  { do 2 eexists. split; [reflexivity|]. unfold bytes_of at 1. by rewrite Hr. }
  apply Forall_cons_iff in He as [(Ha & Hab & Hai) He].
  pose proof (total_length_nonneg m e) as Htl.
  assert (0 <= total_length e) as Htot by (apply Htl; eapply Forall_impl; [apply He|]; by intros ? [? _]).
  assert (0 <= vlen a) as Hva by (destruct Ha as (? & _ & ?); lia).
  rewrite total_length_cons in Hr, Hlen. rewrite zeros_add in Hr by done.
  destruct (copy_append tas m a r pre (zeros (vlen a)) (zeros (total_length e)))
    as (m1 & Hc & Hb & Ho); try done; rewrite ?zlen_app, ?zlen_zeros; try done; try lia.
  pose proof (copy_keeps _ _ _ _ _ _ _ _ _ Hc) as [Hw Hs].
  assert (flat_map (contents m1) e = flat_map (contents m) e) as Hsame.
  { apply flat_contents_agree. eapply Forall_impl; [apply He|]. intros v (_ & Hv & _). by apply Ho. }
  simpl. rewrite Hc. cbn [res_bind]. destruct (IH m1 (pre ++ contents m a)) as (m' & o & Hf & Hb' & Ho').
  - by apply Hw.
  - eapply Forall_impl; [apply He|]. intros v (Hv & Hvb & Hvi). split_and!; try done.
    apply (wf_view_agree m); [by apply Ho| |done]. apply Hs. destruct Hv as (l & Hl & _). by exists l.
  - unfold bytes_of in Hb. destruct (Hs (vbuf r)) as [l Hl]; [by eexists|]. rewrite Hl in *.
    simpl in Hb. by rewrite <- app_assoc, Hb.
  - rewrite zlen_app, (zlen_contents m a) by done. lia.
  - rewrite zlen_app, (zlen_contents m a) in Hf by done. exists m', o. split; [done|].
    split; [by rewrite Hb', Hsame, <- app_assoc|]. intros b Hne. by rewrite Ho', Ho.
Qed.

Lemma allocUnsafe_ok tas h t :
  0 <= t < kMaxLength tas ->
  allocUnsafe tas h t =
  Ok (Heap (<[hnext h := zeros t]> (hmem h)) (S (hnext h)), View (hnext h) (hnext h) 0 t).
Proof.
  intros Ht. unfold allocUnsafe, assertSize, checked. destruct (Z.ltb_spec t 0); [lia|].
  destruct (Z.leb_spec (kMaxLength tas) t); [lia|]. cbn [res_bind].
  rewrite to_int32_small by (unfold pow31; destruct tas; simpl in Ht; lia).
  unfold createBuffer. destruct (Z.ltb_spec (kMaxLength tas) t), (Z.ltb_spec t 0); done || lia.
Qed.

Lemma wf_mem_insert_zeros m b n : wf_mem m -> wf_mem (<[b := zeros n]> m).
Proof.
  intros Hm k l Hl. apply lookup_insert_Some in Hl as [[_ <-]|[_ Hl]]; [|by apply (Hm k)].
  apply Forall_replicate. unfold byte_ok. lia.
Qed.

Lemma old_view_fresh h v l :
  wf_heap h -> old_view h v ->
  wf_view (<[hnext h := l]> (hmem h)) v /\ vbuf v <> hnext h /\ vid v <> hnext h.
Proof.
  intros [_ Hf] [(k & Hk & Hv) Hid].
  assert (vbuf v <> hnext h) by (intros E; rewrite E, Hf in Hk; [done|lia]).
  split_and!; [|done|lia]. exists k. by rewrite lookup_insert_ne by done.
Qed.

Lemma zlen_flat_contents m e : Forall (wf_view m) e -> zlen (flat_map (contents m) e) = total_length e.
Proof.
  induction 1 as [|v e Hv _ IH]; [done|]. simpl. by rewrite zlen_app, zlen_contents, IH, total_length_cons.
Qed.

(** [Buffer.concat] allocates a buffer that holds the bytes of the buffers of the
    list one after the other, and stores to no other buffer. *)
Theorem concat_spec tas h e :
  wf_heap h -> Forall (old_view h) e -> total_length e < kMaxLength tas ->
  exists h' r, concat tas h e None = Ok (h', r) /\
    contents (hmem h') r = flat_map (contents (hmem h)) e /\
    forall b, (b < hnext h)%nat -> bytes_of (hmem h') b = bytes_of (hmem h) b.
Proof.
  intros [Hm Hfresh] He Hmax.
  assert (Forall (wf_view (hmem h)) e) as Hwf by (eapply Forall_impl; [apply He|]; by intros ? []).
  pose proof (total_length_nonneg _ _ Hwf) as Htot.
  destruct (decide (e = [])) as [->|Hne].
  { simpl. unfold createBuffer. destruct tas; simpl; do 2 eexists; (split; [reflexivity|]); simpl;
      (split; [unfold contents; simpl; by rewrite lookup_insert_eq|]);
      intros b Hb; unfold bytes_of; by rewrite lookup_insert_ne by lia. }
  pose proof (allocUnsafe_ok tas h (total_length e)) as Halloc.
  set (r := View (hnext h) (hnext h) 0 (total_length e)) in *.
  set (m := <[hnext h := zeros (total_length e)]> (hmem h)) in *.
  assert (Forall (fun v => wf_view m v /\ vbuf v <> hnext h /\ vid v <> hnext h) e) as Hold
    by (eapply Forall_impl; [apply He|]; intros; by apply old_view_fresh).
  assert (flat_map (contents m) e = flat_map (contents (hmem h)) e) as Hsame.
  { apply flat_contents_agree. eapply Forall_impl; [apply Hold|]. intros v (_ & Hv & _).
    unfold bytes_of, m. by rewrite lookup_insert_ne. }
  destruct (concat_loop tas r e m []) as (m' & o & Hf & Hb & Ho).
  - by apply wf_mem_insert_zeros.
  - done.
  - done.
  - unfold m. by rewrite lookup_insert_eq.
  - done.
  - exists (Heap m' (S (hnext h))), r. destruct e as [|v e]; [done|].
    unfold concat. fold (total_length (v :: e)). rewrite Halloc by lia. cbn [res_bind hmem hnext].
    change (zlen []) with 0 in Hf. rewrite Hf. cbn [res_bind]. split; [done|]. simpl hmem. split.
    + rewrite contents_bytes_of, Hb, app_nil_l. simpl vlen. simpl voff.
      rewrite <- (zlen_flat_contents (hmem h)) by done. rewrite Z.add_0_l, Hsame, zsub_all. done.
    + intros b Hlt. rewrite Ho by (simpl; lia). unfold bytes_of, m. by rewrite lookup_insert_ne by lia.
Qed.

Lemma concat_spec_witness :
  exists h' r, concat true (Heap {[ 0%nat := [1; 2; 3; 4] ]} 2) [View 0 0 0 2; View 1 0 1 3] None = Ok (h', r) /\
    contents (hmem h') r = [1; 2; 2; 3; 4] /\ bytes_of (hmem h') 0 = [1; 2; 3; 4].
Proof.
  destruct (concat_spec true (Heap {[ 0%nat := [1; 2; 3; 4] ]} 2) [View 0 0 0 2; View 1 0 1 3])
    as (h' & r & Hc & Hr & Hb).
  - split; simpl.
    + intros b l Hl. apply lookup_singleton_Some in Hl as [_ <-]. repeat constructor; concrete.
    + intros b Hb. apply lookup_singleton_ne. lia.
  - repeat constructor; try (simpl; lia); exists [1; 2; 3; 4]; (split; [reflexivity|concrete]).
  - concrete.
  - exists h', r. split; [exact Hc|]. split; [exact Hr|]. rewrite Hb by (simpl; lia). reflexivity.
Defined.

(** ** compare *)

Lemma first_diff_swap l k n r :
  first_diff k l r n = ((first_diff l k n r).2, (first_diff l k n r).1).
Proof.
  revert k. induction l as [|x l IH]; intros [|y k]; simpl; try done.
  rewrite Z.eqb_sym. destruct (Z.eqb_spec y x) as [->|]; [by rewrite Z.eqb_refl|].
  destruct (Z.eqb_spec x y); [congruence|done].
Qed.

(** The lexicographic order of byte lists, a prefix before its extensions. *)
Inductive lex_lt : list Z -> list Z -> Prop :=
| lex_nil y k : lex_lt [] (y :: k)
| lex_head x y l k : x < y -> lex_lt (x :: l) (y :: k)
| lex_tail x l k : lex_lt l k -> lex_lt (x :: l) (x :: k).

Lemma order_cases p : order p = -1 /\ p.1 < p.2 \/ order p = 1 /\ p.2 < p.1 \/ order p = 0 /\ p.1 = p.2.
Proof.
  destruct p as [n r]. unfold order. simpl.
  destruct (Z.ltb_spec n r); [lia|]. destruct (Z.ltb_spec r n); lia.
Qed.

Lemma first_diff_lex l k n r :
  n - zlen l = r - zlen k ->
  ((first_diff l k n r).1 < (first_diff l k n r).2 <-> lex_lt l k) /\
  ((first_diff l k n r).1 = (first_diff l k n r).2 <-> l = k).
Proof.
  revert k. induction l as [|x l IH]; intros [|y k] H; unfold zlen in H; simpl in H |- *.
  - split; split; try done; [lia|by inversion 1|lia].
  - split; split; try done; [by constructor|lia|lia].
  - split; split; try done; [lia|by inversion 1|lia].
  - destruct (Z.eqb_spec x y) as [->|Hxy].
    + destruct (IH k) as [IH1 IH2]; [unfold zlen; lia|].
      rewrite IH1, IH2. split; split.
      * by constructor.
      * inversion 1; [lia|done].
      * by intros ->.
      * by injection 1.
    + simpl. split; split; [by constructor|inversion 1; [done|congruence]|congruence|congruence].
Qed.

(** [Buffer.compare] is -1, 0 or 1 as its first argument is before, equal to
    or after the second in the lexicographic order. *)
Theorem compare_lex l k :
  (compare l k = -1 <-> lex_lt l k) /\ (compare l k = 0 <-> l = k) /\
  (compare l k = 1 <-> lex_lt k l) /\ compare k l = - compare l k.
Proof.
  destruct (first_diff_lex l k (zlen l) (zlen k)) as [Hlt Heq]; [lia|].
  destruct (first_diff_lex k l (zlen k) (zlen l)) as [Hgt _]; [lia|].
  unfold compare. rewrite (first_diff_swap l k) in Hgt |- *. simpl in Hgt.
  destruct (first_diff l k (zlen l) (zlen k)) as [n r]. simpl in *.
  rewrite <- Hlt, <- Heq, <- Hgt. unfold order.
  destruct (Z.ltb_spec n r), (Z.ltb_spec r n); repeat split; lia.
Qed.

(** [equals] holds exactly of buffers with the same bytes (an object being
    equal to itself is no exception: it has the same bytes). *)
Theorem equals_iff m this e :
  (vid this = vid e -> this = e) ->
  equals m this e = true <-> contents m this = contents m e.
Proof.
  intros Hid. unfold equals.
  destruct (first_diff_lex (contents m this) (contents m e) (zlen (contents m this))
    (zlen (contents m e))) as [_ Heq]; [lia|].
  rewrite orb_true_iff, Nat.eqb_eq, Z.eqb_eq. unfold compare.
  destruct (order_cases (first_diff (contents m this) (contents m e) (zlen (contents m this))
    (zlen (contents m e)))) as [[-> ?]|[[-> ?]|[-> ?]]]; rewrite <- Heq;
    (split; [intros [H1|H1]; [|lia]|intros ?; lia || by right]);
    specialize (Hid H1); rewrite Hid in *; tauto.
Qed.

Lemma equals_iff_witness : equals {[ 0%nat := [1; 2; 1; 2] ]} (View 0 0 0 2) (View 1 0 2 2) = true.
Proof.
  apply (equals_iff {[ 0%nat := [1; 2; 1; 2] ]} (View 0 0 0 2) (View 1 0 2 2)); [discriminate|].
  reflexivity.
Defined.

(** Comparing two ranges of one buffer object answers 0 without looking at
    the bytes. *)
Theorem compare_same_object_ranges :
  compare_range true [1; 2] [1; 2] (Some 0) (Some 1) (Some 1) (Some 2) = Ok 0 /\
  compare_range false [1; 2] [1; 2] (Some 0) (Some 1) (Some 1) (Some 2) = Ok 1.
Proof. split; vm_compute; reflexivity. Qed.

(** ** indexOf *)

(** [t] occurs in [e] at [i]. *)
Definition occurs (e t : list Z) (i : Z) : Prop :=
  0 <= i /\ i + zlen t <= zlen e /\ forall p, 0 <= p < zlen t -> zget e (i + p) = zget t p.

(** The state of the forward search between two steps. *)
Definition fwd_inv (e t : list Z) (n i c : Z) : Prop :=
  n <= i /\
  (c = -1 -> forall j, n <= j < i -> ~ occurs e t j) /\
  (c <> -1 -> n <= c < i /\ i - c < zlen t /\
     (forall p, 0 <= p < i - c -> zget e (c + p) = zget t p) /\
     (forall j, n <= j < c -> ~ occurs e t j)).

(** Steps left at most: every attempt that starts later costs [zlen t + 1]. *)
Definition fwd_measure (e t : list Z) (i c : Z) : Z :=
  let s := if c =? -1 then i else c in (zlen e - s) * (zlen t + 1) - (i - s).

(** The answer of a forward search from [n]. *)
Definition first_occurrence (e t : list Z) (n r : Z) : Prop :=
  (r = -1 /\ forall j, n <= j -> ~ occurs e t j) \/
  (n <= r /\ occurs e t r /\ forall j, n <= j < r -> ~ occurs e t j).

Lemma fwd_end e t n i c :
  0 <= n -> 1 <= zlen t -> fwd_inv e t n i c -> zlen e <= i -> first_occurrence e t n (-1).
Proof.
  intros Hn Ht (Hi & H1 & H2) He. left. split; [done|]. intros j Hj Ho.
  destruct (decide (c = -1)) as [Hc|Hc].
  - apply (H1 Hc j); [|done]. destruct Ho as (? & ? & ?). lia.
  - destruct (H2 Hc) as (? & ? & ? & H3). destruct (decide (j < c)); [by apply (H3 j)|].
    destruct Ho as (? & ? & ?). lia.
Qed.

Lemma search_fwd_correct fuel e t n i c :
  0 <= n -> 1 <= zlen t -> fwd_inv e t n i c ->
  (i < zlen e -> fwd_measure e t i c < Z.of_nat fuel) -> (0 < fuel)%nat ->
  first_occurrence e t n (search_fwd fuel e t i c).
Proof.
  intros Hn Ht. revert i c. induction fuel as [|fuel IH]; intros i c Hinv Hf Hpos; [lia|]. simpl.
  destruct (Z.ltb_spec i (zlen e)) as [Hi|]; [|by eapply fwd_end].
  specialize (Hf Hi). pose proof Hinv as (Hni & H1 & H2). unfold fwd_measure in *.
  case_bool_decide as Heq.
  - set (c' := if c =? -1 then i else c).
    assert (Hc' : n <= c' <= i /\ i - c' < zlen t /\ (if c =? -1 then 0 else i - c) = i - c' /\
      (forall p, 0 <= p < i - c' -> zget e (c' + p) = zget t p) /\
      (forall j, n <= j < c' -> ~ occurs e t j)).
    { unfold c'. destruct (Z.eqb_spec c (-1)) as [->|Hc]; [|destruct (H2 Hc) as (? & ? & ? & ?); split_and!; done || lia].
      split_and!; [lia..|intros; lia|by apply H1]. }
    destruct Hc' as (Hr & Hlt & Hk & Hpre & Hno). rewrite Hk in Heq.
    assert (Hpre' : forall p, 0 <= p < i + 1 - c' -> zget e (c' + p) = zget t p).
    { intros p Hp. destruct (decide (p = i - c')) as [->|]; [|apply Hpre; lia].
      by replace (c' + (i - c')) with i by lia. }
    destruct (Z.eqb_spec (i - c' + 1) (zlen t)) as [Hdone|Hmore].
    + right. split_and!; [lia| |done]. split_and!; [lia|lia|]. intros p Hp. apply Hpre'. lia.
    + apply IH.
      * split_and!; [lia|lia|]. intros _. split_and!; [lia|lia|lia|done|done].
      * intros Hi'. destruct (Z.eqb_spec c' (-1)); [lia|].
        unfold c' in *. destruct (Z.eqb_spec c (-1)); lia.
      * destruct fuel; [|lia]. exfalso. destruct (Z.eqb_spec c (-1)); nia.
  - set (s := if c =? -1 then i else c).
    replace (if c =? -1 then i else i - (i - c)) with s by (unfold s; destruct (c =? -1); lia).
    assert (Hs : n <= s <= i /\ i - s < zlen t /\ ~ occurs e t s /\ forall j, n <= j < s -> ~ occurs e t j).
    { unfold s. destruct (Z.eqb_spec c (-1)) as [->|Hc].
      - split_and!; [lia..| |by apply H1]. intros (? & ? & Ho). apply Heq.
        specialize (Ho 0). rewrite Z.add_0_r in Ho. apply Ho. lia.
      - destruct (H2 Hc) as (? & ? & ? & ?). split_and!; [lia..| |done].
        intros (? & ? & Ho). apply Heq. specialize (Ho (i - c)).
        replace (c + (i - c)) with i in Ho by lia. apply Ho. lia. }
    destruct Hs as (Hr & Hlt & Hnos & Hno).
    apply IH.
    + split_and!; [lia| |lia]. intros _ j Hj. destruct (decide (j = s)) as [->|]; [done|apply Hno; lia].
    + intros Hi'. fold s in Hf. simpl. nia.
    + destruct fuel; [|lia]. exfalso. fold s in Hf. nia.
Qed.

Lemma bidirectional_inside e t n dir :
  1 <= zlen t -> 0 <= n < zlen e -> n <= 2147483647 ->
  bidirectionalIndexOf e t (Num n) dir = arrayIndexOf e t n dir.
Proof.
  intros Ht Hn Hmax. unfold bidirectionalIndexOf. cbv zeta.
  destruct (Z.eqb_spec (zlen e) 0); [lia|]. destruct (Z.ltb_spec 2147483647 n); [lia|].
  destruct (Z.ltb_spec n (-2147483648)); [lia|]. destruct (Z.ltb_spec n 0); [lia|].
  destruct (Z.leb_spec (zlen e) n); [lia|]. destruct (Z.ltb_spec n 0); [lia|].
  by destruct (Z.eqb_spec (zlen t) 0); [lia|].
Qed.

(** For a non-empty needle, [indexOf] from an offset inside the buffer returns
    the first position at or after it where the needle occurs, and -1 if there is
    none; in particular the search, which goes back on a mismatch, terminates. *)
Theorem indexOf_first e t n :
  1 <= zlen t -> 0 <= n < zlen e -> n <= 2147483647 ->
  first_occurrence e t n (bidirectionalIndexOf e t (Num n) true).
Proof.
  intros Ht Hn Hmax. rewrite bidirectional_inside by done.
  unfold arrayIndexOf, search_fuel.
  apply search_fwd_correct; [lia|done| | |lia].
  - split_and!; [lia|intros; lia|done].
  - intros _. unfold fwd_measure. simpl (_ =? _). cbv iota zeta. nia.
Qed.

Lemma indexOf_first_witness :
  first_occurrence [1; 1; 2; 1; 1; 2] [1; 2] 2 (bidirectionalIndexOf [1; 1; 2; 1; 1; 2] [1; 2] (Num 2) true).
Proof. apply indexOf_first; concrete. Defined.

Lemma match_at_spec e t i : match_at e t i = true <-> forall p, 0 <= p < zlen t -> zget e (i + p) = zget t p.
Proof.
  unfold match_at. pose proof (zlen_nonneg t).
  apply (forZ_inv1 (fun j f => f = true <-> forall p, 0 <= p < j -> zget e (i + p) = zget t p));
    [lia| |].
  - split; [intros; lia|done].
  - intros j f Hj Hf. rewrite andb_true_iff, bool_decide_eq_true, Hf. split.
    + intros [Hp Hj'] p Hp'. destruct (decide (p = j)) as [->|]; [done|apply Hp; lia].
    + intros Hp. split; [intros; apply Hp; lia|apply Hp; lia].
Qed.

Lemma search_bwd_correct fuel e t i :
  i < Z.of_nat fuel -> (0 < fuel)%nat ->
  let r := search_bwd fuel e t i in
  (r = -1 /\ forall j, 0 <= j <= i -> match_at e t j = false) \/
  (0 <= r <= i /\ match_at e t r = true /\ forall j, r < j <= i -> match_at e t j = false).
Proof.
  revert i. induction fuel as [|fuel IH]; intros i Hi Hpos; [lia|]. simpl.
  destruct (Z.leb_spec 0 i); [|left; split; [done|lia]].
  destruct (match_at e t i) eqn:E.
  - right. split_and!; [lia|lia|done|lia].
  - destruct fuel as [|fuel]; [left; split; [done|]; intros j Hj; assert (j = i) as -> by lia; done|].
    destruct (IH (i - 1)) as [[-> Hno]|(Hr & Hm & Hno)]; [lia|lia| |].
    + left. split; [done|]. intros j Hj. destruct (decide (j = i)) as [->|]; [done|apply Hno; lia].
    + right. split_and!; [lia|lia|done|]. intros j Hj.
      destruct (decide (j = i)) as [->|]; [done|apply Hno; lia].
Qed.

(** For a non-empty needle, [lastIndexOf] from an offset inside the buffer
    returns the last position at or before it where the needle occurs, and -1 if
    there is none. *)
Theorem lastIndexOf_last e t n :
  1 <= zlen t -> 0 <= n < zlen e -> n <= 2147483647 ->
  let r := bidirectionalIndexOf e t (Num n) false in
  (r = -1 /\ forall j, j <= n -> ~ occurs e t j) \/
  (r <= n /\ occurs e t r /\ forall j, r < j <= n -> ~ occurs e t j).
Proof.
  intros Ht Hn Hmax. rewrite bidirectional_inside by done.
  unfold arrayIndexOf. set (n' := if zlen e <? n + zlen t then zlen e - zlen t else n).
  assert (Hn' : n' <= n /\ n' + zlen t <= zlen e /\ forall j, n' < j <= n -> ~ occurs e t j).
  { unfold n'. destruct (Z.ltb_spec (zlen e) (n + zlen t)); split_and!; try lia.
    intros j Hj (? & ? & _). lia. }
  destruct Hn' as (? & ? & Hcut).
  assert (Hocc : forall j, 0 <= j <= n' -> match_at e t j = false -> ~ occurs e t j).
  { intros j Hj Hf (_ & _ & Ho). by apply match_at_spec in Ho as Ho'; rewrite Ho' in Hf. }
  destruct (search_bwd_correct (S (Z.to_nat (n' + 1))) e t n') as [[-> Hno]|(Hr & Hm & Hno)];
    [lia|lia| |].
  - left. split; [done|]. intros j Hj. destruct (decide (n' < j)); [apply Hcut; lia|].
    destruct (decide (0 <= j)); [apply Hocc; [lia|apply Hno; lia]|intros (? & _); lia].
  - right. split_and!; [lia| |].
    + split_and!; [lia|lia|]. by apply match_at_spec.
    + intros j Hj. destruct (decide (n' < j)); [apply Hcut; lia|apply Hocc; [lia|apply Hno; lia]].
Qed.

Lemma lastIndexOf_last_witness :
  (4 = -1 /\ forall j, j <= 5 -> ~ occurs [1; 1; 2; 1; 1; 2] [1; 2] j) \/
  (4 <= 5 /\ occurs [1; 1; 2; 1; 1; 2] [1; 2] 4 /\ forall j, 4 < j <= 5 -> ~ occurs [1; 1; 2; 1; 1; 2] [1; 2] j).
Proof. apply (lastIndexOf_last [1; 1; 2; 1; 1; 2] [1; 2] 5); concrete. Defined.

(** In UTF-16 mode the search of a buffer of odd length reads past its end and
    throws where the needle is absent, and [lastIndexOf] answers in units of two
    bytes where [indexOf] answers in bytes. *)
Theorem utf16_search_bugs :
  search_fwd16 100 [97; 0; 98] [120; 0] 0 (-1)
    = Throw (RangeError "Trying to access beyond buffer length") /\
  search_fwd16 100 [97; 0; 120; 0] [120; 0] 0 (-1) = Ok 2 /\
  search_bwd16 100 [97; 0; 120; 0] [120; 0] 1 = Ok 1.
Proof. repeat split; vm_compute; reflexivity. Qed.

(** ** swap *)

(** The list with each of its first [q] groups of [k] reversed. *)
Fixpoint rev_groups (k q : nat) (l : list Z) : list Z :=
  match q with
  | O => l
  | S q' => reverse (take k l) ++ rev_groups k q' (drop k l)
  end.

Lemma length_rev_groups k q l : length (rev_groups k q l) = length l.
Proof.
  revert l. induction q as [|q IH]; intros l; simpl; [done|].
  rewrite length_app, length_reverse, IH, <- length_app. by rewrite take_drop.
Qed.

Lemma rev_groups_involutive k q l :
  (k * q <= length l)%nat -> rev_groups k q (rev_groups k q l) = l.
Proof.
  revert l. induction q as [|q IH]; intros l Hl; simpl; [done|].
  assert (length (reverse (take k l)) = k) as Hk by (rewrite length_reverse, length_take; lia).
  rewrite take_app_length', drop_app_length' by done.
  rewrite reverse_involutive, IH by (rewrite length_drop; lia). by rewrite take_drop.
Qed.

Lemma swap_loop (k q : nat) (body : Z -> list Z -> list Z) pre l :
  (0 < k)%nat ->
  (forall pre c post, length c = k -> body (zlen pre) (pre ++ c ++ post) = pre ++ reverse c ++ post) ->
  length l = (k * q)%nat ->
  forZ (zlen pre) (zlen pre + zlen l) (Z.of_nat k) body (pre ++ l) = pre ++ rev_groups k q l.
Proof.
  intros Hk Hbody. revert pre l. induction q as [|q IH]; intros pre l Hl.
  - rewrite forZ_done by (unfold zlen; lia). done.
  - rewrite forZ_step by (unfold zlen; lia).
    rewrite <- (take_drop k l) at 2. rewrite Hbody by (rewrite length_take; lia).
    rewrite app_assoc.
    assert (Hz : zlen (pre ++ reverse (take k l)) = zlen pre + Z.of_nat k)
      by (rewrite zlen_app, zlen_reverse; unfold zlen; rewrite length_take; lia).
    rewrite <- Hz. replace (zlen pre + zlen l) with (zlen (pre ++ reverse (take k l)) + zlen (drop k l))
      by (rewrite Hz; unfold zlen; rewrite length_drop; lia).
    rewrite IH by (rewrite length_drop; lia). simpl. by rewrite app_assoc.
Qed.

Lemma swap_at pre l i j x y :
  0 <= i -> 0 <= j -> zget l i = Some x -> zget l j = Some y ->
  swap (pre ++ l) (zlen pre + i) (zlen pre + j) = pre ++ zset (zset l i y) j x.
Proof.
  intros Hi Hj Hx Hy. unfold swap. rewrite !zget_app_at, Hx, Hy by done. simpl.
  by rewrite !zset_app_at by done.
Qed.

Lemma swap_group16 pre c post :
  length c = 2%nat -> swap (pre ++ c ++ post) (zlen pre) (zlen pre + 1) = pre ++ reverse c ++ post.
Proof.
  intros Hc. destruct c as [|a [|b [|? ?]]]; try done.
  rewrite <- (Z.add_0_r (zlen pre)) at 1. by rewrite (swap_at pre _ 0 1 a b) by (done || lia).
Qed.

Lemma swap_group32 pre c post :
  length c = 4%nat ->
  swap (swap (pre ++ c ++ post) (zlen pre) (zlen pre + 3)) (zlen pre + 1) (zlen pre + 2)
  = pre ++ reverse c ++ post.
Proof.
  intros Hc. destruct c as [|a [|b [|c [|d [|? ?]]]]]; try done.
  rewrite <- (Z.add_0_r (zlen pre)) at 1.
  rewrite (swap_at pre _ 0 3 a d) by (done || lia).
  by rewrite (swap_at pre _ 1 2 b c) by (done || lia).
Qed.

Lemma swap_group64 pre c post :
  length c = 8%nat ->
  swap (swap (swap (swap (pre ++ c ++ post) (zlen pre) (zlen pre + 7)) (zlen pre + 1) (zlen pre + 6))
    (zlen pre + 2) (zlen pre + 5)) (zlen pre + 3) (zlen pre + 4)
  = pre ++ reverse c ++ post.
Proof.
  intros Hc. destruct c as [|a [|b [|c [|d [|e [|f [|g [|h [|? ?]]]]]]]]]; try done.
  rewrite <- (Z.add_0_r (zlen pre)) at 1.
  rewrite (swap_at pre _ 0 7 a h) by (done || lia). rewrite (swap_at pre _ 1 6 b g) by (done || lia).
  rewrite (swap_at pre _ 2 5 c f) by (done || lia). by rewrite (swap_at pre _ 3 4 d e) by (done || lia).
Qed.

Definition swapN (k : nat) (this : list Z) : res (list Z) :=
  match k with
  | 2%nat => swap16 this
  | 4%nat => swap32 this
  | _ => swap64 this
  end.

Lemma swapN_groups k q this :
  k = 2%nat \/ k = 4%nat \/ k = 8%nat -> length this = (k * q)%nat ->
  swapN k this = Ok (rev_groups k q this).
Proof.
  intros Hk Hl.
  assert (forall body, (forall pre c post, length c = k ->
      body (zlen pre) (pre ++ c ++ post) = pre ++ reverse c ++ post) ->
    forZ 0 (zlen this) (Z.of_nat k) body this = rev_groups k q this) as Hloop.
  { intros body Hb. apply (swap_loop k q body [] this); [lia|done|done]. }
  assert (Hmod : zlen this mod Z.of_nat k = 0)
    by (unfold zlen; rewrite Hl, Nat2Z.inj_mul, Z.mul_comm; apply Z.mod_mul; lia).
  destruct Hk as [-> | [-> | ->]]; simpl swapN; unfold swap16, swap32, swap64;
    [change (Z.of_nat 2) with 2 in * | change (Z.of_nat 4) with 4 in * | change (Z.of_nat 8) with 8 in *];
    rewrite Hmod; simpl; f_equal; apply Hloop; intros.
  - by apply swap_group16.
  - by apply swap_group32.
  - by apply swap_group64.
Qed.

(** [swap16], [swap32] and [swap64] reverse every group of 2, 4 or 8 bytes, are
    their own inverses, and reject any other length. *)
Theorem swap_spec k this :
  k = 2%nat \/ k = 4%nat \/ k = 8%nat ->
  (zlen this mod Z.of_nat k = 0 ->
     exists b, swapN k this = Ok b /\ b = rev_groups k (length this / k) this /\ swapN k b = Ok this) /\
  (zlen this mod Z.of_nat k <> 0 -> exists msg, swapN k this = Throw (RangeError msg)).
Proof.
  intros Hk. split; intros Hm.
  - assert (Hl : length this = (k * (length this / k))%nat).
    { unfold zlen in Hm. rewrite <- Nat2Z.inj_mod in Hm.
      pose proof (Nat.div_mod_eq (length this) k). lia. }
    eexists. split; [by apply swapN_groups|]. split; [done|].
    rewrite (swapN_groups k (length this / k)) by (done || rewrite length_rev_groups; done).
    by rewrite rev_groups_involutive by lia.
  - apply Z.eqb_neq in Hm.
    destruct Hk as [-> | [-> | ->]]; simpl swapN; unfold swap16, swap32, swap64;
      [change 2 with (Z.of_nat 2) | change 4 with (Z.of_nat 4) | change 8 with (Z.of_nat 8)];
      rewrite Hm; by eexists.
Qed.

Lemma swap_spec_witness :
  exists b, swapN 4 [1; 2; 3; 4] = Ok b /\ b = rev_groups 4 1 [1; 2; 3; 4] /\ swapN 4 b = Ok [1; 2; 3; 4].
Proof. apply (swap_spec 4 [1; 2; 3; 4]); [right; left; reflexivity|reflexivity]. Defined.

(** ** fill *)

Lemma st_loop this t n (v : Z -> Z) :
  0 <= t <= n -> n <= zlen this ->
  forall i, zget (forZ t n 1 (fun i b => st b i (v i)) this) i =
    if decide (t <= i < n) then Some (to_uint8 (v i)) else zget this i.
Proof.
  intros Ht Hn.
  set (P := fun (j : Z) (b : list Z) => zlen b = zlen this /\ forall i, zget b i =
      if decide (t <= i < j) then Some (to_uint8 (v i)) else zget this i).
  enough (P n (forZ t n 1 (fun i b => st b i (v i)) this)) as HP by apply HP.
  apply forZ_inv1; [lia| |].
  - split; [done|]. intros i. rewrite decide_False by lia. done.
  - intros j b Hj [Hlen Hb]. unfold st. split; [by rewrite zlen_zset|]. intros i.
    destruct (decide (i = j)) as [->|].
    + rewrite zget_zset_eq by lia. by rewrite decide_True by lia.
    + rewrite zget_zset_ne, Hb by congruence. repeat case_decide; done || lia.
Qed.

(** [fill] writes the number, or the bytes of the value over and over, in the
    range and nowhere else. *)
Theorem fill_spec this v t n :
  0 <= t < n -> n <= zlen this -> zlen this < pow32 ->
  exists b, fill this v t (Some n) = Ok b /\
    forall i, zget b i =
      if decide (t <= i < n) then
        Some (match v with
              | FillNum z => z mod 256
              | FillBytes a => to_uint8 (if zlen a =? 0 then 0 else default 0 (zget a ((i - t) mod zlen a)))
              end)
      else zget this i.
Proof.
  intros Ht Hn Hl. unfold fill.
  destruct (Z.ltb_spec t 0); [lia|]. destruct (Z.ltb_spec (zlen this) t); [lia|].
  destruct (Z.ltb_spec (zlen this) n); [lia|]. destruct (Z.leb_spec n t); [lia|]. simpl orb. cbv iota.
  rewrite !to_uint32_small by lia. destruct v as [z|a].
  - eexists. split; [reflexivity|]. intros i. rewrite st_loop by lia.
    case_decide; [|done]. f_equal. change 255 with (2 ^ 8 - 1). rewrite js_and_ones by lia.
    unfold to_uint8. change (2 ^ 8) with 256. by rewrite Z.mod_mod by lia.
  - eexists. split; [reflexivity|]. intros i. rewrite (forZ_shift _ _ t).
    rewrite (forZ_ext _ _ _ (fun i b => st b i (if zlen a =? 0 then 0 else
      default 0 (zget a ((i - t) mod zlen a))))) by (intros; do 2 f_equal; lia).
    replace (n - t + t) with n by lia. rewrite st_loop by lia. done.
Qed.

Lemma fill_spec_witness :
  exists b, fill [9; 9; 9; 9] (FillBytes [1; 2]) 1 (Some 4) = Ok b /\ zget b 3 = Some 1.
Proof.
  destruct (fill_spec [9; 9; 9; 9] (FillBytes [1; 2]) 1 4) as (b & Hf & Hb); [concrete..|].
  exists b. split; [exact Hf|]. rewrite Hb. reflexivity.
Defined.

End BufferOps.
