(* ===== verification/Utf8.v ===== *)
(** * Buffer: UTF-8

    Models the UTF-8 encoder ([F], utf8ToBytes) and decoder ([C], utf8Slice) of
    module 54 of src/client/docs/swagger-ui/swagger-ui-bundle.js.  A string is its
    list of UTF-16 code units.  The specification is RFC 3629: [utf8_ref] are the
    bytes of a scalar value, [utf16_ref] its code units and [scalars] the scalar
    values of a string, a surrogate that is not part of a pair counting as
    U+FFFD. *)

From S2P Require Import Prelude.
From Stdlib Require Import String.
From stdpp Require Import base numbers list strings option.
Open Scope Z_scope.

Module Utf8.

(** ** The encoder *)

(** The number of bytes that may still be written; [None] is [1 / 0]. *)
Definition limit : Type := option Z.

Definition to_limit (t : option Z) : limit :=
  match t with
  | Some t => if t =? 0 then None else Some t
  | None => None
  end.

(** [t -= k]. *)
Definition spend (t : limit) (k : Z) : limit :=
  match t with Some t => Some (t - k) | None => None end.
Definition exhausted (t : limit) : bool :=
  match t with Some t => t <? 0 | None => false end.

(** [(t -= 3) > -1 && i.push(239, 191, 189)]. *)
Definition push_replacement (t : limit) (i : list Z) : limit * list Z :=
  let t := spend t 3 in (t, if exhausted t then i else i ++ [239; 191; 189]).

(** The bytes of code point [n] and what is left of the limit; [None] is the
    [break] of the loop. *)
Definition push_code (n : Z) (t : limit) (i : list Z) : res (option (limit * list Z)) :=
  if n <? 128 then
    let t := spend t 1 in
    if exhausted t then Ok None else Ok (Some (t, i ++ [n]))
  else if n <? 2048 then
    let t := spend t 2 in
    if exhausted t then Ok None
    else Ok (Some (t, i ++ [js_or (js_shr n 6) 192; js_or (js_and 63 n) 128]))
  else if n <? 65536 then
    let t := spend t 3 in
    if exhausted t then Ok None
    else Ok (Some (t, i ++ [js_or (js_shr n 12) 224; js_or (js_and (js_shr n 6) 63) 128;
                            js_or (js_and 63 n) 128]))
  else if negb (n <? 1114112) then Throw (JsError "Invalid code point")
  else
    let t := spend t 4 in
    if exhausted t then Ok None
    else Ok (Some (t, i ++ [js_or (js_shr n 18) 240; js_or (js_and (js_shr n 12) 63) 128;
                            js_or (js_and (js_shr n 6) 63) 128; js_or (js_and 63 n) 128])).

(** The loop over the code units: [o] is the lead surrogate seen last. *)
Fixpoint utf8_loop (e : jsstring) (o : option Z) (t : limit) (i : list Z) : res (list Z) :=
  match e with
  | [] => Ok i
  | n :: e' =>
      let emit (n : Z) (t : limit) (i : list Z) :=
        let! r := push_code n t i in
        match r with
        | Some (t, i) => utf8_loop e' None t i
        | None => Ok i
        end in
      if (55295 <? n) && (n <? 57344) then
        match o with
        | None =>
            if 56319 <? n then
              let '(t, i) := push_replacement t i in utf8_loop e' None t i
            else if zlen e' =? 0 then
              let '(t, i) := push_replacement t i in utf8_loop e' None t i
            else utf8_loop e' (Some n) t i
        | Some lead =>
            if n <? 56320 then
              let '(t, i) := push_replacement t i in utf8_loop e' (Some n) t i
            else emit (65536 + js_or (js_shl (lead - 55296) 10) (n - 56320)) t i
        end
      else
        match o with
        | Some _ => let '(t, i) := push_replacement t i in emit n t i
        | None => emit n t i
        end
  end.

Definition utf8ToBytes (e : jsstring) (t : option Z) : res (list Z) :=
  utf8_loop e None (to_limit t) [].

(** ** The decoder *)

(** [e[i]] as an operand of a bitwise operator. *)
Definition byte_at (e : list Z) (i : Z) : Z := nint (rd e i).

Definition continuation (b : Z) : bool := js_and 192 b =? 128.

(** The code point at [o], if the bytes there encode one. *)
Definition decode_point (e : list Z) (o l f : Z) : option Z :=
  if f =? 1 then (if l <? 128 then Some l else None)
  else if f =? 2 then
    let i := byte_at e (o + 1) in
    let s := js_or (js_shl (js_and 31 l) 6) (js_and 63 i) in
    if continuation i && (127 <? s) then Some s else None
  else if f =? 3 then
    let i := byte_at e (o + 1) in
    let a := byte_at e (o + 2) in
    let s := js_or (js_or (js_shl (js_and 15 l) 12) (js_shl (js_and 63 i) 6)) (js_and 63 a) in
    if continuation i && continuation a && (2047 <? s) && ((s <? 55296) || (57343 <? s))
    then Some s else None
  else
    let i := byte_at e (o + 1) in
    let a := byte_at e (o + 2) in
    let u := byte_at e (o + 3) in
    let s := js_or (js_or (js_or (js_shl (js_and 15 l) 18) (js_shl (js_and 63 i) 12))
                          (js_shl (js_and 63 a) 6)) (js_and 63 u) in
    if continuation i && continuation a && continuation u && (65535 <? s) && (s <? 1114112)
    then Some s else None.

Definition width (l : Z) : Z :=
  if 239 <? l then 4 else if 223 <? l then 3 else if 191 <? l then 2 else 1.

(** One round of the loop: the code units pushed and the next position.  There is no byte before the
    buffer, and an undefined one is no code point. *)
Definition decode_step (e : list Z) (o n : Z) : list Z * Z :=
  let l := byte_at e o in
  let f := width l in
  match (if (0 <=? o) && (o + f <=? n) then decode_point e o l f else None) with
  | None => ([65533], o + 1)
  | Some c =>
      if 65535 <? c then
        let c := c - 65536 in
        ([js_or (js_and (js_ushr c 10) 1023) 55296; js_or 56320 (js_and 1023 c)], o + f)
      else ([c], o + f)
  end.

Fixpoint utf8_decode_loop (fuel : nat) (e : list Z) (o n : Z) : list Z :=
  match fuel with
  | O => []
  | S fuel =>
      if o <? n then
        let '(r, o) := decode_step e o n in r ++ utf8_decode_loop fuel e o n
      else []
  end.

(** [String.fromCharCode.apply(String, e)]. *)
Definition fromCharCodes (e : list Z) : jsstring := map (fun c => c mod 65536) e.

Definition MAX_ARGUMENTS_LENGTH : Z := 4096.

Definition decodeCodePointsArray (e : list Z) : jsstring :=
  let t := zlen e in
  if t <=? MAX_ARGUMENTS_LENGTH then fromCharCodes e
  else forZ 0 t MAX_ARGUMENTS_LENGTH
         (fun r n => n ++ fromCharCodes (zsub e r (r + MAX_ARGUMENTS_LENGTH))) [].

(** Every round consumes a byte, so [n - t] rounds are enough. *)
Definition utf8Slice (e : list Z) (t n : Z) : jsstring :=
  let n := Z.min (zlen e) n in
  decodeCodePointsArray (utf8_decode_loop (Z.to_nat (n - t)) e t n).

(** ** The specification *)

Definition unit_ok (n : Z) : Prop := 0 <= n < 65536.
Definition units_ok (s : jsstring) : Prop := Forall unit_ok s.

Definition is_lead (n : Z) : bool := (55296 <=? n) && (n <? 56320).
Definition is_trail (n : Z) : bool := (56320 <=? n) && (n <? 57344).

Fixpoint scalars (s : jsstring) : list Z :=
  match s with
  | [] => []
  | n :: s' =>
      if is_lead n then
        match s' with
        | m :: s'' =>
            if is_trail m then 65536 + ((n - 55296) * 1024 + (m - 56320)) :: scalars s''
            else 65533 :: scalars s'
        | [] => [65533]
        end
      else (if is_trail n then 65533 else n) :: scalars s'
  end.

(** A Unicode scalar value. *)
Definition scalar (c : Z) : Prop := 0 <= c < 55296 \/ 57344 <= c < 1114112.

Definition utf8_ref (c : Z) : list Z :=
  if c <? 128 then [c]
  else if c <? 2048 then [192 + c / 64; 128 + c mod 64]
  else if c <? 65536 then [224 + c / 4096; 128 + c / 64 mod 64; 128 + c mod 64]
  else [240 + c / 262144; 128 + c / 4096 mod 64; 128 + c / 64 mod 64; 128 + c mod 64].

Definition utf16_ref (c : Z) : list Z :=
  if c <? 65536 then [c] else [55296 + (c - 65536) / 1024; 56320 + (c - 65536) mod 1024].

(** The longest prefix whose encoding fits. *)
Fixpoint fitting (t : limit) (cs : list Z) : list Z :=
  match cs with
  | [] => []
  | c :: cs =>
      let t := spend t (zlen (utf8_ref c)) in
      if exhausted t then [] else c :: fitting t cs
  end.

(** A string without lone surrogates. *)
Fixpoint well_formed (s : jsstring) : bool :=
  match s with
  | [] => true
  | n :: s' =>
      if is_lead n then
        match s' with
        | m :: s'' => is_trail m && well_formed s''
        | [] => false
        end
      else negb (is_trail n) && well_formed s'
  end.

(** What the encoder looks at: of two lead surrogates that end the string, the
    last is kept pending and lost. *)
Fixpoint effective (s : jsstring) : jsstring :=
  match s with
  | [] => []
  | x :: s' =>
      match s' with
      | [y] => if is_lead x && is_lead y then [x] else [x; y]
      | _ => x :: effective s'
      end
  end.

(** ** The encoder meets it *)

Lemma shr6 n : 0 <= n < pow31 -> js_shr n 6 = n / 64.
Proof. intros. apply (js_shr_div n 6); unfold pow31 in *; lia. Qed.
Lemma shr12 n : 0 <= n < pow31 -> js_shr n 12 = n / 4096.
Proof. intros. apply (js_shr_div n 12); unfold pow31 in *; lia. Qed.
Lemma shr18 n : 0 <= n < pow31 -> js_shr n 18 = n / 262144.
Proof. intros. apply (js_shr_div n 18); unfold pow31 in *; lia. Qed.
Lemma and63 n : js_and n 63 = n mod 64.
Proof. apply (js_and_ones n 6). lia. Qed.
Lemma and63_l n : js_and 63 n = n mod 64.
Proof. apply (js_and_ones_l n 6). lia. Qed.
Lemma or128 x : 0 <= x < 64 -> js_or x 128 = 128 + x.
Proof. intros. apply (js_or_tag x 2 6); unfold pow31; lia. Qed.
Lemma or192 x : 0 <= x < 32 -> js_or x 192 = 192 + x.
Proof. intros. apply (js_or_tag x 6 5); unfold pow31; lia. Qed.
Lemma or224 x : 0 <= x < 16 -> js_or x 224 = 224 + x.
Proof. intros. apply (js_or_tag x 14 4); unfold pow31; lia. Qed.
Lemma or240 x : 0 <= x < 8 -> js_or x 240 = 240 + x.
Proof. intros. apply (js_or_tag x 30 3); unfold pow31; lia. Qed.

Lemma push_code_ref n t i :
  0 <= n < 1114112 ->
  push_code n t i = Ok (let t := spend t (zlen (utf8_ref n)) in
                        if exhausted t then None else Some (t, i ++ utf8_ref n)).
Proof.
  intros Hn. unfold push_code, utf8_ref.
  assert (0 <= n < pow31) by (unfold pow31; lia).
  rewrite shr6, shr12, shr18, !and63, and63_l by done.
  destruct (Z.ltb_spec n 128); [by destruct (exhausted _)|].
  destruct (Z.ltb_spec n 2048).
  { rewrite or192, or128 by dlia. by destruct (exhausted _). }
  destruct (Z.ltb_spec n 65536).
  { rewrite or224, !or128 by dlia. by destruct (exhausted _). }
  destruct (Z.ltb_spec n 1114112); [|lia]. simpl negb. cbv iota.
  rewrite or240, !or128 by dlia. by destruct (exhausted _).
Qed.

Lemma fitting_exhausted t cs : exhausted t = true -> fitting t cs = [].
Proof.
  destruct cs as [|c cs]; [done|]. destruct t as [t|]; simpl; [|done].
  intros Ht. pose proof (zlen_nonneg (utf8_ref c)).
  destruct (Z.ltb_spec t 0), (Z.ltb_spec (t - zlen (utf8_ref c)) 0); done || lia.
Qed.

(** Pushing a scalar value, then going on with [k]. *)
Lemma replacement_step t i cs (k : limit -> list Z -> res (list Z)) :
  (forall t i, k t i = Ok (i ++ flat_map utf8_ref (fitting t cs))) ->
  (let '(t, i) := push_replacement t i in k t i)
  = Ok (i ++ flat_map utf8_ref (fitting t (65533 :: cs))).
Proof.
  intros Hk. unfold push_replacement. rewrite Hk. cbn [fitting].
  change (zlen (utf8_ref 65533)) with 3.
  destruct (exhausted (spend t 3)) eqn:E; [by rewrite fitting_exhausted|].
  by rewrite <- app_assoc.
Qed.

Lemma emit_step n t i cs (k : limit -> list Z -> res (list Z)) :
  0 <= n < 1114112 ->
  (forall t i, k t i = Ok (i ++ flat_map utf8_ref (fitting t cs))) ->
  (let! r := push_code n t i in match r with Some (t, i) => k t i | None => Ok i end)
  = Ok (i ++ flat_map utf8_ref (fitting t (n :: cs))).
Proof.
  intros Hn Hk. rewrite push_code_ref by done. cbn [res_bind fitting].
  destruct (exhausted (spend t (zlen (utf8_ref n)))); [by rewrite app_nil_r|].
  by rewrite Hk, <- app_assoc.
Qed.

Lemma surrogate_class n :
  (55295 <? n) && (n <? 57344) = is_lead n || is_trail n /\
  (is_lead n = true -> (56319 <? n) = false /\ (n <? 56320) = true) /\
  (is_trail n = true -> (56319 <? n) = true /\ (n <? 56320) = false /\ is_lead n = false).
Proof.
  unfold is_lead, is_trail. repeat match goal with |- context [?a <? ?b] => destruct (Z.ltb_spec a b)
    | |- context [?a <=? ?b] => destruct (Z.leb_spec a b) end; simpl; split_and!; try done; lia.
Qed.

Lemma lead_not_trail n : is_lead n = true -> is_trail n = false.
Proof. unfold is_lead, is_trail. lia. Qed.

Lemma pair_point n m :
  is_lead n = true -> is_trail m = true ->
  65536 + js_or (js_shl (n - 55296) 10) (m - 56320) = 65536 + ((n - 55296) * 1024 + (m - 56320)).
Proof.
  unfold is_lead, is_trail. intros Hn Hm. apply andb_true_iff in Hn as [Hn1 Hn2], Hm as [Hm1 Hm2].
  rewrite js_shl_mul by (unfold pow31; lia). change (2 ^ 10) with 1024.
  f_equal. apply (js_or_add _ _ 10); unfold pow31; lia.
Qed.

Lemma pair_range n m :
  is_lead n = true -> is_trail m = true ->
  65536 <= 65536 + ((n - 55296) * 1024 + (m - 56320)) < 1114112.
Proof. unfold is_lead, is_trail. lia. Qed.

Lemma effective_plain n e : is_lead n = false -> effective (n :: e) = n :: effective e.
Proof. intros Hn. simpl. rewrite Hn. by destruct e as [|y [|z e]]. Qed.

Lemma effective_long n m e : e <> [] -> effective (n :: m :: e) = n :: effective (m :: e).
Proof. by destruct e. Qed.

Lemma effective_second l n e : is_lead n = false -> effective (l :: n :: e) = l :: n :: effective e.
Proof.
  intros Hn. rewrite <- effective_plain by done. simpl. rewrite Hn, andb_false_r. by destruct e.
Qed.

Lemma effective_head n e : exists e', effective (n :: e) = n :: e'.
Proof. simpl. destruct e as [|y [|z e]]; eauto. destruct (is_lead n && is_lead y); eauto. Qed.

Lemma scalars_plain n e :
  is_lead n = false -> is_trail n = false -> scalars (n :: e) = n :: scalars e.
Proof. intros Hl Ht. simpl. by rewrite Hl, Ht. Qed.

Lemma scalars_trail n e : is_trail n = true -> scalars (n :: e) = 65533 :: scalars e.
Proof. intros Ht. destruct (surrogate_class n) as (_ & _ & H). simpl. destruct (H Ht) as (_ & _ & ->). by rewrite Ht. Qed.

Lemma scalars_pair l n e :
  is_lead l = true -> is_trail n = true ->
  scalars (l :: n :: e) = 65536 + ((l - 55296) * 1024 + (n - 56320)) :: scalars e.
Proof. intros Hl Ht. simpl. by rewrite Hl, Ht. Qed.

Lemma scalars_lone l n e :
  is_lead l = true -> is_trail n = false -> scalars (l :: n :: e) = 65533 :: scalars (n :: e).
Proof. intros Hl Ht. cbn [scalars]. by rewrite Hl, Ht. Qed.

(** What the loop appends: the encoding of the scalar values of what is left, the
    pending lead surrogate included. *)
Lemma utf8_loop_ref e o t i :
  units_ok e -> match o with Some l => is_lead l = true /\ e <> [] | None => True end ->
  utf8_loop e o t i
  = Ok (i ++ flat_map utf8_ref (fitting t (scalars (effective (option_list o ++ e))))).
Proof.
  intros He. revert o t i. induction He as [|n e Hn He IH]; intros o t i Ho.
  { destruct o; [by destruct Ho|]. simpl. by rewrite app_nil_r. }
  destruct (surrogate_class n) as (Hs & Hlead & Htrail). cbn [utf8_loop]. rewrite Hs.
  assert (forall t i, utf8_loop e None t i =
    Ok (i ++ flat_map utf8_ref (fitting t (scalars (effective e))))) as IH0 by (intros; by apply (IH None)).
  destruct (is_lead n) eqn:El; simpl orb; cbv iota.
  - destruct (Hlead eq_refl) as [H1 H2]. rewrite H1, H2. destruct (decide (e = [])) as [->|Hne].
    + destruct o as [l|]; simpl option_list.
      * destruct Ho as [Hl _]. simpl effective. rewrite Hl, El. simpl scalars. rewrite Hl.
        by apply (replacement_step t i [] (fun t i => utf8_loop [] (Some n) t i));
          intros; rewrite app_nil_r.
      * simpl effective. simpl scalars. rewrite El. by apply (replacement_step t i [] (utf8_loop [] None)).
    + destruct o as [l|]; simpl option_list.
      * destruct Ho as [Hl _]. cbn [app]. rewrite effective_long by done.
        destruct (effective_head n e) as [e' He']. rewrite He', scalars_lone by (done || by apply lead_not_trail).
        rewrite <- He'. apply (replacement_step t i _ (utf8_loop e (Some n))). intros. by apply (IH (Some n)).
      * replace (zlen e =? 0) with false by (destruct e; [done|symmetry; apply Z.eqb_neq; unfold zlen; simpl; lia]).
        by apply (IH (Some n)).
  - destruct (is_trail n) eqn:Et.
    + destruct (Htrail eq_refl) as (H1 & H2 & _). rewrite H1, H2.
      destruct o as [l|]; simpl option_list; cbn [app].
      * destruct Ho as [Hl _]. rewrite effective_second by done.
        rewrite scalars_pair by done. rewrite pair_point by done.
        apply emit_step; [pose proof (pair_range l n Hl Et); lia|done].
      * rewrite effective_plain, scalars_trail by done. by apply (replacement_step t i _ (utf8_loop e None)).
    + destruct o as [l|]; simpl option_list; cbn [app].
      * destruct Ho as [Hl _]. rewrite effective_second by done.
        rewrite scalars_lone, scalars_plain by done.
        apply (replacement_step t i _ (fun t i => let! r := push_code n t i in
          match r with Some (t, i) => utf8_loop e None t i | None => Ok i end)).
        intros. apply emit_step; [unfold unit_ok in Hn; lia|done].
      * rewrite effective_plain, scalars_plain by done.
        apply emit_step; [unfold unit_ok in Hn; lia|done].
Qed.

(** ** The decoder meets it *)

Lemma shl_small x k : 0 <= k < 32 -> 0 <= x -> x * 2 ^ k < pow31 -> js_shl x k = x * 2 ^ k.
Proof.
  intros Hk Hx Hb. assert (1 <= 2 ^ k) by (apply (Z.pow_le_mono_r 2 0 k); lia).
  apply js_shl_mul; unfold pow31 in *; nia.
Qed.

Lemma join2 a b : 0 <= a < 32 -> 0 <= b < 64 -> js_or (js_shl a 6) b = a * 64 + b.
Proof.
  intros. rewrite shl_small by (unfold pow31; lia). apply (js_or_add _ _ 6); unfold pow31; lia.
Qed.

Lemma join3 a b c :
  0 <= a < 16 -> 0 <= b < 64 -> 0 <= c < 64 ->
  js_or (js_or (js_shl a 12) (js_shl b 6)) c = (a * 64 + b) * 64 + c.
Proof.
  intros. rewrite !shl_small by (unfold pow31; lia).
  rewrite (js_or_add a _ 12) by (unfold pow31; lia).
  replace (a * 2 ^ 12 + b * 2 ^ 6) with ((a * 64 + b) * 2 ^ 6) by lia.
  apply (js_or_add _ _ 6); unfold pow31; lia.
Qed.

Lemma join4 a b c d :
  0 <= a < 16 -> 0 <= b < 64 -> 0 <= c < 64 -> 0 <= d < 64 ->
  js_or (js_or (js_or (js_shl a 18) (js_shl b 12)) (js_shl c 6)) d = ((a * 64 + b) * 64 + c) * 64 + d.
Proof.
  intros. rewrite !shl_small by (unfold pow31; lia).
  rewrite (js_or_add a _ 18) by (unfold pow31; lia).
  replace (a * 2 ^ 18 + b * 2 ^ 12) with ((a * 64 + b) * 2 ^ 12) by lia.
  rewrite (js_or_add _ _ 12) by (unfold pow31; lia).
  replace ((a * 64 + b) * 2 ^ 12 + c * 2 ^ 6) with (((a * 64 + b) * 64 + c) * 2 ^ 6) by lia.
  apply (js_or_add _ _ 6); unfold pow31; lia.
Qed.

Lemma and31_l n : js_and 31 n = n mod 32.
Proof. apply (js_and_ones_l n 5). lia. Qed.
Lemma and15_l n : js_and 15 n = n mod 16.
Proof. apply (js_and_ones_l n 4). lia. Qed.

Lemma continuation_range b : byte_ok b -> continuation b = (128 <=? b) && (b <? 192).
Proof.
  intros Hb. apply eqb_prop. apply (forallb_below 256 (fun b => eqb (continuation b) ((128 <=? b) && (b <? 192)))).
  - vm_compute. reflexivity.
  - unfold byte_ok in Hb. lia.
Qed.

Lemma utf8_ref_bytes c : 0 <= c < 1114112 -> bytes_ok (utf8_ref c).
Proof.
  intros Hc. unfold utf8_ref, bytes_ok.
  repeat case_match; repeat constructor; unfold byte_ok; dlia.
Qed.

Lemma byte_at_app pre l j b :
  zget l j = Some b -> 0 <= j -> byte_ok b -> byte_at (pre ++ l) (zlen pre + j) = b.
Proof.
  intros Hg Hj Hb. unfold byte_at. rewrite rd_app_at by done. unfold rd. rewrite Hg.
  by apply nint_byte.
Qed.

Lemma byte_at_head pre b l : byte_ok b -> byte_at (pre ++ b :: l) (zlen pre) = b.
Proof. intros. rewrite <- (Z.add_0_r (zlen pre)). by apply byte_at_app. Qed.

Lemma decode1 pre c post :
  0 <= c < 128 -> decode_point (pre ++ c :: post) (zlen pre) c (width c) = Some c /\ width c = 1.
Proof.
  intros Hc. assert (width c = 1) as -> by (unfold width; repeat case_match; lia).
  unfold decode_point. simpl. by destruct (Z.ltb_spec c 128); [|lia].
Qed.

Lemma decode2 pre a b post :
  2 <= a < 32 -> 0 <= b < 64 ->
  decode_point (pre ++ 192 + a :: 128 + b :: post) (zlen pre) (192 + a) (width (192 + a))
  = Some (a * 64 + b) /\ width (192 + a) = 2.
Proof.
  intros Ha Hb. assert (width (192 + a) = 2) as -> by (unfold width; repeat case_match; lia).
  unfold decode_point. simpl. rewrite (byte_at_app _ _ 1 (128 + b)) by (done || unfold byte_ok; lia).
  rewrite continuation_range by (unfold byte_ok; lia).
  rewrite and31_l, and63_l. replace ((192 + a) mod 32) with a by dlia.
  replace ((128 + b) mod 64) with b by dlia. rewrite join2 by lia.
  split; [|done]. rewrite (proj2 (Z.leb_le 128 _)), (proj2 (Z.ltb_lt (128 + b) _)), (proj2 (Z.ltb_lt 127 _)) by lia.
  done.
Qed.

Lemma decode3 pre a b c post :
  0 <= a < 16 -> 0 <= b < 64 -> 0 <= c < 64 ->
  let s := (a * 64 + b) * 64 + c in
  2048 <= s -> scalar s ->
  decode_point (pre ++ 224 + a :: 128 + b :: 128 + c :: post) (zlen pre) (224 + a) (width (224 + a))
  = Some s /\ width (224 + a) = 3.
Proof.
  intros Ha Hb Hc s Hs Hsc. assert (width (224 + a) = 3) as -> by (unfold width; repeat case_match; lia).
  unfold decode_point. simpl. rewrite (byte_at_app _ _ 1 (128 + b)) by (done || unfold byte_ok; lia).
  rewrite (byte_at_app _ _ 2 (128 + c)) by (done || unfold byte_ok; lia).
  rewrite !continuation_range by (unfold byte_ok; lia).
  rewrite and15_l, !and63_l. replace ((224 + a) mod 16) with a by dlia.
  replace ((128 + b) mod 64) with b by dlia. replace ((128 + c) mod 64) with c by dlia.
  rewrite join3 by lia. fold s. split; [|done].
  rewrite !(proj2 (Z.leb_le 128 _)), (proj2 (Z.ltb_lt (128 + b) _)), (proj2 (Z.ltb_lt (128 + c) _)) by lia.
  rewrite (proj2 (Z.ltb_lt 2047 s)) by lia. unfold scalar in Hsc.
  destruct (Z.ltb_spec s 55296), (Z.ltb_spec 57343 s); done || lia.
Qed.

Lemma decode4 pre a b c d post :
  0 <= a < 8 -> 0 <= b < 64 -> 0 <= c < 64 -> 0 <= d < 64 ->
  let s := ((a * 64 + b) * 64 + c) * 64 + d in
  65536 <= s < 1114112 ->
  decode_point (pre ++ 240 + a :: 128 + b :: 128 + c :: 128 + d :: post) (zlen pre) (240 + a)
    (width (240 + a)) = Some s /\ width (240 + a) = 4.
Proof.
  intros Ha Hb Hc Hd s Hs. assert (width (240 + a) = 4) as -> by (unfold width; repeat case_match; lia).
  unfold decode_point. simpl. rewrite (byte_at_app _ _ 1 (128 + b)) by (done || unfold byte_ok; lia).
  rewrite (byte_at_app _ _ 2 (128 + c)) by (done || unfold byte_ok; lia).
  rewrite (byte_at_app _ _ 3 (128 + d)) by (done || unfold byte_ok; lia).
  rewrite !continuation_range by (unfold byte_ok; lia).
  rewrite and15_l, !and63_l. replace ((240 + a) mod 16) with a by dlia.
  replace ((128 + b) mod 64) with b by dlia. replace ((128 + c) mod 64) with c by dlia.
  replace ((128 + d) mod 64) with d by dlia.
  rewrite join4 by lia. fold s. split; [|done].
  rewrite !(proj2 (Z.leb_le 128 _)) by lia.
  rewrite (proj2 (Z.ltb_lt (128 + b) _)), (proj2 (Z.ltb_lt (128 + c) _)), (proj2 (Z.ltb_lt (128 + d) _)) by lia.
  by rewrite (proj2 (Z.ltb_lt 65535 s)), (proj2 (Z.ltb_lt s 1114112)) by lia.
Qed.

(** The bytes of a scalar value decode to it. *)
Lemma decode_point_ref pre c post :
  scalar c ->
  let e := pre ++ utf8_ref c ++ post in
  let l := byte_at e (zlen pre) in
  decode_point e (zlen pre) l (width l) = Some c /\ width l = zlen (utf8_ref c).
Proof.
  intros Hc. assert (0 <= c < 1114112) as Hr by (unfold scalar in Hc; lia).
  unfold utf8_ref. destruct (Z.ltb_spec c 128); [|destruct (Z.ltb_spec c 2048);
    [|destruct (Z.ltb_spec c 65536)]]; cbn [app]; cbv zeta;
    rewrite byte_at_head by (unfold byte_ok; dlia).
  - apply decode1. lia.
  - destruct (decode2 pre (c / 64) (c mod 64) post) as [E1 E2]; [dlia..|].
    rewrite E1, E2. split; [f_equal; dlia|done].
  - destruct (decode3 pre (c / 4096) (c / 64 mod 64) (c mod 64) post) as [E1 E2]; [dlia..| |].
    { replace ((c / 4096 * 64 + c / 64 mod 64) * 64 + c mod 64) with c by dlia. done. }
    rewrite E1, E2. split; [f_equal; dlia|done].
  - destruct (decode4 pre (c / 262144) (c / 4096 mod 64) (c / 64 mod 64) (c mod 64) post)
      as [E1 E2]; [dlia..|].
    rewrite E1, E2. split; [f_equal; dlia|done].
Qed.

Lemma surrogates_of c :
  0 <= c < 1048576 ->
  [js_or (js_and (js_ushr c 10) 1023) 55296; js_or 56320 (js_and 1023 c)]
  = [55296 + c / 1024; 56320 + c mod 1024].
Proof.
  intros Hc. change 1023 with (2 ^ 10 - 1).
  rewrite js_and_ones, js_and_ones_l, js_ushr_div by (unfold pow32; lia).
  change (2 ^ 10) with 1024.
  rewrite (js_or_tag _ 54 10) by (unfold pow31; dlia).
  rewrite (js_or_add 55 _ 10) by (unfold pow31; dlia).
  by replace (c / 1024 mod 1024) with (c / 1024) by dlia.
Qed.

Lemma decode_step_ref pre c post n :
  scalar c -> zlen pre + zlen (utf8_ref c) <= n ->
  decode_step (pre ++ utf8_ref c ++ post) (zlen pre) n = (utf16_ref c, zlen pre + zlen (utf8_ref c)).
Proof.
  intros Hc Hn. unfold decode_step.
  destruct (decode_point_ref pre c post Hc) as [-> ->].
  rewrite (proj2 (Z.leb_le _ n)), (proj2 (Z.leb_le 0 _)) by (done || apply zlen_nonneg). unfold utf16_ref. cbn [andb].
  destruct (Z.ltb_spec 65535 c), (Z.ltb_spec c 65536); try lia; [|done].
  unfold scalar in Hc. by rewrite surrogates_of by lia.
Qed.

Lemma zlen_utf8_ref c : 1 <= zlen (utf8_ref c) <= 4.
Proof. unfold utf8_ref. repeat case_match; unfold zlen; simpl; lia. Qed.

Lemma utf8_decode_loop_ref cs fuel pre :
  Forall scalar cs -> (length (flat_map utf8_ref cs) <= fuel)%nat ->
  utf8_decode_loop fuel (pre ++ flat_map utf8_ref cs) (zlen pre) (zlen (pre ++ flat_map utf8_ref cs))
  = flat_map utf16_ref cs.
Proof.
  intros Hcs. revert fuel pre. induction Hcs as [|c cs Hc _ IH]; intros fuel pre Hf.
  { simpl. rewrite app_nil_r. destruct fuel; simpl; [done|]. by rewrite Z.ltb_irrefl. }
  simpl flat_map in *. pose proof (zlen_utf8_ref c) as Hw. rewrite length_app in Hf.
  destruct fuel as [|fuel]; [unfold zlen in Hw; lia|]. simpl utf8_decode_loop.
  rewrite !zlen_app. pose proof (zlen_nonneg (flat_map utf8_ref cs)).
  rewrite (proj2 (Z.ltb_lt _ _)) by lia. rewrite decode_step_ref by (done || lia). f_equal.
  specialize (IH fuel (pre ++ utf8_ref c)). rewrite !zlen_app, <- app_assoc, <- Z.add_assoc in IH.
  apply IH. unfold zlen in Hw. lia.
Qed.

(** Cutting the array in chunks for [fromCharCode.apply] makes no difference. *)
Lemma chunks_all (e acc : list Z) r :
  0 <= r <= zlen e ->
  forZ r (zlen e) MAX_ARGUMENTS_LENGTH
    (fun r n => n ++ fromCharCodes (zsub e r (r + MAX_ARGUMENTS_LENGTH))) acc
  = acc ++ fromCharCodes (zsub e r (zlen e)).
Proof.
  intros Hr. remember (Z.to_nat (zlen e - r)) as k eqn:Hk.
  assert (Z.to_nat (zlen e - r) <= k)%nat as Hle by lia. clear Hk. revert r acc Hr Hle.
  induction k as [|k IH]; intros r acc Hr Hle.
  { assert (r = zlen e) as -> by lia. rewrite forZ_done by lia.
    unfold zsub. rewrite Z.sub_diag. simpl. by rewrite app_nil_r. }
  destruct (decide (r = zlen e)) as [->|Hne].
  { rewrite forZ_done by lia. unfold zsub. rewrite Z.sub_diag. simpl. by rewrite app_nil_r. }
  unfold MAX_ARGUMENTS_LENGTH in *. rewrite forZ_step by lia.
  destruct (Z.le_gt_cases (r + 4096) (zlen e)).
  - rewrite IH by lia. rewrite <- app_assoc. f_equal. unfold fromCharCodes.
    rewrite <- map_app. f_equal. apply zsub_adjacent; lia.
  - rewrite forZ_done by lia. f_equal. f_equal. unfold zsub, zlen in *.
    rewrite !take_ge by (rewrite length_drop; lia). done.
Qed.

Lemma decodeCodePointsArray_all e : units_ok e -> decodeCodePointsArray e = e.
Proof.
  intros He. assert (fromCharCodes e = e) as Hid.
  { unfold fromCharCodes. induction He as [|c e Hc _ IH]; [done|]. simpl.
    unfold unit_ok in Hc. by rewrite IH, Z.mod_small. }
  unfold decodeCodePointsArray. destruct (zlen e <=? MAX_ARGUMENTS_LENGTH); [done|].
  pose proof (zlen_nonneg e). rewrite chunks_all by lia. by rewrite zsub_all, Hid.
Qed.

Lemma utf16_ref_units c : scalar c -> units_ok (utf16_ref c).
Proof.
  intros Hc. unfold scalar in Hc. unfold utf16_ref.
  case_match; repeat constructor; unfold unit_ok; dlia.
Qed.

Lemma flat_utf16_units cs : Forall scalar cs -> units_ok (flat_map utf16_ref cs).
Proof.
  induction 1 as [|c cs Hc _ IH]; simpl; [constructor|]. apply Forall_app. split; [|done].
  by apply utf16_ref_units.
Qed.

(** The bytes of scalar values decode to their code units. *)
Lemma utf8Slice_ref cs :
  Forall scalar cs ->
  let b := flat_map utf8_ref cs in utf8Slice b 0 (zlen b) = flat_map utf16_ref cs.
Proof.
  intros Hcs b. unfold utf8Slice. rewrite Z.min_id. subst b.
  pose proof (utf8_decode_loop_ref cs (Z.to_nat (zlen (flat_map utf8_ref cs) - 0)) [] Hcs) as H.
  change (zlen []) with 0 in H. cbn [app] in H. rewrite H by (unfold zlen; lia).
  apply decodeCodePointsArray_all, flat_utf16_units, Hcs.
Qed.

(** ** Strings and their scalar values *)

(** Induction along the pairs of a string. *)
Lemma units_ind (P : jsstring -> Prop) :
  P [] ->
  (forall n s, is_lead n = false -> P s -> P (n :: s)) ->
  (forall n, is_lead n = true -> P [n]) ->
  (forall n m s, is_lead n = true -> is_trail m = true -> P s -> P (n :: m :: s)) ->
  (forall n m s, is_lead n = true -> is_trail m = false -> P (m :: s) -> P (n :: m :: s)) ->
  forall s, P s.
Proof.
  intros H0 H1 H2 H3 H4. fix IH 1. intros [|n s]; [done|].
  destruct (is_lead n) eqn:El; [|by apply H1].
  pose proof (IH s) as Hs. destruct s as [|m s]; [by apply H2|].
  destruct (is_trail m) eqn:Et; [apply H3; try done; apply IH|by apply H4].
Qed.

Lemma scalars_scalar s : units_ok s -> Forall scalar (scalars s).
Proof.
  induction s as [|n s Hn IH|n Hn|n m s Hn Hm IH|n m s Hn Hm IH] using units_ind; intros Hs;
    apply Forall_cons_iff in Hs as [H Hs] || (simpl; constructor).
  - simpl. rewrite Hn. constructor; [|by apply IH]. unfold unit_ok, scalar, is_lead in *.
    destruct (is_trail n) eqn:Et; unfold is_trail in Et; lia.
  - simpl. rewrite Hn. constructor; [right; lia|constructor].
  - apply Forall_cons_iff in Hs as [Hm' Hs]. rewrite scalars_pair by done.
    constructor; [right|by apply IH]. pose proof (pair_range n m Hn Hm). lia.
  - rewrite scalars_lone by done. constructor; [right; lia|by apply IH].
Qed.

Lemma well_formed_effective s : well_formed s = true -> effective s = s.
Proof.
  induction s as [|n s Hn IH|n Hn|n m s Hn Hm IH|n m s Hn Hm IH] using units_ind; intros Hs.
  - done.
  - simpl in Hs. rewrite Hn in Hs. apply andb_true_iff in Hs as [_ Hs].
    by rewrite effective_plain, IH.
  - done.
  - simpl in Hs. rewrite Hn, Hm in Hs. pose proof (surrogate_class m) as (_ & _ & Ht).
    destruct (Ht Hm) as (_ & _ & Hl). by rewrite effective_second, IH.
  - simpl in Hs. by rewrite Hn, Hm in Hs.
Qed.

Lemma utf16_pair n m :
  is_lead n = true -> is_trail m = true ->
  utf16_ref (65536 + ((n - 55296) * 1024 + (m - 56320))) = [n; m].
Proof.
  unfold is_lead, is_trail. intros Hn Hm. unfold utf16_ref.
  destruct (Z.ltb_spec (65536 + ((n - 55296) * 1024 + (m - 56320))) 65536); [lia|].
  assert (forall a b, 0 <= b < 1024 -> (65536 + (a * 1024 + b) - 65536) / 1024 = a) as Hd by (intros; dlia).
  assert (forall a b, 0 <= b < 1024 -> (65536 + (a * 1024 + b) - 65536) mod 1024 = b) as Hr by (intros; dlia).
  rewrite Hd, Hr by lia. do 2 f_equal; lia.
Qed.

Lemma well_formed_utf16 s : units_ok s -> well_formed s = true -> flat_map utf16_ref (scalars s) = s.
Proof.
  induction s as [|n s Hn IH|n Hn|n m s Hn Hm IH|n m s Hn Hm IH] using units_ind; intros Hu Hs.
  - done.
  - apply Forall_cons_iff in Hu as [Hun Hu]. simpl in Hs. rewrite Hn in Hs.
    apply andb_true_iff in Hs as [Ht Hs]. apply negb_true_iff in Ht.
    rewrite scalars_plain by done. simpl. rewrite IH by done. unfold utf16_ref.
    by destruct (Z.ltb_spec n 65536); [|unfold unit_ok in Hun; lia].
  - simpl in Hs. by rewrite Hn in Hs.
  - apply Forall_cons_iff in Hu as [_ Hu]. apply Forall_cons_iff in Hu as [_ Hu].
    simpl in Hs. rewrite Hn, Hm in Hs. rewrite scalars_pair by done. simpl flat_map.
    by rewrite utf16_pair, IH.
  - simpl in Hs. by rewrite Hn, Hm in Hs.
Qed.

Lemma well_formed_app c s : scalar c -> well_formed (utf16_ref c ++ s) = well_formed s.
Proof.
  intros Hc. unfold scalar in Hc. unfold utf16_ref. destruct (Z.ltb_spec c 65536); simpl.
  - assert (is_lead c = false) as -> by (unfold is_lead; lia).
    assert (is_trail c = false) as -> by (unfold is_trail; lia). done.
  - assert (is_lead (55296 + (c - 65536) / 1024) = true) as -> by (unfold is_lead; dlia).
    assert (is_trail (56320 + (c - 65536) mod 1024) = true) as -> by (unfold is_trail; dlia). done.
Qed.

Lemma flat_utf16_well_formed cs : Forall scalar cs -> well_formed (flat_map utf16_ref cs) = true.
Proof. induction 1 as [|c cs Hc _ IH]; simpl; [done|]. by rewrite well_formed_app. Qed.

Lemma effective_units s : units_ok s -> units_ok (effective s).
Proof.
  induction s as [|x s IH]; intros Hs; [done|]. apply Forall_cons_iff in Hs as [Hx Hs].
  simpl. destruct s as [|y [|z s]]; [constructor; [done|by apply IH]| |].
  - apply Forall_cons_iff in Hs as [Hy _]. destruct (is_lead x && is_lead y);
      repeat (done || apply Forall_cons_2 || apply Forall_nil_2).
  - constructor; [done|]. by apply IH.
Qed.

(** ** Decoding arbitrary bytes *)

Lemma byte_at_range e i : bytes_ok e -> byte_ok (byte_at e i).
Proof.
  intros He. unfold byte_at, rd, zget. destruct (i <? 0); [by unfold byte_ok|].
  destruct (e !! Z.to_nat i) as [b|] eqn:Hb; [|by unfold byte_ok].
  unfold bytes_ok in He. rewrite Forall_lookup in He. specialize (He _ _ Hb).
  by rewrite nint_byte.
Qed.

Lemma decode_point_scalar e o c :
  bytes_ok e -> let l := byte_at e o in decode_point e o l (width l) = Some c -> scalar c.
Proof.
  intros He l. pose proof (byte_at_range e o He) as Hl. fold l in Hl. unfold byte_ok in Hl.
  unfold decode_point, scalar. intros Hc.
  assert (forall x, 0 <= x mod 64 < 64) as H64 by (intros; apply Z.mod_pos_bound; lia).
  assert (0 <= l mod 32 < 32) by (apply Z.mod_pos_bound; lia).
  assert (0 <= l mod 16 < 16) by (apply Z.mod_pos_bound; lia).
  destruct (width l =? 1); [destruct (Z.ltb_spec l 128); simplify_eq; lia|].
  rewrite and31_l, and15_l, !and63_l in Hc. rewrite join2, join3, join4 in Hc by auto.
  pose proof (H64 (byte_at e (o + 1))). pose proof (H64 (byte_at e (o + 2))).
  pose proof (H64 (byte_at e (o + 3))).
  destruct (width l =? 2); [|destruct (width l =? 3)].
  - destruct (continuation _), (Z.ltb_spec 127 (l mod 32 * 64 + byte_at e (o + 1) mod 64));
      simpl in Hc; simplify_eq; lia.
  - destruct (_ && _) eqn:E in Hc; [|done]. simplify_eq.
    apply andb_true_iff in E as [_ E]. lia.
  - destruct (_ && _) eqn:E in Hc; [|done]. simplify_eq.
    apply andb_true_iff in E as [E ?]. apply andb_true_iff in E as [_ ?]. lia.
Qed.

Lemma decode_step_scalar e o n :
  bytes_ok e -> exists c o', scalar c /\ decode_step e o n = (utf16_ref c, o') /\ o < o'.
Proof.
  intros He. unfold decode_step.
  assert (1 <= width (byte_at e o)) by (unfold width; repeat case_match; lia).
  destruct (if (0 <=? o) && (o + width (byte_at e o) <=? n) then _ else _) as [c|] eqn:E.
  - destruct (_ && _) in E; [|done]. pose proof (decode_point_scalar e o c He E) as Hc.
    exists c, (o + width (byte_at e o)). split; [done|]. split; [|lia]. unfold scalar in Hc.
    unfold utf16_ref. destruct (Z.ltb_spec 65535 c), (Z.ltb_spec c 65536); try lia; [|done].
    by rewrite surrogates_of by lia.
  - exists 65533, (o + 1). split; [right; lia|]. split; [done|lia].
Qed.

(** The output of the decoder is always well-formed UTF-16, whatever the bytes. *)
Lemma utf8_decode_loop_scalars e o n fuel :
  bytes_ok e -> exists cs, Forall scalar cs /\ utf8_decode_loop fuel e o n = flat_map utf16_ref cs.
Proof.
  intros He. revert o. induction fuel as [|fuel IH]; intros o; simpl.
  { exists []. by split. }
  destruct (o <? n); [|exists []; by split].
  destruct (decode_step_scalar e o n He) as (c & o' & Hc & -> & _).
  destruct (IH o') as (cs & Hcs & ->). exists (c :: cs). split; [by constructor|done].
Qed.

(** ** Properties *)

(** The encoder writes the UTF-8 bytes of the scalar values of the string, as
    many whole ones as the limit leaves room for, a lone surrogate as U+FFFD; only
    the second of two lead surrogates that end the string is dropped. *)
Theorem utf8ToBytes_spec s t :
  units_ok s ->
  utf8ToBytes s t = Ok (flat_map utf8_ref (fitting (to_limit t) (scalars (effective s)))).
Proof. intros Hs. unfold utf8ToBytes. by rewrite utf8_loop_ref. Qed.

Lemma utf8ToBytes_spec_witness :
  utf8ToBytes [65; 8364; 55357; 56832] (Some 4) = Ok (flat_map utf8_ref [65; 8364]).
Proof. apply (utf8ToBytes_spec [65; 8364; 55357; 56832] (Some 4)). repeat constructor; concrete. Defined.

Lemma fitting_None cs : fitting None cs = cs.
Proof. induction cs as [|c cs IH]; simpl; [done|]. by rewrite IH. Qed.

Lemma utf8_decode_encode s :
  units_ok s ->
  exists b, utf8ToBytes s None = Ok b /\
    utf8Slice b 0 (zlen b) = flat_map utf16_ref (scalars (effective s)).
Proof.
  intros Hs. eexists. split; [unfold utf8ToBytes; by rewrite utf8_loop_ref|].
  simpl. rewrite fitting_None. apply utf8Slice_ref, scalars_scalar. by apply effective_units.
Qed.

Lemma utf8_roundtrip_all s :
  units_ok s -> well_formed s = true ->
  exists b, utf8ToBytes s None = Ok b /\ utf8Slice b 0 (zlen b) = s.
Proof.
  intros Hu Hs. destruct (utf8_decode_encode s Hu) as (b & Hb & Hd). exists b. split; [done|].
  by rewrite Hd, well_formed_effective, well_formed_utf16.
Qed.

(** A string without lone surrogates survives encoding and decoding. *)
Theorem utf8_roundtrip s :
  units_ok s -> well_formed s = true ->
  exists b, utf8ToBytes s None = Ok b /\ utf8Slice b 0 (zlen b) = s.
Proof. apply utf8_roundtrip_all. Qed.

Lemma utf8_roundtrip_witness :
  exists b, utf8ToBytes [65; 8364; 55357; 56832] None = Ok b /\
    utf8Slice b 0 (zlen b) = [65; 8364; 55357; 56832].
Proof. apply utf8_roundtrip; [repeat constructor; concrete|reflexivity]. Defined.

(** C37: whatever the bytes, the decoder returns a string without lone surrogates,
    and decoding stops: what it returns, encoded and decoded again, is the same. *)
Theorem utf8Slice_well_formed e t n :
  bytes_ok e ->
  let s := utf8Slice e t n in
  well_formed s = true /\
  exists b, utf8ToBytes s None = Ok b /\ utf8Slice b 0 (zlen b) = s.
Proof.
  intros He s.
  destruct (utf8_decode_loop_scalars e t (Z.min (zlen e) n) (Z.to_nat (Z.min (zlen e) n - t)) He)
    as (cs & Hcs & Hs).
  assert (s = flat_map utf16_ref cs) as ->.
  { unfold s, utf8Slice. rewrite Hs. by apply decodeCodePointsArray_all, flat_utf16_units. }
  split; [by apply flat_utf16_well_formed|]. apply utf8_roundtrip_all; [by apply flat_utf16_units|].
  by apply flat_utf16_well_formed.
Qed.

Lemma utf8Slice_well_formed_witness : well_formed (utf8Slice [237; 160; 128; 195; 40; 65] 0 6) = true.
Proof. apply utf8Slice_well_formed. repeat constructor; concrete. Defined.

(** Two lead surrogates that end a string are encoded as one U+FFFD, like one:
    the loop keeps the second pending and ends. *)
Theorem utf8_drops_last_lead :
  utf8ToBytes [55296; 55296] None = Ok [239; 191; 189] /\
  utf8ToBytes [55296] None = Ok [239; 191; 189] /\
  utf8ToBytes [55296; 55296; 65] None = Ok [239; 191; 189; 239; 191; 189; 65].
Proof. vm_compute. done. Qed.

End Utf8.
