(* ===== verification/BufferText.v ===== *)
(** * Buffer: strings

    Models the string side of module 54 of
    src/client/docs/swagger-ui/swagger-ui-bundle.js: the encodings hex, ascii,
    latin1, base64 and ucs2 (UTF-8 is in Utf8), the switch on the name of the
    encoding with its second try in lower case, [byteLength], [toString], [write],
    [Buffer.from(string)], [fill] with a string and [inspect].  A buffer is the list
    of its bytes; a writer returns the new bytes and the number it wrote. *)

From S2P Require Import Prelude JsString Base64 BufferInt BufferOps Utf8.
From Stdlib Require Import String.
From stdpp Require Import base numbers list strings option.
Open Scope Z_scope.

Module BufferText.
Import BufferInt Utf8.

(** ** blitBuffer *)

(** The loop ends at the end of the source, of the target or after [r] bytes. *)
Fixpoint blitBuffer (e t : list Z) (n r o : Z) : list Z * Z :=
  match e with
  | x :: e' =>
      if (o <? r) && negb (zlen t <=? o + n) then blitBuffer e' (st t (o + n) x) n r (o + 1)
      else (t, o)
  | [] => (t, o)
  end.

(** ** hex *)

Definition toHex (e : Z) : jsstring :=
  if e <? 16 then 48 :: num_to_string e 16 else num_to_string e 16.

Definition hexSlice (e : list Z) (t n : Z) : jsstring :=
  let r := zlen e in
  let t := if (t =? 0) || (t <? 0) then 0 else t in
  let n := if (n =? 0) || (n <? 0) || (r <? n) then r else n in
  forZ t n 1 (fun i o => o ++ toHex (default 0 (zget e i))) [].

(** [e[n + a] = parseInt(...)] until [r] bytes are written or a pair is not a number. *)
Fixpoint hex_loop (fuel : nat) (e : list Z) (t : jsstring) (n r a : Z) : list Z * Z :=
  match fuel with
  | O => (e, a)
  | S fuel =>
      if a <? r then
        match parseInt (zsub t (2 * a) (2 * a + 2)) 16 with
        | Num u => hex_loop fuel (st e (n + a) u) t n r (a + 1)
        | _ => (e, a)
        end
      else (e, a)
  end.

Definition hexWrite (e : list Z) (t : jsstring) (n r : Z) : res (list Z * Z) :=
  let o := zlen e - n in
  let r := if r =? 0 then o else if o <? r then o else r in
  let i := zlen t in
  if negb (i mod 2 =? 0) then Throw (TypeError "Invalid hex string")
  else
    let r := if i / 2 <? r then i / 2 else r in
    Ok (hex_loop (Z.to_nat r) e t n r 0).

(** ** ascii and latin1 *)

Definition asciiToBytes (e : jsstring) : list Z := map (js_and 255) e.

Definition asciiWrite (e : list Z) (t : jsstring) (n r : Z) : list Z * Z :=
  blitBuffer (asciiToBytes t) e n r 0.
Definition latin1Write (e : list Z) (t : jsstring) (n r : Z) : list Z * Z := asciiWrite e t n r.

Definition asciiSlice (e : list Z) (t n : Z) : jsstring :=
  let n := Z.min (zlen e) n in
  forZ t n 1 (fun o r => r ++ [js_and 127 (nint (rd e o)) mod 65536]) [].

Definition latin1Slice (e : list Z) (t n : Z) : jsstring :=
  let n := Z.min (zlen e) n in
  forZ t n 1 (fun o r => r ++ [default 0 (zget e o) mod 65536]) [].

(** ** ucs2 *)

Fixpoint utf16leToBytes (e : jsstring) (t : Z) : list Z :=
  match e with
  | n :: e' => if t - 2 <? 0 then [] else n mod 256 :: js_shr n 8 :: utf16leToBytes e' (t - 2)
  | [] => []
  end.

Definition ucs2Write (e : list Z) (t : jsstring) (n r : Z) : list Z * Z :=
  blitBuffer (utf16leToBytes t (zlen e - n)) e n r 0.

(** Two bytes make a unit; a last odd byte gives NaN, the unit 0. *)
Fixpoint utf16le_units (r : list Z) : jsstring :=
  match r with
  | a :: b :: r' => (a + 256 * b) mod 65536 :: utf16le_units r'
  | [_] => [0]
  | [] => []
  end.

(** [e.slice(t, n)]. *)
Definition byte_slice (e : list Z) (t n : Z) : list Z :=
  let '(a, b) := BufferOps.slice_bounds (zlen e) t (Some n) in zsub e a b.

Definition ucs2Slice (e : list Z) (t n : Z) : jsstring := utf16le_units (byte_slice e t n).

(** ** base64 *)

(** The complement of the class of INVALID_BASE64_RE. *)
Definition base64_char (c : Z) : bool :=
  (c =? 43) || (c =? 47) || ((48 <=? c) && (c <=? 57)) || ((65 <=? c) && (c <=? 90))
  || ((97 <=? c) && (c <=? 122)) || (c =? 45) || (c =? 95).

(** [for (; e.length % 4 != 0;) e += "="], which ends after at most three rounds. *)
Fixpoint pad4 (fuel : nat) (e : jsstring) : jsstring :=
  match fuel with
  | O => e
  | S fuel => if zlen e mod 4 =? 0 then e else pad4 fuel (e ++ [61])
  end.

Definition base64clean (e : jsstring) : jsstring :=
  let e := List.filter base64_char (trim e) in
  if zlen e <? 2 then [] else pad4 3 e.

Definition base64ToBytes (e : jsstring) : res (list Z) := Base64.toByteArray (base64clean e).

Definition base64Write (e : list Z) (t : jsstring) (n r : Z) : res (list Z * Z) :=
  let! b := base64ToBytes t in Ok (blitBuffer b e n r 0).

Definition base64Slice (e : list Z) (t n : Z) : jsstring :=
  if (t =? 0) && (n =? zlen e) then Base64.fromByteArray e
  else Base64.fromByteArray (byte_slice e t n).

Definition utf8Write (e : list Z) (t : jsstring) (n r : Z) : res (list Z * Z) :=
  let! b := utf8ToBytes t (Some (zlen e - n)) in Ok (blitBuffer b e n r 0).

(** ** The switch on the encoding *)

Inductive encoding := Hex | UTF8 | ASCII | Latin1 | Base64E | UCS2.

#[export] Instance encoding_eq_dec : EqDecision encoding.
Proof. solve_decision. Defined.

(** The cases of the switches. *)
Definition encoding_case (e : string) : option encoding :=
  if bool_decide (e = "hex"%string) then Some Hex
  else if bool_decide (e = "utf8"%string \/ e = "utf-8"%string) then Some UTF8
  else if bool_decide (e = "ascii"%string) then Some ASCII
  else if bool_decide (e = "latin1"%string \/ e = "binary"%string) then Some Latin1
  else if bool_decide (e = "base64"%string) then Some Base64E
  else if bool_decide (e = "ucs2"%string \/ e = "ucs-2"%string \/ e = "utf16le"%string \/ e = "utf-16le"%string)
       then Some UCS2
  else None.

(** The name as given, then in lower case. *)
Definition find_encoding (e : string) : option encoding :=
  match encoding_case e with
  | Some k => Some k
  | None => encoding_case (lower e)
  end.

Definition isEncoding (e : string) : bool :=
  match encoding_case (lower e) with Some _ => true | None => false end.

Definition unknown_encoding {A} (e : string) : res A :=
  Throw (TypeError ("Unknown encoding: " +:+ lower e)).

(** [byteLength] of a string; an unknown encoding counts as UTF-8. *)
Definition byteLength (e : jsstring) (t : option string) : res Z :=
  let n := zlen e in
  if n =? 0 then Ok 0
  else
    match default UTF8 (match t with Some t => find_encoding t | None => Some UTF8 end) with
    | ASCII | Latin1 => Ok n
    | UTF8 => let! b := utf8ToBytes e None in Ok (zlen b)
    | UCS2 => Ok (2 * n)
    | Hex => Ok (js_ushr n 1)
    | Base64E => let! b := base64ToBytes e in Ok (zlen b)
    end.

Definition toString (this : list Z) (e : string) (t n : option Z) : res jsstring :=
  let len := zlen this in
  if len =? 0 then Ok []
  else
    let t := match t with Some t => if t <? 0 then 0 else t | None => 0 end in
    if len <? t then Ok []
    else
      let n := match n with Some n => if len <? n then len else n | None => len end in
      if n <=? 0 then Ok []
      else
        let n := to_uint32 n in
        let t := to_uint32 t in
        if n <=? t then Ok []
        else
          let e := if bool_decide (e = EmptyString) then "utf8"%string else e in
          match find_encoding e with
          | Some Hex => Ok (hexSlice this t n)
          | Some UTF8 => Ok (utf8Slice this t n)
          | Some ASCII => Ok (asciiSlice this t n)
          | Some Latin1 => Ok (latin1Slice this t n)
          | Some Base64E => Ok (base64Slice this t n)
          | Some UCS2 => Ok (ucs2Slice this t n)
          | None => unknown_encoding e
          end.

(** The argument lists of [write] after the string. *)
Inductive write_args :=
| WriteAll
| WriteEnc (r : string)
| WriteAt (t : Z) (r : option string)
| WriteRange (t n : Z) (r : option string).

Definition write (this : list Z) (e : jsstring) (args : write_args) : res (list Z * Z) :=
  let '(t, n, r) :=
    match args with
    | WriteAll => (0, Some (zlen this), Some "utf8"%string)
    | WriteEnc r => (0, Some (zlen this), Some r)
    | WriteAt t r => (to_int32 t, None, r)
    | WriteRange t n r => (to_int32 t, Some (to_int32 n), Some (default "utf8"%string r))
    end in
  let o := zlen this - t in
  let n := match n with Some n => if o <? n then o else n | None => o end in
  if ((0 <? zlen e) && ((n <? 0) || (t <? 0))) || (zlen this <? t)
  then Throw (RangeError "Attempt to write outside buffer bounds")
  else
    let r := match r with
             | Some r => if bool_decide (r = EmptyString) then "utf8"%string else r
             | None => "utf8"%string
             end in
    match find_encoding r with
    | Some Hex => hexWrite this e t n
    | Some UTF8 => utf8Write this e t n
    | Some ASCII => Ok (asciiWrite this e t n)
    | Some Latin1 => Ok (latin1Write this e t n)
    | Some Base64E => base64Write this e t n
    | Some UCS2 => Ok (ucs2Write this e t n)
    | None => unknown_encoding r
    end.

Section From.
(** [Buffer.TYPED_ARRAY_SUPPORT]. *)
Context (tas : bool).

(** [Buffer.from(string, encoding)]: the bytes of the new buffer, cut to what was
    written. *)
Definition from (t : jsstring) (n : option string) : res (list Z) :=
  let n := match n with
           | Some n => if bool_decide (n = EmptyString) then "utf8"%string else n
           | None => "utf8"%string
           end in
  if negb (isEncoding n) then Throw (TypeError "'encoding' must be a valid string encoding")
  else
    let! r := byteLength t (Some n) in
    let r := to_int32 r in
    if BufferOps.kMaxLength tas <? r then Throw (RangeError "Invalid typed array length")
    else
      let! (e, o) := write (replicate (Z.to_nat r) 0) t (WriteEnc n) in
      Ok (if o =? r then e else byte_slice e 0 o).

(** [fill] with a string: a single character below 256 is the number of its code,
    any other string goes through [toString] and is encoded again as UTF-8. *)
Definition fillString (this : list Z) (e : jsstring) (t : Z) (n : option Z) (r : option string)
  : res (list Z) :=
  let value :=
    match e with
    | [o] => if o <? 256 then Some o else None
    | _ => None
    end in
  guard! match r with Some r => isEncoding r | None => true end
    else TypeError ("Unknown encoding: " +:+ default EmptyString r) in
  match value with
  | Some o => BufferOps.fill this (BufferOps.FillNum o) t n
  | None =>
      if (t <? 0) || (zlen this <? t) || match n with Some n => zlen this <? n | None => false end
      then Throw (RangeError "Out of range index")
      else if match n with Some n => n <=? t | None => false end then Ok this
      else if zlen e =? 0 then BufferOps.fill this (BufferOps.FillNum 0) t n
      else
        let! b := from e r in
        let! s := toString b "utf8" None None in
        let! a := utf8ToBytes s None in
        BufferOps.fill this (BufferOps.FillBytes a) t n
  end.

(** The second and third argument of [alloc]. *)
Inductive alloc_fill :=
| NoFill
| FillWith (v : BufferOps.fill_value)
| FillText (e : jsstring) (r : option string).

(** [Buffer.alloc]: the bytes of the new buffer. *)
Definition alloc (t : Z) (n : alloc_fill) : res (list Z) :=
  let! _ := BufferOps.assertSize t in
  if BufferOps.kMaxLength tas <? t then Throw (RangeError "Invalid typed array length")
  else
    let b := replicate (Z.to_nat t) 0 in
    if t <=? 0 then Ok b
    else match n with
         | NoFill => Ok b
         | FillWith v => BufferOps.fill b v 0 None
         | FillText e r => fillString b e 0 None r
         end.
End From.

(** [inspect]: at most 50 bytes in hexadecimal, in pairs separated by spaces. *)
Definition INSPECT_MAX_BYTES : Z := 50.

(** [match(/.{2}/g).join(" ")]. *)
Fixpoint spaced_pairs (s : jsstring) : jsstring :=
  match s with
  | a :: b :: s' => match s' with
                    | _ :: _ :: _ => a :: b :: 32 :: spaced_pairs s'
                    | _ => [a; b]
                    end
  | _ => []
  end.

Definition inspect (this : list Z) : res jsstring :=
  let n := INSPECT_MAX_BYTES in
  let! e := (if 0 <? zlen this then
               let! h := toString this "hex" (Some 0) (Some n) in
               Ok (spaced_pairs h ++ (if n <? zlen this then js " ... " else []))
             else Ok []) in
  Ok (js "<Buffer " ++ e ++ js ">").

Example inspect_3 : inspect [1; 255; 16] = Ok (js "<Buffer 01 ff 10>").
Proof. vm_compute. reflexivity. Qed.

(** ** blitBuffer *)

(** A source that fits exactly fills the rest of the target. *)
Lemma blit_fits e pre mid r :
  bytes_ok e -> length mid = length e -> zlen (pre ++ mid) <= r ->
  blitBuffer e (pre ++ mid) 0 r (zlen pre) = (pre ++ e, zlen pre + zlen e).
Proof.
  intros He. revert pre mid. induction He as [|x e Hx He IH]; intros pre mid Hl Hr.
  { destruct mid; [|done]. simpl. unfold zlen at 2. simpl. by rewrite Z.add_0_r. }
  destruct mid as [|y mid]; [done|]. simpl blitBuffer. rewrite zlen_app in *.
  assert (zlen (y :: mid) = 1 + zlen mid) as Hy by (unfold zlen; simpl; lia).
  pose proof (zlen_nonneg mid). rewrite (proj2 (Z.ltb_lt _ r)) by lia.
  rewrite (proj2 (Z.leb_gt _ _)) by lia. simpl.
  unfold st. rewrite (zset_app_at pre (y :: mid) 0) by lia.
  change (zset (y :: mid) 0 (to_uint8 x)) with (to_uint8 x :: mid).
  replace (to_uint8 x) with x by (unfold to_uint8, byte_ok in *; by rewrite Z.mod_small).
  specialize (IH (pre ++ [x]) mid). rewrite !zlen_app, <- !app_assoc in IH. simpl in IH.
  change (zlen [x]) with 1 in IH. rewrite IH; [|simpl in Hl; lia|lia].
  f_equal. unfold zlen. simpl. lia.
Qed.

Lemma blit_zeros e : bytes_ok e ->
  blitBuffer e (replicate (length e) 0) 0 (zlen e) 0 = (e, zlen e).
Proof.
  intros He. apply (blit_fits e [] (replicate (length e) 0)); [done| |].
  - by rewrite length_replicate.
  - unfold zlen. simpl. rewrite length_replicate. lia.
Qed.

(** ** hex *)

Lemma toHex_parse b : byte_ok b -> parseInt (toHex b) 16 = Num b /\ length (toHex b) = 2%nat.
Proof.
  intros Hb. apply (bool_decide_unpack (parseInt (toHex b) 16 = Num b /\ length (toHex b) = 2%nat)).
  apply Is_true_true. unfold byte_ok in Hb. assert (0 <= b < 256) as H by lia. clear Hb.
  revert b H. apply (forallb_below 256). vm_compute. reflexivity.
Qed.

Lemma length_flat_toHex b : bytes_ok b -> length (flat_map toHex b) = (2 * length b)%nat.
Proof.
  induction 1 as [|x b Hx _ IH]; [done|]. simpl. destruct (toHex_parse x Hx) as [_ Hl].
  rewrite length_app, IH. lia.
Qed.

Lemma hexSlice_all b : hexSlice b 0 (zlen b) = flat_map toHex b.
Proof.
  unfold hexSlice. simpl.
  replace (if (zlen b =? 0) || (zlen b <? 0) || (zlen b <? zlen b) then zlen b else zlen b)
    with (zlen b) by (by destruct (_ || _)).
  pose proof (zlen_nonneg b).
  rewrite (forZ_collect (fun o => toHex (default 0 o))) by lia. by rewrite zsub_all.
Qed.

Lemma hex_loop_all rest pre mid s :
  bytes_ok rest -> length mid = length rest ->
  zlen s = 2 * zlen pre ->
  hex_loop (length rest) (pre ++ mid) (s ++ flat_map toHex rest) 0 (zlen pre + zlen rest) (zlen pre)
  = (pre ++ rest, zlen pre + zlen rest).
Proof.
  intros Hb. revert pre mid s. induction Hb as [|x rest Hx Hb IH]; intros pre mid s Hl Hs.
  { destruct mid; [|done]. simpl. unfold zlen at 2. simpl. by rewrite Z.add_0_r. }
  destruct mid as [|y mid]; [done|]. cbn [hex_loop length flat_map].
  assert (zlen (x :: rest) = 1 + zlen rest) as Hz by (unfold zlen; simpl; lia).
  pose proof (zlen_nonneg rest). rewrite (proj2 (Z.ltb_lt _ _)) by lia.
  destruct (toHex_parse x Hx) as [Hp Hw].
  assert (zsub (s ++ toHex x ++ flat_map toHex rest) (2 * zlen pre) (2 * zlen pre + 2) = toHex x) as ->.
  { rewrite <- Hs. replace 2 with (zlen (toHex x)) by (unfold zlen; lia). apply zsub_app. }
  rewrite Hp. unfold st. rewrite Z.add_0_l.
  rewrite <- (Z.add_0_r (zlen pre)) at 1. rewrite (zset_app_at pre (y :: mid) 0) by lia.
  change (zset (y :: mid) 0 (to_uint8 x)) with (to_uint8 x :: mid).
  replace (to_uint8 x) with x by (unfold to_uint8, byte_ok in *; by rewrite Z.mod_small).
  specialize (IH (pre ++ [x]) mid (s ++ toHex x)). rewrite !zlen_app, <- !app_assoc in IH.
  change (zlen [x]) with 1 in IH. simpl in IH. rewrite <- Z.add_assoc in IH. rewrite Hz.
  apply IH; [simpl in Hl; lia|unfold zlen in *; lia].
Qed.

Lemma hexWrite_all b :
  bytes_ok b -> b <> [] ->
  hexWrite (replicate (length b) 0) (flat_map toHex b) 0 (zlen b) = Ok (b, zlen b).
Proof.
  intros Hb Hne. unfold hexWrite.
  assert (zlen (replicate (length b) 0) = zlen b) as -> by (unfold zlen; by rewrite length_replicate).
  assert (zlen (flat_map toHex b) = 2 * zlen b) as -> by (unfold zlen; rewrite length_flat_toHex by done; lia).
  assert (0 < zlen b) by (destruct b; [done|unfold zlen; simpl; lia]).
  rewrite Z.sub_0_r, Z.ltb_irrefl, (proj2 (Z.eqb_neq (zlen b) 0)) by lia.
  replace ((2 * zlen b) mod 2) with 0 by dlia. simpl negb. cbv iota.
  replace (2 * zlen b / 2) with (zlen b) by dlia. rewrite Z.ltb_irrefl.
  replace (Z.to_nat (zlen b)) with (length b) by (unfold zlen; lia). f_equal.
  apply (hex_loop_all b [] (replicate (length b) 0) []); [done| |done].
  by rewrite length_replicate.
Qed.

(** ** latin1, ascii, ucs2 *)

Lemma latin1Slice_all b : bytes_ok b -> latin1Slice b 0 (zlen b) = b.
Proof.
  intros Hb. unfold latin1Slice. rewrite Z.min_id. pose proof (zlen_nonneg b).
  rewrite (forZ_collect (fun o => [default 0 o mod 65536])) by lia. rewrite zsub_all. simpl.
  induction Hb as [|x b Hx _ IH]; [done|]. simpl. unfold byte_ok in Hx.
  rewrite Z.mod_small by lia. f_equal. apply IH. apply zlen_nonneg.
Qed.

Lemma asciiSlice_all b : Forall (fun c => 0 <= c < 128) b -> asciiSlice b 0 (zlen b) = b.
Proof.
  intros Hb. unfold asciiSlice, rd. rewrite Z.min_id. pose proof (zlen_nonneg b).
  rewrite (forZ_collect (fun o => [js_and 127 (nint (match o with Some z => Num z | None => Undef end)) mod 65536]))
    by lia. rewrite zsub_all. simpl.
  induction Hb as [|x b Hx _ IH]; [done|]. simpl flat_map.
  rewrite (js_and_ones_l _ 7) by lia. rewrite to_int32_small by (unfold pow31; lia).
  rewrite (Z.mod_small x) by lia. rewrite Z.mod_small by lia. simpl. f_equal. apply IH. apply zlen_nonneg.
Qed.

Lemma asciiToBytes_id s : bytes_ok s -> asciiToBytes s = s.
Proof.
  induction 1 as [|x s Hx _ IH]; [done|]. simpl. rewrite IH. f_equal.
  rewrite (js_and_ones_l _ 8) by lia. unfold byte_ok in Hx. by rewrite Z.mod_small.
Qed.

Lemma utf16le_all s t :
  units_ok s -> 2 * zlen s <= t ->
  utf16le_units (utf16leToBytes s t) = s /\ bytes_ok (utf16leToBytes s t) /\
  zlen (utf16leToBytes s t) = 2 * zlen s.
Proof.
  intros Hs. revert t. induction Hs as [|n s Hn _ IH]; intros t Ht; [split_and!; [done|constructor|done]|].
  assert (zlen (n :: s) = 1 + zlen s) as Hz by (unfold zlen; simpl; lia). pose proof (zlen_nonneg s).
  simpl utf16leToBytes. rewrite (proj2 (Z.ltb_ge _ _)) by lia. unfold unit_ok in Hn.
  rewrite (js_shr_div n 8) by (unfold pow31; lia). change (2 ^ 8) with 256.
  destruct (IH (t - 2)) as (H1 & H2 & H3); [lia|]. split_and!.
  - cbn [utf16le_units]. rewrite H1. f_equal. dlia.
  - repeat (constructor; [unfold byte_ok; dlia|]). done.
  - unfold zlen in *. simpl length. lia.
Qed.

Lemma byte_slice_all b : zlen b < pow31 -> byte_slice b 0 (zlen b) = b.
Proof.
  intros Hb. pose proof (zlen_nonneg b). unfold byte_slice.
  assert (BufferOps.slice_bounds (zlen b) 0 (Some (zlen b)) = (0, zlen b)) as ->; [|apply zsub_all].
  unfold BufferOps.slice_bounds. rewrite !to_int32_small by (unfold pow31 in *; lia).
  unfold BufferOps.clamp. repeat case_match; f_equal; lia.
Qed.

(** ** base64 *)

Lemma base64_char_sextet i : 0 <= i < 64 -> base64_char (Base64.sextet i) = true.
Proof. revert i. apply (forallb_below 64). vm_compute. reflexivity. Qed.

Lemma base64_char_space c : base64_char c = true -> is_space c = false.
Proof. unfold base64_char, is_space. lia. Qed.

Lemma filter_sextets l :
  Forall (fun i => 0 <= i < 64) l ->
  List.filter base64_char (map Base64.sextet l) = map Base64.sextet l /\
  Forall (fun c => is_space c = false) (map Base64.sextet l).
Proof.
  induction 1 as [|i l Hi _ [IH1 IH2]]; [done|]. simpl.
  pose proof (base64_char_sextet i Hi) as Hc. rewrite Hc, IH1. split; [done|].
  constructor; [by apply base64_char_space|done].
Qed.

Lemma filter_pad k : List.filter base64_char (replicate k 61) = [].
Proof. induction k as [|k IH]; [done|]. apply IH. Qed.

Lemma pad4_fill e pad :
  (pad <= 2)%nat -> (zlen e + Z.of_nat pad) mod 4 = 0 -> pad4 3 e = e ++ replicate pad 61.
Proof.
  intros Hp Hm. unfold pad4.
  assert (forall k, zlen (e ++ replicate k 61) = zlen e + Z.of_nat k) as Hz
    by (intros; rewrite zlen_app; unfold zlen at 2; rewrite length_replicate; lia).
  pose proof (Hz 1%nat) as H1. pose proof (Hz 2%nat) as H2.
  change (replicate 2 61) with ([61] ++ [61]) in H2. change (replicate 1 61) with [61] in H1.
  rewrite app_assoc in H2.
  destruct pad as [|[|[|pad]]]; [| | |lia].
  - rewrite Z.add_0_r in Hm. rewrite Hm. simpl. by rewrite app_nil_r.
  - rewrite (proj2 (Z.eqb_neq (zlen e mod 4) 0)) by dlia. rewrite H1, Hm. done.
  - rewrite (proj2 (Z.eqb_neq (zlen e mod 4) 0)) by dlia.
    rewrite H1, (proj2 (Z.eqb_neq _ 0)) by dlia. rewrite H2, Hm. simpl. by rewrite <- app_assoc.
Qed.

(** Cleaning takes the padding off and puts it back. *)
Lemma base64clean_encoded bs : bytes_ok bs -> base64clean (Base64.ref_encode bs) = Base64.ref_encode bs.
Proof.
  intros Hb. destruct (Base64.ref_encode_sextets bs) as (pad & Hp & He & Hm & Hl).
  destruct (filter_sextets (Base64.sextets bs) (Base64.sextets_range bs Hb)) as [Hf Hs].
  unfold base64clean. rewrite He, trim_id.
  - rewrite List.filter_app, Hf, filter_pad, app_nil_r.
    assert (zlen (map Base64.sextet (Base64.sextets bs)) = zlen (Base64.sextets bs)) as Hz
      by (unfold zlen; by rewrite length_map).
    destruct (decide (bs = [])) as [->|Hne].
    + simpl. simpl in Hm. by destruct pad as [|[|[|pad]]].
    + rewrite Hz, (proj2 (Z.ltb_ge _ _)) by (by apply Hl). apply pad4_fill; [done|]. by rewrite Hz.
  - apply Forall_app. split; [done|]. by apply Forall_replicate.
Qed.

Lemma base64ToBytes_encoded bs : bytes_ok bs -> base64ToBytes (Base64.fromByteArray bs) = Ok bs.
Proof.
  intros Hb. unfold base64ToBytes. rewrite Base64.encode_is_ref, base64clean_encoded by done.
  by apply Base64.toByteArray_ref.
Qed.

(** ** The switches *)

Lemma encoding_case_inv n k :
  encoding_case n = Some k ->
  In n ["hex"; "utf8"; "utf-8"; "ascii"; "latin1"; "binary"; "base64"; "ucs2"; "ucs-2"; "utf16le"; "utf-16le"]%string.
Proof.
  unfold encoding_case. intros H. repeat case_bool_decide; simplify_eq; simpl; intuition.
Qed.

Lemma encoding_name n k :
  find_encoding n = Some k -> isEncoding n = true /\ n <> EmptyString.
Proof.
  unfold find_encoding, isEncoding. destruct (encoding_case n) eqn:E; intros H.
  - apply encoding_case_inv in E. clear H.
    repeat (destruct E as [<-|E]; [split; [reflexivity|discriminate]|]). done.
  - rewrite H. split; [done|]. intros ->. done.
Qed.

(** What [toString] calls on the whole buffer, and what [write] calls. *)
Definition slice_all (k : encoding) (b : list Z) : jsstring :=
  match k with
  | Hex => hexSlice b 0 (zlen b)
  | UTF8 => utf8Slice b 0 (zlen b)
  | ASCII => asciiSlice b 0 (zlen b)
  | Latin1 => latin1Slice b 0 (zlen b)
  | Base64E => base64Slice b 0 (zlen b)
  | UCS2 => ucs2Slice b 0 (zlen b)
  end.

Definition writer (k : encoding) (this : list Z) (e : jsstring) (t n : Z) : res (list Z * Z) :=
  match k with
  | Hex => hexWrite this e t n
  | UTF8 => utf8Write this e t n
  | ASCII => Ok (asciiWrite this e t n)
  | Latin1 => Ok (latin1Write this e t n)
  | Base64E => base64Write this e t n
  | UCS2 => Ok (ucs2Write this e t n)
  end.

Lemma toString_all b n k :
  find_encoding n = Some k -> zlen b < pow32 -> toString b n None None = Ok (slice_all k b).
Proof.
  intros Hk Hb. destruct (encoding_name n k Hk) as [_ Hn]. pose proof (zlen_nonneg b).
  unfold toString. destruct (Z.eqb_spec (zlen b) 0) as [Hz|].
  { assert (b = []) as -> by (destruct b; [done|unfold zlen in Hz; simpl in Hz; lia]). by destruct k. }
  rewrite (proj2 (Z.ltb_ge (zlen b) 0)), (proj2 (Z.leb_gt (zlen b) 0)) by lia.
  rewrite !to_uint32_small by (unfold pow32 in *; lia). rewrite (proj2 (Z.leb_gt (zlen b) 0)) by lia.
  rewrite bool_decide_false, Hk by done. by destruct k.
Qed.

Lemma from_of_write tas s n k b :
  find_encoding n = Some k -> zlen b <= BufferOps.kMaxLength tas ->
  byteLength s (Some n) = Ok (zlen b) ->
  writer k (replicate (length b) 0) s 0 (zlen b) = Ok (b, zlen b) ->
  from tas s (Some n) = Ok b.
Proof.
  intros Hk Hmax Hlen Hw. destruct (encoding_name n k Hk) as [Hn Hne]. pose proof (zlen_nonneg b).
  unfold from. rewrite bool_decide_false, Hn, Hlen by done. cbn [res_bind negb].
  rewrite to_int32_small by (unfold pow31; destruct tas; simpl in Hmax; lia).
  rewrite (proj2 (Z.ltb_ge _ (zlen b))) by done.
  replace (Z.to_nat (zlen b)) with (length b) by (unfold zlen; lia).
  unfold write. assert (zlen (replicate (length b) 0) = zlen b) as -> by (unfold zlen; by rewrite length_replicate).
  rewrite Z.sub_0_r, Z.ltb_irrefl, (proj2 (Z.ltb_ge (zlen b) 0)) by lia. simpl orb. rewrite andb_false_r.
  simpl orb. cbv iota. rewrite bool_decide_false, Hk by done.
  change (match k with Hex => _ | _ => _ end) with (writer k (replicate (length b) 0) s 0 (zlen b)).
  rewrite Hw. cbn [res_bind]. by rewrite Z.eqb_refl.
Qed.

Lemma byteLength_case s n k :
  find_encoding n = Some k ->
  byteLength s (Some n) =
    if zlen s =? 0 then Ok 0
    else match k with
         | ASCII | Latin1 => Ok (zlen s)
         | UTF8 => let! b := utf8ToBytes s None in Ok (zlen b)
         | UCS2 => Ok (2 * zlen s)
         | Hex => Ok (js_ushr (zlen s) 1)
         | Base64E => let! b := base64ToBytes s in Ok (zlen b)
         end.
Proof. intros Hk. unfold byteLength. by rewrite Hk. Qed.

(** ** Round trips through a buffer *)

Lemma fitting_all t cs : zlen (flat_map utf8_ref cs) <= t -> fitting (Some t) cs = cs.
Proof.
  revert t. induction cs as [|c cs IH]; intros t Ht; [done|]. simpl in *.
  rewrite zlen_app in Ht. pose proof (zlen_nonneg (flat_map utf8_ref cs)).
  rewrite (proj2 (Z.ltb_ge _ _)) by lia. by rewrite IH by lia.
Qed.

Lemma flat_utf8_bytes cs : Forall scalar cs -> bytes_ok (flat_map utf8_ref cs).
Proof.
  induction 1 as [|c cs Hc _ IH]; simpl; [constructor|]. apply Forall_app. split; [|done].
  apply utf8_ref_bytes. unfold scalar in Hc. lia.
Qed.

Lemma length_scalars s : zlen (scalars s) <= zlen s.
Proof.
  unfold zlen. induction s as [|n s Hn IH|n Hn|n m s Hn Hm IH|n m s Hn Hm IH] using units_ind.
  - done.
  - simpl. rewrite Hn. simpl. lia.
  - simpl. rewrite Hn. simpl. lia.
  - rewrite scalars_pair by done. simpl. lia.
  - rewrite scalars_lone by done. simpl in *. lia.
Qed.

Lemma length_flat_utf8 cs : zlen (flat_map utf8_ref cs) <= 4 * zlen cs.
Proof.
  induction cs as [|c cs IH]; [done|]. simpl. rewrite zlen_app. pose proof (zlen_utf8_ref c).
  assert (zlen (c :: cs) = 1 + zlen cs) as -> by (unfold zlen; simpl; lia). lia.
Qed.

Lemma length_effective s : zlen (effective s) <= zlen s.
Proof.
  unfold zlen. induction s as [|x s IH]; [done|]. simpl effective.
  destruct s as [|y [|z s]]; [done|destruct (is_lead x && is_lead y); simpl; lia|].
  simpl length in *. lia.
Qed.

Section RoundTrip.
Context (tas : bool) (n : string).

Lemma from_utf8 s :
  find_encoding n = Some UTF8 -> units_ok s -> 4 * zlen s <= BufferOps.kMaxLength tas ->
  let b := flat_map utf8_ref (scalars (effective s)) in
  from tas s (Some n) = Ok b /\ byteLength s (Some n) = Ok (zlen b).
Proof.
  intros Hn Hs Hmax b.
  assert (utf8ToBytes s None = Ok b) as Hb
    by (unfold utf8ToBytes; rewrite utf8_loop_ref by done; simpl; by rewrite fitting_None).
  assert (byteLength s (Some n) = Ok (zlen b)) as Hl.
  { rewrite (byteLength_case s n UTF8) by done. rewrite Hb. destruct (Z.eqb_spec (zlen s) 0) as [Hz|]; [|done].
    assert (s = []) as -> by (destruct s; [done|unfold zlen in Hz; simpl in Hz; lia]). done. }
  split; [|done]. pose proof (length_flat_utf8 (scalars (effective s))).
  pose proof (length_scalars (effective s)). pose proof (length_effective s).
  apply (from_of_write tas s n UTF8); [done|subst b; lia|done|].
  simpl. unfold utf8Write, utf8ToBytes. rewrite utf8_loop_ref by done. simpl option_list.
  assert (zlen (replicate (length b) 0) - 0 = zlen b) as ->
    by (unfold zlen; rewrite length_replicate; lia).
  cbn [res_bind app].
  assert (fitting (to_limit (Some (zlen b))) (scalars (effective s)) = scalars (effective s)) as ->.
  { simpl. destruct (zlen b =? 0); [by apply fitting_None|]. by apply fitting_all. }
  f_equal. apply blit_zeros. apply flat_utf8_bytes, scalars_scalar. by apply effective_units.
Qed.

Lemma from_ucs2 s :
  find_encoding n = Some UCS2 -> units_ok s -> 4 * zlen s <= BufferOps.kMaxLength tas ->
  let b := utf16leToBytes s (2 * zlen s) in
  from tas s (Some n) = Ok b /\ byteLength s (Some n) = Ok (zlen b).
Proof.
  intros Hn Hs Hmax b. destruct (utf16le_all s (2 * zlen s)) as (_ & Hok & Hlen); [done|lia|].
  fold b in Hok, Hlen. pose proof (zlen_nonneg s).
  assert (byteLength s (Some n) = Ok (zlen b)) as Hl.
  { rewrite (byteLength_case s n UCS2) by done. rewrite Hlen.
    by destruct (Z.eqb_spec (zlen s) 0) as [->|]. }
  split; [|done]. apply (from_of_write tas s n UCS2); [done|lia|done|].
  simpl. unfold ucs2Write.
  assert (zlen (replicate (length b) 0) - 0 = 2 * zlen s) as ->
    by (rewrite <- Hlen; unfold zlen; rewrite length_replicate; lia).
  f_equal. by apply blit_zeros.
Qed.

Lemma from_latin1 s k :
  find_encoding n = Some k -> k = Latin1 \/ k = ASCII -> bytes_ok s -> zlen s <= BufferOps.kMaxLength tas ->
  from tas s (Some n) = Ok s /\ byteLength s (Some n) = Ok (zlen s).
Proof.
  intros Hn Hk Hs Hmax.
  assert (byteLength s (Some n) = Ok (zlen s)) as Hl.
  { rewrite (byteLength_case s n k) by done. destruct (Z.eqb_spec (zlen s) 0) as [->|]; [done|].
    by destruct Hk as [-> | ->]. }
  split; [|done]. apply (from_of_write tas s n k); [done..|].
  assert (asciiWrite (replicate (length s) 0) s 0 (zlen s) = (s, zlen s)) as Hw
    by (unfold asciiWrite; rewrite asciiToBytes_id by done; by apply blit_zeros).
  destruct Hk as [-> | ->]; simpl; unfold latin1Write; by rewrite Hw.
Qed.

Lemma from_hex b :
  find_encoding n = Some Hex -> bytes_ok b -> zlen b <= BufferOps.kMaxLength tas ->
  from tas (flat_map toHex b) (Some n) = Ok b.
Proof.
  intros Hn Hb Hmax. destruct (decide (b = [])) as [->|Hne].
  { simpl. apply (from_of_write tas [] n Hex []); [done|done|by rewrite (byteLength_case [] n Hex)|done]. }
  apply (from_of_write tas _ n Hex); [done..| |by apply hexWrite_all].
  rewrite (byteLength_case _ n Hex) by done.
  assert (zlen (flat_map toHex b) = 2 * zlen b) as -> by (unfold zlen; rewrite length_flat_toHex by done; lia).
  assert (0 < zlen b) by (destruct b; [done|unfold zlen; simpl; lia]).
  rewrite (proj2 (Z.eqb_neq _ _)) by lia.
  rewrite js_ushr_div by (unfold pow32; destruct tas; simpl in Hmax; lia).
  f_equal. dlia.
Qed.

Lemma from_base64 b :
  find_encoding n = Some Base64E -> bytes_ok b -> zlen b <= BufferOps.kMaxLength tas ->
  from tas (Base64.fromByteArray b) (Some n) = Ok b.
Proof.
  intros Hn Hb Hmax. pose proof (base64ToBytes_encoded b Hb) as Hd.
  apply (from_of_write tas _ n Base64E); [done..| |].
  - rewrite (byteLength_case _ n Base64E) by done. rewrite Hd. cbn [res_bind].
    destruct (Z.eqb_spec (zlen (Base64.fromByteArray b)) 0) as [Hz|]; [|done].
    destruct (Base64.fromByteArray b); [|unfold zlen in Hz; simpl in Hz; lia].
    vm_compute in Hd. by simplify_eq.
  - simpl. unfold base64Write. rewrite Hd. cbn [res_bind]. by rewrite blit_zeros.
Qed.
End RoundTrip.

(** The strings an encoding keeps. *)
Definition text_ok (k : encoding) (s : jsstring) : Prop :=
  match k with
  | UTF8 => units_ok s /\ well_formed s = true
  | UCS2 => units_ok s
  | Latin1 => bytes_ok s
  | ASCII => Forall (fun c => 0 <= c < 128) s
  | Hex | Base64E => False
  end.

(** C38: a text that an encoding can represent (no lone surrogates in UTF-8, codes
    below 256 in latin1, below 128 in ascii, anything in ucs2) is what [toString]
    of its buffer returns, under any name of the encoding and in any case, and
    [byteLength] is the length of that buffer. *)
Theorem text_roundtrip tas n k s :
  find_encoding n = Some k -> text_ok k s -> 4 * zlen s <= BufferOps.kMaxLength tas ->
  exists b, from tas s (Some n) = Ok b /\ byteLength s (Some n) = Ok (zlen b) /\
    toString b n None None = Ok s.
Proof.
  intros Hn Hs Hmax. pose proof (zlen_nonneg s).
  assert (4 * zlen s < pow31) as Hsmall by (unfold pow31; destruct tas; simpl in Hmax; lia).
  destruct k; simpl in Hs; try done.
  - destruct Hs as [Hu Hw]. destruct (from_utf8 tas n s) as [Hf Hl]; [done..|].
    eexists. split; [done|]. split; [done|]. rewrite (toString_all _ n UTF8) by
      (done || unfold pow31, pow32 in *; pose proof (length_flat_utf8 (scalars (effective s)));
       pose proof (length_scalars (effective s)); pose proof (length_effective s); lia).
    simpl. f_equal. rewrite well_formed_effective by done.
    rewrite utf8Slice_ref by (by apply scalars_scalar). by apply well_formed_utf16.
  - assert (bytes_ok s) as Hb by (refine (List.Forall_impl _ _ Hs); unfold byte_ok; simpl; lia).
    destruct (from_latin1 tas n s ASCII) as [Hf Hl]; try done; [by right|lia|].
    exists s. split; [done|]. split; [done|].
    rewrite (toString_all _ n ASCII) by (done || unfold pow31, pow32 in *; lia). simpl. f_equal.
    by apply asciiSlice_all.
  - destruct (from_latin1 tas n s Latin1) as [Hf Hl]; try done; [by left|lia|].
    exists s. split; [done|]. split; [done|].
    rewrite (toString_all _ n Latin1) by (done || unfold pow31, pow32 in *; lia). simpl. f_equal.
    by apply latin1Slice_all.
  - destruct (from_ucs2 tas n s) as [Hf Hl]; try done.
    destruct (utf16le_all s (2 * zlen s)) as (Hu & _ & Hlen); [done|lia|].
    eexists. split; [done|]. split; [done|].
    rewrite (toString_all _ n UCS2) by (done || unfold pow31, pow32 in *; lia). simpl. f_equal.
    unfold ucs2Slice. by rewrite byte_slice_all by lia.
Qed.

Lemma text_roundtrip_witness :
  exists b, from true [233; 8364; 55357; 56832] (Some "UTF-8"%string) = Ok b /\
    byteLength [233; 8364; 55357; 56832] (Some "UTF-8"%string) = Ok (zlen b) /\
    toString b "UTF-8" None None = Ok [233; 8364; 55357; 56832].
Proof.
  apply (text_roundtrip true "UTF-8" UTF8); [reflexivity| |concrete].
  split; [repeat constructor; concrete|reflexivity].
Defined.

(** Any bytes survive [toString] and [Buffer.from] in hex, latin1 and base64,
    under any name of the encoding. *)
Theorem bytes_roundtrip tas n k b :
  find_encoding n = Some k -> k = Hex \/ k = Latin1 \/ k = Base64E ->
  bytes_ok b -> zlen b <= BufferOps.kMaxLength tas ->
  exists s, toString b n None None = Ok s /\ from tas s (Some n) = Ok b.
Proof.
  intros Hn Hk Hb Hmax. assert (zlen b < pow32) by (unfold pow32; destruct tas; simpl in Hmax; lia).
  eexists. split; [by apply toString_all|]. destruct Hk as [-> | [-> | ->]]; simpl.
  - rewrite hexSlice_all. by apply from_hex.
  - rewrite latin1Slice_all by done. apply (from_latin1 tas n b Latin1); auto.
  - unfold base64Slice. rewrite !Z.eqb_refl. by apply from_base64.
Qed.

Lemma bytes_roundtrip_witness :
  exists s, toString [222; 173; 190] "base64" None None = Ok s /\ from true s (Some "base64"%string) = Ok [222; 173; 190].
Proof.
  apply (bytes_roundtrip true "base64" Base64E); [reflexivity|by right; right| |concrete].
  repeat constructor; concrete.
Defined.

(** [fill] with a string decodes it in its encoding, turns the bytes into text
    and encodes that as UTF-8, so bytes that are not UTF-8 become U+FFFD: filling
    with "ffaa" in hex stores EF BF BD, not FF AA. *)
Theorem fill_hex_mangled :
  from true (js "ffaa") (Some "hex"%string) = Ok [255; 170] /\
  fillString true [0; 0; 0; 0] (js "ffaa") 0 None (Some "hex"%string) = Ok [239; 191; 189; 239] /\
  alloc true 2 (FillText (js "ff") (Some "hex"%string)) = Ok [239; 191].
Proof. vm_compute. done. Qed.

End BufferText.
