(* ===== verification/StringDecoder.v ===== *)
(** * string_decoder

    Models lines 10563 to 10713 of src/client/docs/swagger-ui/swagger-ui-bundle.js:
    [StringDecoder], which turns the chunks of a byte stream into text and keeps the
    bytes of a character that is cut by the end of a chunk.  A chunk is the list of its
    bytes; the decoder is a record, passed and returned by its methods.  [copy] and
    [toString] are those of BufferOps and BufferText. *)

From S2P Require Import Prelude JsString Base64 BufferInt BufferOps Utf8 BufferText.
From Stdlib Require Import String.
From stdpp Require Import base numbers list strings option gmap.
Open Scope Z_scope.

Module StringDecoder.
Import Utf8 BufferText.

(** ** The encoding *)

(** The cases of [_normalizeEncoding]. *)
Definition normal_case (e : string) : option string :=
  if bool_decide (e = "utf8"%string \/ e = "utf-8"%string) then Some "utf8"%string
  else if bool_decide (e = "ucs2"%string \/ e = "ucs-2"%string \/ e = "utf16le"%string \/ e = "utf-16le"%string)
       then Some "utf16le"%string
  else if bool_decide (e = "latin1"%string \/ e = "binary"%string) then Some "latin1"%string
  else if bool_decide (e = "base64"%string \/ e = "ascii"%string \/ e = "hex"%string) then Some e
  else None.

(** The loop runs a second time on the name in lower case. *)
Definition _normalizeEncoding (e : string) : option string :=
  if bool_decide (e = EmptyString) then Some "utf8"%string
  else match normal_case e with
       | Some t => Some t
       | None => normal_case (lower e)
       end.

(** [isEncoding] is Buffer's, so a name that is not normalized throws. *)
Definition normalizeEncoding (e : string) : res string :=
  match _normalizeEncoding e with
  | Some t => Ok t
  | None => Throw (JsError ("Unknown encoding: " +:+ e))
  end.

Record decoder := Decoder {
  encoding : string;
  lastNeed : Z;
  lastTotal : Z;
  lastChar : list Z
}.

Definition with_last (d : decoder) (need total : Z) (char : list Z) : decoder :=
  Decoder (encoding d) need total char.
Definition with_need (d : decoder) (need : Z) : decoder := with_last d need (lastTotal d) (lastChar d).

(** The constructor; the encodings of the default case keep no bytes. *)
Definition StringDecoder (e : string) : res decoder :=
  let! t := normalizeEncoding e in
  if bool_decide (t = "utf16le"%string \/ t = "utf8"%string) then Ok (Decoder t 0 0 (replicate 4 0))
  else if bool_decide (t = "base64"%string) then Ok (Decoder t 0 0 (replicate 3 0))
  else Ok (Decoder t 0 0 []).

Section Methods.
(** Whether typed arrays are there. *)
Context (tas : bool).

(** [e.copy(this.lastChar, t, n, r)]: two buffers, of which the second is changed. *)
Definition copy_last (d : decoder) (e : list Z) (t n : Z) (r : option Z) : res decoder :=
  let! (m, _) := BufferOps.copy tas {[ 0%nat := e; 1%nat := lastChar d ]}
                   (BufferOps.View 0 0 0 (zlen e)) (BufferOps.View 1 1 0 (zlen (lastChar d))) t n r in
  Ok (with_last d (lastNeed d) (lastTotal d) (default [] (m !! 1%nat))).

(** ** UTF-8 *)

(** The number of bytes of the character that starts with a byte. *)
Definition utf8CheckByte (e : Z) : Z :=
  if e <=? 127 then 0
  else if js_shr e 5 =? 6 then 2
  else if js_shr e 4 =? 14 then 3
  else if js_shr e 3 =? 30 then 4
  else if js_shr e 6 =? 2 then -1
  else -2.

(** The size of the character that the last bytes of [t] leave incomplete, and the
    new [lastNeed] if it is set. *)
Definition utf8CheckIncomplete (t : list Z) (n : Z) : Z * option Z :=
  let r := zlen t - 1 in
  if r <? n then (0, None)
  else
    let o := utf8CheckByte (byte_at t r) in
    if 0 <=? o then (o, if 0 <? o then Some (o - 1) else None)
    else
      let r := r - 1 in
      if (r <? n) || (o =? -2) then (0, None)
      else
        let o := utf8CheckByte (byte_at t r) in
        if 0 <=? o then (o, if 0 <? o then Some (o - 2) else None)
        else
          let r := r - 1 in
          if (r <? n) || (o =? -2) then (0, None)
          else
            let o := utf8CheckByte (byte_at t r) in
            if 0 <=? o then
              if 0 <? o then if o =? 2 then (0, None) else (o, Some (o - 3))
              else (o, None)
            else (0, None).

Definition utf8Text (d : decoder) (e : list Z) (t : Z) : res (decoder * jsstring) :=
  let '(n, need) := utf8CheckIncomplete e t in
  let d := with_need d (default (lastNeed d) need) in
  if lastNeed d =? 0 then let! s := toString e "utf8" (Some t) None in Ok (d, s)
  else
    let d := with_last d (lastNeed d) n (lastChar d) in
    let r := zlen e - (n - lastNeed d) in
    let! d := copy_last d e 0 r None in
    let! s := toString e "utf8" (Some t) (Some r) in
    Ok (d, s).

(** The replacement character and the new [lastNeed], if one of the next bytes is
    not a continuation. *)
Definition utf8CheckExtraBytes (d : decoder) (t : list Z) : option Z :=
  if negb (continuation (byte_at t 0)) then Some 0
  else if (1 <? lastNeed d) && (1 <? zlen t) then
    if negb (continuation (byte_at t 1)) then Some 1
    else if (2 <? lastNeed d) && (2 <? zlen t) && negb (continuation (byte_at t 2)) then Some 2
    else None
  else None.

Definition fill_last (d : decoder) (e : list Z) (t : Z) : res (decoder * option jsstring) :=
  if lastNeed d <=? zlen e then
    let! d := copy_last d e t 0 (Some (lastNeed d)) in
    let! s := toString (lastChar d) (encoding d) (Some 0) (Some (lastTotal d)) in
    Ok (d, Some s)
  else
    let! d := copy_last d e t 0 (Some (zlen e)) in
    Ok (with_need d (lastNeed d - zlen e), None).

Definition utf8FillLast (d : decoder) (e : list Z) : res (decoder * option jsstring) :=
  let t := lastTotal d - lastNeed d in
  match utf8CheckExtraBytes d e with
  | Some need => Ok (with_need d need, Some [65533])
  | None => fill_last d e t
  end.

(** ** UTF-16 and base64 *)

Definition utf16Text (d : decoder) (e : list Z) (t : Z) : res (decoder * jsstring) :=
  if Z.rem (zlen e - t) 2 =? 0 then
    let! n := toString e "utf16le" (Some t) None in
    if 0 <? zlen n then
      let r := default 0 (zget n (zlen n - 1)) in
      if (55296 <=? r) && (r <=? 56319) then
        let c := zset (lastChar d) 0 (byte_at e (zlen e - 2)) in
        let c := zset c 1 (byte_at e (zlen e - 1)) in
        Ok (with_last d 2 4 c, zsub n 0 (zlen n - 1))
      else Ok (d, n)
    else Ok (d, n)
  else
    let c := zset (lastChar d) 0 (byte_at e (zlen e - 1)) in
    let! s := toString e "utf16le" (Some t) (Some (zlen e - 1)) in
    Ok (with_last d 1 2 c, s).

Definition base64Text (d : decoder) (e : list Z) (t : Z) : res (decoder * jsstring) :=
  let n := Z.rem (zlen e - t) 3 in
  if n =? 0 then let! s := toString e "base64" (Some t) None in Ok (d, s)
  else
    let c := if n =? 1 then zset (lastChar d) 0 (byte_at e (zlen e - 1))
             else zset (zset (lastChar d) 0 (byte_at e (zlen e - 2))) 1 (byte_at e (zlen e - 1)) in
    let! s := toString e "base64" (Some t) (Some (zlen e - n)) in
    Ok (with_last d (3 - n) 3 c, s).

(** ** The methods, as the constructor binds them *)

Definition fillLast (d : decoder) (e : list Z) : res (decoder * option jsstring) :=
  if bool_decide (encoding d = "utf8"%string) then utf8FillLast d e
  else fill_last d e (lastTotal d - lastNeed d).

Definition text (d : decoder) (e : list Z) (t : Z) : res (decoder * jsstring) :=
  if bool_decide (encoding d = "utf16le"%string) then utf16Text d e t
  else if bool_decide (encoding d = "base64"%string) then base64Text d e t
  else utf8Text d e t.

Definition buffered (d : decoder) : bool :=
  bool_decide (encoding d = "utf16le"%string \/ encoding d = "utf8"%string \/ encoding d = "base64"%string).

Definition simpleWrite (d : decoder) (e : list Z) : res (decoder * jsstring) :=
  let! s := toString e (encoding d) None None in Ok (d, s).

Definition write (d : decoder) (e : list Z) : res (decoder * jsstring) :=
  if negb (buffered d) then simpleWrite d e
  else if zlen e =? 0 then Ok (d, [])
  else
    let! (d, t, n) :=
      if negb (lastNeed d =? 0) then
        let! (d, t) := fillLast d e in
        match t with
        | None => Ok (d, None, 0)
        | Some t => Ok (with_need d 0, Some t, lastNeed d)
        end
      else Ok (d, Some [], 0) in
    match t with
    | None => Ok (d, [])
    | Some t =>
        if n <? zlen e then let! (d, s) := text d e n in Ok (d, t ++ s)
        else Ok (d, t)
    end.

(** [e && e.length ? this.write(e) : ""]. *)
Definition simpleEnd (d : decoder) (e : option (list Z)) : res (decoder * jsstring) :=
  match e with
  | Some e => if zlen e =? 0 then Ok (d, []) else write d e
  | None => Ok (d, [])
  end.

Definition utf16End (d : decoder) (e : option (list Z)) : res (decoder * jsstring) :=
  let! (d, t) := simpleEnd d e in
  if lastNeed d =? 0 then Ok (d, t)
  else
    let n := lastTotal d - lastNeed d in
    let! s := toString (lastChar d) "utf16le" (Some 0) (Some n) in Ok (d, t ++ s).

Definition base64End (d : decoder) (e : option (list Z)) : res (decoder * jsstring) :=
  let! (d, t) := simpleEnd d e in
  if lastNeed d =? 0 then Ok (d, t)
  else let! s := toString (lastChar d) "base64" (Some 0) (Some (3 - lastNeed d)) in Ok (d, t ++ s).

Definition utf8End (d : decoder) (e : option (list Z)) : res (decoder * jsstring) :=
  let! (d, t) := simpleEnd d e in
  if lastNeed d =? 0 then Ok (d, t) else Ok (d, t ++ [65533]).

Definition end_ (d : decoder) (e : option (list Z)) : res (decoder * jsstring) :=
  if bool_decide (encoding d = "utf16le"%string) then utf16End d e
  else if bool_decide (encoding d = "base64"%string) then base64End d e
  else if bool_decide (encoding d = "utf8"%string) then utf8End d e
  else simpleEnd d e.

(** A stream: a [write] for every chunk, then [end]. *)
Fixpoint write_all (d : decoder) (chunks : list (list Z)) : res (decoder * jsstring) :=
  match chunks with
  | [] => Ok (d, [])
  | e :: chunks =>
      let! (d, s) := write d e in
      let! (d, s') := write_all d chunks in
      Ok (d, s ++ s')
  end.

Definition decode (e : string) (chunks : list (list Z)) : res jsstring :=
  let! d := StringDecoder e in
  let! (d, s) := write_all d chunks in
  let! (_, s') := end_ d None in
  Ok (s ++ s').

End Methods.

(** ** Buffers that are parts of others *)

Lemma zget_mid {A} (pre mid post : list A) j :
  0 <= j < zlen mid -> zget (pre ++ mid ++ post) (zlen pre + j) = zget mid j.
Proof. intros Hj. rewrite zget_app_at, zget_app_l by lia. done. Qed.

Lemma byte_at_mid pre mid post j :
  0 <= j < zlen mid -> byte_at (pre ++ mid ++ post) (zlen pre + j) = byte_at mid j.
Proof. intros Hj. unfold byte_at, rd. by rewrite zget_mid. Qed.

Lemma decode_point_mid pre mid post o l f :
  0 <= o -> o + f <= zlen mid -> f = 1 \/ f = 2 \/ f = 3 \/ f = 4 ->
  decode_point (pre ++ mid ++ post) (zlen pre + o) l f = decode_point mid o l f.
Proof.
  intros Ho Hf Hcase. unfold decode_point. destruct Hcase as [->|[->|[->| ->]]]; simpl Z.eqb; cbv iota; [done|..];
    rewrite <- !Z.add_assoc, !byte_at_mid by lia; done.
Qed.

Lemma width_cases l : width l = 1 \/ width l = 2 \/ width l = 3 \/ width l = 4.
Proof. unfold width. repeat case_match; auto. Qed.

(** The decoder of a range sees nothing of the bytes around it. *)
Lemma decode_step_mid pre mid post o :
  0 <= o < zlen mid ->
  decode_step (pre ++ mid ++ post) (zlen pre + o) (zlen pre + zlen mid)
  = let '(r, o') := decode_step mid o (zlen mid) in (r, zlen pre + o').
Proof.
  intros Ho. unfold decode_step. rewrite byte_at_mid by lia. set (l := byte_at mid o).
  pose proof (width_cases l) as Hw. pose proof (zlen_nonneg pre) as Hp.
  rewrite (proj2 (Z.leb_le 0 o)), (proj2 (Z.leb_le 0 (zlen pre + o))) by lia. cbn [andb].
  destruct (Z.leb_spec (zlen pre + o + width l) (zlen pre + zlen mid)), (Z.leb_spec (o + width l) (zlen mid)); try lia.
  - rewrite decode_point_mid by (done || lia).
    destruct (decode_point mid o l (width l)) as [c|]; [|by rewrite Z.add_assoc].
    destruct (65535 <? c); by rewrite Z.add_assoc.
  - by rewrite Z.add_assoc.
Qed.

Lemma decode_step_advances e o n : o < (decode_step e o n).2.
Proof.
  unfold decode_step. pose proof (width_cases (byte_at e o)).
  repeat case_match; simpl; lia.
Qed.

Lemma utf8_decode_loop_mid fuel pre mid post o :
  0 <= o ->
  utf8_decode_loop fuel (pre ++ mid ++ post) (zlen pre + o) (zlen pre + zlen mid)
  = utf8_decode_loop fuel mid o (zlen mid).
Proof.
  revert o. induction fuel as [|fuel IH]; intros o Ho; [done|]. simpl.
  destruct (Z.ltb_spec (zlen pre + o) (zlen pre + zlen mid)), (Z.ltb_spec o (zlen mid)); try lia; [|done].
  rewrite decode_step_mid by lia. pose proof (decode_step_advances mid o (zlen mid)) as Ha.
  destruct (decode_step mid o (zlen mid)) as [r o']. simpl in Ha. by rewrite IH by lia.
Qed.

Lemma utf8Slice_mid pre mid post :
  utf8Slice (pre ++ mid ++ post) (zlen pre) (zlen pre + zlen mid) = utf8Slice mid 0 (zlen mid).
Proof.
  pose proof (zlen_nonneg post). unfold utf8Slice. rewrite !zlen_app, Z.min_r, Z.min_id by lia.
  pose proof (utf8_decode_loop_mid (Z.to_nat (zlen mid - 0)) pre mid post 0) as Hl.
  rewrite Z.add_0_r in Hl. replace (zlen pre + zlen mid - zlen pre) with (zlen mid - 0) by lia.
  by rewrite Hl by lia.
Qed.

Lemma clamp_inside x r : 0 <= x <= r -> BufferOps.clamp x r = x.
Proof. intros Hx. unfold BufferOps.clamp. rewrite !(proj2 (Z.ltb_ge _ _)) by lia. done. Qed.

Lemma byte_slice_mid pre mid post :
  zlen (pre ++ mid ++ post) < pow31 ->
  byte_slice (pre ++ mid ++ post) (zlen pre) (zlen pre + zlen mid) = mid.
Proof.
  intros Hl. pose proof (zlen_nonneg pre). pose proof (zlen_nonneg mid). pose proof (zlen_nonneg post).
  rewrite !zlen_app in Hl. unfold byte_slice, BufferOps.slice_bounds. rewrite !zlen_app.
  rewrite !to_int32_small, !clamp_inside by (unfold pow31 in *; lia).
  rewrite (proj2 (Z.ltb_ge _ _)) by lia. apply zsub_app.
Qed.

(** The encodings whose decoder keeps bytes. *)
Definition cuts (k : BufferText.encoding) : bool :=
  match k with UTF8 | UCS2 | Base64E => true | _ => false end.

(** [toString] of a range is [toString] of the bytes of the range. *)
Lemma toString_mid n k pre mid post :
  find_encoding n = Some k -> cuts k = true -> zlen (pre ++ mid ++ post) < pow31 ->
  toString (pre ++ mid ++ post) n (Some (zlen pre)) (Some (zlen pre + zlen mid)) = Ok (slice_all k mid).
Proof.
  intros Hk Hc Hl. pose proof (byte_slice_mid pre mid post Hl) as Hs.
  pose proof (byte_slice_mid [] mid []) as Hs0. cbn [app] in Hs0. rewrite app_nil_r in Hs0.
  change (zlen []) with 0 in Hs0. rewrite Z.add_0_l in Hs0.
  pose proof (zlen_nonneg pre). pose proof (zlen_nonneg mid). pose proof (zlen_nonneg post).
  destruct (encoding_name n k Hk) as [_ Hn].
  assert (zlen mid < pow31) as Hm by (rewrite !zlen_app in Hl; lia).
  assert (mid = [] -> slice_all k mid = []) as Hnil by (intros ->; by destruct k).
  assert (zlen mid = 0 -> mid = []) as Hz
    by (destruct mid; [done|unfold zlen; simpl; lia]).
  unfold toString. rewrite !zlen_app in *.
  destruct (Z.eqb_spec (zlen pre + (zlen mid + zlen post)) 0); [by rewrite Hnil by (apply Hz; lia)|].
  rewrite (proj2 (Z.ltb_ge (zlen pre) 0)), (proj2 (Z.ltb_ge _ (zlen pre))),
    (proj2 (Z.ltb_ge _ (zlen pre + zlen mid))) by lia.
  destruct (Z.leb_spec (zlen pre + zlen mid) 0); [by rewrite Hnil by (apply Hz; lia)|].
  rewrite !to_uint32_small by (unfold pow31, pow32 in *; lia).
  destruct (Z.leb_spec (zlen pre + zlen mid) (zlen pre)); [by rewrite Hnil by (apply Hz; lia)|].
  rewrite bool_decide_false, Hk by done. destruct k; try done; f_equal.
  - apply utf8Slice_mid.
  - unfold slice_all, base64Slice. rewrite !Z.eqb_refl. simpl andb. cbv iota.
    destruct (Z.eqb_spec (zlen pre) 0), (Z.eqb_spec (zlen pre + zlen mid) (zlen (pre ++ mid ++ post)));
      simpl andb; cbv iota; try by rewrite Hs.
    rewrite !zlen_app in *. assert (pre = []) as -> by (destruct pre; [done|unfold zlen in *; simpl in *; lia]).
    assert (post = []) as -> by (destruct post; [done|unfold zlen in *; simpl in *; lia]).
    by rewrite app_nil_r.
  - unfold slice_all, ucs2Slice. by rewrite Hs, Hs0.
Qed.

Lemma toString_rest n k pre mid :
  find_encoding n = Some k -> cuts k = true -> zlen (pre ++ mid) < pow31 ->
  toString (pre ++ mid) n (Some (zlen pre)) None = Ok (slice_all k mid).
Proof.
  intros Hk Hc Hl. pose proof (toString_mid n k pre mid [] Hk Hc) as H. rewrite app_nil_r in H.
  rewrite <- H by done. unfold toString. rewrite zlen_app. by rewrite Z.ltb_irrefl.
Qed.

Section Methods.
Context (tas : bool).

Lemma copy_last_spec d ea mid eb pre old post r :
  bytes_ok (ea ++ mid ++ eb) -> bytes_ok (lastChar d) ->
  lastChar d = pre ++ old ++ post -> zlen old = zlen mid ->
  r = Some (zlen ea + zlen mid) \/ (r = None /\ eb = []) ->
  copy_last tas d (ea ++ mid ++ eb) (zlen pre) (zlen ea) r
  = Ok (with_last d (lastNeed d) (lastTotal d) (pre ++ mid ++ post)).
Proof.
  intros He Hd Hc Hlen Hr. unfold copy_last.
  set (e := ea ++ mid ++ eb) in *. set (m := {[ 0%nat := e; 1%nat := lastChar d ]} : BufferOps.mem).
  pose proof (zlen_nonneg ea). pose proof (zlen_nonneg mid). pose proof (zlen_nonneg eb).
  pose proof (zlen_nonneg pre). pose proof (zlen_nonneg post).
  assert (zlen e = zlen ea + (zlen mid + zlen eb)) as Hle by (unfold e; by rewrite !zlen_app).
  assert (zlen (lastChar d) = zlen pre + (zlen mid + zlen post)) as Hld by (rewrite Hc, !zlen_app; lia).
  destruct (BufferOps.copy_memmove tas m (BufferOps.View 0 0 0 (zlen e)) (BufferOps.View 1 1 0 (zlen (lastChar d)))
    (zlen pre) (zlen ea) (zlen ea + zlen mid)) as (m' & Hcopy & Hmv); simpl; try lia.
  - intros b l Hb. unfold m in Hb. apply lookup_insert_Some in Hb as [[<- <-]|[_ Hb]]; [done|].
    by apply lookup_singleton_Some in Hb as [<- <-].
  - exists e. simpl. split; [done|lia].
  - exists (lastChar d). simpl. split; [done|lia].
  - simpl in Hcopy, Hmv. assert (BufferOps.copy tas m (BufferOps.View 0 0 0 (zlen e))
      (BufferOps.View 1 1 0 (zlen (lastChar d))) (zlen pre) (zlen ea) r
      = Ok (m', Z.min (zlen ea + zlen mid - zlen ea) (zlen (lastChar d) - zlen pre))) as ->.
    { destruct Hr as [->|[-> ->]]; [done|]. rewrite <- Hcopy. unfold BufferOps.copy. simpl.
      replace (zlen e) with (zlen ea + zlen mid) by (rewrite Hle; unfold zlen; simpl; lia). done. }
    cbn [res_bind]. do 2 f_equal. apply list_ext_zget. intros p.
    change (default [] (m' !! 1%nat)) with (BufferOps.bytes_of m' 1).
    rewrite <- BufferOps.peek_bytes_of, (Hmv 1%nat p). rewrite (zget_replace pre old), <- Hc by done.
    unfold BufferOps.peek. simpl. rewrite Hlen.
    destruct (Z.leb_spec (zlen pre) p), (Z.ltb_spec p (zlen pre + zlen mid)); simpl;
      try (rewrite decide_False by lia; done).
    rewrite decide_True by lia. unfold e. rewrite <- zget_mid with (pre := ea) (post := eb) by lia.
    f_equal. lia.
Qed.

(** ** Streams

    What the decoders share: [I d p] says that the decoder holds the bytes [p] of a
    character that is not complete; [dec] is the decoding of a whole buffer. *)

Section Stream.
Context (I : decoder -> list Z -> Prop) (dec : list Z -> jsstring) (whole valid : list Z -> Prop).
Context (Hwrite : forall d p e rest, I d p -> valid (p ++ e ++ rest) ->
  exists d' w p', write tas d e = Ok (d', dec w) /\ p ++ e = w ++ p' /\ whole w /\ I d' p' /\ valid (p' ++ rest)).
Context (Hdec : forall w x, whole w -> valid x -> valid (w ++ x) -> dec (w ++ x) = dec w ++ dec x).
Context (Hend : forall d p, I d p -> valid p -> exists d', end_ tas d None = Ok (d', dec p)).

Lemma stream d p chunks :
  I d p -> valid (p ++ List.concat chunks) ->
  exists d' s p', write_all tas d chunks = Ok (d', s) /\ I d' p' /\ valid p' /\
    s ++ dec p' = dec (p ++ List.concat chunks).
Proof.
  revert d p. induction chunks as [|e chunks IH]; intros d p HI Hv; simpl in *.
  { rewrite app_nil_r in *. by exists d, [], p. }
  destruct (Hwrite d p e (List.concat chunks) HI Hv) as (d' & w & p' & -> & Hw & Hwhole & HI' & Hv'). cbn [res_bind].
  destruct (IH d' p' HI' Hv') as (d2 & s & p2 & -> & HI2 & Hv2 & Hs). cbn [res_bind].
  exists d2, (dec w ++ s), p2. split_and!; try done.
  rewrite (app_assoc p), Hw, <- !app_assoc in *. rewrite Hs. symmetry. by apply Hdec.
Qed.

Lemma stream_decode enc d chunks :
  StringDecoder enc = Ok d -> I d [] -> valid (List.concat chunks) ->
  decode tas enc chunks = Ok (dec (List.concat chunks)).
Proof.
  intros Hd HI Hv. unfold decode. rewrite Hd. cbn [res_bind].
  destruct (stream d [] chunks HI Hv) as (d' & s & p' & -> & HI' & Hv' & Hs). cbn [res_bind].
  destruct (Hend d' p' HI' Hv') as (d2 & ->). cbn [res_bind]. by rewrite Hs.
Qed.

End Stream.

(** ** UTF-8 *)

(** The decoder has seen the bytes [p] of a character, and needs the rest. *)
Definition utf8_state (d : decoder) (p : list Z) : Prop :=
  encoding d = "utf8"%string /\ zlen (lastChar d) = 4 /\ bytes_ok (lastChar d) /\
  (p = [] /\ lastNeed d = 0 \/
   exists c q tl, scalar c /\ utf8_ref c = p ++ q /\ p <> [] /\ q <> [] /\
     lastTotal d = zlen (utf8_ref c) /\ lastNeed d = zlen q /\ lastChar d = p ++ tl).

Definition utf8_text (x : list Z) : Prop := exists cs, Forall scalar cs /\ x = flat_map utf8_ref cs.
Definition utf8_valid (x : list Z) : Prop := utf8_text x /\ zlen x < pow31.

Lemma utf8_ref_head c b l : scalar c -> utf8_ref c = b :: l -> width b = zlen (utf8_ref c).
Proof.
  intros Hc Hb. destruct (decode_point_ref [] c [] Hc) as [_ Hw]. rewrite <- Hw. cbn [app].
  rewrite app_nil_r, Hb. change (b :: l) with ([] ++ b :: l). rewrite byte_at_head; [done|].
  pose proof (utf8_ref_bytes c ltac:(unfold scalar in Hc; lia)) as Hok. rewrite Hb in Hok.
  by apply bytes_ok_cons in Hok as [? _].
Qed.

(** The first byte of a character tells its size, so a character begun is the one
    that the text goes on with. *)
Lemma utf8_pending c p q x :
  scalar c -> utf8_ref c = p ++ q -> p <> [] -> q <> [] -> utf8_text (p ++ x) ->
  exists c' q' ds, scalar c' /\ utf8_ref c' = p ++ q' /\ zlen q' = zlen q /\ Forall scalar ds /\
    x = q' ++ flat_map utf8_ref ds.
Proof.
  intros Hc Hp Hpn Hqn (ds & Hds & Hx). destruct p as [|b p]; [done|].
  destruct Hds as [|c' ds Hc' Hds]; [done|]. simpl flat_map in Hx.
  destruct (utf8_ref c') as [|b' l'] eqn:Hl'.
  { pose proof (zlen_utf8_ref c') as Hz. rewrite Hl' in Hz. unfold zlen in Hz. simpl in Hz. lia. }
  injection Hx as <- Hx. pose proof (utf8_ref_head c b _ Hc Hp) as H1.
  pose proof (utf8_ref_head c' b _ Hc' Hl') as H2. rewrite H1, Hp, Hl' in H2.
  assert (length l' = length (p ++ q)) as Hlen by (unfold zlen in H2; simpl in H2; lia).
  rewrite length_app in Hlen. set (q' := drop (length p) l').
  assert (l' = p ++ q') as El.
  { rewrite <- (take_drop (length p) l') at 1. f_equal.
    apply (f_equal (take (length p))) in Hx. rewrite take_app_length, take_app_le in Hx by lia. done. }
  assert (length q' = length q) as Hq' by (unfold q'; rewrite length_drop; lia).
  exists c', q', ds. split_and!; try done.
  - by rewrite Hl', El.
  - unfold zlen. lia.
  - rewrite El, <- app_assoc in Hx. by apply app_inv_head in Hx.
Qed.

Lemma utf8_tail_cont c b l : scalar c -> utf8_ref c = b :: l -> Forall (fun x => continuation x = true) l.
Proof.
  intros Hc Hb. unfold scalar in Hc.
  assert (Forall (fun x => 128 <= x < 192) l) as Hl.
  { unfold utf8_ref in Hb. repeat case_match; injection Hb as <- <-; repeat constructor; dlia. }
  eapply Forall_weaken; [apply Hl|]. simpl. intros x Hx.
  rewrite continuation_range by (unfold byte_ok; lia). lia.
Qed.

(** A prefix of a text is a text and the beginning of a character. *)
Lemma utf8_prefix ds x rest :
  Forall scalar ds -> x ++ rest = flat_map utf8_ref ds ->
  exists ds1 p, Forall scalar ds1 /\ x = flat_map utf8_ref ds1 ++ p /\ utf8_text (p ++ rest) /\
    (p = [] \/ exists c q, scalar c /\ utf8_ref c = p ++ q /\ p <> [] /\ q <> []).
Proof.
  intros Hds. revert x. induction Hds as [|c ds Hc Hds IH]; intros x Hx; simpl in Hx.
  { apply app_eq_nil in Hx as [-> ->]. exists [], []. split_and!; try done; [by exists []|by left]. }
  destruct (decide (length (utf8_ref c) <= length x)%nat) as [Hle|Hlt].
  - assert (x = utf8_ref c ++ drop (length (utf8_ref c)) x) as Ex.
    { rewrite <- (take_drop (length (utf8_ref c)) x) at 1. f_equal.
      apply (f_equal (take (length (utf8_ref c)))) in Hx. rewrite take_app_length in Hx.
      by rewrite take_app_le in Hx by lia. }
    destruct (IH (drop (length (utf8_ref c)) x)) as (ds1 & p & Hds1 & Hp & Hv & Hcase).
    { rewrite Ex, <- app_assoc in Hx. by apply app_inv_head in Hx. }
    exists (c :: ds1), p. split_and!; try done; [by constructor|]. simpl. rewrite <- app_assoc, <- Hp. done.
  - exists [], x. split_and!; try done.
    + exists (c :: ds). split; [by constructor|done].
    + destruct x as [|b x]; [by left|right]. exists c, (drop (length (b :: x)) (utf8_ref c)).
      assert (take (length (b :: x)) (utf8_ref c) = b :: x) as Et.
      { apply (f_equal (take (length (b :: x)))) in Hx. rewrite take_app_length in Hx.
        by rewrite take_app_le in Hx by lia. }
      split_and!; try done.
      * by rewrite <- Et at 1; rewrite take_drop.
      * intros Hn. apply (f_equal length) in Hn. rewrite length_drop in Hn. simpl in *. lia.
Qed.

(** The last bytes of a text tell how much of its last character is there. *)
Lemma utf8CheckByte_lead c b l : scalar c -> utf8_ref c = b :: l ->
  utf8CheckByte b = if zlen (utf8_ref c) =? 1 then 0 else zlen (utf8_ref c).
Proof.
  intros Hc Hb. unfold scalar in Hc.
  assert (0 <= b < 256 /\ (if b <? 128 then zlen (utf8_ref c) = 1
    else if b <? 192 then False else if b <? 224 then zlen (utf8_ref c) = 2
    else if b <? 240 then zlen (utf8_ref c) = 3 else b < 248 /\ zlen (utf8_ref c) = 4)) as [Hr Hw].
  { unfold utf8_ref in *. destruct (Z.ltb_spec c 128); [|destruct (Z.ltb_spec c 2048);
      [|destruct (Z.ltb_spec c 65536)]]; injection Hb as <- <-; unfold zlen; simpl;
      repeat (case_match || split); dlia. }
  unfold utf8CheckByte. rewrite !js_shr_div by (unfold pow31; lia).
  change (2 ^ 5) with 32. change (2 ^ 4) with 16. change (2 ^ 3) with 8. change (2 ^ 6) with 64.
  destruct (Z.ltb_spec b 128), (Z.ltb_spec b 192), (Z.ltb_spec b 224), (Z.ltb_spec b 240); try lia; try done;
    repeat match goal with
    | |- context [?x <=? ?y] => destruct (Z.leb_spec x y); try lia
    | |- context [?x =? ?y] => destruct (Z.eqb_spec x y); try dlia
    end.
Qed.

Lemma utf8CheckByte_cont b : byte_ok b -> continuation b = true -> utf8CheckByte b = -1.
Proof.
  intros Hb Hc. rewrite continuation_range in Hc by done. unfold byte_ok in Hb.
  unfold utf8CheckByte. rewrite !js_shr_div by (unfold pow31; lia).
  change (2 ^ 5) with 32. change (2 ^ 4) with 16. change (2 ^ 3) with 8. change (2 ^ 6) with 64.
  repeat match goal with
  | |- context [?x <=? ?y] => destruct (Z.leb_spec x y); try lia
  | |- context [?x =? ?y] => destruct (Z.eqb_spec x y); try dlia
  end.
Qed.

(** Reads the byte [x] at [j] of the list after [pre]. *)
Ltac look pre j x :=
  match goal with |- context [byte_at (pre ++ ?l) ?k] =>
    replace k with (zlen pre + j) by lia; rewrite (byte_at_app pre l j x eq_refl); [|lia|]
  end.

Lemma utf8CheckIncomplete_spec pre c p q n :
  scalar c -> utf8_ref c = p ++ q -> p <> [] -> n <= zlen pre ->
  match q with
  | [] => default 0 (utf8CheckIncomplete (pre ++ p) n).2 = 0
  | _ => utf8CheckIncomplete (pre ++ p) n = (zlen (utf8_ref c), Some (zlen q))
  end.
Proof.
  intros Hc Hp Hn Hpre. destruct p as [|b p]; [done|]. cbn [app] in Hp.
  pose proof (utf8CheckByte_lead c b _ Hc Hp) as Hlead. pose proof (utf8_tail_cont c b _ Hc Hp) as Hcont.
  pose proof (utf8_ref_bytes c ltac:(unfold scalar in Hc; lia)) as Hb. pose proof (zlen_utf8_ref c) as Hz.
  rewrite Hp in *. apply bytes_ok_cons in Hb as [Hb Hbs]. apply Forall_app in Hcont as [Hcont _].
  apply Forall_app in Hbs as [Hbs _]. unfold utf8CheckIncomplete.
  assert (forall x, In x p -> utf8CheckByte x = -1 /\ byte_ok x) as Hall.
  { intros x Hx. apply list_elem_of_In in Hx. rewrite Forall_forall in Hcont, Hbs.
    split; [apply utf8CheckByte_cont|]; auto. }
  assert (zlen (b :: p ++ q) = 1 + zlen p + zlen q) as Hzl by (unfold zlen; simpl; rewrite length_app; lia).
  pose proof (zlen_nonneg q).
  destruct p as [|x1 [|x2 [|x3 [|x4 p]]]]; [| | | |unfold zlen in *; simpl in *; lia].
  - rewrite zlen_app. change (zlen [b]) with 1. look pre 0 b; [|done].
    rewrite (proj2 (Z.ltb_ge _ n)), Hlead, Hzl by lia. change (zlen []) with 0.
    destruct q as [|y q]; [done|]. unfold zlen in *. simpl length in *.
    destruct (Z.eqb_spec (1 + 0 + Z.of_nat (S (length q))) 1); [lia|].
    rewrite (proj2 (Z.leb_le 0 _)), (proj2 (Z.ltb_lt 0 _)) by lia. do 2 f_equal. lia.
  - rewrite zlen_app. change (zlen [b; x1]) with 2. change (zlen [x1]) with 1 in *.
    look pre 1 x1; [|apply Hall; simpl; auto]. look pre 0 b; [|done].
    destruct (Hall x1) as [-> _]; [simpl; auto|]. simpl Z.eqb. rewrite orb_false_r.
    rewrite (proj2 (Z.eqb_neq (zlen (b :: [x1] ++ q)) 1)) in Hlead by lia.
    rewrite !(proj2 (Z.ltb_ge _ n)), Hlead, Hzl by lia.
    rewrite (proj2 (Z.leb_le 0 (1 + 1 + zlen q))), (proj2 (Z.ltb_lt 0 (1 + 1 + zlen q))) by lia. simpl Z.leb. cbv iota.
    destruct q as [|y q]; [done|]. do 2 f_equal. lia.
  - rewrite zlen_app. change (zlen [b; x1; x2]) with 3. change (zlen [x1; x2]) with 2 in *.
    look pre 2 x2; [|apply Hall; simpl; auto]. look pre 1 x1; [|apply Hall; simpl; auto]. look pre 0 b; [|done].
    destruct (Hall x1) as [-> _]; [simpl; auto|]. destruct (Hall x2) as [-> _]; [simpl; auto|].
    simpl Z.eqb. rewrite !orb_false_r.
    rewrite (proj2 (Z.eqb_neq (zlen (b :: [x1; x2] ++ q)) 1)) in Hlead by lia.
    rewrite !(proj2 (Z.ltb_ge _ n)), Hlead, Hzl by lia.
    rewrite (proj2 (Z.leb_le 0 (1 + 2 + zlen q))), (proj2 (Z.ltb_lt 0 (1 + 2 + zlen q))),
      (proj2 (Z.eqb_neq (1 + 2 + zlen q) 2)) by lia. simpl Z.leb. cbv iota.
    destruct q as [|y q]; [done|]. do 2 f_equal. lia.
  - rewrite zlen_app. change (zlen [b; x1; x2; x3]) with 4. change (zlen [x1; x2; x3]) with 3 in *.
    assert (q = []) as -> by (destruct q; [done|unfold zlen in *; simpl in *; lia]).
    look pre 3 x3; [|apply Hall; simpl; auto]. look pre 2 x2; [|apply Hall; simpl; auto].
    look pre 1 x1; [|apply Hall; simpl; auto].
    destruct (Hall x1) as [-> _]; [simpl; auto|]. destruct (Hall x2) as [-> _]; [simpl; auto|].
    destruct (Hall x3) as [-> _]; [simpl; auto|]. simpl Z.eqb. rewrite !orb_false_r.
    rewrite !(proj2 (Z.ltb_ge _ n)) by lia. done.
Qed.

Lemma dec_utf8 ds : Forall scalar ds -> slice_all UTF8 (flat_map utf8_ref ds) = flat_map utf16_ref ds.
Proof. intros Hds. by apply utf8Slice_ref. Qed.

Lemma utf8Text_spec d pre ds p :
  encoding d = "utf8"%string -> lastNeed d = 0 -> zlen (lastChar d) = 4 -> bytes_ok (lastChar d) ->
  Forall scalar ds -> (p = [] \/ exists c q, scalar c /\ utf8_ref c = p ++ q /\ p <> [] /\ q <> []) ->
  flat_map utf8_ref ds ++ p <> [] -> bytes_ok pre -> zlen (pre ++ flat_map utf8_ref ds ++ p) < pow31 ->
  exists d', utf8Text tas d (pre ++ flat_map utf8_ref ds ++ p) (zlen pre) = Ok (d', slice_all UTF8 (flat_map utf8_ref ds))
    /\ utf8_state d' p.
Proof.
  intros He Hn H4 Hok Hds Hp Hne Hpre Hl. unfold utf8Text.
  destruct Hp as [->|(c & q & Hc & Hpq & Hpn & Hqn)].
  - rewrite app_nil_r in *. destruct ds as [|c ds _] using rev_ind; [done|].
    apply Forall_app in Hds as [Hds Hc]. inversion_clear Hc as [|? ? Hc' _].
    rewrite flat_map_app in *. simpl flat_map in *. rewrite !app_nil_r in *.
    pose proof (utf8CheckIncomplete_spec (pre ++ flat_map utf8_ref ds) c (utf8_ref c) [] (zlen pre) Hc') as Hchk.
    rewrite app_nil_r, <- app_assoc in Hchk. pose proof (zlen_nonneg (flat_map utf8_ref ds)).
    destruct (utf8CheckIncomplete (pre ++ flat_map utf8_ref ds ++ utf8_ref c) (zlen pre)) as [k need].
    replace (lastNeed (with_need d (default (lastNeed d) need))) with 0.
    2: { simpl in *. rewrite Hn, Hchk; [done|done| |rewrite zlen_app; lia].
         intros E. pose proof (zlen_utf8_ref c) as Hz. rewrite E in Hz. unfold zlen in Hz. simpl in Hz. lia. }
    rewrite Z.eqb_refl, (toString_rest "utf8" UTF8 pre (flat_map utf8_ref ds ++ utf8_ref c)) by done. cbn [res_bind].
    eexists. split; [done|]. split_and!; try done. left. split; [done|].
    simpl in *. rewrite Hn, Hchk; [done|done| |rewrite zlen_app; lia].
    intros E. pose proof (zlen_utf8_ref c) as Hz. rewrite E in Hz. unfold zlen in Hz. simpl in Hz. lia.
  - pose proof (utf8CheckIncomplete_spec (pre ++ flat_map utf8_ref ds) c p q (zlen pre) Hc Hpq Hpn) as Hchk.
    pose proof (zlen_nonneg (flat_map utf8_ref ds)). pose proof (zlen_nonneg p). rewrite zlen_app, <- app_assoc in Hchk.
    replace (utf8CheckIncomplete (pre ++ flat_map utf8_ref ds ++ p) (zlen pre))
      with (zlen (utf8_ref c), Some (zlen q)) by (symmetry; destruct q; [done|apply Hchk; lia]).
    cbv iota beta. simpl default. cbn [lastNeed with_need with_last].
    assert (0 < zlen q) as Hq by (destruct q; [done|unfold zlen; simpl; lia]).
    rewrite (proj2 (Z.eqb_neq (zlen q) 0)) by lia. rewrite Hpq, !zlen_app.
    replace (zlen pre + (zlen (flat_map utf8_ref ds) + zlen p) - (zlen p + zlen q - zlen q))
      with (zlen (pre ++ flat_map utf8_ref ds)) by (rewrite zlen_app; lia).
    assert (zlen p <= 4) as Hp4 by (pose proof (zlen_utf8_ref c) as Hz; rewrite Hpq, zlen_app in Hz; lia).
    pose proof (utf8_ref_bytes c ltac:(unfold scalar in Hc; lia)) as Hb. rewrite Hpq in Hb.
    apply Forall_app in Hb as [Hb _]. set (d1 := with_last _ _ _ _).
    pose proof (copy_last_spec d1 (pre ++ flat_map utf8_ref ds) p [] [] (take (length p) (lastChar d))
      (drop (length p) (lastChar d)) None) as Hcp.
    rewrite app_nil_r, <- app_assoc in Hcp. change (zlen []) with 0 in Hcp. rewrite Hcp; clear Hcp.
    + cbn [res_bind]. replace (zlen (pre ++ flat_map utf8_ref ds)) with (zlen pre + zlen (flat_map utf8_ref ds))
        by (by rewrite zlen_app).
      rewrite (toString_mid "utf8" UTF8 pre) by done. cbn [res_bind app]. eexists. split; [done|].
      split_and!; simpl.
      * done.
      * rewrite zlen_app, <- H4. unfold zlen. rewrite length_drop. unfold zlen in *. lia.
      * apply Forall_app. split; [done|]. by apply Forall_drop.
      * right. exists c, q, (drop (length p) (lastChar d)). split_and!; try done. by rewrite Hpq, zlen_app.
    + apply Forall_app. split; [done|]. apply Forall_app. split; [by apply flat_utf8_bytes|done].
    + done.
    + simpl. by rewrite take_drop.
    + unfold zlen in *. rewrite length_take. lia.
    + auto.
Qed.


Lemma utf8_extra_ok d e q rest more :
  bytes_ok q -> Forall (fun x => continuation x = true) q -> e ++ rest = q ++ more -> e <> [] -> q <> [] ->
  lastNeed d = zlen q -> utf8CheckExtraBytes d e = None.
Proof.
  intros Hb Hq Hx He Hqn Hneed.
  assert (forall j, 0 <= j < zlen e -> j < zlen q -> continuation (byte_at e j) = true) as Hat.
  { intros j Hj Hjq. destruct (zget_in_range q j ltac:(lia)) as [x Hx']. 
    assert (zget e j = Some x) as Hex.
    { rewrite <- (zget_app_l e rest), Hx, zget_app_l by lia. done. }
    assert (x ∈ q) as Hin.
    { unfold zget in Hx'. destruct (j <? 0); [done|]. by apply list_elem_of_lookup_2 in Hx'. }
    unfold bytes_ok in Hb. rewrite Forall_forall in Hb, Hq. unfold byte_at, rd. rewrite Hex, nint_byte by auto. auto. }
  assert (0 < zlen e) by (destruct e; [done|unfold zlen; simpl; lia]).
  assert (0 < zlen q) by (destruct q; [done|unfold zlen; simpl; lia]).
  unfold utf8CheckExtraBytes. rewrite Hneed, (Hat 0) by lia. simpl negb. cbv iota.
  destruct (Z.ltb_spec 1 (zlen q)), (Z.ltb_spec 1 (zlen e)); simpl andb; cbv iota; try done.
  rewrite (Hat 1) by lia. simpl negb. cbv iota.
  destruct (Z.ltb_spec 2 (zlen q)), (Z.ltb_spec 2 (zlen e)); simpl andb; cbv iota; try done.
  by rewrite (Hat 2) by lia.
Qed.

(** Two ways to cut a list. *)
Lemma app_eq_cases {A} (e rest q more : list A) :
  e ++ rest = q ++ more ->
  (exists e2, e = q ++ e2 /\ more = e2 ++ rest) \/ (exists q2, q2 <> [] /\ q = e ++ q2 /\ rest = q2 ++ more).
Proof.
  intros H. destruct (app_eq_inv _ _ _ _ H) as [(k & -> & ->)|(k & -> & ->)].
  - left. by exists k.
  - destruct k as [|a k]; [left; exists []; by rewrite !app_nil_r|right; by exists (a :: k)].
Qed.

Lemma utf8FillLast_spec d p e rest more c q tl :
  encoding d = "utf8"%string -> zlen (lastChar d) = 4 -> bytes_ok (lastChar d) ->
  scalar c -> utf8_ref c = p ++ q -> p <> [] -> q <> [] ->
  lastTotal d = zlen (utf8_ref c) -> lastNeed d = zlen q -> lastChar d = p ++ tl ->
  e <> [] -> bytes_ok e -> e ++ rest = q ++ more ->
  (exists d' e2, utf8FillLast tas d e = Ok (d', Some (utf16_ref c)) /\ e = q ++ e2 /\ more = e2 ++ rest /\
     encoding d' = "utf8"%string /\ zlen (lastChar d') = 4 /\ bytes_ok (lastChar d') /\ lastNeed d' = zlen q) \/
  (exists d', utf8FillLast tas d e = Ok (d', None) /\ utf8_state d' (p ++ e)).
Proof.
  intros Henc H4 Hok Hc Hpq Hpn Hqn Htot Hneed Hch He Heb Hx.
  pose proof (utf8_ref_bytes c ltac:(unfold scalar in Hc; lia)) as Hb. pose proof (zlen_utf8_ref c) as Hz.
  assert (Forall (fun x => continuation x = true) q) as Hcont.
  { destruct p as [|b p]; [done|]. apply utf8_tail_cont with (1 := Hc) in Hpq. by apply Forall_app in Hpq as [_ ?]. }
  rewrite Hpq in Hb, Hz, Htot. rewrite zlen_app in Hz, Htot. apply Forall_app in Hb as [Hpb Hqb].
  assert (zlen tl = 4 - zlen p) as Htl by (rewrite Hch, zlen_app in H4; lia). pose proof (zlen_nonneg q).
  unfold utf8FillLast. rewrite (utf8_extra_ok d e q rest more), Htot, Hneed by done.
  replace (zlen p + zlen q - zlen q) with (zlen p) by lia. unfold fill_last. rewrite Hneed.
  destruct (app_eq_cases _ _ _ _ Hx) as [(e2 & -> & Hmore)|(q2 & Hq2 & Hqe & Hrest)].
  - left. rewrite zlen_app. pose proof (zlen_nonneg e2). rewrite (proj2 (Z.leb_le _ _)) by lia.
    pose proof (copy_last_spec d [] q e2 p (take (length q) tl) (drop (length q) tl) (Some (zlen q))) as Hcp.
    change (zlen []) with 0 in Hcp. cbn [app] in Hcp. rewrite Hcp; clear Hcp.
    + cbn [res_bind]. cbn [with_last lastChar encoding lastTotal lastNeed]. rewrite Htot, Henc.
      pose proof (toString_mid "utf8" UTF8 [] (p ++ q) (drop (length q) tl)) as Hts. cbn [app] in Hts.
      change (zlen []) with 0 in Hts. rewrite Z.add_0_l, (zlen_app p q), <- app_assoc in Hts. rewrite Hts; clear Hts; try done.
      * pose proof (dec_utf8 [c] ltac:(by constructor)) as Hd. simpl flat_map in Hd.
        rewrite !app_nil_r, Hpq in Hd. rewrite Hd.
        cbn [res_bind]. do 2 eexists. split_and!; [done|done|done|done|simpl..|done].
        -- rewrite !zlen_app. unfold zlen in *. rewrite length_drop. lia.
        -- rewrite Hch in Hok. apply Forall_app in Hok as [_ Hok].
           apply Forall_app; split; [done|]. apply Forall_app; split; [done|]. by apply Forall_drop.
      * rewrite !zlen_app. unfold zlen, pow31 in *. rewrite length_drop. lia.
    + done.
    + done.
    + rewrite Hch. by rewrite take_drop.
    + unfold zlen in *. rewrite length_take. lia.
    + left. done.
  - right. subst q. rewrite zlen_app in *. pose proof (zlen_nonneg e).
    assert (0 < zlen q2) by (destruct q2; [done|unfold zlen; simpl; lia]).
    rewrite (proj2 (Z.leb_gt _ _)) by lia.
    pose proof (copy_last_spec d [] e [] p (take (length e) tl) (drop (length e) tl) (Some (zlen e))) as Hcp.
    change (zlen []) with 0 in Hcp. cbn [app] in Hcp. rewrite app_nil_r in Hcp. rewrite Hcp; clear Hcp.
    + cbn [res_bind]. eexists. split; [done|]. split_and!; simpl.
      * done.
      * rewrite !zlen_app. unfold zlen in *. rewrite length_drop. lia.
      * rewrite Hch in Hok. apply Forall_app in Hok as [_ Hok].
        apply Forall_app; split; [done|]. apply Forall_app; split; [done|]. by apply Forall_drop.
      * right. exists c, q2, (drop (length e) tl). rewrite <- !app_assoc. split_and!; try done.
        -- by destruct p.
        -- by rewrite Hpq, !zlen_app.
        -- lia.
    + done.
    + done.
    + rewrite Hch. by rewrite take_drop.
    + unfold zlen in *. rewrite length_take. lia.
    + left. done.
Qed.

Lemma utf8_text_bytes x : utf8_text x -> bytes_ok x.
Proof. intros (cs & Hcs & ->). by apply flat_utf8_bytes. Qed.

Lemma bytes_ok_app l k : bytes_ok (l ++ k) <-> bytes_ok l /\ bytes_ok k.
Proof. apply Forall_app. Qed.

Lemma buffered_utf8 d : encoding d = "utf8"%string -> buffered d = true.
Proof. intros H. unfold buffered. apply bool_decide_true. auto. Qed.

Lemma utf8_text_step d e t : encoding d = "utf8"%string -> text tas d e t = utf8Text tas d e t.
Proof. intros H. unfold text. by rewrite !bool_decide_false by (rewrite H; done). Qed.

Lemma utf8_write d p e rest :
  utf8_state d p -> utf8_valid (p ++ e ++ rest) ->
  exists d' w p', write tas d e = Ok (d', slice_all UTF8 w) /\ p ++ e = w ++ p' /\ utf8_text w /\
    utf8_state d' p' /\ utf8_valid (p' ++ rest).
Proof.
  intros Hst [Htext Hlen]. pose proof Hst as (Henc & H4 & Hok & Hp). pose proof (utf8_text_bytes _ Htext) as Hb.
  rewrite !bytes_ok_app in Hb. destruct Hb as (Hpb & Heb & Hrb).
  rewrite !zlen_app in Hlen. pose proof (zlen_nonneg p). pose proof (zlen_nonneg e). pose proof (zlen_nonneg rest).
  unfold write. rewrite buffered_utf8 by done. simpl negb. cbv iota.
  destruct (decide (e = [])) as [->|He].
  { simpl. exists d, [], p. rewrite app_nil_r. split_and!; try done; [by exists []|by split; [|rewrite zlen_app; lia]]. }
  assert (0 < zlen e) by (destruct e; [done|unfold zlen; simpl; lia]).
  rewrite (proj2 (Z.eqb_neq (zlen e) 0)) by lia.
  destruct Hp as [[-> Hneed]|(c & q & tl & Hc & Hpq & Hpn & Hqn & Htot & Hneed & Hch)].
  - rewrite Hneed. cbn [Z.eqb negb res_bind app]. rewrite (proj2 (Z.ltb_lt 0 _)) by lia.
    destruct Htext as (ds & Hds & Hx). destruct (utf8_prefix ds e rest Hds Hx) as (ds1 & p' & Hds1 & Ee & Hv & Hcase).
    rewrite utf8_text_step by done. destruct (utf8Text_spec d [] ds1 p') as (d' & Ht & Hst'); try done.
    { by rewrite <- Ee. } { cbn [app]. rewrite <- Ee. lia. }
    cbn [app] in Ht. rewrite <- Ee in Ht. change (zlen []) with 0 in Ht. rewrite Ht. cbn [res_bind]. exists d', (flat_map utf8_ref ds1), p'.
    split_and!; try done; [by exists ds1|split; [done|]]. rewrite Ee, zlen_app in Hlen. rewrite zlen_app.
    pose proof (zlen_nonneg (flat_map utf8_ref ds1)). lia.
  - destruct (utf8_pending c p q (e ++ rest) Hc Hpq Hpn Hqn Htext) as (c' & q' & ds & Hc' & Hpq' & Hlq & Hds & Hx).
    assert (q' <> []) as Hqn'. { intros ->. destruct q; [done|unfold zlen in Hlq; simpl in Hlq; lia]. }
    assert (0 < zlen q') by (destruct q'; [done|unfold zlen; simpl; lia]).
    rewrite Hneed, (proj2 (Z.eqb_neq (zlen q) 0)) by lia. simpl negb. cbv iota.
    unfold fillLast. rewrite bool_decide_true by done.
    destruct (utf8FillLast_spec d p e rest (flat_map utf8_ref ds) c' q' tl) as
      [(d1 & e2 & -> & -> & Hmore & Henc1 & H41 & Hok1 & Hneed1)|(d1 & -> & Hst1)]; try done.
    { by rewrite Htot, Hpq, Hpq', !zlen_app, Hlq. } { by rewrite Hneed, Hlq. }
    + cbn [res_bind]. rewrite Hneed1, zlen_app. pose proof (zlen_nonneg e2).
      assert (slice_all UTF8 (utf8_ref c') = utf16_ref c') as Hdc.
      { pose proof (dec_utf8 [c'] ltac:(by constructor)) as Hd. simpl flat_map in Hd. by rewrite !app_nil_r in Hd. }
      destruct (Z.ltb_spec (zlen q') (zlen q' + zlen e2)).
      * destruct (utf8_prefix ds e2 rest Hds (eq_sym Hmore)) as (ds1 & p' & Hds1 & Ee & Hv & Hcase).
        rewrite utf8_text_step by done. destruct (utf8Text_spec (with_need d1 0) q' ds1 p') as (d' & Ht & Hst'); try done.
        { rewrite <- Ee. intros ->. unfold zlen in *. simpl in *. lia. }
        { by apply bytes_ok_app in Heb as [? _]. } { rewrite <- Ee. lia. }
        rewrite <- Ee in Ht. rewrite Ht. cbn [res_bind]. exists d', (flat_map utf8_ref (c' :: ds1)), p'.
        split_and!; try done.
        -- rewrite !dec_utf8 by (done || by constructor). done.
        -- rewrite Ee. simpl flat_map. rewrite Hpq', <- !app_assoc. done.
        -- exists (c' :: ds1). by split; [constructor|].
        -- split; [done|]. rewrite Ee, !zlen_app in Hlen. rewrite zlen_app.
           pose proof (zlen_nonneg (flat_map utf8_ref ds1)). lia.
      * exists (with_need d1 0), (utf8_ref c'), []. rewrite Hdc. assert (e2 = []) as ->
          by (destruct e2; [done|unfold zlen in *; simpl in *; lia]).
        rewrite !app_nil_r. split_and!; try done.
        -- exists [c']. simpl. rewrite app_nil_r. by split; [constructor|].
        -- split_and!; try done. by left.
        -- split; [|simpl; lia]. simpl. simpl in Hmore. rewrite <- Hmore. by exists ds.
    + cbn [res_bind]. exists d1, [], (p ++ e). split_and!; try done; [by exists []|].
      split; [by rewrite <- app_assoc|]. rewrite !zlen_app. lia.
Qed.

Lemma utf8_end d p : utf8_state d p -> utf8_valid p -> exists d', end_ tas d None = Ok (d', slice_all UTF8 p).
Proof.
  intros (Henc & _ & _ & [[-> Hneed]|(c & q & tl & Hc & Hpq & Hpn & Hqn & _)]) [Htext _].
  - exists d. unfold end_, utf8End. rewrite !Henc. cbn. by rewrite Hneed.
  - rewrite <- (app_nil_r p) in Htext.
    destruct (utf8_pending c p q [] Hc Hpq Hpn Hqn Htext) as (c' & q' & ds & _ & _ & Hlq & _ & Hx).
    symmetry in Hx. apply app_eq_nil in Hx as [-> _]. destruct q; [done|unfold zlen in Hlq; simpl in Hlq; lia].
Qed.

Lemma utf8_dec_app w x : utf8_text w -> utf8_valid x -> utf8_valid (w ++ x) -> slice_all UTF8 (w ++ x) = slice_all UTF8 w ++ slice_all UTF8 x.
Proof.
  intros (cs & Hcs & ->) [(ds & Hds & ->) _] _. rewrite <- flat_map_app, !dec_utf8, flat_map_app; try done.
  by apply Forall_app.
Qed.

(** ** UTF-16 and base64: groups of [u] bytes *)

Section Groups.
Context (enc : string) (k : BufferText.encoding) (u size : Z).
Context (Hk : find_encoding enc = Some k) (Hcuts : cuts k = true) (Hu : 0 < u) (Hsize : size <= 4).
Context (Henc : enc = "utf16le"%string \/ enc = "base64"%string).

Definition group_state (d : decoder) (p : list Z) : Prop :=
  encoding d = enc /\ zlen (lastChar d) = size /\ bytes_ok (lastChar d) /\
  (p = [] /\ lastNeed d = 0 \/
   p <> [] /\ 0 < lastNeed d /\ lastTotal d = zlen p + lastNeed d /\ lastTotal d <= size /\
   lastTotal d mod u = 0 /\ exists tl, lastChar d = p ++ tl).

Definition group_valid (x : list Z) : Prop := bytes_ok x /\ zlen x < pow31.
Definition groups (x : list Z) : Prop := zlen x mod u = 0 /\ bytes_ok x /\ zlen x < pow31.

Lemma group_fill d p tl e :
  encoding d = enc -> zlen (lastChar d) = size -> bytes_ok (lastChar d) ->
  0 < lastNeed d -> lastTotal d = zlen p + lastNeed d -> lastTotal d <= size -> lastChar d = p ++ tl -> bytes_ok e ->
  let d' x := with_last d (lastNeed d) (lastTotal d) (p ++ x ++ drop (length x) tl) in
  (exists q e2, e = q ++ e2 /\ zlen q = lastNeed d /\
     fillLast tas d e = Ok (d' q, Some (slice_all k (p ++ q)))) \/
  (zlen e < lastNeed d /\ fillLast tas d e = Ok (with_need (d' e) (lastNeed d - zlen e), None)).
Proof.
  intros He Hs Hok Hneed Htot Hle Hch Heb d'. unfold fillLast.
  rewrite bool_decide_false by (rewrite He; destruct Henc as [-> | ->]; done).
  unfold fill_last. replace (lastTotal d - lastNeed d) with (zlen p) by lia.
  assert (zlen tl = size - zlen p) as Htl by (rewrite Hch, zlen_app in Hs; lia).
  assert (forall q e2 r, e = q ++ e2 -> r = Some (zlen q) -> zlen q <= lastNeed d ->
    copy_last tas d e (zlen p) 0 r = Ok (d' q)) as Hcp.
  { intros q e2 r -> -> Hq. pose proof (copy_last_spec d [] q e2 p (take (length q) tl) (drop (length q) tl)
      (Some (zlen q))) as H. change (zlen []) with 0 in H. cbn [app] in H. apply H; try done.
    - by rewrite take_drop.
    - unfold zlen in *. rewrite length_take. lia.
    - by left. }
  destruct (Z.leb_spec (lastNeed d) (zlen e)) as [Hc|Hc].
  - left. set (q := take (Z.to_nat (lastNeed d)) e). set (e2 := drop (Z.to_nat (lastNeed d)) e).
    assert (e = q ++ e2) as Ee by (unfold q, e2; by rewrite take_drop).
    assert (zlen q = lastNeed d) as Hq by (unfold q, zlen in *; rewrite length_take; lia).
    exists q, e2. split_and!; [done|done|]. rewrite (Hcp q e2) by (rewrite ?Hq; done || lia). cbn [res_bind].
    unfold d'. cbn [with_last lastChar encoding lastTotal lastNeed]. rewrite He, Htot, <- Hq.
    pose proof (toString_mid enc k [] (p ++ q) (drop (length q) tl) Hk Hcuts) as Hts. cbn [app] in Hts.
    change (zlen []) with 0 in Hts. rewrite Z.add_0_l, (zlen_app p q), <- app_assoc in Hts.
    rewrite Hts; [done|]. rewrite !zlen_app. unfold zlen, pow31 in *. rewrite length_drop. lia.
  - right. split; [done|]. rewrite (Hcp e []) by (rewrite ?app_nil_r; done || lia). done.
Qed.

(** What the text method of the encoding does with the bytes after the first ones. *)
Definition group_text : Prop := forall d pre mid,
  encoding d = enc -> lastNeed d = 0 -> zlen (lastChar d) = size -> bytes_ok (lastChar d) ->
  mid <> [] -> bytes_ok mid -> zlen (pre ++ mid) < pow31 ->
  exists d' w p', text tas d (pre ++ mid) (zlen pre) = Ok (d', slice_all k w) /\ mid = w ++ p' /\
    zlen w mod u = 0 /\ group_state d' p'.

Context (Htext : group_text).
Context (Hadd : forall w x, groups w -> group_valid x -> group_valid (w ++ x) -> slice_all k (w ++ x) = slice_all k w ++ slice_all k x).

Lemma group_buffered d : encoding d = enc -> buffered d = true.
Proof. intros H. unfold buffered. apply bool_decide_true. rewrite H. destruct Henc; auto. Qed.

Lemma group_write d p e rest :
  group_state d p -> group_valid (p ++ e ++ rest) ->
  exists d' w p', write tas d e = Ok (d', slice_all k w) /\ p ++ e = w ++ p' /\ groups w /\
    group_state d' p' /\ group_valid (p' ++ rest).
Proof.
  intros Hst [Hb Hlen]. pose proof Hst as (He & Hs & Hok & Hp). rewrite !bytes_ok_app in Hb. destruct Hb as (Hpb & Heb & Hrb).
  rewrite !zlen_app in Hlen. pose proof (zlen_nonneg p). pose proof (zlen_nonneg e). pose proof (zlen_nonneg rest).
  assert (slice_all k [] = []) as Hnil by (by destruct k).
  assert (groups []) as Hg0 by (split; [by apply Z.mod_0_l; lia|split; [constructor|done]]).
  unfold write. rewrite group_buffered by done. simpl negb. cbv iota.
  destruct (decide (e = [])) as [->|Hne].
  { simpl. exists d, [], p. rewrite app_nil_r, Hnil. split_and!; try done.
    split; [by apply Forall_app|rewrite zlen_app; lia]. }
  assert (0 < zlen e) by (destruct e; [done|unfold zlen; simpl; lia]).
  rewrite (proj2 (Z.eqb_neq (zlen e) 0)) by lia.
  destruct Hp as [[-> Hneed]|(Hpn & Hneed & Htot & Hle & Hmod & tl & Hch)].
  - rewrite Hneed. cbn [Z.eqb negb res_bind app]. rewrite (proj2 (Z.ltb_lt 0 _)) by lia.
    destruct (Htext d [] e) as (d' & w & p' & Ht & Ee & Hw & Hst'); try done; [simpl; lia|].
    cbn [app] in Ht. change (zlen []) with 0 in Ht. rewrite Ht. cbn [res_bind]. exists d', w, p'.
    subst e. rewrite !zlen_app in *. apply bytes_ok_app in Heb as [? ?].
    pose proof (zlen_nonneg w). pose proof (zlen_nonneg p').
    split_and!; try done; [split_and!; done || lia|split; [by apply Forall_app|rewrite zlen_app; lia]].
  - rewrite (proj2 (Z.eqb_neq (lastNeed d) 0)) by lia. simpl negb. cbv iota.
    destruct (group_fill d p tl e) as [(q & e2 & -> & Hq & ->)|(Hshort & ->)]; try done.
    + cbn [res_bind with_last with_need lastNeed]. rewrite zlen_app, Hq in *. pose proof (zlen_nonneg e2).
      apply bytes_ok_app in Heb as [Hqb He2b].
      assert (groups (p ++ q)) as Hgq by (split; [rewrite zlen_app, Hq, <- Htot; done|split; [by apply Forall_app|rewrite zlen_app; lia]]).
      assert (zlen (p ++ q ++ drop (length q) tl) = size /\ bytes_ok (p ++ q ++ drop (length q) tl)) as [Hs' Hok'].
      { rewrite Hch in Hok, Hs. apply bytes_ok_app in Hok as [_ Htl]. rewrite !zlen_app in *. split.
        - unfold zlen in *. rewrite length_drop. lia.
        - rewrite !bytes_ok_app. split_and!; try done. by apply Forall_drop. }
      destruct (Z.ltb_spec (lastNeed d) (lastNeed d + zlen e2)).
      * destruct (Htext (with_last d 0 (lastTotal d) (p ++ q ++ drop (length q) tl)) q e2)
          as (d' & w & p' & Ht & Ee & Hw & Hst'); try done; [|rewrite zlen_app; lia|].
        { intros ->. unfold zlen in *. simpl in *. lia. }
        match goal with |- context [text tas ?x _ _] =>
          change x with (with_last d 0 (lastTotal d) (p ++ q ++ drop (length q) tl)) end.
        rewrite <- Hq, Ht. cbn [res_bind]. exists d', (p ++ q ++ w), p'. subst e2. rewrite !zlen_app in *.
        apply bytes_ok_app in He2b as [? ?]. pose proof (zlen_nonneg w). pose proof (zlen_nonneg p').
        split_and!; try done.
        -- rewrite (app_assoc p q w), (Hadd (p ++ q) w); [done|done|split; [done|lia]|].
           split; [by rewrite !bytes_ok_app|rewrite !zlen_app; lia].
        -- by rewrite <- !app_assoc.
        -- split_and!; [|by rewrite !bytes_ok_app|rewrite !zlen_app; lia].
           rewrite !zlen_app, Z.add_assoc, Hq, <- Htot, Z.add_mod, Hmod, Hw by lia. done.
        -- split; [by apply Forall_app|rewrite zlen_app; lia].
      * assert (e2 = []) as -> by (destruct e2; [done|unfold zlen in *; simpl in *; lia]).
        eexists _, (p ++ q), []. rewrite !app_nil_r. split_and!; try done.
        -- split_and!; try done. by left.
        -- split; [done|simpl; lia].
    + cbn [res_bind]. eexists _, [], (p ++ e). rewrite Hnil. split; [done|]. split; [done|]. split; [done|].
      assert (0 <= size - zlen p) by (rewrite Hch, zlen_app in Hs; pose proof (zlen_nonneg tl); lia).
      rewrite Hch in Hok, Hs. apply bytes_ok_app in Hok as [_ Htl]. rewrite !zlen_app in *.
      split; [|split; [by rewrite <- app_assoc, !bytes_ok_app|rewrite !zlen_app; lia]].
      split_and!; simpl; try done.
      * rewrite !zlen_app. unfold zlen in *. rewrite length_drop. lia.
      * rewrite !bytes_ok_app. split_and!; try done. by apply Forall_drop.
      * right. rewrite zlen_app. split_and!; try done; try lia; [by destruct p|].
        exists (drop (length e) tl). by rewrite <- app_assoc.
Qed.

End Groups.

Lemma rem_split e t u : 0 <= t <= e -> 0 < u -> Z.rem (e - t) u = (e - t) mod u.
Proof. intros. apply Z.rem_mod_nonneg; lia. Qed.

(** A list cut before its last [n] elements. *)
Lemma cut_end {A} (l : list A) n :
  0 <= n <= zlen l -> exists a b, l = a ++ b /\ zlen b = n.
Proof.
  intros Hn. exists (take (Z.to_nat (zlen l - n)) l), (drop (Z.to_nat (zlen l - n)) l).
  rewrite take_drop. split; [done|]. unfold zlen in *. rewrite length_drop. lia.
Qed.

Lemma byte_at_is pre a post l j : l = pre ++ a :: post -> j = zlen pre -> byte_ok a -> byte_at l j = a.
Proof. intros -> -> Ha. by apply byte_at_head. Qed.

Lemma base64_text : group_text "base64" Base64E 3 3.
Proof.
  intros d pre mid He Hneed Hs Hok Hne Hb Hl. unfold text.
  rewrite bool_decide_false, bool_decide_true by (rewrite He; done). unfold base64Text.
  pose proof (zlen_nonneg pre). pose proof (zlen_nonneg mid). rewrite zlen_app in *.
  rewrite rem_split by lia. replace (zlen pre + zlen mid - zlen pre) with (zlen mid) by lia.
  destruct (Z.eqb_spec (zlen mid mod 3) 0) as [Hm|Hm].
  { rewrite (toString_rest "base64" Base64E) by (rewrite ?zlen_app; done). cbn [res_bind].
    exists d, mid, []. rewrite app_nil_r. split_and!; try done. split_and!; try done. by left. }
  destruct (cut_end mid (zlen mid mod 3)) as (w & b & -> & Hbl); [dlia|]. rewrite <- Hbl in *.
  apply bytes_ok_app in Hb as [_ Hb]. rewrite zlen_app in *. pose proof (zlen_nonneg w).
  replace (zlen pre + (zlen w + zlen b) - zlen b) with (zlen pre + zlen w) by lia.
  rewrite (toString_mid "base64" Base64E pre w b) by (rewrite ?zlen_app; done). cbn [res_bind].
  destruct (lastChar d) as [|c0 [|c1 [|c2 [|c3 l]]]] eqn:Ec; try (unfold zlen in Hs; simpl in Hs; lia).
  eexists _, w, b. split; [done|]. split; [done|]. split; [dlia|].
  destruct b as [|b0 [|b1 [|b2 b]]]; [done| | |unfold zlen in Hbl, Hm; simpl in *; dlia].
  - inversion_clear Hb as [|? ? Hb0 _]. change (zlen [b0] =? 1) with true. cbv iota.
    rewrite (byte_at_is (pre ++ w) b0 []) by (rewrite ?zlen_app, <- ?app_assoc; change (zlen [b0]) with 1; done || lia).
    split_and!; simpl; try done; [inversion_clear Hok; by constructor|].
    right. split_and!; try done. by exists [c1; c2].
  - inversion_clear Hb as [|? ? Hb0 Hb']. inversion_clear Hb' as [|? ? Hb1 _]. change (zlen [b0; b1] =? 1) with false. cbv iota.
    rewrite (byte_at_is (pre ++ w) b0 [b1]) by (rewrite ?zlen_app, <- ?app_assoc; change (zlen [b0; b1]) with 2; done || lia).
    rewrite (byte_at_is (pre ++ w ++ [b0]) b1 [])
      by (rewrite ?zlen_app, <- ?app_assoc; change (zlen [b0; b1]) with 2; change (zlen [b0]) with 1; done || lia).
    split_and!; simpl; try done.
    + inversion_clear Hok as [|? ? ? Hok1]. inversion_clear Hok1. constructor; [done|]. by constructor.
    + right. split_and!; try done. by exists [c2].
Qed.

(** Induction along the pairs of bytes. *)
Lemma pairs_ind (P : list Z -> Prop) :
  P [] -> (forall a b l, P l -> P (a :: b :: l)) -> forall l, zlen l mod 2 = 0 -> P l.
Proof.
  intros H0 H2 l. remember (length l) as n eqn:Hn. assert (length l <= n)%nat as Hle by lia. clear Hn. revert l Hle.
  induction n as [|n IH]; intros [|a [|b l]] Hle Hm; simpl in Hle; try done; try lia.
  apply H2, IH; [lia|]. unfold zlen in *. simpl length in Hm. dlia.
Qed.

Lemma units_app w x : zlen w mod 2 = 0 -> utf16le_units (w ++ x) = utf16le_units w ++ utf16le_units x.
Proof. intros Hw. revert w Hw. apply pairs_ind; [done|]. intros a b l IH. simpl. by rewrite IH. Qed.

Lemma units_length w : zlen w mod 2 = 0 -> 2 * zlen (utf16le_units w) = zlen w.
Proof. intros Hw. revert w Hw. apply pairs_ind; [done|]. intros a b l IH. unfold zlen in *. simpl. lia. Qed.

Lemma slice_ucs2 x : zlen x < pow31 -> slice_all UCS2 x = utf16le_units x.
Proof. intros Hx. unfold slice_all, ucs2Slice. by rewrite byte_slice_all. Qed.

Lemma utf16_text : group_text "utf16le" UCS2 2 4.
Proof.
  intros d pre mid He Hneed Hs Hok Hne Hb Hl. unfold text. rewrite bool_decide_true by done. unfold utf16Text.
  pose proof (zlen_nonneg pre). pose proof (zlen_nonneg mid). pose proof Hl as Hl'. rewrite zlen_app in Hl' |- *.
  rewrite rem_split by lia. replace (zlen pre + zlen mid - zlen pre) with (zlen mid) by lia.
  destruct (lastChar d) as [|c0 [|c1 [|c2 [|c3 [|c4 l]]]]] eqn:Ec; try (unfold zlen in Hs; simpl in Hs; lia).
  inversion_clear Hok as [|? ? Hc0 Hok']. inversion_clear Hok' as [|? ? Hc1 Hok''].
  destruct (Z.eqb_spec (zlen mid mod 2) 0) as [Hm|Hm].
  - rewrite (toString_rest "utf16le" UCS2) by done. cbn [res_bind].
    assert (group_state "utf16le" 2 4 d []) as Hst0.
    { split_and!; [done|by rewrite Ec| |by left]. rewrite Ec. by repeat (constructor; [done|]). }
    destruct (0 <? zlen (slice_all UCS2 mid)) eqn:Hz.
    2: { exists d, mid, []. rewrite app_nil_r. by split_and!. }
    destruct ((55296 <=? _) && _); [|exists d, mid, []; rewrite app_nil_r; by split_and!].
    assert (2 <= zlen mid) as H2.
    { assert (0 < zlen mid) by (destruct mid; [done|unfold zlen; simpl; lia]). dlia. }
    destruct (cut_end mid 2) as (w & b & -> & Hbl); [lia|].
    destruct b as [|b0 [|b1 [|b2 b]]]; try (unfold zlen in Hbl; simpl in Hbl; lia).
    apply bytes_ok_app in Hb as [_ Hb]. inversion_clear Hb as [|? ? Hb0 Hb']. inversion_clear Hb' as [|? ? Hb1 _].
    rewrite zlen_app in *. change (zlen [b0; b1]) with 2 in *. pose proof (zlen_nonneg w).
    assert (zlen w mod 2 = 0) as Hw by dlia.
    eexists _, w, [b0; b1]. split; [|split; [done|split; [done|]]].
    + do 2 f_equal. rewrite !slice_ucs2 by (rewrite ?zlen_app; change (zlen [b0; b1]) with 2; lia).
      rewrite units_app, zlen_app by done. cbn [utf16le_units].
      replace (zlen (utf16le_units w) + _ - 1) with (zlen (utf16le_units w)) by (unfold zlen at 3; simpl; lia).
      apply (zsub_app [] (utf16le_units w)).
    + rewrite (byte_at_is (pre ++ w) b0 [b1]) by (rewrite ?zlen_app, <- ?app_assoc; done || lia).
      rewrite (byte_at_is (pre ++ w ++ [b0]) b1 [])
        by (rewrite ?zlen_app, <- ?app_assoc; change (zlen [b0]) with 1; done || lia).
      split_and!; simpl; try done.
      * constructor; [done|]. by constructor.
      * right. split_and!; try done. by exists [c2; c3].
  - destruct (cut_end mid 1) as (w & b & -> & Hbl); [split; [lia|destruct mid; [done|unfold zlen; simpl; lia]]|].
    destruct b as [|b0 [|b1 b]]; try (unfold zlen in Hbl; simpl in Hbl; lia).
    apply bytes_ok_app in Hb as [_ Hb]. inversion_clear Hb as [|? ? Hb0 _].
    rewrite zlen_app in *. change (zlen [b0]) with 1 in *. pose proof (zlen_nonneg w).
    replace (zlen pre + (zlen w + 1) - 1) with (zlen pre + zlen w) by lia.
    rewrite (toString_mid "utf16le" UCS2 pre w [b0]) by (rewrite ?zlen_app; done). cbn [res_bind].
    eexists _, w, [b0]. split; [done|]. split; [done|]. split; [dlia|].
    rewrite (byte_at_is (pre ++ w) b0 []) by (rewrite ?zlen_app, <- ?app_assoc; done || lia).
    split_and!; simpl; try done; [by constructor; [|constructor]|].
    right. split_and!; try done. by exists [c1; c2; c3].
Qed.

Lemma utf16_dec_app w x :
  groups 2 w -> group_valid x -> group_valid (w ++ x) -> slice_all UCS2 (w ++ x) = slice_all UCS2 w ++ slice_all UCS2 x.
Proof. intros (Hm & _ & Hw) [_ Hx] [_ Hwx]. rewrite !slice_ucs2 by done. by apply units_app. Qed.

Lemma base64_dec_app w x :
  groups 3 w -> group_valid x -> group_valid (w ++ x) -> slice_all Base64E (w ++ x) = slice_all Base64E w ++ slice_all Base64E x.
Proof.
  intros (Hm & Hw & _) [Hx _] _. unfold slice_all, base64Slice. rewrite !Z.eqb_refl. simpl andb. cbv iota.
  rewrite !Base64.encode_is_ref by (done || by apply Forall_app). by apply Base64.ref_encode_app.
Qed.

(** ** The end of the stream *)

Lemma group_end enc k u size d p :
  find_encoding enc = Some k -> cuts k = true -> (enc = "utf16le"%string \/ enc = "base64"%string /\ u = 3 /\ size = 3) ->
  size < pow31 -> group_state enc u size d p -> exists d', end_ tas d None = Ok (d', slice_all k p).
Proof.
  intros Hk Hc Henc Hsz (He & Hs & Hok & [[-> Hneed]|(Hpn & Hneed & Htot & Hle & Hmod & tl & Hch)]); exists d;
    unfold end_, utf16End, base64End; cbn [simpleEnd res_bind]; rewrite He.
  - assert (slice_all k [] = []) as -> by (by destruct k). rewrite Hneed.
    destruct Henc as [->|(-> & _)]; [rewrite bool_decide_true|rewrite bool_decide_false, bool_decide_true]; done.
  - rewrite (proj2 (Z.eqb_neq (lastNeed d) 0)) by lia. cbv iota.
    pose proof (toString_mid enc k [] p tl Hk Hc) as Hts. cbn [app] in Hts. change (zlen []) with 0 in Hts.
    rewrite <- Hch, Z.add_0_l in Hts. rewrite Hs in Hts. specialize (Hts Hsz).
    destruct Henc as [->|(-> & -> & ->)].
    + rewrite bool_decide_true by done. replace (lastTotal d - lastNeed d) with (zlen p) by lia. by rewrite Hts.
    + rewrite bool_decide_false, bool_decide_true by done.
      assert (0 < zlen p) by (destruct p; [done|unfold zlen; simpl; lia]).
      replace (3 - lastNeed d) with (zlen p) by dlia. by rewrite Hts.
Qed.

(** ** hex, ascii and latin1: nothing is kept *)

Definition plain_state (n : string) (d : decoder) (p : list Z) : Prop := encoding d = n /\ p = [].

Lemma slice_plain k x : cuts k = false -> bytes_ok x ->
  slice_all k x = flat_map (fun b => match k with
                                     | Hex => toHex b
                                     | ASCII => [js_and 127 (to_int32 b) mod 65536]
                                     | _ => [b]
                                     end) x.
Proof.
  intros Hk Hx. pose proof (zlen_nonneg x). destruct k; try done; simpl.
  - apply hexSlice_all.
  - unfold asciiSlice, rd. rewrite Z.min_id.
    rewrite (forZ_collect (fun o => [js_and 127 (nint (match o with Some z => Num z | None => Undef end)) mod 65536]))
      by lia. by rewrite zsub_all.
  - rewrite latin1Slice_all by done. clear. induction x as [|b x IH]; [done|]. simpl. by f_equal.
Qed.

Lemma plain_write n k d p e rest :
  find_encoding n = Some k -> cuts k = false ->
  n <> "utf16le"%string -> n <> "utf8"%string -> n <> "base64"%string ->
  plain_state n d p -> group_valid (p ++ e ++ rest) ->
  exists d' w p', write tas d e = Ok (d', slice_all k w) /\ p ++ e = w ++ p' /\ group_valid w /\
    plain_state n d' p' /\ group_valid (p' ++ rest).
Proof.
  intros Hk Hc H1 H2 H3 [He ->] [Hb Hl]. cbn [app] in *. apply bytes_ok_app in Hb as [? ?].
  rewrite zlen_app in Hl. pose proof (zlen_nonneg e). pose proof (zlen_nonneg rest).
  exists d, e, []. unfold write. replace (buffered d) with false.
  2: { symmetry. apply bool_decide_false. rewrite He. tauto. }
  simpl negb. cbv iota. unfold simpleWrite. rewrite He, (toString_all e n k) by (unfold pow31, pow32 in *; done || lia). cbn [res_bind app].
  rewrite app_nil_r. split_and!; try done; split; done || lia.
Qed.

(** ** The constructor *)

Definition encoding_of (k : BufferText.encoding) : string :=
  match k with
  | Hex => "hex" | UTF8 => "utf8" | ASCII => "ascii" | Latin1 => "latin1" | Base64E => "base64" | UCS2 => "utf16le"
  end.

Definition kept (k : BufferText.encoding) : list Z :=
  match k with UTF8 | UCS2 => replicate 4 0 | Base64E => replicate 3 0 | _ => [] end.

Lemma normal_case_encoding e : normal_case e = encoding_of <$> encoding_case e.
Proof.
  unfold normal_case, encoding_case.
  destruct (decide (e = "hex"%string)) as [->|]; [done|]. rewrite (bool_decide_false (e = "hex"%string)) by done.
  destruct (decide (e = "ascii"%string)) as [->|]; [done|]. rewrite (bool_decide_false (e = "ascii"%string)) by done.
  destruct (decide (e = "base64"%string)) as [->|]; [done|]. rewrite (bool_decide_false (e = "base64"%string)) by done.
  rewrite (bool_decide_false (e = "base64"%string \/ _)) by tauto.
  repeat case_bool_decide; simplify_eq; done || (exfalso; intuition congruence).
Qed.

Lemma StringDecoder_ok e k :
  find_encoding e = Some k -> StringDecoder e = Ok (Decoder (encoding_of k) 0 0 (kept k)).
Proof.
  intros Hk. destruct (encoding_name e k Hk) as [_ Hne].
  unfold StringDecoder, normalizeEncoding, _normalizeEncoding. rewrite bool_decide_false by done.
  unfold find_encoding in Hk. rewrite !normal_case_encoding.
  assert (match encoding_of <$> encoding_case e with Some t => Some t | None => encoding_of <$> encoding_case (lower e) end
    = Some (encoding_of k)) as ->.
  { destruct (encoding_case e); simpl in *; [by simplify_eq|]. by rewrite Hk. }
  by destruct k.
Qed.

Lemma find_encoding_of k : find_encoding (encoding_of k) = Some k.
Proof. by destruct k. Qed.

End Methods.

(** C27: the text of a stream does not depend on how its bytes are cut in chunks. In
    every encoding, writing the chunks to a decoder and ending it gives the text that
    [toString] gives for all the bytes together; in UTF-8 the bytes have to be those of a
    text, in the other encodings they are any bytes. *)
Theorem string_decoder_chunks tas e k chunks :
  find_encoding e = Some k -> bytes_ok (List.concat chunks) -> zlen (List.concat chunks) < pow31 ->
  (k = UTF8 -> utf8_text (List.concat chunks)) ->
  decode tas e chunks = toString (List.concat chunks) e None None.
Proof.
  intros Hk Hb Hl Hu. rewrite (toString_all _ e k) by (unfold pow31, pow32 in *; done || lia).
  pose proof (StringDecoder_ok e k Hk) as Hd. pose proof (find_encoding_of k) as Hk'.
  assert (group_valid (List.concat chunks)) as Hv by done.
  assert (forall w x, cuts k = false -> group_valid w -> group_valid x ->
    slice_all k (w ++ x) = slice_all k w ++ slice_all k x) as Hplain.
  { intros w x Hc [Hw _] [Hx _]. by rewrite !slice_plain, flat_map_app by (done || by apply Forall_app). }
  destruct (cuts k) eqn:Hc.
  2: { apply (stream_decode tas (plain_state (encoding_of k)) (slice_all k) group_valid group_valid) with (4 := Hd); try done; [| |].
       - intros. apply (plain_write tas (encoding_of k)); try done; by destruct k.
       - intros w x ? ? _. by apply Hplain.
       - intros d p [Hd' ->] _. exists d. unfold end_. rewrite Hd'. by destruct k. }
  destruct k; try done.
  - apply (stream_decode tas utf8_state (slice_all UTF8) utf8_text utf8_valid) with (4 := Hd).
    + apply utf8_write.
    + apply utf8_dec_app.
    + apply utf8_end.
    + split_and!; try done; [|by left]. by repeat (constructor; [done|]).
    + split; [by apply Hu|done].
  - apply (stream_decode tas (group_state "base64" 3 3) (slice_all Base64E) (groups 3) group_valid) with (4 := Hd); try done.
    + apply group_write; try done; try lia; [by right|apply base64_text|]. by apply base64_dec_app.
    + apply base64_dec_app.
    + intros d p Hst _. apply (group_end tas "base64" Base64E 3 3); try done. by right.
    + split_and!; try done; [|by left]. by repeat (constructor; [done|]).
  - apply (stream_decode tas (group_state "utf16le" 2 4) (slice_all UCS2) (groups 2) group_valid) with (4 := Hd); try done.
    + apply group_write; try done; try lia; [by left|apply utf16_text|]. apply utf16_dec_app.
    + apply utf16_dec_app.
    + intros d p Hst _. apply (group_end tas "utf16le" UCS2 2 4); try done. by left.
    + split_and!; try done; [|by left]. by repeat (constructor; [done|]).
Qed.

Lemma string_decoder_chunks_witness :
  decode true "UTF-8" [[226]; [130]; [172; 240; 159]; []; [152; 128]]
  = toString [226; 130; 172; 240; 159; 152; 128] "UTF-8" None None.
Proof.
  apply (string_decoder_chunks true "UTF-8" UTF8 [[226]; [130]; [172; 240; 159]; []; [152; 128]]).
  - reflexivity.
  - repeat constructor; concrete.
  - concrete.
  - intros _. exists [8364; 128512]. split; [|reflexivity].
    constructor; [left; concrete|constructor; [right; concrete|constructor]].
Defined.

(** On bytes that are not UTF-8 the text depends on the chunks: a character that is
    cut and never completed gives one replacement character where the whole buffer
    gives one for each of its bytes. *)
Theorem string_decoder_invalid :
  decode true "utf8" [[226]; [130]; [65]] = Ok [65533; 65] /\
  toString [226; 130; 65] "utf8" None None = Ok [65533; 65533; 65] /\
  decode true "utf8" [[226; 130; 65]] = Ok [65533; 65533; 65].
Proof. vm_compute. done. Qed.

End StringDecoder.
