(* ===== verification/Punycode.v ===== *)
(** * punycode

    Models lines 31874 to 31988 of src/client/docs/swagger-ui/swagger-ui-bundle.js
    (punycode 1.3.2): the conversions between UTF-16 and code points, the digits, the
    adaptation of the bias, [decode] and [encode] with their checks against overflow,
    and [toASCII] and [toUnicode] on domain names.  The numbers are integers below 2^53,
    where [Math.floor] of a quotient is the integer division; Unicode's [toLowerCase] is
    an argument. *)

From S2P Require Import Prelude JsString Utf8.
From Stdlib Require Import String.
From stdpp Require Import base numbers list strings option.
Open Scope Z_scope.

Module Punycode.
Import Utf8.

Definition maxInt : Z := 2147483647.
Definition base : Z := 36.
Definition tMin : Z := 1.
Definition tMax : Z := 26.
Definition skew : Z := 38.
Definition damp : Z := 700.
Definition initialBias : Z := 72.
Definition initialN : Z := 128.
Definition delimiter : Z := 45.
Definition baseMinusTMin : Z := base - tMin.

Inductive error_type := overflow | not_basic | invalid_input.

Definition error {A} (e : error_type) : res A :=
  Throw (RangeError match e with
                    | overflow => "Overflow: input needs wider integers to process"
                    | not_basic => "Illegal input >= 0x80 (not a basic code point)"
                    | invalid_input => "Invalid input"
                    end).

(** ** UTF-16 *)

Fixpoint ucs2decode (e : jsstring) : list Z :=
  match e with
  | [] => []
  | t :: e' =>
      if (55296 <=? t) && (t <=? 56319) then
        match e' with
        | n :: e'' =>
            if js_and 64512 n =? 56320
            then js_shl (js_and 1023 t) 10 + js_and 1023 n + 65536 :: ucs2decode e''
            else t :: ucs2decode e'
        | [] => [t]
        end
      else t :: ucs2decode e'
  end.

Definition ucs2encode_point (e : Z) : jsstring :=
  if 65535 <? e then
    let e := e - 65536 in
    [js_or (js_and (js_ushr e 10) 1023) 55296 mod 65536; js_or 56320 (js_and 1023 e) mod 65536]
  else [e mod 65536].
Definition ucs2encode (e : list Z) : jsstring := flat_map ucs2encode_point e.

(** ** Digits and the bias *)

Definition basicToDigit (y : Z) : Z :=
  if y - 48 <? 10 then y - 22
  else if y - 65 <? 26 then y - 65
  else if y - 97 <? 26 then y - 97
  else base.

Definition digitToBasic (e : Z) (flag : bool) : Z :=
  e + 22 + (if e <? 26 then 75 else 0) - (if flag then 32 else 0).

(** [for (; e > w * f >> 1; r += l) e = E(e / w)]; the number is halved at least in
    every round. *)
Fixpoint adapt_loop (fuel : nat) (e r : Z) : Z * Z :=
  match fuel with
  | O => (e, r)
  | S fuel => if js_shr (baseMinusTMin * tMax) 1 <? e then adapt_loop fuel (e / baseMinusTMin) (r + base) else (e, r)
  end.

Definition adapt (e t : Z) (n : bool) : Z :=
  let e := if n then e / damp else js_shr e 1 in
  let e := e + e / t in
  let '(e, r) := adapt_loop (S (Z.to_nat (Z.log2 e))) e 0 in
  r + (baseMinusTMin + 1) * e / (e + skew).

Definition threshold (u bias : Z) : Z :=
  if u <=? bias then tMin else if bias + tMax <=? u then tMax else u - bias.

(** ** decode *)

(** One variable-length integer: the new [i] and what is left of the text. *)
Fixpoint read_int (e : jsstring) (w a u bias : Z) : res (Z * jsstring) :=
  match e with
  | [] => error invalid_input
  | y :: e =>
      let p := basicToDigit y in
      if (base <=? p) || ((maxInt - w) / a <? p) then error overflow
      else
        let w := w + p * a in
        let d := threshold u bias in
        if p <? d then Ok (w, e)
        else
          let g := base - d in
          if maxInt / g <? a then error overflow
          else read_int e w (a * g) (u + base) bias
  end.

(** [b.splice(w, 0, x)]. *)
Definition splice_in (b : list Z) (w x : Z) : list Z :=
  let k := Z.to_nat (if w <? 0 then Z.max (zlen b + w) 0 else w) in
  take k b ++ x :: drop k b.

(** The output, [i], [n] and the bias. *)
Definition dstate : Type := list Z * Z * Z * Z.

Definition decode_step (e : jsstring) (s : dstate) : res (jsstring * dstate) :=
  let '(b, w, x, bias) := s in
  let i := w in
  let! (w, e) := read_int e w 1 base bias in
  let t := zlen b + 1 in
  let bias := adapt (w - i) t (i =? 0) in
  if maxInt - x <? w / t then error overflow
  else
    let x := x + w / t in
    let w := Z.rem w t in
    Ok (e, (splice_in b w x, w + 1, x, bias)).

(** Every round reads a digit. *)
Fixpoint decode_loop (fuel : nat) (e : jsstring) (s : dstate) : res (list Z) :=
  match e, fuel with
  | [], _ => Ok (let '(b, _, _, _) := s in b)
  | _, O => error invalid_input
  | _, S fuel => let! (e, s) := decode_step e s in decode_loop fuel e s
  end.

Definition decode (e : jsstring) : res jsstring :=
  let n := Z.max (last_index_of delimiter e) 0 in
  let b := zsub e 0 n in
  if forallb (fun c => c <? 128) b then
    let rest := if 0 <? n then drop (Z.to_nat (n + 1)) e else e in
    let! b := decode_loop (length rest) rest (b, 0, initialN, initialBias) in
    Ok (ucs2encode b)
  else error not_basic.

(** ** encode *)

(** One variable-length integer; every digit but the last divides it by 10 at least. *)
Fixpoint write_int (fuel : nat) (p d bias : Z) : jsstring :=
  let g := threshold d bias in
  match fuel with
  | O => []
  | S fuel =>
      if p <? g then [digitToBasic p false]
      else
        let C := p - g in
        let w := base - g in
        digitToBasic (g + Z.rem C w) false :: write_int fuel (C / w) (d + base) bias
  end.
Definition int_fuel (p : Z) : nat := S (Z.to_nat (Z.log2 p)) + 1.

(** The output, delta, the bias and the number of code points handled. *)
Definition estate : Type := jsstring * Z * Z * Z.

(** The body of the scan of the input for the code point [t]. *)
Definition encode_point (t plusOne basicLength : Z) (y : Z) (s : estate) : res estate :=
  let '(k, n, bias, r) := s in
  let n := if y <? t then n + 1 else n in
  if (y <? t) && (maxInt <? n) then error overflow
  else if y =? t then
    Ok (k ++ write_int (int_fuel n) n base bias, 0, adapt n plusOne (r =? basicLength), r + 1)
  else Ok (k, n, bias, r).

Fixpoint encode_scan (t plusOne basicLength : Z) (e : list Z) (s : estate) : res estate :=
  match e with
  | [] => Ok s
  | y :: e => let! s := encode_point t plusOne basicLength y s in encode_scan t plusOne basicLength e s
  end.

(** The least code point of the input that is not below [t]. *)
Definition next_point (e : list Z) (t : Z) : Z :=
  fold_left (fun u y => if (t <=? y) && (y <? u) then y else u) e maxInt.

(** Every round handles a code point. *)
Fixpoint encode_loop (fuel : nat) (e : list Z) (basicLength t : Z) (s : estate) : res jsstring :=
  let '(k, n, bias, r) := s in
  if r <? zlen e then
    match fuel with
    | O => error overflow
    | S fuel =>
        let u := next_point e t in
        let plusOne := r + 1 in
        if (maxInt - n) / plusOne <? u - t then error overflow
        else
          let n := n + (u - t) * plusOne in
          let! (k, n, bias, r) := encode_scan u plusOne basicLength e (k, n, bias, r) in
          encode_loop fuel e basicLength (u + 1) (k, n + 1, bias, r)
    end
  else Ok k.

Definition encode (e : jsstring) : res jsstring :=
  let e := ucs2decode e in
  let k := List.filter (fun y => y <? 128) e in
  let o := zlen k in
  encode_loop (length e) e o initialN (if o =? 0 then k else k ++ [delimiter], 0, initialBias, o).

(** ** Domain names *)

(** The separators of RFC 3490. *)
Definition separator (c : Z) : bool := (c =? 46) || (c =? 12290) || (c =? 65294) || (c =? 65377).

(** The callback from the last label to the first. *)
Fixpoint map_last (l : list jsstring) (t : jsstring -> res jsstring) : res (list jsstring) :=
  match l with
  | [] => Ok []
  | p :: l => let! l := map_last l t in let! p := t p in Ok (p :: l)
  end.

Definition mapDomain (e : jsstring) (t : jsstring -> res jsstring) : res jsstring :=
  let '(r, e) := match split_on 64 e with
                 | p :: q :: _ => (p ++ [64], q)
                 | _ => ([], e)
                 end in
  let e := map (fun c => if separator c then 46 else c) e in
  let! l := map_last (split_on 46 e) t in
  Ok (r ++ join_with [46] l).

(** [/[^\x20-\x7E]/.test] and [/^xn--/.test]. *)
Definition nonASCII (e : jsstring) : bool := existsb (fun c => negb ((32 <=? c) && (c <=? 126))) e.
Definition punycoded (e : jsstring) : bool := bool_decide (take 4 e = js "xn--").

Definition toASCII (e : jsstring) : res jsstring :=
  mapDomain e (fun e => if nonASCII e then let! s := encode e in Ok (js "xn--" ++ s) else Ok e).

Section Case.
Context (toLowerCase : jsstring -> jsstring).

Definition toUnicode (e : jsstring) : res jsstring :=
  mapDomain e (fun e => if punycoded e then decode (toLowerCase (drop 4 e)) else Ok e).

End Case.

(** ** Variable-length integers *)

Lemma digit_basic D : 0 <= D < 36 -> basicToDigit (digitToBasic D false) = D.
Proof.
  intros HD. unfold digitToBasic, basicToDigit.
  destruct (Z.ltb_spec D 26); repeat match goal with |- context [?x <? ?y] => destruct (Z.ltb_spec x y); try lia end; lia.
Qed.

Lemma threshold_range u bias : 1 <= threshold u bias <= 26.
Proof. unfold threshold, tMin, tMax. destruct (Z.leb_spec u bias); [lia|]. destruct (Z.leb_spec (bias + 26) u); lia. Qed.

(** A letter or a digit. *)
Definition digit_code (c : Z) : Prop := 48 <= c <= 57 \/ 97 <= c <= 122.

Lemma digit_code_basic D : 0 <= D < 36 -> digit_code (digitToBasic D false).
Proof. intros HD. unfold digitToBasic, digit_code. destruct (Z.ltb_spec D 26); lia. Qed.

Lemma write_int_step p g : 1 <= g <= 26 -> g <= p ->
  0 <= (p - g) / (36 - g) <= p / 2 /\ 0 <= Z.rem (p - g) (36 - g) < 36 - g /\
  g + Z.rem (p - g) (36 - g) + (36 - g) * ((p - g) / (36 - g)) = p.
Proof.
  intros Hg Hp. rewrite Z.rem_mod_nonneg by lia.
  pose proof (Z.div_mod (p - g) (36 - g) ltac:(lia)) as H1. pose proof (Z.mod_pos_bound (p - g) (36 - g) ltac:(lia)) as H2.
  assert (0 <= (p - g) / (36 - g)) by (apply Z.div_pos; lia).
  split; [split; [done|]|split; lia].
  apply Z.div_le_lower_bound; [lia|]. nia.
Qed.

Lemma read_write f p d bias w a rest :
  (1 <= f)%nat -> 0 <= p < 2 ^ (Z.of_nat f - 1) -> 0 <= w -> 1 <= a -> w + p * a <= maxInt -> 35 * (a * p) <= maxInt ->
  read_int (write_int f p d bias ++ rest) w a d bias = Ok (w + p * a, rest).
Proof.
  revert p d w a. induction f as [|f IH]; intros p d w a Hf Hp Hw Ha Hwp Hap; [lia|].
  cbn [write_int]. pose proof (threshold_range d bias) as Hg. set (g := threshold d bias) in *.
  destruct (Z.ltb_spec p g) as [Hlt|Hge].
  - cbn [app read_int]. rewrite digit_basic by lia. unfold base. fold g.
    rewrite (proj2 (Z.leb_gt 36 p)) by lia. simpl orb.
    rewrite (proj2 (Z.ltb_ge ((maxInt - w) / a) p)) by (apply Z.div_le_lower_bound; lia).
    by rewrite (proj2 (Z.ltb_lt p g)).
  - destruct (write_int_step p g Hg Hge) as ([Hq0 Hq] & Hr & Hsum).
    set (q := (p - g) / (36 - g)) in *. set (r := Z.rem (p - g) (36 - g)) in *.
    change (Z.rem (p - g) (base - g)) with r. change ((p - g) / (base - g)) with q.
    cbn [app read_int]. rewrite digit_basic by lia. fold g.
    rewrite (proj2 (Z.leb_gt base (g + r))) by (unfold base; lia). simpl orb.
    assert (g + r <= p) by nia.
    rewrite (proj2 (Z.ltb_ge ((maxInt - w) / a) (g + r))) by (apply Z.div_le_lower_bound; nia).
    rewrite (proj2 (Z.ltb_ge (g + r) g)) by lia.
    rewrite (proj2 (Z.ltb_ge (maxInt / (base - g)) a)) by (unfold base; apply Z.div_le_lower_bound; nia).
    rewrite IH; [do 2 f_equal; unfold base; nia| | |nia|unfold base; nia|unfold base; nia|unfold base; nia].
    + destruct f; [|lia]. simpl in Hp. lia.
    + split; [done|]. assert (2 ^ (Z.of_nat (S f) - 1) = 2 * 2 ^ (Z.of_nat f - 1)) as E.
      { destruct f; [simpl in Hp; lia|]. rewrite <- Z.pow_succ_r by lia. f_equal. lia. }
      rewrite E in Hp. dlia.
Qed.

Lemma read_write_int p bias w rest :
  0 <= p -> 0 <= w -> w + p <= maxInt -> 35 * p <= maxInt ->
  read_int (write_int (int_fuel p) p base bias ++ rest) w 1 base bias = Ok (w + p, rest).
Proof.
  intros Hp Hw H1 H2. rewrite read_write; try lia; [do 2 f_equal; lia|unfold int_fuel; lia|].
  unfold int_fuel. split; [done|]. destruct (Z.eq_dec p 0) as [->|]; [done|].
  pose proof (Z.log2_spec p ltac:(lia)) as [_ Hl]. pose proof (Z.log2_nonneg p).
  eapply Z.lt_le_trans; [apply Hl|]. apply Z.pow_le_mono_r; lia.
Qed.

Lemma write_int_digits f p d bias : 0 <= p -> Forall digit_code (write_int f p d bias).
Proof.
  revert p d. induction f as [|f IH]; intros p d Hp; [constructor|]. cbn [write_int].
  pose proof (threshold_range d bias) as Hg. set (g := threshold d bias) in *. destruct (Z.ltb_spec p g).
  - constructor; [apply digit_code_basic; lia|constructor].
  - destruct (write_int_step p g) as ([? ?] & Hr & _); [lia..|]. unfold base.
    constructor; [apply digit_code_basic; lia|]. apply IH. lia.
Qed.

Lemma write_int_cons p bias : exists c l, write_int (int_fuel p) p base bias = c :: l.
Proof. unfold int_fuel. cbn [Nat.add write_int]. destruct (p <? _); eauto. Qed.

(** The number of points does not matter when half of delta is less. *)
Lemma adapt_small e t1 t2 : 0 <= e < pow31 -> e / 2 < t1 -> e / 2 < t2 -> adapt e t1 false = adapt e t2 false.
Proof.
  intros He H1 H2. unfold adapt. rewrite (js_shr_div e 1) by (unfold pow31 in *; lia). change (2 ^ 1) with 2.
  rewrite !(Z.div_small (e / 2)) by dlia. done.
Qed.

Lemma read_int_shorter e w a u bias w' e' : read_int e w a u bias = Ok (w', e') -> (length e' < length e)%nat.
Proof.
  revert w a u. induction e as [|y e IH]; intros w a u; simpl; [done|].
  destruct (_ || _); [done|]. destruct (_ <? _); [intros [= _ <-]; lia|].
  destruct (_ <? a); [done|]. intros H. apply IH in H. lia.
Qed.

(** ** Rounds of the decoder *)

Inductive dsteps : jsstring -> dstate -> jsstring -> dstate -> Prop :=
| dsteps_refl e s : dsteps e s e s
| dsteps_step e s e' s' e'' s'' :
    e <> [] -> decode_step e s = Ok (e', s') -> dsteps e' s' e'' s'' -> dsteps e s e'' s''.

Lemma dsteps_trans e s e' s' e'' s'' : dsteps e s e' s' -> dsteps e' s' e'' s'' -> dsteps e s e'' s''.
Proof. induction 1; [done|]. intros. econstructor; eauto. Qed.

Lemma decode_step_shorter e s e' s' : decode_step e s = Ok (e', s') -> (length e' < length e)%nat.
Proof.
  destruct s as [[[b w] x] bias]. unfold decode_step. destruct (read_int e w 1 base bias) as [[w' e1]|] eqn:E; [|done].
  apply read_int_shorter in E. cbn [res_bind]. case_match; [done|]. intros [= <- _]. done.
Qed.

Lemma dsteps_loop e s s' fuel :
  dsteps e s [] s' -> (length e <= fuel)%nat -> decode_loop fuel e s = Ok (let '(b, _, _, _) := s' in b).
Proof.
  remember [] as e0 eqn:E. intros H. revert fuel. induction H as [e s|e s e' s' e'' s'' Hne Hstep _ IH]; intros fuel Hf.
  { subst e. by destruct fuel. }
  destruct e as [|c e]; [done|]. destruct fuel as [|fuel]; [simpl in Hf; lia|].
  pose proof (decode_step_shorter _ _ _ _ Hstep). cbn [decode_loop]. rewrite Hstep. cbn [res_bind].
  apply IH; [done|lia].
Qed.

(** ** The encoder and the decoder in step *)

Definition upto (t : Z) : list Z -> list Z := List.filter (fun y => y <=? t).
Definition below (t : Z) : list Z -> list Z := List.filter (fun y => y <? t).

Lemma upto_below t l : upto t l = below (t + 1) l.
Proof. apply List.filter_ext. intros y. destruct (Z.leb_spec y t), (Z.ltb_spec y (t + 1)); done || lia. Qed.

Lemma zlen_filter_le {A} (f : A -> bool) l : zlen (List.filter f l) <= zlen l.
Proof. unfold zlen. pose proof (List.filter_length_le f l). lia. Qed.

Lemma filter_all {A} (f : A -> bool) l : zlen l <= zlen (List.filter f l) -> List.filter f l = l.
Proof.
  induction l as [|x l IH]; intros H; [done|]. simpl in *. pose proof (zlen_filter_le f l). destruct (f x).
  - f_equal. apply IH. unfold zlen in *. simpl in H. lia.
  - unfold zlen in *. simpl in H. lia.
Qed.

Lemma below_upto_lt t l : t ∈ l -> zlen (below t l) < zlen (upto t l).
Proof.
  intros Hin. apply list_elem_of_split in Hin as (l1 & l2 & ->). unfold below, upto. rewrite !List.filter_app. simpl.
  rewrite Z.ltb_irrefl, Z.leb_refl, !zlen_app.
  assert (forall l, zlen (below t l) <= zlen (upto t l)) as Hle.
  { clear. induction l as [|y l IH]; [done|]. unfold below, upto in *. simpl.
    destruct (Z.ltb_spec y t), (Z.leb_spec y t); try lia; unfold zlen in *; simpl; lia. }
  pose proof (Hle l1). pose proof (Hle l2). unfold below, upto, zlen in *. simpl. lia.
Qed.

Section Simulation.
Context (inp : list Z) (k0 : jsstring).
Context (Hinp : Forall (fun y => 0 <= y <= 1114111) inp) (Hlen : zlen inp <= 55).

Let o : Z := zlen (below 128 inp).
Let s0 : dstate := (below 128 inp, 0, initialN, initialBias).

(** The encoder scans the input for the code point [t], has passed [pre] and has
    written the digits [D]; the decoder that has read them holds the code points below
    [t] and those equal to [t] in [pre], and delta is the number of positions from
    where the decoder stands to where the next code point goes. *)
Definition in_step (pre post : list Z) (t r0 : Z) (s : estate) : Prop :=
  let '(k, n, bias, r) := s in
  exists D w x, k = k0 ++ D /\ Forall digit_code D /\
    (forall rest, dsteps (D ++ rest) s0 rest (upto t pre ++ below t post, w, x, bias)) /\
    r = zlen (upto t pre ++ below t post) /\ 0 <= w <= r /\ 0 <= n /\ 128 <= x /\
    x * (r + 1) + w + n = t * (r + 1) + zlen (upto t pre) /\ (w = 0 <-> r = o) /\ o <= r /\
    (r = r0 \/ r0 < r /\ o < r /\ n <= zlen (below t pre)).

Lemma delta_bound x w n t r p :
  128 <= x -> 0 <= w -> t <= 1114111 -> 0 <= p <= r -> 0 <= r <= 55 ->
  x * (r + 1) + w + n = t * (r + 1) + p -> n + w <= 1113983 * (r + 1) + r.
Proof. intros. nia. Qed.

Lemma splice_insert (a b : list Z) x : splice_in (a ++ b) (zlen a) x = a ++ x :: b.
Proof.
  pose proof (zlen_nonneg a). unfold splice_in. rewrite (proj2 (Z.ltb_ge _ _)) by lia.
  replace (Z.to_nat (zlen a)) with (length a) by (unfold zlen; lia).
  by rewrite take_app_length, drop_app_length.
Qed.

(** The decoder reads delta, and inserts the code point the encoder is at. *)
Lemma decode_delta pre post t w x n bias rest :
  let b := upto t pre ++ below t post in let r := zlen b in
  t <= 1114111 -> r < 55 -> 0 <= w <= r -> 0 <= n -> 128 <= x ->
  x * (r + 1) + w + n = t * (r + 1) + zlen (upto t pre) ->
  decode_step (write_int (int_fuel n) n base bias ++ rest) (b, w, x, bias)
  = Ok (rest, (upto t pre ++ t :: below t post, zlen (upto t pre) + 1, t, adapt n (r + 1) (w =? 0))).
Proof.
  intros b r Ht Hr Hw Hn Hx Heq. pose proof (zlen_nonneg (upto t pre)). pose proof (zlen_nonneg (below t post)).
  assert (r = zlen (upto t pre) + zlen (below t post)) as Er by (unfold r, b; apply zlen_app).
  pose proof (delta_bound x w n t r (zlen (upto t pre)) ltac:(lia) ltac:(lia) Ht ltac:(lia) ltac:(lia) Heq) as Hb.
  unfold decode_step. rewrite read_write_int by (unfold maxInt; lia). cbn [res_bind]. fold r.
  replace (w + n - w) with n by lia.
  assert ((w + n) / (r + 1) = t - x) as Ed.
  { symmetry. apply (Z.div_unique_pos _ _ _ (zlen (upto t pre))); lia. }
  assert (Z.rem (w + n) (r + 1) = zlen (upto t pre)) as Em.
  { rewrite Z.rem_mod_nonneg by lia. symmetry. apply (Z.mod_unique_pos _ _ (t - x)); lia. }
  rewrite Ed, Em, (proj2 (Z.ltb_ge _ _)) by (unfold maxInt; lia). unfold b. rewrite splice_insert.
  by replace (x + (t - x)) with t by lia.
Qed.

Lemma encode_point_step pre y post t s :
  inp = pre ++ y :: post -> 128 <= t <= 1114111 -> in_step pre (y :: post) t (zlen (below t inp)) s ->
  exists s', encode_point t (zlen (below t inp) + 1) o y s = Ok s' /\ in_step (pre ++ [y]) post t (zlen (below t inp)) s'.
Proof.
  intros Hin [Ht0 Ht]. destruct s as [[[k n] bias] r]. intros (D & w & x & -> & HD & Hd & Hr & Hw & Hn & Hx & Heq & Hfirst & Hor & Hr0).
  unfold encode_point, in_step. set (r0 := zlen (below t inp)) in *.
  assert (forall l, upto t (l ++ [y]) = upto t l ++ (if y <=? t then [y] else [])) as Eu
    by (intros l; unfold upto; rewrite List.filter_app; simpl; by destruct (y <=? t)).
  assert (forall l, below t (l ++ [y]) = below t l ++ (if y <? t then [y] else [])) as Eb
    by (intros l; unfold below; rewrite List.filter_app; simpl; by destruct (y <? t)).
  assert (below t (y :: post) = (if y <? t then [y] else []) ++ below t post) as Ep
    by (unfold below; simpl; by destruct (y <? t)).
  rewrite Eu, Eb. pose proof (zlen_nonneg (below t post)). pose proof (zlen_nonneg (upto t pre)).
  assert (zlen (upto t pre) + zlen (below t post) <= 54) as H54.
  { pose proof (zlen_filter_le (fun y => y <=? t) pre). pose proof (zlen_filter_le (fun y => y <? t) post).
    rewrite Hin, zlen_app in Hlen. unfold upto, below in *. unfold zlen in *. simpl in Hlen. lia. }
  destruct (Z.ltb_spec y t) as [Hlt|Hge]; [|destruct (Z.eqb_spec y t) as [->|Hne]].
  - rewrite Ep in *. rewrite (proj2 (Z.eqb_neq y t)) by lia. rewrite (proj2 (Z.leb_le y t)) by lia.
    assert (r = zlen (upto t pre) + 1 + zlen (below t post)) as Er by (rewrite Hr, !zlen_app; unfold zlen; simpl; lia).
    pose proof (delta_bound x w n t r (zlen (upto t pre)) ltac:(lia) ltac:(lia) Ht ltac:(lia) ltac:(lia) Heq).
    rewrite (proj2 (Z.ltb_ge maxInt (n + 1))) by (unfold maxInt; lia). simpl andb. cbv iota.
    eexists. split; [done|]. cbv beta iota. exists D, w, x. rewrite <- !app_assoc.
    split_and!; try done; try lia; try apply Hfirst; [rewrite zlen_app; unfold zlen in *; simpl; lia|].
    destruct Hr0 as [?|(? & ? & ?)]; [by left|right]. rewrite zlen_app. unfold zlen in *. simpl. lia.
  - rewrite Z.leb_refl in *. simpl andb. cbv iota. cbn [app] in Ep. rewrite Ep in *.
    assert (r = zlen (upto t pre) + zlen (below t post)) as Er by (rewrite Hr, zlen_app; lia).
    pose proof (delta_bound x w n t r (zlen (upto t pre)) ltac:(lia) ltac:(lia) Ht ltac:(lia) ltac:(lia) Heq).
    assert (adapt n (r0 + 1) (r =? o) = adapt n (r + 1) (w =? 0)) as Ead.
    { assert ((r =? o) = (w =? 0)) as -> by (destruct (Z.eqb_spec r o), (Z.eqb_spec w 0); tauto || lia).
      destruct Hr0 as [->|(? & Ho & Hnb)]; [done|].
      rewrite (proj2 (Z.eqb_neq w 0)) by (intros Hw0; apply Hfirst in Hw0; lia).
      assert (zlen (below t pre) <= r0) as Hb0.
      { unfold r0. rewrite Hin. unfold below. rewrite List.filter_app, zlen_app. pose proof (zlen_nonneg (List.filter (fun y => y <? t) (t :: post))). lia. }
      apply adapt_small; [unfold pow31; lia|dlia|dlia]. }
    rewrite Ead. eexists. split; [done|]. cbv beta iota.
    exists (D ++ write_int (int_fuel n) n base bias), (zlen (upto t pre) + 1), t.
    rewrite <- !app_assoc. cbn [app]. split_and!; try lia; try done.
    + apply Forall_app. split; [done|]. by apply write_int_digits.
    + intros rest. rewrite <- app_assoc. eapply dsteps_trans; [apply Hd|]. econstructor; [| |apply dsteps_refl].
      * destruct (write_int_cons n bias) as (c & l & ->). done.
      * cbn [app]. rewrite decode_delta with (pre := pre) (post := post);
          rewrite ?zlen_app; try lia. do 4 f_equal. f_equal. lia.
    + rewrite zlen_app. unfold zlen in *. simpl. lia.
    + rewrite zlen_app. change (zlen [t]) with 1. lia.
    + pose proof (zlen_nonneg (below t pre ++ [])). destruct Hr0 as [->|?]; right; lia.
  - rewrite (proj2 (Z.leb_gt y t)), !app_nil_r in * by lia. cbn [app andb] in *. rewrite Ep in *.
    eexists. split; [done|]. cbv beta iota. by exists D, w, x.
Qed.

Lemma encode_scan_steps pre post t s :
  inp = pre ++ post -> 128 <= t <= 1114111 -> in_step pre post t (zlen (below t inp)) s ->
  exists s', encode_scan t (zlen (below t inp) + 1) o post s = Ok s' /\ in_step inp [] t (zlen (below t inp)) s'.
Proof.
  revert pre s. induction post as [|y post IH]; intros pre s Hin Ht Hs.
  { exists s. split; [done|]. rewrite app_nil_r in Hin. by subst pre. }
  destruct (encode_point_step pre y post t s Hin Ht Hs) as (s1 & E1 & Hs1).
  destruct (IH (pre ++ [y]) s1) as (s2 & E2 & Hs2); [by rewrite <- app_assoc|done|done|].
  exists s2. split; [|done]. cbn [encode_scan]. rewrite E1. cbn [res_bind]. done.
Qed.

Lemma next_point_spec e t u0 :
  let u := fold_left (fun u y => if (t <=? y) && (y <? u) then y else u) e u0 in
  u <= u0 /\ (u = u0 \/ u ∈ e /\ t <= u) /\ forall y, y ∈ e -> t <= y -> u <= y.
Proof.
  revert u0. induction e as [|y e IH]; intros u0 u; simpl in *.
  { split_and!; [lia|by left|]. intros y Hy. by apply elem_of_nil in Hy. }
  destruct (IH (if (t <=? y) && (y <? u0) then y else u0)) as (H1 & H2 & H3). fold u in H1, H2, H3.
  destruct (Z.leb_spec t y), (Z.ltb_spec y u0); simpl in *; split_and!; try lia.
  all: try (destruct H2 as [->|[? ?]]; [|right; split; [by right|done]]).
  all: try (by left). all: try (right; split; [by left|done]).
  all: intros z Hz; apply elem_of_cons in Hz as [->|Hz]; [lia|by apply H3].
Qed.

Lemma below_all t : (forall y, y ∈ inp -> y < t) -> below t inp = inp.
Proof.
  intros H. unfold below. clear -H. induction inp as [|y l IH]; [done|]. simpl.
  rewrite (proj2 (Z.ltb_lt y t)) by (apply H; by left). f_equal. apply IH. intros z Hz. apply H. by right.
Qed.

Lemma below_full t : zlen inp <= zlen (below t inp) -> below t inp = inp.
Proof. apply filter_all. Qed.

Lemma below_jump t u : t <= u -> (forall y, y ∈ inp -> t <= y -> u <= y) -> below u inp = below t inp.
Proof.
  intros Htu H. unfold below. apply List.filter_ext_in. intros y Hy. apply list_elem_of_In in Hy.
  specialize (H y Hy). destruct (Z.ltb_spec y u), (Z.ltb_spec y t); done || lia.
Qed.

Lemma encode_loop_steps fuel t k n bias r :
  128 <= t -> in_step [] inp t (zlen (below t inp)) (k, n, bias, r) -> zlen inp - r <= Z.of_nat fuel ->
  exists D w x bias', encode_loop fuel inp o t (k, n, bias, r) = Ok (k0 ++ D) /\ Forall digit_code D /\
    dsteps D s0 [] (inp, w, x, bias').
Proof.
  revert t k n bias r. induction fuel as [|fuel IH]; intros t k n bias r Ht Hs Hf;
    pose proof Hs as (D & w & x & -> & HD & Hd & Hr & Hw & Hn & Hx & Heq & Hfirst & Hor & Hr0);
    cbn [upto List.filter app] in *; pose proof (zlen_filter_le (fun y => y <? t) inp) as Hle; fold (below t inp) in Hle.
  all: cbn [encode_loop]; destruct (Z.ltb_spec r (zlen inp)) as [Hlt|Hge]; [|].
  1, 3: try lia.
  2, 3: exists D, w, x, bias; split_and!; try done; specialize (Hd []); rewrite app_nil_r in Hd;
    rewrite (below_full t) in Hd by lia; done.
  destruct (next_point_spec inp t maxInt) as (Hu1 & Hu2 & Hu3). fold (next_point inp t) in Hu1, Hu2, Hu3.
  set (u := next_point inp t) in *. rewrite Forall_forall in Hinp.
  assert (u ∈ inp /\ t <= u <= 1114111) as (Hui & Htu).
  { assert (exists y, y ∈ inp /\ t <= y) as (y & Hy & Hty).
    { destruct (decide (Exists (fun y => t <= y) inp)) as [(y & Hy & ?)%Exists_exists|Hno]; [by exists y; rewrite list_elem_of_In|].
      exfalso. rewrite below_all in Hr; [lia|]. intros y Hy. destruct (Z.lt_ge_cases y t); [done|].
      exfalso. apply Hno, Exists_exists. exists y. by rewrite <- list_elem_of_In. }
    pose proof (Hinp y ltac:(by apply list_elem_of_In)) as Hyr. pose proof (Hu3 y Hy Hty) as Huy.
    destruct Hu2 as [E|[? ?]]; [rewrite E in Huy; unfold maxInt in Huy; lia|].
    split; [done|]. lia. }
  assert (below u inp = below t inp) as Ejump by (apply below_jump; [lia|done]).
  change (zlen []) with 0 in Heq. pose proof (zlen_nonneg (below t inp)). assert (n + (u - t) * (r + 1) <= maxInt) as Hno.
  { assert (x * (r + 1) + w + (n + (u - t) * (r + 1)) = u * (r + 1) + 0) as Heq' by nia.
    pose proof (delta_bound x w _ u r 0 ltac:(lia) ltac:(lia) ltac:(lia) ltac:(lia) ltac:(lia) Heq'). unfold maxInt. lia. }
  rewrite (proj2 (Z.ltb_ge _ (u - t))) by (apply Z.div_le_lower_bound; lia).
  destruct (encode_scan_steps [] inp u (k0 ++ D, n + (u - t) * (r + 1), bias, r)) as (s' & Es & Hs').
  { done. } { lia. }
  { exists D, w, x. cbn [upto List.filter app]. rewrite Ejump. split_and!; try done; try lia; try apply Hfirst; try (by left);
    change (zlen []) with 0; nia. }
  rewrite Ejump, <- Hr in Es. fold o. rewrite Es. cbn [res_bind]. destruct s' as [[[k' n'] bias'] r'].
  destruct Hs' as (D' & w' & x' & -> & HD' & Hd' & Hr' & Hw' & Hn' & Hx' & Heq' & Hfirst' & Hor' & Hr0').
  rewrite app_nil_r in *. pose proof (below_upto_lt u inp Hui) as Hgrow. rewrite upto_below in *.
  apply IH; [lia| |].
  - exists D', w', x'. cbn [upto List.filter app]. split_and!; try done; try lia; try apply Hfirst'; try (by left);
    change (zlen []) with 0; nia.
  - rewrite Ejump in Hgrow. lia.
Qed.

End Simulation.

(** ** UTF-16 and back *)

Lemma trail_mask n : unit_ok n -> (js_and 64512 n =? 56320) = is_trail n.
Proof.
  intros Hn. unfold unit_ok in Hn. unfold js_and. rewrite !to_int32_small by (unfold pow31; lia).
  assert (Z.land 64512 n = n / 1024 * 1024) as ->.
  { change 64512 with (Z.shiftl 63 10). change 1024 with (2 ^ 10). rewrite <- (Z.shiftr_div_pow2 n 10), <- Z.shiftl_mul_pow2 by lia.
    apply Z.bits_inj'. intros i Hi. rewrite Z.land_spec.
    destruct (Z.lt_ge_cases i 10); [by rewrite !Z.shiftl_spec_low by lia|].
    rewrite !Z.shiftl_spec, Z.shiftr_spec by lia. replace (i - 10 + 10) with i by lia.
    destruct (Z.lt_ge_cases i 16).
    - replace (Z.testbit 63 (i - 10)) with true; [done|]. change 63 with (Z.ones 6). symmetry. apply Z.ones_spec_low. lia.
    - change 63 with (Z.ones 6). rewrite Z.ones_spec_high by lia. symmetry.
      destruct (Z.eq_dec n 0) as [->|]; [apply Z.testbit_0_l|].
      apply Z.bits_above_log2; [lia|]. apply Z.lt_le_trans with 16; [|lia]. apply Z.log2_lt_pow2; lia. }
  unfold is_trail. destruct (Z.eqb_spec (n / 1024 * 1024) 56320), (Z.leb_spec 56320 n), (Z.ltb_spec n 57344); simpl; done || dlia.
Qed.

Lemma ucs2decode_pair t n : is_lead t = true -> is_trail n = true ->
  js_shl (js_and 1023 t) 10 + js_and 1023 n + 65536 = (t - 55296) * 1024 + (n - 56320) + 65536.
Proof.
  intros Ht Hn. unfold is_lead, is_trail in *. change 1023 with (2 ^ 10 - 1). rewrite !js_and_ones_l by lia.
  rewrite shl_small by (unfold pow31; dlia). dlia.
Qed.

Lemma ucs2_roundtrip s :
  units_ok s -> ucs2encode (ucs2decode s) = s /\ Forall (fun y => 0 <= y <= 1114111) (ucs2decode s).
Proof.
  assert (forall t, unit_ok t -> ucs2encode_point t = [t] /\ 0 <= t <= 1114111) as Hone.
  { intros t Ht. unfold unit_ok in Ht. unfold ucs2encode_point. rewrite (proj2 (Z.ltb_ge 65535 t)) by lia.
    rewrite Z.mod_small by lia. split; [done|lia]. }
  remember (length s) as m eqn:Hm. assert (length s <= m)%nat as Hle by lia. clear Hm. revert s Hle.
  induction m as [|m IH]; intros s Hle Hs; [destruct s; [by split|simpl in Hle; lia]|].
  destruct s as [|t s]; [by split|]. inversion_clear Hs as [|? ? Ht Hs']. simpl in Hle. destruct (Hone t Ht) as [E Ht'].
  destruct (IH s) as [IH1 IH2]; [lia|done|].
  assert (ucs2encode (t :: ucs2decode s) = t :: s /\ Forall (fun y => 0 <= y <= 1114111) (t :: ucs2decode s)) as Hplain.
  { unfold ucs2encode in *. cbn [flat_map]. rewrite E, IH1. split; [done|by constructor]. }
  cbn [ucs2decode]. destruct ((55296 <=? t) && (t <=? 56319)) eqn:Hl; [|done].
  destruct s as [|n s]; [done|]. inversion_clear Hs' as [|? ? Hn Hs''].
  rewrite trail_mask by done. destruct (is_trail n) eqn:Htr; [|done].
  destruct (IH s) as [IH3 IH4]; [simpl in Hle; lia|done|].
  rewrite ucs2decode_pair by (unfold is_lead; done || lia). unfold unit_ok, is_trail in *.
  set (c := (t - 55296) * 1024 + (n - 56320)). assert (0 <= c < 1048576) as Hc by (unfold c; lia).
  split; [|constructor; [lia|done]]. unfold ucs2encode in *. cbn [flat_map]. rewrite IH3. unfold ucs2encode_point.
  rewrite (proj2 (Z.ltb_lt 65535 _)) by lia. replace (c + 65536 - 65536) with c by lia.
  pose proof (surrogates_of c Hc) as [= E1 E2]. rewrite E1, E2. cbn [app]. unfold c. repeat (f_equal; try dlia).
Qed.

Lemma ucs2decode_small s y : units_ok s -> y ∈ ucs2decode s -> y < 65536 -> y ∈ s.
Proof.
  remember (length s) as m eqn:Hm. assert (length s <= m)%nat as Hle by lia. clear Hm. revert s Hle.
  induction m as [|m IH]; intros [|t s] Hle Hs Hy Hlt; try (by apply elem_of_nil in Hy); [simpl in Hle; lia|].
  inversion_clear Hs as [|? ? Ht Hs']. simpl in Hle.
  assert (y ∈ t :: ucs2decode s -> y ∈ t :: s) as Hplain.
  { intros [->|Hin]%elem_of_cons; [by left|right]. apply IH; [lia|done..]. }
  cbn [ucs2decode] in Hy. destruct ((55296 <=? t) && (t <=? 56319)) eqn:Hl; [|auto].
  destruct s as [|n s]; [done|]. inversion_clear Hs' as [|? ? Hn Hs''].
  rewrite trail_mask in Hy by done. destruct (is_trail n) eqn:Htr; [|auto].
  rewrite ucs2decode_pair in Hy by (unfold is_lead; done || lia). unfold is_trail in Htr.
  apply elem_of_cons in Hy as [->|Hy]; [lia|]. right. right. apply IH; [simpl in Hle; lia|done..].
Qed.

(** What the characters of an encoded label are. *)
Definition encoded_char (s : jsstring) (c : Z) : Prop := c ∈ s /\ 0 <= c < 128 \/ c = delimiter \/ digit_code c.

Lemma encode_decode s :
  units_ok s -> zlen (ucs2decode s) <= 55 ->
  exists e, encode s = Ok e /\ Forall (encoded_char s) e /\ decode e = Ok s.
Proof.
  intros Hs Hlen. destruct (ucs2_roundtrip s Hs) as [Hback Hpts]. unfold encode.
  set (inp := ucs2decode s) in *. change (List.filter (fun y => y <? 128) inp) with (below 128 inp).
  set (k0 := if zlen (below 128 inp) =? 0 then below 128 inp else below 128 inp ++ [delimiter]).
  destruct (encode_loop_steps inp k0 Hpts Hlen (length inp) initialN k0 0 initialBias (zlen (below 128 inp)))
    as (D & w & x & bias & -> & HD & Hd).
  { done. }
  { exists [], 0, initialN. unfold initialN. cbn [upto List.filter app]. rewrite app_nil_r. pose proof (zlen_nonneg (below 128 inp)).
    split_and!; try done; try lia; try (by left).
    change (zlen []) with 0. lia. }
  { unfold zlen. pose proof (List.filter_length_le (fun y => y <? 128) inp). lia. }
  exists (k0 ++ D). split; [done|].
  assert (Forall (fun c => 0 <= c < 128) (below 128 inp)) as Hbasic.
  { unfold below. clear -Hpts. induction Hpts as [|y l Hy _ IH]; [constructor|]. simpl.
    destruct (Z.ltb_spec y 128); [constructor; [lia|]|]; done. }
  assert (delimiter ∉ D) as Hnd.
  { intros Hin%list_elem_of_In. rewrite Forall_forall in HD. specialize (HD _ Hin). unfold digit_code, delimiter in HD. lia. }
  split.
  - apply Forall_app. split; [|eapply Forall_weaken; [apply HD|]; intros; by right; right].
    assert (Forall (encoded_char s) (below 128 inp)) as Hin.
    { rewrite Forall_forall in Hbasic |- *. intros c Hc. left. specialize (Hbasic c Hc). split; [|lia].
      apply ucs2decode_small; [done| |lia]. apply List.filter_In in Hc as [Hc _]. by apply list_elem_of_In. }
    unfold k0. destruct (_ =? 0); [done|]. apply Forall_app. split; [done|].
    constructor; [by right; left|constructor].
  - assert (forall l, Forall (fun c => 0 <= c < 128) l -> forallb (fun c => c <? 128) l = true) as Hall.
    { intros l Hl. apply forallb_forall. rewrite Forall_forall in Hl. intros c Hc. specialize (Hl c Hc). lia. }
    unfold decode, k0. pose proof (zlen_nonneg (below 128 inp)). destruct (Z.eqb_spec (zlen (below 128 inp)) 0) as [E0|].
    + assert (below 128 inp = []) as Enil by (destruct (below 128 inp); [done|unfold zlen in E0; simpl in E0; lia]).
      rewrite Enil in *. cbn [app]. rewrite last_index_of_none by done. change (Z.max (-1) 0) with 0. rewrite zsub_nil by lia.
      change (forallb (fun c => c <? 128) []) with true. change (0 <? 0) with false. cbv iota zeta. rewrite (dsteps_loop D _ _ _ Hd) by lia. cbn [res_bind]. by rewrite Hback.
    + rewrite <- app_assoc. cbn [app]. rewrite last_index_of_app by done. rewrite Z.max_l by lia.
      pose proof (zsub_app [] (below 128 inp) (delimiter :: D)) as Hz. cbn [app] in Hz. change (zlen []) with 0 in Hz.
      rewrite Z.add_0_l in Hz. rewrite Hz, Hall, (proj2 (Z.ltb_lt 0 _)) by (done || lia).
      replace (Z.to_nat (zlen (below 128 inp) + 1)) with (length (below 128 inp ++ [delimiter])) by (rewrite length_app; unfold zlen; simpl; lia).
      replace (below 128 inp ++ delimiter :: D) with ((below 128 inp ++ [delimiter]) ++ D) by (by rewrite <- app_assoc).
      rewrite drop_app_length, (dsteps_loop D _ _ _ Hd) by lia. cbn [res_bind]. by rewrite Hback.
Qed.

(** C28: a label of at most 55 code points is encoded without overflow, in ASCII, and
    decoding gives it back. *)
Theorem punycode_roundtrip s :
  units_ok s -> zlen (ucs2decode s) <= 55 ->
  exists e, encode s = Ok e /\ Forall (fun c => 0 <= c < 128) e /\ decode e = Ok s.
Proof.
  intros Hs Hlen. destruct (encode_decode s Hs Hlen) as (e & He & Hc & Hd). exists e. split_and!; try done.
  eapply Forall_weaken; [apply Hc|]. intros c [[_ ?]|[->|?]]; unfold delimiter, digit_code in *; lia.
Qed.

Lemma punycode_roundtrip_witness :
  exists e, encode [109; 252; 110; 99; 104; 101; 110; 55357; 56832] = Ok e /\ Forall (fun c => 0 <= c < 128) e /\
    decode e = Ok [109; 252; 110; 99; 104; 101; 110; 55357; 56832].
Proof. apply punycode_roundtrip; [repeat constructor; concrete|concrete]. Defined.

(** [decode] takes the characters below the digit 0 for digits too. *)
Theorem punycode_bad_digit : decode (js "a-" ++ [1]) = Ok [117; 97].
Proof. reflexivity. Qed.

(** ** Domain names *)

Section Domain.
Context (toLowerCase : jsstring -> jsstring).
(** A text in ASCII without capital letters is its own lower case. *)
Context (Hlower : forall s, Forall (fun c => 0 <= c < 128 /\ ~ 65 <= c <= 90) s -> toLowerCase s = s).

(** A label in lower case that is not punycoded yet. *)
Definition label_ok (p : jsstring) : Prop :=
  units_ok p /\ zlen (ucs2decode p) <= 55 /\ Forall (fun c => c <> 64 /\ separator c = false /\ ~ 65 <= c <= 90) p /\
  punycoded p = false.

(** What one label becomes. *)
Definition ascii_label (p q : jsstring) : Prop :=
  (if nonASCII p then let! s := encode p in Ok (js "xn--" ++ s) else Ok p) = Ok q /\
  (if punycoded q then decode (toLowerCase (drop 4 q)) else Ok q) = Ok p /\
  Forall (fun c => c <> 64 /\ separator c = false) q.

Lemma ascii_label_ok p : label_ok p -> exists q, ascii_label p q.
Proof.
  intros (Hu & Hlen & Hc & Hp). unfold ascii_label. destruct (nonASCII p) eqn:Hn.
  - destruct (encode_decode p Hu Hlen) as (e & -> & He & Hd). exists (js "xn--" ++ e).
    assert (Forall (fun c => (0 <= c < 128 /\ ~ 65 <= c <= 90) /\ c <> 64 /\ separator c = false) e) as Hall.
    { rewrite Forall_forall in He, Hc |- *. intros c Hin. destruct (He c Hin) as [[Hcp ?]|[->|Hd']].
      - apply list_elem_of_In in Hcp. destruct (Hc c Hcp) as (? & ? & ?). done.
      - unfold delimiter. split_and!; done || lia.
      - unfold digit_code in Hd'. split_and!; try lia. unfold separator. lia. }
    split; [done|]. split.
    + unfold punycoded. rewrite bool_decide_true by done. change (drop 4 (js "xn--" ++ e)) with e.
      rewrite Hlower; [done|]. eapply Forall_weaken; [apply Hall|]. by intros c [? _].
    + apply Forall_app. split; [repeat (constructor; [done|]); constructor|].
      eapply Forall_weaken; [apply Hall|]. by intros c [_ ?].
  - exists p. rewrite Hp. split_and!; try done. eapply Forall_weaken; [apply Hc|]. by intros c (? & ? & _).
Qed.

Lemma map_last_ok (f : jsstring -> res jsstring) l l' :
  Forall2 (fun p q => f p = Ok q) l l' -> map_last l f = Ok l'.
Proof. induction 1 as [|p q l l' Hp _ IH]; [done|]. cbn [map_last]. by rewrite IH; cbn [res_bind]; rewrite Hp. Qed.

Lemma map_separators l : Forall (fun c => c = 46 \/ separator c = false) l -> map (fun c => if separator c then 46 else c) l = l.
Proof. induction 1 as [|c l Hc _ IH]; [done|]. simpl. rewrite IH. destruct Hc as [->| ->]; done. Qed.

Lemma mapDomain_labels f l l' :
  l <> [] -> Forall (Forall (fun c => c <> 64 /\ separator c = false)) l -> Forall2 (fun p q => f p = Ok q) l l' ->
  mapDomain (join_with [46] l) f = Ok (join_with [46] l').
Proof.
  intros Hne Hl Hf. unfold mapDomain.
  assert (Forall (fun c => c <> 64 /\ (c = 46 \/ separator c = false)) (join_with [46] l)) as Hj.
  { clear -Hl. induction Hl as [|p l Hp _ IH]; [constructor|].
    assert (Forall (fun c => c <> 64 /\ (c = 46 \/ separator c = false)) p) as Hp'
      by (eapply Forall_weaken; [apply Hp|]; intros c [? ?]; auto).
    destruct l as [|p' l]; [done|]. change (join_with [46] (p :: p' :: l)) with (p ++ [46] ++ join_with [46] (p' :: l)).
    apply Forall_app. split; [done|]. constructor; [split; [done|by left]|done]. }
  rewrite split_on_none.
  2: { intros Hin%list_elem_of_In. rewrite Forall_forall in Hj. by destruct (Hj 64 Hin). }
  rewrite map_separators by (eapply Forall_weaken; [apply Hj|]; by intros c [? ?]).
  rewrite split_join; [|done|].
  - by rewrite (map_last_ok f l l').
  - eapply Forall_weaken; [apply Hl|]. simpl. intros p Hp Hin%list_elem_of_In. rewrite Forall_forall in Hp.
    by destruct (Hp 46 Hin) as [_ ?].
Qed.

Lemma domain_labels l :
  l <> [] -> Forall label_ok l ->
  exists a, toASCII (join_with [46] l) = Ok a /\ toUnicode toLowerCase a = Ok (join_with [46] l).
Proof.
  intros Hne Hl. assert (exists l', Forall2 ascii_label l l') as [l' H'].
  { clear Hne. induction Hl as [|p l Hp _ [l' IH]]; [by exists []|].
    destruct (ascii_label_ok p Hp) as [q Hq]. exists (q :: l'). by constructor. }
  exists (join_with [46] l'). split.
  - apply mapDomain_labels; [done| |].
    + eapply Forall_weaken; [apply Hl|]. intros p (_ & _ & Hp & _). eapply Forall_weaken; [apply Hp|]. by intros c (? & ? & _).
    + clear -H'. induction H' as [|p q l l' [Hq _] _ IH]; by constructor.
  - apply mapDomain_labels.
    + by destruct H'.
    + clear -H'. induction H' as [|p q l l' (_ & _ & Hq) _ IH]; by constructor.
    + clear -H'. induction H' as [|p q l l' (_ & Hq & _) _ IH]; by constructor.
Qed.

End Domain.

(** A domain name of lower-case labels of at most 55 code points survives
    [toASCII] and [toUnicode]. *)
Theorem domain_roundtrip toLowerCase d
  (Hlower : forall s, Forall (fun c => 0 <= c < 128 /\ ~ 65 <= c <= 90) s -> toLowerCase s = s)
  (Hlabels : Forall label_ok (split_on 46 d)) :
  exists a, toASCII d = Ok a /\ toUnicode toLowerCase a = Ok d.
Proof.
  destruct (split_on_cons 46 d) as (p & ps & E). rewrite <- (join_split 46 d).
  apply domain_labels; [done|by rewrite E|done].
Qed.

Definition ascii_lower (s : jsstring) : jsstring := map (fun c => if (65 <=? c) && (c <=? 90) then c + 32 else c) s.

Lemma domain_roundtrip_witness :
  exists a, toASCII [98; 252; 99; 104; 101; 114; 46; 99; 111; 109] = Ok a /\
    toUnicode ascii_lower a = Ok [98; 252; 99; 104; 101; 114; 46; 99; 111; 109].
Proof.
  apply domain_roundtrip.
  - intros s Hs. unfold ascii_lower. induction Hs as [|c s [_ Hc] _ IH]; [done|]. simpl. rewrite IH.
    destruct ((65 <=? c) && (c <=? 90)) eqn:E; [|done]. apply andb_true_iff in E as [E1%Z.leb_le E2%Z.leb_le]. by destruct Hc.
  - vm_compute split_on. repeat constructor; unfold unit_ok, separator; try lia; concrete.
Defined.

(** [mapDomain] drops what follows a second at sign. *)
Theorem domain_second_at : toASCII (js "a@b@c") = Ok (js "a@b").
Proof. reflexivity. Qed.

End Punycode.
