(* ===== verification/ImmutableMap.v ===== *)
(** * Immutable.Map

    Models lines 149 to 151, 702 to 883 and 922 to 1071 of src/client/docs/swagger-ui/swagger-ui-bundle.js
    (Immutable 3): the hash array mapped trie behind [Immutable.Map], with its five kinds
    of nodes, and the map objects with their transient mode ([withMutations]).  The
    objects live in a store and are shared between maps, because a node that belongs to
    the current mutation (its ownerID) is changed in place.  The arrays of a node are
    fields of the node: no array is ever put in two nodes.  The entries [[k, v]] are
    objects of their own, since nodes do share them.

    Keys are a class with the equality [is_] and the [hash] of lines 398 and 617. *)

From S2P Require Import Prelude.
From stdpp Require Import base numbers list option.
Open Scope Z_scope.

(** What the maps use of their keys: [Immutable.is] and [hash]. *)
Class Key (K : Type) := {
  is_ : K -> K -> bool;
  hash : K -> Z
}.

(** [===] on the values. *)
Class Same (V : Type) := { same : V -> V -> bool }.

Module ImmutableMap.

Definition SHIFT : Z := 5.
Definition SIZE : Z := js_shl 1 SHIFT.
Definition MASK : Z := SIZE - 1.
Definition MAX_ARRAY_MAP_SIZE : Z := SIZE / 4.
Definition MAX_BITMAP_INDEXED_SIZE : Z := SIZE / 2.
Definition MIN_HASH_ARRAY_MAP_SIZE : Z := SIZE / 4.

(** ** The store *)

Section Store.
Context {K V : Type}.

(** The addresses of nodes, of entries and of maps, and the owners. *)
Abbreviation addr := nat.
Abbreviation owner := (option nat).

Inductive node :=
| ArrayMapNode (ownerID : owner) (entries : list addr)
| BitmapIndexedNode (ownerID : owner) (bitmap : Z) (nodes : list (option addr))
| HashArrayMapNode (ownerID : owner) (count : Z) (nodes : list (option addr))
| HashCollisionNode (ownerID : owner) (keyHash : Z) (entries : list addr)
| ValueNode (ownerID : owner) (keyHash : Z) (entry : addr).

Record mapobj := MapObj {
  size : Z;
  _root : option addr;
  __ownerID : owner;
  __hash : option Z;
  __altered : bool
}.

Record store := Store {
  nodes : list node;
  entries : list (K * V);
  maps : list mapobj;
  owners : nat;
  EMPTY_MAP : option addr
}.

(** Code that may follow a reference that is not there (a TypeError) or need more fuel:
    both are [None], and neither happens. *)
Definition M (A : Type) : Type := store -> option (A * store).
Definition ret {A} (a : A) : M A := fun s => Some (a, s).
Definition bind {A B} (m : M A) (k : A -> M B) : M B :=
  fun s => match m s with Some (a, s) => k a s | None => None end.
Definition fails {A} : M A := fun _ => None.

Definition new_node (n : node) : M addr := fun s =>
  Some (length (nodes s), Store (nodes s ++ [n]) (entries s) (maps s) (owners s) (EMPTY_MAP s)).
Definition get_node (a : addr) : M node := fun s =>
  match nodes s !! a with Some n => Some (n, s) | None => None end.
Definition set_node (a : addr) (n : node) : M unit := fun s =>
  Some (tt, Store (<[a := n]> (nodes s)) (entries s) (maps s) (owners s) (EMPTY_MAP s)).
Definition new_entry (e : K * V) : M addr := fun s =>
  Some (length (entries s), Store (nodes s) (entries s ++ [e]) (maps s) (owners s) (EMPTY_MAP s)).
Definition get_entry (a : addr) : M (K * V) := fun s =>
  match entries s !! a with Some e => Some (e, s) | None => None end.
Definition set_entry (a : addr) (e : K * V) : M unit := fun s =>
  Some (tt, Store (nodes s) (<[a := e]> (entries s)) (maps s) (owners s) (EMPTY_MAP s)).
Definition new_map (m : mapobj) : M addr := fun s =>
  Some (length (maps s), Store (nodes s) (entries s) (maps s ++ [m]) (owners s) (EMPTY_MAP s)).
Definition get_map (a : addr) : M mapobj := fun s =>
  match maps s !! a with Some m => Some (m, s) | None => None end.
Definition set_map (a : addr) (m : mapobj) : M unit := fun s =>
  Some (tt, Store (nodes s) (entries s) (<[a := m]> (maps s)) (owners s) (EMPTY_MAP s)).
(** [new x]: an OwnerID. *)
Definition new_owner : M nat := fun s =>
  Some (owners s, Store (nodes s) (entries s) (maps s) (S (owners s)) (EMPTY_MAP s)).

Definition node_owner (n : node) : owner :=
  match n with
  | ArrayMapNode o _ | BitmapIndexedNode o _ _ | HashArrayMapNode o _ _ | HashCollisionNode o _ _ | ValueNode o _ _ => o
  end.

(** [e && e === this.ownerID]. *)
Definition isEditable (e this : owner) : bool :=
  match e, this with Some a, Some b => (a =? b)%nat | _, _ => false end.

(** [b ? (this.... = ..., this) : new ...(e, ...)]. *)
Definition edit (e : owner) (this : addr) (old new : node) : M addr :=
  if isEditable e (node_owner old)
  then fun s => bind (set_node this new) (fun _ => ret this) s
  else new_node new.

End Store.

Notation "'let*' x ':=' m 'in' k" := (bind m (fun x => k))
  (at level 10, x pattern, m at level 100, k at level 200).

(** ** Bits *)

Definition popCount (e : Z) : Z :=
  let e := e - js_and (js_shr e 1) 1431655765 in
  let e := js_and 858993459 e + js_and (js_shr e 2) 858993459 in
  let e := js_and (e + js_shr e 4) 252645135 in
  let e := e + js_shr e 8 in
  let e := e + js_shr e 16 in
  js_and 127 e.

(** [(0 === e ? t : t >>> e) & g]. *)
Definition index_at (shift keyHash : Z) : Z :=
  js_and (if shift =? 0 then keyHash else js_ushr keyHash shift) MASK.

Section Map.
Context {K V : Type} `{Key K} `{Same V}.
Abbreviation store := (@store K V).
Abbreviation M := (@M K V).

(** ** Nodes: get *)

(** The position and the value of the first entry with the key. *)
Fixpoint find_entry (k : K) (es : list nat) (i : nat) : M (option (nat * V)) :=
  match es with
  | [] => ret None
  | a :: es => let* (k', v) := get_entry a in if is_ k k' then ret (Some (i, v)) else find_entry k es (S i)
  end.

Fixpoint node_get (fuel : nat) (this : nat) (shift : Z) (keyHash : option Z) (k : K) : M (option V) :=
  match fuel with
  | O => fails
  | S fuel =>
      let* n := get_node this in
      match n with
      | ArrayMapNode _ es | HashCollisionNode _ _ es =>
          let* r := find_entry k es 0 in ret (option_map snd r)
      | BitmapIndexedNode _ i ns =>
          let t := default (hash k) keyHash in
          let o := js_shl 1 (index_at shift t) in
          if js_and i o =? 0 then ret None
          else
            match zget ns (popCount (js_and i (o - 1))) with
            | Some (Some a) => node_get fuel a (shift + SHIFT) (Some t) k
            | _ => fails
            end
      | HashArrayMapNode _ _ ns =>
          let t := default (hash k) keyHash in
          match zget ns (index_at shift t) with
          | Some (Some a) => node_get fuel a (shift + SHIFT) (Some t) k
          | _ => ret None
          end
      | ValueNode _ _ e =>
          let* (k', v) := get_entry e in ret (if is_ k k' then Some v else None)
      end
  end.

(** ** Nodes: update

    An update returns the node that takes the place of the old one, or [None] for
    undefined, with the flags didChangeSize and didAlter.  The new value is [None] for
    NOT_SET, which removes the key. *)

Definition update_result : Type := option nat * bool * bool.

(** The arrays: [setIn], [spliceOut] and [spliceIn]; in place or not, the elements are
    the same. *)
Definition setIn {A} (array : list A) (idx : nat) (val : A) : list A := <[idx := val]> array.
Definition spliceOut {A} (array : list A) (idx : nat) : list A := take idx array ++ drop (S idx) array.
Definition spliceIn {A} (array : list A) (idx : nat) (val : A) : list A := take idx array ++ val :: drop idx array.

(** The entries of a node where the one at [l], if any, is replaced or removed: the
    last one takes the place of a removed one. *)
Definition edit_entries (d : list nat) (l : option nat) (new : option nat) : list nat :=
  match l, new with
  | Some l, None =>
      if (l =? length d - 1)%nat then take (length d - 1) d
      else match d !! (length d - 1)%nat with Some z => take (length d - 1) (<[l := z]> d) | None => d end
  | Some l, Some c => <[l := c]> d
  | None, Some c => d ++ [c]
  | None, None => d
  end.

(** A value node or a collision node with another entry. *)
Fixpoint mergeIntoNode (fuel : nat) (e : nat) (ownerID : option nat) (shift keyHash : Z) (entry : nat) : M nat :=
  match fuel with
  | O => fails
  | S fuel =>
      let* n := get_node e in
      let merge h' :=
        let a := index_at shift h' in
        let u := index_at shift keyHash in
        let bitmap := js_or (js_shl 1 a) (js_shl 1 u) in
        if a =? u then
          let* c := mergeIntoNode fuel e ownerID (shift + SHIFT) keyHash entry in
          new_node (BitmapIndexedNode ownerID bitmap [Some c])
        else
          let* i := new_node (ValueNode ownerID keyHash entry) in
          new_node (BitmapIndexedNode ownerID bitmap (if a <? u then [Some e; Some i] else [Some i; Some e])) in
      match n with
      | ValueNode _ h' e' =>
          if h' =? keyHash then new_node (HashCollisionNode ownerID keyHash [e'; entry]) else merge h'
      | HashCollisionNode _ h' _ => if h' =? keyHash then fails else merge h'
      | _ => fails
      end
  end.

(** Seven levels of five bits. *)
Definition levels : nat := 8.

Definition value_update (this : nat) (o : option nat) (h : Z) (e : nat)
    (ownerID : option nat) (shift : Z) (k : K) (v : option V) : M update_result :=
  let* (k', v') := get_entry e in
  let s := is_ k k' in
  match v with
  | None => if negb s then ret (Some this, false, false) else ret (None, true, true)
  | Some x =>
      if s then
        if same x v' then ret (Some this, false, false)
        else if isEditable ownerID o then let* _ := set_entry e (k', x) in ret (Some this, false, true)
        else let* c := new_entry (k, x) in let* a := new_node (ValueNode ownerID h c) in ret (Some a, false, true)
      else
        let* c := new_entry (k, x) in
        let* a := mergeIntoNode levels this ownerID shift (hash k) c in ret (Some a, true, true)
  end.

Definition collision_update (this : nat) (o : option nat) (h : Z) (es : list nat)
    (ownerID : option nat) (shift : Z) (keyHash : option Z) (k : K) (v : option V) : M update_result :=
  let n := default (hash k) keyHash in
  if negb (n =? h) then
    match v with
    | None => ret (Some this, false, false)
    | Some x =>
        let* c := new_entry (k, x) in
        let* a := mergeIntoNode levels this ownerID shift n c in ret (Some a, true, true)
    end
  else
    let* f := find_entry k es 0 in
    match f, v with
    | None, None => ret (Some this, false, false)
    | Some (l, _), None =>
        if (length es =? 2)%nat then
          match es !! (1 - l)%nat with
          | Some c => let* a := new_node (ValueNode ownerID h c) in ret (Some a, true, true)
          | None => fails
          end
        else
          let* a := edit ownerID this (HashCollisionNode o h es) (HashCollisionNode ownerID h (edit_entries es (Some l) None)) in
          ret (Some a, true, true)
    | _, Some x =>
        if match f with Some (_, v') => same v' x | None => false end then ret (Some this, false, false)
        else
          let* c := new_entry (k, x) in
          let* a := edit ownerID this (HashCollisionNode o h es)
                    (HashCollisionNode ownerID h (edit_entries es (option_map fst f) (Some c))) in
          ret (Some a, match f with Some _ => false | None => true end, true)
    end.

(** [createNodes]: a trie of the entries of a full array map and a new entry. *)
Fixpoint createNodes_loop (update : nat -> K -> option V -> M update_result) (o : nat) (es : list nat) : M nat :=
  match es with
  | [] => ret o
  | a :: es =>
      let* (k, v) := get_entry a in
      let* (r, _, _) := update o k (Some v) in
      match r with Some o => createNodes_loop update o es | None => fails end
  end.

(** [expandNodes]: the children at their positions and their number; a bitmap has 32
    bits. *)
Fixpoint expand_loop (fuel : nat) (t : list (option nat)) (n i : Z) : list (option nat) * Z :=
  match fuel with
  | O => ([], i)
  | S fuel =>
      if n =? 0 then ([], i)
      else if js_and 1 n =? 0 then
        let '(a, i) := expand_loop fuel t (js_ushr n 1) i in (None :: a, i)
      else
        let '(a, i') := expand_loop fuel t (js_ushr n 1) (i + 1) in
        (match zget t i with Some c => c | None => None end :: a, i')
  end.
Definition expandNodes (ownerID : option nat) (t : list (option nat)) (bitmap idx : Z) (n : nat) : node :=
  let '(a, i) := expand_loop 32 t bitmap 0 in
  HashArrayMapNode ownerID (i + 1) (setIn (a ++ replicate (32 - length a) None) (Z.to_nat idx) (Some n)).

(** [packNodes]: the children that are there, but the one at [r]. *)
Fixpoint pack_loop (t : list (option nat)) (u s r : Z) (o : Z) : Z * list (option nat) :=
  match t with
  | [] => (o, [])
  | c :: t =>
      if match c with Some _ => negb (u =? r) | None => false end
      then let '(o, l) := pack_loop t (u + 1) (js_shl s 1) r (js_or o s) in (o, c :: l)
      else pack_loop t (u + 1) (js_shl s 1) r o
  end.
(** The array has [count] elements at least. *)
Definition packNodes (ownerID : option nat) (t : list (option nat)) (count r : Z) : node :=
  let '(o, l) := pack_loop t 0 1 r 0 in
  BitmapIndexedNode ownerID o (l ++ replicate (Z.to_nat count - length l) None).

Definition isLeafNode (a : nat) : M bool :=
  let* n := get_node a in ret match n with ValueNode _ _ _ | HashCollisionNode _ _ _ => true | _ => false end.

(** [updateNode], where [update] is the method of the node. *)
Definition updateNode (update : nat -> Z -> Z -> M update_result) (e ownerID : option nat) (shift keyHash : Z)
    (k : K) (v : option V) : M update_result :=
  match e, v with
  | Some a, _ => update a shift keyHash
  | None, None => ret (None, false, false)
  | None, Some x =>
      let* c := new_entry (k, x) in
      let* a := new_node (ValueNode ownerID keyHash c) in ret (Some a, true, true)
  end.

Definition array_update (update : nat -> nat -> K -> option V -> M update_result) (this : nat) (o : option nat) (es : list nat)
    (ownerID : option nat) (k : K) (v : option V) : M update_result :=
  let* f := find_entry k es 0 in
  match f, v with
  | None, None => ret (Some this, false, false)
  | Some (l, _), None =>
      if (length es =? 1)%nat then ret (None, true, true)
      else
        let* a := edit ownerID this (ArrayMapNode o es) (ArrayMapNode ownerID (edit_entries es (Some l) None)) in
        ret (Some a, true, true)
  | Some (l, v'), Some x =>
      if same v' x then ret (Some this, false, false)
      else
        let* c := new_entry (k, x) in
        let* a := edit ownerID this (ArrayMapNode o es) (ArrayMapNode ownerID (edit_entries es (Some l) (Some c))) in
        ret (Some a, false, true)
  | None, Some x =>
      if MAX_ARRAY_MAP_SIZE <=? zlen es then
        let* e := (match ownerID with Some e => ret e | None => new_owner end) in
        let* c := new_entry (k, x) in
        let* o := new_node (ValueNode (Some e) (hash k) c) in
        let* a := createNodes_loop (update e) o es in
        ret (Some a, true, true)
      else
        let* c := new_entry (k, x) in
        let* a := edit ownerID this (ArrayMapNode o es) (ArrayMapNode ownerID (edit_entries es None (Some c))) in
        ret (Some a, true, true)
  end.

Definition bitmap_update (update : nat -> Z -> Z -> M update_result) (this : nat) (o : option nat) (l : Z) (p : list (option nat))
    (ownerID : option nat) (shift : Z) (keyHash : option Z) (k : K) (v : option V) : M update_result :=
  let n := BitmapIndexedNode o l p in
  let h := default (hash k) keyHash in
  let u := index_at shift h in
  let s := js_shl 1 u in
  let c := negb (js_and l s =? 0) in
  if negb c && match v with None => true | _ => false end then ret (Some this, false, false)
  else
    let f := Z.to_nat (popCount (js_and l (s - 1))) in
    let d := if c then match p !! f with Some d => d | None => None end else None in
    let* (h', ch, al) := updateNode update d ownerID (shift + SHIFT) h k v in
    if bool_decide (h' = d) then ret (Some this, ch, al)
    else
      match c, h' with
      | false, Some a =>
          if MAX_BITMAP_INDEXED_SIZE <=? zlen p then
            let* b := new_node (expandNodes ownerID p l u a) in ret (Some b, ch, al)
          else
            let* b := edit ownerID this n (BitmapIndexedNode ownerID (js_or l s) (spliceIn p f h')) in ret (Some b, ch, al)
      | true, None =>
          let* leaf := (if (length p =? 2)%nat then match p !! (Nat.lxor 1 f) with
                                                   | Some (Some z) => isLeafNode z
                                                   | _ => fails
                                                   end
                      else ret false) in
          if leaf then ret (match p !! (Nat.lxor 1 f) with Some z => z | None => None end, ch, al)
          else let* b := edit ownerID this n (BitmapIndexedNode ownerID (js_xor l s) (spliceOut p f)) in ret (Some b, ch, al)
      | true, Some a =>
          let* leaf := (if (length p =? 1)%nat then isLeafNode a else ret false) in
          if leaf then ret (Some a, ch, al)
          else let* b := edit ownerID this n (BitmapIndexedNode ownerID l (setIn p f h')) in ret (Some b, ch, al)
      | false, None =>
          let* b := edit ownerID this n (BitmapIndexedNode ownerID (js_or l s) (spliceIn p f h')) in ret (Some b, ch, al)
      end.

Definition hash_array_update (update : nat -> Z -> Z -> M update_result) (this : nat) (o : option nat) (p : Z) (l : list (option nat))
    (ownerID : option nat) (shift : Z) (keyHash : option Z) (k : K) (v : option V) : M update_result :=
  let n := HashArrayMapNode o p l in
  let h := default (hash k) keyHash in
  let u := index_at shift h in
  let c := match zget l u with Some c => c | None => None end in
  if match v, c with None, None => true | _, _ => false end then ret (Some this, false, false)
  else
    let* (f, ch, al) := updateNode update c ownerID (shift + SHIFT) h k v in
    if bool_decide (f = c) then ret (Some this, ch, al)
    else
      match c, f with
      | Some _, None =>
          if p - 1 <? MIN_HASH_ARRAY_MAP_SIZE then
            let* b := new_node (packNodes ownerID l (p - 1) u) in ret (Some b, ch, al)
          else
            let* b := edit ownerID this n (HashArrayMapNode ownerID (p - 1) (setIn l (Z.to_nat u) f)) in ret (Some b, ch, al)
      | Some _, Some _ =>
          let* b := edit ownerID this n (HashArrayMapNode ownerID p (setIn l (Z.to_nat u) f)) in ret (Some b, ch, al)
      | None, _ =>
          let* b := edit ownerID this n (HashArrayMapNode ownerID (p + 1) (setIn l (Z.to_nat u) f)) in ret (Some b, ch, al)
      end.

(** [update] of the node, whatever it is. *)
Fixpoint node_update (fuel : nat) (this : nat) (ownerID : option nat) (shift : Z) (keyHash : option Z)
    (k : K) (v : option V) {struct fuel} : M update_result :=
  match fuel with
  | O => fails
  | S fuel =>
      let* n := get_node this in
      match n with
      | ArrayMapNode o es => array_update (fun e o k v => node_update fuel o (Some e) 0 None k v) this o es ownerID k v
      | BitmapIndexedNode o l p =>
          bitmap_update (fun a shift keyHash => node_update fuel a ownerID shift (Some keyHash) k v) this o l p ownerID shift keyHash k v
      | HashArrayMapNode o p l =>
          hash_array_update (fun a shift keyHash => node_update fuel a ownerID shift (Some keyHash) k v) this o p l ownerID shift keyHash k v
      | HashCollisionNode o h es => collision_update this o h es ownerID shift keyHash k v
      | ValueNode o h e => value_update this o h e ownerID shift k v
      end
  end.

(** ** Nodes: iterate

    The callback gets a state of its own and stops the iteration with [false]. *)

Section Iterate.
Context {S : Type} (fn : S -> K * V -> M (S * bool)).

Definition ordered {A} (reverse : bool) (l : list A) : list A := if reverse then List.rev l else l.

Fixpoint iterate_entries (es : list nat) (s : S) : M (S * bool) :=
  match es with
  | [] => ret (s, true)
  | a :: es =>
      let* e := get_entry a in
      let* (s, go) := fn s e in
      if go then iterate_entries es s else ret (s, false)
  end.

Fixpoint iterate_nodes (iterate : nat -> S -> M (S * bool)) (ns : list (option nat)) (s : S) : M (S * bool) :=
  match ns with
  | [] => ret (s, true)
  | None :: ns => iterate_nodes iterate ns s
  | Some a :: ns =>
      let* (s, go) := iterate a s in
      if go then iterate_nodes iterate ns s else ret (s, false)
  end.

Fixpoint node_iterate (fuel : nat) (reverse : bool) (this : nat) (s : S) : M (S * bool) :=
  match fuel with
  | O => fails
  | Datatypes.S fuel =>
      let* n := get_node this in
      match n with
      | ArrayMapNode _ es | HashCollisionNode _ _ es => iterate_entries (ordered reverse es) s
      | BitmapIndexedNode _ _ ns | HashArrayMapNode _ _ ns => iterate_nodes (node_iterate fuel reverse) (ordered reverse ns) s
      | ValueNode _ _ e => let* e := get_entry e in fn s e
      end
  end.

End Iterate.

(** ** MapIterator

    The stack of the nodes that are entered with the index of their next child, the
    innermost first. *)

Definition stack : Type := list (nat * nat).

(** One round of the loop of [next]: the entry to return, or the next stack. *)
Definition next_step (reverse : bool) (r o : nat) (prev : stack) : M (option (K * V) * stack) :=
  let* n := get_node r in
  let here := (r, S o) :: prev in
  match n with
  | ValueNode _ _ e =>
      if (o =? 0)%nat then let* e := get_entry e in ret (Some e, here) else ret (None, prev)
  | ArrayMapNode _ es | HashCollisionNode _ _ es =>
      match ordered reverse es !! o with
      | Some a => let* e := get_entry a in ret (Some e, here)
      | None => ret (None, prev)
      end
  | BitmapIndexedNode _ _ ns | HashArrayMapNode _ _ ns =>
      match ordered reverse ns !! o with
      | Some (Some i) =>
          let* c := get_node i in
          match c with
          | ValueNode _ _ e => let* e := get_entry e in ret (Some e, here)
          | _ => ret (None, (i, 0%nat) :: here)
          end
      | Some None => ret (None, here)
      | None => ret (None, prev)
      end
  end.

Fixpoint next (fuel : nat) (reverse : bool) (t : stack) : M (option (K * V) * stack) :=
  match t with
  | [] => ret (None, [])
  | (r, o) :: prev =>
      match fuel with
      | O => fails
      | S fuel =>
          let* (e, t) := next_step reverse r o prev in
          match e with
          | Some e => ret (Some e, t)
          | None => next fuel reverse t
          end
      end
  end.

(** ** Maps *)

Definition makeMap (size : Z) (root : option nat) (ownerID : option nat) (hash : option Z) : M nat :=
  new_map (MapObj size root ownerID hash false).

(** [Fe || (Fe = Ze(0))]. *)
Definition emptyMap : M nat := fun s =>
  match EMPTY_MAP s with
  | Some a => Some (a, s)
  | None =>
      Some (length (maps s), Store (nodes s) (entries s) (maps s ++ [MapObj 0 None None None false]) (owners s)
                               (Some (length (maps s))))
  end.

(** The depth of a trie is at most that of the levels of the hash and of the root. *)
Definition depth : nat := 10.

Definition get (this : nat) (k : K) : M (option V) :=
  let* m := get_map this in
  match _root m with
  | Some r => node_get depth r 0 None k
  | None => ret None
  end.

Definition has (this : nat) (k : K) : M bool :=
  let* v := get this k in ret match v with Some _ => true | None => false end.

Definition updateMap (this : nat) (k : K) (v : option V) : M nat :=
  let* m := get_map this in
  let finish o r :=
    match __ownerID m with
    | Some e => let* _ := set_map this (MapObj o r (Some e) None true) in ret this
    | None => match r with Some _ => makeMap o r None None | None => emptyMap end
    end in
  match _root m with
  | Some r =>
      let* (r', changed, altered) := node_update depth r (__ownerID m) 0 None k v in
      if negb altered then ret this
      else finish (size m + (if changed then match v with None => -1 | Some _ => 1 end else 0)) r'
  | None =>
      match v with
      | None => ret this
      | Some x =>
          let* c := new_entry (k, x) in
          let* r := new_node (ArrayMapNode (__ownerID m) [c]) in
          finish 1 (Some r)
      end
  end.

Definition set (this : nat) (k : K) (v : V) : M nat := updateMap this k (Some v).
Definition remove (this : nat) (k : K) : M nat := updateMap this k None.

Definition clear (this : nat) : M nat :=
  let* m := get_map this in
  if size m =? 0 then ret this
  else match __ownerID m with
       | Some e => let* _ := set_map this (MapObj 0 None (Some e) None true) in ret this
       | None => emptyMap
       end.

Definition __ensureOwner (this : nat) (e : option nat) : M nat :=
  let* m := get_map this in
  if bool_decide (e = __ownerID m) then ret this
  else match e with
       | Some _ => makeMap (size m) (_root m) e (__hash m)
       | None => let* _ := set_map this (MapObj (size m) (_root m) None (__hash m) false) in ret this
       end.

Definition asMutable (this : nat) : M nat :=
  let* m := get_map this in
  match __ownerID m with
  | Some _ => ret this
  | None => let* o := new_owner in __ensureOwner this (Some o)
  end.

Definition asImmutable (this : nat) : M nat := __ensureOwner this None.

Definition wasAltered (this : nat) : M bool := let* m := get_map this in ret (__altered m).

Definition withMutations (this : nat) (fn : nat -> M unit) : M nat :=
  let* t := asMutable this in
  let* _ := fn t in
  let* altered := wasAltered t in
  if altered then let* m := get_map this in __ensureOwner t (__ownerID m) else ret this.

(** [n.forEach(function(e, n) { return t.set(n, e) })]: the map that [set] returns is
    not used, so the callback never stops the iteration. *)
Fixpoint set_all (t : nat) (l : list (K * V)) : M unit :=
  match l with
  | [] => ret tt
  | (k, v) :: l => let* _ := set t k v in set_all t l
  end.

(** [Immutable.Map] of the entries of a sequence. *)
Definition Map (l : list (K * V)) : M nat :=
  let* e := emptyMap in withMutations e (fun t => set_all t l).

(** [__iterate] and [__iterator], run to the end. *)
Definition __iterate {S} (this : nat) (fn : S -> K * V -> M (S * bool)) (reverse : bool) (s : S) : M (S * Z) :=
  let* m := get_map this in
  match _root m with
  | Some r =>
      let* (s, r, _) := (let* (sr, go) := node_iterate (fun sr e =>
                           let '(s, r) := sr in
                           let* (s, go) := fn s e in ret (s, r + 1, go)) depth reverse r (s, 0) in
                         ret (fst sr, snd sr, go)) in
      ret (s, r)
  | None => ret (s, 0)
  end.

Definition __iterator (this : nat) : M stack :=
  let* m := get_map this in
  ret match _root m with Some r => [(r, 0%nat)] | None => [] end.

End Map.

End ImmutableMap.
