(* ===== verification/ImmutableBits.v ===== *)
(** * The bitmaps of Immutable.Map

    What the bit operations of ImmutableMap compute: [popCount] counts the bits that are
    set, so that a child of a BitmapIndexedNode is at the rank of its position; [index_at]
    is a group of five bits of the hash; two hashes that differ, differ in a group. *)

From S2P Require Import Prelude ImmutableMap.
From stdpp Require Import base numbers list option.
Open Scope Z_scope.

Module ImmutableBits.
Import ImmutableMap.

(** ** Bytes *)

Lemma land_step a x m y :
  0 <= a < 256 -> 0 <= m < 256 ->
  Z.land (a + 256 * x) (m + 256 * y) = Z.land a m + 256 * Z.land x y.
Proof.
  intros Ha Hm. change 256 with (2 ^ 8).
  assert (forall a x, 0 <= a < 2 ^ 8 -> forall i, 0 <= i -> Z.testbit (a + 2 ^ 8 * x) i = if i <? 8 then Z.testbit a i else Z.testbit x (i - 8)) as Hbit.
  { clear. intros a x Ha i Hi. rewrite Z.mul_comm, Z.add_comm, <- lor_add by lia. rewrite Z.lor_spec.
    destruct (Z.ltb_spec i 8).
    - rewrite Z.mul_pow2_bits_low by lia. done.
    - rewrite Z.mul_pow2_bits by lia. rewrite (Z.bits_above_log2 a i); [by rewrite orb_false_r|lia|].
      destruct (Z.eq_dec a 0) as [->|]; [simpl; lia|]. apply Z.log2_lt_pow2; [lia|].
      apply Z.lt_le_trans with (2 ^ 8); [lia|]. apply Z.pow_le_mono_r; lia. }
  assert (0 <= Z.land a m < 2 ^ 8) as Hl.
  { assert (Z.land a m = Z.land a m mod 2 ^ 8) as ->; [|apply Z.mod_pos_bound; lia].
    rewrite <- Z.land_ones, <- Z.land_assoc, Z.land_ones, (Z.mod_small m) by lia. done. }
  apply Z.bits_inj'. intros i Hi. rewrite Z.land_spec, !Hbit, Z.land_spec by (done || lia).
  destruct (Z.ltb_spec i 8); [done|]. by rewrite Z.land_spec.
Qed.

(** A number below 2^32 by its four bytes. *)
Definition bytes4 (b0 b1 b2 b3 : Z) : Z := b0 + 256 * (b1 + 256 * (b2 + 256 * b3)).

Lemma land_bytes4 a0 a1 a2 a3 m0 m1 m2 m3 :
  byte_ok a0 -> byte_ok a1 -> byte_ok a2 -> byte_ok a3 -> byte_ok m0 -> byte_ok m1 -> byte_ok m2 -> byte_ok m3 ->
  Z.land (bytes4 a0 a1 a2 a3) (bytes4 m0 m1 m2 m3)
  = bytes4 (Z.land a0 m0) (Z.land a1 m1) (Z.land a2 m2) (Z.land a3 m3).
Proof. unfold byte_ok, bytes4. intros. rewrite land_step by lia. rewrite land_step by lia. by rewrite land_step by lia. Qed.

Lemma div_bytes4 b0 b1 b2 b3 c d :
  c * d = 256 -> 0 < c -> 0 < d ->
  bytes4 b0 b1 b2 b3 / c
  = bytes4 (b0 / c + d * (b1 mod c)) (b1 / c + d * (b2 mod c)) (b2 / c + d * (b3 mod c)) (b3 / c).
Proof.
  intros Hcd Hc Hd. unfold bytes4.
  assert (forall b x, (b + 256 * x) / c = b / c + d * x) as Hs.
  { intros b x. rewrite <- Hcd. replace (b + c * d * x) with (b + d * x * c) by lia. by rewrite Z.div_add by lia. }
  assert (forall b, d * b = 256 * (b / c) + d * (b mod c)) as Hd'.
  { intros b. rewrite (Z.div_mod b c) at 1 by lia. rewrite <- Hcd. ring. }
  rewrite Hs. pose proof (Hd' b1). pose proof (Hd' b2). pose proof (Hd' b3). lia.
Qed.

(** ** popCount *)

(** The number of bits set of a byte, in the three steps of [popCount]. *)
Definition pairs (b : Z) : Z := b - Z.land (b / 2) 85.
Definition nibbles (x : Z) : Z := Z.land 51 x + Z.land (x / 4) 51.
Definition byte_sum (x : Z) : Z := Z.land (x + x / 16) 15.

Definition range (n : nat) : list Z := seqZ 0 (Z.of_nat n).
Definition bits (n : nat) (z : Z) : Z := zlen (List.filter (Z.testbit z) (range n)).

Lemma all_below n (P : Z -> bool) : forallb P (range n) = true -> forall z, 0 <= z < Z.of_nat n -> P z = true.
Proof.
  rewrite forallb_forall. intros Hall z Hz. apply Hall. apply list_elem_of_In. unfold range. apply elem_of_seqZ. lia.
Qed.

Definition byte_facts (b : Z) : bool :=
  forallb (fun c => (Z.land (b / 2 + 128 * c) 85 =? Z.land (b / 2) 85)) (range 2) &&
  forallb (fun c => (Z.land (b / 4 + 64 * c) 51 =? Z.land (b / 4) 51)) (range 4) &&
  (Z.land (b / 2) 85 <=? b) &&
  (let y := nibbles (pairs b) in (0 <=? y) && (y <=? 68) && (y mod 16 <=? 4) &&
    forallb (fun c => Z.land (y + y / 16 + 16 * c) 15 =? byte_sum y) (range 5) &&
    (byte_sum y =? bits 8 b)).

Lemma byte_facts_all b : byte_ok b -> byte_facts b = true.
Proof. intros Hb. apply (all_below 256 byte_facts); [vm_compute; reflexivity|unfold byte_ok in Hb; lia]. Qed.

Lemma byte_masks b : byte_ok b ->
  (forall c, 0 <= c < 2 -> Z.land (b / 2 + 128 * c) 85 = Z.land (b / 2) 85) /\
  (forall c, 0 <= c < 4 -> Z.land (b / 4 + 64 * c) 51 = Z.land (b / 4) 51) /\
  0 <= pairs b < 256 /\
  (let y := nibbles (pairs b) in 0 <= y <= 68 /\ y mod 16 <= 4 /\
    (forall c, 0 <= c < 5 -> Z.land (y + y / 16 + 16 * c) 15 = byte_sum y) /\ byte_sum y = bits 8 b).
Proof.
  intros Hb. pose proof (byte_facts_all b Hb) as H. unfold byte_facts in H.
  apply andb_true_iff in H as [H Hy]. apply andb_true_iff in H as [H Hle]. apply andb_true_iff in H as [H1 H2].
  cbv zeta in Hy. apply andb_true_iff in Hy as [Hy H6]. apply andb_true_iff in Hy as [Hy H5].
  apply andb_true_iff in Hy as [Hy H4]. apply andb_true_iff in Hy as [Hy0 Hy3].
  split; [intros c Hc; by apply Z.eqb_eq, (all_below 2 _ H1)|].
  split; [intros c Hc; by apply Z.eqb_eq, (all_below 4 _ H2)|].
  assert (0 <= Z.land (b / 2) 85) by (apply Z.land_nonneg; lia). unfold byte_ok in Hb.
  split; [unfold pairs; lia|]. split; [lia|]. split; [lia|].
  split; [intros c Hc; by apply Z.eqb_eq, (all_below 5 _ H5)|lia].
Qed.

Lemma split_bytes4 n : 0 <= n < pow32 ->
  exists b0 b1 b2 b3, byte_ok b0 /\ byte_ok b1 /\ byte_ok b2 /\ byte_ok b3 /\ n = bytes4 b0 b1 b2 b3.
Proof.
  intros Hn. exists (n mod 256), (n / 256 mod 256), (n / 65536 mod 256), (n / 16777216).
  unfold byte_ok, bytes4, pow32 in *. split_and!; dlia.
Qed.

(** ** Bits of numbers *)

Lemma zlen_filter_map {A B} (f : B -> bool) (g : A -> B) l :
  zlen (List.filter f (map g l)) = zlen (List.filter (fun x => f (g x)) l).
Proof. induction l as [|x l IH]; [done|]. simpl. destruct (f (g x)); [|done]. unfold zlen in *. simpl. lia. Qed.

Lemma elem_range n i : i ∈ range n <-> 0 <= i < Z.of_nat n.
Proof. unfold range. rewrite elem_of_seqZ. lia. Qed.

Lemma bits_add a b z : bits (a + b) z = bits a z + bits b (z / 2 ^ Z.of_nat a).
Proof.
  unfold bits, range. rewrite Nat2Z.inj_add, seqZ_app by lia. rewrite List.filter_app, zlen_app. f_equal.
  rewrite Z.add_0_l. replace (seqZ (Z.of_nat a) (Z.of_nat b)) with (map (Z.add (Z.of_nat a)) (seqZ 0 (Z.of_nat b))).
  - rewrite zlen_filter_map. f_equal. apply List.filter_ext_in. intros i Hi. apply list_elem_of_In, elem_range in Hi.
    rewrite <- Z.shiftr_div_pow2, Z.shiftr_spec by lia. f_equal. lia.
  - change (map (Z.add (Z.of_nat a)) (seqZ 0 (Z.of_nat b))) with (Z.add (Z.of_nat a) <$> seqZ 0 (Z.of_nat b)).
    rewrite fmap_add_seqZ. f_equal. lia.
Qed.

Lemma bits_mod n z k : Z.of_nat n <= k -> bits n (z mod 2 ^ k) = bits n z.
Proof.
  intros Hk. unfold bits. f_equal. apply List.filter_ext_in. intros i Hi. apply list_elem_of_In, elem_range in Hi.
  apply Z.mod_pow2_bits_low. lia.
Qed.

Lemma bits_bytes4 b0 b1 b2 b3 : byte_ok b0 -> byte_ok b1 -> byte_ok b2 -> byte_ok b3 ->
  bits 32 (bytes4 b0 b1 b2 b3) = bits 8 b0 + bits 8 b1 + bits 8 b2 + bits 8 b3.
Proof.
  unfold byte_ok. intros. change 32%nat with (8 + (8 + (8 + 8)))%nat. rewrite !bits_add.
  change (2 ^ Z.of_nat 8) with 256. unfold bytes4.
  assert (forall b x, 0 <= b < 256 -> bits 8 (b + 256 * x) = bits 8 b /\ (b + 256 * x) / 256 = x) as Hb.
  { intros b x Hb. split; [|dlia]. rewrite <- (bits_mod 8 (b + 256 * x) 8) by lia. change (2 ^ 8) with 256.
    f_equal. rewrite Z.mul_comm, Z.mod_add by lia. apply Z.mod_small. done. }
  destruct (Hb b0 (b1 + 256 * (b2 + 256 * b3))) as [-> ->]; [done|].
  destruct (Hb b1 (b2 + 256 * b3)) as [-> ->]; [done|]. destruct (Hb b2 b3) as [-> ->]; [done|]. lia.
Qed.

Lemma bits_8_range b : 0 <= bits 8 b <= 8.
Proof.
  unfold bits. split; [apply zlen_nonneg|]. pose proof (List.filter_length_le (Z.testbit b) (range 8)) as Hl.
  unfold zlen. change (length (range 8)) with 8%nat in Hl. lia.
Qed.

Lemma bytes4_small b0 b1 b2 b3 : byte_ok b0 -> byte_ok b1 -> byte_ok b2 -> 0 <= b3 < 128 ->
  - pow31 <= bytes4 b0 b1 b2 b3 < pow31.
Proof. unfold byte_ok, bytes4, pow31. lia. Qed.

(** One step of [popCount]: a shift and a mask with the same byte four times. *)
Lemma shift_mask b0 b1 b2 b3 k c d m :
  byte_ok b0 -> byte_ok b1 -> byte_ok b2 -> 0 <= b3 < 128 -> byte_ok m -> m < 128 -> 0 <= k < 8 -> c = 2 ^ k -> c * d = 256 ->
  (forall b x, byte_ok b -> 0 <= x < c -> Z.land (b / c + d * x) m = Z.land (b / c) m) ->
  js_and (js_shr (bytes4 b0 b1 b2 b3) k) (bytes4 m m m m)
  = bytes4 (Z.land (b0 / c) m) (Z.land (b1 / c) m) (Z.land (b2 / c) m) (Z.land (b3 / c) m).
Proof.
  intros H0 H1 H2 H3 Hm Hm' Hk Hc Hd Hmask. pose proof (bytes4_small b0 b1 b2 b3 H0 H1 H2 H3) as Hs.
  assert (0 < c) by (rewrite Hc; apply Z.pow_pos_nonneg; lia). assert (0 < d) by nia.
  rewrite js_shr_div, <- Hc by lia. rewrite (div_bytes4 _ _ _ _ c d) by done.
  assert (forall b x, byte_ok b -> 0 <= x < c -> byte_ok (b / c + d * x)) as Hok.
  { unfold byte_ok. intros b x Hb Hx. assert (0 <= b / c) by (apply Z.div_pos; lia).
    assert (b / c < d) by (apply Z.div_lt_upper_bound; lia). nia. }
  pose proof (Z.mod_pos_bound b1 c ltac:(lia)). pose proof (Z.mod_pos_bound b2 c ltac:(lia)).
  pose proof (Z.mod_pos_bound b3 c ltac:(lia)).
  assert (0 <= b3 / c < 128) as Hb3.
  { split; [apply Z.div_pos; lia|]. apply Z.le_lt_trans with b3; [|lia]. apply Z.div_le_upper_bound; nia. }
  assert (byte_ok m /\ byte_ok (b3 / c)) as [Hm0 Hb3'] by (unfold byte_ok in *; lia).
  unfold js_and. rewrite !to_int32_small by (apply bytes4_small; unfold byte_ok in *; auto; lia).
  rewrite land_bytes4 by auto. rewrite !Hmask by (done || lia). done.
Qed.

Lemma and_bytes4 a0 a1 a2 a3 m0 m1 m2 m3 :
  byte_ok a0 -> byte_ok a1 -> byte_ok a2 -> 0 <= a3 < 128 -> byte_ok m0 -> byte_ok m1 -> byte_ok m2 -> 0 <= m3 < 128 ->
  js_and (bytes4 a0 a1 a2 a3) (bytes4 m0 m1 m2 m3)
  = bytes4 (Z.land a0 m0) (Z.land a1 m1) (Z.land a2 m2) (Z.land a3 m3).
Proof.
  intros. unfold js_and. rewrite !to_int32_small by (by apply bytes4_small).
  apply land_bytes4; try done; unfold byte_ok; lia.
Qed.

Lemma sum_bytes4 c0 c1 c2 c3 : 0 <= c0 <= 8 -> 0 <= c1 <= 8 -> 0 <= c2 <= 8 -> 0 <= c3 <= 8 ->
  js_and 127 (bytes4 c0 c1 c2 c3 + js_shr (bytes4 c0 c1 c2 c3) 8 +
    js_shr (bytes4 c0 c1 c2 c3 + js_shr (bytes4 c0 c1 c2 c3) 8) 16) = c0 + c1 + c2 + c3.
Proof.
  intros. unfold bytes4. rewrite (js_shr_div _ 8) by (unfold pow31; lia). change (2 ^ 8) with 256.
  rewrite (js_shr_div _ 16) by (unfold pow31; dlia). change (2 ^ 16) with 65536.
  change 127 with (2 ^ 7 - 1). rewrite js_and_ones_l by lia. change (2 ^ 7) with 128. dlia.
Qed.

(** [popCount] is the number of the bits that are set. *)
Lemma popCount_bits n : 0 <= n < pow31 -> popCount n = bits 32 n.
Proof.
  intros Hn. destruct (split_bytes4 n) as (b0 & b1 & b2 & b3 & H0 & H1 & H2 & H3 & ->); [unfold pow31, pow32 in *; lia|].
  assert (0 <= b3 < 128) as Hb3 by (unfold bytes4, pow31, byte_ok in *; lia).
  rewrite bits_bytes4 by done.
  destruct (byte_masks b0 H0) as (_ & _ & P0 & Y0 & Z0 & S0 & B0). destruct (byte_masks b1 H1) as (_ & _ & P1 & Y1 & Z1 & S1 & B1).
  destruct (byte_masks b2 H2) as (_ & _ & P2 & Y2 & Z2 & S2 & B2). destruct (byte_masks b3 H3) as (_ & _ & P3 & Y3 & Z3 & S3 & B3).
  assert (0 <= pairs b3 < 128) as P3'.
  { unfold pairs in *. assert (0 <= Z.land (b3 / 2) 85) by (apply Z.land_nonneg; dlia). lia. }
  unfold popCount. change 1431655765 with (bytes4 85 85 85 85). change 858993459 with (bytes4 51 51 51 51).
  change 252645135 with (bytes4 15 15 15 15).
  rewrite (shift_mask b0 b1 b2 b3 1 2 128 85) by
    (try done; try (unfold byte_ok; lia); intros b x Hb Hx; by apply (byte_masks b Hb)).
  replace (bytes4 b0 b1 b2 b3 - _) with (bytes4 (pairs b0) (pairs b1) (pairs b2) (pairs b3)) by (unfold pairs, bytes4; lia).
  rewrite (shift_mask (pairs b0) (pairs b1) (pairs b2) (pairs b3) 2 4 64 51) by
    (try done; try (unfold byte_ok; lia); intros b x Hb Hx; by apply (byte_masks b Hb)).
  rewrite (and_bytes4 51 51 51 51) by (unfold byte_ok; lia).
  replace (bytes4 (Z.land 51 (pairs b0)) _ _ _ + _) with
    (bytes4 (nibbles (pairs b0)) (nibbles (pairs b1)) (nibbles (pairs b2)) (nibbles (pairs b3))) by (unfold nibbles, bytes4; lia).
  set (y0 := nibbles (pairs b0)) in *. set (y1 := nibbles (pairs b1)) in *.
  set (y2 := nibbles (pairs b2)) in *. set (y3 := nibbles (pairs b3)) in *.
  rewrite (js_shr_div (bytes4 y0 y1 y2 y3) 4) by (unfold bytes4, pow31; lia). change (2 ^ 4) with 16.
  rewrite (div_bytes4 y0 y1 y2 y3 16 16) by lia.
  replace (bytes4 y0 y1 y2 y3 + _) with (bytes4 (y0 + y0 / 16 + 16 * (y1 mod 16)) (y1 + y1 / 16 + 16 * (y2 mod 16))
    (y2 + y2 / 16 + 16 * (y3 mod 16)) (y3 + y3 / 16 + 16 * 0)) by (unfold bytes4; lia).
  rewrite and_bytes4 by (unfold byte_ok; dlia).
  rewrite S0, S1, S2, S3, B0, B1, B2, B3 by dlia.
  apply sum_bytes4; apply bits_8_range.
Qed.

(** ** Positions in a bitmap *)

Definition int32 (z : Z) : Prop := - pow31 <= z < pow31.

Lemma shl_one i : 0 <= i < 31 -> js_shl 1 i = 2 ^ i.
Proof.
  intros Hi. unfold js_shl. rewrite (to_int32_small 1), Z.mod_small, Z.shiftl_1_l by (unfold pow31; lia).
  apply to_int32_small. unfold pow31. split; [pose proof (Z.pow_nonneg 2 i); lia|].
  change 2147483648 with (2 ^ 31). apply Z.pow_lt_mono_r; lia.
Qed.

Lemma shl_one_31 : js_shl 1 31 = - pow31.
Proof. reflexivity. Qed.

Lemma shl_one_int32 i : 0 <= i < 32 -> int32 (js_shl 1 i).
Proof. intros. unfold js_shl. apply to_int32_range. Qed.

(** Among its 32 bits, [1 << i] has the bit [i] only. *)
Lemma testbit_shl i j : 0 <= i < 32 -> 0 <= j < 32 -> Z.testbit (js_shl 1 i) j = (j =? i).
Proof.
  intros Hi Hj. destruct (Z.eq_dec i 31) as [->|].
  - rewrite shl_one_31. unfold pow31. change 2147483648 with (2 ^ 31). rewrite Z.bits_opp by lia.
    destruct (Z.eqb_spec j 31) as [->|]; [done|]. replace (Z.pred (2 ^ 31)) with (Z.ones 31) by done.
    rewrite Z.ones_spec_low by lia. done.
  - rewrite shl_one by lia. rewrite Z.pow2_bits_eqb by lia. apply Z.eqb_sym.
Qed.

Lemma int32_bits_inj a b : int32 a -> int32 b -> (forall j, 0 <= j < 32 -> Z.testbit a j = Z.testbit b j) -> a = b.
Proof.
  intros Ha Hb Hbits.
  assert (a mod 2 ^ 32 = b mod 2 ^ 32) as E.
  { apply Z.bits_inj'. intros j Hj. destruct (Z.lt_ge_cases j 32).
    - rewrite !Z.mod_pow2_bits_low by lia. apply Hbits. lia.
    - rewrite !Z.mod_pow2_bits_high by lia. done. }
  unfold int32, pow31 in *. change (2 ^ 32) with 4294967296 in E. dlia.
Qed.

Lemma int32_sign z : int32 z <-> Z.shiftr z 31 = 0 \/ Z.shiftr z 31 = -1.
Proof. unfold int32, pow31. rewrite Z.shiftr_div_pow2 by lia. change (2 ^ 31) with 2147483648. dlia. Qed.

Lemma int32_bitwise a b : int32 a -> int32 b -> int32 (Z.land a b) /\ int32 (Z.lor a b) /\ int32 (Z.lxor a b).
Proof.
  rewrite !int32_sign, Z.shiftr_land, Z.shiftr_lor, Z.shiftr_lxor.
  intros [->| ->] [->| ->]; cbn; auto.
Qed.

(** The bitmap operations of the nodes on the position [i]. *)
Section Bitmap.
Context (bm i : Z) (Hbm : int32 bm) (Hi : 0 <= i < 32).

Lemma bitmap_test : (js_and bm (js_shl 1 i) =? 0) = negb (Z.testbit bm i).
Proof.
  unfold js_and. rewrite !to_int32_small by (try apply shl_one_int32; assumption).
  destruct (Z.eqb_spec (Z.land bm (js_shl 1 i)) 0) as [E|E].
  - apply (f_equal (fun z => Z.testbit z i)) in E. rewrite Z.land_spec, testbit_shl, Z.eqb_refl, andb_true_r, Z.bits_0 in E by lia.
    by rewrite E.
  - destruct (Z.testbit bm i) eqn:Eb; [done|]. destruct E.
    apply int32_bits_inj; [by apply int32_bitwise, shl_one_int32|unfold int32, pow31; lia|].
    intros j Hj. rewrite Z.land_spec, testbit_shl, Z.bits_0 by lia.
    destruct (Z.eqb_spec j i) as [->|]; [by rewrite Eb|apply andb_false_r].
Qed.

Lemma bitmap_or : int32 (js_or bm (js_shl 1 i)) /\ forall j, 0 <= j < 32 -> Z.testbit (js_or bm (js_shl 1 i)) j = Z.testbit bm j || (j =? i).
Proof.
  pose proof (shl_one_int32 i Hi) as Hs. unfold js_or. rewrite !to_int32_small by assumption.
  split; [by apply int32_bitwise|]. intros j Hj. by rewrite Z.lor_spec, testbit_shl.
Qed.

Lemma bitmap_xor : int32 (js_xor bm (js_shl 1 i)) /\ forall j, 0 <= j < 32 -> Z.testbit (js_xor bm (js_shl 1 i)) j = xorb (Z.testbit bm j) (j =? i).
Proof.
  pose proof (shl_one_int32 i Hi) as Hs. unfold js_xor. rewrite !to_int32_small by assumption.
  split; [by apply int32_bitwise|]. intros j Hj. by rewrite Z.lxor_spec, testbit_shl.
Qed.

(** The number of positions below [i]. *)
Lemma bitmap_rank : popCount (js_and bm (js_shl 1 i - 1)) = bits (Z.to_nat i) bm.
Proof.
  assert (js_and bm (js_shl 1 i - 1) = bm mod 2 ^ i) as ->.
  { destruct (Z.eq_dec i 31) as [->|].
    - rewrite shl_one_31. change (- pow31 - 1) with (-2147483649). unfold js_and.
      change (to_int32 (-2147483649)) with (Z.ones 31). rewrite Z.land_ones by lia. rewrite to_int32_mod by lia. done.
    - rewrite shl_one by lia. apply js_and_ones. lia. }
  assert (2 ^ i <= pow31) as Hle. { unfold pow31. change 2147483648 with (2 ^ 31). apply Z.pow_le_mono_r; lia. }
  pose proof (Z.mod_pos_bound bm (2 ^ i) ltac:(apply Z.pow_pos_nonneg; lia)).
  rewrite popCount_bits by lia. replace 32%nat with (Z.to_nat i + Z.to_nat (32 - i))%nat by lia.
  rewrite bits_add, bits_mod, Z2Nat.id by lia. rewrite Z.div_small by done.
  enough (bits (Z.to_nat (32 - i)) 0 = 0) as -> by lia.
  unfold bits. rewrite (List.filter_ext_in _ (fun _ => false)) by (intros; apply Z.bits_0).
  induction (range (Z.to_nat (32 - i))); done.
Qed.
End Bitmap.

(** ** The five bits of a hash at a level *)

Lemma index_at_digit s h : 0 <= s < 32 -> index_at s h = (to_uint32 h / 2 ^ s) mod 32.
Proof.
  intros Hs. unfold index_at. change MASK with (2 ^ 5 - 1). rewrite js_and_ones by lia. change (2 ^ 5) with 32.
  destruct (Z.eqb_spec s 0) as [->|].
  - unfold to_uint32, pow32. change (2 ^ 0) with 1. rewrite Z.div_1_r. dlia.
  - unfold js_ushr. rewrite (Z.mod_small s) by lia. by rewrite Z.shiftr_div_pow2 by lia.
Qed.

Lemma index_at_range s h : 0 <= s < 32 -> 0 <= index_at s h < 32.
Proof. intros. rewrite index_at_digit by done. apply Z.mod_pos_bound. lia. Qed.

(** The low bits of a hash, level by level. *)
Definition low (s h : Z) : Z := to_uint32 h mod 2 ^ s.

Lemma low_next s h : 0 <= s < 32 -> low (s + 5) h = low s h + index_at s h * 2 ^ s.
Proof.
  intros. unfold low. rewrite index_at_digit, Z.pow_add_r by lia. change (2 ^ 5) with 32.
  rewrite Z.rem_mul_r by (try lia; apply Z.pow_nonzero; lia). lia.
Qed.

Lemma low_0 h : low 0 h = 0.
Proof. apply Z.mod_1_r. Qed.

(** Hashes with the same low 32 bits are the same. *)
Lemma low_all s h h' : 32 <= s -> int32 h -> int32 h' -> low s h = low s h' -> h = h'.
Proof.
  intros Hs H1 H2. unfold low. assert (pow32 <= 2 ^ s). { unfold pow32. change 4294967296 with (2 ^ 32). apply Z.pow_le_mono_r; lia. }
  unfold to_uint32, int32, pow31, pow32 in *. rewrite !(Z.mod_small (_ mod _)) by dlia. dlia.
Qed.

End ImmutableBits.
