(* ===== verification/ImmutableTrie.v ===== *)
(** * The tries behind Immutable.Map

    The representation of tries in the store of ImmutableMap, and that [get] and [update]
    on their nodes implement a finite map.  A trie is described by a [tree], in which an
    inner node has 32 slots whether its node is a BitmapIndexedNode or a
    HashArrayMapNode. *)

From S2P Require Import Prelude.
From S2P Require Import ImmutableMap.
From S2P Require Import ImmutableBits.
From stdpp Require Import base numbers list option.
Open Scope Z_scope.

(** What the tries rely on: [Immutable.is] is an equivalence that the hash respects, a
    hash is an int32, and values that are [===] are the same value (as all are, but 0 and -0). *)
Class KeyLaws (K : Type) `{Key K} := {
  is_refl : forall k : K, is_ k k = true;
  is_sym : forall k k' : K, is_ k k' = is_ k' k;
  is_trans : forall k k' k'' : K, is_ k k' = true -> is_ k' k'' = true -> is_ k k'' = true;
  is_hash : forall k k' : K, is_ k k' = true -> hash k = hash k';
  hash_int32 : forall k : K, - pow31 <= hash k < pow31
}.
Class SameLaws (V : Type) `{Same V} := { same_eq : forall v v' : V, same v v' = true -> v = v' }.

Module ImmutableTrie.
Import ImmutableMap ImmutableBits.

Section Trie.
Context {K V : Type} `{KeyLaws K} `{SameLaws V}.
Abbreviation store := (@store K V).
Abbreviation M := (@M K V).

(** ** Association lists *)

Fixpoint look (k : K) (es : list (K * V)) : option V :=
  match es with
  | [] => None
  | (k', v) :: es => if is_ k k' then Some v else look k es
  end.

(** ** Trees *)

(** The two kinds of inner nodes, with the bitmap or the count. *)
Inductive inner := Bitmap (bm : Z) | Counted (count : Z).

Inductive tree :=
| Leaf (a : nat) (o : option nat) (h : Z) (c : nat)
| Coll (a : nat) (o : option nat) (h : Z) (cs : list nat)
| Inner (a : nat) (o : option nat) (i : inner) (slots : list (option tree)).

Definition root (t : tree) : nat := match t with Leaf a _ _ _ | Coll a _ _ _ | Inner a _ _ _ => a end.

Definition oapp {A B} (f : A -> list B) (o : option A) : list B := match o with Some a => f a | None => [] end.

(** The addresses of the nodes and of the entries. *)
Fixpoint addrs (t : tree) : list nat :=
  match t with
  | Leaf a _ _ _ | Coll a _ _ _ => [a]
  | Inner a _ _ slots => a :: flat_map (fun c => match c with Some t => addrs t | None => [] end) slots
  end.
Fixpoint cells (t : tree) : list nat :=
  match t with
  | Leaf _ _ _ c => [c]
  | Coll _ _ _ cs => cs
  | Inner _ _ _ slots => flat_map (fun c => match c with Some t => cells t | None => [] end) slots
  end.

(** The entries, in the order of the iteration. *)
Definition ents_at (s : store) (cs : list nat) : list (K * V) := omap (fun c => entries s !! c) cs.
Definition ents (s : store) (t : tree) : list (K * V) := ents_at s (cells t).

(** The children that are there. *)
Definition children (slots : list (option tree)) : list tree := omap (fun c => c) slots.

(** The node of an inner node. *)
Definition phys (i : inner) (o : option nat) (slots : list (option tree)) : node :=
  match i with
  | Bitmap bm => BitmapIndexedNode o bm ((fun t => Some (root t)) <$> children slots)
  | Counted n => HashArrayMapNode o n (option_map root <$> slots)
  end.

Definition agrees (i : inner) (slots : list (option tree)) : Prop :=
  match i with
  | Bitmap bm => int32 bm /\ forall j c, slots !! j = Some c -> Z.testbit bm (Z.of_nat j) = match c with Some _ => true | None => false end
  | Counted n => n = zlen (children slots)
  end.

Definition inner_ok (s : store) (a : nat) (o : option nat) (i : inner) (slots : list (option tree)) : Prop :=
  length slots = 32%nat /\ nodes s !! a = Some (phys i o slots) /\ agrees i slots.

(** The cells hold entries with the hash and with distinct keys. *)
Definition cell_ok (s : store) (h : Z) (c : nat) : Prop := exists k v, entries s !! c = Some (k, v) /\ hash k = h.
Fixpoint distinct (es : list (K * V)) : Prop :=
  match es with [] => True | (k, _) :: es => look k es = None /\ distinct es end.

(** A trie at a level, the hashes of which have the low bits [p]. *)
Inductive wf (s : store) : Z -> Z -> tree -> Prop :=
| wf_leaf shift p a o h c :
    nodes s !! a = Some (ValueNode o h c) -> cell_ok s h c -> low shift h = p -> wf s shift p (Leaf a o h c)
| wf_coll shift p a o h cs :
    nodes s !! a = Some (HashCollisionNode o h cs) -> (2 <= length cs)%nat -> Forall (cell_ok s h) cs ->
    distinct (ents_at s cs) -> low shift h = p -> wf s shift p (Coll a o h cs)
| wf_inner shift p a o i slots :
    0 <= shift <= 30 -> 0 <= p < 2 ^ shift -> inner_ok s a o i slots ->
    (forall j t, slots !! j = Some (Some t) -> wf s (shift + 5) (p + Z.of_nat j * 2 ^ shift) t) ->
    wf s shift p (Inner a o i slots).

(** ** Association lists: lemmas *)

Lemma look_app k a b : look k (a ++ b) = match look k a with Some v => Some v | None => look k b end.
Proof. induction a as [|[k' v] a IH]; [done|]. cbn. by destruct (is_ k k'). Qed.

Lemma look_is k k' es : is_ k k' = true -> look k es = look k' es.
Proof.
  intros Hk. induction es as [|[k'' v] es IH]; [done|]. cbn. rewrite IH.
  destruct (is_ k k'') eqn:E1, (is_ k' k'') eqn:E2; try done; exfalso.
  - rewrite is_sym in Hk. by rewrite (is_trans _ _ _ Hk E1) in E2.
  - by rewrite (is_trans _ _ _ Hk E2) in E1.
Qed.

Lemma look_none k es : (forall e, e ∈ es -> is_ k e.1 = false) -> look k es = None.
Proof.
  induction es as [|[k' v] es IH]; [done|]. intros Hn. cbn.
  pose proof (Hn (k', v) ltac:(by left)) as Hk. cbn in Hk. rewrite Hk. apply IH. intros e He. apply Hn. by right.
Qed.

Lemma look_none_inv k es e : look k es = None -> e ∈ es -> is_ k e.1 = false.
Proof.
  induction es as [|[k' v] es IH]; intros Hn He; [by apply elem_of_nil in He|]. cbn in Hn.
  destruct (is_ k k') eqn:E; [done|]. apply elem_of_cons in He as [->|He]; [done|auto].
Qed.

Lemma look_hash k es : Forall (fun e => hash e.1 <> hash k) es -> look k es = None.
Proof.
  intros Hf. apply look_none. intros e He. apply Forall_forall with (x := e) in Hf; [|by apply list_elem_of_In].
  destruct (is_ k e.1) eqn:E; [|done]. by apply is_hash in E.
Qed.

(** ** Slots *)

Lemma zlen_fmap {A B} (f : A -> B) l : zlen (f <$> l) = zlen l.
Proof. unfold zlen. by rewrite length_fmap. Qed.

Lemma slots_split {A} (l : list A) (j : nat) c : l !! j = Some c -> l = take j l ++ c :: drop (S j) l.
Proof. intros Hj. symmetry. by apply take_drop_middle. Qed.

Lemma slots_insert {A} (l : list A) (j : nat) c d : l !! j = Some c -> <[j := d]> l = take j l ++ d :: drop (S j) l.
Proof.
  intros Hj. apply lookup_lt_Some in Hj as Hlt. rewrite (slots_split l j c Hj) at 1.
  rewrite insert_app_r_alt by (rewrite length_take; lia). rewrite length_take, Nat.min_l, Nat.sub_diag by lia. done.
Qed.

Lemma children_app a b : children (a ++ b) = children a ++ children b.
Proof. apply omap_app. Qed.

Lemma children_split slots j c : slots !! j = Some c ->
  children slots = children (take j slots) ++ oapp (fun t => [t]) c ++ children (drop (S j) slots).
Proof. intros Hj. rewrite (slots_split _ _ _ Hj) at 1. rewrite children_app. by destruct c. Qed.

Lemma children_insert slots j c d : slots !! j = Some c ->
  children (<[j := d]> slots) = children (take j slots) ++ oapp (fun t => [t]) d ++ children (drop (S j) slots).
Proof. intros Hj. rewrite (slots_insert _ _ _ _ Hj), children_app. by destruct d. Qed.

Lemma range_S n : range (S n) = range n ++ [Z.of_nat n].
Proof. unfold range. replace (Z.of_nat (S n)) with (Z.of_nat n + 1) by lia. rewrite seqZ_app by lia. done. Qed.

(** The rank of a position in the bitmap is the number of the children before it. *)
Lemma slots_rank bm slots n : agrees (Bitmap bm) slots -> (n <= length slots)%nat ->
  bits n bm = zlen (children (take n slots)).
Proof.
  intros [_ Hbm]. induction n as [|n IH]; intros Hn; [done|].
  destruct (slots !! n) as [c|] eqn:Ec; [|apply lookup_ge_None in Ec; lia].
  unfold bits in *. rewrite range_S, List.filter_app, zlen_app, IH by lia.
  rewrite (take_S_r _ _ _ Ec), children_app, zlen_app. cbn. rewrite (Hbm _ _ Ec). by destruct c.
Qed.

Lemma flat_split {A B} (f : A -> list B) l j c : l !! j = Some c ->
  flat_map f l = flat_map f (take j l) ++ f c ++ flat_map f (drop (S j) l).
Proof. intros Hj. rewrite (slots_split _ _ _ Hj) at 1. by rewrite List.flat_map_app. Qed.

Lemma flat_insert {A B} (f : A -> list B) l j c d : l !! j = Some c ->
  flat_map f (<[j := d]> l) = flat_map f (take j l) ++ f d ++ flat_map f (drop (S j) l).
Proof. intros Hj. by rewrite (slots_insert _ _ _ _ Hj), List.flat_map_app. Qed.

Lemma elem_flat {A B} (f : A -> list B) l x : x ∈ flat_map f l <-> exists j c, l !! j = Some c /\ x ∈ f c.
Proof.
  rewrite list_elem_of_In, in_flat_map. split.
  - intros (c & Hc & Hx). apply list_elem_of_In, list_elem_of_lookup in Hc as [j Hj]. exists j, c. by rewrite list_elem_of_In.
  - intros (j & c & Hj & Hx). exists c. rewrite <- !list_elem_of_In. split; [|done]. by eapply list_elem_of_lookup_2.
Qed.

(** ** Trees in a store *)

Abbreviation oaddrs := (oapp addrs).
Abbreviation ocells := (oapp cells).
Definition oents (s : store) (ot : option tree) : list (K * V) := ents_at s (ocells ot).

Lemma addrs_inner a o i slots : addrs (Inner a o i slots) = a :: flat_map oaddrs slots.
Proof. done. Qed.
Lemma cells_inner a o i slots : cells (Inner a o i slots) = flat_map ocells slots.
Proof. done. Qed.

Lemma ents_at_app s a b : ents_at s (a ++ b) = ents_at s a ++ ents_at s b.
Proof. apply omap_app. Qed.

Lemma root_addrs t : root t ∈ addrs t.
Proof. destruct t; by left. Qed.

Lemma low_up shift p j h : 0 <= shift <= 30 -> 0 <= p < 2 ^ shift ->
  low (shift + 5) h = p + j * 2 ^ shift -> low shift h = p /\ index_at shift h = j.
Proof.
  intros Hs Hp E. rewrite low_next in E by lia.
  pose proof (Z.mod_pos_bound (to_uint32 h) (2 ^ shift) ltac:(apply Z.pow_pos_nonneg; lia)) as Hl. fold (low shift h) in Hl.
  assert (index_at shift h = j) by nia. nia.
Qed.

(** The entries of a trie are there, and their hashes have its low bits. *)
Lemma wf_cells s shift p t : wf s shift p t ->
  Forall (fun c => exists k v, entries s !! c = Some (k, v) /\ low shift (hash k) = p) (cells t).
Proof.
  intros Hwf. apply Forall_forall. intros c Hc. apply list_elem_of_In in Hc. revert c Hc.
  induction Hwf as [shift p a o h c Ha (k & v & Hc & <-) Hl|shift p a o h cs Ha _ Hcs _ Hl|shift p a o i slots Hs Hp Hi _ IH]; intros c' Hin.
  - apply list_elem_of_singleton in Hin as ->. by exists k, v.
  - apply Forall_forall with (x := c') in Hcs; [|by apply list_elem_of_In]. destruct Hcs as (k & v & Hc & <-). by exists k, v.
  - rewrite cells_inner in Hin. apply elem_flat in Hin as (j & [t|] & Hj & Hin); [|by apply elem_of_nil in Hin].
    destruct (IH j t Hj c' Hin) as (k & v & Hc & Hl). exists k, v. split; [done|]. by eapply low_up.
Qed.

Lemma wf_nodes s shift p t : wf s shift p t -> forall a, a ∈ addrs t -> (a < length (nodes s))%nat.
Proof.
  induction 1 as [shift p a o h c Ha|shift p a o h cs Ha|shift p a o i slots Hs Hp (_ & Ha & _) _ IH]; intros a' Hin.
  1,2: apply list_elem_of_singleton in Hin as ->; by eapply lookup_lt_Some.
  rewrite addrs_inner in Hin. apply elem_of_cons in Hin as [->|Hin]; [by eapply lookup_lt_Some|].
  apply elem_flat in Hin as (j & [t|] & Hj & Hin); [eauto|by apply elem_of_nil in Hin].
Qed.

Lemma wf_cells_lt s shift p t c : wf s shift p t -> c ∈ cells t -> (c < length (entries s))%nat.
Proof.
  intros Hwf Hc. apply wf_cells in Hwf. apply Forall_forall with (x := c) in Hwf; [|by apply list_elem_of_In].
  destruct Hwf as (k & v & Hc' & _). by eapply lookup_lt_Some.
Qed.

Lemma ents_at_frame s s' cs : (forall c, c ∈ cs -> entries s' !! c = entries s !! c) -> ents_at s' cs = ents_at s cs.
Proof.
  unfold ents_at. induction cs as [|c cs IH]; [done|]. intros Hf. cbn. rewrite (Hf c) by (by left).
  rewrite IH by (intros; apply Hf; by right). done.
Qed.

(** A trie is a trie in a store with the same nodes and entries. *)
Lemma wf_frame s s' shift p t : wf s shift p t ->
  (forall a, a ∈ addrs t -> nodes s' !! a = nodes s !! a) ->
  (forall c, c ∈ cells t -> entries s' !! c = entries s !! c) -> wf s' shift p t.
Proof.
  induction 1 as [shift p a o h c Ha Hc Hl|shift p a o h cs Ha H2' Hcs Hd Hl|shift p a o i slots Hs Hp (Hlen & Ha & Hag) _ IH]; intros Hn He.
  - constructor; [|unfold cell_ok|done]; rewrite ?Hn, ?He by (by left); done.
  - constructor; [rewrite Hn by (by left); done|done| |by rewrite (ents_at_frame s s')|done].
    apply Forall_forall. intros c Hc. unfold cell_ok. rewrite He by (by apply list_elem_of_In).
    by apply Forall_forall with (x := c) in Hcs.
  - constructor; [done|done| |].
    + unfold inner_ok. rewrite Hn by (by left). done.
    + intros j t Hj. apply IH; [done| |].
      * intros a' Ha'. apply Hn. rewrite addrs_inner. right. apply elem_flat. by exists j, (Some t).
      * intros c' Hc'. apply He. rewrite cells_inner. apply elem_flat. by exists j, (Some t).
Qed.

(** ** get *)

Lemma slot_at shift h slots : 0 <= shift <= 30 -> length slots = 32%nat ->
  exists j (c : option tree), index_at shift h = Z.of_nat j /\ (j < 32)%nat /\ slots !! j = Some c.
Proof.
  intros Hs Hl. pose proof (index_at_range shift h ltac:(lia)) as Hr.
  destruct (lookup_lt_is_Some_2 slots (Z.to_nat (index_at shift h))) as [c Hc]; [lia|].
  exists (Z.to_nat (index_at shift h)), c. split_and!; [lia|lia|done].
Qed.

(** The bit and the rank of a slot. *)
Lemma bitmap_slot bm slots j c : agrees (Bitmap bm) slots -> length slots = 32%nat -> slots !! j = Some c ->
  (js_and bm (js_shl 1 (Z.of_nat j)) =? 0) = match c with Some _ => false | None => true end /\
  popCount (js_and bm (js_shl 1 (Z.of_nat j) - 1)) = zlen (children (take j slots)).
Proof.
  intros Hag Hlen Hj. apply lookup_lt_Some in Hj as Hlt. pose proof Hag as [Hi Hb]. split.
  - rewrite bitmap_test by (try done; lia). rewrite (Hb _ _ Hj). by destruct c.
  - rewrite bitmap_rank by (try done; lia). rewrite Nat2Z.id. apply slots_rank; [done|lia].
Qed.

Lemma find_entry_ok k s cs i : (forall c, c ∈ cs -> is_Some (entries s !! c)) ->
  match find_entry k cs i s with
  | Some (None, s') => s' = s /\ look k (ents_at s cs) = None
  | Some (Some (i', v), s') => s' = s /\ look k (ents_at s cs) = Some v /\
      exists j c k', i' = (i + j)%nat /\ cs !! j = Some c /\ entries s !! c = Some (k', v) /\ is_ k k' = true
  | None => False
  end.
Proof.
  revert i. induction cs as [|c cs IH]; intros i Hcs; [done|].
  destruct (Hcs c ltac:(by left)) as [[k' v] Hc]. cbn. unfold bind, get_entry. rewrite Hc. cbn.
  destruct (is_ k k') eqn:E.
  - cbn. split_and!; [done..|]. exists 0%nat, c, k'. split_and!; (done || lia).
  - specialize (IH (S i) ltac:(intros; apply Hcs; by right)).
    destruct (find_entry k cs (S i) s) as [[[[i' v']|] s']|]; [|done|done].
    destruct IH as (-> & Hl & j & c' & k'' & -> & Hj & Hc' & Hk). split_and!; [done..|].
    exists (S j), c', k''. split_and!; (done || lia).
Qed.

Lemma wf_some s shift p t c : wf s shift p t -> c ∈ cells t -> is_Some (entries s !! c).
Proof. intros. apply lookup_lt_is_Some. by eapply wf_cells_lt. Qed.

(** Where the key of a hash is in an inner node. *)
Lemma look_inner s shift p a o i slots k j c : wf s shift p (Inner a o i slots) -> low shift (hash k) = p ->
  index_at shift (hash k) = Z.of_nat j -> slots !! j = Some c ->
  look k (ents_at s (flat_map ocells (take j slots))) = None /\ look k (ents_at s (flat_map ocells (drop (S j) slots))) = None.
Proof.
  inversion 1 as [| |? ? ? ? ? ? Hs Hp Hok Hch]; subst. intros Hl Hix Hj.
  assert (forall l, (forall j' c', l !! j' = Some c' -> exists j'', j'' <> j /\ slots !! j'' = Some c') ->
    look k (ents_at s (flat_map ocells l)) = None) as Hside.
  { intros l Hl'. apply look_none. intros e He. apply list_elem_of_omap in He as (c0 & Hc0 & He).
    apply elem_flat in Hc0 as (j' & [t|] & Hj' & Hc0); [|by apply elem_of_nil in Hc0].
    destruct (Hl' _ _ Hj') as (j'' & Hne & Hj''). pose proof (wf_cells _ _ _ _ (Hch _ _ Hj'')) as Hw.
    apply Forall_forall with (x := c0) in Hw; [|by apply list_elem_of_In]. destruct Hw as (k' & v & Hc & Hlow).
    rewrite Hc in He. injection He as <-. cbn. destruct (is_ k k') eqn:E; [|done]. apply is_hash in E.
    rewrite <- E in Hlow. apply low_up in Hlow as [_ Hlow]; [lia|done|done]. }
  apply lookup_lt_Some in Hj as Hlt. split; apply Hside; intros j' c' Hj'.
  - apply lookup_take_Some in Hj' as [Hj' ?]. exists j'. split; [lia|done].
  - rewrite lookup_drop in Hj'. exists (S j + j')%nat. split; [lia|done].
Qed.

Lemma look_inner_eq s shift p a o i slots k j c : wf s shift p (Inner a o i slots) -> low shift (hash k) = p ->
  index_at shift (hash k) = Z.of_nat j -> slots !! j = Some c -> look k (ents s (Inner a o i slots)) = look k (oents s c).
Proof.
  intros Hwf Hl Hix Hj. destruct (look_inner _ _ _ _ _ _ _ _ _ _ Hwf Hl Hix Hj) as [Hb Ha].
  unfold ents, oents. rewrite cells_inner, (flat_split _ _ _ _ Hj), !ents_at_app, !look_app, Hb, Ha.
  by destruct (look k (ents_at s (ocells c))).
Qed.

Definition hash_arg (k : K) (kh : option Z) : Prop := kh = None \/ kh = Some (hash k).

Lemma hash_arg_default k kh : hash_arg k kh -> default (hash k) kh = hash k.
Proof. by intros [->| ->]. Qed.

Theorem node_get_ok fuel : forall s t shift p kh k, wf s shift p t -> shift <= 35 -> 40 - shift <= 5 * Z.of_nat fuel ->
  hash_arg k kh -> low shift (hash k) = p -> node_get fuel (root t) shift kh k s = Some (look k (ents s t), s).
Proof.
  induction fuel as [|fuel IH]; intros s t shift p kh k Hwf Hsh Hf Hk Hl; [lia|]. pose proof Hwf as Hwf0.
  destruct Hwf as [shift p a o h c Ha (k' & v & Hc & Hh) Hp|shift p a o h cs Ha Hlen Hcs Hd Hp|shift p a o i slots Hs Hp (Hlen & Ha & Hag) Hch];
    cbn [root node_get]; unfold bind at 1, get_node; rewrite Ha.
  - unfold bind, get_entry. rewrite Hc. unfold ents, ents_at. cbn. rewrite Hc. cbn. by destruct (is_ k k').
  - pose proof (find_entry_ok k s cs 0) as Hfe. unfold bind.
    destruct (find_entry k cs 0 s) as [[[[i' v]|] s']|]; [| |exfalso; apply Hfe].
    + destruct Hfe as (-> & Hlk & _); [intros; by eapply wf_some|]. unfold ents. cbn [cells]. by rewrite Hlk.
    + destruct Hfe as (-> & Hlk); [intros; by eapply wf_some|]. unfold ents. cbn [cells]. by rewrite Hlk.
    + intros; by eapply wf_some.
  - destruct (slot_at shift (hash k) slots Hs Hlen) as (j & c & Hix & Hj & Hc).
    rewrite (look_inner_eq _ _ _ _ _ _ _ _ _ _ Hwf0 Hl Hix Hc).
    assert (forall t, c = Some t -> node_get fuel (root t) (shift + SHIFT) (Some (hash k)) k s = Some (look k (ents s t), s)) as Hrec.
    { intros t ->. apply (IH _ _ _ _ _ _ (Hch _ _ Hc)); [lia|unfold SHIFT; lia|by right|].
      change SHIFT with 5. rewrite low_next by lia. lia. }
    destruct i as [bm|n]; cbn [phys]; rewrite (hash_arg_default _ _ Hk), Hix.
    + destruct (bitmap_slot _ _ _ _ Hag Hlen Hc) as [-> ->]. destruct c as [t|]; [|done].
      rewrite (children_split _ _ _ Hc), fmap_app, <- (zlen_fmap (fun t => Some (root t))), zget_app_r, Z.sub_diag by lia.
      match goal with |- context [zget ?l 0] => change (zget l 0) with (Some (Some (root t))) end. by apply Hrec.
    + rewrite zget_nat, list_lookup_fmap, Hc. destruct c as [t|]; [by apply Hrec|done].
Qed.

(** ** Frames

    What a step on behalf of the owner [e] changes: nodes of [A] that [e] owns, the entries
    in [C] of value nodes that [e] owns, and new objects.  A value node that the step
    makes has a new entry, unless the step is [loose]. *)

Record frame (e : option nat) (loose : Prop) (A C : list nat) (s s' : store) : Prop := {
  fr_nodes_len : (length (nodes s) <= length (nodes s'))%nat;
  fr_cells_len : (length (entries s) <= length (entries s'))%nat;
  fr_nodes : forall a n, nodes s !! a = Some n -> nodes s' !! a = Some n \/ (a ∈ A /\ isEditable e (node_owner n) = true);
  fr_cells : forall c x, entries s !! c = Some x -> entries s' !! c = Some x \/
    (c ∈ C /\ exists a o h, nodes s !! a = Some (ValueNode o h c) /\ isEditable e o = true);
  fr_new : forall a n, nodes s' !! a = Some n -> nodes s !! a = Some n \/
    ((node_owner n = e \/ exists x, node_owner n = Some x /\ (owners s <= x < owners s')%nat) /\
     forall o h c, n = ValueNode o h c -> (length (entries s) <= c)%nat \/ loose);
  fr_maps : maps s' = maps s;
  fr_owners : (owners s <= owners s')%nat;
  fr_empty : EMPTY_MAP s' = EMPTY_MAP s
}.

Lemma frame_refl e L A C s : frame e L A C s s.
Proof. constructor; auto. Qed.

Lemma frame_trans e L A C A1 C1 s s1 s2 : frame e L A C s s1 -> frame e L A1 C1 s1 s2 ->
  (forall a, a ∈ A1 -> a ∈ A \/ (length (nodes s) <= a)%nat) -> (forall c, c ∈ C1 -> (length (entries s) <= c)%nat) ->
  frame e L A C s s2.
Proof.
  intros F1 F2 HA HC. constructor.
  - pose proof (fr_nodes_len _ _ _ _ _ _ F1). pose proof (fr_nodes_len _ _ _ _ _ _ F2). lia.
  - pose proof (fr_cells_len _ _ _ _ _ _ F1). pose proof (fr_cells_len _ _ _ _ _ _ F2). lia.
  - intros a n Ha. destruct (fr_nodes _ _ _ _ _ _ F1 a n Ha) as [Ha1|]; [|auto].
    destruct (fr_nodes _ _ _ _ _ _ F2 a n Ha1) as [|[HA1 ?]]; [auto|]. apply lookup_lt_Some in Ha.
    destruct (HA _ HA1); [auto|lia].
  - intros c x Hc. destruct (fr_cells _ _ _ _ _ _ F1 c x Hc) as [Hc1|]; [|auto].
    destruct (fr_cells _ _ _ _ _ _ F2 c x Hc1) as [|[HC1 _]]; [auto|]. apply lookup_lt_Some in Hc. apply HC in HC1. lia.
  - intros a n Ha. pose proof (fr_owners _ _ _ _ _ _ F1). pose proof (fr_owners _ _ _ _ _ _ F2).
    pose proof (fr_cells_len _ _ _ _ _ _ F1).
    destruct (fr_new _ _ _ _ _ _ F2 a n Ha) as [Ha1|[Ho Hv]].
    + destruct (fr_new _ _ _ _ _ _ F1 a n Ha1) as [|[Ho Hv]]; [auto|right]. split; [|done].
      destruct Ho as [|(x & ? & ?)]; [auto|right; exists x; split; [done|lia]].
    + right. split.
      * destruct Ho as [|(x & ? & ?)]; [auto|right; exists x; split; [done|lia]].
      * intros o h c Hn. destruct (Hv o h c Hn); [left; lia|auto].
  - by rewrite (fr_maps _ _ _ _ _ _ F2), (fr_maps _ _ _ _ _ _ F1).
  - pose proof (fr_owners _ _ _ _ _ _ F1). pose proof (fr_owners _ _ _ _ _ _ F2). lia.
  - by rewrite (fr_empty _ _ _ _ _ _ F2), (fr_empty _ _ _ _ _ _ F1).
Qed.

Lemma frame_weaken e L A C A' C' s s' : frame e L A C s s' -> (forall a, a ∈ A -> a ∈ A') -> (forall c, c ∈ C -> c ∈ C') ->
  frame e L A' C' s s'.
Proof.
  intros [] HA HC. constructor; auto.
  - intros a n Ha. edestruct fr_nodes0 as [|[]]; eauto.
  - intros c x Hc. edestruct fr_cells0 as [|[]]; eauto.
Qed.

(** A trie the frame does not touch. *)
Lemma frame_wf e L A C s s' shift p t : frame e L A C s s' -> wf s shift p t ->
  (forall a, a ∈ addrs t -> a ∉ A) -> (forall c, c ∈ cells t -> c ∉ C) ->
  wf s' shift p t /\ forall cs, (forall c, c ∈ cs -> c ∈ cells t) -> ents_at s' cs = ents_at s cs.
Proof.
  intros F Hwf HA HC.
  assert (forall c, c ∈ cells t -> entries s' !! c = entries s !! c) as Hc.
  { intros c Hc. destruct (wf_some _ _ _ _ _ Hwf Hc) as [x Hx]. rewrite Hx.
    destruct (fr_cells _ _ _ _ _ _ F c x Hx) as [|[Hin _]]; [done|]. by destruct (HC c Hc). }
  split; [|intros; apply ents_at_frame; auto].
  apply (wf_frame s); [done| |done]. intros a Ha.
  destruct (lookup_lt_is_Some_2 (nodes s) a (wf_nodes _ _ _ _ Hwf a Ha)) as [n Hn]. rewrite Hn.
  destruct (fr_nodes _ _ _ _ _ _ F a n Hn) as [|[Hin _]]; [done|]. by destruct (HA a Ha).
Qed.

Definition with_nodes (ns : list node) (s : store) : store := Store ns (entries s) (maps s) (owners s) (EMPTY_MAP s).
Definition with_entries (es : list (K * V)) (s : store) : store := Store (nodes s) es (maps s) (owners s) (EMPTY_MAP s).

Lemma new_node_eq n s : new_node n s = Some (length (nodes s), with_nodes (nodes s ++ [n]) s).
Proof. done. Qed.
Lemma new_entry_eq x s : new_entry x s = Some (length (entries s), with_entries (entries s ++ [x]) s).
Proof. done. Qed.

Lemma lookup_snoc {A} (l : list A) x : (l ++ [x]) !! length l = Some x.
Proof. by apply list_lookup_middle. Qed.

Lemma lookup_snoc_inv {A} (l : list A) x i y : (l ++ [x]) !! i = Some y -> l !! i = Some y \/ (i = length l /\ y = x).
Proof.
  intros Hi. apply lookup_app_Some in Hi as [|[Hge Hi]]; [auto|]. right.
  destruct (i - length l)%nat as [|m] eqn:E; cbn in Hi; [|done].
  injection Hi as ->. split; [lia|done].
Qed.

Lemma frame_new_node e (L : Prop) A C s0 s n : frame e L A C s0 s -> node_owner n = e ->
  (forall o h c, n = ValueNode o h c -> (length (entries s0) <= c)%nat \/ L) ->
  frame e L A C s0 (with_nodes (nodes s ++ [n]) s).
Proof.
  intros [] Hn Hv. constructor; cbn; auto.
  - rewrite length_app. lia.
  - intros a n' Ha. destruct (fr_nodes0 _ _ Ha); [left; by apply lookup_app_l_Some|auto].
  - intros a n' Ha. apply lookup_snoc_inv in Ha as [|[-> ->]]; auto.
Qed.

Lemma frame_new_entry e L A C s x : frame e L A C s (with_entries (entries s ++ [x]) s).
Proof.
  constructor; cbn; auto.
  - rewrite length_app. lia.
  - intros c y Hc. left. by apply lookup_app_l_Some.
Qed.

(** [edit] puts a node in the place of its old one or makes a new one. *)
Lemma edit_ok e L s a old new : nodes s !! a = Some old -> node_owner new = e -> (forall o h c, new <> ValueNode o h c) ->
  exists b s', edit e a old new s = Some (b, s') /\ nodes s' !! b = Some new /\ entries s' = entries s /\
    frame e L [a] [] s s' /\ (b = a \/ b = length (nodes s)).
Proof.
  intros Ha Hn Hv. unfold edit. destruct (isEditable e (node_owner old)) eqn:E.
  - exists a, (with_nodes (<[a := new]> (nodes s)) s). split_and!; [done| |done| |auto].
    + apply list_lookup_insert_eq. by eapply lookup_lt_Some.
    + constructor; cbn; auto; [rewrite length_insert; lia| |].
      * intros a' n' Ha'. destruct (decide (a' = a)) as [->|Hne]; [|left; by rewrite list_lookup_insert_ne].
        rewrite Ha in Ha'. injection Ha' as <-. right. split; [by left|done].
      * intros a' n' Ha'. destruct (decide (a' = a)) as [->|Hne].
        -- rewrite list_lookup_insert_eq in Ha' by (by eapply lookup_lt_Some). injection Ha' as <-. right.
           split; [auto|]. intros o h c Hx. by destruct (Hv o h c).
        -- left. by rewrite list_lookup_insert_ne in Ha'.
  - exists (length (nodes s)), (with_nodes (nodes s ++ [new]) s). split_and!; [done|apply lookup_snoc|done| |auto].
    apply frame_new_node; [apply frame_refl|done|]. intros o h c Hx. by destruct (Hv o h c).
Qed.

(** ** New inner nodes *)

Lemma children_replicate n : children (replicate n None) = [].
Proof. by induction n. Qed.

Lemma flat_children {B} (f : tree -> list B) slots : flat_map (oapp f) slots = flat_map f (children slots).
Proof. unfold children. induction slots as [|[t|] slots IH]; [done| |]; cbn; by rewrite ?IH. Qed.

Definition no_slots : list (option tree) := replicate 32 None.

Lemma no_slots_at j : (j < 32)%nat -> no_slots !! j = Some None.
Proof. intros. by apply lookup_replicate_2. Qed.

Lemma children_one j t : (j < 32)%nat -> children (<[j := Some t]> no_slots) = [t].
Proof.
  intros Hj. rewrite (children_insert _ _ None) by (by apply no_slots_at). unfold no_slots.
  rewrite take_replicate, drop_replicate, !children_replicate. done.
Qed.

Lemma children_two i j t t' : (i < j < 32)%nat -> children (<[i := Some t]> (<[j := Some t']> no_slots)) = [t; t'].
Proof.
  intros Hj. rewrite (children_insert _ _ None) by (rewrite list_lookup_insert_ne by lia; apply no_slots_at; lia).
  rewrite take_insert_ge by lia. rewrite drop_insert_ge by lia. unfold no_slots.
  rewrite take_replicate, drop_replicate, children_replicate. cbn [oapp app]. f_equal.
  rewrite (children_insert _ _ None) by (apply lookup_replicate_2; lia).
  rewrite take_replicate, drop_replicate, !children_replicate. done.
Qed.

(** The bitmap of one or two positions. *)
Lemma agrees_two i j (t t' : tree) : (i < 32)%nat -> (j < 32)%nat ->
  agrees (Bitmap (js_or (js_shl 1 (Z.of_nat i)) (js_shl 1 (Z.of_nat j)))) (<[i := Some t]> (<[j := Some t']> no_slots)).
Proof.
  intros Hi Hj. destruct (bitmap_or (js_shl 1 (Z.of_nat i)) (Z.of_nat j)) as [Hr Hb]; [apply shl_one_int32; lia|lia|].
  split; [done|]. intros j' c Hc. assert (j' < 32)%nat as Hlt.
  { apply lookup_lt_Some in Hc. rewrite !length_insert in Hc. done. }
  rewrite Hb, testbit_shl by lia. rewrite list_lookup_insert in Hc. case_decide as E1.
  { injection Hc as <-. destruct E1 as [-> _]. by rewrite Z.eqb_refl. }
  rewrite list_lookup_insert in Hc. case_decide as E2.
  { injection Hc as <-. destruct E2 as [-> _]. rewrite Z.eqb_refl. by rewrite orb_true_r. }
  rewrite no_slots_at in Hc by done. injection Hc as <-. rewrite length_insert in E1.
  change (length no_slots) with 32%nat in *.
  destruct (Z.eqb_spec (Z.of_nat j') (Z.of_nat i)), (Z.eqb_spec (Z.of_nat j') (Z.of_nat j)); try done; exfalso; lia.
Qed.

(** ** mergeIntoNode *)

Definition leafy (t : tree) : Prop := match t with Inner _ _ _ _ => False | _ => True end.
Definition leaf_hash (t : tree) : Z := match t with Leaf _ _ h _ | Coll _ _ h _ => h | Inner _ _ _ _ => 0 end.

Lemma wf_leafy s shift p shift' p' t : wf s shift p t -> leafy t -> low shift' (leaf_hash t) = p' -> wf s shift' p' t.
Proof. destruct 1; cbn; intros; [by constructor|by constructor|done]. Qed.

Lemma wf_leaf_hash s shift p t : wf s shift p t -> leafy t -> low shift (leaf_hash t) = p /\ int32 (leaf_hash t).
Proof.
  destruct 1 as [shift p a o h c Ha (k & v & Hc & <-) Hl|shift p a o h cs Ha Hlen Hcs Hd Hl|]; cbn; intros; [| |done].
  - split; [done|apply hash_int32].
  - split; [done|]. destruct cs as [|c cs]; [cbn in Hlen; lia|]. pose proof (Forall_inv Hcs) as (k & v & Hc & <-). apply hash_int32.
Qed.

Lemma wf_one s shift p a o bm j t : 0 <= shift <= 30 -> 0 <= p < 2 ^ shift -> (j < 32)%nat ->
  nodes s !! a = Some (BitmapIndexedNode o bm [Some (root t)]) -> agrees (Bitmap bm) (<[j := Some t]> no_slots) ->
  wf s (shift + 5) (p + Z.of_nat j * 2 ^ shift) t -> wf s shift p (Inner a o (Bitmap bm) (<[j := Some t]> no_slots)).
Proof.
  intros Hs Hp Hj Ha Hag Hwf. constructor; [done..| |].
  - split_and!; [by rewrite length_insert| |done]. rewrite Ha. unfold phys. by rewrite children_one.
  - intros j' t'. rewrite list_lookup_insert. case_decide as E.
    + intros [= <-]. destruct E as [-> _]. done.
    + intros Hc. apply lookup_replicate_1 in Hc as [? _]. done.
Qed.

Lemma wf_two s shift p a o bm i j t t' : 0 <= shift <= 30 -> 0 <= p < 2 ^ shift -> (i < j < 32)%nat ->
  nodes s !! a = Some (BitmapIndexedNode o bm [Some (root t); Some (root t')]) ->
  agrees (Bitmap bm) (<[i := Some t]> (<[j := Some t']> no_slots)) ->
  wf s (shift + 5) (p + Z.of_nat i * 2 ^ shift) t -> wf s (shift + 5) (p + Z.of_nat j * 2 ^ shift) t' ->
  wf s shift p (Inner a o (Bitmap bm) (<[i := Some t]> (<[j := Some t']> no_slots))).
Proof.
  intros Hs Hp Hj Ha Hag Hwf Hwf'. constructor; [done..| |].
  - split_and!; [by rewrite !length_insert| |done]. rewrite Ha. unfold phys. by rewrite children_two.
  - intros j' t''. rewrite list_lookup_insert. case_decide as E.
    + intros [= <-]. destruct E as [-> _]. done.
    + rewrite list_lookup_insert. case_decide as E'.
      * intros [= <-]. destruct E' as [-> _]. done.
      * intros Hc. apply lookup_replicate_1 in Hc as [? _]. done.
Qed.

Lemma low_range shift h : 0 <= shift -> 0 <= low shift h < 2 ^ shift.
Proof. intros. apply Z.mod_pos_bound. apply Z.pow_pos_nonneg; lia. Qed.

(** The trie [t] with the entry [(k, x)] in the new cell [c]. *)
Record merged (e : option nat) (L : Prop) (s0 s : store) (t : tree) (shift p : Z) (k : K) (x : V) (c : nat) (t' : tree) (s' : store) : Prop := {
  mg_wf : wf s' shift p t';
  mg_entries : entries s' = entries s;
  mg_len : (length (nodes s) <= length (nodes s'))%nat;
  mg_nodup : NoDup (addrs t');
  mg_addrs : forall a, a ∈ addrs t' -> a = root t \/ (length (nodes s) <= a)%nat;
  mg_cells : cells t' ≡ₚ c :: cells t;
  mg_look : forall k', look k' (ents s t') = if is_ k k' then Some x else look k' (ents s t);
  mg_frame : frame e L [] [] s0 s'
}.

Lemma look_snoc k x es k' : look k es = None -> look k' (es ++ [(k, x)]) = if is_ k k' then Some x else look k' es.
Proof.
  intros Hn. rewrite look_app. cbn. rewrite (is_sym k'). destruct (is_ k k') eqn:E.
  - by rewrite <- (look_is _ _ es E), Hn.
  - by destruct (look k' es).
Qed.

Lemma look_cons k x es k' : look k' ((k, x) :: es) = if is_ k k' then Some x else look k' es.
Proof. cbn. by rewrite is_sym. Qed.

Lemma merge_step fuel e s t shift p kh c : wf s shift p t -> leafy t -> leaf_hash t <> kh ->
  mergeIntoNode (S fuel) (root t) e shift kh c s =
  (let a := index_at shift (leaf_hash t) in
   let u := index_at shift kh in
   let bitmap := js_or (js_shl 1 a) (js_shl 1 u) in
   if a =? u then
     let* c := mergeIntoNode fuel (root t) e (shift + SHIFT) kh c in
     new_node (BitmapIndexedNode e bitmap [Some c])
   else
     let* i := new_node (ValueNode e kh c) in
     new_node (BitmapIndexedNode e bitmap (if a <? u then [Some (root t); Some i] else [Some i; Some (root t)]))) s.
Proof.
  destruct 1 as [shift p a o h c' Ha|shift p a o h cs Ha|]; cbn [leafy leaf_hash root]; [| |done]; intros _ Hh;
    cbn [mergeIntoNode]; unfold bind at 1, get_node; rewrite Ha, (proj2 (Z.eqb_neq _ _) Hh); done.
Qed.

(** The entry goes with that of a value node of the same hash. *)
Lemma merge_collision fuel e L s0 s a o c' shift p c k x :
  wf s shift p (Leaf a o (hash k) c') -> entries s !! c = Some (k, x) -> look k (ents s (Leaf a o (hash k) c')) = None ->
  frame e L [] [] s0 s -> exists t' s', mergeIntoNode (S fuel) a e shift (hash k) c s = Some (root t', s') /\
    merged e L s0 s (Leaf a o (hash k) c') shift p k x c t' s'.
Proof.
  intros Hwf Hc Hn Hfr. inversion Hwf as [? ? ? ? ? ? Ha (k' & v & Hc' & Hh) Hl| |]; subst.
  assert (is_ k k' = false) as Hkk. { unfold ents, ents_at in Hn. cbn in Hn. rewrite Hc' in Hn. cbn in Hn. by destruct (is_ k k'). }
  cbn [mergeIntoNode]. unfold bind, get_node. rewrite Ha, Z.eqb_refl, new_node_eq.
  exists (Coll (length (nodes s)) e (hash k) [c'; c]), (with_nodes (nodes s ++ [HashCollisionNode e (hash k) [c'; c]]) s).
  split; [done|]. constructor; try done; [|cbn; rewrite length_app; lia|..].
  - constructor; [apply lookup_snoc|done| | |done].
    + repeat constructor; [by exists k', v|by exists k, x].
    + unfold ents_at. cbn. rewrite Hc', Hc. cbn. by rewrite is_sym, Hkk.
  - apply NoDup_singleton.
  - intros b Hb. apply list_elem_of_singleton in Hb as ->. right. done.
  - cbn. apply Permutation_swap.
  - intros k0. unfold ents, ents_at in *. cbn in *. rewrite Hc', Hc in *. cbn. rewrite (is_sym k0 k). destruct (is_ k k0) eqn:E; [|done].
    destruct (is_ k0 k') eqn:E'; [|done]. by rewrite (is_trans _ _ _ E E') in Hkk.
  - by apply frame_new_node.
Qed.

(** Two hashes with different bits at the level. *)
Lemma merge_split fuel e L s0 s t shift p c k x :
  wf s shift p t -> leafy t -> 0 <= shift <= 30 -> low shift (hash k) = p -> entries s !! c = Some (k, x) ->
  look k (ents s t) = None -> frame e L [] [] s0 s -> (length (entries s0) <= c)%nat ->
  index_at shift (leaf_hash t) <> index_at shift (hash k) ->
  exists t' s', mergeIntoNode (S fuel) (root t) e shift (hash k) c s = Some (root t', s') /\ merged e L s0 s t shift p k x c t' s'.
Proof.
  intros Hwf Hlf Hs Hl Hc Hn Hfr Hc0 Hix. rewrite (merge_step _ _ _ _ _ _ _ _ Hwf Hlf) by congruence.
  destruct (wf_leaf_hash _ _ _ _ Hwf Hlf) as [Hlt _].
  destruct (slot_at shift (leaf_hash t) no_slots Hs eq_refl) as (i & _ & Hi & Hi' & _).
  destruct (slot_at shift (hash k) no_slots Hs eq_refl) as (j & _ & Hj & Hj' & _).
  cbn zeta. rewrite Hi, Hj in *. rewrite (proj2 (Z.eqb_neq _ _) Hix). unfold bind. rewrite new_node_eq, new_node_eq.
  set (l := Leaf (length (nodes s)) e (hash k) c).
  set (n := BitmapIndexedNode _ _ _). set (s1 := with_nodes (nodes s ++ [_]) s).
  set (s2 := with_nodes (nodes s1 ++ [n]) s1).
  assert (frame e L [] [] s0 s1) as F1. { apply frame_new_node; [done|done|]. intros ? ? ? [= _ _ <-]. by left. }
  assert (frame e L [] [] s0 s2) as F2 by (apply frame_new_node; done).
  assert (frame e True [] [] s s2) as F. { apply frame_new_node; [|done|done]. apply frame_new_node; [apply frame_refl|done|auto]. }
  assert (wf s2 (shift + 5) (p + Z.of_nat i * 2 ^ shift) t) as Ht.
  { apply (wf_leafy _ shift p); [|done|rewrite low_next by lia; lia]. 
    eapply frame_wf; [exact F|done|intros; apply not_elem_of_nil..]. }
  assert (wf s2 (shift + 5) (p + Z.of_nat j * 2 ^ shift) l) as Hwl.
  { constructor; [|by exists k, x|rewrite low_next by lia; lia]. apply lookup_app_l_Some, lookup_snoc. }
  assert (0 <= p < 2 ^ shift) as Hp by (rewrite <- Hl; apply low_range; lia).
  assert (addrs t = [root t]) as Hat by (by destruct t).
  assert (root t < length (nodes s))%nat as Hrt by (eapply wf_nodes; [done|apply root_addrs]).
  assert (nodes s2 !! length (nodes s1) = Some n) as Hn2 by apply lookup_snoc. subst n.
  assert (length (nodes s1) = S (length (nodes s))) as Hl1 by (cbn; rewrite length_app; cbn; lia).
  assert (ents_at s [c] = [(k, x)]) as Hec by (unfold ents_at; cbn; by rewrite Hc).
  destruct (Z.ltb_spec (Z.of_nat i) (Z.of_nat j)).
  - exists (Inner (length (nodes s1)) e (Bitmap (js_or (js_shl 1 (Z.of_nat i)) (js_shl 1 (Z.of_nat j)))) (<[i := Some t]> (<[j := Some l]> no_slots))), s2.
    split; [done|]. constructor; [apply wf_two; try done; [lia|by apply agrees_two]|done|eapply fr_nodes_len, F|..|done].
    all: unfold ents; rewrite ?addrs_inner, ?cells_inner, flat_children, children_two by lia; cbn [flat_map]; rewrite ?Hat, ?app_nil_r, ?Hl1.
    + subst l. cbn [addrs app]. rewrite !list.NoDup_cons, !elem_of_cons, !elem_of_nil. split_and!; try lia. apply NoDup_nil_2.
    + intros a Ha. subst l. cbn [addrs app] in Ha. rewrite !elem_of_cons, elem_of_nil in Ha. lia.
    + subst l. cbn [cells]. symmetry. apply Permutation_cons_append.
    + intros k'. subst l. cbn [cells]. rewrite ents_at_app, Hec. by apply look_snoc.
  - exists (Inner (length (nodes s1)) e (Bitmap (js_or (js_shl 1 (Z.of_nat i)) (js_shl 1 (Z.of_nat j)))) (<[j := Some l]> (<[i := Some t]> no_slots))), s2.
    split; [done|]. constructor; [apply wf_two; try done; [lia|rewrite js_or_comm; by apply agrees_two]|done|eapply fr_nodes_len, F|..|done].
    all: unfold ents; rewrite ?addrs_inner, ?cells_inner, flat_children, children_two by lia; cbn [flat_map]; rewrite ?Hat, ?app_nil_r, ?Hl1.
    + subst l. cbn [addrs app]. rewrite !list.NoDup_cons, !elem_of_cons, !elem_of_nil. split_and!; try lia. apply NoDup_nil_2.
    + intros a Ha. subst l. cbn [addrs app] in Ha. rewrite !elem_of_cons, elem_of_nil in Ha. lia.
    + done.
    + intros k'. subst l. cbn [cells]. rewrite ents_at_app, Hec. apply look_cons.
Qed.

Lemma merge_ok fuel : forall e L s0 s t shift p c k x,
  wf s shift p t -> leafy t -> shift mod 5 = 0 -> 0 <= shift <= 35 -> 40 - shift <= 5 * Z.of_nat fuel ->
  low shift (hash k) = p -> entries s !! c = Some (k, x) -> look k (ents s t) = None ->
  match t with Coll _ _ h _ => h <> hash k | _ => True end ->
  frame e L [] [] s0 s -> (length (entries s0) <= c)%nat ->
  exists t' s', mergeIntoNode fuel (root t) e shift (hash k) c s = Some (root t', s') /\ merged e L s0 s t shift p k x c t' s'.
Proof.
  induction fuel as [|fuel IH]; intros e L s0 s t shift p c k x Hwf Hlf Hm Hs Hf Hl Hc Hn Hne Hfr Hc0; [lia|].
  destruct (Z.eq_dec (leaf_hash t) (hash k)) as [Hh|Hh].
  { destruct t as [a o h c'|a o h cs|]; [|done|done]. cbn in Hh. subst h. by apply merge_collision. }
  destruct (wf_leaf_hash _ _ _ _ Hwf Hlf) as [Hlt Hih].
  assert (shift <= 30) as Hs30.
  { destruct (Z.lt_ge_cases shift 32); [dlia|]. destruct Hh. apply (low_all shift); (apply hash_int32 || done || lia). }
  destruct (Z.eq_dec (index_at shift (leaf_hash t)) (index_at shift (hash k))) as [Hix|Hix]; [|apply merge_split; try done; lia].
  rewrite (merge_step _ _ _ _ _ _ _ _ Hwf Hlf) by done. cbn zeta. rewrite Hix, Z.eqb_refl.
  destruct (slot_at shift (hash k) no_slots ltac:(lia) eq_refl) as (j & _ & Hj & Hj' & _).
  destruct (IH e L s0 s t (shift + 5) (p + Z.of_nat j * 2 ^ shift) c k x) as (t1 & s1 & E & [Hwf1 He1 Hn1 Hnd1 Ha1 Hc1 Hl1 Hf1]); try done; try lia.
  { apply (wf_leafy _ shift p); [done|done|]. rewrite low_next by lia. lia. }
  { dlia. }
  { rewrite low_next by lia. lia. }
  change SHIFT with 5. unfold bind. rewrite E, new_node_eq, Hj.
  set (n := BitmapIndexedNode _ _ _). set (s2 := with_nodes (nodes s1 ++ [n]) s1).
  exists (Inner (length (nodes s1)) e (Bitmap (js_or (js_shl 1 (Z.of_nat j)) (js_shl 1 (Z.of_nat j)))) (<[j := Some t1]> no_slots)), s2.
  assert (frame e L [] [] s0 s2) as F2 by (apply frame_new_node; done).
  assert (frame e L [] [] s1 s2) as F by (apply frame_new_node; [apply frame_refl|done|done]).
  pose proof (fr_nodes_len _ _ _ _ _ _ F).
  split; [done|]. constructor; try done; try lia.
  - apply wf_one; try done; [lia|rewrite <- Hl; apply low_range; lia|apply lookup_snoc| |].
    + rewrite <- (list_insert_insert_eq no_slots j (Some t1) (Some t1)). by apply agrees_two.
    + eapply frame_wf; [exact F|done|intros; apply not_elem_of_nil..].
  - rewrite addrs_inner, flat_children, children_one by done. cbn [flat_map]. rewrite app_nil_r. apply list.NoDup_cons. split; [|done].
    intros Hin. apply (wf_nodes _ _ _ _ Hwf1) in Hin. lia.
  - intros a. rewrite addrs_inner, flat_children, children_one by done. cbn [flat_map]. rewrite app_nil_r.
    intros [->|Hin]%elem_of_cons; [|auto]. right. done.
  - rewrite cells_inner, flat_children, children_one by done. cbn [flat_map]. by rewrite app_nil_r.
  - intros k'. unfold ents in *. rewrite cells_inner, flat_children, children_one by done. cbn [flat_map]. by rewrite app_nil_r.
Qed.

End Trie.
End ImmutableTrie.
