(* ===== verification/ImmutableUpdate.v ===== *)
(** * Updates of the tries behind Immutable.Map

    That [update] on the nodes of a trie (and of an ArrayMapNode) gives a trie of the
    updated finite map, changes in place only what belongs to the owner of the mutation,
    and reports the change of the size. *)

From S2P Require Import Prelude.
From S2P Require Import ImmutableMap.
From S2P Require Import ImmutableBits.
From S2P Require Import ImmutableTrie.
From stdpp Require Import base numbers list option.
Open Scope Z_scope.

Module ImmutableUpdate.
Import ImmutableMap ImmutableBits ImmutableTrie.

Section Update.
Context {K V : Type} `{KeyLaws K} `{SameLaws V}.
Abbreviation store := (@store K V).
Abbreviation M := (@M K V).
Abbreviation oaddrs := (oapp addrs).
Abbreviation ocells := (oapp cells).

(** A removal may leave an old entry in a new value node when hashes collide. *)
Definition loose (v : option V) : Prop := v = None /\ exists k k' : K, hash k = hash k' /\ is_ k k' = false.

(** The change of the size. *)
Definition delta (ch : bool) (v : option V) : Z := if ch then match v with None => -1 | Some _ => 1 end else 0.

(** Whether a key comes or goes. *)
Definition changes (old new : option V) : bool :=
  match old, new with Some _, None | None, Some _ => true | _, _ => false end.

(** The trie [ot'] is [ot] with the value of [k] set to [v]. *)
Record updated (e : option nat) (s : store) (ot : option tree) (shift p : Z) (k : K) (v : option V)
    (ot' : option tree) (ch al : bool) (s' : store) : Prop := {
  up_wf : forall t, ot' = Some t -> wf s' shift p t;
  up_nodup_addrs : NoDup (oaddrs ot');
  up_addrs : forall a, a ∈ oaddrs ot' -> a ∈ oaddrs ot \/ (length (nodes s) <= a)%nat;
  up_nodup_cells : NoDup (ocells ot');
  up_cells : forall c, c ∈ ocells ot' -> c ∈ ocells ot \/ (length (entries s) <= c)%nat;
  up_look : forall k', look k' (oents s' ot') = if is_ k k' then v else look k' (oents s ot);
  up_size : zlen (oents s' ot') = zlen (oents s ot) + delta ch v;
  up_ch : ch = changes (look k (oents s ot)) v;
  up_same : al = false -> s' = s /\ ot' = ot /\ ch = false;
  up_frame : frame e (loose v) (oaddrs ot) (ocells ot) s s'
}.

(** ** Permutations of entries *)

Lemma is_congr k k' k0 : is_ k k' = true -> is_ k0 k' = is_ k k0.
Proof.
  intros Hk. rewrite (is_sym k k0). destruct (is_ k0 k') eqn:E, (is_ k0 k) eqn:E'; try done; exfalso.
  - rewrite is_sym in Hk. by rewrite (is_trans _ _ _ E Hk) in E'.
  - by rewrite (is_trans _ _ _ E' Hk) in E.
Qed.

Lemma distinct_perm (es es' : list (K * V)) : es ≡ₚ es' -> distinct es -> distinct es' /\ forall k, look k es = look k es'.
Proof.
  induction 1 as [|[k v] es es' _ IH|[k v] [k' v'] es|es1 es2 es3 _ IH1 _ IH2]; cbn; [done| | |].
  - intros [Hk Hd]. destruct (IH Hd) as [Hd' Hl]. split; [by rewrite <- Hl|]. intros k0. by rewrite Hl.
  - intros (Hk & Hk' & Hd). rewrite (is_sym k k') in *. destruct (is_ k' k) eqn:E; [done|]. split_and!; try done.
    intros k0. destruct (is_ k0 k) eqn:E1, (is_ k0 k') eqn:E2; try done.
    rewrite is_sym in E2. by rewrite (is_trans _ _ _ E2 E1) in E.
  - intros Hd. destruct (IH1 Hd) as [Hd2 Hl2], (IH2 Hd2) as [Hd3 Hl3]. split; [done|]. intros k0. by rewrite Hl2.
Qed.

(** Replacing, adding or removing the entry of a key. *)
Lemma perm_update k v (es es' rest : list (K * V)) (old new : option (K * V)) :
  distinct es -> es ≡ₚ option_list old ++ rest -> es' ≡ₚ option_list new ++ rest ->
  match old with Some e => is_ k e.1 = true | None => look k es = None end ->
  match new, v with Some e, Some x => is_ k e.1 = true /\ e.2 = x | None, None => True | _, _ => False end ->
  distinct es' /\ (forall k0, look k0 es' = if is_ k k0 then v else look k0 es) /\
  zlen es' = zlen es + zlen (option_list new) - zlen (option_list old).
Proof.
  intros Hd Hp Hp' Ho Hn.
  assert (zlen es' = zlen es + zlen (option_list new) - zlen (option_list old)) as Hz.
  { unfold zlen. rewrite (Permutation_length Hp), (Permutation_length Hp'), !length_app. lia. }
  destruct (distinct_perm _ _ Hp Hd) as [Hd1 Hl1].
  assert (look k rest = None /\ distinct rest /\ forall k0, look k0 es = if is_ k k0 then look k es else look k0 rest) as (Hr & Hdr & Hlr).
  { destruct old as [[k' v']|]; cbn in *.
    - destruct Hd1. rewrite (look_is _ _ rest Ho). split_and!; try done. intros k0. rewrite !Hl1, Ho, (is_congr _ _ k0 Ho).
      by destruct (is_ k k0).
    - split_and!; try done; [by rewrite <- Hl1|]. intros k0. destruct (is_ k k0) eqn:E; [by rewrite (look_is _ _ es E)|done]. }
  assert (distinct (option_list new ++ rest)) as Hd2.
  { destruct new as [[k' x']|], v as [x|]; cbn in *; try done. destruct Hn as [Hk ->]. by rewrite <- (look_is _ _ rest Hk). }
  symmetry in Hp'. destruct (distinct_perm _ _ Hp' Hd2) as [Hd3 Hl3]. split_and!; [done| |done].
  intros k0. rewrite <- Hl3, Hlr. destruct new as [[k' x']|], v as [x|]; cbn in *; try done.
  - destruct Hn as [Hk ->]. rewrite (is_congr _ _ k0 Hk). by destruct (is_ k k0).
  - destruct (is_ k k0) eqn:E; [by rewrite <- (look_is _ _ rest E)|done].
Qed.

(** ** The cells of a node *)

Lemma ents_at_perm (s : store) cs cs' : cs ≡ₚ cs' -> ents_at s cs ≡ₚ ents_at s cs'.
Proof. intros Hp. unfold ents_at. by rewrite Hp. Qed.

Lemma insert_perm {A} (l : list A) i x y : l !! i = Some x -> <[i := y]> l ≡ₚ y :: delete i l.
Proof.
  intros Hi. rewrite (slots_insert _ _ _ _ Hi), delete_take_drop. symmetry. apply Permutation_middle.
Qed.

Lemma delete_perm {A} (l : list A) i x : l !! i = Some x -> l ≡ₚ x :: delete i l.
Proof.
  intros Hi. rewrite (slots_split _ _ _ Hi) at 1. rewrite delete_take_drop. symmetry. apply Permutation_middle.
Qed.

(** The last cell takes the place of the removed one. *)
Lemma edit_entries_remove (cs : list nat) l c : cs !! l = Some c -> edit_entries cs (Some l) None ≡ₚ delete l cs.
Proof.
  intros Hl. apply lookup_lt_Some in Hl as Hlt. unfold edit_entries. destruct (Nat.eqb_spec l (length cs - 1)) as [->|Hne].
  - rewrite delete_take_drop, drop_ge by lia. by rewrite app_nil_r.
  - destruct (lookup_lt_is_Some_2 cs (length cs - 1)) as [z Hz]; [lia|]. rewrite Hz.
    apply (Permutation_cons_inv (a := z)).
    transitivity (<[l := z]> cs).
    + rewrite Permutation_cons_append. replace (length cs - 1)%nat with (length (<[l := z]> cs) - 1)%nat by (by rewrite length_insert).
      rewrite <- (take_drop (length (<[l := z]> cs) - 1) (<[l := z]> cs)) at 3. f_equiv.
      rewrite (drop_S _ z) by (rewrite length_insert, list_lookup_insert_ne by lia; done).
      rewrite drop_ge by (rewrite length_insert; lia). done.
    + by apply (insert_perm _ _ c).
Qed.

(** ** Leaves *)

Lemma updated_same e s ot shift p k v : (forall t, ot = Some t -> wf s shift p t) -> NoDup (oaddrs ot) -> NoDup (ocells ot) ->
  look k (oents s ot) = v -> updated e s ot shift p k v ot false false s.
Proof.
  intros Hwf Ha Hc Hl. constructor; auto; [|unfold delta; lia|rewrite Hl; by destruct v|apply frame_refl].
  intros k'. destruct (is_ k k') eqn:E; [|done]. by rewrite <- (look_is _ _ _ E).
Qed.

Lemma updated_new e s shift p k x : low shift (hash k) = p ->
  let s1 := with_entries (entries s ++ [(k, x)]) s in
  updated e s None shift p k (Some x) (Some (Leaf (length (nodes s)) e (hash k) (length (entries s)))) true true
    (with_nodes (nodes s1 ++ [ValueNode e (hash k) (length (entries s))]) s1).
Proof.
  intros Hl s1. assert (entries s1 !! length (entries s) = Some (k, x)) as Hc by apply lookup_snoc.
  constructor; cbn [oapp addrs cells].
  - intros t [= <-]. constructor; [apply lookup_snoc|by exists k, x|done].
  - apply NoDup_singleton.
  - intros a Ha. apply list_elem_of_singleton in Ha as ->. auto.
  - apply NoDup_singleton.
  - intros c Hc'. apply list_elem_of_singleton in Hc' as ->. auto.
  - intros k'. unfold oents, ents_at. cbn [oapp cells omap list_omap with_nodes entries]. rewrite Hc. apply look_cons.
  - unfold oents, ents_at. cbn [oapp cells omap list_omap with_nodes entries]. rewrite Hc. done.
  - done.
  - done.
  - apply frame_new_node; [apply frame_new_entry|done|]. intros ? ? ? [= _ _ <-]. auto.
Qed.

Lemma wf_new_entry (s : store) x shift p t : wf s shift p t ->
  wf (with_entries (entries s ++ [x]) s) shift p t /\ ents (with_entries (entries s ++ [x]) s) t = ents s t.
Proof.
  intros Hwf. destruct (frame_wf None True [] [] s (with_entries (entries s ++ [x]) s) _ _ _ (frame_new_entry _ _ _ _ _ _) Hwf) as [Hw He];
    [intros; apply not_elem_of_nil..|]. split; [done|]. by apply He.
Qed.

Lemma merged_updated e s t shift p k x t' s' : wf s shift p t -> NoDup (cells t) -> look k (ents s t) = None ->
  merged e (loose (Some x)) s (with_entries (entries s ++ [(k, x)]) s) t shift p k x (length (entries s)) t' s' ->
  updated e s (Some t) shift p k (Some x) (Some t') true true s'.
Proof.
  intros Hwf Hnd Hlk [Hwf' He Hlen Hna Ha Hc Hl Hf]. destruct (wf_new_entry s (k, x) _ _ _ Hwf) as [_ Hents]. constructor; cbn [oapp].
  - by intros ? [= <-].
  - done.
  - intros a Hin. destruct (Ha a Hin) as [->|]; [left; apply root_addrs|auto].
  - rewrite Hc. apply list.NoDup_cons. split; [|done]. intros Hin. apply (wf_cells_lt _ _ _ _ _ Hwf) in Hin. lia.
  - intros c. rewrite Hc. intros [->|]%elem_of_cons; auto.
  - intros k'. unfold oents. cbn [oapp]. rewrite (ents_at_frame (with_entries (entries s ++ [(k, x)]) s)) by (by rewrite He).
    change (ents_at _ (cells t')) with (ents (with_entries (entries s ++ [(k, x)]) s) t'). rewrite Hl, Hents. done.
  - unfold oents. cbn [oapp]. rewrite (ents_at_frame (with_entries (entries s ++ [(k, x)]) s)) by (by rewrite He).
    unfold zlen. rewrite (Permutation_length (ents_at_perm _ _ _ Hc)). unfold ents in Hents. 
    change (_ :: cells t) with ([length (entries s)] ++ cells t). rewrite ents_at_app, Hents, length_app.
    unfold ents_at at 1. cbn [omap list_omap with_entries entries]. rewrite lookup_snoc. cbn [length]. unfold delta. lia.
  - change (oents s (Some t)) with (ents s t). by rewrite Hlk.
  - done.
  - eapply frame_weaken; [done| |]; intros ? Hin; by apply elem_of_nil in Hin.
Qed.

Lemma wf_leaf_inv (s : store) shift p a o h c : wf s shift p (Leaf a o h c) ->
  nodes s !! a = Some (ValueNode o h c) /\ exists k v, entries s !! c = Some (k, v) /\ hash k = h /\ low shift h = p.
Proof. inversion 1 as [? ? ? ? ? ? Ha (k & v & Hc & Hh) Hp| |]; subst. split; [done|]. by exists k, v. Qed.

(** Another value in a value node, in place or not. *)
Lemma leaf_set e s a o k' v' c shift k x a' o' c' k0 s' : entries s !! c = Some (k', v') -> is_ k k' = true -> is_ k k0 = true ->
  (a' = a \/ (length (nodes s) <= a')%nat) -> (c' = c \/ (length (entries s) <= c')%nat) ->
  nodes s' !! a' = Some (ValueNode o' (hash k') c') -> entries s' !! c' = Some (k0, x) -> frame e (loose (Some x)) [a] [c] s s' ->
  updated e s (Some (Leaf a o (hash k') c)) shift (low shift (hash k)) k (Some x) (Some (Leaf a' o' (hash k') c')) false true s'.
Proof.
  intros Hc Hk Hk0 Ha' Hc' Hn He' Hfr.
  assert (oents s (Some (Leaf a o (hash k') c)) = [(k', v')]) as He by (unfold oents, ents_at; cbn; by rewrite Hc).
  assert (oents s' (Some (Leaf a' o' (hash k') c')) = [(k0, x)]) as Hents by (unfold oents, ents_at; cbn; by rewrite He').
  destruct (perm_update k (Some x) [(k', v')] [(k0, x)] [] (Some (k', v')) (Some (k0, x))) as (_ & Hlook & _); try done.
  constructor; try done; rewrite ?He, ?Hents; cbn [oapp addrs cells]; auto using NoDup_singleton; [..|cbn; by rewrite Hk].
  - apply is_hash in Hk, Hk0. intros ? [= <-]. constructor; [done|exists k0, x; split; [done|congruence]|congruence].
  - intros ? ->%list_elem_of_singleton. destruct Ha' as [->|]; [left; by left|auto].
  - intros ? ->%list_elem_of_singleton. destruct Hc' as [->|]; [left; by left|auto].
Qed.

(** A node of one entry or of its own entries goes. *)
Lemma updated_gone e s t shift p k k' v' : ents s t = [(k', v')] -> is_ k k' = true ->
  updated e s (Some t) shift p k None None true true s.
Proof.
  intros He Hk. constructor; cbn [oapp]; try done.
  - apply NoDup_nil_2.
  - intros a Ha. by apply elem_of_nil in Ha.
  - apply NoDup_nil_2.
  - intros a Ha. by apply elem_of_nil in Ha.
  - intros k0. change (oents s (Some t)) with (ents s t). rewrite He. cbn. rewrite (is_congr _ _ k0 Hk). by destruct (is_ k k0).
  - change (oents s (Some t)) with (ents s t). rewrite He. done.
  - change (oents s (Some t)) with (ents s t). rewrite He. cbn. by rewrite Hk.
  - apply frame_refl.
Qed.

Lemma value_update_ok e s a o h c shift p k v : wf s shift p (Leaf a o h c) -> 0 <= shift <= 35 -> shift mod 5 = 0 ->
  low shift (hash k) = p -> exists ot' ch al s', value_update a o h c e shift k v s = Some (option_map root ot', ch, al, s') /\
    updated e s (Some (Leaf a o h c)) shift p k v ot' ch al s'.
Proof.
  intros Hwf Hs Hm Hl. destruct (wf_leaf_inv _ _ _ _ _ _ _ Hwf) as (Ha & k' & v' & Hc & Hh & Hp). subst h p.
  assert (ents s (Leaf a o (hash k') c) = [(k', v')]) as He by (unfold ents, ents_at; cbn; by rewrite Hc).
  assert (forall v, (if is_ k k' then Some v' else None) = v ->
    updated e s (Some (Leaf a o (hash k') c)) shift (low shift (hash k)) k v (Some (Leaf a o (hash k') c)) false false s) as Hsame.
  { intros v0 Hv. apply updated_same; [by intros ? [= <-]|apply NoDup_singleton..|].
    change (oents s _) with (ents s (Leaf a o (hash k') c)). rewrite He. done. }
  unfold value_update. unfold bind at 1, get_entry. rewrite Hc. destruct (is_ k k') eqn:Ek; cbn [negb]; destruct v as [x|].
  - destruct (same x v') eqn:Es.
    { apply same_eq in Es. subst x. exists (Some (Leaf a o (hash k') c)), false, false, s. split; [done|]. by apply Hsame. }
    destruct (isEditable e o) eqn:Eo.
    + unfold bind, set_entry. eexists (Some (Leaf a o (hash k') c)), false, true, _. split; [done|].
      apply (leaf_set _ _ _ _ k' v' _ _ _ _ _ _ _ k'); auto; cbn [entries]; [apply list_lookup_insert_eq; by eapply lookup_lt_Some|].
      constructor; cbn; auto; [rewrite length_insert; lia|]. intros c' y Hc'.
      destruct (decide (c' = c)) as [->|]; [|left; by rewrite list_lookup_insert_ne]. right. split; [by left|]. by exists a, o, (hash k').
    + exists (Some (Leaf (length (nodes s)) e (hash k') (length (entries s)))), false, true,
        (with_nodes (nodes s ++ [ValueNode e (hash k') (length (entries s))]) (with_entries (entries s ++ [(k, x)]) s)). split; [done|].
      apply (leaf_set _ _ _ _ k' v' _ _ _ _ _ _ _ k); auto; [apply is_refl|apply lookup_snoc|apply lookup_snoc|].
      apply (frame_new_node _ _ _ _ _ (with_entries (entries s ++ [(k, x)]) s)); [apply frame_new_entry|done|]. intros ? ? ? [= _ _ <-]. auto.
  - eexists None, true, true, s. split; [done|]. by apply (updated_gone _ _ _ _ _ _ k' v').
  - unfold bind. rewrite new_entry_eq. destruct (wf_new_entry s (k, x) _ _ _ Hwf) as [Hw1 He1].
    destruct (merge_ok levels e (loose (Some x)) s (with_entries (entries s ++ [(k, x)]) s) (Leaf a o (hash k') c)
      shift (low shift (hash k)) (length (entries s)) k x)
      as (t' & s' & E & Hmg); try done; [unfold levels; lia|apply lookup_snoc|rewrite He1, He; cbn; by rewrite Ek|apply frame_new_entry|].
    cbn [root] in E. rewrite E. exists (Some t'), true, true, s'. split; [done|]. apply merged_updated; [done|apply NoDup_singleton|rewrite He; cbn; by rewrite Ek|done].
  - exists (Some (Leaf a o (hash k') c)), false, false, s. split; [done|]. by apply Hsame.
Qed.

(** ** Nodes with a list of entries *)

(** The store with the entry of a new value, and its cell. *)
Definition put (s : store) (k : K) (v : option V) : store :=
  match v with Some x => with_entries (entries s ++ [(k, x)]) s | None => s end.
Definition put_cell (s : store) (v : option V) : option nat :=
  match v with Some _ => Some (length (entries s)) | None => None end.

Lemma put_nodes s k v : nodes (put s k v) = nodes s.
Proof. by destruct v. Qed.

Lemma put_old s k v c x : entries s !! c = Some x -> entries (put s k v) !! c = Some x.
Proof. destruct v; [|done]. intros. by apply lookup_app_l_Some. Qed.

Lemma put_frame e L A C s k v : frame e L A C s (put s k v).
Proof. destruct v; [apply frame_new_entry|apply frame_refl]. Qed.

Record edited (s : store) (cs : list nat) (k : K) (v : option V) (ch : bool) (cs' : list nat) : Prop := {
  ed_nodup : NoDup cs';
  ed_cells : forall c, c ∈ cs' -> c ∈ cs \/ (c = length (entries s) /\ exists x, v = Some x);
  ed_distinct : distinct (ents_at (put s k v) cs');
  ed_look : forall k', look k' (ents_at (put s k v) cs') = if is_ k k' then v else look k' (ents_at s cs);
  ed_size : zlen (ents_at (put s k v) cs') = zlen (ents_at s cs) + delta ch v;
  ed_length : zlen cs' = zlen cs + delta ch v;
  ed_ch : ch = changes (look k (ents_at s cs)) v
}.

Lemma edited_perm s cs k v rest (old : option (nat * (K * V))) cs' :
  NoDup cs -> (forall c, c ∈ cs -> is_Some (entries s !! c)) -> distinct (ents_at s cs) ->
  cs ≡ₚ option_list (option_map fst old) ++ rest -> cs' ≡ₚ option_list (put_cell s v) ++ rest ->
  match old with Some (c, e) => entries s !! c = Some e /\ is_ k e.1 = true | None => look k (ents_at s cs) = None end ->
  (old = None -> v <> None) ->
  edited s cs k v (match old, v with Some _, Some _ => false | _, _ => true end) cs'.
Proof.
  intros Hnd Hall Hd Hp Hp' Ho Hv.
  assert (forall c, c ∈ rest -> c ∈ cs) as Hrest by (intros c Hc; rewrite Hp; apply elem_of_app; auto).
  assert (ents_at (put s k v) rest = ents_at s rest) as Hr.
  { apply ents_at_frame. intros c Hc. destruct (Hall c (Hrest c Hc)) as [x Hx]. by rewrite Hx, (put_old _ _ _ _ _ Hx). }
  assert (zlen cs' = zlen cs + zlen (option_list (put_cell s v)) - zlen (option_list (option_map fst old))) as Hz.
  { unfold zlen. rewrite (Permutation_length Hp), (Permutation_length Hp'), !length_app. lia. }
  destruct (perm_update k v (ents_at s cs) (ents_at (put s k v) cs') (ents_at s rest) (option_map snd old) (option_map (pair k) v)) as (Hd' & Hl' & Hz').
  { done. }
  { rewrite (ents_at_perm _ _ _ Hp), ents_at_app. f_equiv. destruct old as [[c e]|]; [|done]. unfold ents_at. cbn. by destruct Ho as [-> _]. }
  { rewrite (ents_at_perm _ _ _ Hp'), ents_at_app, Hr. f_equiv. destruct v as [x|]; [|done]. unfold ents_at. cbn. by rewrite lookup_snoc. }
  { destruct old as [[c e]|]; [apply Ho|done]. }
  { destruct v; cbn; [|done]. split; [apply is_refl|done]. }
  constructor; try done.
  - rewrite Hp'. rewrite Hp in Hnd. apply list.NoDup_app in Hnd as (_ & _ & Hnd). destruct v as [x|]; [|done].
    cbn. apply list.NoDup_cons. split; [|done]. intros Hin. destruct (Hall _ (Hrest _ Hin)) as [y Hy]. apply lookup_lt_Some in Hy. lia.
  - intros c. rewrite Hp', elem_of_app. intros [Hc|Hc]; [|auto]. right. destruct v as [x|]; cbn in Hc; [|by apply elem_of_nil in Hc].
    apply list_elem_of_singleton in Hc as ->. eauto.
  - rewrite Hz'. destruct old as [[c e]|], v as [x|]; cbn; try (unfold zlen; cbn; lia). by destruct Hv.
  - rewrite Hz. destruct old as [[c e]|], v as [x|]; cbn; try (unfold zlen; cbn; lia). by destruct Hv.
  - destruct old as [[c [k' v']]|]; [|rewrite Ho; destruct v; [done|by destruct Hv]].
    destruct (distinct_perm _ _ (ents_at_perm _ _ _ Hp) Hd) as [_ ->]. rewrite ents_at_app, look_app. unfold ents_at at 1. cbn.
    destruct Ho as [-> Hk]. cbn in *. rewrite Hk. by destruct v.
Qed.

(** What the nodes do with the entry that [find_entry] finds. *)
Lemma edit_entries_ok s cs k v f : NoDup cs -> (forall c, c ∈ cs -> is_Some (entries s !! c)) -> distinct (ents_at s cs) ->
  find_entry k cs 0 s = Some (f, s) -> (f = None -> v <> None) ->
  edited s cs k v (match f, v with Some _, Some _ => false | _, _ => true end) (edit_entries cs (option_map fst f) (put_cell s v)).
Proof.
  intros Hnd Hall Hd Hf Hv. pose proof (find_entry_ok k s cs 0 Hall) as Hfe. rewrite Hf in Hfe. destruct f as [[l v']|].
  - destruct Hfe as (_ & Hl & j & c & k' & -> & Hj & Hc & Hk). rewrite Nat.add_0_l. cbn [option_map fst].
    apply (edited_perm s cs k v (delete j cs) (Some (c, (k', v')))); try done; [by apply delete_perm|].
    destruct v as [x|]; cbn [put_cell option_list app]; [by eapply insert_perm|by eapply edit_entries_remove].
  - destruct Hfe as (_ & Hl). apply (edited_perm s cs k v cs None); try done; [|auto].
    destruct v as [x|]; [|by destruct Hv]. cbn. symmetry. apply Permutation_cons_append.
Qed.

Lemma edited_cell_ok s cs k v ch cs' : edited s cs k v ch cs' -> Forall (cell_ok s (hash k)) cs -> Forall (cell_ok (put s k v) (hash k)) cs'.
Proof.
  intros Hed Hcs. apply list.Forall_forall. intros c Hc. destruct (ed_cells _ _ _ _ _ _ Hed c Hc) as [Hin|(-> & x & ->)].
  - rewrite list.Forall_forall in Hcs. destruct (Hcs c Hin) as (k' & v' & Hc' & Hh). exists k', v'. split; [by apply put_old|done].
  - exists k, x. split; [apply lookup_snoc|done].
Qed.

(** A node of entries that is edited. *)
Lemma edited_updated e s t shift p k v ch t' s' : edited s (cells t) k v ch (cells t') -> wf s' shift p t' -> addrs t' = [root t'] ->
  (root t' = root t \/ (length (nodes s) <= root t')%nat) -> entries s' = entries (put s k v) ->
  frame e (loose v) [root t] [] s s' -> updated e s (Some t) shift p k v (Some t') ch true s'.
Proof.
  intros [] Hwf Ha Hr He Hfr.
  assert (oents s' (Some t') = ents_at (put s k v) (cells t')) as Hents by (apply ents_at_frame; by rewrite He).
  constructor; try done; cbn [oapp]; rewrite ?Hents.
  - by intros ? [= <-].
  - rewrite Ha. apply NoDup_singleton.
  - intros a. rewrite Ha. intros ->%list_elem_of_singleton. destruct Hr as [->|]; [left; apply root_addrs|auto].
  - intros c Hc. destruct (ed_cells0 c Hc) as [|[-> _]]; auto.
  - done.
  - done.
  - eapply frame_weaken; [done| |].
    + intros a ->%list_elem_of_singleton. apply root_addrs.
    + intros c Hc. by apply elem_of_nil in Hc.
Qed.

Lemma wf_coll_inv (s : store) shift p a o h cs : wf s shift p (Coll a o h cs) ->
  nodes s !! a = Some (HashCollisionNode o h cs) /\ (2 <= length cs)%nat /\ Forall (cell_ok s h) cs /\ distinct (ents_at s cs) /\ low shift h = p.
Proof. by inversion 1. Qed.

(** The entry that stays is the one of a new value node. *)
Lemma coll_to_leaf e s a o cs shift p k ch b : wf s shift p (Coll a o (hash k) cs) -> (exists k' k'' : K, hash k' = hash k'' /\ is_ k' k'' = false) ->
  edited s cs k None ch [b] ->
  updated e s (Some (Coll a o (hash k) cs)) shift p k None (Some (Leaf (length (nodes s)) e (hash k) b)) ch true
    (with_nodes (nodes s ++ [ValueNode e (hash k) b]) s).
Proof.
  intros Hwf Hkk Hed. destruct (wf_coll_inv _ _ _ _ _ _ _ Hwf) as (Ha & Hlen & Hcs & Hd & Hp).
  apply (edited_updated _ _ (Coll a o (hash k) cs) _ _ _ _ _ (Leaf (length (nodes s)) e (hash k) b)); try done; cbn [root]; auto.
  - constructor; [apply lookup_snoc| |done]. pose proof (edited_cell_ok _ _ _ _ _ _ Hed Hcs) as Hok. by apply Forall_inv in Hok.
  - apply frame_new_node; [apply frame_refl|done|]. intros. right. done.
Qed.

Lemma coll_edit e s a o k cs shift p v ch cs' : wf s shift p (Coll a o (hash k) cs) -> edited s cs k v ch cs' -> (2 <= length cs')%nat ->
  exists t' s', edit e a (HashCollisionNode o (hash k) cs) (HashCollisionNode e (hash k) cs') (put s k v) = Some (root t', s') /\
    updated e s (Some (Coll a o (hash k) cs)) shift p k v (Some t') ch true s'.
Proof.
  intros Hwf Hed Hlen. destruct (wf_coll_inv _ _ _ _ _ _ _ Hwf) as (Ha & _ & Hcs & Hd & Hp).
  destruct (edit_ok e (loose v) (put s k v) a (HashCollisionNode o (hash k) cs) (HashCollisionNode e (hash k) cs')) as (b & s' & E & Hb & He & Hfr & Hr);
    [by rewrite put_nodes|done|done|].
  exists (Coll b e (hash k) cs'), s'. split; [done|]. apply edited_updated; try done.
  - constructor; [done|done| | |done].
    + eapply Forall_impl; [|by eapply edited_cell_ok]. unfold cell_ok. by rewrite He.
    + rewrite (ents_at_frame (put s k v)) by (by rewrite He). apply Hed.
  - rewrite put_nodes in Hr. cbn. destruct Hr as [->| ->]; auto.
  - eapply frame_trans; [apply (put_frame _ _ _ _ s k v)|exact Hfr|auto|]. intros c Hc. by apply elem_of_nil in Hc.
Qed.

Lemma coll_collides (s : store) shift p a o h cs : wf s shift p (Coll a o h cs) -> exists k k' : K, hash k = hash k' /\ is_ k k' = false.
Proof.
  intros (_ & Hlen & Hcs & Hd & _)%wf_coll_inv. destruct cs as [|c [|c' cs]]; [cbn in Hlen; lia..|].
  rewrite !list.Forall_cons in Hcs. destruct Hcs as ((k & v & Hc & <-) & (k' & v' & Hc' & Hh) & _). exists k, k'. split; [done|].
  unfold ents_at in Hd. cbn in Hd. rewrite Hc, Hc' in Hd. cbn in Hd. destruct Hd as [Hd _]. by destruct (is_ k k').
Qed.

Lemma collision_update_ok e s a o h cs shift p kh k v : wf s shift p (Coll a o h cs) -> NoDup cs -> 0 <= shift <= 35 -> shift mod 5 = 0 ->
  low shift (hash k) = p -> hash_arg k kh ->
  exists ot' ch al s', collision_update a o h cs e shift kh k v s = Some (option_map root ot', ch, al, s') /\
    updated e s (Some (Coll a o h cs)) shift p k v ot' ch al s'.
Proof.
  intros Hwf Hnd Hs Hm Hl Hk. destruct (wf_coll_inv _ _ _ _ _ _ _ Hwf) as (Ha & Hlen & Hcs & Hd & Hp).
  assert (forall c, c ∈ cs -> is_Some (entries s !! c)) as Hall by (intros; eapply (wf_some _ _ _ _ _ Hwf); done).
  assert (forall v, look k (ents_at s cs) = v ->
    updated e s (Some (Coll a o h cs)) shift p k v (Some (Coll a o h cs)) false false s) as Hsame.
  { intros v0 Hv. apply updated_same; [by intros ? [= <-]|apply NoDup_singleton|done|done]. }
  unfold collision_update. rewrite (hash_arg_default _ _ Hk). destruct (Z.eqb_spec (hash k) h) as [<-|Hh]; cbn [negb].
  2: { assert (look k (ents_at s cs) = None) as Hn.
       { apply look_hash. apply list.Forall_forall. intros y Hy. apply list_elem_of_omap in Hy as (c & Hc & Hy).
         rewrite list.Forall_forall in Hcs. destruct (Hcs c Hc) as (k' & v' & Hc' & <-). rewrite Hc' in Hy. by injection Hy as <-. }
       destruct v as [x|]; [|exists (Some (Coll a o h cs)), false, false, s; by auto].
       unfold bind. rewrite new_entry_eq. destruct (wf_new_entry s (k, x) _ _ _ Hwf) as [Hw1 He1].
       destruct (merge_ok levels e (loose (Some x)) s (with_entries (entries s ++ [(k, x)]) s) (Coll a o h cs)
         shift p (length (entries s)) k x) as (t' & s' & E & Hmg); try done;
         [unfold levels; lia|apply lookup_snoc|by rewrite He1|apply frame_new_entry|].
       cbn [root] in E. rewrite E. exists (Some t'), true, true, s'. split; [done|]. by apply merged_updated. }
  pose proof (find_entry_ok k s cs 0 Hall) as Hfe. unfold bind at 1. destruct (find_entry k cs 0 s) as [[f s']|] eqn:Ef; [|done].
  assert (s' = s) as -> by (by destruct f as [[]|]; destruct Hfe as [-> _]).
  assert (look k (ents_at s cs) = option_map snd f) as Hf by (destruct f as [[]|]; apply Hfe).
  pose proof (edit_entries_ok s cs k v f Hnd Hall Hd Ef) as Hed. destruct v as [x|].
  - destruct (match f with Some (_, v') => same v' x | None => false end) eqn:Es.
    { exists (Some (Coll a o (hash k) cs)), false, false, s. destruct f as [[l v']|]; [|done]. apply same_eq in Es. subst v'. split; [done|]. by apply Hsame. }
    specialize (Hed ltac:(done)). destruct (coll_edit e s a o k cs shift p _ _ _ Hwf Hed) as (t' & s' & E & Hup).
    { pose proof (ed_length _ _ _ _ _ _ Hed). unfold zlen, delta in *. destruct f; lia. }
    exists (Some t'), (match f with Some _ => false | None => true end), true, s'. split; [|by destruct f].
    cbn [put_cell put] in E. destruct f as [[l v']|]; unfold bind; rewrite new_entry_eq, E; done.
  - destruct f as [[l v']|]; [|exists (Some (Coll a o (hash k) cs)), false, false, s; by auto].
    specialize (Hed ltac:(done)). destruct Hfe as (_ & _ & j & c & k' & -> & Hj & _). cbn [option_map fst put_cell] in *. rewrite Nat.add_0_l in *.
    destruct (Nat.eqb_spec (length cs) 2) as [H2'|H2'].
    + destruct cs as [|c0 [|c1 [|]]]; try done.
      assert (exists b, [c0; c1] !! (1 - j)%nat = Some b /\ edit_entries [c0; c1] (Some j) None = [b]) as (b & Hb & Eb).
      { destruct j as [|[|]]; [by exists c1|by exists c0|done]. }
      rewrite Hb. rewrite Eb in Hed. eexists (Some (Leaf _ _ _ _)), true, true, _. split; [|by apply coll_to_leaf; [|eapply coll_collides|]]. done.
    + destruct (coll_edit e s a o k cs shift p _ _ _ Hwf Hed) as (t' & s' & E & Hup).
      { pose proof (ed_length _ _ _ _ _ _ Hed). unfold zlen, delta in *. lia. }
      exists (Some t'), true, true, s'. split; [|done]. unfold bind. cbn [put] in E. by rewrite E.
Qed.

(** ** Inner nodes *)

Lemma frame_cell_same e L A C (s s' : store) c : frame e L A C s s' -> is_Some (entries s !! c) -> c ∉ C -> entries s' !! c = entries s !! c.
Proof. intros F [x Hx] Hc. rewrite Hx. by destruct (fr_cells _ _ _ _ _ _ F c x Hx) as [|[? _]]. Qed.

Lemma frame_node_same e L A C (s s' : store) a : frame e L A C s s' -> is_Some (nodes s !! a) -> a ∉ A -> nodes s' !! a = nodes s !! a.
Proof. intros F [x Hx] Hc. rewrite Hx. by destruct (fr_nodes _ _ _ _ _ _ F a x Hx) as [|[? _]]. Qed.

Lemma wf_inner_inv (s : store) shift p a o i slots : wf s shift p (Inner a o i slots) ->
  0 <= shift <= 30 /\ 0 <= p < 2 ^ shift /\ inner_ok s a o i slots /\
  forall j t, slots !! j = Some (Some t) -> wf s (shift + 5) (p + Z.of_nat j * 2 ^ shift) t.
Proof. by inversion 1. Qed.

Lemma flat_disjoint {A B} (f : A -> list B) l i j x y z : NoDup (flat_map f l) -> l !! i = Some x -> l !! j = Some y -> i <> j -> z ∈ f x -> z ∉ f y.
Proof.
  intros Hnd Hi Hj Hij Hz Hz'. rewrite (flat_split _ _ _ _ Hi) in Hnd. apply list.NoDup_app in Hnd as (_ & Hpre & Hnd).
  apply list.NoDup_app in Hnd as (_ & Hpost & _). destruct (Nat.lt_ge_cases j i).
  - apply (Hpre z); [|apply elem_of_app; auto]. apply elem_flat. exists j, y. split; [by rewrite lookup_take_lt|done].
  - apply (Hpost z); [done|]. apply elem_flat. exists (j - S i)%nat, y. split; [|done]. rewrite lookup_drop. rewrite <- Hj. f_equal. lia.
Qed.

(** New elements in the place of old ones. *)
Lemma nodup_plug (n : nat) pre old new post : NoDup (pre ++ old ++ post) -> NoDup new -> (forall x, x ∈ new -> x ∈ old \/ (n <= x)%nat) ->
  (forall x, x ∈ pre ++ old ++ post -> (x < n)%nat) -> NoDup (pre ++ new ++ post).
Proof.
  rewrite !list.NoDup_app. intros (Hpre & Hd & Hold & Hd' & Hpost) Hnew Hsub Hlt.
  assert (forall x, x ∈ new -> (x ∉ pre) /\ (x ∉ post)) as Hx.
  { intros x Hx. destruct (Hsub x Hx) as [Ho|Hge].
    - split; [|auto]. intros Hin. apply (Hd x Hin). apply elem_of_app. auto.
    - split; intros Hin; (enough (x < n)%nat by lia); apply Hlt; rewrite !elem_of_app; auto. }
  split_and!; try done.
  - intros x Hin [Hin'|Hin']%elem_of_app; [by destruct (Hx x Hin')|]. apply (Hd x Hin). apply elem_of_app. auto.
  - intros x Hin. by destruct (Hx x Hin).
Qed.

Section Plug.
Context (e : option nat) (s : store) (a : nat) (o : option nat) (i : inner) (slots : list (option tree)) (shift p : Z).
Context (k : K) (v : option V) (j : nat) (c c' : option tree) (ch al : bool) (s1 : store).
Hypothesis Hwf : wf s shift p (Inner a o i slots).
Hypothesis Hna : NoDup (addrs (Inner a o i slots)).
Hypothesis Hnc : NoDup (cells (Inner a o i slots)).
Hypothesis Hl : low shift (hash k) = p.
Hypothesis Hix : index_at shift (hash k) = Z.of_nat j.
Hypothesis Hj : slots !! j = Some c.
Hypothesis Hup : updated e s c (shift + 5) (p + Z.of_nat j * 2 ^ shift) k v c' ch al s1.

Lemma slot_addrs x : x ∈ oaddrs c -> x ∈ flat_map oaddrs slots.
Proof. intros. apply elem_flat. eauto. Qed.
Lemma slot_cells x : x ∈ ocells c -> x ∈ flat_map ocells slots.
Proof. intros. apply elem_flat. eauto. Qed.

Lemma plug_frame : frame e (loose v) (addrs (Inner a o i slots)) (cells (Inner a o i slots)) s s1.
Proof.
  eapply frame_weaken; [apply Hup| |].
  - intros x Hx. rewrite addrs_inner. right. by apply slot_addrs.
  - intros x Hx. rewrite cells_inner. by apply slot_cells.
Qed.

Lemma plug_node : nodes s1 !! a = Some (phys i o slots).
Proof.
  destruct (wf_inner_inv _ _ _ _ _ _ _ Hwf) as (Hs & Hp & (Hlen & Ha & Hag) & Hch). rewrite <- Ha.
  apply (frame_node_same _ _ _ _ _ _ _ (up_frame _ _ _ _ _ _ _ _ _ _ _ Hup)); [by rewrite Ha|].
  intros Hin. rewrite addrs_inner, list.NoDup_cons in Hna. by apply Hna, slot_addrs.
Qed.

Lemma plug_children j' t : <[j := c']> slots !! j' = Some (Some t) -> wf s1 (shift + 5) (p + Z.of_nat j' * 2 ^ shift) t.
Proof.
  rewrite list_lookup_insert. case_decide as E; [intros [= ->]; destruct E as [<- _]; by apply Hup|].
  intros Hj'. assert (j' <> j). { intros ->. apply E. split; [done|]. by eapply lookup_lt_Some. }
  destruct (wf_inner_inv _ _ _ _ _ _ _ Hwf) as (Hs & Hp & (Hlen & Ha & Hag) & Hch).
  rewrite addrs_inner, list.NoDup_cons in Hna. destruct Hna as [_ Hna'].
  eapply frame_wf; [apply Hup|by apply Hch| |].
  - intros x Hx. by eapply (flat_disjoint oaddrs slots j' j).
  - intros x Hx. by eapply (flat_disjoint ocells slots j' j).
Qed.

Lemma plug_nodup_addrs : NoDup (flat_map oaddrs (<[j := c']> slots)).
Proof.
  rewrite addrs_inner, list.NoDup_cons, (flat_split _ _ _ _ Hj) in Hna. rewrite (flat_insert _ _ _ _ _ Hj).
  eapply (nodup_plug (length (nodes s))); [apply Hna|apply Hup|apply Hup|]. intros x Hx.
  apply (wf_nodes _ _ _ _ Hwf). rewrite addrs_inner. right. by rewrite (flat_split _ _ _ _ Hj).
Qed.

Lemma plug_nodup_cells : NoDup (flat_map ocells (<[j := c']> slots)).
Proof.
  rewrite cells_inner, (flat_split _ _ _ _ Hj) in Hnc. rewrite (flat_insert _ _ _ _ _ Hj).
  eapply (nodup_plug (length (entries s))); [apply Hnc|apply Hup|apply Hup|]. intros x Hx.
  apply (wf_cells_lt _ _ _ _ _ Hwf). rewrite cells_inner. by rewrite (flat_split _ _ _ _ Hj).
Qed.

Lemma plug_addrs x : x ∈ flat_map oaddrs (<[j := c']> slots) -> x ∈ flat_map oaddrs slots \/ (length (nodes s) <= x)%nat.
Proof.
  rewrite (flat_insert _ _ _ _ _ Hj), (flat_split _ _ _ _ Hj), !elem_of_app. intros [|[Hx|]]; auto.
  apply (up_addrs _ _ _ _ _ _ _ _ _ _ _ Hup) in Hx as []; auto.
Qed.

Lemma plug_cells x : x ∈ flat_map ocells (<[j := c']> slots) -> x ∈ flat_map ocells slots \/ (length (entries s) <= x)%nat.
Proof.
  rewrite (flat_insert _ _ _ _ _ Hj), (flat_split _ _ _ _ Hj), !elem_of_app. intros [|[Hx|]]; auto.
  apply (up_cells _ _ _ _ _ _ _ _ _ _ _ Hup) in Hx as []; auto.
Qed.

(** The address of the node is none of the children. *)
Lemma plug_root : a ∉ flat_map oaddrs (<[j := c']> slots).
Proof.
  intros Hin. apply plug_addrs in Hin as [Hin|Hge].
  - rewrite addrs_inner, list.NoDup_cons in Hna. by apply Hna.
  - pose proof (wf_nodes _ _ _ _ Hwf a (root_addrs (Inner a o i slots))). lia.
Qed.

(** The entries of the other children. *)
Lemma plug_others : ents_at s1 (flat_map ocells (take j slots)) = ents_at s (flat_map ocells (take j slots)) /\
  ents_at s1 (flat_map ocells (drop (S j) slots)) = ents_at s (flat_map ocells (drop (S j) slots)).
Proof.
  rewrite cells_inner, (flat_split _ _ _ _ Hj) in Hnc. apply list.NoDup_app in Hnc as (_ & Hpre & Hnd).
  apply list.NoDup_app in Hnd as (_ & Hpost & _).
  split; apply ents_at_frame; intros x Hx; apply (frame_cell_same _ _ _ _ _ _ _ (up_frame _ _ _ _ _ _ _ _ _ _ _ Hup)).
  1,3: apply (wf_some _ _ _ _ _ Hwf); rewrite cells_inner, (flat_split _ _ _ _ Hj), !elem_of_app; auto.
  - intros Hin. apply (Hpre x Hx), elem_of_app. auto.
  - intros Hin. by apply (Hpost x Hin).
Qed.

Lemma plug_look k' : look k' (ents_at s1 (flat_map ocells (<[j := c']> slots))) = if is_ k k' then v else look k' (ents s (Inner a o i slots)).
Proof.
  destruct plug_others as [Hb Ha]. destruct (look_inner _ _ _ _ _ _ _ _ _ _ Hwf Hl Hix Hj) as [Lb La].
  unfold ents. rewrite cells_inner, (flat_insert _ _ _ _ _ Hj), (flat_split _ _ _ _ Hj), !ents_at_app, !look_app, Hb, Ha.
  pose proof (up_look _ _ _ _ _ _ _ _ _ _ _ Hup k') as Hk. unfold oents in Hk. rewrite Hk.
  destruct (is_ k k') eqn:E; [|done]. rewrite <- !(look_is _ _ _ E), Lb, La. by destruct v.
Qed.

Lemma plug_size : zlen (ents_at s1 (flat_map ocells (<[j := c']> slots))) = zlen (ents s (Inner a o i slots)) + delta ch v.
Proof.
  destruct plug_others as [Hb Ha]. unfold ents. rewrite cells_inner, (flat_insert _ _ _ _ _ Hj), (flat_split _ _ _ _ Hj), !ents_at_app, !zlen_app, Hb, Ha.
  pose proof (up_size _ _ _ _ _ _ _ _ _ _ _ Hup) as Hk. unfold oents in Hk. lia.
Qed.

Lemma plug_ch : ch = changes (look k (ents s (Inner a o i slots))) v.
Proof. rewrite (look_inner_eq _ _ _ _ _ _ _ _ _ _ Hwf Hl Hix Hj). apply Hup. Qed.

(** The node with the new children. *)
Lemma plug_finish b o' i' s2 : nodes s2 !! b = Some (phys i' o' (<[j := c']> slots)) -> agrees i' (<[j := c']> slots) ->
  entries s2 = entries s1 -> frame e (loose v) [a] [] s1 s2 -> (b = a \/ b = length (nodes s1)) ->
  updated e s (Some (Inner a o i slots)) shift p k v (Some (Inner b o' i' (<[j := c']> slots))) ch true s2.
Proof.
  intros Hb Hag He Hfr Hba. pose proof (fr_nodes_len _ _ _ _ _ _ (up_frame _ _ _ _ _ _ _ _ _ _ _ Hup)) as Hlen1.
  assert (oents s2 (Some (Inner b o' i' (<[j := c']> slots))) = ents_at s1 (flat_map ocells (<[j := c']> slots))) as Hents
    by (apply ents_at_frame; by rewrite He).
  constructor; cbn [oapp]; rewrite ?Hents; try done.
  - intros t [= <-]. destruct (wf_inner_inv _ _ _ _ _ _ _ Hwf) as (Hs & Hp & (Hlen & Ha & _) & Hch). constructor; [done|done| |].
    + split_and!; [by rewrite length_insert|done|done].
    + intros j' t Hj'. eapply frame_wf; [exact Hfr|by apply plug_children| |].
      * intros x Hx ->%list_elem_of_singleton. apply plug_root, elem_flat. by exists j', (Some t).
      * intros. apply not_elem_of_nil.
  - rewrite addrs_inner, list.NoDup_cons. split; [|apply plug_nodup_addrs]. destruct Hba as [->| ->]; [apply plug_root|].
    intros Hin. apply elem_flat in Hin as (j' & [t|] & Hj' & Hin); [|by apply elem_of_nil in Hin].
    apply (wf_nodes _ _ _ _ (plug_children _ _ Hj')) in Hin. lia.
  - intros x. rewrite !addrs_inner, !elem_of_cons. intros [->|Hx]; [|apply plug_addrs in Hx as []; auto]. destruct Hba as [->| ->]; auto.
  - apply plug_nodup_cells.
  - apply plug_cells.
  - apply plug_look.
  - apply plug_size.
  - apply plug_ch.
  - eapply frame_trans; [apply plug_frame|exact Hfr| |]; intros x Hx.
    + apply list_elem_of_singleton in Hx as ->. left. by left.
    + by apply elem_of_nil in Hx.
Qed.

(** A single leaf takes the place of the node. *)
Lemma plug_collapse t : children (<[j := c']> slots) = [t] -> leafy t ->
  updated e s (Some (Inner a o i slots)) shift p k v (Some t) ch true s1.
Proof.
  intros Ht Hlf. assert (exists j', <[j := c']> slots !! j' = Some (Some t)) as [j' Hj'].
  { apply list_elem_of_lookup. assert (t ∈ children (<[j := c']> slots)) as Hin by (rewrite Ht; by left).
    apply list_elem_of_omap in Hin as (x & Hx & ->). done. }
  pose proof (plug_children _ _ Hj') as Hwt. destruct (wf_inner_inv _ _ _ _ _ _ _ Hwf) as (Hs & Hp & (Hlen & Ha & _) & Hch).
  pose proof plug_nodup_addrs as Pa. pose proof plug_nodup_cells as Pc. pose proof plug_addrs as Sa. pose proof plug_cells as Sc.
  pose proof plug_look as Lk. pose proof plug_size as Sz.
  rewrite (flat_children addrs) in Pa, Sa. rewrite (flat_children cells) in Pc, Sc, Lk, Sz. rewrite Ht in *. cbn [flat_map] in *. rewrite app_nil_r in *.
  constructor; try done.
  - intros ? [= <-]. apply (wf_leafy _ _ _ _ _ _ Hwt Hlf). destruct (wf_leaf_hash _ _ _ _ Hwt Hlf) as [Hlow _]. by eapply low_up.
  - intros x Hx. cbn [oapp]. rewrite addrs_inner, elem_of_cons. destruct (Sa x Hx); auto.
  - apply plug_ch.
  - apply plug_frame.
Qed.

End Plug.

(** ** The children of the nodes *)

Lemma agrees_replace i slots j (t t' : tree) : agrees i slots -> slots !! j = Some (Some t) -> agrees i (<[j := Some t']> slots).
Proof.
  intros Hag Hj. destruct i as [bm|n]; cbn in *.
  - destruct Hag as [Hi Hb]. split; [done|]. intros j' x. rewrite list_lookup_insert. case_decide as E; [|by apply Hb].
    intros [= <-]. destruct E as [-> _]. by rewrite (Hb _ _ Hj).
  - rewrite Hag, (children_split _ _ _ Hj), (children_insert _ _ _ _ Hj). by rewrite !zlen_app.
Qed.

Lemma phys_replace i o slots j (t t' : tree) : slots !! j = Some (Some t) -> root t' = root t ->
  phys i o (<[j := Some t']> slots) = phys i o slots.
Proof.
  intros Hj Hr. destruct i as [bm|n]; cbn; f_equal.
  - rewrite (children_split _ _ _ Hj), (children_insert _ _ _ _ Hj), !fmap_app. cbn. by rewrite Hr.
  - rewrite list_fmap_insert. apply list_insert_id. rewrite list_lookup_fmap, Hj. cbn. by rewrite Hr.
Qed.

(** Adding and removing a position of the bitmap. *)
Lemma agrees_or bm slots j c (t : tree) : agrees (Bitmap bm) slots -> length slots = 32%nat -> slots !! j = Some c ->
  agrees (Bitmap (js_or bm (js_shl 1 (Z.of_nat j)))) (<[j := Some t]> slots).
Proof.
  intros [Hi Hb] Hlen Hj. apply lookup_lt_Some in Hj as Hlt. destruct (bitmap_or bm (Z.of_nat j) Hi ltac:(lia)) as [Ho Hob].
  split; [done|]. intros j' x Hx. apply lookup_lt_Some in Hx as Hlt'. rewrite length_insert in Hlt'. rewrite Hob by lia.
  rewrite list_lookup_insert in Hx. case_decide as E.
  - injection Hx as <-. destruct E as [-> _]. by rewrite Z.eqb_refl, orb_true_r.
  - rewrite (Hb _ _ Hx). rewrite (proj2 (Z.eqb_neq _ _)) by lia. by rewrite orb_false_r.
Qed.

Lemma agrees_xor bm slots j (t : tree) : agrees (Bitmap bm) slots -> length slots = 32%nat -> slots !! j = Some (Some t) ->
  agrees (Bitmap (js_xor bm (js_shl 1 (Z.of_nat j)))) (<[j := None]> slots).
Proof.
  intros [Hi Hb] Hlen Hj. apply lookup_lt_Some in Hj as Hlt. destruct (bitmap_xor bm (Z.of_nat j) Hi ltac:(lia)) as [Ho Hob].
  split; [done|]. intros j' x Hx. apply lookup_lt_Some in Hx as Hlt'. rewrite length_insert in Hlt'. rewrite Hob by lia.
  rewrite list_lookup_insert in Hx. case_decide as E.
  - injection Hx as <-. destruct E as [<- _]. by rewrite Z.eqb_refl, (Hb _ _ Hj).
  - rewrite (Hb _ _ Hx). rewrite (proj2 (Z.eqb_neq _ _)) by lia. by rewrite xorb_false_r.
Qed.

(** The array of a BitmapIndexedNode. *)
Definition roots (slots : list (option tree)) : list (option nat) := (fun t => Some (root t)) <$> children slots.

Lemma roots_split slots j c : slots !! j = Some c ->
  roots slots = roots (take j slots) ++ oapp (fun t => [Some (root t)]) c ++ roots (drop (S j) slots).
Proof. intros Hj. unfold roots. rewrite (children_split _ _ _ Hj), !fmap_app. by destruct c. Qed.

Lemma roots_insert slots j c d : slots !! j = Some c ->
  roots (<[j := d]> slots) = roots (take j slots) ++ oapp (fun t => [Some (root t)]) d ++ roots (drop (S j) slots).
Proof. intros Hj. unfold roots. rewrite (children_insert _ _ _ _ Hj), !fmap_app. by destruct d. Qed.

Lemma length_roots slots : length (roots slots) = length (children slots).
Proof. apply length_fmap. Qed.

Section Roots.
Context (slots : list (option tree)) (j : nat).
Let f := length (children (take j slots)).

Lemma roots_at t : slots !! j = Some (Some t) -> roots slots !! f = Some (Some (root t)).
Proof. intros Hj. rewrite (roots_split _ _ _ Hj). apply list_lookup_middle. by rewrite length_roots. Qed.

Lemma roots_spliceIn t : slots !! j = Some None -> spliceIn (roots slots) f (Some (root t)) = roots (<[j := Some t]> slots).
Proof.
  intros Hj. rewrite (roots_insert _ _ _ _ Hj), (roots_split _ _ _ Hj). unfold spliceIn, f. rewrite <- length_roots.
  cbn [oapp app]. by rewrite take_app_length, drop_app_length.
Qed.

Lemma roots_spliceOut t : slots !! j = Some (Some t) -> spliceOut (roots slots) f = roots (<[j := None]> slots).
Proof.
  intros Hj. rewrite (roots_insert _ _ _ _ Hj), (roots_split _ _ _ Hj). unfold spliceOut, f. rewrite <- length_roots.
  cbn [oapp app]. rewrite take_app_length. f_equal. rewrite drop_app_ge, Nat.sub_succ_l, Nat.sub_diag by lia. done.
Qed.

Lemma roots_setIn t t' : slots !! j = Some (Some t) -> setIn (roots slots) f (Some (root t')) = roots (<[j := Some t']> slots).
Proof.
  intros Hj. rewrite (roots_insert _ _ _ _ Hj), (roots_split _ _ _ Hj). unfold setIn, f. rewrite <- length_roots.
  rewrite insert_app_r_alt, Nat.sub_diag by lia. done.
Qed.
End Roots.

(** [expandNodes]: the array of the slots. *)
Lemma expand_loop_ok l : forall pre n, int32 n -> (length l <= 32)%nat ->
  (forall m, (m < 32)%nat -> Z.testbit n (Z.of_nat m) = match l !! m with Some (Some _) => true | _ => false end) ->
  forall ts, ts = pre ++ roots l ->
  let '(a, i) := expand_loop (length l) ts n (zlen pre) in
  (length a <= length l)%nat /\ a ++ replicate (length l - length a) None = option_map root <$> l /\ i = zlen ts.
Proof.
  induction l as [|c l IH]; intros pre n Hn Hlen Hb ts ->; cbn [length expand_loop].
  { cbn. rewrite app_nil_r. done. }
  assert (forall m, (m < 32)%nat -> Z.testbit (js_ushr n 1) (Z.of_nat m) = match l !! m with Some (Some _) => true | _ => false end) as Hb'.
  { intros m Hm. unfold js_ushr, to_uint32, pow32. change (1 mod 32) with 1. rewrite Z.shiftr_spec by lia. change 4294967296 with (2 ^ 32).
    destruct (Nat.eq_dec m 31%nat) as [->|]; [|rewrite Z.mod_pow2_bits_low by lia; replace (Z.of_nat m + 1) with (Z.of_nat (S m)) by lia; rewrite Hb by lia; done].
    rewrite Z.mod_pow2_bits_high by lia. cbn [length] in Hlen. by rewrite (lookup_ge_None_2 l) by lia. }
  assert (int32 (js_ushr n 1)) as Hn'.
  { unfold js_ushr, to_uint32, int32, pow31, pow32. change (1 mod 32) with 1. rewrite Z.shiftr_div_pow2 by lia. change (2 ^ 1) with 2. dlia. }
  assert ((js_and 1 n =? 0) = match c with Some _ => false | None => true end) as Hc.
  { change 1 with (2 ^ 1 - 1) at 1. rewrite js_and_ones_l by lia. specialize (Hb 0%nat ltac:(lia)). cbn in Hb.
    rewrite Z.bit0_odd in Hb. change (2 ^ 1) with 2. pose proof (Zmod_odd n) as Ho. rewrite Ho, Hb. by destruct c. }
  destruct (Z.eqb_spec n 0) as [->|Hne].
  { assert (forall l', (forall m c', l' !! m = Some c' -> c' = None) -> option_map root <$> l' = replicate (length l') None /\ roots l' = []) as Hall.
    { clear. induction l' as [|c' l' IH]; intros Hl; [done|]. rewrite (Hl 0%nat c' eq_refl). destruct IH as [E1 E2]; [intros m; apply (Hl (S m))|].
      by rewrite fmap_cons, E1. }
    destruct (Hall (c :: l)) as [-> ->]; [|rewrite app_nil_r; cbn; auto with lia].
    intros m c' Hm. apply lookup_lt_Some in Hm as Hlt. specialize (Hb m ltac:(lia)). rewrite Z.bits_0, Hm in Hb. by destruct c'. }
  rewrite Hc. cbn [length] in Hlen. destruct c as [t|].
  - specialize (IH (pre ++ [Some (root t)]) _ Hn' ltac:(lia) Hb' (pre ++ roots (Some t :: l))).
    rewrite zlen_app in IH. change (zlen [Some (root t)]) with 1 in IH.
    destruct (expand_loop (length l) _ _ _) as [a i]. destruct IH as (Hla & Hla' & ->); [by rewrite <- app_assoc|].
    rewrite zget_app_r, Z.sub_diag by lia. cbn. rewrite <- Hla'. split_and!; [lia|done|done].
  - specialize (IH pre _ Hn' ltac:(lia) Hb' (pre ++ roots (None :: l)) eq_refl).
    destruct (expand_loop (length l) _ _ _) as [a i]. destruct IH as (Hla & Hla' & ->). cbn. rewrite <- Hla'. split_and!; [lia|done|done].
Qed.

Lemma expandNodes_ok e bm slots j t : agrees (Bitmap bm) slots -> length slots = 32%nat -> slots !! j = Some None ->
  exists n, expandNodes e (roots slots) bm (Z.of_nat j) (root t) = phys (Counted n) e (<[j := Some t]> slots) /\ agrees (Counted n) (<[j := Some t]> slots).
Proof.
  intros [Hi Hb] Hlen Hj. exists (zlen (children (<[j := Some t]> slots))). split; [|done]. unfold expandNodes.
  pose proof (expand_loop_ok slots [] bm Hi ltac:(lia)) as Hex. rewrite Hlen in Hex. change (zlen []) with 0 in Hex.
  specialize (Hex ltac:(intros m Hm; destruct (lookup_lt_is_Some_2 slots m ltac:(lia)) as [x Hx]; rewrite Hx; by apply Hb) _ eq_refl).
  cbn [app] in Hex. destruct (expand_loop 32 _ _ _) as [l i]. destruct Hex as (_ & -> & ->).
  cbn [phys]. f_equal.
  - rewrite (children_insert _ _ _ _ Hj). unfold roots. rewrite zlen_fmap, (children_split _ _ _ Hj), !zlen_app. cbn. unfold zlen. cbn. lia.
  - rewrite list_fmap_insert, Nat2Z.id. done.
Qed.


Lemma shl_step u : 0 <= u < 31 -> js_shl (js_shl 1 u) 1 = js_shl 1 (u + 1).
Proof.
  intros Hu. destruct (Z.eq_dec u 30) as [->|]; [done|]. rewrite !shl_one by lia.
  rewrite Z.pow_add_r by lia. apply js_shl_mul; [|lia|].
  - unfold pow31. assert (2 ^ u <= 2 ^ 29) by (apply Z.pow_le_mono_r; lia). pose proof (Z.pow_nonneg 2 u). lia.
  - unfold pow31. assert (2 ^ u <= 2 ^ 29) by (apply Z.pow_le_mono_r; lia). pose proof (Z.pow_nonneg 2 u). lia.
Qed.

Definition keeps (r u : Z) (c : option tree) : bool := match c with Some _ => negb (u =? r) | None => false end.

(** The slots from the position [u] on, without that at [r]. *)
Fixpoint keep (r u : Z) (l : list (option tree)) : list (option tree) :=
  match l with [] => [] | c :: l => (if u =? r then None else c) :: keep r (u + 1) l end.

Lemma pack_loop_ok r l : forall u o, 0 <= u -> u + zlen l = 32 -> int32 o -> (forall m, u <= m < 32 -> Z.testbit o m = false) ->
  exists o', pack_loop (option_map root <$> l) u (js_shl 1 u) r o = (o', roots (keep r u l)) /\ int32 o' /\
    forall m, 0 <= m < 32 -> Z.testbit o' m = if m <? u then Z.testbit o m else match zget l (m - u) with Some c => keeps r m c | None => false end.
Proof.
  induction l as [|c l IH]; intros u o Hu Hlen Ho Hb.
  { exists o. split_and!; [done|done|]. intros m Hm. change (zlen []) with 0 in Hlen. by rewrite (proj2 (Z.ltb_lt _ _)) by lia. }
  rewrite zlen_cons in Hlen. pose proof (zlen_nonneg l) as Hll. rewrite fmap_cons. cbn [pack_loop].
  assert (match option_map root c with Some _ => negb (u =? r) | None => false end = keeps r u c) as -> by (by destruct c).
  assert (forall o1, int32 o1 -> (forall m, u + 1 <= m < 32 -> Z.testbit o1 m = false) -> Z.testbit o1 u = keeps r u c ->
     (forall m, 0 <= m < u -> Z.testbit o1 m = Z.testbit o m) ->
     exists o', pack_loop (option_map root <$> l) (u + 1) (js_shl (js_shl 1 u) 1) r o1 = (o', roots (keep r (u + 1) l)) /\ int32 o' /\
       forall m, 0 <= m < 32 -> Z.testbit o' m = if m <? u then Z.testbit o m else match zget (c :: l) (m - u) with Some c => keeps r m c | None => false end) as Hrec.
  { intros o1 Ho1 Hb1 Hu1 Hlow. destruct (IH (u + 1) o1) as (o' & E & Ho' & Hb'); [lia|lia|done|done|].
    exists o'. split_and!; [|done|].
    - destruct (Z.eq_dec u 31) as [->|]; [|rewrite shl_step by lia; done]. destruct l; [|rewrite zlen_cons in Hlen; pose proof (zlen_nonneg l); lia]. done.
    - intros m Hm. rewrite Hb' by done. destruct (Z.ltb_spec m (u + 1)), (Z.ltb_spec m u); try lia; [apply Hlow; lia| |].
      + replace m with u by lia. rewrite Z.sub_diag. done.
      + change (c :: l) with ([c] ++ l). rewrite zget_app_r by (change (zlen [c]) with 1; lia). change (zlen [c]) with 1.
        by replace (m - u - 1) with (m - (u + 1)) by lia. }
  destruct (keeps r u c) eqn:Ek.
  - destruct c as [t|]; [|done]. cbn [keeps] in Ek.
    destruct (bitmap_or o u Ho ltac:(lia)) as [Hor Horb].
    destruct (Hrec (js_or o (js_shl 1 u))) as (o' & E & Hr); [done| | | |].
    + intros m Hm. rewrite Horb, Hb by lia. rewrite (proj2 (Z.eqb_neq _ _)) by lia. done.
    + rewrite Horb, Z.eqb_refl by lia. by rewrite orb_true_r.
    + intros m Hm. rewrite Horb by lia. rewrite (proj2 (Z.eqb_neq _ _)) by lia. by rewrite orb_false_r.
    + rewrite E. exists o'. split; [|done]. cbn [keep]. by rewrite (proj1 (negb_true_iff _) Ek).
  - destruct (Hrec o) as (o' & E & Hr); [done|intros; apply Hb; lia|apply Hb; lia|done|].
    rewrite E. exists o'. split; [|done]. cbn [keep]. destruct (u =? r) eqn:Eu; [done|]. destruct c as [t|]; [|done]. cbn in Ek. by rewrite Eu in Ek.
Qed.

Lemma keep_insert r l : forall u, u <= r -> keep r u l = <[Z.to_nat (r - u) := None]> l.
Proof.
  induction l as [|c l IH]; intros u Hu; [done|]. cbn [keep]. destruct (Z.eqb_spec u r) as [->|].
  - rewrite Z.sub_diag. change (<[Z.to_nat 0:=None]> (c :: l)) with (None :: l). f_equal. clear IH.
    assert (forall u, r < u -> keep r u l = l) as Hk; [|apply Hk; lia].
    induction l as [|c' l IH]; intros u Hlt; [done|]. cbn. rewrite (proj2 (Z.eqb_neq _ _)) by lia. by rewrite IH by lia.
  - rewrite IH by lia. replace (Z.to_nat (r - u)) with (S (Z.to_nat (r - (u + 1)))) by lia. done.
Qed.

Lemma packNodes_ok e n slots j t : agrees (Counted n) slots -> length slots = 32%nat -> slots !! j = Some (Some t) ->
  exists bm, packNodes e (option_map root <$> slots) (n - 1) (Z.of_nat j) = phys (Bitmap bm) e (<[j := None]> slots) /\
    agrees (Bitmap bm) (<[j := None]> slots).
Proof.
  intros Hn Hlen Hj. unfold packNodes. destruct (pack_loop_ok (Z.of_nat j) slots 0 0) as (bm & E & Hi & Hb);
    [lia|unfold zlen; lia|unfold int32, pow31; lia|intros; apply Z.bits_0|]. change (js_shl 1 0) with 1 in E. rewrite E.
  rewrite keep_insert, Z.sub_0_r, Nat2Z.id in * by lia. exists bm. split.
  - unfold phys. f_equal. cbn in Hn. subst n. rewrite length_roots, (children_insert _ _ _ _ Hj), (children_split _ _ _ Hj), !zlen_app, !length_app.
    unfold zlen. cbn [oapp length]. replace (Z.to_nat _ - _)%nat with 0%nat by lia.
    unfold roots. by rewrite app_nil_r, (children_insert _ _ _ _ Hj).
  - split; [done|]. intros m x Hx. apply lookup_lt_Some in Hx as Hlt. rewrite length_insert in Hlt. rewrite Hb by lia.
    rewrite (proj2 (Z.ltb_ge _ 0)) by lia. rewrite Z.sub_0_r, zget_nat. rewrite list_lookup_insert in Hx. case_decide as E'.
    + injection Hx as <-. destruct E' as [-> _]. rewrite Hj. cbn. by rewrite Z.eqb_refl.
    + rewrite Hx. destruct x; [|done]. cbn. rewrite (proj2 (Z.eqb_neq _ _)) by lia. done.
Qed.

End Update.
End ImmutableUpdate.
