(* ===== verification/ImmutableNode.v ===== *)
(** * Updates of the inner nodes of the tries

    That [update] on any node of a trie implements the update of a finite map. *)

From S2P Require Import Prelude.
From S2P Require Import ImmutableMap.
From S2P Require Import ImmutableBits.
From S2P Require Import ImmutableTrie.
From S2P Require Import ImmutableUpdate.
From stdpp Require Import base numbers list option.
Open Scope Z_scope.

Module ImmutableNode.
Import ImmutableMap ImmutableBits ImmutableTrie ImmutableUpdate.

Section Node.
Context {K V : Type} `{KeyLaws K} `{SameLaws V}.
Abbreviation store := (@store K V).
Abbreviation M := (@M K V).
Abbreviation oaddrs := (oapp addrs).
Abbreviation ocells := (oapp cells).

(** ** update *)

(** What [update] does on a trie of the level, or on no trie. *)
Definition updates (update : nat -> Z -> Z -> M update_result) (e : option nat) (shift p : Z) (k : K) (v : option V) : Prop :=
  forall s t, wf s shift p t -> NoDup (addrs t) -> NoDup (cells t) ->
    exists ot' ch al s', update (root t) shift (hash k) s = Some (option_map root ot', ch, al, s') /\
      updated e s (Some t) shift p k v ot' ch al s'.

Lemma updateNode_ok update e shift p k v s c : updates update e shift p k v ->
  (forall t, c = Some t -> wf s shift p t) -> NoDup (oaddrs c) -> NoDup (ocells c) -> low shift (hash k) = p ->
  exists c' ch al s', updateNode update (option_map root c) e shift (hash k) k v s = Some (option_map root c', ch, al, s') /\
    updated e s c shift p k v c' ch al s'.
Proof.
  intros Hu Hwf Ha Hc Hl. destruct c as [t|]; cbn; [by apply Hu; [apply Hwf| |]|]. destruct v as [x|].
  - eexists (Some _), true, true, _. split; [|by apply updated_new]. done.
  - exists None, false, false, s. split; [done|]. by apply updated_same.
Qed.

Section Inner.
Context (update : nat -> Z -> Z -> M update_result) (e : option nat) (s : store).
Context (a : nat) (o : option nat) (slots : list (option tree)) (shift p : Z) (kh : option Z) (k : K) (v : option V).
Hypothesis Hk : hash_arg k kh.
Hypothesis Hl : low shift (hash k) = p.
Hypothesis Hu : forall p', low (shift + 5) (hash k) = p' -> updates update e (shift + 5) p' k v.

Lemma sub_nodup i j c : NoDup (addrs (Inner a o i slots)) -> NoDup (cells (Inner a o i slots)) -> slots !! j = Some c ->
  NoDup (oaddrs c) /\ NoDup (ocells c).
Proof.
  rewrite addrs_inner, cells_inner, list.NoDup_cons. intros [_ Ha] Hc Hj.
  rewrite (flat_split _ _ _ _ Hj) in Ha. rewrite (flat_split _ _ _ _ Hj) in Hc.
  apply list.NoDup_app in Ha as (_ & _ & Ha). apply list.NoDup_app in Ha as (Ha & _).
  apply list.NoDup_app in Hc as (_ & _ & Hc). apply list.NoDup_app in Hc as (Hc & _). done.
Qed.

(** The update of the child, and what is left to do. *)
Lemma child_ok i : wf s shift p (Inner a o i slots) -> NoDup (addrs (Inner a o i slots)) -> NoDup (cells (Inner a o i slots)) ->
  exists j c c' ch al s1, index_at shift (hash k) = Z.of_nat j /\ slots !! j = Some c /\
    updateNode update (option_map root c) e (shift + SHIFT) (hash k) k v s = Some (option_map root c', ch, al, s1) /\
    updated e s c (shift + 5) (p + Z.of_nat j * 2 ^ shift) k v c' ch al s1.
Proof.
  intros Hwf Ha Hc. destruct (wf_inner_inv _ _ _ _ _ _ _ Hwf) as (Hs & Hp & (Hlen & Hn & Hag) & Hch).
  destruct (slot_at shift (hash k) slots Hs Hlen) as (j & c & Hix & Hj & Hc').
  destruct (sub_nodup i j c Ha Hc Hc') as [Hac Hcc].
  assert (low (shift + 5) (hash k) = p + Z.of_nat j * 2 ^ shift) as Hlow by (rewrite low_next by lia; lia).
  destruct (updateNode_ok update e (shift + 5) (p + Z.of_nat j * 2 ^ shift) k v s c) as (c' & ch & al & s1 & E & Hup); try done.
  { by apply Hu. }
  { intros t ->. by apply Hch. }
  exists j, c, c', ch, al, s1. done.
Qed.

(** The child is changed in place or not at all. *)
Lemma plug_same i j c c' ch al s1 : wf s shift p (Inner a o i slots) -> NoDup (addrs (Inner a o i slots)) -> NoDup (cells (Inner a o i slots)) ->
  index_at shift (hash k) = Z.of_nat j -> slots !! j = Some c -> updated e s c (shift + 5) (p + Z.of_nat j * 2 ^ shift) k v c' ch al s1 ->
  option_map root c' = option_map root c ->
  exists t', root t' = a /\ updated e s (Some (Inner a o i slots)) shift p k v (Some t') ch al s1.
Proof.
  intros Hwf Ha Hc Hix Hj Hup Hr. destruct (wf_inner_inv _ _ _ _ _ _ _ Hwf) as (Hs & Hp & (Hlen & Hn & Hag) & Hch).
  assert (<[j := c']> slots = slots \/ exists t t', c = Some t /\ c' = Some t' /\ root t' = root t) as Hcc.
  { destruct c as [t|], c' as [t'|]; try done; [right|left; by apply list_insert_id]. cbn in Hr. injection Hr as Hr. eauto. }
  assert (phys i o (<[j := c']> slots) = phys i o slots /\ agrees i (<[j := c']> slots)) as [Hph Hag'].
  { destruct Hcc as [->|(t & t' & -> & -> & Hr')]; [done|]. split; [by eapply phys_replace|by eapply agrees_replace]. }
  destruct al.
  - eexists (Inner a o i (<[j := c']> slots)). split; [done|].
    eapply (plug_finish e s a o i slots shift p k v j c c' ch true s1); try done; [|apply frame_refl|auto].
    rewrite Hph. by eapply (plug_node e s a o i slots shift p k v j c c' ch true s1).
  - destruct (up_same _ _ _ _ _ _ _ _ _ _ _ Hup eq_refl) as (-> & -> & ->). exists (Inner a o i slots). split; [done|].
    apply updated_same; [by intros ? [= <-]|done|done|].
    change (oents s (Some _)) with (ents s (Inner a o i slots)). rewrite (look_inner_eq _ _ _ _ _ _ _ _ _ _ Hwf Hl Hix Hj).
    rewrite (up_look _ _ _ _ _ _ _ _ _ _ _ Hup). by rewrite is_refl.
Qed.

Lemma isLeafNode_ok (s1 : store) shift' p' t : wf s1 shift' p' t ->
  isLeafNode (root t) s1 = Some (match t with Inner _ _ _ _ => false | _ => true end, s1).
Proof.
  destruct 1 as [? ? ? ? ? ? Ha|? ? ? ? ? ? Ha|? ? ? ? i ? _ _ (_ & Ha & _)]; unfold isLeafNode, bind, get_node; cbn [root]; rewrite Ha; try done.
  by destruct i.
Qed.

Section Step.
Context (i : inner) (j : nat) (c c' : option tree) (ch al : bool) (s1 : store).
Hypothesis Hwf : wf s shift p (Inner a o i slots).
Hypothesis Ha : NoDup (addrs (Inner a o i slots)).
Hypothesis Hc : NoDup (cells (Inner a o i slots)).
Hypothesis Hix : index_at shift (hash k) = Z.of_nat j.
Hypothesis Hj : slots !! j = Some c.
Hypothesis Hup : updated e s c (shift + 5) (p + Z.of_nat j * 2 ^ shift) k v c' ch al s1.

Lemma plug_edit i' : agrees i' (<[j := c']> slots) ->
  exists t' s2, edit e a (phys i o slots) (phys i' e (<[j := c']> slots)) s1 = Some (root t', s2) /\
    updated e s (Some (Inner a o i slots)) shift p k v (Some t') ch true s2.
Proof.
  intros Hag. destruct (edit_ok e (loose v) s1 a (phys i o slots) (phys i' e (<[j := c']> slots))) as (b & s2 & E & Hb & He & Hfr & Hba).
  - by eapply plug_node.
  - by destruct i'.
  - by destruct i'.
  - exists (Inner b e i' (<[j := c']> slots)), s2. split; [done|]. by eapply plug_finish.
Qed.

Lemma plug_new i' : agrees i' (<[j := c']> slots) ->
  exists t' s2, new_node (phys i' e (<[j := c']> slots)) s1 = Some (root t', s2) /\
    updated e s (Some (Inner a o i slots)) shift p k v (Some t') ch true s2.
Proof.
  intros Hag. exists (Inner (length (nodes s1)) e i' (<[j := c']> slots)), (with_nodes (nodes s1 ++ [phys i' e (<[j := c']> slots)]) s1).
  split; [done|]. eapply plug_finish; try done; [apply lookup_snoc| |auto].
  apply frame_new_node; [apply frame_refl|by destruct i'|by destruct i'].
Qed.

Lemma plug_altered : option_map root c' <> option_map root c -> al = true.
Proof. intros Hne. destruct al; [done|]. by destruct (up_same _ _ _ _ _ _ _ _ _ _ _ Hup eq_refl) as (_ & -> & _). Qed.

End Step.

Lemma inner_absent i j : wf s shift p (Inner a o i slots) -> NoDup (addrs (Inner a o i slots)) -> NoDup (cells (Inner a o i slots)) ->
  index_at shift (hash k) = Z.of_nat j -> slots !! j = Some None ->
  updated e s (Some (Inner a o i slots)) shift p k None (Some (Inner a o i slots)) false false s.
Proof.
  intros Hwf Ha Hc Hix Hj. apply updated_same; [by intros ? [= <-]|done|done|].
  change (oents s (Some _)) with (ents s (Inner a o i slots)). by rewrite (look_inner_eq _ _ _ _ _ _ _ _ _ _ Hwf Hl Hix Hj).
Qed.

(** The other one of two children. *)
Lemma other_child j (t : tree) : slots !! j = Some (Some t) -> length (roots slots) = 2%nat ->
  exists t', children (<[j := None]> slots) = [t'] /\
    roots slots !! Nat.lxor 1 (length (children (take j slots))) = Some (Some (root t')).
Proof.
  intros Hj Hlen. rewrite (children_insert _ _ _ _ Hj). rewrite (roots_split _ _ _ Hj) in *. unfold roots in *.
  rewrite !length_app, !length_fmap in Hlen. cbn in Hlen.
  destruct (children (take j slots)) as [|t1 [|]], (children (drop (S j) slots)) as [|t2 [|]]; cbn in *; try lia; eauto.
Qed.

Lemma bitmap_update_ok bm : let t := Inner a o (Bitmap bm) slots in
  wf s shift p t -> NoDup (addrs t) -> NoDup (cells t) ->
  exists ot' ch al s', bitmap_update update a o bm (roots slots) e shift kh k v s = Some (option_map root ot', ch, al, s') /\
    updated e s (Some t) shift p k v ot' ch al s'.
Proof.
  intros t Hwf Ha Hc. destruct (wf_inner_inv _ _ _ _ _ _ _ Hwf) as (Hs & Hp & (Hlen & Hn & Hag) & Hch).
  destruct (child_ok _ Hwf Ha Hc) as (j & c & c' & ch & al & s1 & Hix & Hj & E & Hup).
  unfold bitmap_update. rewrite (hash_arg_default _ _ Hk), Hix. destruct (bitmap_slot _ _ _ _ Hag Hlen Hj) as [-> ->].
  set (f := Z.to_nat (zlen (children (take j slots)))).
  assert (f = length (children (take j slots))) as Hf by (unfold f, zlen; lia). clearbody f. subst f.
  destruct (negb (negb match c with Some _ => false | None => true end) && match v with Some _ => false | None => true end) eqn:Eab.
  { exists (Some t), false, false, s. split; [done|]. destruct c, v; try done. by eapply inner_absent. }
  cbn zeta. assert ((if negb match c with Some _ => false | None => true end
    then match roots slots !! length (children (take j slots)) with Some d => d | None => None end else None) = option_map root c) as ->.
  { destruct c as [t0|]; [|done]. cbn [negb]. by rewrite (roots_at _ _ _ Hj). }
  unfold bind at 1. rewrite E. destruct (bool_decide_reflect (option_map root c' = option_map root c)) as [Hr|Hr].
  { destruct (plug_same _ _ _ _ _ _ _ Hwf Ha Hc Hix Hj Hup Hr) as (t' & Hrt & Hup'). exists (Some t'), ch, al, s1. cbn. by rewrite Hrt. }
  pose proof (plug_altered _ _ _ _ _ _ Hup Hr). subst al.
  change (BitmapIndexedNode o bm (roots slots)) with (phys (Bitmap bm) o slots).
  destruct c as [t0|], c' as [t1|]; cbn [negb option_map] in *; [| | |done].
  - assert (exists lf, (if (length (roots slots) =? 1)%nat then isLeafNode (root t1) else ret false) s1 = Some (lf, s1) /\
      (lf = true -> length (roots slots) = 1%nat /\ leafy t1)) as (lf & El & Hlf).
    { destruct (Nat.eqb_spec (length (roots slots)) 1); [|by exists false].
      rewrite (isLeafNode_ok _ _ _ _ (up_wf _ _ _ _ _ _ _ _ _ _ _ Hup t1 eq_refl)). eexists. split; [done|]. by destruct t1. }
    unfold bind at 1. rewrite El. destruct lf.
    + destruct (Hlf eq_refl) as [H1' Hleafy]. exists (Some t1), ch, true, s1. split; [done|].
      eapply (plug_collapse _ _ _ _ _ _ _ _ _ _ _ _ _ _ _ _ Hwf); try done. rewrite (children_insert _ _ _ _ Hj).
      rewrite (roots_split _ _ _ Hj), !length_app, !length_roots in H1'. cbn in H1'.
      destruct (children (take j slots)), (children (drop (S j) slots)); cbn in *; try lia. done.
    + rewrite (roots_setIn _ _ _ t1 Hj). change (BitmapIndexedNode e bm (roots ?x)) with (phys (Bitmap bm) e x).
      destruct (plug_edit _ _ _ _ _ _ _ Hwf Ha Hc Hix Hj Hup (Bitmap bm)) as (t' & s2 & E2 & Hup2); [by eapply agrees_replace|].
      unfold bind. rewrite E2. by exists (Some t'), ch, true, s2.
  - assert (exists lf, (if (length (roots slots) =? 2)%nat then
        match roots slots !! Nat.lxor 1 (length (children (take j slots))) with Some (Some z) => isLeafNode z | _ => fails end else ret false) s1 = Some (lf, s1) /\
      (lf = true -> exists t', leafy t' /\ children (<[j := None]> slots) = [t'] /\
         roots slots !! Nat.lxor 1 (length (children (take j slots))) = Some (Some (root t')))) as (lf & El & Hlf).
    { destruct (Nat.eqb_spec (length (roots slots)) 2) as [H2'|]; [|by exists false].
      destruct (other_child _ _ Hj H2') as (t' & Ht' & Hr'). rewrite Hr'.
      assert (exists j', <[j := None]> slots !! j' = Some (Some t')) as [j' Hj'].
      { apply list_elem_of_lookup. assert (t' ∈ children (<[j := None]> slots)) as Hin by (rewrite Ht'; by left).
        apply list_elem_of_omap in Hin as (x & Hx & ->). done. }
      rewrite (isLeafNode_ok _ _ _ _ (plug_children _ _ _ _ _ _ _ _ _ _ _ _ _ _ _ _ Hwf Ha Hc Hj Hup _ _ Hj')).
      eexists. split; [done|]. intros Hlf. exists t'. split_and!; try done. by destruct t'. }
    unfold bind at 1. rewrite El. destruct lf.
    + destruct (Hlf eq_refl) as (t' & Hleafy & Ht' & ->). exists (Some t'), ch, true, s1. split; [done|].
      by eapply (plug_collapse _ _ _ _ _ _ _ _ _ _ _ _ _ _ _ _ Hwf).
    + rewrite (roots_spliceOut _ _ _ Hj). change (BitmapIndexedNode e ?b (roots ?x)) with (phys (Bitmap b) e x).
      destruct (plug_edit _ _ _ _ _ _ _ Hwf Ha Hc Hix Hj Hup (Bitmap (js_xor bm (js_shl 1 (Z.of_nat j))))) as (t' & s2 & E2 & Hup2); [by eapply agrees_xor|].
      unfold bind. rewrite E2. by exists (Some t'), ch, true, s2.
  - destruct (MAX_BITMAP_INDEXED_SIZE <=? zlen (roots slots)).
    + destruct (expandNodes_ok e bm slots j t1 Hag Hlen Hj) as (n & -> & Hag').
      destruct (plug_new _ _ _ _ _ _ _ Hwf Ha Hc Hix Hj Hup _ Hag') as (t' & s2 & E2 & Hup2).
      unfold bind. rewrite E2. by exists (Some t'), ch, true, s2.
    + rewrite (roots_spliceIn _ _ _ Hj). change (BitmapIndexedNode e ?b (roots ?x)) with (phys (Bitmap b) e x).
      destruct (plug_edit _ _ _ _ _ _ _ Hwf Ha Hc Hix Hj Hup (Bitmap (js_or bm (js_shl 1 (Z.of_nat j))))) as (t' & s2 & E2 & Hup2); [by eapply agrees_or|].
      unfold bind. rewrite E2. by exists (Some t'), ch, true, s2.
Qed.

Lemma hash_array_update_ok n : let t := Inner a o (Counted n) slots in
  wf s shift p t -> NoDup (addrs t) -> NoDup (cells t) ->
  exists ot' ch al s', hash_array_update update a o n (option_map root <$> slots) e shift kh k v s = Some (option_map root ot', ch, al, s') /\
    updated e s (Some t) shift p k v ot' ch al s'.
Proof.
  intros t Hwf Ha Hc. destruct (wf_inner_inv _ _ _ _ _ _ _ Hwf) as (Hs & Hp & (Hlen & Hn & Hag) & Hch).
  destruct (child_ok _ Hwf Ha Hc) as (j & c & c' & ch & al & s1 & Hix & Hj & E & Hup).
  unfold hash_array_update. rewrite (hash_arg_default _ _ Hk), Hix, zget_nat, list_lookup_fmap, Hj. cbn [fmap option_fmap option_map].
  change (option_map (option_map root) (Some c)) with (Some (option_map root c)). cbv iota beta.
  destruct (match v, option_map root c with None, None => true | _, _ => false end) eqn:Eab.
  { exists (Some t), false, false, s. split; [done|]. destruct c, v; try done. by eapply inner_absent. }
  unfold bind at 1. rewrite E. destruct (bool_decide_reflect (option_map root c' = option_map root c)) as [Hr|Hr].
  { destruct (plug_same _ _ _ _ _ _ _ Hwf Ha Hc Hix Hj Hup Hr) as (t' & Hrt & Hup'). exists (Some t'), ch, al, s1. cbn. by rewrite Hrt. }
  pose proof (plug_altered _ _ _ _ _ _ Hup Hr). subst al. unfold setIn. rewrite Nat2Z.id.
  rewrite <- list_fmap_insert. change (HashArrayMapNode ?o' ?m (option_map root <$> ?x)) with (phys (Counted m) o' x).
  assert (forall m, m = n + zlen (oapp (fun t => [t]) c') - zlen (oapp (fun t => [t]) c) -> agrees (Counted m) (<[j := c']> slots)) as Hcount.
  { intros m ->. cbn in *. rewrite Hag, (children_insert _ _ _ _ Hj), (children_split _ _ _ Hj), !zlen_app. lia. }
  assert (forall m, m = n + zlen (oapp (fun t => [t]) c') - zlen (oapp (fun t => [t]) c) ->
    exists ot' s', (let* b := edit e a (phys (Counted n) o slots) (phys (Counted m) e (<[j := c']> slots)) in ret (Some b, ch, true)) s1 =
      Some (option_map root ot', ch, true, s') /\ updated e s (Some t) shift p k v ot' ch true s') as Hedit.
  { intros m Hm. destruct (plug_edit _ _ _ _ _ _ _ Hwf Ha Hc Hix Hj Hup (Counted m)) as (t' & s2 & E2 & Hup2); [by apply Hcount|].
    unfold bind. rewrite E2. by exists (Some t'), s2. }
  destruct c as [t0|], c' as [t1|]; cbn [option_map] in *; [| | |done].
  - destruct (Hedit n) as (ot' & s' & Hx); [unfold zlen; cbn; lia|]. by exists ot', ch, true, s'.
  - destruct (n - 1 <? MIN_HASH_ARRAY_MAP_SIZE).
    + destruct (packNodes_ok e n slots j t0 Hag Hlen Hj) as (bm & -> & Hag').
      destruct (plug_new _ _ _ _ _ _ _ Hwf Ha Hc Hix Hj Hup _ Hag') as (t' & s2 & E2 & Hup2).
      unfold bind. rewrite E2. by exists (Some t'), ch, true, s2.
    + destruct (Hedit (n - 1)) as (ot' & s' & Hx); [cbn; unfold zlen; cbn; lia|]. by exists ot', ch, true, s'.
  - destruct (Hedit (n + 1)) as (ot' & s' & Hx); [cbn; unfold zlen; cbn; lia|]. by exists ot', ch, true, s'.
Qed.

End Inner.
(** Eight levels are enough: a trie has seven levels of inner nodes. *)
Lemma node_update_ok fuel : forall s t e shift p kh k v, wf s shift p t -> NoDup (addrs t) -> NoDup (cells t) ->
  0 <= shift <= 35 -> shift mod 5 = 0 -> 40 - shift <= 5 * Z.of_nat fuel -> low shift (hash k) = p -> hash_arg k kh ->
  exists ot' ch al s', node_update fuel (root t) e shift kh k v s = Some (option_map root ot', ch, al, s') /\
    updated e s (Some t) shift p k v ot' ch al s'.
Proof.
  induction fuel as [|fuel IH]; intros s t e shift p kh k v Hwf Ha Hc Hs Hm Hf Hl Hk; [lia|].
  destruct t as [a o h c|a o h cs|a o i slots]; cbn [node_update root]; unfold bind at 1, get_node.
  - rewrite (proj1 (wf_leaf_inv _ _ _ _ _ _ _ Hwf)). by apply value_update_ok.
  - rewrite (proj1 (wf_coll_inv _ _ _ _ _ _ _ Hwf)). by apply collision_update_ok.
  - destruct (wf_inner_inv _ _ _ _ _ _ _ Hwf) as (Hs' & Hp & (Hlen & Hn & Hag) & Hch). rewrite Hn.
    assert (forall p', low (shift + 5) (hash k) = p' -> updates (fun a shift keyHash => node_update fuel a e shift (Some keyHash) k v) e (shift + 5) p' k v) as Hu.
    { intros p' Hp' s0 t Hwf0 Ha0 Hc0. apply (IH s0 t e (shift + 5) p' (Some (hash k)) k v); try done; [lia|dlia|lia|by right]. }
    destruct i as [bm|n]; cbn [phys].
    + by eapply bitmap_update_ok.
    + by eapply hash_array_update_ok.
Qed.

End Node.
End ImmutableNode.
