(* ===== verification/ImmutableRoot.v ===== *)
(** * The root of an Immutable.Map

    A map has an ArrayMapNode or a trie as its root.  That [update] on the root implements
    the update of a finite map, with the change of an array of eight entries into a
    trie. *)

From S2P Require Import Prelude.
From S2P Require Import ImmutableMap.
From S2P Require Import ImmutableBits.
From S2P Require Import ImmutableTrie.
From S2P Require Import ImmutableUpdate.
From S2P Require Import ImmutableNode.
From stdpp Require Import base numbers list option.
Open Scope Z_scope.

Module ImmutableRoot.
Import ImmutableMap ImmutableBits ImmutableTrie ImmutableUpdate ImmutableNode.

Section Root.
Context {K V : Type} `{KeyLaws K} `{SameLaws V}.
Abbreviation store := (@store K V).
Abbreviation M := (@M K V).

Inductive rtree := RArray (a : nat) (o : option nat) (cs : list nat) | RTrie (t : tree).

Definition rroot (r : rtree) : nat := match r with RArray a _ _ => a | RTrie t => root t end.
Definition raddrs (r : rtree) : list nat := match r with RArray a _ _ => [a] | RTrie t => addrs t end.
Definition rcells (r : rtree) : list nat := match r with RArray _ _ cs => cs | RTrie t => cells t end.

Definition wf_root (s : store) (r : rtree) : Prop :=
  match r with
  | RArray a o cs =>
      nodes s !! a = Some (ArrayMapNode o cs) /\ (forall c, c ∈ cs -> is_Some (entries s !! c)) /\
      distinct (ents_at s cs) /\ zlen cs <= MAX_ARRAY_MAP_SIZE
  | RTrie t => wf s 0 0 t
  end.

Definition rents (s : store) (r : rtree) : list (K * V) := ents_at s (rcells r).

(** A root whose nodes and entries are all different. *)
Definition root_ok (s : store) (r : rtree) : Prop := wf_root s r /\ NoDup (raddrs r) /\ NoDup (rcells r).

Abbreviation oraddrs := (oapp raddrs).
Abbreviation orcells := (oapp rcells).
Definition orents (s : store) (r : option rtree) : list (K * V) := ents_at s (orcells r).

Record rupdated (e : option nat) (s : store) (r : rtree) (k : K) (v : option V)
    (r' : option rtree) (ch al : bool) (s' : store) : Prop := {
  ru_ok : forall t, r' = Some t -> root_ok s' t;
  ru_look : forall k', look k' (orents s' r') = if is_ k k' then v else look k' (rents s r);
  ru_size : zlen (orents s' r') = zlen (rents s r) + delta ch v;
  ru_same : al = false -> s' = s /\ r' = Some r /\ ch = false;
  ru_frame : frame e (loose v) (raddrs r) (rcells r) s s'
}.

(** ** Frames *)

Lemma wf_root_nodes s r a : wf_root s r -> a ∈ raddrs r -> (a < length (nodes s))%nat.
Proof.
  destruct r as [a' o cs|t]; cbn; [|by intros; eapply wf_nodes]. intros [Ha _] ->%list_elem_of_singleton. by eapply lookup_lt_Some.
Qed.

Lemma wf_root_cells s r c : wf_root s r -> c ∈ rcells r -> (c < length (entries s))%nat.
Proof.
  destruct r as [a' o cs|t]; cbn; [|by intros; eapply wf_cells_lt]. intros (_ & Hc & _) Hin. by apply lookup_lt_is_Some, Hc.
Qed.

(** A root in a store with the same nodes and entries. *)
Lemma root_ok_frame s s' r : root_ok s r -> (forall a, a ∈ raddrs r -> nodes s' !! a = nodes s !! a) ->
  (forall c, c ∈ rcells r -> entries s' !! c = entries s !! c) -> root_ok s' r /\ rents s' r = rents s r.
Proof.
  intros (Hwf & Ha & Hc) Hn He. split; [|by apply ents_at_frame]. split; [|done]. destruct r as [a o cs|t]; cbn in *.
  - destruct Hwf as (Hn' & Hall & Hd & Hz). rewrite Hn by (by left). split_and!; [done| |by rewrite (ents_at_frame s)|done].
    intros c Hin. rewrite He by done. auto.
  - by apply (wf_frame s).
Qed.

Lemma frame_imp e (L L' : Prop) A C (s s' : store) : (L -> L') -> frame e L A C s s' -> frame e L' A C s s'.
Proof.
  intros HL [fn fc f1 f2 f3 fm fo fe]. constructor; auto. intros a n Ha. destruct (f3 a n Ha) as [|[Ho Hv]]; [auto|]. right. split; [done|].
  intros o h c Hn. destruct (Hv o h c Hn); auto.
Qed.

(** The work of a new owner on new objects changes nothing old. *)
Definition with_owner (s : store) : store := Store (nodes s) (entries s) (maps s) (S (owners s)) (EMPTY_MAP s).

Lemma frame_owner e L (s s' : store) : frame (Some (owners s)) L [] [] (with_owner s) s' -> frame e L [] [] s s'.
Proof.
  intros [fn fc f1 f2 f3 fm fo fe]. cbn in *. constructor; auto; [..|lia].
  - intros a n Ha. destruct (f1 a n Ha) as [|[Hin _]]; [auto|by apply elem_of_nil in Hin].
  - intros c x Hc. destruct (f2 c x Hc) as [|[Hin _]]; [auto|by apply elem_of_nil in Hin].
  - intros a n Ha. destruct (f3 a n Ha) as [|[Ho Hv]]; [auto|]. right. split; [|done]. right. 
    destruct Ho as [Ho|(x & Ho & Hx)]; eexists; (split; [exact Ho|lia]).
Qed.

(** ** createNodes *)

Lemma ents_at_cons (s : store) c cs x : entries s !! c = Some x -> ents_at s (c :: cs) = x :: ents_at s cs.
Proof. intros Hc. unfold ents_at. cbn. by rewrite Hc. Qed.

(** The trie gets the entries of the cells. *)
Lemma createNodes_ok fuel e L s0 cs : forall s t, (8 <= fuel)%nat ->
  wf s 0 0 t -> NoDup (addrs t) -> NoDup (cells t) ->
  (forall a, a ∈ addrs t -> (length (nodes s0) <= a)%nat) -> (forall c, c ∈ cells t -> (length (entries s0) <= c)%nat) ->
  frame (Some e) L [] [] s0 s -> (forall c, c ∈ cs -> is_Some (entries s0 !! c)) -> distinct (ents_at s0 cs) ->
  (forall x, x ∈ ents_at s0 cs -> look x.1 (ents s t) = None) ->
  exists t' s', createNodes_loop (fun o k v => node_update fuel o (Some e) 0 None k v) (root t) cs s = Some (root t', s') /\
    wf s' 0 0 t' /\ NoDup (addrs t') /\ NoDup (cells t') /\ frame (Some e) L [] [] s0 s' /\
    (forall k, look k (ents s' t') = match look k (ents_at s0 cs) with Some v => Some v | None => look k (ents s t) end) /\
    zlen (ents s' t') = zlen (ents s t) + zlen cs.
Proof.
  induction cs as [|c cs IH]; intros s t Hf Hwf Ha Hc Hga Hgc Hfr Hall Hd Hn; cbn [createNodes_loop].
  { exists t, s. split_and!; try done. cbn. change (zlen []) with 0. lia. }
  destruct (Hall c ltac:(by left)) as [[k v] Hkv].
  assert (entries s !! c = Some (k, v)) as Hkv'.
  { destruct (fr_cells _ _ _ _ _ _ Hfr c _ Hkv) as [|[Hin _]]; [done|by apply elem_of_nil in Hin]. }
  rewrite (ents_at_cons _ _ _ _ Hkv) in *. destruct Hd as [Hk Hd].
  destruct (node_update_ok fuel s t (Some e) 0 0 None k (Some v)) as (ot' & ch & al & s1 & E & Hup); try done; [lia|apply low_0|by left|].
  assert (look k (oents s1 ot') = Some v) as Hlk by (by rewrite (up_look _ _ _ _ _ _ _ _ _ _ _ Hup), is_refl).
  destruct ot' as [t1|]; [|done]. unfold bind at 1, get_entry. rewrite Hkv'. unfold bind at 1. rewrite E. cbn [option_map].
  pose proof (up_look _ _ _ _ _ _ _ _ _ _ _ Hup) as Hl1. change (oents s1 (Some t1)) with (ents s1 t1) in *. change (oents s (Some t)) with (ents s t) in *.
  pose proof (Hn (k, v) ltac:(by left)) as Hk0. cbn in Hk0.
  destruct (IH s1 t1) as (t' & s' & E' & Hwf' & Ha' & Hc' & Hfr' & Hl' & Hz'); try done.
  - by apply Hup.
  - apply Hup.
  - apply Hup.
  - intros a Hin. apply (up_addrs _ _ _ _ _ _ _ _ _ _ _ Hup) in Hin as [Hin|]; [auto|]. pose proof (fr_nodes_len _ _ _ _ _ _ Hfr). lia.
  - intros a Hin. apply (up_cells _ _ _ _ _ _ _ _ _ _ _ Hup) in Hin as [Hin|]; [auto|]. pose proof (fr_cells_len _ _ _ _ _ _ Hfr). lia.
  - eapply frame_trans; [exact Hfr|eapply frame_imp; [|apply Hup]; by intros [? _]| |]; [intros; right; auto|auto].
  - intros; apply Hall; by right.
  - intros x Hx. rewrite Hl1. destruct (is_ k x.1) eqn:E1; [|apply Hn; by right].
    rewrite (look_none_inv _ _ _ Hk Hx) in E1. done.
  - exists t', s'. split_and!; try done.
    + intros k'. rewrite Hl', Hl1. cbn [look]. rewrite (is_sym k' k).
      destruct (is_ k k') eqn:E1; [|done]. by rewrite <- (look_is _ _ _ E1), Hk.
    + rewrite Hz'. pose proof (up_size _ _ _ _ _ _ _ _ _ _ _ Hup) as Hz. pose proof (up_ch _ _ _ _ _ _ _ _ _ _ _ Hup) as Hch.
      change (oents s1 (Some t1)) with (ents s1 t1) in *. change (oents s (Some t)) with (ents s t) in *. rewrite Hk0 in Hch. subst ch.
      rewrite Hz. unfold delta. cbn. rewrite zlen_cons. lia.
Qed.

(** ** update on the root *)

Lemma rupdated_same e s r k v : root_ok s r -> look k (rents s r) = v -> rupdated e s r k v (Some r) false false s.
Proof.
  intros Hok Hl. constructor; auto; [by intros ? [= <-]| |unfold delta; change (orents s (Some r)) with (rents s r); lia|apply frame_refl].
  intros k'. change (orents s (Some r)) with (rents s r). destruct (is_ k k') eqn:E; [|done]. by rewrite <- (look_is _ _ _ E).
Qed.

Lemma trie_updated e s t k v ot' ch al s' : updated e s (Some t) 0 0 k v ot' ch al s' -> rupdated e s (RTrie t) k v (option_map RTrie ot') ch al s'.
Proof.
  intros Hup. assert (orents s' (option_map RTrie ot') = oents s' ot') as He by (by destruct ot').
  constructor; rewrite ?He; try apply Hup.
  - intros r Hr. destruct ot' as [t'|]; [|done]. injection Hr as <-. split; [by apply Hup|]. split; [apply Hup|apply Hup].
  - intros Hal. destruct (up_same _ _ _ _ _ _ _ _ _ _ _ Hup Hal) as (-> & -> & ->). done.
Qed.

Lemma array_edit e s a o k cs v ch cs' : root_ok s (RArray a o cs) -> edited s cs k v ch cs' -> zlen cs' <= MAX_ARRAY_MAP_SIZE ->
  exists b s', edit e a (ArrayMapNode o cs) (ArrayMapNode e cs') (put s k v) = Some (b, s') /\
    rupdated e s (RArray a o cs) k v (Some (RArray b e cs')) ch true s'.
Proof.
  intros ((Ha & Hall & Hd & _) & _ & Hnd) Hed Hlen.
  destruct (edit_ok e (loose v) (put s k v) a (ArrayMapNode o cs) (ArrayMapNode e cs')) as (b & s' & E & Hb & He & Hfr & Hr); [by rewrite put_nodes|done|done|].
  assert (ents_at s' cs' = ents_at (put s k v) cs') as Hents by (apply ents_at_frame; by rewrite He).
  exists b, s'. split; [done|]. destruct Hed as [Hn Hcs Hdd Hl Hz _ _]. constructor.
  - intros ? [= <-]. split; [|by split; [apply NoDup_singleton|]]. split_and!; [done| |by rewrite Hents|done].
    intros c Hc. rewrite He. destruct (Hcs c Hc) as [Hin|(-> & x & ->)].
    + destruct (Hall c Hin) as [y Hy]. exists y. by apply put_old.
    + exists (k, x). apply lookup_snoc.
  - intros k'. change (orents s' _) with (ents_at s' cs'). rewrite Hents. apply Hl.
  - change (orents s' _) with (ents_at s' cs'). rewrite Hents. apply Hz.
  - done.
  - eapply frame_trans; [apply (put_frame _ _ _ _ s k v)|exact Hfr|auto|]. intros c Hc. by apply elem_of_nil in Hc.
Qed.

(** The array becomes a trie. *)
Lemma array_full e s a o k cs x : root_ok s (RArray a o cs) -> look k (ents_at s cs) = None ->
  exists t s', (let* e := (match e with Some e => ret e | None => new_owner end) in
     let* c := new_entry (k, x) in
     let* o := new_node (ValueNode (Some e) (hash k) c) in
     let* a := createNodes_loop (fun o k v => node_update 9 o (Some e) 0 None k v) o cs in
     ret (Some a, true, true)) s = Some (Some (root t), true, true, s') /\
    rupdated e s (RArray a o cs) k (Some x) (Some (RTrie t)) true true s'.
Proof.
  intros Hok Hk. pose proof Hok as ((Ha & Hall & Hd & _) & _ & Hnd).
  set (s0 := match e with Some _ => s | None => with_owner s end). set (e' := match e with Some e' => e' | None => owners s end).
  assert (nodes s0 = nodes s /\ entries s0 = entries s) as [Hn0 He0] by (unfold s0; by destruct e).
  assert (ents_at s0 cs = ents_at s cs) as Hc0 by (apply ents_at_frame; by rewrite He0).
  set (s1 := with_entries (entries s0 ++ [(k, x)]) s0).
  set (s2 := with_nodes (nodes s1 ++ [ValueNode (Some e') (hash k) (length (entries s0))]) s1).
  pose proof (updated_new (Some e') s0 0 0 k x (low_0 _)) as Hnew. cbn zeta in Hnew. fold s1 in Hnew. fold s2 in Hnew.
  set (t := Leaf (length (nodes s0)) (Some e') (hash k) (length (entries s0))) in *.
  assert (forall k', look k' (ents s2 t) = if is_ k k' then Some x else None) as Hlt by apply Hnew.
  destruct (createNodes_ok 9 e' (loose (Some x)) s0 cs s2 t) as (t' & s' & E & Hwf' & Ha' & Hc' & Hfr & Hl & Hz); try done; try apply Hnew.
  - lia.
  - done.
  - intros b ->%list_elem_of_singleton. done.
  - intros b ->%list_elem_of_singleton. done.
  - by rewrite He0.
  - by rewrite Hc0.
  - intros y Hy. rewrite Hlt. rewrite Hc0 in Hy. by rewrite (look_none_inv _ _ _ Hk Hy).
  - rewrite Hc0 in Hl.
    assert (forall A (m : nat -> M A), (let* e := (match e with Some e => ret e | None => new_owner end) in m e) s = m e' s0) as Hown.
    { intros A m. unfold s0, e'. by destruct e. }
    change (root t) with (length (nodes s1)) in E.
    exists t', s'. split; [rewrite Hown; unfold bind; rewrite new_entry_eq; fold s1; rewrite new_node_eq; fold s2; by rewrite E|].
    assert (zlen (ents s2 t) = 1) as H1' by (rewrite (up_size _ _ _ _ _ _ _ _ _ _ _ Hnew : zlen (ents s2 t) = _); done).
    constructor.
    + by intros ? [= <-].
    + intros k'. change (orents s' _) with (ents s' t'). rewrite Hl, Hlt. change (rents s _) with (ents_at s cs).
      destruct (is_ k k') eqn:E1; [by rewrite <- (look_is _ _ _ E1), Hk|by destruct (look k' (ents_at s cs))].
    + change (orents s' _) with (ents s' t'). change (rents s _) with (ents_at s cs). rewrite Hz, H1'.
      enough (zlen cs = zlen (ents_at s cs)) by (unfold delta; lia). clear -Hall. induction cs as [|c cs IH]; [done|].
      destruct (Hall c ltac:(by left)) as [y Hy]. rewrite (ents_at_cons _ _ _ _ Hy), !zlen_cons, IH; [done|]. intros; apply Hall; by right.
    + done.
    + apply frame_weaken with (A := []) (C := []); [|intros ? Hin; by apply elem_of_nil in Hin..].
      destruct e as [e0|]; [exact Hfr|]. by apply frame_owner.
Qed.

Lemma array_update_ok e s a o cs k v : root_ok s (RArray a o cs) ->
  exists r' ch al s', array_update (fun e o k v => node_update 9 o (Some e) 0 None k v) a o cs e k v s = Some (option_map rroot r', ch, al, s') /\
    rupdated e s (RArray a o cs) k v r' ch al s'.
Proof.
  intros Hok. pose proof Hok as ((Ha & Hall & Hd & Hz) & _ & Hnd). unfold array_update.
  pose proof (find_entry_ok k s cs 0 Hall) as Hfe. unfold bind at 1. destruct (find_entry k cs 0 s) as [[f s']|] eqn:Ef; [|done].
  assert (s' = s) as -> by (by destruct f as [[]|]; destruct Hfe as [-> _]).
  assert (look k (rents s (RArray a o cs)) = option_map snd f) as Hf by (destruct f as [[]|]; apply Hfe).
  pose proof (edit_entries_ok s cs k v f Hnd Hall Hd Ef) as Hed.
  assert (forall ch cs', edited s cs k v ch cs' -> zlen cs' <= MAX_ARRAY_MAP_SIZE -> exists r' s',
    (let* a := edit e a (ArrayMapNode o cs) (ArrayMapNode e cs') in ret (Some a, ch, true)) (put s k v) = Some (option_map rroot r', ch, true, s') /\
    rupdated e s (RArray a o cs) k v r' ch true s') as Hedit.
  { intros ch cs' Hed' Hz'. destruct (array_edit e s a o k cs v ch cs' Hok Hed' Hz') as (b & s' & E & Hup). unfold bind. rewrite E.
    by exists (Some (RArray b e cs')), s'. }
  destruct f as [[l v']|], v as [x|]; cbn [option_map fst snd put_cell] in *.
  - destruct (same v' x) eqn:Es.
    + apply same_eq in Es. subst v'. exists (Some (RArray a o cs)), false, false, s. split; [done|]. by apply rupdated_same.
    + specialize (Hed ltac:(done)). destruct (Hedit _ _ Hed) as (r' & s' & E & Hup).
      { rewrite (ed_length _ _ _ _ _ _ Hed). unfold delta. lia. }
      exists r', false, true, s'. split; [|done]. unfold bind at 1. by rewrite new_entry_eq.
  - destruct (Nat.eqb_spec (length cs) 1) as [H1'|H1'].
    + exists None, true, true, s. split; [done|]. destruct Hfe as (_ & _ & j & c & k' & -> & Hj & Hc & Hk).
      destruct cs as [|c0 [|]]; try done. destruct j; [|done]. injection Hj as ->.
      assert (rents s (RArray a o [c]) = [(k', v')]) as He by (unfold rents; cbn [rcells]; by rewrite (ents_at_cons _ _ _ _ Hc)).
      constructor; try done; rewrite ?He; cbn; [|done|apply frame_refl].
      intros k0. rewrite (is_congr _ _ k0 Hk). by destruct (is_ k k0).
    + specialize (Hed ltac:(done)). destruct (Hedit _ _ Hed) as (r' & s' & E & Hup).
      { rewrite (ed_length _ _ _ _ _ _ Hed). unfold delta. lia. }
      by exists r', true, true, s'.
  - destruct (Z.leb_spec MAX_ARRAY_MAP_SIZE (zlen cs)) as [Hge|Hlt].
    + destruct (array_full e s a o k cs x Hok Hf) as (t & s' & E & Hup). by exists (Some (RTrie t)), true, true, s'.
    + specialize (Hed ltac:(done)). destruct (Hedit _ _ Hed) as (r' & s' & E & Hup).
      { rewrite (ed_length _ _ _ _ _ _ Hed). unfold delta. lia. }
      exists r', true, true, s'. split; [|done]. unfold bind at 1. by rewrite new_entry_eq.
  - exists (Some (RArray a o cs)), false, false, s. split; [done|]. by apply rupdated_same.
Qed.

Lemma root_update_ok s r e k v : root_ok s r ->
  exists r' ch al s', node_update depth (rroot r) e 0 None k v s = Some (option_map rroot r', ch, al, s') /\ rupdated e s r k v r' ch al s'.
Proof.
  intros Hok. destruct r as [a o cs|t].
  - unfold depth. cbn [node_update rroot]. unfold bind at 1, get_node. destruct Hok as [[Ha Hok'] Hnd]. rewrite Ha. by apply array_update_ok.
  - destruct Hok as (Hwf & Ha & Hc). destruct (node_update_ok depth s t e 0 0 None k v) as (ot' & ch & al & s' & E & Hup); try done;
      [apply low_0|by left|].
    exists (option_map RTrie ot'), ch, al, s'. split; [|by apply trie_updated]. cbn [rroot]. rewrite E. by destruct ot'.
Qed.

Lemma root_get_ok s r k : root_ok s r -> node_get depth (rroot r) 0 None k s = Some (look k (rents s r), s).
Proof.
  intros (Hwf & _). destruct r as [a o cs|t].
  - destruct Hwf as (Ha & Hall & _). unfold depth. cbn [node_get rroot]. unfold bind at 1, get_node. rewrite Ha.
    pose proof (find_entry_ok k s cs 0 Hall) as Hfe. unfold bind. destruct (find_entry k cs 0 s) as [[[[i v]|] s']|]; [| |done].
    + destruct Hfe as (-> & Hl & _). unfold rents. cbn [rcells]. by rewrite Hl.
    + destruct Hfe as (-> & Hl). unfold rents. cbn [rcells]. by rewrite Hl.
  - apply (node_get_ok depth s t 0 0); try done; [by left|apply low_0].
Qed.

End Root.
End ImmutableRoot.
