(* ===== verification/ImmutableHash.v ===== *)
(** * Immutable: hash, is and imul

    Models lines 403 to 411 and 614 to 700 of
    src/client/docs/swagger-ui/swagger-ui-bundle.js on the primitive keys undefined, null,
    booleans and strings, with the cache of the hashes of long strings, and [imul].  The
    hash of a number is a computation with doubles, and that of an object is a counter
    kept in a WeakMap: neither is modelled. *)

From S2P Require Import Prelude.
From S2P Require Import JsString.
From S2P Require Import ImmutableMap.
From S2P Require Import ImmutableBits.
From S2P Require Import ImmutableTrie.
From Stdlib Require Import String.
From stdpp Require Import base numbers list option.
Open Scope Z_scope.

Inductive prim := PUndef | PNull | PBool (b : bool) | PStr (s : jsstring).

#[export] Instance prim_eq_dec : EqDecision prim.
Proof. solve_decision. Defined.

Module ImmutableHash.
Import ImmutableBits.

(** [smi]: the bit 30 of the result is the sign bit. *)
Definition smi (e : Z) : Z := js_or (js_and (js_ushr e 1) 1073741824) (js_and 3221225471 e).

Definition hashString (e : jsstring) : Z := smi (fold_left (fun t c => to_int32 (31 * t + c)) e 0).

Definition STRING_HASH_CACHE_MIN_STRLEN : Z := 16.
Definition STRING_HASH_CACHE_MAX_SIZE : Z := 255.

(** The cache, an object used as a dictionary, and the number of its entries. *)
Record cache := Cache { STRING_HASH_CACHE_SIZE : Z; stringHashCache : list (jsstring * Z) }.

(** What is found in the cache: the number of an entry, or a function that every object inherits. *)
Inductive hashval := HNum (h : Z) | HInherited (name : jsstring).

Fixpoint cache_own (s : jsstring) (l : list (jsstring * Z)) : option Z :=
  match l with
  | [] => None
  | (s', h) :: l => if decide (s = s') then Some h else cache_own s l
  end.
Definition cache_get (s : jsstring) (l : list (jsstring * Z)) : option hashval :=
  match cache_own s l with
  | Some h => Some (HNum h)
  | None => if decide (s ∈ inherited) then Some (HInherited s) else None
  end.

Definition cachedHashString (e : jsstring) (c : cache) : hashval * cache :=
  match cache_get e (stringHashCache c) with
  | Some t => (t, c)
  | None =>
      let t := hashString e in
      let c := if STRING_HASH_CACHE_SIZE c =? STRING_HASH_CACHE_MAX_SIZE then Cache 0 [] else c in
      (HNum t, Cache (STRING_HASH_CACHE_SIZE c + 1) ((e, t) :: stringHashCache c))
  end.

Definition hash (e : prim) (c : cache) : hashval * cache :=
  match e with
  | PUndef | PNull | PBool false => (HNum 0, c)
  | PBool true => (HNum 1, c)
  | PStr s => if STRING_HASH_CACHE_MIN_STRLEN <? zlen s then cachedHashString s c else (HNum (hashString s), c)
  end.

(** [Immutable.is] on primitives. *)
Definition is_ (e t : prim) : bool := bool_decide (e = t).

Definition imul (e t : Z) : Z :=
  let e := to_int32 e in
  let t := to_int32 t in
  let n := js_and 65535 e in
  let r := js_and 65535 t in
  to_int32 (n * r + js_ushr (js_shl (js_ushr e 16 * r + n * js_ushr t 16) 16) 0).

(** ** Theorems *)

(** What is in the cache is the hash of the string; an inherited name has no entry. *)
Definition cache_ok (c : cache) : Prop :=
  cache_own (js "propertyIsEnumerable") (stringHashCache c) = None /\
  (forall s h, cache_own s (stringHashCache c) = Some h -> h = hashString s) /\
  STRING_HASH_CACHE_SIZE c = zlen (stringHashCache c) /\ STRING_HASH_CACHE_SIZE c <= STRING_HASH_CACHE_MAX_SIZE.

Definition hash_of (e : prim) : Z :=
  match e with PUndef | PNull | PBool false => 0 | PBool true => 1 | PStr s => hashString s end.

(** The one string that is looked for in the cache and that every object has. *)
Definition inherited_key : prim := PStr (js "propertyIsEnumerable").

Lemma long_inherited s : s ∈ inherited -> STRING_HASH_CACHE_MIN_STRLEN < zlen s -> s = js "propertyIsEnumerable".
Proof.
  intros Hin. cbn [inherited map] in Hin. repeat (apply elem_of_cons in Hin as [->|Hin]; [vm_compute; done|]). by apply elem_of_nil in Hin.
Qed.

Lemma smi_range e : - 2 ^ 30 <= smi e < 2 ^ 30.
Proof.
  set (t := to_int32 e). pose proof (to_int32_range e) as Ht. fold t in Ht.
  assert (smi e = Z.lor (Z.land (js_ushr e 1) (2 ^ 30)) (Z.land (- 2 ^ 30 - 1) t)) as E.
  { assert (0 <= js_ushr e 1 < pow31) as Hu.
    { unfold js_ushr, to_uint32, pow31, pow32. change (1 mod 32) with 1. rewrite Z.shiftr_div_pow2 by lia. dlia. }
    assert (forall a b, - pow31 <= a < pow31 -> - pow31 <= b < pow31 -> to_int32 (Z.land a b) = Z.land a b) as Hl.
    { intros a b Ha Hb. apply to_int32_small. exact (proj1 (int32_bitwise a b Ha Hb)). }
    unfold smi, js_or, js_and. change (to_int32 3221225471) with (- 2 ^ 30 - 1). change (to_int32 1073741824) with (2 ^ 30). fold t.
    rewrite (to_int32_small (js_ushr e 1)) by (unfold pow31 in *; lia). rewrite !Hl by (unfold pow31 in *; lia). done. }
  assert (Z.shiftr (smi e) 30 = 0 \/ Z.shiftr (smi e) 30 = -1) as Hs.
  { rewrite E, Z.shiftr_lor, !Z.shiftr_land. unfold js_ushr. change (1 mod 32) with 1. rewrite Z.shiftr_shiftr by lia. change (1 + 30) with 31. change (Z.shiftr (2 ^ 30) 30) with 1.
    change (Z.shiftr (- 2 ^ 30 - 1) 30) with (-2).
    assert (Z.shiftr t 30 = -2 /\ Z.shiftr (to_uint32 e) 31 = 1 \/ Z.shiftr t 30 = -1 /\ Z.shiftr (to_uint32 e) 31 = 1
      \/ Z.shiftr t 30 = 0 /\ Z.shiftr (to_uint32 e) 31 = 0 \/ Z.shiftr t 30 = 1 /\ Z.shiftr (to_uint32 e) 31 = 0) as H.
    { rewrite !Z.shiftr_div_pow2 by lia. unfold t, to_int32, to_uint32, pow31, pow32. change (2 ^ 30) with 1073741824. change (2 ^ 31) with 2147483648.
      destruct (Z.ltb_spec (e mod 4294967296) 2147483648); dlia. }
    destruct H as [[-> ->]|[[-> ->]|[[-> ->]|[-> ->]]]]; vm_compute; auto. }
  rewrite Z.shiftr_div_pow2 in Hs by lia. change (2 ^ 30) with 1073741824 in *. dlia.
Qed.

Lemma hash_of_range e : - 2 ^ 30 <= hash_of e < 2 ^ 30.
Proof. destruct e as [| |[]|s]; try (cbn; lia). apply smi_range. Qed.

Lemma cached_ok s c : cache_ok c -> STRING_HASH_CACHE_MIN_STRLEN < zlen s ->
  fst (cachedHashString s c) = (if decide (s = js "propertyIsEnumerable") then HInherited s else HNum (hashString s)) /\ cache_ok (snd (cachedHashString s c)).
Proof.
  intros Hok Hlen. pose proof Hok as (Hi & Hc & Hs & Hm). unfold cachedHashString, cache_get.
  destruct (cache_own s (stringHashCache c)) as [h|] eqn:E; [cbn [fst snd]; split; [|done]; rewrite decide_False by (intros ->; congruence); by rewrite (Hc s h)|].
  destruct (decide (s ∈ inherited)) as [Hin|Hin]; [pose proof (long_inherited s Hin Hlen); subst s; by rewrite decide_True|].
  assert (s <> js "propertyIsEnumerable") as Hne by (intros ->; apply Hin; by apply (bool_decide_unpack _)). rewrite decide_False by done. cbn [fst snd]. split; [done|].
  set (c' := if _ =? _ then _ else c).
  assert (cache_ok c' /\ STRING_HASH_CACHE_SIZE c' < STRING_HASH_CACHE_MAX_SIZE) as [(Hi' & Hc' & Hs' & _) Hlt].
  { unfold c'. destruct (Z.eqb_spec (STRING_HASH_CACHE_SIZE c) STRING_HASH_CACHE_MAX_SIZE); [done|]. split; [done|lia]. }
  split_and!; cbn [STRING_HASH_CACHE_SIZE stringHashCache cache_own]; [by rewrite decide_False by done| |unfold zlen in *; cbn; lia|lia].
  intros s' h. destruct (decide (s' = s)) as [->|]; [by intros [= <-]|auto].
Qed.

(** C40: the hash of a key that is undefined, null, a boolean or a string does not depend on the
    cache, is a signed integer of 31 bits, and leaves a cache that holds at most 255 strings.  The
    one exception is the string propertyIsEnumerable, which is found in the cache as the function
    that every object inherits, and has that for its hash. *)
Theorem hash_cache e c : cache_ok c ->
  fst (hash e c) = (if decide (e = inherited_key) then HInherited (js "propertyIsEnumerable") else HNum (hash_of e))
  /\ - 2 ^ 30 <= hash_of e < 2 ^ 30 /\ cache_ok (snd (hash e c)).
Proof.
  intros Hok. split_and!; [|apply hash_of_range..|].
  all: destruct e as [| |[]|s]; try done; cbn [hash]; destruct (Z.ltb_spec STRING_HASH_CACHE_MIN_STRLEN (zlen s)) as [Hlen|Hlen].
  - destruct (cached_ok s c Hok Hlen) as [H _]. rewrite H. unfold inherited_key. destruct (decide (s = js "propertyIsEnumerable")) as [->|Hne]; [by rewrite decide_True|]. rewrite decide_False; [done|]. by intros [= ?].
  - rewrite decide_False; [done|]. intros [= ->]. vm_compute in Hlen. by apply Hlen.
  - by apply cached_ok.
  - done.
Qed.

Lemma hash_cache_witness : cache_ok (Cache 0 []) /\ fst (hash (PStr (js "participationrewards")) (Cache 0 [])) = HNum (hash_of (PStr (js "participationrewards"))).
Proof.
  assert (cache_ok (Cache 0 [])) as Hok by done. split; [exact Hok|]. exact (proj1 (hash_cache (PStr (js "participationrewards")) (Cache 0 []) Hok)).
Defined.

Lemma hash_of_int32 e : - pow31 <= hash_of e < pow31.
Proof. pose proof (hash_of_range e). unfold pow31. lia. Qed.

(** The polyfill of [Math.imul] is the product modulo 2^32. *)
Theorem imul_product e t : imul e t = to_int32 (e * t).
Proof.
  assert (forall a b, (exists q, a = b + q * pow32) -> to_int32 a = to_int32 b) as Hcong.
  { intros a b [q ->]. unfold to_int32. by rewrite Z_mod_plus_full. }
  destruct (to_int32_eq e) as [q1 E1], (to_int32_eq t) as [q2 E2]. unfold imul. set (a := to_int32 e) in *. set (b := to_int32 t) in *.
  pose proof (to_int32_range e) as Ra. pose proof (to_int32_range t) as Rb. fold a in Ra. fold b in Rb.
  change 65535 with (2 ^ 16 - 1). rewrite !js_and_ones_l by lia. change (2 ^ 16) with 65536.
  assert (forall x, js_ushr x 16 = (x mod pow32) / 65536) as Hu.
  { intros x. unfold js_ushr, to_uint32. change (16 mod 32) with 16. by rewrite Z.shiftr_div_pow2 by lia. }
  rewrite !Hu. set (x := _ / _ * _ + _). unfold js_ushr, js_shl. change (0 mod 32) with 0. change (16 mod 32) with 16.
  rewrite Z.shiftr_0_r, Z.shiftl_mul_pow2 by lia. change (2 ^ 16) with 65536.
  destruct (to_int32_eq x) as [q3 E3], (to_int32_eq (to_int32 x * 65536)) as [q4 E4]. rewrite E4, E3. unfold to_uint32.
  apply Hcong. pose proof (Z.div_mod ((x + q3 * 4294967296) * 65536 + q4 * 4294967296) pow32 ltac:(unfold pow32; lia)) as E5.
  set (z := (x + q3 * 4294967296) * 65536 + q4 * 4294967296) in *. set (y := z mod pow32) in *. set (q5 := z / pow32) in E5.
  assert (a mod pow32 = a mod 65536 + 65536 * (a mod pow32 / 65536)) as Ea. { unfold pow32. dlia. }
  assert (b mod pow32 = b mod 65536 + 65536 * (b mod pow32 / 65536)) as Eb. { unfold pow32. dlia. }
  set (a0 := a mod 65536) in *. set (b0 := b mod 65536) in *. set (a1 := a mod pow32 / 65536) in *. set (b1 := b mod pow32 / 65536) in *.
  pose proof (Z.div_mod a pow32 ltac:(unfold pow32; lia)) as Fa. pose proof (Z.div_mod b pow32 ltac:(unfold pow32; lia)) as Fb.
  rewrite Ea in Fa. rewrite Eb in Fb. set (qa := a / pow32) in *. set (qb := b / pow32) in *.
  assert (e = a0 + 65536 * a1 + (qa - q1) * pow32) as He by (unfold pow32 in *; lia).
  assert (t = b0 + 65536 * b1 + (qb - q2) * pow32) as Ht by (unfold pow32 in *; lia).
  assert (y = x * 65536 + (q3 * 65536 + q4 - q5) * pow32) as Ey by (unfold z, pow32 in *; lia).
  exists (q3 * 65536 + q4 - q5 - a1 * b1 - (qa - q1) * t - (a0 + 65536 * a1) * (qb - q2)). rewrite He, Ht, Ey. unfold x, pow32 in *.
  clear. nia.
Qed.

End ImmutableHash.

(** Primitive keys, with the hashes that the cache does not change.  The instance is that of the
    code for all keys but the string propertyIsEnumerable, whose hash in the code is no number. *)
#[export] Instance prim_key : Key prim := { is_ := ImmutableHash.is_; hash := ImmutableHash.hash_of }.

#[export] Instance prim_laws : KeyLaws prim.
Proof.
  constructor; unfold is_, hash; cbn; unfold ImmutableHash.is_.
  - intros k. by apply bool_decide_eq_true.
  - intros k k'. apply bool_decide_ext. done.
  - intros k k' k''. rewrite !bool_decide_eq_true. congruence.
  - intros k k'. rewrite bool_decide_eq_true. congruence.
  - apply ImmutableHash.hash_of_int32.
Qed.
