(* ===== verification/ImmutableMapOk.v ===== *)
(** * Immutable.Map: the operations of the maps

    That [get], [set], [remove], [clear], [withMutations] and [Map] implement finite maps
    whose old versions never change, as long as no removal in [withMutations] meets two
    keys of the same hash; and what happens when one does. *)

From S2P Require Import Prelude.
From S2P Require Import JsString.
From S2P Require Import ImmutableMap.
From S2P Require Import ImmutableBits.
From S2P Require Import ImmutableTrie.
From S2P Require Import ImmutableUpdate.
From S2P Require Import ImmutableNode.
From S2P Require Import ImmutableRoot.
From S2P Require Import ImmutableHash.
From Stdlib Require Import String.
From stdpp Require Import base numbers list option.
Open Scope Z_scope.

Module ImmutableMapOk.
Import ImmutableMap ImmutableBits ImmutableTrie ImmutableUpdate ImmutableNode ImmutableRoot.

Section Maps.
Context {K V : Type} `{KeyLaws K} `{SameLaws V}.
Abbreviation store := (@store K V).
Abbreviation M := (@M K V).

(** The map at [m] has the owner [o] and the entries [es]. *)
Definition map_ok (s : store) (m : nat) (o : option nat) (es : list (K * V)) : Prop :=
  exists obj, maps s !! m = Some obj /\ __ownerID obj = o /\ size obj = zlen es /\
    match _root obj with
    | None => es = []
    | Some a => exists r, rroot r = a /\ root_ok s r /\ rents s r = es
    end.

(** The invariant of the store: the empty map is one, and owners are old. *)
Record store_ok (s : store) : Prop := {
  so_empty : forall m, EMPTY_MAP s = Some m -> exists h al, maps s !! m = Some (MapObj 0 None None h al);
  so_nodes : forall a n x, nodes s !! a = Some n -> node_owner n = Some x -> (x < owners s)%nat;
  so_maps : forall m obj x, maps s !! m = Some obj -> __ownerID obj = Some x -> (x < owners s)%nat
}.

(** Every map is still what it was. *)
Definition persists (s s' : store) : Prop := forall m o es, map_ok s m o es -> map_ok s' m o es.

(** ** Stores that grow *)

Record extends (s s' : store) : Prop := {
  ex_nodes : forall a n, nodes s !! a = Some n -> nodes s' !! a = Some n;
  ex_cells : forall c x, entries s !! c = Some x -> entries s' !! c = Some x;
  ex_maps : forall m obj, maps s !! m = Some obj -> maps s' !! m = Some obj
}.

Lemma root_ok_extends (s s' : store) r : (forall a n, nodes s !! a = Some n -> nodes s' !! a = Some n) ->
  (forall c x, entries s !! c = Some x -> entries s' !! c = Some x) -> root_ok s r -> root_ok s' r /\ rents s' r = rents s r.
Proof.
  intros Hn Hc Hok. apply root_ok_frame; [done| |].
  - intros a Ha. destruct (lookup_lt_is_Some_2 (nodes s) a) as [n E]; [eapply wf_root_nodes; [apply Hok|done]|]. rewrite E. auto.
  - intros c Hin. destruct (lookup_lt_is_Some_2 (entries s) c) as [x E]; [eapply wf_root_cells; [apply Hok|done]|]. rewrite E. auto.
Qed.

Lemma extends_persists (s s' : store) : extends s s' -> persists s s'.
Proof.
  intros [Hn Hc Hm] m o es (obj & Hobj & Ho & Hsz & Hr). exists obj. split_and!; auto.
  destruct (_root obj); [|done]. destruct Hr as (r & Hrr & Hok & Hes). destruct (root_ok_extends _ s' r Hn Hc Hok) as [Hok' He].
  exists r. split_and!; [done|done|congruence].
Qed.

Lemma frame_extends L A C (s s' : store) : frame None L A C s s' -> extends s s'.
Proof.
  intros F. constructor.
  - intros a n Ha. by destruct (fr_nodes _ _ _ _ _ _ F a n Ha) as [|[_ ?]].
  - intros c x Hc. by destruct (fr_cells _ _ _ _ _ _ F c x Hc) as [|(_ & a & o & h & _ & ?)].
  - intros m obj. by rewrite (fr_maps _ _ _ _ _ _ F).
Qed.

Lemma extends_trans (s1 s2 s3 : store) : extends s1 s2 -> extends s2 s3 -> extends s1 s3.
Proof. intros [] []. constructor; auto. Qed.

(** ** get *)

Lemma get_ok s m o es k : map_ok s m o es -> get m k s = Some (look k es, s).
Proof.
  intros (obj & Hobj & _ & _ & Hr). unfold get, bind, get_map. rewrite Hobj. destruct (_root obj) as [a|]; [|by rewrite Hr].
  destruct Hr as (r & <- & Hok & <-). by apply root_get_ok.
Qed.

(** [get] finds the value of the key, and [has] whether there is one. *)
Theorem map_get_ok s m o es k : map_ok s m o es ->
  get m k s = Some (look k es, s) /\ has m k s = Some (match look k es with Some _ => true | None => false end, s).
Proof.
  intros Hm. pose proof (get_ok s m o es k Hm) as Hg. split; [done|]. unfold has, bind. by rewrite Hg.
Qed.

(** ** set and remove *)

Definition with_maps (ms : list mapobj) (s : store) : store := Store (nodes s) (entries s) ms (owners s) (EMPTY_MAP s).

Lemma root_ok_maps ms (s : store) r : root_ok s r -> root_ok (with_maps ms s) r.
Proof. intros Hr. by apply (root_ok_extends s). Qed.

Lemma store_ok_frame e L A C s s' : store_ok s -> frame e L A C s s' -> (forall x, e = Some x -> (x < owners s)%nat) ->
  store_ok s'.
Proof.
  intros [He Hn Hm] F Ho. pose proof (fr_owners _ _ _ _ _ _ F) as Hle. constructor.
  - intros m. rewrite (fr_empty _ _ _ _ _ _ F), (fr_maps _ _ _ _ _ _ F). auto.
  - intros a n x Ha Hx. destruct (fr_new _ _ _ _ _ _ F a n Ha) as [Ha'|[[Hown|(y & Hy & Hlt)] _]].
    + specialize (Hn _ _ _ Ha' Hx). lia.
    + specialize (Ho x ltac:(congruence)). lia.
    + rewrite Hx in Hy. injection Hy as <-. lia.
  - intros m obj x. rewrite (fr_maps _ _ _ _ _ _ F). intros Hobj Hx. specialize (Hm _ _ _ Hobj Hx). lia.
Qed.

(** The empty map. *)
Lemma emptyMap_ok s : store_ok s -> exists m s', emptyMap s = Some (m, s') /\ store_ok s' /\ map_ok s' m None [] /\ extends s s' /\
  nodes s' = nodes s /\ entries s' = entries s /\ owners s' = owners s.
Proof.
  intros Hok. unfold emptyMap. destruct (EMPTY_MAP s) as [m|] eqn:E.
  - exists m, s. split_and!; try done. destruct (so_empty _ Hok m E) as (h & al & Hm). by exists (MapObj 0 None None h al).
  - eexists _, _. split; [done|].
    assert (forall s', maps s' = maps s ++ [MapObj 0 None None None false] -> map_ok s' (length (maps s)) None []) as Hmap.
    { intros s' Hs'. exists (MapObj 0 None None None false). rewrite Hs'. split; [apply lookup_snoc|done]. }
    split_and!; try done.
    + destruct Hok as [_ Hn Hm]. constructor; cbn; [intros m [= <-]; exists None, false; apply lookup_snoc|done|].
      intros m obj x Hobj Hx. apply lookup_snoc_inv in Hobj as [Hobj|[-> ->]]; [eauto|done].
    + by apply Hmap.
    + constructor; cbn; auto. intros m obj Hobj. by apply lookup_app_l_Some.
Qed.

Lemma makeMap_ok s r n : store_ok s -> root_ok s r -> n = zlen (rents s r) ->
  let s' := with_maps (maps s ++ [MapObj n (Some (rroot r)) None None false]) s in
  makeMap n (Some (rroot r)) None None s = Some (length (maps s), s') /\ store_ok s' /\ map_ok s' (length (maps s)) None (rents s r) /\ extends s s'.
Proof.
  intros Hok Hr -> s'. assert (extends s s') as Hex. { constructor; cbn; auto. intros m obj Hobj. by apply lookup_app_l_Some. }
  split_and!; [done| | |done].
  - pose proof Hok as [He Hn Hm]. constructor; [|done|].
    + intros m Hm'. destruct (He m Hm') as (h & al & Hobj). exists h, al. by apply Hex.
    + intros m obj x Hobj Hx. apply lookup_snoc_inv in Hobj as [Hobj|[-> ->]]; [eauto|done].
  - destruct (root_ok_extends s s' r (ex_nodes _ _ Hex) (ex_cells _ _ Hex) Hr) as [Hr' He].
    eexists. split; [apply lookup_snoc|]. split_and!; try done. by exists r.
Qed.

(** The first entry of a map. *)
Lemma new_root_ok e L (s : store) k x : let s1 := with_entries (entries s ++ [(k, x)]) s in
  let s2 := with_nodes (nodes s1 ++ [ArrayMapNode e [length (entries s)]]) s1 in
  let r := RArray (length (nodes s)) e [length (entries s)] in
  root_ok s2 r /\ rents s2 r = [(k, x)] /\ frame e L [] [] s s2.
Proof.
  intros s1 s2 r. assert (entries s2 !! length (entries s) = Some (k, x)) as Hc by apply lookup_snoc.
  assert (ents_at s2 [length (entries s)] = [(k, x)]) as He by (by rewrite (ents_at_cons _ _ _ _ Hc)).
  split_and!; [|done|].
  - split; [|by split; apply NoDup_singleton]. split_and!; [apply lookup_snoc| |by rewrite He|done].
    intros c ->%list_elem_of_singleton. by rewrite Hc.
  - apply frame_new_node; [apply frame_new_entry|done|done].
Qed.

(** What [updateMap] does to the root, before the map object is made or changed. *)
Lemma updateMap_root s m o es k v : map_ok s m o es ->
  exists obj r ch al s1, maps s !! m = Some obj /\ __ownerID obj = o /\
    updateMap m k v s = (if negb al then ret m else
      match o with
      | Some e => let* _ := set_map m (MapObj (zlen es + delta ch v) (option_map rroot r) (Some e) None true) in ret m
      | None => match option_map rroot r with Some _ => makeMap (zlen es + delta ch v) (option_map rroot r) None None | None => emptyMap end
      end) s1 /\
    (forall r', r = Some r' -> root_ok s1 r') /\ zlen (orents s1 r) = zlen es + delta ch v /\
    (forall k', look k' (orents s1 r) = if is_ k k' then v else look k' es) /\ (al = false -> s1 = s /\ orents s1 r = es) /\
    exists A C, frame o (loose v) A C s s1.
Proof.
  intros (obj & Hobj & Ho & Hsz & Hr). exists obj. unfold updateMap. unfold bind at 1, get_map. rewrite Hobj, Ho. destruct (_root obj) as [a|].
  - destruct Hr as (r & <- & Hok & <-). destruct (root_update_ok s r o k v Hok) as (r' & ch & al & s1 & E & [Hok' Hl Hz Hs Hf]).
    exists r', ch, al, s1. split_and!; try done; [|by intros Hal; destruct (Hs Hal) as (-> & -> & _)|by eexists _, _].
    unfold bind at 1. rewrite E. rewrite Hsz. unfold delta. destruct al; [|done]. cbn [negb]. by destruct o, ch, v.
  - subst es. destruct v as [x|].
    + destruct (new_root_ok o (loose (Some x)) s k x) as (Hok & He & Hf).
      set (s2 := with_nodes _ _) in *. exists (Some (RArray (length (nodes s)) o [length (entries s)])), true, true, s2.
      split; [done|]. split; [done|]. split; [reflexivity|]. split_and!; [by intros ? [= <-]|exact (f_equal zlen He)| |done|by eexists _, _].
      intros k'. change (orents _ _) with (rents s2 (RArray (length (nodes s)) o [length (entries s)])). rewrite He. apply look_cons.
    + exists None, false, false, s. split_and!; try done; [|exists [], []; apply frame_refl].
      intros k'. by destruct (is_ k k').
Qed.

Lemma update_persistent s m es k v : store_ok s -> map_ok s m None es ->
  exists m' s' es', updateMap m k v s = Some (m', s') /\ store_ok s' /\ map_ok s' m' None es' /\
    (forall k', look k' es' = if is_ k k' then v else look k' es) /\ extends s s'.
Proof.
  intros Hst Hm. destruct (updateMap_root s m None es k v Hm) as (obj & r & ch & al & s1 & Hobj & Ho & -> & Hr & Hz & Hl & Hs & A & C & Hf).
  pose proof (store_ok_frame _ _ _ _ _ _ Hst Hf ltac:(done)) as Hst1. pose proof (frame_extends _ _ _ _ _ Hf) as Hex.
  destruct al; cbn [negb].
  - destruct r as [r|]; cbn [option_map].
    + destruct (makeMap_ok s1 r (zlen es + delta ch v) Hst1 (Hr r eq_refl) (eq_sym Hz)) as (E & Hst2 & Hm2 & Hex2).
      eexists _, _, _. split; [exact E|]. split_and!; try done. by eapply extends_trans.
    + destruct (emptyMap_ok s1 Hst1) as (m2 & s2 & E & Hst2 & Hm2 & Hex2 & _). exists m2, s2, []. split_and!; try done. by eapply extends_trans.
  - destruct (Hs eq_refl) as [-> He]. exists m, s, es. rewrite He in Hl. split_and!; try done.
Qed.

(** C1: [set] ([v] is a value) and [remove] ([v] is [None]) on an immutable map give a map with the
    value of the key changed and all others as they were; this map, and every other map of
    the program, is still what it was. *)
Theorem map_update_persistent s m es k v : store_ok s -> map_ok s m None es ->
  exists m' s' es', updateMap m k v s = Some (m', s') /\ store_ok s' /\ map_ok s' m' None es' /\
    (forall k', get m' k' s' = Some (if is_ k k' then v else look k' es, s')) /\
    (forall m2 o2 es2, map_ok s m2 o2 es2 -> map_ok s' m2 o2 es2).
Proof.
  intros Hst Hm. destruct (update_persistent s m es k v Hst Hm) as (m' & s' & es' & E & Hst' & Hm' & Hl & Hex).
  exists m', s', es'. split_and!; try done; [|by apply extends_persists]. intros k'.
  rewrite <- Hl. by eapply get_ok.
Qed.

(** ** withMutations *)

(** The work of the owner [e] on the map at [t], since the store [s0]: nothing old has
    changed, and the value nodes of [e] have new entries. *)
Record session (s0 : store) (e t : nat) (es0 : list (K * V)) (s : store) (es : list (K * V)) : Prop := {
  ss_map : map_ok s t (Some e) es;
  ss_new : (length (maps s0) <= t)%nat;
  ss_nodes : forall a n, nodes s0 !! a = Some n -> nodes s !! a = Some n /\ node_owner n <> Some e;
  ss_cells : forall c x, entries s0 !! c = Some x -> entries s !! c = Some x;
  ss_maps : forall m obj, maps s0 !! m = Some obj -> maps s !! m = Some obj;
  ss_values : forall a h c, nodes s !! a = Some (ValueNode (Some e) h c) -> (length (entries s0) <= c)%nat;
  ss_alt : forall obj, maps s !! t = Some obj -> __altered obj = false -> es = es0;
  ss_ok : store_ok s;
  ss_owner : (e < owners s)%nat
}.

Lemma session_extends s0 e t es0 s es : session s0 e t es0 s es -> extends s0 s.
Proof. intros []. constructor; auto. intros a n Ha. by apply ss_nodes0. Qed.

Lemma isEditable_some e o : isEditable (Some e) o = true -> o = Some e.
Proof. destruct o; [|done]. cbn. intros ->%Nat.eqb_eq. done. Qed.

(** Another object for a map that is not the empty map. *)
Lemma store_ok_set_map s t obj obj' : store_ok s -> maps s !! t = Some obj -> __ownerID obj <> None ->
  (forall x, __ownerID obj' = Some x -> (x < owners s)%nat) -> store_ok (with_maps (<[t := obj']> (maps s)) s).
Proof.
  intros [He Hn Hm] Ht Ho Ho'. constructor; [|done|].
  - intros m Hem. destruct (He m Hem) as (h & al & Hobj). exists h, al. cbn. rewrite list_lookup_insert_ne; [done|].
    intros ->. rewrite Ht in Hobj. injection Hobj as ->. done.
  - intros m obj0 x. cbn. rewrite list_lookup_insert. case_decide; [|by apply Hm]. intros [= <-]. apply Ho'.
Qed.

Lemma session_step s0 e t es0 s es k v : session s0 e t es0 s es -> ~ loose v ->
  exists s' es', updateMap t k v s = Some (t, s') /\ session s0 e t es0 s' es' /\ (forall k', look k' es' = if is_ k k' then v else look k' es).
Proof.
  intros Hss Hv. destruct Hss as [Hm Hnew Hn Hc Hms Hvs Halt Hok Hown].
  destruct (updateMap_root s t (Some e) es k v Hm) as (obj & r & ch & al & s1 & Hobj & Ho & -> & Hr & Hz & Hl & Hs & A & C & Hf).
  destruct al; cbn [negb].
  2: { destruct (Hs eq_refl) as [-> He]. exists s, es. rewrite He in Hl. split_and!; try done. }
  set (obj' := MapObj (zlen es + delta ch v) (option_map rroot r) (Some e) None true).
  exists (with_maps (<[t := obj']> (maps s1)) s1), (orents s1 r). split_and!; [done| |done].
  assert (maps s1 = maps s) as Hms1 by (by apply (fr_maps _ _ _ _ _ _ Hf)).
  assert (<[t := obj']> (maps s1) !! t = Some obj') as Hobj'.
  { apply list_lookup_insert_eq. rewrite Hms1. by eapply lookup_lt_Some. }
  assert (store_ok s1) as Hok1 by (eapply store_ok_frame; [done|exact Hf|by intros ? [= <-]]).
  pose proof (fr_owners _ _ _ _ _ _ Hf). constructor.
  - exists obj'. split_and!; [done|done|done|]. destruct r as [r|]; cbn; [|done]. exists r.
    split_and!; [done|by apply root_ok_maps, Hr|done].
  - done.
  - intros a n Ha. destruct (Hn a n Ha) as [Ha' Hne]. split; [|done]. destruct (fr_nodes _ _ _ _ _ _ Hf a n Ha') as [|[_ Hed]]; [done|].
    by apply isEditable_some in Hed.
  - intros c x Hcx. apply Hc in Hcx as Hcs. destruct (fr_cells _ _ _ _ _ _ Hf c x Hcs) as [|(_ & a & o & h & Ha & Hed)]; [done|].
    apply isEditable_some in Hed. subst o. apply Hvs in Ha. apply lookup_lt_Some in Hcx. lia.
  - intros m obj0 Hobj0. cbn. rewrite Hms1, list_lookup_insert_ne; [by apply Hms|]. apply lookup_lt_Some in Hobj0. lia.
  - intros a h c Ha. destruct (fr_new _ _ _ _ _ _ Hf a _ Ha) as [Ha'|[_ Hval]]; [by apply Hvs in Ha'|].
    destruct (Hval _ _ _ eq_refl) as [|Hlo]; [|done]. 
    assert (length (entries s0) <= length (entries s))%nat; [|lia]. destruct (length (entries s0)) as [|n] eqn:E; [lia|].
    destruct (lookup_lt_is_Some_2 (entries s0) n ltac:(lia)) as [x Hx]. apply Hc, lookup_lt_Some in Hx. lia.
  - cbn. intros obj0. rewrite Hobj'. by intros [= <-].
  - eapply store_ok_set_map; [done|by rewrite Hms1|by rewrite Ho|]. intros x [= <-]. lia.
  - cbn. lia.
Qed.

(** A sequence of [set] and [remove]. *)
Fixpoint run_ops (t : nat) (l : list (K * option V)) : M unit :=
  match l with
  | [] => ret tt
  | (k, v) :: l => let* _ := updateMap t k v in run_ops t l
  end.

(** The value of a key after it. *)
Definition last_value (k : K) (l : list (K * option V)) (v : option V) : option V :=
  fold_left (fun v op => if is_ op.1 k then op.2 else v) l v.

Lemma session_ops s0 e t es0 l : forall s es, session s0 e t es0 s es -> Forall (fun op => ~ loose op.2) l ->
  exists s' es', run_ops t l s = Some (tt, s') /\ session s0 e t es0 s' es' /\ (forall k, look k es' = last_value k l (look k es)).
Proof.
  induction l as [|[k v] l IH]; intros s es Hss Hl; [by exists s, es|]. apply list.Forall_cons in Hl as [Hv Hl].
  destruct (session_step _ _ _ _ _ _ k v Hss Hv) as (s1 & es1 & E & Hss1 & Hl1). cbn [run_ops]. unfold bind. rewrite E.
  destruct (IH s1 es1 Hss1 Hl) as (s' & es' & E' & Hss' & Hl'). exists s', es'. split_and!; [done|done|].
  intros k'. rewrite Hl', Hl1. done.
Qed.

Lemma session_start s m es : store_ok s -> map_ok s m None es ->
  exists e t s1, asMutable m s = Some (t, s1) /\ session s e t es s1 es.
Proof.
  intros Hok (obj & Hobj & Ho & Hsz & Hr). unfold asMutable. unfold bind at 1, get_map. rewrite Hobj, Ho. unfold bind, new_owner, __ensureOwner.
  unfold bind, get_map. cbn [maps]. rewrite Hobj. rewrite bool_decide_eq_false_2 by (rewrite Ho; done). unfold makeMap, new_map.
  eexists (owners s), _, _. split; [done|]. constructor; cbn; auto.
  - eexists. split; [apply lookup_snoc|]. split_and!; try done. cbn. destruct (_root obj) as [a|]; [|done].
    destruct Hr as (r & Hrr & Hrok & Hes). exists r. destruct (root_ok_extends s (Store (nodes s) (entries s)
      (maps s ++ [MapObj (size obj) (Some a) (Some (owners s)) (__hash obj) false]) (S (owners s)) (EMPTY_MAP s)) r) as [Hrok' He]; auto.
  - intros a n Ha. split; [done|]. intros Hx. pose proof (so_nodes _ Hok _ _ _ Ha Hx). lia.
  - intros m' obj' Hm'. by apply lookup_app_l_Some.
  - intros a h c Ha. apply (so_nodes _ Hok _ _ (owners s)) in Ha; [lia|done].
  - destruct Hok as [He Hn Hm]. constructor; cbn.
    + intros m' Hem. destruct (He m' Hem) as (h & al & Hx). exists h, al. by apply lookup_app_l_Some.
    + intros a n x Ha Hx. specialize (Hn _ _ _ Ha Hx). lia.
    + intros m' obj' x Hx Hox. apply lookup_snoc_inv in Hx as [Hx|[-> ->]]; [specialize (Hm _ _ _ Hx Hox); lia|]. cbn in Hox. injection Hox as <-. lia.
Qed.

(** What [withMutations] returns after the work of a session. *)
Lemma session_end s m es e t s2 es2 : map_ok s m None es -> session s e t es s2 es2 ->
  exists m' s' es', (let* altered := wasAltered t in if altered then let* x := get_map m in __ensureOwner t (__ownerID x) else ret m) s2 = Some (m', s') /\
    store_ok s' /\ map_ok s' m' None es' /\ (forall k, look k es' = look k es2) /\ extends s s'.
Proof.
  intros Hm Hss2. pose proof Hss2 as [Hm2 Hnew Hn Hc Hms Hvs Halt Hok2 Hown]. destruct Hm2 as (obj & Hobj & Ho & Hsz & Hr).
  unfold wasAltered, bind, get_map. rewrite Hobj. cbn.
  destruct (__altered obj) eqn:Eal.
  - destruct Hm as (obj0 & Hobj0 & Ho0 & _). rewrite (Hms _ _ Hobj0), Ho0. unfold __ensureOwner, bind, get_map. rewrite Hobj.
    rewrite bool_decide_eq_false_2 by (rewrite Ho; done). unfold set_map.
    set (obj' := MapObj (size obj) (_root obj) None (__hash obj) false).
    eexists t, (with_maps (<[t := obj']> (maps s2)) s2), es2. split; [done|].
    assert (<[t := obj']> (maps s2) !! t = Some obj') as Hobj'. { apply list_lookup_insert_eq. by eapply lookup_lt_Some. }
    split_and!; try done.
    + eapply store_ok_set_map; [done|done|by rewrite Ho|done].
    + exists obj'. split_and!; try done. cbn. destruct (_root obj) as [a|]; [|done]. destruct Hr as (r & Hrr & Hrok & Hes).
      exists r. split_and!; [done|by apply root_ok_maps|done].
    + destruct (session_extends _ _ _ _ _ _ Hss2). constructor; cbn; auto. intros m' obj1 Hobj1. 
      rewrite list_lookup_insert_ne; [by apply Hms|]. apply lookup_lt_Some in Hobj1. lia.
  - exists m, s2, es. rewrite (Halt _ Hobj Eal). split_and!; try done; [|by eapply session_extends].
    eapply extends_persists; [by eapply session_extends|done].
Qed.

Lemma withMutations_ops s m es l : store_ok s -> map_ok s m None es -> Forall (fun op => ~ loose op.2) l ->
  exists m' s' es', withMutations m (fun t => run_ops t l) s = Some (m', s') /\ store_ok s' /\ map_ok s' m' None es' /\
    (forall k, look k es' = last_value k l (look k es)) /\ extends s s'.
Proof.
  intros Hok Hm Hl. destruct (session_start s m es Hok Hm) as (e & t & s1 & E & Hss).
  destruct (session_ops _ _ _ _ l _ _ Hss Hl) as (s2 & es2 & E2 & Hss2 & Hl2).
  unfold withMutations. unfold bind at 1. rewrite E. unfold bind at 1. rewrite E2.
  destruct (session_end s m es e t s2 es2 Hm Hss2) as (m' & s' & es' & -> & Hok' & Hm' & Hl' & Hex).
  exists m', s', es'. split_and!; try done. intros k. by rewrite Hl', Hl2.
Qed.

(** C4: a sequence of [set] and [remove] in [withMutations] gives a map with the values
    they leave, and this map, like every other map, is still what it was: when there is no
    [remove], or when no two keys have the same hash. *)
Theorem map_withMutations s m es l : store_ok s -> map_ok s m None es ->
  Forall (fun op => op.2 <> None) l \/ (forall k k' : K, hash k = hash k' -> is_ k k' = true) ->
  exists m' s' es', withMutations m (fun t => run_ops t l) s = Some (m', s') /\ store_ok s' /\ map_ok s' m' None es' /\
    (forall k, get m' k s' = Some (last_value k l (look k es), s')) /\
    (forall m2 o2 es2, map_ok s m2 o2 es2 -> map_ok s' m2 o2 es2).
Proof.
  intros Hok Hm Hl. destruct (withMutations_ops s m es l Hok Hm) as (m' & s' & es' & E & Hok' & Hm' & Hlk & Hex).
  { destruct Hl as [Hl|Hinj].
    - eapply Forall_impl; [|exact Hl]. intros op Hop [Hv _]. done.
    - apply list.Forall_forall. intros op _ [_ (k & k' & Hh & Hk)]. by rewrite (Hinj _ _ Hh) in Hk. }
  exists m', s', es'. split_and!; try done; [|by apply extends_persists]. intros k. rewrite <- Hlk. by eapply get_ok.
Qed.

(** ** Map *)

Lemma set_all_ops t l : set_all t l = run_ops t (map (fun e => (e.1, Some e.2)) l).
Proof. induction l as [|[k v] l IH]; [done|]. cbn. by rewrite IH. Qed.

Lemma Map_ok s l : store_ok s -> exists m s' es, Map l s = Some (m, s') /\ store_ok s' /\ map_ok s' m None es /\
  (forall k, look k es = last_value k (map (fun e => (e.1, Some e.2)) l) None) /\ extends s s'.
Proof.
  intros Hok. destruct (emptyMap_ok s Hok) as (m0 & s0 & E0 & Hok0 & Hm0 & Hex0 & _). unfold Map, bind. rewrite E0.
  destruct (withMutations_ops s0 m0 [] (map (fun e => (e.1, Some e.2)) l) Hok0 Hm0) as (m' & s' & es' & E & Hok' & Hm' & Hlk & Hex).
  { apply Forall_map. apply list.Forall_forall. by intros e _ [? _]. }
  exists m', s', es'. split_and!; try done; [|by eapply extends_trans]. rewrite <- E. unfold withMutations, bind.
  destruct (asMutable m0 s0) as [[t s1]|]; [|done]. by rewrite set_all_ops.
Qed.

(** ** clear *)

Lemma clear_ok s m es : store_ok s -> map_ok s m None es ->
  exists m' s' , clear m s = Some (m', s') /\ store_ok s' /\ map_ok s' m' None [] /\ extends s s'.
Proof.
  intros Hok Hm. pose proof Hm as (obj & Hobj & Ho & Hsz & _). unfold clear, bind, get_map. rewrite Hobj, Ho.
  destruct (Z.eqb_spec (size obj) 0) as [Hz|_].
  - rewrite Hsz in Hz. destruct es; [|unfold zlen in Hz; cbn in Hz; lia]. exists m, s. split_and!; done.
  - destruct (emptyMap_ok s Hok) as (m' & s' & E & Hok' & Hm' & Hex & _). by exists m', s'.
Qed.

(** ** The keys are different *)

Lemma distinct_app (a b : list (K * V)) : distinct a -> distinct b -> (forall e, e ∈ a -> look e.1 b = None) -> distinct (a ++ b).
Proof.
  induction a as [|[k v] a IH]; [done|]. cbn. intros [Hk Ha] Hb Hab. split.
  - rewrite look_app, Hk. by apply (Hab (k, v)); left.
  - apply IH; [done|done|]. intros e He. apply Hab. by right.
Qed.

Lemma wf_distinct (s : store) shift p t : wf s shift p t -> distinct (ents s t).
Proof.
  induction 1 as [shift p a o h c Ha (k & v & Hc & Hh) Hl|shift p a o h cs Ha _ _ Hd _|shift p a o i slots Hs Hp Hi Hwf IH].
  - unfold ents. cbn [cells]. by rewrite (ents_at_cons _ _ _ _ Hc).
  - done.
  - unfold ents. rewrite cells_inner. clear Hi.
    assert (forall l j0, (forall j t, l !! j = Some (Some t) -> slots !! (j0 + j)%nat = Some (Some t)) -> distinct (ents_at s (flat_map (oapp cells) l))) as Hsl;
      [|apply (Hsl slots 0%nat); done].
    induction l as [|c l IHl]; intros j0 Hl; [done|]. cbn [flat_map]. rewrite ents_at_app. apply distinct_app.
    + destruct c as [t|]; [|done]. apply (IH (j0 + 0)%nat). by apply Hl.
    + apply (IHl (S j0)). intros j t Hj. replace (S j0 + j)%nat with (j0 + S j)%nat by lia. by apply Hl.
    + destruct c as [t|]; [|intros e He; by apply elem_of_nil in He]. intros e He. apply look_none. intros e' He'.
      assert (forall j t e, slots !! j = Some (Some t) -> e ∈ ents_at s (cells t) -> low (shift + 5) (hash e.1) = p + Z.of_nat j * 2 ^ shift) as Hlow.
      { intros j t0 e0 Hj He0. apply list_elem_of_omap in He0 as (c0 & Hc0 & He0). pose proof (wf_cells _ _ _ _ (Hwf _ _ Hj)) as Hw.
        rewrite list.Forall_forall in Hw. destruct (Hw _ Hc0) as (k & v & Hk & Hlk). rewrite Hk in He0. by injection He0 as <-. }
      apply (Hlow (j0 + 0)%nat t) in He; [|by apply Hl].
      apply list_elem_of_omap in He' as (c0 & Hc0 & He'). apply elem_flat in Hc0 as (j & [t'|] & Hj & Hc0); [|by apply elem_of_nil in Hc0].
      assert (e' ∈ ents_at s (cells t')) as Hin' by (apply list_elem_of_omap; eauto).
      apply (Hlow (j0 + S j)%nat t') in Hin'; [|by apply Hl].
      destruct (is_ e.1 e'.1) eqn:Ek; [|done]. apply is_hash in Ek. rewrite Ek in He.
      apply low_up in He as [_ He]; [|done|done]. apply low_up in Hin' as [_ Hin']; [|done|done]. lia.
Qed.

Lemma map_distinct s m o es : map_ok s m o es -> distinct es.
Proof.
  intros (obj & _ & _ & _ & Hr). destruct (_root obj); [|by rewrite Hr]. destruct Hr as (r & _ & (Hwf & _) & <-).
  destruct r as [a o' cs|t]; [apply Hwf|by eapply wf_distinct].
Qed.

(** [Map] of a list of entries has for each key its last value in the list, and
    leaves every other map as it was. *)
Theorem Map_last s l : store_ok s -> exists m s', Map l s = Some (m, s') /\ store_ok s' /\
  (forall k, get m k s' = Some (last_value k (map (fun e => (e.1, Some e.2)) l) None, s')) /\
  (forall m2 o2 es2, map_ok s m2 o2 es2 -> map_ok s' m2 o2 es2).
Proof.
  intros Hok. destruct (Map_ok s l Hok) as (m & s' & es & E & Hok' & Hm & Hl & Hex). exists m, s'.
  split_and!; try done; [|by apply extends_persists]. intros k. rewrite <- Hl. by eapply get_ok.
Qed.

End Maps.

(** ** Maps from strings to integers *)

#[export] Instance Z_same : Same Z := { same := Z.eqb }.
#[export] Instance Z_same_laws : SameLaws Z.
Proof. constructor. apply Z.eqb_eq. Qed.

Definition start : @store prim Z := Store [] [] [] 0 None.

Lemma start_ok : store_ok start.
Proof. by constructor. Qed.

Definition key (s : string) : prim := PStr (js s).

(** A store with a map of one entry, at 1. *)
Definition one_entry : @store prim Z :=
  Store [ArrayMapNode None [0%nat]] [(key "a", 1)] [MapObj 0 None None None false; MapObj 1 (Some 0%nat) None None false] 0 (Some 0%nat).

Lemma one_entry_ok : store_ok one_entry /\ map_ok one_entry 1 None [(key "a", 1)].
Proof.
  split.
  - constructor; cbn.
    + intros m [= <-]. by exists None, false.
    + intros a nd x Ha Hx. destruct a as [|a]; [injection Ha as <-; done|done].
    + intros m obj x Ha Hx. destruct m as [|[|m]]; [injection Ha as <-; done..|done].
  - exists (MapObj 1 (Some 0%nat) None None false). split_and!; try done. exists (RArray 0 None [0%nat]). split; [done|]. split; [|done].
    split; [|by split; apply NoDup_singleton]. split; [done|]. split; [|done]. intros c ->%list_elem_of_singleton. by eexists.
Qed.

Lemma map_get_ok_witness : get 1 (key "a") one_entry = Some (Some 1, one_entry).
Proof. exact (proj1 (map_get_ok one_entry 1 None _ (key "a") (proj2 one_entry_ok))). Defined.

Lemma map_update_persistent_witness : exists m' s' es', updateMap 1 (key "b") (Some 2) one_entry = Some (m', s') /\ store_ok s' /\ map_ok s' m' None es' /\
  (forall k', get m' k' s' = Some (if is_ (key "b") k' then Some 2 else look k' [(key "a", 1)], s')) /\
  (forall m2 o2 es2, map_ok one_entry m2 o2 es2 -> map_ok s' m2 o2 es2).
Proof. exact (map_update_persistent one_entry 1 [(key "a", 1)] (key "b") (Some 2) (proj1 one_entry_ok) (proj2 one_entry_ok)). Defined.

Lemma map_withMutations_witness : exists m' s' es', withMutations 1 (fun t => run_ops t [(key "b", Some 2)]) one_entry = Some (m', s') /\ store_ok s' /\ map_ok s' m' None es' /\
  (forall k, get m' k s' = Some (last_value k [(key "b", Some 2)] (look k [(key "a", 1)]), s')) /\
  (forall m2 o2 es2, map_ok one_entry m2 o2 es2 -> map_ok s' m2 o2 es2).
Proof.
  apply (map_withMutations one_entry 1 [(key "a", 1)] [(key "b", Some 2)] (proj1 one_entry_ok) (proj2 one_entry_ok)). left. by repeat constructor.
Defined.

Lemma Map_last_witness : exists m s', Map [(key "a", 1); (key "a", 2)] start = Some (m, s') /\ store_ok s' /\
  (forall k, get m k s' = Some (last_value k (map (fun e => (e.1, Some e.2)) [(key "a", 1); (key "a", 2)]) None, s')) /\
  (forall m2 o2 es2, map_ok start m2 o2 es2 -> map_ok s' m2 o2 es2).
Proof. exact (Map_last start [(key "a", 1); (key "a", 2)] start_ok). Defined.

(** ** A removal among colliding keys *)

(** "Aa" and "BB" have the same hash. *)
Definition ten_entries : list (prim * Z) :=
  [(key "Aa", 1); (key "BB", 2); (key "c", 3); (key "d", 4); (key "e", 5); (key "f", 6); (key "g", 7); (key "h", 8); (key "i", 9); (key "j", 10)].

(** The value of "BB" in the map of the ten entries, before and after a copy of the map
    is changed in [withMutations]. *)
Definition value_before_after : option (option Z * option Z) :=
  match Map ten_entries start with
  | Some (m, s) =>
      match get m (key "BB") s, withMutations m (fun t => run_ops t [(key "Aa", None); (key "BB", Some 777)]) s with
      | Some (v, _), Some (_, s') => match get m (key "BB") s' with Some (v', _) => Some (v, v') | None => None end
      | _, _ => None
      end
  | None => None
  end.

(** [withMutations] can change the map it is called on.  A [remove] that leaves one
    entry of a HashCollisionNode puts this entry in a ValueNode of the mutation, and the
    next [set] writes into the entry, which the old map shares. *)
Theorem withMutations_changes_original : value_before_after = Some (Some 2, Some 777).
Proof. vm_compute. reflexivity. Qed.

End ImmutableMapOk.
