(* ===== verification/ImmutableIter.v ===== *)
(** * Immutable.Map: iteration

    That [__iterate] calls its function on the entries of the map in order until it says
    stop, and that the iterator of the map gives the same entries and ends. *)

From S2P Require Import Prelude.
From S2P Require Import JsString.
From S2P Require Import ImmutableMap.
From S2P Require Import ImmutableBits.
From S2P Require Import ImmutableTrie.
From S2P Require Import ImmutableUpdate.
From S2P Require Import ImmutableRoot.
From S2P Require Import ImmutableHash.
From S2P Require Import ImmutableMapOk.
From Stdlib Require Import String.
From stdpp Require Import base numbers list option.
Open Scope Z_scope.

Module ImmutableIter.
Import ImmutableMap ImmutableBits ImmutableTrie ImmutableUpdate ImmutableRoot ImmutableMapOk.

Section Iter.
Context {K V : Type} `{KeyLaws K} `{SameLaws V}.
Abbreviation store := (@store K V).
Abbreviation M := (@M K V).

Lemma ordered_app {A} rev (a b : list A) : ordered rev (a ++ b) = if rev : bool then ordered rev b ++ ordered rev a else ordered rev a ++ ordered rev b.
Proof. destruct rev; [apply rev_app_distr|done]. Qed.

Lemma elem_ordered {A} rev (l : list A) x : x ∈ ordered rev l -> x ∈ l.
Proof. destruct rev; [|done]. cbn. by rewrite !list_elem_of_In, <- in_rev. Qed.

Lemma ordered_map {A B} rev (f : A -> B) l : ordered rev (f <$> l) = f <$> ordered rev l.
Proof. destruct rev; [|done]. symmetry. apply map_rev. Qed.

Lemma ents_at_ordered rev (s : store) cs : ents_at s (ordered rev cs) = ordered rev (ents_at s cs).
Proof.
  destruct rev; [|done]. induction cs as [|c cs IH]; [done|]. change (c :: cs) with ([c] ++ cs).
  rewrite ordered_app, !ents_at_app, ordered_app, IH. f_equal. unfold ents_at. cbn. by destruct (entries s !! c).
Qed.

(** The children of an inner node, as they are in its array. *)
Definition kids (i : inner) (slots : list (option tree)) : list (option tree) :=
  match i with Bitmap _ => Some <$> children slots | Counted _ => slots end.

Lemma kids_array i o slots : exists f, phys i o slots = f (option_map root <$> kids i slots) /\
  match i with Bitmap bm => f = BitmapIndexedNode o bm | Counted n => f = HashArrayMapNode o n end.
Proof. destruct i as [bm|n]; cbn; eexists; (split; [|done]); [|done]. by rewrite <- list_fmap_compose. Qed.

Lemma kids_cells i slots : flat_map (oapp cells) (kids i slots) = flat_map (oapp cells) slots.
Proof.
  destruct i; cbn; [|done]. rewrite (flat_children cells slots). induction (children slots) as [|t l IH]; [done|]. cbn. by rewrite <- IH.
Qed.

Lemma kids_elem i slots t : Some t ∈ kids i slots -> Some t ∈ slots.
Proof.
  destruct i; cbn; [|done]. rewrite list_elem_of_fmap. intros (t' & [= <-] & Hin). apply list_elem_of_omap in Hin as (x & Hx & ->). done.
Qed.

(** The entries of the children, in the order of the iteration. *)
Definition kid_ents (s : store) (rev : bool) (l : list (option tree)) : list (K * V) :=
  flat_map (fun c => ordered rev (oents s c)) l.

Lemma kid_ents_ordered s rev l : kid_ents s rev (ordered rev l) = ordered rev (ents_at s (flat_map (oapp cells) l)).
Proof.
  unfold kid_ents. induction l as [|c l IH]; [by destruct rev|]. cbn [flat_map]. rewrite ents_at_app, ordered_app, <- IH.
  change (c :: l) with ([c] ++ l). rewrite ordered_app. destruct rev; rewrite List.flat_map_app; cbn; by rewrite app_nil_r.
Qed.

(** ** iterate *)

Section Fold.
Context {S : Type} (f : S -> K * V -> S * bool).

(** The calls of the function, until one returns false. *)
Fixpoint fold_until (es : list (K * V)) (x : S) : S * bool :=
  match es with
  | [] => (x, true)
  | e :: es => let '(x, go) := f x e in if go then fold_until es x else (x, false)
  end.

Lemma fold_until_app a b x : fold_until (a ++ b) x = let '(x, go) := fold_until a x in if go then fold_until b x else (x, false).
Proof. revert x. induction a as [|e a IH]; intros x; [done|]. cbn. destruct (f x e) as [x' []]; [apply IH|done]. Qed.

(** A callback that does not touch the maps. *)
Context (fn : S -> K * V -> M (S * bool)) (Hfn : forall x e s, fn x e s = Some (f x e, s)).

Lemma iterate_entries_ok s cs x : (forall c, c ∈ cs -> is_Some (entries s !! c)) ->
  iterate_entries fn cs x s = Some (fold_until (ents_at s cs) x, s).
Proof.
  revert x. induction cs as [|c cs IH]; intros x Hc; [done|]. cbn [iterate_entries]. destruct (Hc c ltac:(by left)) as [e He].
  rewrite (ents_at_cons _ _ _ _ He). unfold bind at 1, get_entry. rewrite He. unfold bind. rewrite Hfn. cbn. destruct (f x e) as [x' []]; [|done].
  apply IH. intros; apply Hc; by right.
Qed.

Lemma iterate_nodes_ok s iter rev l x : (forall t x, Some t ∈ l -> iter (root t) x s = Some (fold_until (ordered rev (ents s t)) x, s)) ->
  iterate_nodes iter (option_map root <$> l) x s = Some (fold_until (kid_ents s rev l) x, s).
Proof.
  revert x. induction l as [|c l IH]; intros x Hl; [done|]. rewrite fmap_cons. unfold kid_ents. cbn [flat_map iterate_nodes option_map].
  assert (forall x, iterate_nodes iter (option_map root <$> l) x s = Some (fold_until (kid_ents s rev l) x, s)) as IH'.
  { intros x'. apply IH. intros; apply Hl; by right. }
  destruct c as [t|]; cbn [option_map].
  - unfold bind. rewrite (Hl t x ltac:(by left)), fold_until_app. cbn. unfold oents, ents. cbn [oapp].
    destruct (fold_until _ x) as [x' []]; [apply IH'|done].
  - unfold oents, ents_at. cbn. destruct rev; apply IH'.
Qed.

Lemma node_iterate_ok rev fuel : forall s t shift p x, wf s shift p t -> shift <= 35 -> 40 - shift <= 5 * Z.of_nat fuel ->
  node_iterate fn fuel rev (root t) x s = Some (fold_until (ordered rev (ents s t)) x, s).
Proof.
  induction fuel as [|fuel IH]; intros s t shift p x Hwf Hs Hf; [lia|]. pose proof Hwf as Hwf0.
  destruct Hwf as [shift p a o h c Ha (k & v & Hc & _) _|shift p a o h cs Ha _ _ _ _|shift p a o i slots Hs' Hp (Hlen & Ha & _) Hch];
    cbn [node_iterate root]; unfold bind at 1, get_node; rewrite Ha.
  - unfold bind, get_entry. rewrite Hc. unfold ents. cbn [cells]. rewrite (ents_at_cons _ _ _ _ Hc). rewrite Hfn. destruct rev; cbn; by destruct (f x (k, v)) as [x' []].
  - rewrite iterate_entries_ok; [by rewrite ents_at_ordered|]. intros c Hc. eapply (wf_some _ _ _ _ _ Hwf0). by eapply elem_ordered.
  - assert (iterate_nodes (node_iterate fn fuel rev) (ordered rev (option_map root <$> kids i slots)) x s = Some (fold_until (ordered rev (ents s (Inner a o i slots))) x, s)) as Hn.
    { rewrite ordered_map, (iterate_nodes_ok s _ rev).
      - rewrite kid_ents_ordered, kids_cells. done.
      - intros t x' Hin. assert (Some t ∈ slots) as Hin'. { by eapply (kids_elem i), elem_ordered. }
        apply list_elem_of_lookup in Hin' as [j Hj]. eapply IH; [by apply Hch|lia|lia]. }
    destruct i; cbn [phys kids] in *; [rewrite <- list_fmap_compose in Hn|]; exact Hn.
Qed.

Lemma root_iterate_ok rev s r x : root_ok s r -> node_iterate fn depth rev (rroot r) x s = Some (fold_until (ordered rev (rents s r)) x, s).
Proof.
  intros (Hwf & _). destruct r as [a o cs|t].
  - destruct Hwf as (Ha & Hall & _). unfold depth. cbn [node_iterate rroot]. unfold bind at 1, get_node. rewrite Ha.
    rewrite iterate_entries_ok; [unfold rents; by rewrite ents_at_ordered|]. intros c Hc. by eapply Hall, elem_ordered.
  - eapply node_iterate_ok; [exact Hwf|lia|]. unfold depth. lia.
Qed.

End Fold.

(** ** The iterator *)

(** What a node on the stack still has to give, and an upper bound of its rounds. *)
Definition frame_ents (s : store) (rev : bool) (r : rtree) (o : nat) : list (K * V) :=
  match r with
  | RArray _ _ cs | RTrie (Coll _ _ _ cs) => drop o (ordered rev (ents_at s cs))
  | RTrie (Leaf _ _ _ c) => if (o =? 0)%nat then ents_at s [c] else []
  | RTrie (Inner _ _ i slots) => kid_ents s rev (drop o (ordered rev (kids i slots)))
  end.

Fixpoint tree_rounds (t : tree) : nat :=
  match t with
  | Leaf _ _ _ _ => 2
  | Coll _ _ _ cs => S (length cs)
  | Inner _ _ _ slots => S (list_sum (map (fun c => match c with Some t => S (tree_rounds t) | None => 1%nat end) slots))
  end.
Definition kid_rounds (c : option tree) : nat := match c with Some t => S (tree_rounds t) | None => 1%nat end.

Definition frame_rounds (rev : bool) (r : rtree) (o : nat) : nat :=
  match r with
  | RArray _ _ cs | RTrie (Coll _ _ _ cs) => S (length cs - o)
  | RTrie (Leaf _ _ _ _) => S (1 - o)
  | RTrie (Inner _ _ i slots) => S (list_sum (map kid_rounds (drop o (ordered rev (kids i slots)))))
  end.

Definition frame_ok (s : store) (r : rtree) : Prop :=
  match r with RArray _ _ _ => wf_root s r | RTrie t => exists shift p, wf s shift p t end.

(** A stack of the nodes. *)
Definition of_frames (l : list (rtree * nat)) : stack := map (fun g => (rroot g.1, g.2)) l.
Definition rest (s : store) (rev : bool) (l : list (rtree * nat)) : list (K * V) := flat_map (fun g => frame_ents s rev g.1 g.2) l.
Definition rounds (rev : bool) (l : list (rtree * nat)) : nat := list_sum (map (fun g => frame_rounds rev g.1 g.2) l).

Lemma rounds_cons rev r o gs : rounds rev ((r, o) :: gs) = (frame_rounds rev r o + rounds rev gs)%nat.
Proof. done. Qed.

Lemma list_sum_cons n l : list_sum (n :: l) = (n + list_sum l)%nat.
Proof. done. Qed.

Lemma list_sum_perm l l' : l ≡ₚ l' -> list_sum l = list_sum l'.
Proof. induction 1; unfold list_sum in *; cbn; lia. Qed.

Lemma ordered_perm {A} rev (l : list A) : ordered rev l ≡ₚ l.
Proof. destruct rev; [|done]. symmetry. apply Permutation_rev. Qed.

(** Entering a node takes no more rounds than the bound. *)
Lemma rounds_enter rev t : (frame_rounds rev (RTrie t) 0 <= tree_rounds t)%nat.
Proof.
  destruct t as [a o h c|a o h cs|a o i slots]; cbn; [lia|lia|]. apply le_n_S. rewrite drop_0.
  rewrite (list_sum_perm _ _ (Permutation_map kid_rounds (ordered_perm rev (kids i slots)))). change (map (fun c => _) slots) with (map kid_rounds slots).
  destruct i; cbn; [|done]. induction slots as [|[t|] slots IH]; [done| |]; unfold list_sum, children in *; cbn in *; lia.
Qed.

Lemma drop_lookup {A} (l : list A) o x : l !! o = Some x -> drop o l = x :: drop (S o) l.
Proof. apply drop_S. Qed.

(** The array of entries of a node, from the index on. *)
Lemma entries_step (s : store) rev cs o : (forall c, c ∈ cs -> is_Some (entries s !! c)) ->
  match ordered rev cs !! o with
  | Some c => exists e, entries s !! c = Some e /\ drop o (ordered rev (ents_at s cs)) = e :: drop (S o) (ordered rev (ents_at s cs)) /\ (o < length cs)%nat
  | None => drop o (ordered rev (ents_at s cs)) = []
  end.
Proof.
  intros Hall. rewrite <- ents_at_ordered.
  assert (forall c, c ∈ ordered rev cs -> is_Some (entries s !! c)) as Hall' by (intros c Hc; by eapply Hall, elem_ordered).
  rewrite <- (Permutation_length (ordered_perm rev cs)). clear Hall. revert o. induction (ordered rev cs) as [|c l IH]; intros o; [rewrite lookup_nil; by destruct o|].
  destruct (Hall' c ltac:(by left)) as [e He]. rewrite (ents_at_cons _ _ _ _ He). destruct o as [|o]; cbn.
  - exists e. split_and!; [done|done|lia].
  - specialize (IH ltac:(intros; apply Hall'; by right) o). destruct (l !! o) as [c'|]; [|done].
    destruct IH as (e' & He' & Hd & Hlt). exists e'. split_and!; [done|done|lia].
Qed.

Definition step_ok (s : store) (rev : bool) (g : rtree * nat) (gs : list (rtree * nat)) : Prop :=
  exists e gs', next_step rev (rroot g.1) g.2 (of_frames gs) s = Some ((e, of_frames gs'), s) /\ Forall (fun g => frame_ok s g.1) gs' /\
    (rounds rev gs' < rounds rev (g :: gs))%nat /\ rest s rev (g :: gs) = option_list e ++ rest s rev gs'.

Lemma step_entries (s : store) rev r cs o gs : Forall (fun g => frame_ok s g.1) gs -> frame_ok s r ->
  (forall c, c ∈ cs -> is_Some (entries s !! c)) -> (forall o, frame_ents s rev r o = drop o (ordered rev (ents_at s cs))) ->
  (forall o, frame_rounds rev r o = S (length cs - o)) ->
  (exists n, nodes s !! rroot r = Some n /\ ((exists o, n = ArrayMapNode o cs) \/ exists o h, n = HashCollisionNode o h cs)) ->
  step_ok s rev (r, o) gs.
Proof.
  intros Hgs Hr Hall He Hn (n & Hnode & Hkind). pose proof (entries_step s rev cs o Hall) as Hst. unfold step_ok, next_step. cbn [fst snd].
  assert (exists e gs', match ordered rev cs !! o with
      | Some a => let* e := get_entry a in ret (Some e, (rroot r, S o) :: of_frames gs)
      | None => ret (None, of_frames gs) end s = Some (e, of_frames gs', s) /\ Forall (fun g => frame_ok s g.1) gs' /\
    (rounds rev gs' < rounds rev ((r, o) :: gs))%nat /\ rest s rev ((r, o) :: gs) = option_list e ++ rest s rev gs') as (e & gs' & E & Hx).
  { destruct (ordered rev cs !! o) as [c|].
    - destruct Hst as (e & Hc & Hd & Hlt). exists (Some e), ((r, S o) :: gs). unfold bind, get_entry. rewrite Hc. split_and!; [done|by constructor| |].
      + rewrite !rounds_cons, !Hn. lia.
      + unfold rest. cbn [flat_map fst snd]. rewrite !He, Hd. done.
    - exists None, gs. split_and!; [done|done| |].
      + rewrite rounds_cons, Hn. lia.
      + unfold rest. cbn [flat_map fst snd]. by rewrite He, Hst. }
  exists e, gs'. split; [|done]. unfold bind at 1, get_node. rewrite Hnode. by destruct Hkind as [(o' & ->)|(o' & h & ->)].
Qed.

Lemma step_ok_all s rev r o gs : Forall (fun g => frame_ok s g.1) gs -> frame_ok s r -> step_ok s rev (r, o) gs.
Proof.
  intros Hgs Hr. pose proof Hr as Hr0. destruct r as [a ow cs|t].
  { destruct Hr as (Ha & Hall & _). eapply step_entries; try done. cbn. eauto. }
  destruct Hr as (shift & p & Hwf). pose proof Hwf as Hwf0.
  destruct Hwf as [shift p a ow h c Ha (k & v & Hc & _) _|shift p a ow h cs Ha _ _ _ _|shift p a ow i slots Hs' Hp (Hlen & Ha & _) Hch].
  - unfold step_ok, next_step. cbn [fst snd rroot root]. unfold bind at 1, get_node. rewrite Ha. destruct o as [|o]; cbn [Nat.eqb].
    + exists (Some (k, v)), ((RTrie (Leaf a ow h c), 1%nat) :: gs). unfold bind, get_entry. rewrite Hc. split_and!; [done|by constructor|rewrite !rounds_cons; cbn; lia|].
      unfold rest. cbn [flat_map fst snd frame_ents Nat.eqb]. by rewrite (ents_at_cons _ _ _ _ Hc).
    + exists None, gs. split_and!; [done|done|rewrite !rounds_cons; cbn; lia|done].
  - eapply step_entries; try done; [|eexists; split; [exact Ha|eauto]]. intros c Hc. by eapply (wf_some _ _ _ _ _ Hwf0).
  - unfold step_ok, next_step. cbn [fst snd rroot root]. unfold bind at 1, get_node. rewrite Ha.
    set (g := RTrie (Inner a ow i slots)).
    assert (exists e gs', match ordered rev (option_map root <$> kids i slots) !! o with
      | Some (Some i) => let* c := get_node i in
          match c with ValueNode _ _ e => let* e := get_entry e in ret (Some e, (a, S o) :: of_frames gs) | _ => ret (None, (i, 0%nat) :: (a, S o) :: of_frames gs) end
      | Some None => ret (None, (a, S o) :: of_frames gs)
      | None => ret (None, of_frames gs) end s = Some (e, of_frames gs', s) /\ Forall (fun g => frame_ok s g.1) gs' /\
      (rounds rev gs' < rounds rev ((g, o) :: gs))%nat /\ rest s rev ((g, o) :: gs) = option_list e ++ rest s rev gs') as (e & gs' & E & Hx).
    { rewrite ordered_map, list_lookup_fmap. unfold rest. cbn [flat_map fst snd]. rewrite !rounds_cons. cbn [frame_ents frame_rounds g].
      destruct (ordered rev (kids i slots) !! o) as [c|] eqn:Eo; cbn.
      2: { exists None, gs. apply lookup_ge_None in Eo. split_and!; [done|done|lia|]. by rewrite drop_ge. }
      rewrite (drop_S _ _ _ Eo). unfold kid_ents. cbn [flat_map map]. rewrite list_sum_cons.
      destruct c as [t|]; cbn [option_map kid_rounds].
      2: { exists None, ((g, S o) :: gs). split_and!; [done|by constructor|rewrite rounds_cons; cbn [frame_rounds kid_rounds tree_rounds g] in *; lia|]. unfold oents, ents_at. cbn. by destruct rev. }
      assert (Some t ∈ slots) as Hin by (eapply (kids_elem i), elem_ordered, list_elem_of_lookup_2; exact Eo).
      apply list_elem_of_lookup in Hin as [j Hj]. apply Hch in Hj as Hwt.
      pose proof (rounds_enter rev t) as Hent.
      destruct t as [a' o' h' c'|a' o' h' cs'|a' o' i' slots'].
      - inversion Hwt as [? ? ? ? ? ? Ha' (k & v & Hc' & _) _| |]; subst. unfold bind, get_node, get_entry. cbn [root]. rewrite Ha', Hc'.
        exists (Some (k, v)), ((g, S o) :: gs). split_and!; [done|by constructor|rewrite rounds_cons; cbn [frame_rounds kid_rounds tree_rounds g] in *; lia|].
        unfold oents. cbn [oapp cells]. rewrite (ents_at_cons _ _ _ _ Hc'). by destruct rev.
      - inversion Hwt as [|? ? ? ? ? ? Ha' _ _ _ _|]; subst. unfold bind, get_node. cbn [root]. rewrite Ha'.
        exists None, ((RTrie (Coll a' o' h' cs'), 0%nat) :: (g, S o) :: gs). split_and!; [done|constructor; [by eexists _, _|by constructor]|rewrite !rounds_cons; cbn [frame_rounds kid_rounds g] in *; lia|].
        cbn [flat_map fst snd frame_ents option_list app g]. by rewrite drop_0, <- app_assoc.
      - inversion Hwt as [| |? ? ? ? ? ? _ _ (_ & Ha' & _) _]; subst. unfold bind, get_node. cbn [root]. rewrite Ha'.
        exists None, ((RTrie (Inner a' o' i' slots'), 0%nat) :: (g, S o) :: gs). split_and!; [by destruct i'|constructor; [by eexists _, _|by constructor]|rewrite !rounds_cons; cbn [frame_rounds kid_rounds g] in *; lia|].
        cbn [flat_map fst snd frame_ents option_list app g]. rewrite drop_0, <- app_assoc, kid_ents_ordered, kids_cells. done. }
    exists e, gs'. split; [|done]. destruct i; cbn [phys kids] in *; [rewrite <- list_fmap_compose in E|]; exact E.
Qed.

Lemma next_ok s rev fuel : forall gs, Forall (fun g => frame_ok s g.1) gs -> (rounds rev gs <= fuel)%nat ->
  exists gs', next fuel rev (of_frames gs) s = Some ((head (rest s rev gs), of_frames gs'), s) /\ Forall (fun g => frame_ok s g.1) gs' /\
    rest s rev gs' = tail (rest s rev gs) /\ (rounds rev gs' <= rounds rev gs)%nat.
Proof.
  induction fuel as [|fuel IH]; intros gs Hgs Hr.
  - destruct gs as [|[r o] gs]; [by exists []|]. rewrite rounds_cons in Hr. destruct r as [|[]]; cbn in Hr; lia.
  - destruct gs as [|[r o] gs]; [by exists []|]. apply list.Forall_cons in Hgs as [Hg Hgs].
    destruct (step_ok_all s rev r o gs Hgs Hg) as (e & gs' & E & Hgs' & Hlt & Hrest). cbn [fst snd] in E. change (of_frames ((r, o) :: gs)) with ((rroot r, o) :: of_frames gs). cbn [next].
    unfold bind. rewrite E. destruct e as [e|]; cbn [option_list app] in Hrest.
    + exists gs'. rewrite Hrest. split_and!; [done|done|done|lia].
    + destruct (IH gs' Hgs' ltac:(lia)) as (gs2 & E2 & Hgs2 & Hrest2 & Hle2). exists gs2. rewrite Hrest. split_and!; [done|done|done|lia].
Qed.

(** A loop over the iterator that collects the entries; it fails when the fuel runs out. *)
Fixpoint drain (fuel rounds : nat) (rev : bool) (t : stack) : M (list (K * V)) :=
  match rounds with
  | O => fails
  | S rounds =>
      let* (e, t) := next fuel rev t in
      match e with
      | Some e => let* l := drain fuel rounds rev t in ret (e :: l)
      | None => ret []
      end
  end.

Lemma drain_ok s rev fuel n : forall gs, Forall (fun g => frame_ok s g.1) gs -> (rounds rev gs <= fuel)%nat -> (length (rest s rev gs) < n)%nat ->
  drain fuel n rev (of_frames gs) s = Some (rest s rev gs, s).
Proof.
  induction n as [|n IH]; intros gs Hgs Hf Hn; [lia|]. cbn [drain].
  destruct (next_ok s rev fuel gs Hgs Hf) as (gs' & E & Hgs' & Hrest & Hle). unfold bind at 1. rewrite E.
  destruct (rest s rev gs) as [|e l] eqn:Er; [done|]. cbn [head tail] in *. unfold bind. rewrite IH; [by rewrite Hrest|done|lia|].
  rewrite Hrest. cbn in Hn. lia.
Qed.

(** The iterator of a map ends, and gives the entries of the map, the different keys in
    the order of [__iterate], or in the opposite order when it is reversed. *)
Theorem map_iterator s m o es rev : map_ok s m o es ->
  distinct es /\ exists n, forall fuel, (n <= fuel)%nat -> (let* t := __iterator m in drain fuel fuel rev t) s = Some (ordered rev es, s).
Proof.
  intros Hm. split; [by eapply map_distinct|]. destruct Hm as (obj & Hobj & _ & _ & Hr).
  assert (exists gs, __iterator m s = Some (of_frames gs, s) /\ Forall (fun g => frame_ok s g.1) gs /\ rest s rev gs = ordered rev es) as (gs & E & Hgs & Hrest).
  { unfold __iterator, bind, get_map. rewrite Hobj. destruct (_root obj) as [a|].
    - destruct Hr as (r & <- & (Hwf & _) & <-). exists [(r, 0%nat)]. split; [done|]. split.
      + repeat constructor. destruct r as [|t]; [done|]. by exists 0, 0.
      + unfold rest. cbn [flat_map fst snd]. rewrite app_nil_r. unfold rents. destruct r as [a o' cs|[a o' h c|a o' h cs|a o' i slots]]; cbn [frame_ents rcells cells Nat.eqb].
        * by rewrite drop_0.
        * rewrite <- ents_at_ordered. by destruct rev.
        * by rewrite drop_0.
        * by rewrite drop_0, kid_ents_ordered, kids_cells.
    - rewrite Hr. exists []. by destruct rev. }
  exists (S (rounds rev gs + length (rest s rev gs))). intros fuel Hf. unfold bind. rewrite E, <- Hrest. apply drain_ok; [done|lia|lia].
Qed.

(** The number of calls. *)
Fixpoint calls {S} (f : S -> K * V -> S * bool) (es : list (K * V)) (x : S) : Z :=
  match es with
  | [] => 0
  | e :: es => 1 + let '(x, go) := f x e in if go then calls f es x else 0
  end.

Lemma fold_until_calls {S} (f : S -> K * V -> S * bool) es : forall x n,
  fold_until (fun sr e => let '(s, go) := f (fst sr) e in ((s, snd sr + 1), go)) es (x, n) =
  ((fst (fold_until f es x), n + calls f es x), snd (fold_until f es x)).
Proof.
  induction es as [|e es IH]; intros x n; cbn; [by rewrite Z.add_0_r|]. destruct (f x e) as [x' []]; cbn; [|done].
  rewrite IH. by replace (n + 1 + calls f es x') with (n + (1 + calls f es x')) by lia.
Qed.

(** [__iterate] calls the function on the entries of the map in order (or in the opposite
    order), until it returns false, and returns the number of the calls. *)
Theorem map_iterate {S} s m o es rev (f : S -> K * V -> S * bool) x : map_ok s m o es ->
  __iterate m (fun x e => ret (f x e)) rev x s = Some ((fst (fold_until f (ordered rev es) x), calls f (ordered rev es) x), s).
Proof.
  intros (obj & Hobj & _ & _ & Hr). unfold __iterate. unfold bind at 1, get_map. rewrite Hobj. destruct (_root obj) as [a|]; [|rewrite Hr; by destruct rev].
  destruct Hr as (r & <- & Hok & <-). unfold bind at 1. unfold bind at 1.
  rewrite (root_iterate_ok (fun sr e => let '(s, go) := f (fst sr) e in ((s, snd sr + 1), go))); [by rewrite fold_until_calls|  |done].
  intros [y n] e s'. unfold bind, ret. cbn. by destruct (f y e).
Qed.

End Iter.

Lemma map_iterator_witness : distinct [(key "a", 1)] /\
  exists n, forall fuel, (n <= fuel)%nat -> (let* t := __iterator 1 in drain fuel fuel false t) one_entry = Some ([(key "a", 1)], one_entry).
Proof. exact (map_iterator one_entry 1 None [(key "a", 1)] false (proj2 one_entry_ok)). Defined.

Lemma map_iterate_witness : __iterate 1 (fun x e => ret (x + snd e, true)) false 0 one_entry = Some ((1, 1), one_entry).
Proof. exact (map_iterate one_entry 1 None [(key "a", 1)] false (fun x e => (x + snd e, true)) 0 (proj2 one_entry_ok)). Defined.
End ImmutableIter.
