(* ===== verification/Regex.v ===== *)
(** * Regular expressions

    The anchored tests [/^...$/.test(s)] of the code, as expressions over code
    units with their language and an executable matcher by derivatives. *)

From S2P Require Import Prelude.
From stdpp Require Import base numbers list option.
Open Scope Z_scope.

Module Regex.

(** [RChr p] is a character class. *)
Inductive re :=
| RNone
| REps
| RChr (p : Z -> bool)
| RSeq (a b : re)
| RAlt (a b : re)
| RStar (a : re).

(** ** Syntax of the code's expressions *)

Definition one (c : Z) : re := RChr (Z.eqb c).
Definition range (a b : Z) (c : Z) : bool := (a <=? c) && (c <=? b).
Definition opt (r : re) : re := RAlt r REps.
Definition plus (r : re) : re := RSeq r (RStar r).
Definition literal (s : jsstring) : re := foldr (fun c r => RSeq (one c) r) REps s.
Definition choice (l : list re) : re := foldr RAlt RNone l.
Definition seqs (l : list re) : re := foldr RSeq REps l.

(** ** Matching *)

Fixpoint nullable (r : re) : bool :=
  match r with
  | RNone | RChr _ => false
  | REps | RStar _ => true
  | RSeq a b => nullable a && nullable b
  | RAlt a b => nullable a || nullable b
  end.

(** Constructors that keep derivatives small. *)
Definition mk_seq (a b : re) : re :=
  match a with
  | RNone => RNone
  | REps => b
  | _ => RSeq a b
  end.
Definition mk_alt (a b : re) : re :=
  match a, b with
  | RNone, _ => b
  | _, RNone => a
  | _, _ => RAlt a b
  end.

Fixpoint deriv (c : Z) (r : re) : re :=
  match r with
  | RNone | REps => RNone
  | RChr p => if p c then REps else RNone
  | RSeq a b =>
      if nullable a then mk_alt (mk_seq (deriv c a) b) (deriv c b) else mk_seq (deriv c a) b
  | RAlt a b => mk_alt (deriv c a) (deriv c b)
  | RStar a => mk_seq (deriv c a) (RStar a)
  end.

(** [/^r$/.test(s)]. *)
Fixpoint test (r : re) (s : jsstring) : bool :=
  match s with
  | [] => nullable r
  | c :: s' => test (deriv c r) s'
  end.

(** ** Languages *)

Inductive lang : re -> jsstring -> Prop :=
| l_eps : lang REps []
| l_chr p c : p c = true -> lang (RChr p) [c]
| l_seq a b s t : lang a s -> lang b t -> lang (RSeq a b) (s ++ t)
| l_alt_l a b s : lang a s -> lang (RAlt a b) s
| l_alt_r a b s : lang b s -> lang (RAlt a b) s
| l_star_nil a : lang (RStar a) []
| l_star_cons a s t : lang a s -> lang (RStar a) t -> lang (RStar a) (s ++ t).

#[local] Hint Constructors lang : core.

Lemma lang_seq_inv a b s : lang (RSeq a b) s <-> exists s1 s2, s = s1 ++ s2 /\ lang a s1 /\ lang b s2.
Proof.
  split.
  - inversion 1; subst; eauto.
  - intros (s1 & s2 & -> & ? & ?). auto.
Qed.

Lemma lang_alt_inv a b s : lang (RAlt a b) s <-> lang a s \/ lang b s.
Proof. split; [inversion 1; subst; auto|]. intros [?|?]; auto. Qed.

Lemma lang_none s : ~ lang RNone s.
Proof. inversion 1. Qed.

Lemma lang_eps_inv s : lang REps s <-> s = [].
Proof. split; [by inversion 1|]. intros ->. auto. Qed.

(** A non-empty word of a star starts with a non-empty word of its body. *)
Lemma lang_star_step a c s :
  lang (RStar a) (c :: s) <-> exists s1 s2, s = s1 ++ s2 /\ lang a (c :: s1) /\ lang (RStar a) s2.
Proof.
  split.
  - intros H. remember (RStar a) as r eqn:Er. remember (c :: s) as w eqn:Ew.
    revert Er c s Ew. induction H as [| | | | | |a' s1 s2 H1 _ H2 IH]; intros Er d s' Ew; try done.
    injection Er as ->. destruct s1 as [|x s1].
    + simpl in Ew. by apply IH.
    + injection Ew as -> <-. eauto.
  - intros (s1 & s2 & -> & H1 & H2). by apply (l_star_cons a (c :: s1) s2).
Qed.

Lemma lang_mk_seq a b s : lang (mk_seq a b) s <-> lang (RSeq a b) s.
Proof.
  unfold mk_seq. destruct a; try done.
  - split; [by inversion 1|]. rewrite lang_seq_inv. intros (? & ? & _ & H & _). by inversion H.
  - rewrite lang_seq_inv. split.
    + intros H. exists [], s. auto.
    + intros (s1 & s2 & -> & H1%lang_eps_inv & H2). by subst.
Qed.

Lemma lang_mk_alt a b s : lang (mk_alt a b) s <-> lang (RAlt a b) s.
Proof.
  rewrite lang_alt_inv. pose proof (lang_none s).
  unfold mk_alt. destruct a, b; try tauto; by rewrite lang_alt_inv.
Qed.

Lemma nullable_lang r : nullable r = true <-> lang r [].
Proof.
  induction r as [| |p|a IHa b IHb|a IHa b IHb|a _]; simpl.
  - split; [done|by inversion 1].
  - split; auto.
  - split; [done|by inversion 1].
  - rewrite andb_true_iff, IHa, IHb, lang_seq_inv. split.
    + intros [? ?]. by exists [], [].
    + intros (s1 & s2 & E & ? & ?). symmetry in E. apply app_nil in E as [-> ->]. done.
  - by rewrite orb_true_iff, IHa, IHb, lang_alt_inv.
  - split; auto.
Qed.

Lemma deriv_lang c r s : lang (deriv c r) s <-> lang r (c :: s).
Proof.
  revert s. induction r as [| |p|a IHa b IHb|a IHa b IHb|a IHa]; intros s; simpl.
  - split; by inversion 1.
  - split; by inversion 1.
  - destruct (p c) eqn:Hp.
    + rewrite lang_eps_inv. split; [intros ->; auto|]. by inversion 1.
    + split; [by inversion 1|]. inversion 1; congruence.
  - assert (lang (mk_seq (deriv c a) b) s <-> exists s1 s2, s = s1 ++ s2 /\ lang a (c :: s1) /\ lang b s2) as Hd.
    { rewrite lang_mk_seq, lang_seq_inv. split; intros (s1 & s2 & -> & H1%IHa & H2); eauto. }
    assert (lang (RSeq a b) (c :: s) <->
      (exists s1 s2, s = s1 ++ s2 /\ lang a (c :: s1) /\ lang b s2) \/ (lang a [] /\ lang b (c :: s))) as Hs.
    { rewrite lang_seq_inv. split.
      - intros ([|d s1] & s2 & E & H1 & H2); simplify_eq/=; eauto 10.
      - intros [(s1 & s2 & -> & H1 & H2)|[H1 H2]]; [by exists (c :: s1), s2|by exists [], (c :: s)]. }
    rewrite Hs. destruct (nullable a) eqn:Hn.
    + apply nullable_lang in Hn. rewrite lang_mk_alt, lang_alt_inv, Hd, IHb. tauto.
    + rewrite Hd. split; [by left|]. intros [?|[H%nullable_lang _]]; [done|]. by rewrite Hn in H.
  - by rewrite lang_mk_alt, !lang_alt_inv, IHa, IHb.
  - rewrite lang_mk_seq, lang_seq_inv, lang_star_step. split;
      intros (s1 & s2 & -> & H1%IHa & H2); eauto.
Qed.

(** The matcher decides the language. *)
Lemma test_lang r s : test r s = true <-> lang r s.
Proof.
  revert r. induction s as [|c s IH]; intros r; simpl; [apply nullable_lang|].
  by rewrite IH, deriv_lang.
Qed.

End Regex.
