(* ===== verification/JsNum.v ===== *)
(** * JavaScript numbers in texts

    Numbers as the YAML types read and print them: NaN, the infinities, minus
    zero, integers and decimal fractions.  A fraction is kept exactly, as a
    mantissa and a power of ten, where JavaScript rounds to the nearest double;
    for the texts of up to 15 digits this makes no difference.  [double] is the
    rounding, for comparisons, where it shows. *)

From S2P Require Import Prelude JsString.
From Stdlib Require Import String.
From stdpp Require Import base numbers list strings option.
Open Scope Z_scope.

(** [JFrac m e] is [m / 10 ^ e], with [e > 0] and [m] not a multiple of 10. *)
Inductive jsnum :=
| JNaN
| JInf (neg : bool)
| JNegZero
| JInt (z : Z)
| JFrac (m e : Z).

#[export] Instance jsnum_eq_dec : EqDecision jsnum.
Proof. solve_decision. Defined.

(** ** Making decimals *)

(** Drops trailing zeros of [m] while digits after the point are left. *)
Fixpoint strip_zeros (fuel : nat) (m e : Z) : Z * Z :=
  match fuel with
  | O => (m, e)
  | S fuel => if (0 <? e) && (m mod 10 =? 0) then strip_zeros fuel (m / 10) (e - 1) else (m, e)
  end.

(** [m / 10 ^ e]. *)
Definition decimal (m e : Z) : jsnum :=
  if e <=? 0 then JInt (m * 10 ^ (- e))
  else let '(m, e) := strip_zeros (Z.to_nat e) m e in
       if e =? 0 then JInt m else JFrac m e.

Definition jn_neg (n : jsnum) : jsnum :=
  match n with
  | JNaN => JNaN
  | JInf b => JInf (negb b)
  | JNegZero => JInt 0
  | JInt z => if z =? 0 then JNegZero else JInt (- z)
  | JFrac m e => JFrac (- m) e
  end.

(** Mantissa and exponent of a finite number. *)
Definition parts (n : jsnum) : option (Z * Z) :=
  match n with
  | JNegZero => Some (0, 0)
  | JInt z => Some (z, 0)
  | JFrac m e => Some (m, e)
  | _ => None
  end.

(** [a + b] and [a * k] for an integer [k > 0]; an infinite operand stays. *)
Definition jn_add (a b : jsnum) : jsnum :=
  match parts a, parts b with
  | Some (m1, e1), Some (m2, e2) =>
      let e := Z.max e1 e2 in decimal (m1 * 10 ^ (e - e1) + m2 * 10 ^ (e - e2)) e
  | Some _, None => b
  | None, Some _ => a
  | None, None => if decide (a = b) then a else JNaN
  end.

Definition jn_scale (a : jsnum) (k : Z) : jsnum :=
  match a with
  | JInt z => JInt (z * k)
  | JFrac m e => decimal (m * k) e
  | _ => a
  end.

Definition of_num (n : num) : jsnum :=
  match n with Num z => JInt z | _ => JNaN end.

(** ** parseFloat *)

(** The digits at the front and what follows them. *)
Fixpoint span_digits (s : jsstring) : jsstring * jsstring :=
  match s with
  | c :: s' => if (48 <=? c) && (c <=? 57)
               then let '(d, r) := span_digits s' in (c :: d, r) else ([], s)
  | [] => ([], [])
  end.

Definition digits_value (d : jsstring) : Z := default 0 (parse_digits 10 d None).

(** The exponent part, if there is one. *)
Definition parse_exponent (s : jsstring) : Z :=
  match s with
  | c :: s' =>
      if (c =? 101) || (c =? 69) then
        match s' with
        | 45 :: s'' => - digits_value (fst (span_digits s''))
        | 43 :: s'' => digits_value (fst (span_digits s''))
        | _ => digits_value (fst (span_digits s'))
        end
      else 0
  | [] => 0
  end.

(** An unsigned decimal literal at the front of the string. *)
Definition parse_unsigned_float (s : jsstring) : jsnum :=
  let '(i, r) := span_digits s in
  let '(f, r') := match r with
                  | 46 :: r1 => span_digits r1
                  | _ => ([], r)
                  end in
  if (zlen i =? 0) && (zlen f =? 0) then JNaN
  else decimal (digits_value (i ++ f)) (zlen f - parse_exponent r').

Definition is_prefix_of (p s : jsstring) : bool := bool_decide (take (length p) s = p).

Definition parseFloat (s : jsstring) : jsnum :=
  let s := trim_start s in
  let '(neg, s) :=
    match s with
    | 45 :: s' => (true, s')
    | 43 :: s' => (false, s')
    | _ => (false, s)
    end in
  let n := if is_prefix_of (js "Infinity") s then JInf false else parse_unsigned_float s in
  if neg then jn_neg n else n.

(** ** toString *)

(** [toString] of [m * 10 ^ (n - k)] with [k] digits [d], [m > 0]. *)
Definition show_decimal (d : jsstring) (n : Z) : jsstring :=
  let k := zlen d in
  if (k <=? n) && (n <=? 21) then d ++ replicate (Z.to_nat (n - k)) 48
  else if (0 <? n) && (n <=? 21) then take (Z.to_nat n) d ++ 46 :: drop (Z.to_nat n) d
  else if (-6 <? n) && (n <=? 0) then 48 :: 46 :: replicate (Z.to_nat (- n)) 48 ++ d
  else
    let e := n - 1 in
    let exp := 101 :: (if e <? 0 then 45 else 43) :: digits 10 (Z.abs e) in
    match d with
    | [c] => c :: exp
    | c :: d' => c :: 46 :: d' ++ exp
    | [] => exp
    end.

(** The significant digits of [m > 0] and the power of ten they stop at. *)
Definition significant (m : Z) : Z * Z := strip_zeros (S (Z.to_nat (Z.log2 m))) m (Z.log2 m + 1).

Definition show_positive (m e : Z) : jsstring :=
  let '(d, e') :=
    if e =? 0 then let '(d, e1) := significant m in (d, Z.log2 m + 1 - e1) else (m, - e) in
  let ds := digits 10 d in show_decimal ds (zlen ds + e').

Definition jn_to_string (n : jsnum) : jsstring :=
  match n with
  | JNaN => js "NaN"
  | JInf false => js "Infinity"
  | JInf true => js "-Infinity"
  | JNegZero => js "0"
  | JInt z => if z =? 0 then js "0"
              else if z <? 0 then 45 :: show_positive (- z) 0 else show_positive z 0
  | JFrac m e => if m <? 0 then 45 :: show_positive (- m) e else show_positive m e
  end.

Example show_ex :
  (jn_to_string (JInt 120), jn_to_string (JInt (-10 ^ 21)), jn_to_string (JFrac 125 2),
   jn_to_string (JFrac (-5) 1), jn_to_string (JFrac 15 8))
  = (js "120", js "-1e+21", js "1.25", js "-0.5", js "1.5e-7").
Proof. vm_compute. reflexivity. Qed.

Example parse_ex :
  (parseFloat (js "12.50e1x"), parseFloat (js ".5"), parseFloat (js "-0"), parseFloat (js "x"))
  = (JInt 125, JFrac 5 1, JNegZero, JNaN).
Proof. vm_compute. reflexivity. Qed.

(** ** Integers below [10 ^ 21] print as their digits *)

Lemma strip_zeros_spec fuel m e : 0 < m ->
  let '(d, e') := strip_zeros fuel m e in 0 < d /\ e' <= e /\ m = d * 10 ^ (e - e').
Proof.
  revert m e. induction fuel as [|fuel IH]; intros m e Hm; simpl.
  - rewrite Z.sub_diag. lia.
  - destruct ((0 <? e) && (m mod 10 =? 0)) eqn:Hc; [|rewrite Z.sub_diag; lia].
    apply andb_prop in Hc as [_ Hc]. apply Z.eqb_eq in Hc.
    assert (0 < m / 10) by dlia. specialize (IH (m / 10) (e - 1) H).
    destruct (strip_zeros fuel (m / 10) (e - 1)) as [d e']. destruct IH as (Hd & He & Hq).
    split; [done|]. split; [lia|]. replace (e - e') with (1 + (e - 1 - e')) by lia.
    rewrite Z.pow_add_r by lia. rewrite <- (Z.div_exact m 10) in Hc by lia. lia.
Qed.

Lemma show_positive_int m : 0 < m < 10 ^ 21 -> show_positive m 0 = digits 10 m.
Proof.
  intros Hm. unfold show_positive. cbn [Z.eqb]. unfold significant.
  pose proof (strip_zeros_spec (S (Z.to_nat (Z.log2 m))) m (Z.log2 m + 1)) as Hs.
  destruct (strip_zeros _ _ _) as [d e1]. destruct Hs as (Hd & He & Heq); [lia|].
  set (k := Z.log2 m + 1 - e1) in *. assert (0 <= k) by lia. clearbody k.
  assert (digits 10 m = digits 10 d ++ replicate (Z.to_nat k) 48) as Hdig.
  { rewrite Heq, <- digits_mul10 by done. rewrite Z2Nat.id by lia. done. }
  pose proof (digits_length 10 m 21 ltac:(lia) ltac:(lia) ltac:(lia)) as Hl. rewrite Hdig, length_app, length_replicate in Hl.
  unfold show_decimal. rewrite (proj2 (Z.leb_le _ _)) by lia.
  rewrite (proj2 (Z.leb_le _ 21)) by (unfold zlen; lia). simpl. rewrite Hdig. do 2 f_equal. lia.
Qed.

Lemma jn_to_string_int z : Z.abs z < 10 ^ 21 -> jn_to_string (JInt z) = num_to_string z 10.
Proof.
  intros Hz. unfold jn_to_string, num_to_string.
  destruct (Z.eqb_spec z 0) as [->|]; [done|].
  destruct (Z.ltb_spec z 0); by rewrite show_positive_int by lia.
Qed.

(** ** Doubles

    The double nearest to a number, ties to even, as the exact decimal that it is. *)

(** The integer nearest to [n / d]. *)
Definition round_div (n d : Z) : Z :=
  let q := n / d in
  let r := n mod d in
  if 2 * r <? d then q else if d <? 2 * r then q + 1 else if Z.even q then q else q + 1.

(** Of an integer [z >= 0]: 53 binary digits are kept. *)
Definition double_int (z : Z) : jsnum :=
  if z <? 2 ^ 53 then JInt z
  else
    let k := Z.log2 z - 52 in
    let v := round_div z (2 ^ k) * 2 ^ k in
    if 2 ^ 1024 <=? v then JInf false else JInt v.

(** The greatest [l] with [2 ^ l <= n / d], for [n] and [d] above 0. *)
Definition log2_ratio (n d : Z) : Z :=
  let l := Z.log2 n - Z.log2 d in
  if (if 0 <=? l then n <? d * 2 ^ l else n * 2 ^ (- l) <? d) then l - 1 else l.

(** Of [m / 10 ^ e], for [m > 0] and [e > 0]; the least double above 0 is [2 ^ -1074]. *)
Definition double_frac (m e : Z) : jsnum :=
  let d := 10 ^ e in
  let k := Z.max (log2_ratio m d - 52) (-1074) in
  if 0 <=? k then
    let v := round_div m (d * 2 ^ k) * 2 ^ k in
    if 2 ^ 1024 <=? v then JInf false else JInt v
  else decimal (round_div (m * 2 ^ (- k)) d * 5 ^ (- k)) (- k).

Definition double (n : jsnum) : jsnum :=
  match n with
  | JInt z => if z <? 0 then jn_neg (double_int (- z)) else double_int z
  | JFrac m e => if m <? 0 then jn_neg (double_frac (- m) e) else double_frac m e
  | n => n
  end.

Example double_ex :
  (double (JInt 9007199254740993), double (JInt (-9007199254740995)), double (JInt (10 ^ 309)), double (JFrac 15 1),
   bool_decide (double (JFrac 3 1) = double (JFrac 299999999999999999 18)), bool_decide (double (JFrac 3 1) = double (JFrac 30000000000000004 17)), double (JFrac 1 400))
  = (JInt 9007199254740992, JInt (-9007199254740996), JInf false, JFrac 15 1, true, false, JInt 0).
Proof. vm_compute. reflexivity. Qed.

Lemma round_div_ge n d : n / d <= round_div n d.
Proof. unfold round_div. repeat case_match; lia. Qed.

(** An integer beyond [2 ^ 53] stays there. *)
Lemma double_int_big z : 2 ^ 53 <= z -> double_int z = JInf false \/ exists v, double_int z = JInt v /\ 2 ^ 53 <= v.
Proof.
  intros Hz. unfold double_int. rewrite (proj2 (Z.ltb_ge _ _)) by lia. set (k := Z.log2 z - 52). destruct (_ <=? _); [by left|right]. eexists. split; [done|].
  assert (H53 : 53 <= Z.log2 z) by (apply Z.log2_le_pow2; lia). assert (Hk : 0 < 2 ^ k) by (apply Z.pow_pos_nonneg; lia).
  assert (Hq : 2 ^ 52 <= round_div z (2 ^ k)).
  { etransitivity; [|apply round_div_ge]. apply Z.div_le_lower_bound; [done|]. rewrite <- Z.pow_add_r by lia. replace (k + 52) with (Z.log2 z) by lia. apply Z.log2_spec. lia. }
  assert (H2 : 2 <= 2 ^ k) by (change 2 with (2 ^ 1) at 1; apply Z.pow_le_mono_r; lia). change (2 ^ 53) with (2 ^ 52 * 2). nia.
Qed.

Lemma double_small z : Z.abs z < 2 ^ 53 -> double (JInt z) = JInt z.
Proof.
  intros Hz. cbn [double]. unfold double_int. destruct (Z.ltb_spec z 0); rewrite (proj2 (Z.ltb_lt _ _)) by lia; [|done]. cbn [jn_neg].
  rewrite (proj2 (Z.eqb_neq _ _)) by lia. f_equal. lia.
Qed.
