(* ===== verification/YamlTypes.v ===== *)
(** * js-yaml: the types

    Models the YAML types of js-yaml in src/client/docs/swagger-ui/swagger-ui-bundle.js:
    null, bool, int, float, merge and binary (str, seq, map, omap, pairs and set are
    in YamlSchema, timestamp in YamlTime).  A type resolves a scalar text (or null,
    here [None]), constructs its value and represents a value as a text. *)

From S2P Require Import Prelude JsString JsNum Regex Base64.
From Stdlib Require Import String.
From stdpp Require Import base numbers list strings option.
Open Scope Z_scope.

Module YamlTypes.
Import Regex.

Definition is_text (e : jsstring) (l : list string) : bool := bool_decide (e ∈ map js l).

(** ** null and bool *)

Definition null_resolve (e : option jsstring) : bool :=
  match e with
  | None => true
  | Some e => ((zlen e =? 1) && is_text e ["~"]%string)
              || ((zlen e =? 4) && is_text e ["null"; "Null"; "NULL"]%string)
  end.

Definition null_represent (style : string) : option jsstring :=
  if bool_decide (style = "canonical"%string) then Some (js "~")
  else if bool_decide (style = "lowercase"%string) then Some (js "null")
  else if bool_decide (style = "uppercase"%string) then Some (js "NULL")
  else if bool_decide (style = "camelcase"%string) then Some (js "Null")
  else None.

Definition bool_resolve (e : option jsstring) : bool :=
  match e with
  | None => false
  | Some e => ((zlen e =? 4) && is_text e ["true"; "True"; "TRUE"]%string)
              || ((zlen e =? 5) && is_text e ["false"; "False"; "FALSE"]%string)
  end.

Definition bool_construct (e : jsstring) : bool := is_text e ["true"; "True"; "TRUE"]%string.

Definition bool_represent (style : string) (b : bool) : option jsstring :=
  if bool_decide (style = "lowercase"%string) then Some (js (if b then "true" else "false"))
  else if bool_decide (style = "uppercase"%string) then Some (js (if b then "TRUE" else "FALSE"))
  else if bool_decide (style = "camelcase"%string) then Some (js (if b then "True" else "False"))
  else None.

(** ** int *)

Definition is_oct (c : Z) : bool := (48 <=? c) && (c <=? 55).
Definition is_dec (c : Z) : bool := (48 <=? c) && (c <=? 57).
Definition is_bin (c : Z) : bool := (c =? 48) || (c =? 49).
Definition is_hex (c : Z) : bool :=
  ((48 <=? c) && (c <=? 57)) || ((65 <=? c) && (c <=? 70)) || ((97 <=? c) && (c <=? 102)).

(** The digit loops: skips underscores, [t] is the last character looked at and
    [u] whether a digit was seen; [None] is the early [return !1]. *)
Fixpoint scan (p : Z -> bool) (s : jsstring) (t : Z) (u : bool) : option (bool * Z) :=
  match s with
  | [] => Some (u, t)
  | c :: s' =>
      if c =? 95 then scan p s' c u
      else if p c then scan p s' c true
      else None
  end.

(** [return u && "_" !== t]. *)
Definition scan_ok (r : option (bool * Z)) : bool :=
  match r with Some (u, t) => u && negb (t =? 95) | None => false end.

(** The loop over decimal digits stops at a colon; what is left is returned too. *)
Fixpoint scan_decimal (s : jsstring) (t : Z) (u : bool) : option (bool * Z * jsstring) :=
  match s with
  | [] => Some (u, t, [])
  | c :: s' =>
      if c =? 95 then scan_decimal s' c u
      else if c =? 58 then Some (u, c, s)
      else if is_dec c then scan_decimal s' c true
      else None
  end.

(** [/^(:[0-5]?[0-9])+$/]. *)
Definition base60_re : re :=
  plus (seqs [one 58; opt (RChr (range 48 53)); RChr (range 48 57)]).

(** The text after an optional sign. *)
Definition unsign (e : jsstring) : jsstring :=
  match e with
  | c :: e' => if (c =? 45) || (c =? 43) then e' else e
  | [] => []
  end.

(** The tests on the text after the sign. *)
Definition int_resolve_unsigned (e : jsstring) : bool :=
  match e with
  | [] => false
  | t :: s =>
      if t =? 48 then
        match s with
        | [] => true
        | t :: s' =>
            if t =? 98 then scan_ok (scan is_bin s' t false)
            else if t =? 120 then scan_ok (scan is_hex s' t false)
            else scan_ok (scan is_oct s t false)
        end
      else if t =? 95 then false
      else match scan_decimal e t false with
           | None => false
           | Some (u, t, rest) =>
               negb (negb u || (t =? 95)) && (negb (t =? 58) || test base60_re rest)
           end
  end.

Definition int_resolve (e : option jsstring) : bool :=
  match e with
  | None => false
  | Some e => int_resolve_unsigned (unsign e)
  end.

(** The parts, last first, weighted by powers of 60. *)
Fixpoint weigh60 (l : list jsnum) (r : jsnum) (n : Z) : jsnum :=
  match l with
  | [] => r
  | e :: l' => weigh60 l' (jn_add r (jn_scale e n)) (n * 60)
  end.

Definition base60 (parse : jsstring -> jsnum) (s : jsstring) : jsnum :=
  weigh60 (reverse (map parse (split_on 58 s))) (JInt 0) 1.

Definition signed (neg : bool) (n : jsnum) : jsnum := if neg then jn_neg n else n.

(** [e.replace(/_/g, "")]. *)
Definition drop_underscores (e : jsstring) : jsstring := List.filter (fun c => negb (c =? 95)) e.

Definition starts_with (c : Z) (s : jsstring) : bool :=
  match s with x :: _ => x =? c | [] => false end.

(** The number of the text [r] after the sign. *)
Definition int_value (neg : bool) (r : jsstring) : jsnum :=
  if bool_decide (r = [48]) then JInt 0
  else if starts_with 48 r then
    if starts_with 98 (drop 1 r) then signed neg (of_num (parseInt (drop 2 r) 2))
    else if starts_with 120 (drop 1 r) then signed neg (of_num (parseInt r 16))
    else signed neg (of_num (parseInt r 8))
  else if bool_decide (58 ∈ r)
  then signed neg (base60 (fun p => of_num (parseInt p 10)) r)
  else signed neg (of_num (parseInt r 10)).

Definition int_construct (e : jsstring) : jsnum :=
  let r := drop_underscores e in int_value (starts_with 45 r) (unsign r).

(** [toUpperCase] on hexadecimal digits. *)
Definition upper (s : jsstring) : jsstring :=
  map (fun c => if (97 <=? c) && (c <=? 122) then c - 32 else c) s.

Inductive int_style := Binary | Octal | Decimal | Hexadecimal.

Definition int_represent (style : int_style) (e : Z) : jsstring :=
  match style with
  | Binary => if 0 <=? e then js "0b" ++ num_to_string e 2 else js "-0b" ++ drop 1 (num_to_string e 2)
  | Octal => if 0 <=? e then js "0" ++ num_to_string e 8 else js "-0" ++ drop 1 (num_to_string e 8)
  | Decimal => jn_to_string (JInt e)
  | Hexadecimal => if 0 <=? e then js "0x" ++ upper (num_to_string e 16)
                   else js "-0x" ++ drop 1 (upper (num_to_string e 16))
  end.

Definition int_predicate (n : jsnum) : bool := match n with JInt _ => true | _ => false end.

(** ** float *)

Definition digit_re : re := RChr (range 48 57).
Definition digits_us : re := RStar (RChr (fun c => range 48 57 c || (c =? 95))).
Definition sign_re : re := opt (RAlt (one 45) (one 43)).
Definition exponent_re : re := opt (seqs [RAlt (one 101) (one 69); sign_re; plus digit_re]).

(** YAML_FLOAT_PATTERN. *)
Definition float_re : re :=
  choice [
    seqs [sign_re; RAlt (one 48) (RSeq (RChr (range 49 57)) digits_us);
          opt (RSeq (one 46) digits_us); exponent_re];
    seqs [one 46; plus (RChr (fun c => range 48 57 c || (c =? 95))); exponent_re];
    seqs [sign_re; digit_re; digits_us;
          plus (seqs [one 58; opt (RChr (range 48 53)); digit_re]); one 46; digits_us];
    seqs [sign_re; one 46; choice (map (fun s => literal (js s)) ["inf"; "Inf"; "INF"]%string)];
    seqs [one 46; choice (map (fun s => literal (js s)) ["nan"; "NaN"; "NAN"]%string)]].

Definition float_resolve (e : option jsstring) : bool :=
  match e with
  | None => false
  | Some e => test float_re e && negb (bool_decide (zget e (zlen e - 1) = Some 95))
  end.

(** [toLowerCase] on the characters a float may have. *)
Definition lower_units (s : jsstring) : jsstring :=
  map (fun c => if (65 <=? c) && (c <=? 90) then c + 32 else c) s.

Definition float_construct (e : jsstring) : jsnum :=
  let t := lower_units (drop_underscores e) in
  let neg := starts_with 45 t in
  let t := unsign t in
  if is_text t [".inf"]%string then JInf neg
  else if is_text t [".nan"]%string then JNaN
  else if bool_decide (58 ∈ t) then signed neg (base60 parseFloat t)
  else signed neg (parseFloat t).

Definition float_predicate (n : jsnum) : bool := match n with JFrac _ _ | JNegZero | JNaN | JInf _ => true | JInt _ => false end.

(** [/^[-+]?[0-9]+e/.test(n) ? n.replace("e", ".e") : n]. *)
Fixpoint dot_exponent (s : jsstring) : jsstring :=
  match s with
  | 101 :: s' => 46 :: 101 :: s'
  | c :: s' => c :: dot_exponent s'
  | [] => []
  end.

Fixpoint digits_then_e (seen : bool) (s : jsstring) : bool :=
  match s with
  | c :: s' => if is_dec c then digits_then_e true s' else seen && (c =? 101)
  | [] => false
  end.

Definition float_represent (style : string) (n : jsnum) : jsstring :=
  let plain := let s := jn_to_string n in
               if digits_then_e false (unsign s) then dot_exponent s else s in
  let pick (l u c : string) :=
    if bool_decide (style = "lowercase"%string) then js l
    else if bool_decide (style = "uppercase"%string) then js u
    else if bool_decide (style = "camelcase"%string) then js c
    else plain in
  match n with
  | JNaN => pick ".nan" ".NAN" ".NaN"
  | JInf false => pick ".inf" ".INF" ".Inf"
  | JInf true => pick "-.inf" "-.INF" "-.Inf"
  | JNegZero => js "-0.0"
  | _ => plain
  end.

(** ** merge *)

Definition merge_resolve (e : option jsstring) : bool :=
  match e with None => true | Some e => is_text e ["<<"]%string end.

(** ** binary *)

Definition BASE64_MAP : jsstring := Base64.code ++ [61; 10; 13].

Fixpoint binary_bits (e : jsstring) (r : Z) : option Z :=
  match e with
  | [] => Some r
  | c :: e' =>
      let t := index_of c BASE64_MAP in
      if 64 <? t then binary_bits e' r
      else if t <? 0 then None
      else binary_bits e' (r + 6)
  end.

Definition binary_resolve (e : option jsstring) : bool :=
  match e with
  | None => false
  | Some e => match binary_bits e 0 with Some r => r mod 8 =? 0 | None => false end
  end.

(** The three bytes of a group. *)
Definition push3 (s : Z) : list Z :=
  [js_and (js_shr s 16) 255; js_and (js_shr s 8) 255; js_and 255 s].

Fixpoint binary_decode (o : jsstring) (t s : Z) (l : list Z) : Z * list Z :=
  match o with
  | [] => (s, l)
  | c :: o' =>
      let l := if (t mod 4 =? 0) && negb (t =? 0) then l ++ push3 s else l in
      binary_decode o' (t + 1) (js_or (js_shl s 6) (index_of c BASE64_MAP)) l
  end.

(** The bytes given to [Buffer.from]. *)
Definition binary_construct (e : jsstring) : list Z :=
  let o := List.filter (fun c => negb ((c =? 13) || (c =? 10) || (c =? 61))) e in
  let a := zlen o in
  let '(s, l) := binary_decode o 0 0 [] in
  let n := a mod 4 * 6 in
  if n =? 0 then l ++ push3 s
  else if n =? 18 then l ++ [js_and (js_shr s 10) 255; js_and (js_shr s 2) 255]
  else if n =? 12 then l ++ [js_and (js_shr s 4) 255]
  else l.

(** [u[i]] in a string concatenation. *)
Definition map_char (i : Z) : jsstring :=
  match zget BASE64_MAP i with Some c => [c] | None => js "undefined" end.

Definition push4 (o : Z) : jsstring :=
  map_char (js_and (js_shr o 18) 63) ++ map_char (js_and (js_shr o 12) 63)
  ++ map_char (js_and (js_shr o 6) 63) ++ map_char (js_and 63 o).

Fixpoint binary_encode (e : list Z) (t o : Z) (r : jsstring) : Z * jsstring :=
  match e with
  | [] => (o, r)
  | b :: e' =>
      let r := if (t mod 3 =? 0) && negb (t =? 0) then r ++ push4 o else r in
      binary_encode e' (t + 1) (js_shl o 8 + b) r
  end.

Definition binary_represent (e : list Z) : jsstring :=
  let a := zlen e in
  let '(o, r) := binary_encode e 0 0 [] in
  let n := a mod 3 in
  if n =? 0 then r ++ push4 o
  else if n =? 2 then
    r ++ map_char (js_and (js_shr o 10) 63) ++ map_char (js_and (js_shr o 4) 63)
      ++ map_char (js_and (js_shl o 2) 63) ++ map_char 64
  else
    r ++ map_char (js_and (js_shr o 2) 63) ++ map_char (js_and (js_shl o 4) 63)
      ++ map_char 64 ++ map_char 64.

Example types_ex :
  (int_resolve (Some (js "190:20:30")), int_construct (js "190:20:30"), int_construct (js "-0x1F"),
   int_construct (js "0b1010_0111"), float_resolve (Some (js "685_230.15")), float_construct (js "190:20:30.15"),
   float_construct (js "-.INF"), binary_construct (js "TWFuTQ=="), binary_represent [77; 97; 110; 77])
  = (true, JInt 685230, JInt (-31), JInt 167, true, JFrac 68523015 2, JInf true, [77; 97; 110; 77],
     js "TWFuTQ==").
Proof. vm_compute. reflexivity. Qed.

(** ** Facts about int *)

Definition digits_of (radix : Z) (s : jsstring) : Prop := Forall (fun c => is_Some (digit_in radix c)) s.

Lemma digit_class radix c :
  is_Some (digit_in radix c) -> radix <= 16 ->
  c <> 95 /\ c <> 58 /\ c <> 45 /\ c <> 43 /\ c <> 120 /\ (radix <= 8 -> c <> 98) /\
  (radix = 2 -> is_bin c = true) /\ (radix = 8 -> is_oct c = true) /\
  (radix = 10 -> is_dec c = true) /\ (radix = 16 -> is_hex c = true).
Proof.
  intros [d Hd] Hr. unfold digit_in, digit_val in Hd.
  assert (48 <= c <= 57 /\ c - 48 < radix \/ 97 <= c <= 122 /\ c - 87 < radix \/ 65 <= c <= 90 /\ c - 55 < radix) as Hc
    by (repeat case_match; simplify_eq; lia).
  unfold is_bin, is_oct, is_dec, is_hex. split_and!; lia.
Qed.

(** A non-empty text of digits passes the loop. *)
Lemma scan_digits (p : Z -> bool) s t u :
  Forall (fun c => p c = true /\ c <> 95) s -> s <> [] -> scan_ok (scan p s t u) = true.
Proof.
  intros Hs Hne. revert t u Hne. induction Hs as [|c s [Hp Hc] Hs IH]; intros t u Hne; [done|].
  simpl. rewrite (proj2 (Z.eqb_neq c 95)), Hp by done. destruct s as [|c' s]; [|by apply IH].
  simpl. by rewrite (proj2 (Z.eqb_neq c 95)).
Qed.

(** What passed the loop has digits once the underscores are dropped. *)
Lemma scan_digits_inv (p : Z -> bool) s t u :
  scan_ok (scan p s t u) = true ->
  Forall (fun c => p c = true) (drop_underscores s) /\ (u = false -> drop_underscores s <> []).
Proof.
  revert t u. induction s as [|c s IH]; intros t u; simpl.
  { intros H. split; [constructor|]. by intros ->. }
  destruct (Z.eqb_spec c 95); simpl; [apply IH|]. destruct (p c) eqn:Hp; [|done].
  intros H. destruct (IH _ _ H) as [IH1 _]. split; [by constructor|done].
Qed.

Lemma drop_underscores_id s : Forall (fun c => c <> 95) s -> drop_underscores s = s.
Proof.
  induction 1 as [|c s Hc _ IH]; [done|]. simpl. rewrite (proj2 (Z.eqb_neq c 95)) by done.
  simpl. by f_equal.
Qed.

Lemma unsign_digits s : Forall (fun c => c <> 45 /\ c <> 43) s -> unsign s = s.
Proof.
  destruct 1 as [|c s [H1 H2] _]; [done|]. simpl.
  by rewrite (proj2 (Z.eqb_neq c 45)), (proj2 (Z.eqb_neq c 43)).
Qed.

(** The text of a natural number in a style. *)
Definition int_body (style : int_style) (z : Z) : jsstring :=
  match style with
  | Binary => 48 :: 98 :: digits 2 z
  | Octal => 48 :: digits 8 z
  | Decimal => digits 10 z
  | Hexadecimal => 48 :: 120 :: upper (digits 16 z)
  end.

Lemma int_represent_body style z : Z.abs z < 10 ^ 21 ->
  int_represent style z = if z <? 0 then 45 :: int_body style (- z) else int_body style z.
Proof.
  intros Hz. unfold int_represent. rewrite jn_to_string_int by done. unfold num_to_string. destruct (Z.ltb_spec z 0).
  - rewrite (proj2 (Z.leb_gt 0 z)) by done. by destruct style.
  - rewrite (proj2 (Z.leb_le 0 z)) by done. by destruct style.
Qed.

Lemma upper_digits s : digits_of 16 s -> digits_of 16 (upper s) /\
  forall acc, parse_digits 16 (upper s) acc = parse_digits 16 s acc.
Proof.
  induction 1 as [|c s Hc _ [IH1 IH2]]; [by split; [constructor|]|].
  assert (digit_in 16 (if (97 <=? c) && (c <=? 122) then c - 32 else c) = digit_in 16 c) as E.
  { destruct ((97 <=? c) && (c <=? 122)) eqn:Hl; [|done]. unfold digit_in, digit_val. rewrite Hl.
    replace ((48 <=? c - 32) && (c - 32 <=? 57)) with false by lia.
    replace ((97 <=? c - 32) && (c - 32 <=? 122)) with false by lia.
    replace ((65 <=? c - 32) && (c - 32 <=? 90)) with true by lia.
    replace ((48 <=? c) && (c <=? 57)) with false by lia.
    by replace (c - 32 - 55) with (c - 87) by lia. }
  split.
  - constructor; [by rewrite E|done].
  - intros acc. simpl. rewrite E. destruct (digit_in 16 c); [apply IH2|done].
Qed.

(** The digits of a positive number do not start with a zero. *)
Lemma digits_fuel_head radix fuel z :
  2 <= radix <= 36 -> 0 < z < 2 ^ Z.of_nat fuel ->
  exists c s, digits_fuel fuel radix z = c :: s /\ c <> 48.
Proof.
  intros Hr. revert z. induction fuel as [|fuel IH]; intros z Hz.
  { change (2 ^ Z.of_nat 0) with 1 in Hz. lia. }
  simpl. destruct (Z.ltb_spec z radix).
  - do 2 eexists. split; [done|]. unfold digit_char. destruct (Z.ltb_spec z 10); lia.
  - rewrite Nat2Z.inj_succ, Z.pow_succ_r in Hz by lia.
    destruct (IH (z / radix)) as (c & s & -> & Hc).
    + split; [apply Z.div_str_pos; lia|]. apply Z.div_lt_upper_bound; nia.
    + do 2 eexists. split; [done|done].
Qed.

Lemma digits_head radix z :
  2 <= radix <= 36 -> 0 < z -> exists c s, digits radix z = c :: s /\ c <> 48.
Proof.
  intros Hr Hz. apply digits_fuel_head; [done|]. split; [done|].
  rewrite Nat2Z.inj_succ, Z2Nat.id by apply Z.log2_nonneg. apply Z.log2_spec. lia.
Qed.

Lemma digits_plain radix z :
  2 <= radix <= 16 -> 0 <= z -> Forall (fun c => c <> 95 /\ c <> 58 /\ c <> 45 /\ c <> 43) (digits radix z).
Proof.
  intros Hr Hz. destruct (digits_spec radix z) as (Hd & _ & _); [lia|done|].
  eapply Forall_weaken; [apply Hd|]. intros c Hc. destruct (digit_class radix c) as (? & ? & ? & ? & _); [done|lia|done].
Qed.

(** A decimal text without colons or underscores passes the decimal loop. *)
Lemma scan_decimal_digits s t u :
  Forall (fun c => is_dec c = true) s -> s <> [] ->
  exists t', scan_decimal s t u = Some (true, t', []) /\ t' <> 95 /\ t' <> 58.
Proof.
  intros Hs. revert t u. induction Hs as [|c s Hc Hs IH]; intros t u Hne; [done|]. simpl.
  unfold is_dec in Hc. rewrite (proj2 (Z.eqb_neq c 95)), (proj2 (Z.eqb_neq c 58)) by lia.
  unfold is_dec at 1. rewrite Hc. destruct s as [|c' s]; [|by apply IH].
  exists c. simpl. split; [done|lia].
Qed.

Lemma int_body_resolve style z : 0 <= z -> int_resolve_unsigned (int_body style z) = true.
Proof.
  intros Hz. destruct style; cbn [int_body int_resolve_unsigned]; simpl Z.eqb; cbv iota.
  - destruct (digits_spec 2 z) as (Hd & Hne & _); [lia|done|]. apply scan_digits; [|done].
    eapply Forall_weaken; [apply Hd|]. intros c Hc. destruct (digit_class 2 c) as (? & _ & _ & _ & _ & _ & ? & _); auto; lia.
  - destruct (digits_spec 8 z) as (Hd & Hne & _); [lia|done|].
    destruct (digits 8 z) as [|c s] eqn:E; [done|].
    pose proof (Forall_inv Hd) as Hc.
    destruct (digit_class 8 c) as (_ & _ & _ & _ & H120 & H98 & _); [done|lia|].
    rewrite (proj2 (Z.eqb_neq c 98)), (proj2 (Z.eqb_neq c 120)) by (done || apply H98; lia).
    apply scan_digits; [|done]. eapply Forall_weaken; [apply Hd|]. intros c' Hc'.
    destruct (digit_class 8 c') as (? & _ & _ & _ & _ & _ & _ & ? & _); auto; lia.
  - destruct (decide (z = 0)) as [->|]; [done|].
    destruct (digits_spec 10 z) as (Hd & Hne & _); [lia|done|].
    assert (Forall (fun c => is_dec c = true) (digits 10 z)) as Hdec.
    { eapply Forall_weaken; [apply Hd|]. intros c' Hc'.
      destruct (digit_class 10 c') as (_ & _ & _ & _ & _ & _ & _ & _ & ? & _); auto; lia. }
    destruct (digits_head 10 z) as (c & s & E & Hc48); [lia..|].
    destruct (scan_decimal_digits (digits 10 z) c false) as (t' & Hs & H95 & H58); [done..|].
    pose proof (digits_plain 10 z) as Hp. rewrite E in *. simpl.
    destruct (Forall_inv (Hp ltac:(lia) Hz)) as (H1 & H2 & _).
    simpl in Hs. rewrite (proj2 (Z.eqb_neq c 48)), (proj2 (Z.eqb_neq c 95)), (proj2 (Z.eqb_neq c 58)) in * by done.
    rewrite Hs. by rewrite (proj2 (Z.eqb_neq t' 95)), (proj2 (Z.eqb_neq t' 58)).
  - destruct (digits_spec 16 z) as (Hd & Hne & _); [lia|done|].
    destruct (upper_digits (digits 16 z) Hd) as [Hu _]. apply scan_digits.
    + eapply Forall_weaken; [apply Hu|]. intros c Hc.
      destruct (digit_class 16 c) as (? & _ & _ & _ & _ & _ & _ & _ & _ & ?); auto; lia.
    + by destruct (digits 16 z).
Qed.

Lemma signed_int neg z : (neg = true -> 0 < z) -> signed neg (JInt z) = JInt (if neg then - z else z).
Proof.
  intros Hz. destruct neg; simpl; [|done]. by rewrite (proj2 (Z.eqb_neq z 0)) by (specialize (Hz eq_refl); lia).
Qed.

Lemma parse_leading_zero radix s :
  2 <= radix -> digits_of radix s -> s <> [] -> parse_digits radix (48 :: s) None = parse_digits radix s None.
Proof.
  intros Hr Hs Hne. destruct s as [|c s]; [done|]. pose proof (Forall_inv Hs) as [d Hd].
  assert (digit_in radix 48 = Some 0) as H0.
  { unfold digit_in. change (digit_val 48) with (Some 0). cbv iota beta.
    by rewrite (proj2 (Z.ltb_lt 0 radix)) by lia. }
  cbn [parse_digits]. rewrite H0. cbn [parse_digits]. by rewrite Hd.
Qed.

Lemma int_body_value style z neg :
  0 <= z -> (neg = true -> 0 < z) ->
  int_value neg (int_body style z) = JInt (if neg then - z else z).
Proof.
  intros Hz Hneg. rewrite <- (signed_int neg z) by done. unfold int_value. destruct style; simpl int_body.
  - destruct (digits_spec 2 z) as (Hd & Hne & Hp); [lia|done|].
    rewrite bool_decide_false by (by destruct (digits 2 z)).
    change (drop 2 (48 :: 98 :: digits 2 z)) with (digits 2 z). simpl.
    by destruct (parseInt_unsigned 2 (digits 2 z) z) as [-> _]; [lia|..].
  - destruct (digits_spec 8 z) as (Hd & Hne & Hp); [lia|done|].
    rewrite bool_decide_false by (by destruct (digits 8 z)).
    assert (starts_with 98 (digits 8 z) = false /\ starts_with 120 (digits 8 z) = false) as [H98 H120].
    { destruct (digits 8 z) as [|c s]; [done|]. pose proof (Forall_inv Hd) as Hc.
      destruct (digit_class 8 c) as (_ & _ & _ & _ & H120 & H98 & _); [done|lia|]. simpl.
      split; apply Z.eqb_neq; [apply H98; lia|done]. }
    change (drop 1 (48 :: digits 8 z)) with (digits 8 z). simpl starts_with at 1. rewrite H98, H120.
    destruct (parseInt_unsigned 8 (48 :: digits 8 z) z) as [-> _]; [lia| |done| |done].
    + constructor; [by eexists|done].
    + by rewrite parse_leading_zero.
  - destruct (decide (z = 0)) as [->|]; [by destruct neg; [specialize (Hneg eq_refl); lia|]|].
    destruct (digits_spec 10 z) as (Hd & Hne & Hp); [lia|done|].
    destruct (digits_head 10 z) as (c & s & E & Hc); [lia..|].
    rewrite bool_decide_false by (rewrite E; congruence).
    rewrite E at 1. simpl starts_with. rewrite (proj2 (Z.eqb_neq c 48)) by done.
    rewrite bool_decide_false; [by destruct (parseInt_unsigned 10 (digits 10 z) z) as [-> _]; [lia|..]|].
    intros Hin. pose proof (digits_plain 10 z ltac:(lia) Hz) as Hpl. rewrite Forall_forall in Hpl.
    apply list_elem_of_In in Hin. by destruct (Hpl 58 Hin) as (_ & ? & _).
  - destruct (digits_spec 16 z) as (Hd & Hne & Hp); [lia|done|].
    rewrite bool_decide_false by done. simpl starts_with. simpl drop. cbv iota.
    destruct (upper_digits _ Hd) as [Hu Hpu].
    assert (parseInt (48 :: 120 :: upper (digits 16 z)) 16 = Num z) as ->; [|done].
    unfold parseInt. simpl. rewrite Hpu, Hp. f_equal. lia.
Qed.

Lemma int_body_plain style z :
  0 <= z -> Forall (fun c => c <> 95) (int_body style z) /\
            Forall (fun c => c <> 45 /\ c <> 43) (int_body style z).
Proof.
  intros Hz. assert (forall radix, 2 <= radix <= 16 -> forall s, digits_of radix s ->
    Forall (fun c => c <> 95) s /\ Forall (fun c => c <> 45 /\ c <> 43) s) as H.
  { intros radix Hr s Hs. split; (eapply Forall_weaken; [apply Hs|]); intros c Hc;
      destruct (digit_class radix c Hc) as (? & ? & ? & ? & _); done || lia. }
  destruct style; simpl int_body.
  - destruct (H 2 ltac:(lia) (digits 2 z)); [apply digits_spec; lia|]. split; repeat (constructor; [done|]); done.
  - destruct (H 8 ltac:(lia) (digits 8 z)); [apply digits_spec; lia|]. split; repeat (constructor; [done|]); done.
  - apply (H 10); [lia|]. apply digits_spec; lia.
  - destruct (H 16 ltac:(lia) (upper (digits 16 z))); [apply upper_digits, digits_spec; lia|].
    split; repeat (constructor; [done|]); done.
Qed.

(** An integer that is exact as a number, printed in any of the four styles,
    resolves as an int and is constructed back. *)
Theorem yaml_int_roundtrip style z (Hz : Z.abs z <= 2 ^ 53) :
  int_resolve (Some (int_represent style z)) = true /\ int_construct (int_represent style z) = JInt z.
Proof.
  assert (Z.abs z < 10 ^ 21) as Hz' by lia. clear Hz.
  assert (forall z, 0 <= z -> int_resolve (Some (int_body style z)) = true /\
    int_resolve (Some (45 :: int_body style z)) = true /\
    int_construct (int_body style z) = JInt z /\
    (0 < z -> int_construct (45 :: int_body style z) = JInt (- z))) as Hbody.
  { clear z Hz'. intros z Hz. pose proof (int_body_resolve style z Hz) as Hr.
    pose proof (int_body_plain style z Hz) as [Hus Hsg].
    assert (unsign (int_body style z) = int_body style z) as Hu by (by apply unsign_digits).
    assert (drop_underscores (int_body style z) = int_body style z) as Hd by (by apply drop_underscores_id).
    assert (starts_with 45 (int_body style z) = false) as Hs
      by (destruct Hsg as [|c s [? ?] _]; [done|]; by apply Z.eqb_neq).
    unfold int_resolve, int_construct. split_and!.
    - by rewrite Hu.
    - done.
    - by rewrite Hd, Hs, Hu, (int_body_value style z false).
    - intros Hpos. simpl drop_underscores. rewrite Hd. simpl. by rewrite (int_body_value style z true). }
  rewrite int_represent_body by done. destruct (Z.ltb_spec z 0).
  - destruct (Hbody (- z)) as (_ & H1 & _ & H2); [lia|]. split; [done|]. rewrite H2 by lia. f_equal. lia.
  - by destruct (Hbody z) as (H1 & _ & H2 & _).
Qed.

Lemma yaml_int_roundtrip_witness :
  int_represent Hexadecimal (-255) = js "-0xFF" /\
  int_resolve (Some (int_represent Hexadecimal (-255))) = true /\
  int_construct (int_represent Hexadecimal (-255)) = JInt (-255).
Proof. split; [concrete|]. apply (yaml_int_roundtrip Hexadecimal (-255)). lia. Defined.

(** ** Resolved ints are numbers *)

(** A finite number with no fraction. *)
Definition integral (n : jsnum) : Prop := exists m, parts n = Some (m, 0).

Lemma integral_signed neg z : integral (signed neg (JInt z)).
Proof. destruct neg; simpl; [destruct (z =? 0)|]; by eexists. Qed.

Lemma parse_digits_total radix s acc :
  digits_of radix s -> s <> [] \/ is_Some acc -> exists z, parse_digits radix s acc = Some z.
Proof.
  intros Hs. revert acc. induction Hs as [|c s [d Hd] _ IH]; intros acc Hne; simpl.
  - destruct Hne as [?|[z ->]]; [done|by exists z].
  - rewrite Hd. apply IH. right. by eexists.
Qed.

Lemma parseInt_digits radix s :
  2 <= radix <= 36 -> digits_of radix s -> s <> [] -> exists z, parseInt s radix = Num z.
Proof.
  intros Hr Hs Hne. destruct (parse_digits_total radix s None) as [z Hz]; [done|by left|].
  exists z. by destruct (parseInt_unsigned radix s z) as [-> _].
Qed.

Lemma class_digits radix (p : Z -> bool) s :
  (forall c, p c = true -> is_Some (digit_in radix c)) -> Forall (fun c => p c = true) s -> digits_of radix s.
Proof. intros H Hs. eapply Forall_weaken; [apply Hs|]. apply H. Qed.

Lemma bin_digit c : is_bin c = true -> is_Some (digit_in 2 c).
Proof. unfold is_bin, digit_in, digit_val. intros. assert (c = 48 \/ c = 49) as [-> | ->] by lia; by eexists. Qed.

Lemma oct_digit c : is_oct c = true -> is_Some (digit_in 8 c).
Proof.
  unfold is_oct, digit_in, digit_val. intros H. replace ((48 <=? c) && (c <=? 57)) with true by lia.
  rewrite (proj2 (Z.ltb_lt (c - 48) 8)) by lia. by eexists.
Qed.

Lemma dec_digit c : is_dec c = true -> is_Some (digit_in 10 c).
Proof.
  unfold is_dec, digit_in, digit_val. intros H. rewrite H, (proj2 (Z.ltb_lt (c - 48) 10)) by lia. by eexists.
Qed.

Lemma hex_digit c : is_hex c = true -> is_Some (digit_in 16 c).
Proof.
  unfold is_hex, digit_in, digit_val. intros H.
  destruct ((48 <=? c) && (c <=? 57)) eqn:E1; [rewrite (proj2 (Z.ltb_lt _ 16)) by lia; by eexists|].
  destruct ((97 <=? c) && (c <=? 122)) eqn:E2; [rewrite (proj2 (Z.ltb_lt _ 16)) by lia; by eexists|].
  replace ((65 <=? c) && (c <=? 90)) with true by lia.
  rewrite (proj2 (Z.ltb_lt _ 16)) by lia. by eexists.
Qed.

(** What the decimal loop read, and what it left at a colon. *)
Lemma scan_decimal_inv s t u u' t' rest :
  scan_decimal s t u = Some (u', t', rest) ->
  exists d, s = d ++ rest /\ Forall (fun c => is_dec c = true) (drop_underscores d) /\
    (drop_underscores d = [] -> u' = u) /\ (rest = [] \/ starts_with 58 rest = true /\ t' = 58) /\
    (rest = [] -> t' = 58 -> d = [] /\ t = 58).
Proof.
  revert t u. induction s as [|c s IH]; intros t u H; simpl in H.
  { injection H as <- <- <-. exists []. split_and!; auto; by constructor. }
  destruct (Z.eqb_spec c 95) as [->|Hus].
  { destruct (IH _ _ H) as (d & -> & Hd & Hu & Hr & Hl). exists (95 :: d). simpl. split_and!; auto.
    intros Hn Ht. destruct (Hl Hn Ht); lia. }
  destruct (Z.eqb_spec c 58) as [->|Hc].
  { injection H as <- <- <-. exists []. split_and!; try done. by right. }
  destruct (is_dec c) eqn:Hd; [|done]. destruct (IH _ _ H) as (d & -> & Hds & Hu & Hr & Hl).
  exists (c :: d). simpl. rewrite (proj2 (Z.eqb_neq c 95)) by done. simpl. split_and!; [done|by constructor|done|done|].
  intros Hn Ht. destruct (Hl Hn Ht); lia.
Qed.

(** The text after the first colon: colons each followed by digits. *)
Lemma base60_parts s :
  test base60_re s = true ->
  exists parts, s = concat (map (cons 58) parts) /\ Forall (fun p => p <> [] /\ Forall (fun c => is_dec c = true) p) parts.
Proof.
  set (unit_re := seqs [one 58; opt (RChr (range 48 53)); RChr (range 48 57)]).
  assert (forall w, lang unit_re w -> exists p, w = 58 :: p /\ p <> [] /\ Forall (fun c => is_dec c = true) p) as Hunit.
  { intros w Hw. unfold unit_re in Hw. simpl in Hw.
    apply lang_seq_inv in Hw as (w1 & w2 & -> & H1 & Hw). inversion H1 as [|p c Hc| | | | |]; subst.
    apply lang_seq_inv in Hw as (w3 & w4 & -> & H3 & Hw).
    apply lang_seq_inv in Hw as (w5 & w6 & -> & H5 & H6%lang_eps_inv). subst w6.
    inversion H5 as [|p' c' Hc'| | | | |]; subst. apply Z.eqb_eq in Hc. subst c.
    assert (is_dec c' = true) as Hd by (unfold range in Hc'; unfold is_dec; lia).
    apply lang_alt_inv in H3 as [H3|H3%lang_eps_inv].
    - inversion H3 as [|p'' c'' Hc''| | | | |]; subst. exists [c''; c']. split; [done|]. split; [done|].
      unfold range in Hc''. constructor; [unfold is_dec; lia|]. by constructor.
    - subst w3. exists [c']. split; [done|]. split; [done|]. by constructor. }
  intros Ht. apply test_lang in Ht. unfold base60_re, plus in Ht. fold unit_re in Ht.
  apply lang_seq_inv in Ht as (s1 & s2 & -> & H1 & H2). destruct (Hunit s1 H1) as (p & -> & Hp).
  enough (exists parts, s2 = concat (map (cons 58) parts) /\ Forall (fun p => p <> [] /\ Forall (fun c => is_dec c = true) p) parts)
    as (parts & -> & Hparts) by (exists (p :: parts); split; [done|by constructor]).
  clear H1 Hp p. remember (RStar unit_re) as r eqn:Er. induction H2 as [| | | | |a|a w1 w2 Hw1 _ _ IH]; try done.
  - by exists [].
  - injection Er as ->. destruct (Hunit w1 Hw1) as (p & -> & Hp). destruct (IH eq_refl) as (parts & -> & Hparts).
    exists (p :: parts). split; [done|by constructor].
Qed.

Lemma no_colon p : Forall (fun c => c <> 58) p -> 58 ∉ p.
Proof. rewrite Forall_forall. intros H Hin%list_elem_of_In. by destruct (H 58 Hin). Qed.

Definition dec_part (p : jsstring) : Prop := p <> [] /\ Forall (fun c => is_dec c = true) p.

Lemma dec_no_colon p : Forall (fun c => is_dec c = true) p -> Forall (fun c => c <> 58 /\ c <> 95) p.
Proof. intros H. eapply Forall_weaken; [apply H|]. unfold is_dec. intros. lia. Qed.

Lemma split_on_parts p parts :
  dec_part p -> Forall dec_part parts ->
  split_on 58 (p ++ concat (map (cons 58) parts)) = p :: parts.
Proof.
  intros Hp Hps. revert p Hp. induction Hps as [|q parts Hq _ IH]; intros p [Hne Hp]; simpl.
  - rewrite app_nil_r. apply split_on_none, no_colon. eapply Forall_weaken; [by apply dec_no_colon|]. by intros ? [? ?].
  - rewrite split_on_app by (apply no_colon; eapply Forall_weaken; [by apply dec_no_colon|]; by intros ? [? ?]). by rewrite IH.
Qed.

Lemma weigh60_int l r n : Forall (fun x => exists z, x = JInt z) l -> exists z, weigh60 l (JInt r) n = JInt z.
Proof.
  intros Hl. revert r n. induction Hl as [|x l [z ->] _ IH]; intros r n; simpl; [by exists r|].
  unfold jn_add. simpl. apply IH.
Qed.

Lemma base60_int parts s :
  split_on 58 s = parts -> Forall dec_part parts -> exists z, base60 (fun p => of_num (parseInt p 10)) s = JInt z.
Proof.
  intros Hs Hps. unfold base60. rewrite Hs. apply weigh60_int, Forall_reverse, Forall_map.
  eapply Forall_weaken; [apply Hps|]. intros p [Hne Hp]. simpl.
  destruct (parseInt_digits 10 p) as [z ->]; [lia| |done|by exists z].
  by apply (class_digits 10 is_dec); [apply dec_digit|].
Qed.

Lemma drop_underscores_app s t : drop_underscores (s ++ t) = drop_underscores s ++ drop_underscores t.
Proof. apply List.filter_app. Qed.

Lemma parts_no_underscore parts :
  Forall dec_part parts -> Forall (fun c => c <> 95) (concat (map (cons 58) parts)).
Proof.
  induction 1 as [|p parts [_ Hp] _ IH]; simpl; [constructor|]. constructor; [done|].
  apply Forall_app. split; [|done]. eapply Forall_weaken; [by apply dec_no_colon|]. by intros ? [? ?].
Qed.

(** The decimal branch of [int_value]. *)
Lemma decimal_value neg t s :
  is_dec t = true -> t <> 48 -> int_resolve_unsigned (t :: s) = true ->
  integral (int_value neg (drop_underscores (t :: s))).
Proof.
  intros Ht H48 Hr. cbn [int_resolve_unsigned] in Hr. rewrite (proj2 (Z.eqb_neq t 48)) in Hr by done.
  destruct (Z.eqb_spec t 95); [done|].
  destruct (scan_decimal (t :: s) t false) as [[[u t'] rest]|] eqn:E; [|done].
  apply andb_true_iff in Hr as [Hu Hrest]. apply negb_true_iff, orb_false_iff in Hu as [Hu _].
  apply scan_decimal_inv in E as (d & Es & Hd & Hud & Hcase & Hl).
  assert (drop_underscores d <> []) as Hne by (intros Hn; rewrite (Hud Hn) in Hu; done).
  assert (exists d', drop_underscores d = t :: d') as [d' Hd'].
  { destruct d as [|c d]; [done|]. injection Es as <- _. simpl. rewrite (proj2 (Z.eqb_neq t 95)) by done. by eexists. }
  assert (exists parts, rest = concat (map (cons 58) parts) /\ Forall dec_part parts) as (parts & -> & Hps).
  { destruct Hcase as [->|[_ ->]]; [by exists []|]. by apply base60_parts. }
  assert (drop_underscores (t :: s) = drop_underscores d ++ concat (map (cons 58) parts)) as ->.
  { rewrite Es, drop_underscores_app, (drop_underscores_id (concat _)); [done|by apply parts_no_underscore]. }
  assert (exists d'', drop_underscores d ++ concat (map (cons 58) parts) = t :: d'') as [d'' Hd''] by (rewrite Hd'; by eexists).
  unfold int_value. rewrite bool_decide_false by (rewrite Hd''; congruence).
  rewrite Hd'' at 1. simpl starts_with. rewrite (proj2 (Z.eqb_neq t 48)) by done.
  case_bool_decide.
  - destruct (base60_int (drop_underscores d :: parts) (drop_underscores d ++ concat (map (cons 58) parts))) as [z ->].
    + by apply split_on_parts.
    + by constructor.
    + apply integral_signed.
  - destruct parts as [|p parts]; [|exfalso; apply H, list_elem_of_In, in_or_app; right; by left].
    simpl. rewrite app_nil_r. destruct (parseInt_digits 10 (drop_underscores d)) as [z ->]; [lia| |done|apply integral_signed].
    by apply (class_digits 10 is_dec); [apply dec_digit|].
Qed.

Lemma zero_value neg s :
  int_resolve_unsigned (48 :: s) = true -> integral (int_value neg (drop_underscores (48 :: s))).
Proof.
  intros Hr. cbn [int_resolve_unsigned] in Hr. simpl in Hr.
  change (drop_underscores (48 :: s)) with (48 :: drop_underscores s). unfold int_value.
  case_bool_decide; [by exists 0|]. simpl starts_with. cbv iota.
  change (drop 1 (48 :: drop_underscores s)) with (drop_underscores s).
  destruct s as [|t s]; [done|]. destruct (Z.eqb_spec t 98) as [->|H98].
  { apply scan_digits_inv in Hr as [Hd Hne]. change (drop_underscores (98 :: s)) with (98 :: drop_underscores s).
    simpl starts_with. cbv iota. change (drop 2 (48 :: 98 :: drop_underscores s)) with (drop_underscores s).
    destruct (parseInt_digits 2 (drop_underscores s)) as [z ->]; [lia| |auto|apply integral_signed].
    by apply (class_digits 2 is_bin); [apply bin_digit|]. }
  destruct (Z.eqb_spec t 120) as [->|H120].
  { apply scan_digits_inv in Hr as [Hd Hne]. change (drop_underscores (120 :: s)) with (120 :: drop_underscores s).
    simpl starts_with. cbv iota.
    destruct (parse_digits_total 16 (drop_underscores s) None) as [z Hz]; [by apply (class_digits 16 is_hex); [apply hex_digit|]|by left; apply Hne|].
    assert (parseInt (48 :: 120 :: drop_underscores s) 16 = Num (1 * z)) as -> by (unfold parseInt; simpl; by rewrite Hz).
    apply integral_signed. }
  apply scan_digits_inv in Hr as [Hd Hne].
  assert (forall c, is_oct c = false -> starts_with c (drop_underscores (t :: s)) = false) as Hst.
  { intros c Hc. destruct Hd as [|x f Hx _]; [done|]. simpl. apply Z.eqb_neq. congruence. }
  rewrite !Hst by done. destruct (parseInt_digits 8 (48 :: drop_underscores (t :: s))) as [z ->]; [lia| |done|apply integral_signed].
  constructor; [by eexists|]. by apply (class_digits 8 is_oct); [apply oct_digit|].
Qed.

(** Every text the int type resolves constructs a finite whole number, whatever
    its base, sign, underscores or sexagesimal parts: [parseInt] never fails on it. *)
Theorem yaml_int_total e : int_resolve (Some e) = true -> integral (int_construct e).
Proof.
  unfold int_resolve, int_construct. intros Hr.
  assert (forall t s neg, int_resolve_unsigned (t :: s) = true ->
    t <> 95 /\ t <> 45 /\ t <> 43 /\ integral (int_value neg (drop_underscores (t :: s)))) as Hbody.
  { intros t s neg H. destruct (decide (t = 48)) as [->|H48]; [split_and!; try done; by apply zero_value|].
    assert (is_dec t = true) as Ht.
    { cbn [int_resolve_unsigned] in H. rewrite (proj2 (Z.eqb_neq t 48)) in H by done.
      destruct (Z.eqb_spec t 95); [done|]. simpl in H. rewrite (proj2 (Z.eqb_neq t 95)) in H by done.
      destruct (t =? 58); [done|]. by destruct (is_dec t). }
    pose proof (decimal_value neg t s Ht H48 H). unfold is_dec in Ht. split_and!; try lia. done. }
  destruct e as [|c e]; [done|]. simpl unsign in Hr.
  destruct ((c =? 45) || (c =? 43)) eqn:Hsign.
  - destruct e as [|t s]; [done|]. destruct (Hbody t s (starts_with 45 (c :: drop_underscores (t :: s))) Hr) as (_ & _ & _ & Hi).
    assert (drop_underscores (c :: t :: s) = c :: drop_underscores (t :: s)) as ->
      by (simpl; by replace (c =? 95) with false by lia).
    cbn [unsign]. by rewrite Hsign.
  - destruct (Hbody c e (starts_with 45 (drop_underscores (c :: e))) Hr) as (H95 & H45 & H43 & Hi).
    assert (drop_underscores (c :: e) = c :: drop_underscores e) as E
      by (simpl; by rewrite (proj2 (Z.eqb_neq c 95))).
    assert (unsign (drop_underscores (c :: e)) = drop_underscores (c :: e)) as -> by (rewrite E; simpl; by rewrite Hsign).
    done.
Qed.

Lemma yaml_int_total_witness : integral (int_construct (js "-1_0:05")).
Proof. apply yaml_int_total. vm_compute. reflexivity. Defined.

(** ** binary *)

Definition int32 (z : Z) : Prop := - pow31 <= z < pow31.

(** Shifting bits in: the accumulator stays a 32-bit integer, and keeps the bits
    that matter. *)
Lemma shl_acc o k b :
  0 <= k <= 8 -> 0 <= b < 2 ^ k ->
  int32 (js_shl o k + b) /\ (exists q, js_shl o k + b = o * 2 ^ k + b + q * 16777216) /\
  js_or (js_shl o k) b = js_shl o k + b.
Proof.
  intros Hk Hb. unfold js_shl. rewrite (Z.mod_small k 32), Z.shiftl_mul_pow2 by lia.
  assert (1 <= 2 ^ k <= 256) as Hp by (split; [apply (Z.pow_le_mono_r 2 0 k)|apply (Z.pow_le_mono_r 2 k 8)]; lia).
  pose proof (to_int32_range (to_int32 o * 2 ^ k)) as Hr.
  assert (exists a, to_int32 (to_int32 o * 2 ^ k) = a * 2 ^ k) as [a Ha].
  { destruct (to_int32_eq (to_int32 o * 2 ^ k)) as [q ->].
    exists (to_int32 o + q * 2 ^ (32 - k)). rewrite Z.mul_add_distr_r. f_equal.
    rewrite <- Z.mul_assoc, <- Z.pow_add_r by lia. by replace (32 - k + k) with 32 by lia. }
  assert (pow31 = 2 ^ (31 - k) * 2 ^ k) as H31
    by (rewrite <- Z.pow_add_r by lia; by replace (31 - k + k) with 31 by lia).
  assert (int32 (to_int32 (to_int32 o * 2 ^ k) + b)) as Hi.
  { unfold int32. rewrite Ha, H31 in *. set (N := 2 ^ (31 - k)) in *. set (p := 2 ^ k) in *.
    assert (a < N) by (apply (Z.mul_lt_mono_pos_r p); lia).
    assert ((a + 1) * p <= N * p) by (apply Z.mul_le_mono_nonneg_r; lia). lia. }
  split; [done|]. split.
  - destruct (to_int32_eq (to_int32 o * 2 ^ k)) as [q1 ->]. destruct (to_int32_eq o) as [q2 ->].
    exists (q1 * 256 + q2 * 2 ^ k * 256). ring.
  - rewrite Ha in *. unfold js_or, int32 in *.
    rewrite !to_int32_small by (done || unfold pow31 in *; lia). apply lor_add; lia.
Qed.

Lemma field_div o w k : (exists q, o = w + q * 16777216) -> 0 <= k <= 18 -> int32 o ->
  js_and (js_shr o k) 63 = w / 2 ^ k mod 64.
Proof.
  intros [q Hq] Hk Ho. rewrite js_shr_div by (done || lia).
  rewrite (js_and_ones _ 6) by lia. change (2 ^ 6) with 64. subst o.
  replace (q * 16777216) with (q * 2 ^ (24 - k) * 2 ^ k)
    by (rewrite <- Z.mul_assoc, <- Z.pow_add_r by lia; by replace (24 - k + k) with 24 by lia).
  rewrite Z.div_add by (apply Z.pow_nonzero; lia).
  replace (24 - k) with (18 - k + 6) by lia. rewrite Z.pow_add_r by lia.
  rewrite Z.mul_assoc. apply Z.mod_add. lia.
Qed.

Lemma map_char_sextet i : 0 <= i < 64 -> map_char i = [Base64.sextet i].
Proof.
  intros Hi. apply (bool_decide_unpack (map_char i = [Base64.sextet i])).
  apply Is_true_true. revert i Hi. apply (forallb_below 64). vm_compute. reflexivity.
Qed.

Lemma field_char o w k : (exists q, o = w + q * 16777216) -> 0 <= k <= 18 -> int32 o ->
  map_char (js_and (js_shr o k) 63) = [Base64.sextet (w / 2 ^ k mod 64)].
Proof.
  intros Hq Hk Ho. rewrite (field_div o w k) by done. apply map_char_sextet. apply Z.mod_pos_bound. lia.
Qed.

Lemma push4_bytes o b0 b1 b2 :
  byte_ok b0 -> byte_ok b1 -> byte_ok b2 -> int32 o ->
  (exists q, o = b0 * 65536 + b1 * 256 + b2 + q * 16777216) -> push4 o = Base64.ref_encode [b0; b1; b2].
Proof.
  intros H0 H1 H2 Ho Hq. unfold push4. set (w := b0 * 65536 + b1 * 256 + b2) in *.
  rewrite !(field_char o w) by (done || lia).
  assert (map_char (js_and 63 o) = [Base64.sextet (w mod 64)]) as ->.
  { change (js_and 63 o) with (js_and (2 ^ 6 - 1) o). rewrite js_and_ones_l by lia. destruct Hq as [q ->]. change (2 ^ 6) with 64.
    rewrite map_char_sextet by (apply Z.mod_pos_bound; lia). do 2 f_equal.
    replace (q * 16777216) with (q * 262144 * 64) by lia. apply Z.mod_add. lia. }
  destruct (Base64.triple_sextets b0 b1 b2) as (E1 & E2 & E3 & E4); [done..|]. fold w in E1, E2, E3, E4.
  change (2 ^ 18) with 262144. change (2 ^ 12) with 4096. change (2 ^ 6) with 64.
  rewrite E1, E2, E3, E4. simpl. rewrite Z.mod_small; [done|]. unfold byte_ok in H0. dlia.
Qed.

Lemma encode_group b0 b1 b2 e t o r :
  byte_ok b0 -> byte_ok b1 -> byte_ok b2 -> t mod 3 = 0 ->
  exists o', binary_encode (b0 :: b1 :: b2 :: e) t o r
      = binary_encode e (t + 3) o' (if t =? 0 then r else r ++ push4 o) /\
    int32 o' /\ exists q, o' = b0 * 65536 + b1 * 256 + b2 + q * 16777216.
Proof.
  unfold byte_ok. intros H0 H1 H2 Ht.
  destruct (shl_acc o 8 b0) as (_ & [q0 E0] & _); [lia..|].
  destruct (shl_acc (js_shl o 8 + b0) 8 b1) as (_ & [q1 E1] & _); [lia..|].
  destruct (shl_acc (js_shl (js_shl o 8 + b0) 8 + b1) 8 b2) as (Hi & [q2 E2] & _); [lia..|].
  exists (js_shl (js_shl (js_shl o 8 + b0) 8 + b1) 8 + b2). split.
  - cbn [binary_encode]. rewrite Ht.
    rewrite (proj2 (Z.eqb_neq ((t + 1) mod 3) 0)), (proj2 (Z.eqb_neq ((t + 1 + 1) mod 3) 0)) by dlia.
    simpl andb. replace (t + 1 + 1 + 1) with (t + 3) by lia. by destruct (t =? 0).
  - split; [done|]. exists (q2 + 256 * q1 + 65536 * q0 + o). rewrite E2, E1, E0. ring.
Qed.

Lemma encode_triples ts t o r :
  bytes_ok ts -> zlen ts mod 3 = 0 -> t mod 3 = 0 -> 0 <= t -> ts <> [] \/ t <> 0 ->
  exists o' r', binary_encode ts t o r = (o', r') /\
    r' ++ push4 o' = (if t =? 0 then r else r ++ push4 o) ++ Base64.ref_encode ts.
Proof.
  intros Hb Hm. revert t o r Hb. pattern ts. apply Base64.triples_ind; [| |done]; clear ts Hm.
  - intros t o r _ Ht Ht0 [?|Hne]; [done|]. exists o, r. split; [done|].
    by rewrite (proj2 (Z.eqb_neq t 0)), app_nil_r by done.
  - intros b0 b1 b2 l IH t o r Hb Ht Ht0 _. rewrite !bytes_ok_cons in Hb. destruct Hb as (H0 & H1 & H2 & Hb).
    destruct (encode_group b0 b1 b2 l t o r) as (o1 & -> & Hi & Hq); [done..|].
    destruct (IH (t + 3) o1 (if t =? 0 then r else r ++ push4 o)) as (o' & r' & -> & Hr);
      [done|dlia|lia|right; lia|].
    exists o', r'. split; [done|]. rewrite Hr, (proj2 (Z.eqb_neq (t + 3) 0)) by lia.
    rewrite (push4_bytes o1 b0 b1 b2) by done. by rewrite <- app_assoc.
Qed.

Lemma binary_encode_app a b t o r :
  binary_encode (a ++ b) t o r = let '(o', r') := binary_encode a t o r in binary_encode b (t + zlen a) o' r'.
Proof.
  revert t o r. induction a as [|x a IH]; intros t o r; simpl.
  - unfold zlen. simpl. by rewrite Z.add_0_r.
  - rewrite IH. destruct (binary_encode a _ _ _). f_equal. unfold zlen. simpl. lia.
Qed.

(** What the loop has when it reaches the bytes after the last whole group. *)
Lemma encode_prefix ts tail :
  bytes_ok ts -> zlen ts mod 3 = 0 -> tail <> [] ->
  exists o, binary_encode (ts ++ tail) 0 0 [] =
    binary_encode (drop 1 tail) (zlen ts + 1) (js_shl o 8 + default 0 (head tail)) (Base64.ref_encode ts).
Proof.
  intros Hb Hm Hne. destruct tail as [|b tail]; [done|]. rewrite binary_encode_app. simpl drop. rewrite drop_0.
  destruct (decide (ts = [])) as [->|Hts].
  { exists 0. simpl. done. }
  destruct (encode_triples ts 0 0 []) as (o' & r' & -> & Hr); [done..|lia|by left|].
  exists o'. cbn [binary_encode head default]. rewrite Z.add_0_l, Hm.
  rewrite (proj2 (Z.eqb_neq (zlen ts) 0)) by (destruct ts; [done|unfold zlen; simpl; lia]).
  simpl andb. cbv iota. by rewrite Hr.
Qed.

Lemma low_bits o x k :
  (exists q, o = x + q * 16777216) -> 0 <= k <= 4 -> js_and (js_shl o k) 63 = (x * 2 ^ k) mod 64.
Proof.
  intros [q ->] Hk. rewrite (js_and_ones _ 6) by lia.
  destruct (shl_acc (x + q * 16777216) k 0) as (_ & [q' E] & _); [lia|split; [lia|apply Z.pow_pos_nonneg; lia]|].
  rewrite !Z.add_0_r in E. rewrite E. change (2 ^ 6) with 64.
  replace ((x + q * 16777216) * 2 ^ k + q' * 16777216) with (x * 2 ^ k + (q * 262144 * 2 ^ k + q' * 262144) * 64) by ring.
  apply Z.mod_add. lia.
Qed.

Lemma tail2_fields o x y :
  0 <= x < 256 -> 0 <= y < 256 ->
  ((o * 256 + x) * 256 + y) / 1024 mod 64 = x / 4 /\
  ((o * 256 + x) * 256 + y) / 16 mod 64 = x mod 4 * 16 + y / 16 /\
  (((o * 256 + x) * 256 + y) * 4) mod 64 = y mod 16 * 4.
Proof.
  intros Hx Hy. split_and!.
  - replace (((o * 256 + x) * 256 + y) / 1024) with (o * 64 + x / 4) by dlia. dlia.
  - replace (((o * 256 + x) * 256 + y) / 16) with (o * 4096 + x * 16 + y / 16) by dlia. dlia.
  - dlia.
Qed.

(** [represent] is the base64 encoding, except on no bytes at all. *)
Lemma binary_represent_ref b : bytes_ok b -> b <> [] -> binary_represent b = Base64.ref_encode b.
Proof.
  intros Hb Hne. unfold binary_represent. destruct (Base64.shape_of b) as [ts Hm|ts x Hm|ts x y Hm].
  - destruct (encode_triples ts 0 0 []) as (o' & r' & -> & Hr); [done..|lia|by left|].
    rewrite Hm. by rewrite Hr.
  - apply Forall_app in Hb as [Hts Hx]. apply bytes_ok_cons in Hx as [Hx _]. unfold byte_ok in Hx.
    destruct (encode_prefix ts [x]) as [o ->]; [done..|]. cbn [drop binary_encode head default].
    rewrite zlen_app. change (zlen [x]) with 1.
    replace ((zlen ts + 1) mod 3) with 1 by dlia. simpl Z.eqb. cbv iota.
    destruct (shl_acc o 8 x) as (Hi & Hq & _); [lia..|].
    rewrite (field_char _ (o * 2 ^ 8 + x) 2) by (done || lia). rewrite (low_bits _ (o * 2 ^ 8 + x) 4) by (done || lia).
    rewrite map_char_sextet by (apply Z.mod_pos_bound; lia).
    rewrite Base64.ref_encode_app by done. f_equal. simpl Base64.ref_encode.
    change (2 ^ 8) with 256. change (2 ^ 2) with 4. change (2 ^ 4) with 16.
    replace ((o * 256 + x) / 4 mod 64) with (x / 4) by dlia.
    by replace (((o * 256 + x) * 16) mod 64) with (x mod 4 * 16) by dlia.
  - apply Forall_app in Hb as [Hts Hx]. apply bytes_ok_cons in Hx as [Hx Hy]. apply bytes_ok_cons in Hy as [Hy _].
    unfold byte_ok in Hx, Hy.
    destruct (encode_prefix ts [x; y]) as [o ->]; [done..|]. cbn [drop binary_encode head default].
    rewrite zlen_app. change (zlen [x; y]) with 2.
    rewrite (proj2 (Z.eqb_neq ((zlen ts + 1) mod 3) 0)) by dlia. simpl andb. cbv iota.
    replace ((zlen ts + 2) mod 3) with 2 by dlia. simpl Z.eqb. cbv iota.
    destruct (shl_acc o 8 x) as (_ & [q0 E0] & _); [lia..|].
    destruct (shl_acc (js_shl o 8 + x) 8 y) as (Hi & [q1 E1] & _); [lia..|].
    set (w := (o * 256 + x) * 256 + y).
    assert (exists q, js_shl (js_shl o 8 + x) 8 + y = w + q * 16777216) as Hq
      by (exists (q1 + 256 * q0); rewrite E1, E0; unfold w; ring).
    rewrite !(field_char _ w) by (done || lia). rewrite (low_bits _ w 2) by (done || lia).
    rewrite map_char_sextet by (apply Z.mod_pos_bound; lia).
    rewrite Base64.ref_encode_app by done. f_equal. simpl Base64.ref_encode.
    change (2 ^ 10) with 1024. change (2 ^ 2) with 4. change (2 ^ 4) with 16. unfold w.
    by destruct (tail2_fields o x y) as (-> & -> & ->).
Qed.

Lemma index_sextet i : 0 <= i < 64 -> index_of (Base64.sextet i) BASE64_MAP = i.
Proof.
  intros Hi. apply Z.eqb_eq. revert i Hi. apply (forallb_below 64). vm_compute. reflexivity.
Qed.

Lemma byte_field o w k : (exists q, o = w + q * 16777216) -> 0 <= k <= 16 -> int32 o ->
  js_and (js_shr o k) 255 = w / 2 ^ k mod 256.
Proof.
  intros [q Hq] Hk Ho. rewrite js_shr_div by (done || lia).
  rewrite (js_and_ones _ 8) by lia. change (2 ^ 8) with 256. subst o.
  replace (q * 16777216) with (q * 2 ^ (24 - k) * 2 ^ k)
    by (rewrite <- Z.mul_assoc, <- Z.pow_add_r by lia; by replace (24 - k + k) with 24 by lia).
  rewrite Z.div_add by (apply Z.pow_nonzero; lia).
  replace (24 - k) with (16 - k + 8) by lia. rewrite Z.pow_add_r by lia.
  rewrite Z.mul_assoc. apply Z.mod_add. lia.
Qed.

Lemma byte_field_0 o w : (exists q, o = w + q * 16777216) -> js_and 255 o = w mod 256.
Proof.
  intros [q ->]. change (js_and 255 (w + q * 16777216)) with (js_and (2 ^ 8 - 1) (w + q * 16777216)).
  rewrite js_and_ones_l by lia. change (2 ^ 8) with 256.
  replace (q * 16777216) with (q * 65536 * 256) by lia. apply Z.mod_add. lia.
Qed.

Lemma sextets_bytes b0 b1 b2 :
  byte_ok b0 -> byte_ok b1 -> byte_ok b2 ->
  let w := ((b0 / 4 * 64 + (b0 mod 4 * 16 + b1 / 16)) * 64 + (b1 mod 16 * 4 + b2 / 64)) * 64 + b2 mod 64 in
  w = b0 * 65536 + b1 * 256 + b2 /\ w / 65536 mod 256 = b0 /\ w / 256 mod 256 = b1 /\ w mod 256 = b2.
Proof.
  intros H0 H1 H2 w. unfold byte_ok in *.
  assert (w = b0 * 65536 + b1 * 256 + b2) as E by (unfold w; dlia). clearbody w. subst w.
  split; [done|]. split_and!; dlia.
Qed.

(** One more sextet in the accumulator. *)
Lemma sextet_acc s w i :
  (exists q, s = w + q * 16777216) -> 0 <= i < 64 ->
  let s' := js_or (js_shl s 6) (index_of (Base64.sextet i) BASE64_MAP) in
  int32 s' /\ exists q, s' = w * 64 + i + q * 16777216.
Proof.
  intros [q Hq] Hi s'. unfold s'. rewrite index_sextet by done.
  destruct (shl_acc s 6 i) as (H1 & [q' E] & ->); [lia..|]. split; [done|].
  exists (q' + 64 * q). rewrite E, Hq. ring.
Qed.

Lemma decode_group i0 i1 i2 i3 o t s l :
  0 <= i0 < 64 -> 0 <= i1 < 64 -> 0 <= i2 < 64 -> 0 <= i3 < 64 -> t mod 4 = 0 ->
  exists s', binary_decode (map Base64.sextet [i0; i1; i2; i3] ++ o) t s l
      = binary_decode o (t + 4) s' (if t =? 0 then l else l ++ push3 s) /\
    int32 s' /\ exists q, s' = ((i0 * 64 + i1) * 64 + i2) * 64 + i3 + q * 16777216.
Proof.
  intros H0 H1 H2 H3 Ht.
  destruct (sextet_acc s s i0) as [_ Q0]; [exists 0; lia|done|].
  destruct (sextet_acc _ _ i1 Q0) as [_ Q1]; [done|].
  destruct (sextet_acc _ _ i2 Q1) as [_ Q2]; [done|].
  destruct (sextet_acc _ _ i3 Q2) as [Hi [q Q3]]; [done|].
  eexists. split; [|split; [exact Hi|]].
  - cbn [map app binary_decode]. rewrite Ht.
    rewrite (proj2 (Z.eqb_neq ((t + 1) mod 4) 0)), (proj2 (Z.eqb_neq ((t + 1 + 1) mod 4) 0)),
      (proj2 (Z.eqb_neq ((t + 1 + 1 + 1) mod 4) 0)) by dlia.
    simpl andb. replace (t + 1 + 1 + 1 + 1) with (t + 4) by lia. by destruct (t =? 0).
  - exists (s + q). rewrite Q3. ring.
Qed.

Lemma push3_bytes s b0 b1 b2 :
  byte_ok b0 -> byte_ok b1 -> byte_ok b2 -> int32 s ->
  (exists q, s = ((b0 / 4 * 64 + (b0 mod 4 * 16 + b1 / 16)) * 64 + (b1 mod 16 * 4 + b2 / 64)) * 64 + b2 mod 64 + q * 16777216) ->
  push3 s = [b0; b1; b2].
Proof.
  intros H0 H1 H2 Hi Hq. destruct (sextets_bytes b0 b1 b2) as (_ & E0 & E1 & E2); [done..|].
  unfold push3. rewrite (byte_field s _ 16 Hq), (byte_field s _ 8 Hq), (byte_field_0 s _ Hq) by (done || lia).
  change (2 ^ 16) with 65536. change (2 ^ 8) with 256. by rewrite E0, E1, E2.
Qed.

Lemma decode_triples ts t s l :
  bytes_ok ts -> zlen ts mod 3 = 0 -> t mod 4 = 0 -> 0 <= t -> ts <> [] \/ t <> 0 ->
  exists s' l', binary_decode (map Base64.sextet (Base64.sextets ts)) t s l = (s', l') /\
    l' ++ push3 s' = (if t =? 0 then l else l ++ push3 s) ++ ts.
Proof.
  intros Hb Hm. revert t s l Hb. pattern ts. apply Base64.triples_ind; [| |done]; clear ts Hm.
  - intros t s l _ Ht Ht0 [?|Hne]; [done|]. exists s, l. split; [done|].
    by rewrite (proj2 (Z.eqb_neq t 0)), app_nil_r by done.
  - intros b0 b1 b2 ts IH t s l Hb Ht Ht0 _. rewrite !bytes_ok_cons in Hb. destruct Hb as (H0 & H1 & H2 & Hb).
    change (map Base64.sextet (Base64.sextets (b0 :: b1 :: b2 :: ts))) with
      (map Base64.sextet [b0 / 4; b0 mod 4 * 16 + b1 / 16; b1 mod 16 * 4 + b2 / 64; b2 mod 64]
       ++ map Base64.sextet (Base64.sextets ts)).
    destruct (decode_group (b0 / 4) (b0 mod 4 * 16 + b1 / 16) (b1 mod 16 * 4 + b2 / 64) (b2 mod 64)
      (map Base64.sextet (Base64.sextets ts)) t s l) as (s1 & -> & Hi & Hq);
      [unfold byte_ok in *; dlia..|done|].
    destruct (IH (t + 4) s1 (if t =? 0 then l else l ++ push3 s)) as (s' & l' & -> & Hr);
      [done|dlia|lia|right; lia|].
    exists s', l'. split; [done|]. rewrite Hr, (proj2 (Z.eqb_neq (t + 4) 0)) by lia.
    rewrite (push3_bytes s1 b0 b1 b2) by done. by rewrite <- app_assoc.
Qed.

Lemma binary_decode_app a b t s l :
  binary_decode (a ++ b) t s l = let '(s', l') := binary_decode a t s l in binary_decode b (t + zlen a) s' l'.
Proof.
  revert t s l. induction a as [|x a IH]; intros t s l; simpl.
  - unfold zlen. simpl. by rewrite Z.add_0_r.
  - rewrite IH. destruct (binary_decode a _ _ _). f_equal. unfold zlen. simpl. lia.
Qed.

Lemma sextets_app ts tail :
  zlen ts mod 3 = 0 -> Base64.sextets (ts ++ tail) = Base64.sextets ts ++ Base64.sextets tail.
Proof.
  intros H. revert H. pattern ts. apply Base64.triples_ind_all; try done.
  intros a b c l IH Hm. simpl. rewrite IH; [done|]. unfold zlen in *. simpl in Hm. dlia.
Qed.

Lemma zlen_sextets ts : zlen ts mod 3 = 0 -> zlen (Base64.sextets ts) mod 4 = 0.
Proof.
  intros H. revert H. pattern ts. apply Base64.triples_ind_all; try done.
  intros a b c l IH Hm. unfold zlen in *. simpl in *. dlia.
Qed.

(** What the loop has when it reaches the characters after the last whole group. *)
Lemma decode_prefix ts tail :
  bytes_ok ts -> zlen ts mod 3 = 0 -> Base64.sextets tail <> [] ->
  exists s, binary_decode (map Base64.sextet (Base64.sextets (ts ++ tail))) 0 0 [] =
    binary_decode (map Base64.sextet (drop 1 (Base64.sextets tail))) (zlen (Base64.sextets ts) + 1)
      (js_or (js_shl s 6) (index_of (Base64.sextet (default 0 (head (Base64.sextets tail)))) BASE64_MAP)) ts.
Proof.
  intros Hb Hm Hne. rewrite sextets_app, map_app, binary_decode_app by done.
  destruct (Base64.sextets tail) as [|i rest]; [done|]. simpl drop. rewrite drop_0.
  destruct (decide (ts = [])) as [->|Hts].
  { exists 0. done. }
  destruct (decode_triples ts 0 0 []) as (s' & l' & -> & Hr); [done..|lia|by left|].
  exists s'. cbn [map binary_decode head default]. rewrite Z.add_0_l.
  assert (zlen (map Base64.sextet (Base64.sextets ts)) = zlen (Base64.sextets ts)) as ->
    by (unfold zlen; by rewrite length_map).
  rewrite (zlen_sextets ts Hm), (proj2 (Z.eqb_neq (zlen (Base64.sextets ts)) 0)).
  - simpl andb. cbv iota. by rewrite Hr.
  - destruct (Base64.ref_encode_sextets ts) as (_ & _ & _ & _ & H2). specialize (H2 Hts). lia.
Qed.

Lemma not_dropped i : 0 <= i < 64 ->
  negb ((Base64.sextet i =? 13) || (Base64.sextet i =? 10) || (Base64.sextet i =? 61)) = true.
Proof. revert i. apply (forallb_below 64). vm_compute. reflexivity. Qed.

Lemma encoded_chars b :
  bytes_ok b ->
  List.filter (fun c => negb ((c =? 13) || (c =? 10) || (c =? 61))) (Base64.ref_encode b)
  = map Base64.sextet (Base64.sextets b).
Proof.
  intros Hb. destruct (Base64.ref_encode_sextets b) as (pad & _ & -> & _).
  rewrite List.filter_app. assert (forall k, List.filter
    (fun c => negb ((c =? 13) || (c =? 10) || (c =? 61))) (replicate k 61) = []) as ->
    by (induction k as [|k IH]; [done|apply IH]).
  rewrite app_nil_r. pose proof (Base64.sextets_range b Hb) as Hr.
  induction Hr as [|i l Hi _ IH]; [done|]. simpl. by rewrite (not_dropped i Hi), IH.
Qed.

Lemma tail_bytes p x y :
  0 <= x < 256 -> 0 <= y < 256 ->
  ((p * 64 + x / 4) * 64 + x mod 4 * 16) / 2 ^ 4 mod 256 = x /\
  (((p * 64 + x / 4) * 64 + (x mod 4 * 16 + y / 16)) * 64 + y mod 16 * 4) / 2 ^ 10 mod 256 = x /\
  (((p * 64 + x / 4) * 64 + (x mod 4 * 16 + y / 16)) * 64 + y mod 16 * 4) / 2 ^ 2 mod 256 = y.
Proof.
  intros Hx Hy. change (2 ^ 4) with 16. change (2 ^ 10) with 1024. change (2 ^ 2) with 4.
  assert ((p * 64 + x / 4) * 64 + x mod 4 * 16 = (p * 256 + x) * 16) as -> by dlia.
  assert (((p * 64 + x / 4) * 64 + (x mod 4 * 16 + y / 16)) * 64 + y mod 16 * 4 = ((p * 256 + x) * 256 + y) * 4) as -> by dlia.
  rewrite !Z.div_mul by lia. split_and!; [dlia| |dlia].
  replace (((p * 256 + x) * 256 + y) * 4 / 1024) with (p * 256 + x) by dlia. dlia.
Qed.

Lemma binary_construct_ref b : bytes_ok b -> b <> [] -> binary_construct (Base64.ref_encode b) = b.
Proof.
  intros Hb Hne. unfold binary_construct. rewrite encoded_chars by done.
  assert (zlen (map Base64.sextet (Base64.sextets b)) = zlen (Base64.sextets b)) as ->
    by (unfold zlen; by rewrite length_map).
  destruct (Base64.shape_of b) as [ts Hm|ts x Hm|ts x y Hm].
  - rewrite zlen_sextets by done. simpl Z.mul. cbv iota.
    destruct (decode_triples ts 0 0 []) as (s' & l' & -> & Hr); [done..|lia|by left|]. apply Hr.
  - apply Forall_app in Hb as [Hts Hx]. apply bytes_ok_cons in Hx as [Hx _]. unfold byte_ok in Hx.
    destruct (decode_prefix ts [x]) as [s ->]; [done..|].
    assert (zlen (Base64.sextets (ts ++ [x])) mod 4 = 2) as ->.
    { rewrite sextets_app, zlen_app by done. pose proof (zlen_sextets ts Hm).
      change (zlen (Base64.sextets [x])) with 2. dlia. }
    cbn [Base64.sextets drop map binary_decode head default]. unfold id.
    rewrite (proj2 (Z.eqb_neq ((zlen (Base64.sextets ts) + 1) mod 4) 0)) by (pose proof (zlen_sextets ts Hm); dlia).
    simpl andb. simpl Z.mul. simpl Z.eqb. cbv iota.
    destruct (sextet_acc s s (x / 4)) as [_ Q0]; [exists 0; lia|dlia|].
    destruct (sextet_acc _ _ (x mod 4 * 16) Q0) as [Hi Q1]; [dlia|].
    rewrite (byte_field _ _ 4 Q1) by (done || lia). by destruct (tail_bytes s x 0) as (-> & _); [lia..|].
  - apply Forall_app in Hb as [Hts Hx]. apply bytes_ok_cons in Hx as [Hx Hy]. apply bytes_ok_cons in Hy as [Hy _].
    unfold byte_ok in Hx, Hy. pose proof (zlen_sextets ts Hm).
    destruct (decode_prefix ts [x; y]) as [s ->]; [done..|].
    assert (zlen (Base64.sextets (ts ++ [x; y])) mod 4 = 3) as ->.
    { rewrite sextets_app, zlen_app by done. change (zlen (Base64.sextets [x; y])) with 3. dlia. }
    cbn [Base64.sextets drop map binary_decode head default]. unfold id.
    rewrite (proj2 (Z.eqb_neq ((zlen (Base64.sextets ts) + 1) mod 4) 0)),
      (proj2 (Z.eqb_neq ((zlen (Base64.sextets ts) + 1 + 1) mod 4) 0)) by dlia.
    simpl andb. simpl Z.mul. simpl Z.eqb. cbv iota.
    destruct (sextet_acc s s (x / 4)) as [_ Q0]; [exists 0; lia|dlia|].
    destruct (sextet_acc _ _ (x mod 4 * 16 + y / 16) Q0) as [_ Q1]; [dlia|].
    destruct (sextet_acc _ _ (y mod 16 * 4) Q1) as [Hi Q2]; [dlia|].
    rewrite (byte_field _ _ 10 Q2), (byte_field _ _ 2 Q2) by (done || lia).
    by destruct (tail_bytes s x y) as (_ & -> & ->).
Qed.

Lemma binary_bits_all e r :
  Forall (fun c => 0 <= index_of c BASE64_MAP <= 64) e -> binary_bits e r = Some (r + 6 * zlen e).
Proof.
  intros He. revert r. induction He as [|c e Hc _ IH]; intros r; simpl.
  - f_equal. unfold zlen. simpl. lia.
  - destruct (Z.ltb_spec 64 (index_of c BASE64_MAP)); [lia|].
    destruct (Z.ltb_spec (index_of c BASE64_MAP) 0); [lia|]. rewrite IH. f_equal. unfold zlen. simpl. lia.
Qed.

Lemma binary_resolve_ref b : bytes_ok b -> binary_resolve (Some (Base64.ref_encode b)) = true.
Proof.
  intros Hb. destruct (Base64.ref_encode_sextets b) as (pad & _ & -> & Hm & _). simpl.
  rewrite binary_bits_all.
  - rewrite zlen_app. assert (zlen (map Base64.sextet (Base64.sextets b)) = zlen (Base64.sextets b)) as ->
      by (unfold zlen; by rewrite length_map).
    assert (zlen (replicate pad 61) = Z.of_nat pad) as -> by (unfold zlen; by rewrite length_replicate).
    apply Z.eqb_eq. dlia.
  - apply Forall_app. split.
    + apply Forall_map. eapply Forall_weaken; [by apply Base64.sextets_range|].
      intros i Hi. simpl in Hi. rewrite index_sextet by done. lia.
    + apply Forall_replicate. vm_compute. done.
Qed.

(** Bytes represented as a YAML binary are its base64 text, which resolves and
    constructs the same bytes.  (The empty buffer is the exception:
    [yaml_binary_empty].) *)
Theorem yaml_binary_roundtrip b :
  bytes_ok b -> b <> [] ->
  binary_represent b = Base64.fromByteArray b /\ binary_resolve (Some (binary_represent b)) = true /\
  binary_construct (binary_represent b) = b.
Proof.
  intros Hb Hne. rewrite binary_represent_ref, Base64.encode_is_ref by done. split; [done|].
  split; [by apply binary_resolve_ref|by apply binary_construct_ref].
Qed.

Lemma yaml_binary_roundtrip_witness :
  binary_represent [255; 0; 17; 4] = Base64.fromByteArray [255; 0; 17; 4] /\
  binary_resolve (Some (binary_represent [255; 0; 17; 4])) = true /\
  binary_construct (binary_represent [255; 0; 17; 4]) = [255; 0; 17; 4].
Proof. apply yaml_binary_roundtrip; [repeat constructor; concrete|done]. Defined.

(** The empty binary is not kept: the last group is appended even if there was
    none. *)
Theorem yaml_binary_empty :
  binary_represent [] = js "AAAA" /\ binary_construct [] = [0; 0; 0] /\
  binary_resolve (Some []) = true /\ Base64.fromByteArray [] = [].
Proof. vm_compute. done. Qed.

End YamlTypes.
