(* ===== verification/YamlTime.v ===== *)
(** * js-yaml: timestamps

    Models the timestamp type of js-yaml in
    src/client/docs/swagger-ui/swagger-ui-bundle.js: its two regular expressions with
    their groups, [construct] with [Date.UTC], the fraction and the time zone, and
    [represent] with [toISOString].  A date is its number of milliseconds since
    1970.  The calendar is the one of the language: [DayFromYear] by its formula,
    the year of a day by search. *)

From S2P Require Import Prelude JsString YamlTypes.
From Stdlib Require Import String.
From stdpp Require Import base numbers list strings option.
Open Scope Z_scope.

Module YamlTime.
Import YamlTypes.

(** ** The calendar *)

Definition DayFromYear (y : Z) : Z :=
  365 * (y - 1970) + (y - 1969) / 4 - (y - 1901) / 100 + (y - 1601) / 400.

Definition leap (y : Z) : bool :=
  (y mod 4 =? 0) && (negb (y mod 100 =? 0) || (y mod 400 =? 0)).

Definition DaysInYear (y : Z) : Z := if leap y then 366 else 365.

(** The days of the year before month [m], 0 for January. *)
Definition month_start (l : bool) (m : Z) : Z :=
  let k := if l then 1 else 0 in
  default 0 (zget [0; 31; 59 + k; 90 + k; 120 + k; 151 + k; 181 + k; 212 + k; 243 + k; 273 + k; 304 + k; 334 + k] m).

(** [Date.UTC(y, m, d, h, mi, s, ms)]; years 0 to 99 are of the 20th century. *)
Definition UTC (y m d h mi s ms : Z) : Z :=
  let y := if (0 <=? y) && (y <=? 99) then 1900 + y else y in
  let ym := y + m / 12 in
  let day := DayFromYear ym + month_start (leap ym) (m mod 12) + d - 1 in
  day * 86400000 + (h * 3600000 + mi * 60000 + s * 1000 + ms).

(** The largest year that starts on or before [day], from [y] up. *)
Fixpoint year_search (fuel : nat) (day y : Z) : Z :=
  match fuel with
  | O => y
  | S fuel => if DayFromYear (y + 1) <=? day then year_search fuel day (y + 1) else y
  end.

Definition YearFromDay (day : Z) : Z :=
  let lo := Z.min (day / 365) (day / 366) in
  let hi := Z.max (day / 365) (day / 366) in
  year_search (Z.to_nat (hi - lo + 1)) day (1970 + lo).

(** The month of day [n] of the year. *)
Fixpoint month_search (fuel : nat) (l : bool) (n m : Z) : Z :=
  match fuel with
  | O => m
  | S fuel => if (m <? 11) && (month_start l (m + 1) <=? n) then month_search fuel l n (m + 1) else m
  end.

(** ** construct *)

(** [c] digits at the front. *)
Fixpoint take_digits (c : nat) (s : jsstring) : option (jsstring * jsstring) :=
  match c with
  | O => Some ([], s)
  | S c =>
      match s with
      | x :: s' => if is_dec x then match take_digits c s' with
                                    | Some (d, r) => Some (x :: d, r)
                                    | None => None
                                    end
                   else None
      | [] => None
      end
  end.

(** [[0-9][0-9]?], greedy. *)
Definition one_or_two (s : jsstring) : option (jsstring * jsstring) :=
  match take_digits 2 s with
  | Some r => Some r
  | None => take_digits 1 s
  end.

Definition char_ (c : Z) (s : jsstring) : option jsstring :=
  match s with x :: s' => if x =? c then Some s' else None | [] => None end.

(** All the digits, and all the blanks, at the front. *)
Fixpoint span (p : Z -> bool) (s : jsstring) : jsstring * jsstring :=
  match s with
  | x :: s' => if p x then let '(d, r) := span p s' in (x :: d, r) else ([], s)
  | [] => ([], [])
  end.

Definition blank (c : Z) : bool := (c =? 32) || (c =? 9).

(** The groups of the two expressions. *)
Record groups := Groups {
  g_year : jsstring; g_month : jsstring; g_day : jsstring;
  g_time : option (jsstring * jsstring * jsstring);
  g_frac : jsstring;
  g_zone : option (bool * jsstring * jsstring)   (* sign is minus, hours, minutes *)
}.

(** YAML_DATE_REGEXP. *)
Definition match_date (s : jsstring) : option groups :=
  '(y, s) ← take_digits 4 s; s ← char_ 45 s; '(m, s) ← take_digits 2 s; s ← char_ 45 s;
  '(d, s) ← take_digits 2 s;
  if zlen s =? 0 then Some (Groups y m d None [] None) else None.

(** The time zone at the end: nothing, [Z], or a sign, hours and minutes. *)
Definition match_zone (s : jsstring) : option (option (bool * jsstring * jsstring)) :=
  if zlen s =? 0 then Some None
  else
    let '(_, s) := span blank s in
    match s with
    | c :: s' =>
        if c =? 90 then (if zlen s' =? 0 then Some None else None)
        else if (c =? 45) || (c =? 43) then
          '(h, s') ← one_or_two s';
          if zlen s' =? 0 then Some (Some (c =? 45, h, []))
          else s' ← char_ 58 s'; '(mi, s') ← take_digits 2 s';
               if zlen s' =? 0 then Some (Some (c =? 45, h, mi)) else None
        else None
    | [] => None
    end.

(** YAML_TIMESTAMP_REGEXP. *)
Definition match_timestamp (s : jsstring) : option groups :=
  '(y, s) ← take_digits 4 s; s ← char_ 45 s; '(m, s) ← one_or_two s; s ← char_ 45 s;
  '(d, s) ← one_or_two s;
  s ← match s with
      | c :: s' => if (c =? 84) || (c =? 116) then Some s'
                   else if blank c then Some (snd (span blank s')) else None
      | [] => None
      end;
  '(h, s) ← one_or_two s; s ← char_ 58 s; '(mi, s) ← take_digits 2 s; s ← char_ 58 s;
  '(sec, s) ← take_digits 2 s;
  let '(f, s) := match char_ 46 s with Some s' => span is_dec s' | None => ([], s) end in
  z ← match_zone s;
  Some (Groups y m d (Some (h, mi, sec)) f z).

Definition find_groups (e : jsstring) : option groups :=
  match match_date e with Some g => Some g | None => match_timestamp e end.

Definition timestamp_resolve (e : option jsstring) : bool :=
  match e with
  | None => false
  | Some e => match find_groups e with Some _ => true | None => false end
  end.

(** [+t], the number of a text of digits. *)
Definition nat_of (s : jsstring) : Z := default 0 (parse_digits 10 s None).

(** The first three digits of the fraction, padded with zeros. *)
Definition millis (f : jsstring) : Z :=
  match f with
  | [] => 0
  | _ => let f := take 3 f in nat_of (f ++ replicate (3 - length f) 48)
  end.

Definition timestamp_construct (e : jsstring) : res Z :=
  match find_groups e with
  | None => Throw (JsError "Date resolve error")
  | Some g =>
      let n := nat_of (g_year g) in
      let r := nat_of (g_month g) - 1 in
      let a := nat_of (g_day g) in
      match g_time g with
      | None => Ok (UTC n r a 0 0 0 0)
      | Some (u, s, l) =>
          let c := UTC n r a (nat_of u) (nat_of s) (nat_of l) (millis (g_frac g)) in
          match g_zone g with
          | None => Ok c
          | Some (minus, h, mi) =>
              let p := 60000 * (60 * nat_of h + nat_of mi) in
              Ok (c - (if minus then - p else p))
          end
      end
  end.

(** ** represent *)

(** A number with [w] digits. *)
Fixpoint fixed (w : nat) (z : Z) : jsstring :=
  match w with
  | O => []
  | S w => fixed w (z / 10) ++ [48 + z mod 10]
  end.

(** [toISOString]; years outside 0..9999 get a sign and six digits. *)
Definition timestamp_represent (t : Z) : jsstring :=
  let day := t / 86400000 in
  let ms := t mod 86400000 in
  let y := YearFromDay day in
  let n := day - DayFromYear y in
  let m := month_search 11 (leap y) n 0 in
  (if (0 <=? y) && (y <=? 9999) then fixed 4 y
   else (if y <? 0 then 45 else 43) :: fixed 6 (Z.abs y))
  ++ 45 :: fixed 2 (m + 1) ++ 45 :: fixed 2 (n - month_start (leap y) m + 1)
  ++ 84 :: fixed 2 (ms / 3600000) ++ 58 :: fixed 2 (ms / 60000 mod 60) ++ 58 :: fixed 2 (ms / 1000 mod 60)
  ++ 46 :: fixed 3 (ms mod 1000) ++ [90].

Example time_ex :
  (timestamp_construct (js "2001-12-14t21:59:43.10-05:00"), timestamp_represent 1008385183100,
   timestamp_construct (js "2002-12-14"), timestamp_represent (-62135596800001))
  = (Ok 1008385183100, js "2001-12-15T02:59:43.100Z", Ok 1039824000000, js "0000-12-31T23:59:59.999Z").
Proof. vm_compute. reflexivity. Qed.

(** ** The calendar is right *)

Lemma DayFromYear_next y : DayFromYear (y + 1) = DayFromYear y + DaysInYear y.
Proof.
  unfold DayFromYear, DaysInYear, leap.
  assert ((y + 1 - 1969) / 4 = (y - 1969) / 4 + (if y mod 4 =? 0 then 1 else 0)) as ->
    by (destruct (Z.eqb_spec (y mod 4) 0); dlia).
  assert ((y + 1 - 1901) / 100 = (y - 1901) / 100 + (if y mod 100 =? 0 then 1 else 0)) as ->
    by (destruct (Z.eqb_spec (y mod 100) 0); dlia).
  assert ((y + 1 - 1601) / 400 = (y - 1601) / 400 + (if y mod 400 =? 0 then 1 else 0)) as ->
    by (destruct (Z.eqb_spec (y mod 400) 0); dlia).
  destruct (Z.eqb_spec (y mod 4) 0), (Z.eqb_spec (y mod 100) 0), (Z.eqb_spec (y mod 400) 0); simpl; dlia.
Qed.

Lemma DayFromYear_mono y z : y <= z -> DayFromYear y <= DayFromYear z.
Proof. unfold DayFromYear. intros. dlia. Qed.

Lemma year_search_spec fuel day y :
  DayFromYear y <= day < DayFromYear (y + Z.of_nat fuel + 1) ->
  let y' := year_search fuel day y in DayFromYear y' <= day < DayFromYear (y' + 1).
Proof.
  revert y. induction fuel as [|fuel IH]; intros y Hy; simpl.
  - by replace (y + Z.of_nat 0 + 1) with (y + 1) in Hy by lia.
  - destruct (Z.leb_spec (DayFromYear (y + 1)) day).
    + apply IH. replace (y + 1 + Z.of_nat fuel + 1) with (y + Z.of_nat (S fuel) + 1) by lia. lia.
    + lia.
Qed.

Lemma YearFromDay_spec day :
  let y := YearFromDay day in DayFromYear y <= day < DayFromYear (y + 1).
Proof.
  apply year_search_spec. rewrite Z2Nat.id by lia.
  assert (forall k, DayFromYear (1970 + k) <= Z.max (365 * k) (366 * k)) as Hup
    by (intros k; unfold DayFromYear; dlia).
  assert (forall k, Z.min (365 * k) (366 * k) <= DayFromYear (1970 + k)) as Hdown
    by (intros k; unfold DayFromYear; dlia).
  set (lo := Z.min (day / 365) (day / 366)). set (hi := Z.max (day / 365) (day / 366)).
  replace (1970 + lo + (hi - lo + 1) + 1) with (1970 + (hi + 2)) by lia.
  pose proof (Hup lo). pose proof (Hdown (hi + 2)).
  assert (Z.max (365 * lo) (366 * lo) <= day) by (unfold lo; dlia).
  assert (day < Z.min (365 * (hi + 2)) (366 * (hi + 2))) by (unfold hi; dlia). lia.
Qed.

(** The year of a day is the only one that holds it. *)
Lemma YearFromDay_unique day y :
  DayFromYear y <= day < DayFromYear (y + 1) -> YearFromDay day = y.
Proof.
  intros Hy. pose proof (YearFromDay_spec day) as Hs. simpl in Hs.
  destruct (Z.lt_trichotomy (YearFromDay day) y) as [Hlt|[?|Hgt]]; [|done|].
  - pose proof (DayFromYear_mono (YearFromDay day + 1) y). lia.
  - pose proof (DayFromYear_mono (y + 1) (YearFromDay day)). lia.
Qed.

Lemma month_search_spec (l : bool) n :
  0 <= n < (if l then 366 else 365) ->
  let m := month_search 11 l n 0 in
  0 <= m < 12 /\ 0 <= n - month_start l m < 31.
Proof.
  intros Hn.
  apply (bool_decide_unpack (0 <= month_search 11 l n 0 < 12 /\ 0 <= n - month_start l (month_search 11 l n 0) < 31)).
  apply Is_true_true. destruct l.
  - revert n Hn. apply (forallb_below 366). vm_compute. reflexivity.
  - revert n Hn. apply (forallb_below 365). vm_compute. reflexivity.
Qed.

(** ** Fixed-width numbers *)

Lemma fixed_digits w z : Forall (fun c => is_dec c = true) (fixed w z) /\ length (fixed w z) = w.
Proof.
  revert z. induction w as [|w IH]; intros z; simpl; [by split|].
  destruct (IH (z / 10)) as [H1 H2]. split.
  - apply Forall_app. split; [done|]. constructor; [|done]. unfold is_dec. dlia.
  - rewrite length_app, H2. simpl. lia.
Qed.

Lemma take_digits_app d s :
  Forall (fun c => is_dec c = true) d -> take_digits (length d) (d ++ s) = Some (d, s).
Proof. induction 1 as [|c d Hc _ IH]; [done|]. simpl. by rewrite Hc, IH. Qed.

Lemma take_fixed w z s : take_digits w (fixed w z ++ s) = Some (fixed w z, s).
Proof. destruct (fixed_digits w z) as [Hd Hl]. rewrite <- Hl at 1. by apply take_digits_app. Qed.

Lemma one_or_two_fixed z s : one_or_two (fixed 2 z ++ s) = Some (fixed 2 z, s).
Proof. unfold one_or_two. by rewrite take_fixed. Qed.

Lemma nat_of_fixed w z : (0 < w)%nat -> 0 <= z < 10 ^ Z.of_nat w -> nat_of (fixed w z) = z.
Proof.
  intros Hw Hz. destruct (fixed_digits w z) as [Hd Hl].
  assert (forall z a, 0 <= z < 10 ^ Z.of_nat w -> parse_digits 10 (fixed w z) (Some a) = Some (a * 10 ^ Z.of_nat w + z)) as H.
  { clear. induction w as [|w IH]; intros z a Hz.
    - change (10 ^ Z.of_nat 0) with 1 in *. simpl. f_equal. lia.
    - rewrite Nat2Z.inj_succ, Z.pow_succ_r in * by lia. destruct (fixed_digits w (z / 10)) as [Hd _]. simpl.
      rewrite parse_digits_app by (apply (class_digits 10 is_dec); [apply dec_digit|done]).
      rewrite IH by dlia. assert (0 <= z mod 10 < 10) by (apply Z.mod_pos_bound; lia). simpl.
      assert (digit_in 10 (48 + z mod 10) = Some (z mod 10)) as ->.
      { pose proof (digit_in_char 10 (z mod 10)) as Hc. unfold digit_char in Hc.
        rewrite (proj2 (Z.ltb_lt _ 10)) in Hc by lia. apply Hc; lia. }
      simpl. f_equal. dlia. }
  unfold nat_of. assert (parse_digits 10 (fixed w z) None = parse_digits 10 (fixed w z) (Some 0)) as ->.
  { destruct (fixed w z) as [|c d]; [simpl in Hl; lia|]. simpl.
    by destruct (dec_digit c (Forall_inv Hd)) as [x ->]. }
  rewrite H by done. simpl. lia.
Qed.

(** ** The round trip *)

Lemma UTC_of_parts y n ms :
  100 <= y -> 0 <= n < DaysInYear y ->
  let m := month_search 11 (leap y) n 0 in
  UTC y (m + 1 - 1) (n - month_start (leap y) m + 1) (ms / 3600000) (ms / 60000 mod 60) (ms / 1000 mod 60) (ms mod 1000)
  = (DayFromYear y + n) * 86400000 + ms.
Proof.
  intros Hy Hn m. destruct (month_search_spec (leap y) n) as [Hm _]; [by unfold DaysInYear in Hn; destruct (leap y)|].
  fold m in Hm. unfold UTC. replace ((0 <=? y) && (y <=? 99)) with false by lia.
  replace (m + 1 - 1) with m by lia. rewrite (Z.div_small m 12), (Z.mod_small m 12), Z.add_0_r by lia.
  assert (ms / 3600000 * 3600000 + ms / 60000 mod 60 * 60000 + ms / 1000 mod 60 * 1000 + ms mod 1000 = ms) as -> by dlia.
  lia.
Qed.

Lemma millis_fixed z : 0 <= z < 1000 -> millis (fixed 3 z) = z.
Proof.
  intros Hz. destruct (fixed_digits 3 z) as [_ Hl]. unfold millis.
  destruct (fixed 3 z) as [|a [|b [|c [|? ?]]]] eqn:E; try done. simpl. rewrite <- E. by apply nat_of_fixed; [lia|].
Qed.

Lemma char_here c s : char_ c (c :: s) = Some s.
Proof. simpl. by rewrite Z.eqb_refl. Qed.

Lemma span_fixed w z s : match s with c :: _ => is_dec c = false | [] => True end ->
  span is_dec (fixed w z ++ s) = (fixed w z, s).
Proof.
  intros Hs. destruct (fixed_digits w z) as [Hd _]. induction Hd as [|c d Hc _ IH]; simpl.
  - destruct s as [|c s]; [done|]. simpl. by rewrite Hs.
  - by rewrite Hc, IH.
Qed.

(** The groups of the text [toISOString] prints. *)
Lemma groups_of_iso y mo d h mi sec ms :
  find_groups (fixed 4 y ++ 45 :: fixed 2 mo ++ 45 :: fixed 2 d ++ 84 :: fixed 2 h ++ 58 :: fixed 2 mi
    ++ 58 :: fixed 2 sec ++ 46 :: fixed 3 ms ++ [90])
  = Some (Groups (fixed 4 y) (fixed 2 mo) (fixed 2 d) (Some (fixed 2 h, fixed 2 mi, fixed 2 sec)) (fixed 3 ms) None).
Proof.
  unfold find_groups.
  assert (match_date (fixed 4 y ++ 45 :: fixed 2 mo ++ 45 :: fixed 2 d ++ 84 :: fixed 2 h ++ 58 :: fixed 2 mi
    ++ 58 :: fixed 2 sec ++ 46 :: fixed 3 ms ++ [90]) = None) as ->.
  { unfold match_date. rewrite take_fixed. cbn [mbind option_bind]. rewrite char_here. cbn [mbind option_bind].
    rewrite take_fixed. cbn [mbind option_bind]. rewrite char_here. cbn [mbind option_bind].
    rewrite take_fixed. cbn [mbind option_bind]. by rewrite (proj2 (Z.eqb_neq _ 0)) by (unfold zlen; simpl; lia). }
  unfold match_timestamp.
  rewrite take_fixed. cbn [mbind option_bind]. rewrite char_here. cbn [mbind option_bind].
  rewrite one_or_two_fixed. cbn [mbind option_bind]. rewrite char_here. cbn [mbind option_bind].
  rewrite one_or_two_fixed. cbn [mbind option_bind]. simpl orb. cbv iota. cbn [mbind option_bind].
  rewrite one_or_two_fixed. cbn [mbind option_bind]. rewrite char_here. cbn [mbind option_bind].
  rewrite take_fixed. cbn [mbind option_bind]. rewrite char_here. cbn [mbind option_bind].
  rewrite take_fixed. cbn [mbind option_bind]. rewrite char_here, span_fixed by done. done.
Qed.

(** A date of the years 100 to 9999 printed as YAML resolves as a timestamp and
    is constructed back, to the millisecond. *)
Theorem yaml_timestamp_roundtrip t :
  DayFromYear 100 * 86400000 <= t < DayFromYear 10000 * 86400000 ->
  timestamp_resolve (Some (timestamp_represent t)) = true /\
  timestamp_construct (timestamp_represent t) = Ok t.
Proof.
  intros Ht. set (day := t / 86400000). set (ms := t mod 86400000).
  assert (DayFromYear 100 <= day < DayFromYear 10000) as Hday by (unfold day; dlia).
  assert (0 <= ms < 86400000) as Hms by (apply Z.mod_pos_bound; lia).
  pose proof (YearFromDay_spec day) as Hy. simpl in Hy. set (y := YearFromDay day) in *.
  assert (100 <= y <= 9999) as Hyr.
  { split.
    - destruct (Z.le_gt_cases 100 y); [done|]. pose proof (DayFromYear_mono (y + 1) 100). lia.
    - destruct (Z.le_gt_cases y 9999); [done|]. pose proof (DayFromYear_mono 10000 y). lia. }
  rewrite DayFromYear_next in Hy. set (n := day - DayFromYear y).
  destruct (month_search_spec (leap y) n) as [Hm Hd]; [unfold n, DaysInYear in *; destruct (leap y); lia|].
  pose proof (UTC_of_parts y n ms) as Hu. cbv zeta in Hu.
  set (m := month_search 11 (leap y) n 0) in *.
  assert (timestamp_represent t = fixed 4 y ++ 45 :: fixed 2 (m + 1) ++ 45 :: fixed 2 (n - month_start (leap y) m + 1)
    ++ 84 :: fixed 2 (ms / 3600000) ++ 58 :: fixed 2 (ms / 60000 mod 60) ++ 58 :: fixed 2 (ms / 1000 mod 60)
    ++ 46 :: fixed 3 (ms mod 1000) ++ [90]) as ->.
  { unfold timestamp_represent. fold day ms. fold y. fold n. fold m.
    by replace ((0 <=? y) && (y <=? 9999)) with true by lia. }
  unfold timestamp_resolve, timestamp_construct. rewrite groups_of_iso. split; [done|].
  cbn [g_year g_month g_day g_time g_frac g_zone]. rewrite !nat_of_fixed, millis_fixed by (lia || (simpl; dlia)).
  rewrite Hu by (unfold n; lia). f_equal. unfold n, day, ms. dlia.
Qed.

Lemma yaml_timestamp_roundtrip_witness :
  timestamp_resolve (Some (timestamp_represent 1008385183100)) = true /\
  timestamp_construct (timestamp_represent 1008385183100) = Ok 1008385183100.
Proof. apply yaml_timestamp_roundtrip. concrete. Defined.

(** [Date.UTC] takes the years 0 to 99 for 1900 to 1999, so a date of the first
    century is read back 1900 years later. *)
Theorem yaml_timestamp_first_century :
  timestamp_represent (-60589296000000) = js "0050-01-01T00:00:00.000Z" /\
  timestamp_construct (js "0050-01-01T00:00:00.000Z") = Ok (-631152000000) /\
  timestamp_represent (-631152000000) = js "1950-01-01T00:00:00.000Z".
Proof. vm_compute. done. Qed.

End YamlTime.
