(* ===== verification/YamlSchema.v ===== *)
(** * js-yaml: values, common helpers, schemas

    Models of js-yaml in src/client/docs/swagger-ui/swagger-ui-bundle.js: the values
    the loader builds, with the objects in a store so that anchors and aliases
    share them; the collection types seq, map, omap, pairs and set; the tags and
    kinds of the types, [Schema] with its lists of types, and the schemas the
    library defines. *)

From S2P Require Import Prelude JsString JsNum YamlTypes YamlTime Utf8.
From Stdlib Require Import String.
From stdpp Require Import base numbers list strings option.
Open Scope Z_scope.

Module YamlSchema.
Import YamlTypes YamlTime.

(** ** Values and objects *)

Inductive value :=
| VUndef
| VNull
| VBool (b : bool)
| VNum (n : jsnum)
| VStr (s : jsstring)
| VRef (a : nat).

#[export] Instance value_eq_dec : EqDecision value.
Proof. solve_decision. Defined.

(** An array, a plain object (its own properties in insertion order), a Buffer, a
    Date, a RegExp and a function made by [new Function]. *)
Inductive obj :=
| OArr (l : list value)
| OObj (l : list (jsstring * value))
| OBuf (b : list Z)
| ODate (ms : Z)
| ORegExp (source flags : jsstring)
| OFun (params : list (option jsstring)) (body : jsstring).

Abbreviation store := (list obj).

(** [hasOwnProperty], [o[k]], [o[k] = v] and [delete o[k]] on the properties.
    Assigning [__proto__] sets the prototype and adds no property. *)
Fixpoint own {A} (k : jsstring) (l : list (jsstring * A)) : option A :=
  match l with
  | [] => None
  | (k', v) :: l' => if decide (k' = k) then Some v else own k l'
  end.

Fixpoint put {A} (k : jsstring) (v : A) (l : list (jsstring * A)) : list (jsstring * A) :=
  match l with
  | [] => [(k, v)]
  | (k', v') :: l' => if decide (k' = k) then (k, v) :: l' else (k', v') :: put k v l'
  end.

Definition assign {A} (k : jsstring) (v : A) (l : list (jsstring * A)) : list (jsstring * A) :=
  if decide (k = js "__proto__") then l else put k v l.

Definition remove {A} (k : jsstring) (l : list (jsstring * A)) : list (jsstring * A) :=
  List.filter (fun p => negb (bool_decide (p.1 = k))) l.

(** An array index: the decimal text of a number below 2^32 - 1. *)
Definition array_index (k : jsstring) : option Z :=
  match parse_digits 10 k None with
  | Some z => if bool_decide (k = digits 10 z) && (z <? 4294967295) then Some z else None
  | None => None
  end.

Fixpoint insert_index (z : Z) (k : jsstring) (l : list (Z * jsstring)) : list (Z * jsstring) :=
  match l with
  | [] => [(z, k)]
  | (z', k') :: l' => if z <? z' then (z, k) :: l else (z', k') :: insert_index z k l'
  end.

(** [Object.keys]: the array indices in ascending order, then the other names in
    the order they were added. *)
Definition object_keys {A} (l : list (jsstring * A)) : list jsstring :=
  let ks := map fst l in
  map snd (foldr (fun k acc => match array_index k with
                               | Some z => insert_index z k acc
                               | None => acc
                               end) [] ks)
  ++ List.filter (fun k => match array_index k with Some _ => false | None => true end) ks.

(** ** common *)

(** [repeat(s, n)]. *)
Definition repeat (s : jsstring) (n : Z) : jsstring := forZ 0 n 1 (fun _ r => r ++ s) [].

(** ** Kinds, types and their tags *)

Inductive kind := Scalar | Sequence | Mapping.

#[export] Instance kind_eq_dec : EqDecision kind.
Proof. solve_decision. Defined.

Definition kind_name (k : kind) : jsstring :=
  js (match k with Scalar => "scalar" | Sequence => "sequence" | Mapping => "mapping" end).

Inductive ytype :=
| TStr | TSeq | TMap | TNull | TBool | TInt | TFloat | TTimestamp | TMerge
| TBinary | TOmap | TPairs | TSet | TUndefined | TRegexp | TFunction.

#[export] Instance ytype_eq_dec : EqDecision ytype.
Proof. solve_decision. Defined.

Definition type_tag (t : ytype) : jsstring :=
  js "tag:yaml.org,2002:" ++ js (match t with
    | TStr => "str" | TSeq => "seq" | TMap => "map" | TNull => "null" | TBool => "bool"
    | TInt => "int" | TFloat => "float" | TTimestamp => "timestamp" | TMerge => "merge"
    | TBinary => "binary" | TOmap => "omap" | TPairs => "pairs" | TSet => "set"
    | TUndefined => "js/undefined" | TRegexp => "js/regexp" | TFunction => "js/function"
    end).

Definition type_kind (t : ytype) : kind :=
  match t with
  | TSeq | TOmap | TPairs => Sequence
  | TMap | TSet => Mapping
  | _ => Scalar
  end.

(** ** Collection types *)

Definition elements (h : store) (v : value) : list value :=
  match v with
  | VRef a => match h !! a with Some (OArr l) => l | _ => [] end
  | _ => []
  end.

Definition properties (h : store) (v : value) : option (list (jsstring * value)) :=
  match v with
  | VRef a => match h !! a with Some (OObj l) => Some l | _ => None end
  | _ => None
  end.

(** Every element is an object with one key, and no key comes twice. *)
Fixpoint omap_check (h : store) (l : list value) (seen : list jsstring) : bool :=
  match l with
  | [] => true
  | r :: l' =>
      match properties h r with
      | Some [(a, _)] => if bool_decide (a ∈ seen) then false else omap_check h l' (seen ++ [a])
      | _ => false
      end
  end.

Definition omap_resolve (h : store) (e : value) : bool :=
  match e with VNull => true | _ => omap_check h (elements h e) [] end.

Definition pairs_resolve (h : store) (e : value) : bool :=
  match e with
  | VNull => true
  | _ => forallb (fun r => match properties h r with Some [_] => true | _ => false end) (elements h e)
  end.

(** A new object; its address is the value. *)
Definition alloc (h : store) (o : obj) : value * store := (VRef (length h), h ++ [o]).

(** An array of [[key, value]] arrays. *)
Definition pairs_construct (h : store) (e : value) : value * store :=
  match e with
  | VNull => alloc h (OArr [])
  | _ =>
      let '(i, h) := foldl (fun acc r =>
          let '(i, h) := acc in
          let p := match properties h r with
                   | Some l => match object_keys l with
                               | k :: _ => [VStr k; default VUndef (own k l)]
                               | [] => [VUndef; VUndef]
                               end
                   | None => [VUndef; VUndef]
                   end in
          let '(v, h) := alloc h (OArr p) in (i ++ [v], h))
        ([], h) (elements h e) in
      alloc h (OArr i)
  end.

Definition set_resolve (h : store) (e : value) : bool :=
  match e with
  | VNull => true
  | _ => match properties h e with
         | Some l => forallb (fun p => bool_decide (p.2 = VNull)) l
         | None => true
         end
  end.

(** ** js/regexp and js/function *)

(** What follows the last slash, if it is only flags: the group of the pattern. *)
Fixpoint regexp_flags (s : jsstring) : option jsstring :=
  match s with
  | [] => None
  | c :: s' =>
      if (c =? 47) && forallb (fun c => (c =? 103) || (c =? 105) || (c =? 109)) s' then Some s'
      else regexp_flags s'
  end.

Definition regexp_resolve (e : option jsstring) : bool :=
  match e with
  | None | Some [] => false
  | Some t =>
      if starts_with 47 t then
        let r := default [] (regexp_flags t) in
        (zlen r <=? 3) && bool_decide (zget t (zlen t - zlen r - 1) = Some 47)
      else true
  end.

Definition regexp_construct (t : jsstring) : jsstring * jsstring :=
  if starts_with 47 t then
    let r := default [] (regexp_flags t) in
    (zsub t 1 (zlen t - zlen r - 1), r)
  else (t, []).

(** What esprima reports of a program: the type and the statements, each with its
    expression; of a function expression the names of the parameters, the type of
    the body and its range. *)
Record expression := {
  ex_type : jsstring;
  ex_params : list (option jsstring);
  ex_body_type : jsstring;
  ex_range : Z * Z
}.
Record program := { pr_type : jsstring; pr_body : list (jsstring * expression) }.

(** The page the bundle runs in: [window.esprima], if it is there, which arguments
    the RegExp and Function constructors accept, and the text of a date in the
    time zone of the page, the [source] of a RegExp and the text of a function. *)
Record host := {
  esprima : option (jsstring -> option program);
  RegExp_ok : jsstring -> jsstring -> bool;
  Function_ok : list (option jsstring) -> jsstring -> bool;
  Date_text : Z -> jsstring;
  RegExp_source : jsstring -> jsstring;
  Function_text : list (option jsstring) -> jsstring -> jsstring
}.

Definition function_expression (w : host) (n : jsstring) : option expression :=
  match esprima w with
  | None => None
  | Some parse =>
      match parse n with
      | Some o =>
          match pr_body o with
          | [(st, ex)] =>
              if bool_decide (pr_type o = js "Program") && bool_decide (st = js "ExpressionStatement")
                 && (bool_decide (ex_type ex = js "ArrowFunctionExpression")
                     || bool_decide (ex_type ex = js "FunctionExpression"))
              then Some ex else None
          | _ => None
          end
      | None => None
      end
  end.

Definition function_resolve (w : host) (e : option jsstring) : bool :=
  match e with
  | None => false
  | Some e => bool_decide (is_Some (function_expression w (js "(" ++ e ++ js ")")))
  end.

Definition function_construct (w : host) (e : jsstring) : res obj :=
  let n := js "(" ++ e ++ js ")" in
  match function_expression w n with
  | None => Throw (JsError "Failed to resolve function")
  | Some ex =>
      let '(a, b) := ex_range ex in
      let body := if bool_decide (ex_body_type ex = js "BlockStatement") then zsub n (a + 1) (b - 1)
                  else js "return " ++ zsub n a b in
      if Function_ok w (ex_params ex) body then Ok (OFun (ex_params ex) body)
      else Throw (SyntaxError "Invalid function")
  end.

(** ** resolve and construct of a type *)

(** The text given to a scalar type. *)
Definition text (v : value) : option jsstring :=
  match v with VStr s => Some s | _ => None end.

Definition resolve_scalar (w : host) (t : ytype) (e : option jsstring) : bool :=
  match t with
  | TNull => null_resolve e
  | TBool => bool_resolve e
  | TInt => int_resolve e
  | TFloat => float_resolve e
  | TTimestamp => timestamp_resolve e
  | TMerge => merge_resolve e
  | TBinary => binary_resolve e
  | TRegexp => regexp_resolve e
  | TFunction => function_resolve w e
  | _ => true
  end.

(** A scalar type is given a text or null. The loader passes it a collection only
    for the tag [!<?>], its own mark of a plain scalar written in the input; the types that
    only compare the value do not resolve it, and the others are not reached (YamlLoad). *)
Definition resolve (w : host) (t : ytype) (h : store) (v : value) : bool :=
  match t with
  | TStr | TSeq | TMap | TUndefined => true
  | TOmap => omap_resolve h v
  | TPairs => pairs_resolve h v
  | TSet => set_resolve h v
  | _ => match v with VRef _ => false | _ => resolve_scalar w t (text v) end
  end.

Definition str_construct (v : value) : value := match v with VNull => VStr [] | _ => v end.
Definition seq_construct (h : store) (v : value) : value * store :=
  match v with VNull => alloc h (OArr []) | _ => (v, h) end.
Definition map_construct (h : store) (v : value) : value * store :=
  match v with VNull => alloc h (OObj []) | _ => (v, h) end.

Definition construct (w : host) (t : ytype) (h : store) (v : value) : res (value * store) :=
  let s := default [] (text v) in
  match t with
  | TStr => Ok (str_construct v, h)
  | TSeq | TOmap => Ok (seq_construct h v)
  | TMap | TSet => Ok (map_construct h v)
  | TNull => Ok (VNull, h)
  | TBool => Ok (VBool (bool_construct s), h)
  | TInt => Ok (VNum (int_construct s), h)
  | TFloat => Ok (VNum (float_construct s), h)
  | TTimestamp => let! ms := timestamp_construct s in Ok (alloc h (ODate ms))
  | TMerge => Ok (v, h)
  | TBinary => Ok (alloc h (OBuf (binary_construct s)))
  | TPairs => Ok (pairs_construct h v)
  | TUndefined => Ok (VUndef, h)
  | TRegexp =>
      let '(t, r) := regexp_construct s in
      if RegExp_ok w t r then Ok (alloc h (ORegExp t r)) else Throw (SyntaxError "Invalid regular expression")
  | TFunction => let! o := function_construct w s in Ok (alloc h o)
  end.

(** ** Schema *)

Section Schema.
(** Any types with a tag and a kind. *)
Context {T : Type} (tag_of : T -> jsstring) (kind_of : T -> kind).

Inductive schema := Schema (include : list schema) (implicit explicit : list T).

Definition same_type (a b : T) : bool :=
  bool_decide (tag_of a = tag_of b) && bool_decide (kind_of a = kind_of b).

(** The indices of [n] whose type has the tag and kind of [e]. *)
Definition overridden (e : T) (n : list T) : list nat :=
  map fst (List.filter (fun p => same_type (snd p) e) (imap pair n)).

(** The second half of [compileList]: appends the types [l] to [n] and drops the
    ones a later type overrides. *)
Definition append_types (l n : list T) : list T :=
  let '(r, n) := foldl (fun acc e => let '(r, n) := acc in (r ++ overridden e n, n ++ [e])) ([], n) l in
  map snd (List.filter (fun p => negb (bool_decide (fst p ∈ r))) (imap pair n)).

Fixpoint compileList (s : schema) (sel : list T * list T -> list T) (n : list T) : list T :=
  match s with
  | Schema include implicit explicit =>
      append_types (sel (implicit, explicit)) (foldl (fun n s => compileList s sel n) n include)
  end.

Definition compiledImplicit (s : schema) : list T := compileList s fst [].
Definition compiledExplicit (s : schema) : list T := compileList s snd [].

(** [compiledTypeMap[kind][tag]], the last type entered; [None] is the map of all
    kinds. *)
Definition type_map (s : schema) (k : option kind) (tag : jsstring) : option T :=
  List.find (fun t => bool_decide (tag_of t = tag)
                      && match k with Some k => bool_decide (kind_of t = k) | None => true end)
    (reverse (compiledImplicit s ++ compiledExplicit s)).

(** *** The last definition of a tag and kind wins *)

(** The types of a schema, the included ones first. *)
Fixpoint all_types (s : schema) (sel : list T * list T -> list T) : list T :=
  match s with
  | Schema include implicit explicit =>
      concat (map (fun s => all_types s sel) include) ++ sel (implicit, explicit)
  end.

(** Drops a type when a later one has its tag and kind. *)
Fixpoint keep_last (l : list T) : list T :=
  match l with
  | [] => []
  | t :: l' => if existsb (same_type t) l' then keep_last l' else t :: keep_last l'
  end.

Lemma same_type_iff a b : same_type a b = true <-> tag_of a = tag_of b /\ kind_of a = kind_of b.
Proof. unfold same_type. rewrite andb_true_iff, !bool_decide_eq_true. done. Qed.

Lemma same_type_sym a b : same_type a b = same_type b a.
Proof. apply eq_bool_prop_intro; rewrite !Is_true_true, !same_type_iff; naive_solver. Qed.

Lemma same_type_trans a b c : same_type a b = true -> same_type b c = true -> same_type a c = true.
Proof. rewrite !same_type_iff. naive_solver congruence. Qed.

Lemma existsb_keep_last t l : existsb (same_type t) (keep_last l) = existsb (same_type t) l.
Proof.
  induction l as [|u l IH]; simpl; [done|].
  destruct (existsb (same_type u) l) eqn:Hu; simpl; rewrite IH; [|done].
  destruct (same_type t u) eqn:Htu; [|done]. simpl.
  apply existsb_exists in Hu as (v & Hv & Huv). apply existsb_exists.
  exists v. split; [done|]. by eapply same_type_trans.
Qed.

Lemma keep_last_app a b :
  keep_last (a ++ b) = List.filter (fun t => negb (existsb (same_type t) b)) (keep_last a) ++ keep_last b.
Proof.
  induction a as [|t a IH]; simpl; [done|].
  rewrite existsb_app.
  destruct (existsb (same_type t) a) eqn:Ha; simpl; [done|].
  destruct (existsb (same_type t) b); simpl; by rewrite IH.
Qed.

Lemma keep_last_idem a : keep_last (keep_last a) = keep_last a.
Proof.
  induction a as [|t a IH]; simpl; [done|].
  destruct (existsb (same_type t) a) eqn:Ha; [done|]. simpl.
  by rewrite existsb_keep_last, Ha, IH.
Qed.

Lemma keep_last_fold a b : keep_last (keep_last a ++ b) = keep_last (a ++ b).
Proof. by rewrite !keep_last_app, keep_last_idem. Qed.

(** The indices [append_types] drops. *)
Lemma overridden_iff e n i :
  i ∈ overridden e n <-> exists t, n !! i = Some t /\ same_type t e = true.
Proof.
  unfold overridden. rewrite list_elem_of_fmap. split.
  - intros ([j t] & -> & Hin). apply list_elem_of_In, filter_In in Hin as [Hin Hs].
    apply list_elem_of_In, elem_of_lookup_imap in Hin as (j' & t' & [= -> ->] & Hj). eauto.
  - intros (t & Hi & Hs). exists (i, t). split; [done|].
    apply list_elem_of_In, filter_In. split; [|done].
    apply list_elem_of_In, elem_of_lookup_imap. eauto.
Qed.

Lemma marks_spec l : forall r n,
  let '(r', n') := foldl (fun acc e => let '(r, n) := acc in (r ++ overridden e n, n ++ [e])) (r, n) l in
  n' = n ++ l /\
  forall i, i ∈ r' <-> i ∈ r \/ exists k e t, l !! k = Some e /\ (n ++ take k l) !! i = Some t /\ same_type t e = true.
Proof.
  induction l as [|e l IH]; intros r n; simpl.
  - rewrite app_nil_r. split; [done|]. intros i. split; [by left|].
    intros [?|(k & e & t & Hk & _)]; [done|]. by rewrite lookup_nil in Hk.
  - specialize (IH (r ++ overridden e n) (n ++ [e])).
    destruct (foldl _ _ l) as [r' n']. destruct IH as [-> IH].
    split; [by rewrite <- app_assoc|]. intros i. rewrite IH, elem_of_app, overridden_iff. split.
    + intros [[Hr|(t & Ht & Hs)]|(k & e' & t & Hk & Ht & Hs)]; [by left| |].
      * right. exists 0%nat, e, t. simpl. by rewrite app_nil_r.
      * right. exists (S k), e', t. simpl. by rewrite <- app_assoc in Ht.
    + intros [Hr|([|k] & e' & t & Hk & Ht & Hs)]; [by left; left| |]; simpl in *.
      * simplify_eq. rewrite app_nil_r in Ht. left. right. eauto.
      * right. exists k, e', t. by rewrite <- app_assoc.
Qed.

Lemma filter_indexed (f : nat -> bool) t N :
  map (@snd nat T) (List.filter (fun p => f (fst p)) (imap pair (t :: N)))
  = (if f 0%nat then [t] else []) ++ map snd (List.filter (fun p => f (S (fst p))) (imap pair N)).
Proof.
  rewrite imap_cons. simpl.
  enough (map snd (List.filter (fun p => f (fst p)) (imap (pair ∘ S) N))
    = map snd (List.filter (fun p => f (S (fst p))) (imap pair N))) as <- by (by destruct (f 0%nat)).
  assert (imap (pair ∘ S) N = (fun p : nat * T => (S (fst p), snd p)) <$> imap pair N) as ->.
  { rewrite fmap_imap. by apply imap_ext. }
  induction (imap pair N) as [|[i u] L IH]; [done|]. rewrite fmap_cons. cbn [List.filter fst snd].
  destruct (f (S i)); cbn [map]; by rewrite IH.
Qed.

(** Keeping the indices no later type of the appended part overrides. *)
Lemma filter_unmarked (f : nat -> bool) n l :
  (forall i t, (n ++ l) !! i = Some t ->
     f i = negb (existsb (same_type t) (drop (Nat.max (S i) (length n)) (n ++ l)))) ->
  map (@snd nat T) (List.filter (fun p => f (fst p)) (imap pair (n ++ l)))
  = List.filter (fun t => negb (existsb (same_type t) l)) n ++ keep_last l.
Proof.
  revert f. induction n as [|t n IH]; intros f Hf; simpl app.
  - revert f Hf. induction l as [|t l IHl]; intros f Hf; [done|].
    rewrite filter_indexed, (IHl (fun i => f (S i))) by (intros i u Hu; by apply (Hf (S i) u)).
    rewrite (Hf 0%nat t eq_refl). simpl. rewrite drop_0. by destruct (existsb _ l).
  - rewrite filter_indexed, (IH (fun i => f (S i))) by (intros i u Hu; by apply (Hf (S i) u)).
    rewrite (Hf 0%nat t eq_refl). simpl. rewrite drop_app_length. by destruct (existsb _ l).
Qed.

Lemma append_types_spec l n :
  append_types l n = List.filter (fun t => negb (existsb (same_type t) l)) n ++ keep_last l.
Proof.
  unfold append_types. pose proof (marks_spec l [] n) as Hm.
  destruct (foldl _ _ l) as [r n']. destruct Hm as [-> Hr].
  apply (filter_unmarked (fun i => negb (@bool_decide (i ∈ r) (decide_rel elem_of i r)))).
  intros i t Hi. f_equal. apply eq_bool_prop_intro.
  rewrite bool_decide_spec, Is_true_true, existsb_exists, Hr. split.
  - intros [Hnil|(k & e & u & Hk & Hu & Hs)]; [by apply elem_of_nil in Hnil|].
    assert ((n ++ take k l) !! i = (n ++ l) !! i) as Heq.
    { apply lookup_lt_Some in Hu as Hlt. rewrite length_app, length_take in Hlt.
      destruct (decide (i < length n)%nat); [by rewrite !lookup_app_l by lia|].
      rewrite !lookup_app_r by lia. apply lookup_take_lt. lia. }
    rewrite Hi, Hu in Heq. injection Heq as ->. exists e. split; [|done].
    apply lookup_lt_Some in Hu as Hlt. rewrite length_app, length_take in Hlt.
    apply list_elem_of_In, (list_elem_of_lookup_2 _ (length n + k - Nat.max (S i) (length n))%nat).
    rewrite lookup_drop, lookup_app_r by lia. rewrite <- Hk. f_equal. lia.
  - intros (e & Hin & Hs). right. apply list_elem_of_In, list_elem_of_lookup_1 in Hin as [j Hj].
    rewrite lookup_drop, lookup_app_r in Hj by lia.
    exists (Nat.max (S i) (length n) + j - length n)%nat, e, t. split; [done|]. split; [|done].
    rewrite <- Hi. destruct (decide (i < length n)%nat); [by rewrite !lookup_app_l by lia|].
    rewrite !lookup_app_r by lia. apply lookup_take_lt. lia.
Qed.

Fixpoint compileList_spec (s : schema) sel m {struct s} :
  compileList s sel (keep_last m) = keep_last (m ++ all_types s sel).
Proof.
  destruct s as [include implicit explicit]. simpl.
  assert (forall m, foldl (fun n s => compileList s sel n) (keep_last m) include
    = keep_last (m ++ concat (map (fun s => all_types s sel) include))) as ->.
  { clear m. induction include as [|s include IH]; intros m; simpl; [by rewrite app_nil_r|].
    by rewrite (compileList_spec s sel m), IH, app_assoc. }
  rewrite append_types_spec, (app_assoc m). symmetry. apply keep_last_app.
Qed.

Lemma keep_last_nodup l : NoDup (map (fun t => (tag_of t, kind_of t)) (keep_last l)).
Proof.
  induction l as [|t l IH]; simpl; [constructor|].
  destruct (existsb (same_type t) l) eqn:Ht; [done|]. simpl. constructor; [|done].
  rewrite list_elem_of_fmap. intros (u & Hu & Hin). injection Hu as Htag Hkind.
  rewrite <- existsb_keep_last in Ht.
  assert (existsb (same_type t) (keep_last l) = true); [|congruence].
  apply existsb_exists. exists u. split; [by apply list_elem_of_In|]. by apply same_type_iff.
Qed.

(** The types a schema compiles ([compileList], with its lists of overridden
    indices over included schemas of any depth) are those of the included schemas
    followed by its own, where a type is dropped exactly when a later one has the
    same tag and kind; so the last definition of a tag and kind wins and no two
    types of a compiled list share both. *)
Theorem schema_last_wins s :
  compiledImplicit s = keep_last (all_types s fst) /\
  compiledExplicit s = keep_last (all_types s snd) /\
  NoDup (map (fun t => (tag_of t, kind_of t)) (compiledImplicit s)) /\
  NoDup (map (fun t => (tag_of t, kind_of t)) (compiledExplicit s)).
Proof.
  assert (compiledImplicit s = keep_last (all_types s fst)) as Hi by apply (compileList_spec s fst []).
  assert (compiledExplicit s = keep_last (all_types s snd)) as He by apply (compileList_spec s snd []).
  rewrite Hi, He. by auto using keep_last_nodup.
Qed.

End Schema.
Arguments Schema {T}.
Arguments schema : clear implicits.

Definition FAILSAFE_SCHEMA : schema ytype := Schema [] [] [TStr; TSeq; TMap].
Definition JSON_SCHEMA : schema ytype := Schema [FAILSAFE_SCHEMA] [TNull; TBool; TInt; TFloat] [].
Definition CORE_SCHEMA : schema ytype := Schema [JSON_SCHEMA] [] [].
Definition DEFAULT_SAFE_SCHEMA : schema ytype :=
  Schema [CORE_SCHEMA] [TTimestamp; TMerge] [TBinary; TOmap; TPairs; TSet].

Definition DEFAULT_FULL_SCHEMA : schema ytype :=
  Schema [DEFAULT_SAFE_SCHEMA] [] [TUndefined; TRegexp; TFunction].

(** ** Properties that are read and assigned *)

Lemma own_put {B} k k' (v : B) m : own k (put k' v m) = if decide (k' = k) then Some v else own k m.
Proof.
  induction m as [|[x w] m IH]; cbn [put own]; [done|].
  destruct (decide (x = k')) as [->|Hx]; cbn [own]; [by destruct (decide (k' = k))|].
  rewrite IH. destruct (decide (x = k)), (decide (k' = k)); congruence.
Qed.

Lemma own_assign {B} k k' (v : B) m : own k (assign k' v m) = if decide (k' = k /\ k <> js "__proto__") then Some v else own k m.
Proof.
  unfold assign. destruct (decide (k' = js "__proto__")) as [->|H]; [rewrite decide_False by naive_solver; done|].
  rewrite own_put. destruct (decide (k' = k)) as [->|Hk]; [by rewrite decide_True|by rewrite decide_False by naive_solver].
Qed.

End YamlSchema.
