(* ===== verification/YamlLoad.v ===== *)
(** * js-yaml: the loader

    A model of the loader of js-yaml (swagger-ui-bundle.js, 26470 to 26842): the
    reader state of one input, every scanning function, [composeNode], the
    documents of a stream, [load], [loadAll], [safeLoad] and [safeLoadAll].

    The functions are state passing: an error is the exception of the code with its
    position, and [Fuel] is the outcome of a loop that used up its bound; the last
    part shows that no input reaches it.  [Leaves] is the outcome where the code goes
    on with what the model does not have: a call of a function of the document, a
    changed prototype, a scalar type applied to a collection. *)

From S2P Require Import Prelude JsString JsNum Regex YamlTypes YamlTime YamlSchema Utf8.
From Stdlib Require Import String.
From stdpp Require Import base numbers list strings option.
Open Scope Z_scope.

Module YamlLoad.
Import Regex YamlTypes YamlSchema.

(** ** The state of a load *)

Record st := mkst {
  position : Z; line : Z; lineStart : Z; lineIndent : Z;
  tag : option jsstring; anchor : option jsstring; kind_ : option kind; result : value;
  version : option jsstring; checkLineBreaks : bool;
  tagMap : list (jsstring * jsstring); anchorMap : list (jsstring * value);
  documents : list value; heap : store; warnings : list jsstring
}.

Definition at_ (p : Z) (e : st) : st :=
  mkst p (line e) (lineStart e) (lineIndent e) (tag e) (anchor e) (kind_ e) (result e)
    (version e) (checkLineBreaks e) (tagMap e) (anchorMap e) (documents e) (heap e) (warnings e).

Definition with_line (l ls li : Z) (e : st) : st :=
  mkst (position e) l ls li (tag e) (anchor e) (kind_ e) (result e)
    (version e) (checkLineBreaks e) (tagMap e) (anchorMap e) (documents e) (heap e) (warnings e).

Definition with_lineIndent (li : Z) (e : st) : st := with_line (line e) (lineStart e) li e.

Definition with_node (t a : option jsstring) (k : option kind) (r : value) (e : st) : st :=
  mkst (position e) (line e) (lineStart e) (lineIndent e) t a k r
    (version e) (checkLineBreaks e) (tagMap e) (anchorMap e) (documents e) (heap e) (warnings e).

Definition with_tag (t : option jsstring) (e : st) : st := with_node t (anchor e) (kind_ e) (result e) e.
Definition with_anchor (a : option jsstring) (e : st) : st := with_node (tag e) a (kind_ e) (result e) e.
Definition with_result (r : value) (e : st) : st := with_node (tag e) (anchor e) (kind_ e) r e.
Definition with_scalar (k : option kind) (r : value) (e : st) : st := with_node (tag e) (anchor e) k r e.

Definition with_maps (v : option jsstring) (c : bool) (tm : list (jsstring * jsstring))
    (am : list (jsstring * value)) (e : st) : st :=
  mkst (position e) (line e) (lineStart e) (lineIndent e) (tag e) (anchor e) (kind_ e) (result e)
    v c tm am (documents e) (heap e) (warnings e).

Definition with_anchorMap (am : list (jsstring * value)) (e : st) : st :=
  with_maps (version e) (checkLineBreaks e) (tagMap e) am e.

Definition with_store (d : list value) (h : store) (w : list jsstring) (e : st) : st :=
  mkst (position e) (line e) (lineStart e) (lineIndent e) (tag e) (anchor e) (kind_ e) (result e)
    (version e) (checkLineBreaks e) (tagMap e) (anchorMap e) d h w.

Definition with_heap (h : store) (e : st) : st := with_store (documents e) h (warnings e) e.

(** ** Outcomes *)

(** A YAMLException with or without a mark, or another exception. *)
Inductive failure :=
| YAMLException (reason : jsstring) (position line column : Z)
| YAMLException_unmarked (reason : jsstring)
| Exception (err : jserr).

(** Where the model ends: a function that the document has made is called; an assignment to
    [__proto__] makes a node of the document the prototype of a mapping or of the map of the
    anchors; a type of scalars gets a collection. *)
Inductive beyond := RunsFunction | SetsPrototype | CollectionAsScalar.

Inductive out (A : Type) :=
| Ret (a : A) (e : st)
| Fails (f : failure)
| Leaves (b : beyond)
| Fuel.
Arguments Ret {A} a e.
Arguments Fails {A} f.
Arguments Leaves {A} b.
Arguments Fuel {A}.

Definition M (A : Type) : Type := st -> out A.

Definition ret {A} (a : A) : M A := fun e => Ret a e.
Definition bind {A B} (m : M A) (k : A -> M B) : M B := fun e =>
  match m e with
  | Ret a e' => k a e'
  | Fails f => Fails f
  | Leaves b => Leaves b
  | Fuel => Fuel
  end.

Notation "'do!' x ':=' m 'in' k" := (bind m (fun x => k))
  (at level 10, x pattern, m at level 100, k at level 200) : js_scope.
Notation "'run!' m 'in' k" := (bind m (fun _ => k))
  (at level 10, m at level 100, k at level 200) : js_scope.

Definition get : M st := fun e => Ret e e.
Definition upd (f : st -> st) : M unit := fun e => Ret tt (f e).

(** [I], throwError, and [j], throwWarning. *)
Definition throwError {A} (reason : jsstring) : M A := fun e =>
  Fails (YAMLException reason (position e) (line e) (position e - lineStart e)).

Definition throwWarning (m : jsstring) : M unit :=
  upd (fun e => with_store (documents e) (heap e) (warnings e ++ [m]) e).

Definition lift {A} (r : res A) : M A := fun e =>
  match r with Ok a => Ret a e | Throw x => Fails (Exception x) end.

(** ** Characters *)

Definition is_eol (c : Z) : bool := (c =? 10) || (c =? 13).
Definition is_white (c : Z) : bool := (c =? 9) || (c =? 32).
Definition is_ws_or_eol (c : Z) : bool := (c =? 9) || (c =? 32) || (c =? 10) || (c =? 13).
Definition is_flow (c : Z) : bool :=
  (c =? 44) || (c =? 91) || (c =? 93) || (c =? 123) || (c =? 125).

Definition fromHexCode (e : Z) : Z :=
  if (48 <=? e) && (e <=? 57) then e - 48
  else let t := js_or 32 e in
    if (97 <=? t) && (t <=? 102) then t - 97 + 10 else -1.

Definition escapedHexLen (s : Z) : Z :=
  if s =? 120 then 2 else if s =? 117 then 4 else if s =? 85 then 8 else 0.

(** The empty string: not an escape. *)
Definition simpleEscapeSequence (e : Z) : jsstring :=
  if e =? 48 then [0] else if e =? 97 then [7] else if e =? 98 then [8]
  else if e =? 116 then [9] else if e =? 9 then [9] else if e =? 110 then [10]
  else if e =? 118 then [11] else if e =? 102 then [12] else if e =? 114 then [13]
  else if e =? 101 then [27] else if e =? 32 then [32] else if e =? 34 then [34]
  else if e =? 47 then [47] else if e =? 92 then [92] else if e =? 78 then [133]
  else if e =? 95 then [160] else if e =? 76 then [8232] else if e =? 80 then [8233] else [].

(** [String.fromCharCode] keeps 16 bits. *)
Definition charFromCodepoint (e : Z) : jsstring :=
  if e <=? 65535 then [e mod 65536]
  else [(55296 + js_shr (e - 65536) 10) mod 65536; (56320 + js_and (e - 65536) 1023) mod 65536].

Definition high_surrogate (c : Z) : bool := (55296 <=? c) && (c <=? 56319).
Definition low_surrogate (c : Z) : bool := (56320 <=? c) && (c <=? 57343).

Definition control_char (c : Z) : bool :=
  range 0 8 c || (c =? 11) || (c =? 12) || range 14 31 c || range 127 132 c || range 134 159 c
  || (c =? 65534) || (c =? 65535).

(** PATTERN_NON_PRINTABLE; [prev] tells that a high surrogate comes before [l]. *)
Fixpoint non_printable_from (prev : bool) (l : jsstring) : bool :=
  match l with
  | [] => false
  | c :: l' =>
      control_char c
      || (high_surrogate c && negb (match l' with d :: _ => low_surrogate d | [] => false end))
      || (low_surrogate c && negb prev)
      || non_printable_from (high_surrogate c) l'
  end.
Definition non_printable (l : jsstring) : bool := non_printable_from false l.

Definition json_char (a : Z) : bool := (a =? 9) || ((32 <=? a) && (a <=? 1114111)).

(** PATTERN_TAG_HANDLE and PATTERN_TAG_URI, both ignoring case. *)
Definition letter (c : Z) : bool := range 97 122 c || range 65 90 c.

Definition tag_handle_re : re :=
  choice [one 33; literal [33; 33];
          seqs [one 33; plus (RChr (fun c => letter c || (c =? 45))); one 33]].

Definition tag_uri_char (c : Z) : bool :=
  range 48 57 c || letter c || bool_decide (c ∈ js "-#;/?:@&=+$,_.!~*'()[]").

Definition tag_uri_re : re :=
  RSeq (RAlt (one 33) (RChr (fun c => negb (is_flow c))))
    (RStar (RAlt (seqs [one 37; RChr is_hex; RChr is_hex]) (RChr tag_uri_char))).

(** ** The functions of the loader *)

(** What does not change during a load: the input with its final NUL, the length
    before the NUL, the options and the compiled schema. *)
Record env := mkenv {
  input : jsstring;
  length_ : Z;
  json : bool;
  legacy : bool;
  implicitTypes : list ytype;
  typeMap : option kind -> jsstring -> option ytype;
  page : host
}.

Section Loader.
Context (v : env).

(** [charCodeAt]; out of range (NaN in the code) is -1, which no test accepts. *)
Definition ch (i : Z) : Z := default (-1) (zget (input v) i).

(** The length of the run of characters that satisfy [p], and the position after
    the run that starts at [i]: [while (p(ch)) ch = input.charCodeAt(++position)]. *)
Fixpoint run_len (p : Z -> bool) (l : jsstring) : Z :=
  match l with
  | [] => 0
  | c :: l' => if p c then 1 + run_len p l' else 0
  end.
Definition skip (p : Z -> bool) (i : Z) : Z := i + run_len p (drop (Z.to_nat i) (input v)).

(** The bound of the loops that consume input. *)
Definition loop_fuel : nat := S (S (length (input v))).

Definition append_text (u : jsstring) (r : value) : value :=
  match r with VStr s => VStr (s ++ u) | _ => VStr u end.
Definition add_result (u : jsstring) : M unit :=
  upd (fun e => with_result (append_text u (result e)) e).

Definition captureSegment (start stop : Z) (checkJson : bool) : M unit :=
  if start <? stop then
    let u := zsub (input v) start stop in
    if checkJson then
      if forallb json_char u then add_result u else throwError (js "expected valid JSON character")
    else if non_printable u then throwError (js "the stream contains non-printable characters")
    else add_result u
  else ret tt.

(** [D], [L]: the text of a key, and the pairs of a mapping. *)

(** The own properties [Object.keys] lists, with their values; [None]: not an object. *)
Definition entries (h : store) (x : value) : option (list (jsstring * value)) :=
  match x with
  | VRef a =>
      match h !! a with
      | Some (OArr l) => Some (imap (fun i y => (digits 10 (Z.of_nat i), y)) l)
      | Some (OObj l) => Some (map (fun k => (k, default VUndef (own k l))) (object_keys l))
      | Some (OBuf b) => Some (imap (fun i y => (digits 10 (Z.of_nat i), VNum (JInt y))) b)
      | Some (ODate _) | Some (ORegExp _ _) => Some []
      | Some (OFun _ _) | None => None
      end
  | _ => None
  end.

(** What a conversion to a string gives: the text or an exception; [None] if it calls a function
    of the document. *)
Abbreviation texted := (option (res jsstring)).

Fixpoint join_text (l : list texted) : texted :=
  match l with
  | [] => Some (Ok [])
  | [x] => x
  | x :: l' =>
      match x with
      | Some (Ok a) => match join_text l' with Some (Ok b) => Some (Ok (a ++ [44] ++ b)) | r => r end
      | r => r
      end
  end.

(** The flags of a RegExp, in the order its [flags] has. *)
Definition flags_text (f : jsstring) : jsstring := List.filter (fun c => bool_decide (c ∈ f)) (js "gim").

Definition callable (h : store) (x : value) : bool :=
  match x with VRef a => match h !! a with Some (OFun _ _) => true | _ => false end | _ => false end.

(** The text of an object with these properties: an own [toString] is called if it is a function,
    and otherwise an own [valueOf]; those that every object inherits give [[object Object]] and no
    primitive value. *)
Definition object_text (h : store) (l : list (jsstring * value)) : texted :=
  match own (js "toString") l with
  | None => Some (Ok (js "[object Object]"))
  | Some f =>
      if callable h f then None
      else match own (js "valueOf") l with
           | Some g => if callable h g then None else Some (Throw (TypeError "Cannot convert object to primitive value"))
           | None => Some (Throw (TypeError "Cannot convert object to primitive value"))
           end
  end.

(** [String(x)]. An array inside itself contributes the empty string, as engines do. *)
Fixpoint text_of (fuel : nat) (seen : list nat) (h : store) (x : value) : texted :=
  match x with
  | VUndef => Some (Ok (js "undefined"))
  | VNull => Some (Ok (js "null"))
  | VBool b => Some (Ok (js (if b then "true" else "false")))
  | VNum n => Some (Ok (jn_to_string n))
  | VStr s => Some (Ok s)
  | VRef a =>
      match h !! a with
      | Some (OArr l) =>
          match fuel with
          | O => Some (Ok [])
          | S k =>
              if bool_decide (a ∈ seen) then Some (Ok [])
              else join_text (map (fun y => match y with
                                            | VUndef | VNull => Some (Ok [])
                                            | _ => text_of k (a :: seen) h y
                                            end) l)
          end
      | Some (OObj l) => object_text h l
      | Some (OBuf b) => Some (Ok (Utf8.utf8Slice b 0 (zlen b)))
      | Some (ODate ms) => Some (Ok (Date_text (page v) ms))
      | Some (ORegExp s f) => Some (Ok ([47] ++ RegExp_source (page v) s ++ [47] ++ flags_text f))
      | Some (OFun ps b) => Some (Ok (Function_text (page v) ps b))
      | None => Some (Ok [])
      end
  end.
Definition String_ (h : store) (x : value) : texted := text_of (S (length h)) [] h x.
Definition lift_text (r : texted) : M jsstring := match r with Some r => lift r | None => fun _ => Leaves RunsFunction end.

(** Whether an assignment to [k] changes a prototype; a primitive value changes nothing. *)
Definition sets_prototype (k : jsstring) (x : value) : bool :=
  bool_decide (k = js "__proto__") && match x with VRef _ | VNull => true | _ => false end.
Definition guard_prototype (k : jsstring) (x : value) : M unit := fun e => if sets_prototype k x then Leaves SetsPrototype else Ret tt e.

(** Changes the properties of the object at an address. *)
Definition alter_object (a : nat) (f : list (jsstring * value) -> list (jsstring * value)) (h : store) : store :=
  alter (fun o => match o with OObj l => OObj (f l) | o => o end) a h.

Definition object_at (h : store) (a : nat) : list (jsstring * value) :=
  match h !! a with Some (OObj l) => l | _ => [] end.

Definition push (a : nat) (x : value) : M unit :=
  upd (fun e => with_heap (alter (fun o => match o with OArr l => OArr (l ++ [x]) | o => o end) a (heap e)) e).

Definition new_object (o : obj) : M nat := fun e =>
  Ret (length (heap e)) (with_heap (heap e ++ [o]) e).

Abbreviation keys := (list (jsstring * value)).

Definition mergeMappings (t : nat) (n : value) (over : keys) : M keys :=
  do! e := get in
  match entries (heap e) n with
  | None => throwError (js "cannot merge mappings; the provided source object is unacceptable")
  | Some l =>
      let '(h, over) := foldl (fun acc p =>
          let '(h, over) := acc in
          match own p.1 (object_at h t) with
          | Some _ => (h, over)
          | None => (alter_object t (assign p.1 p.2) h, assign p.1 (VBool true) over)
          end) (heap e, over) l in
      run! upd (with_heap h) in ret over
  end.

Fixpoint mergeAll (t : nat) (l : list value) (over : keys) : M keys :=
  match l with
  | [] => ret over
  | n :: l' => do! over := mergeMappings t n over in mergeAll t l' over
  end.

(** [where_]: the line and position of the key, to report; 0 counts as absent. *)
Definition storeMappingPair (t : option nat) (over : keys) (keyTag : option jsstring)
    (keyNode valueNode : value) (where_ : option (Z * Z)) : M (nat * keys) :=
  do! e := get in
  do! o := lift_text (String_ (heap e) keyNode) in
  do! t := match t with Some t => ret t | None => new_object (OObj []) end in
  if decide (keyTag = Some (js "tag:yaml.org,2002:merge")) then
    do! e := get in
    do! over := match valueNode with
                | VRef a => match heap e !! a with
                            | Some (OArr l) => mergeAll t l over
                            | _ => mergeMappings t valueNode over
                            end
                | _ => mergeMappings t valueNode over
                end in
    ret (t, over)
  else
    do! e := get in
    run! (if json v || bool_decide (is_Some (own o over))
             || negb (bool_decide (is_Some (own o (object_at (heap e) t)))) then ret tt
          else
            run! (match where_ with
                  | Some (l, p) => upd (fun e =>
                      at_ (if p =? 0 then position e else p)
                        (with_line (if l =? 0 then line e else l) (lineStart e) (lineIndent e) e))
                  | None => ret tt
                  end) in
            throwError (js "duplicated mapping key")) in
    run! guard_prototype o valueNode in
    run! upd (fun e => with_heap (alter_object t (assign o valueNode) (heap e)) e) in
    ret (t, remove o over).

(** ** Line breaks, separation and document marks *)

Definition readLineBreak : M unit := fun e =>
  let t := ch (position e) in
  if t =? 10 then
    Ret tt (with_line (line e + 1) (position e + 1) (lineIndent e) (at_ (position e + 1) e))
  else if t =? 13 then
    let p := if ch (position e + 1) =? 10 then position e + 2 else position e + 1 in
    Ret tt (with_line (line e + 1) p (lineIndent e) (at_ p e))
  else throwError (js "a line break is expected") e.

Fixpoint skip_lines (fuel : nat) (allowComments : bool) (r : Z) : M Z := fun e =>
  match fuel with
  | O => Fuel
  | S k =>
      if ch (position e) =? 0 then Ret r e
      else
        let p := skip is_white (position e) in
        let p := if allowComments && (ch p =? 35)
                 then skip (fun o => negb (o =? 10) && negb (o =? 13) && negb (o =? 0)) (p + 1) else p in
        if is_eol (ch p) then
          (run! readLineBreak in
           run! upd (fun e => let q := skip (Z.eqb 32) (position e) in
                              with_lineIndent (q - position e) (at_ q e)) in
           skip_lines k allowComments (r + 1)) (at_ p e)
        else Ret r (at_ p e)
  end.

(** The number of line breaks skipped. *)
Definition skipSeparationSpace (allowComments : bool) (checkIndent : Z) : M Z :=
  do! r := skip_lines loop_fuel allowComments 0 in
  do! e := get in
  run! (if negb (checkIndent =? -1) && negb (r =? 0) && (lineIndent e <? checkIndent)
        then throwWarning (js "deficient indentation") else ret tt) in
  ret r.

Definition testDocumentSeparator (e : st) : bool :=
  let n := position e in
  let t := ch n in
  ((t =? 45) || (t =? 46)) && (t =? ch (n + 1)) && (t =? ch (n + 2))
  && ((ch (n + 3) =? 0) || is_ws_or_eol (ch (n + 3))).

Definition writeFoldedLines (t : Z) : M unit :=
  if t =? 1 then add_result [32]
  else if 1 <? t then add_result (repeat [10] (t - 1)) else ret tt.

(** ** Properties of a node *)

Definition set_anchorMap (x : value) : M unit := fun e =>
  match anchor e with
  | Some a => (run! guard_prototype a x in upd (fun e => with_anchorMap (assign a x (anchorMap e)) e)) e
  | None => Ret tt e
  end.

(** The loop over the characters of a tag that is not verbatim: the handle, whether
    a handle was seen, the start of the suffix. *)
Fixpoint tag_loop (fuel : nat) (n : jsstring) (a : bool) (t : Z) : M (jsstring * Z) := fun e =>
  match fuel with
  | O => Fuel
  | S k =>
      let o := ch (position e) in
      if (o =? 0) || is_ws_or_eol o then Ret (n, t) e
      else if o =? 33 then
        if a then throwError (js "tag suffix cannot contain exclamation marks") e
        else
          let n := zsub (input v) (t - 1) (position e + 1) in
          if test tag_handle_re n then tag_loop k n true (position e + 1) (at_ (position e + 1) e)
          else throwError (js "named tag handle cannot contain such characters") e
      else tag_loop k n a t (at_ (position e + 1) e)
  end.

Definition readTagProperty : M bool := fun e =>
  if negb (ch (position e) =? 33) then Ret false e
  else if bool_decide (is_Some (tag e)) then throwError (js "duplication of a tag property") e
  else
    let o := ch (position e + 1) in
    let i := o =? 60 in
    let a := o =? 33 in
    let n := if a then [33; 33] else [33] in
    let t := if i || a then position e + 2 else position e + 1 in
    (do! (n, r) :=
       (if i then
          let p := skip (fun o => negb (o =? 0) && negb (o =? 62)) (t + 1) in
          run! upd (at_ p) in
          if p <? length_ v then run! upd (at_ (p + 1)) in ret (n, zsub (input v) t p)
          else throwError (js "unexpected end of the stream within a verbatim tag")
        else
          run! upd (at_ t) in
          do! (n, t) := tag_loop loop_fuel n a t in
          do! e := get in
          let r := zsub (input v) t (position e) in
          if existsb is_flow r then throwError (js "tag suffix cannot contain flow indicator characters")
          else ret (n, r)) in
     run! (if bool_decide (r <> []) && negb (test tag_uri_re r)
           then throwError (js "tag name cannot contain such characters: " ++ r) else ret tt) in
     do! e := get in
     run! (if i then upd (with_tag (Some r))
           else match own n (tagMap e) with
                | Some prefix => upd (with_tag (Some (prefix ++ r)))
                | None =>
                    if decide (n = [33]) then upd (with_tag (Some ([33] ++ r)))
                    else if decide (n = [33; 33]) then upd (with_tag (Some (js "tag:yaml.org,2002:" ++ r)))
                    else throwError (js "undeclared tag handle " ++ [34] ++ n ++ [34])
                end) in
     ret true) e.

Definition name_char (c : Z) : bool := negb (c =? 0) && negb (is_ws_or_eol c) && negb (is_flow c).

Definition readAnchorProperty : M bool := fun e =>
  if negb (ch (position e) =? 38) then Ret false e
  else if bool_decide (is_Some (anchor e)) then throwError (js "duplication of an anchor property") e
  else
    let t := position e + 1 in
    let p := skip name_char t in
    if p =? t then throwError (js "name of an anchor node must contain at least one character") (at_ p e)
    else Ret true (with_anchor (Some (zsub (input v) t p)) (at_ p e)).

(** An anchor named [hasOwnProperty] hides the method the code calls; a function of the document
    under that name is called. *)
Definition readAlias : M bool := fun e =>
  if negb (ch (position e) =? 42) then Ret false e
  else
    let t := position e + 1 in
    let p := skip name_char t in
    let e := at_ p e in
    if p =? t then throwError (js "name of an alias node must contain at least one character") e
    else
      let n := zsub (input v) t p in
      match own (js "hasOwnProperty") (anchorMap e) with
      | Some f => if callable (heap e) f then Leaves RunsFunction
                  else Fails (Exception (TypeError "e.anchorMap.hasOwnProperty is not a function"))
      | None =>
          match own n (anchorMap e) with
          | None => throwError (js "unidentified alias " ++ [34] ++ n ++ [34]) e
          | Some x =>
              (run! upd (with_result x) in
               run! skipSeparationSpace true (-1) in ret true) e
          end
      end.

(** ** Scalars *)

Definition plain_start_excluded (c : Z) : bool :=
  is_ws_or_eol c || is_flow c || (c =? 35) || (c =? 38) || (c =? 42) || (c =? 33) || (c =? 124)
  || (c =? 62) || (c =? 39) || (c =? 34) || (c =? 37) || (c =? 64) || (c =? 96).

(** The loop of [readPlainScalar]: [o] and [i] delimit the captured text, [u] is the
    line where a pending line break was met ([None]: no pending content). Returns the
    text still to capture. *)
Fixpoint plain_loop (fuel : nat) (t : Z) (withinFlow : bool) (o i : Z) (u : option Z) : M (Z * Z) := fun e =>
  match fuel with
  | O => Fuel
  | S k =>
      let c := ch (position e) in
      let r := ch (position e + 1) in
      let consume : M (Z * Z) :=
        do! (o, i) := (match u with
                       | Some u =>
                           run! captureSegment o i false in
                           do! e := get in
                           run! writeFoldedLines (line e - u) in
                           ret (position e, position e)
                       | None => ret (o, i)
                       end) in
        do! e := get in
        let i := if is_white c then i else position e + 1 in
        run! upd (at_ (position e + 1)) in
        plain_loop k t withinFlow o i None in
      if c =? 0 then Ret (o, i) e
      else if c =? 58 then
        if is_ws_or_eol r || (withinFlow && is_flow r) then Ret (o, i) e else consume e
      else if c =? 35 then
        if is_ws_or_eol (ch (position e - 1)) then Ret (o, i) e else consume e
      else if ((position e =? lineStart e) && testDocumentSeparator e) || (withinFlow && is_flow c) then Ret (o, i) e
      else if is_eol c then
        (run! skipSeparationSpace false (-1) in
         do! e' := get in
         if t <=? lineIndent e' then plain_loop k t withinFlow o i (Some (line e))
         else run! upd (fun e' => at_ i (with_line (line e) (lineStart e) (lineIndent e) e')) in
              ret (o, i)) e
      else consume e
  end.

Definition readPlainScalar (t : Z) (withinFlow : bool) : M bool := fun e =>
  let c := ch (position e) in
  let r := ch (position e + 1) in
  if plain_start_excluded c then Ret false e
  else if ((c =? 63) || (c =? 45)) && (is_ws_or_eol r || (withinFlow && is_flow r)) then Ret false e
  else
    (run! upd (with_scalar (Some Scalar) (VStr [])) in
     do! (o, i) := plain_loop loop_fuel t withinFlow (position e) (position e) None in
     run! captureSegment o i false in
     do! e' := get in
     if decide (result e' = VStr []) then run! upd (with_scalar (kind_ e) (result e)) in ret false
     else ret true) e.

(** [r] and [o] delimit the captured text. *)
Fixpoint single_loop (fuel : nat) (t : Z) (r o : Z) : M unit := fun e =>
  match fuel with
  | O => Fuel
  | S k =>
      let n := ch (position e) in
      if n =? 0 then throwError (js "unexpected end of the stream within a single quoted scalar") e
      else if n =? 39 then
        (run! captureSegment r (position e) true in
         run! upd (at_ (position e + 1)) in
         if ch (position e + 1) =? 39 then
           run! upd (at_ (position e + 2)) in single_loop k t (position e + 1) (position e + 2)
         else ret tt) e
      else if is_eol n then
        (run! captureSegment r o true in
         do! l := skipSeparationSpace false t in
         run! writeFoldedLines l in
         do! e := get in
         single_loop k t (position e) (position e)) e
      else if (position e =? lineStart e) && testDocumentSeparator e then
        throwError (js "unexpected end of the document within a single quoted scalar") e
      else single_loop k t r (position e + 1) (at_ (position e + 1) e)
  end.

Definition readSingleQuotedScalar (t : Z) : M bool := fun e =>
  if negb (ch (position e) =? 39) then Ret false e
  else
    let p := position e + 1 in
    (run! single_loop loop_fuel t p p in ret true) (at_ p (with_scalar (Some Scalar) (VStr []) e)).

(** The digits of a hexadecimal escape. *)
Fixpoint hex_loop (o : nat) (i : Z) : M Z := fun e =>
  match o with
  | O => Ret i e
  | S k =>
      let e := at_ (position e + 1) e in
      let a := fromHexCode (ch (position e)) in
      if 0 <=? a then hex_loop k (js_shl i 4 + a) e
      else throwError (js "expected hexadecimal character") e
  end.

(** The escape at the position, which is the one after the backslash. *)
Definition read_escape (t : Z) : M unit := fun e =>
  let u := ch (position e) in
  if is_eol u then (run! skipSeparationSpace false t in ret tt) e
  else if bool_decide (simpleEscapeSequence u <> []) then
    (run! add_result (simpleEscapeSequence u) in upd (at_ (position e + 1))) e
  else if 0 <? escapedHexLen u then
    (do! i := hex_loop (Z.to_nat (escapedHexLen u)) 0 in
     run! add_result (charFromCodepoint i) in
     upd (fun e => at_ (position e + 1) e)) e
  else throwError (js "unknown escape sequence") e.

Fixpoint double_loop (fuel : nat) (t : Z) (n r : Z) : M unit := fun e =>
  match fuel with
  | O => Fuel
  | S k =>
      let u := ch (position e) in
      if u =? 0 then throwError (js "unexpected end of the stream within a double quoted scalar") e
      else if u =? 34 then
        (run! captureSegment n (position e) true in upd (at_ (position e + 1))) e
      else if u =? 92 then
        (run! captureSegment n (position e) true in
         run! upd (at_ (position e + 1)) in
         run! read_escape t in
         do! e := get in
         double_loop k t (position e) (position e)) e
      else if is_eol u then
        (run! captureSegment n r true in
         do! l := skipSeparationSpace false t in
         run! writeFoldedLines l in
         do! e := get in
         double_loop k t (position e) (position e)) e
      else if (position e =? lineStart e) && testDocumentSeparator e then
        throwError (js "unexpected end of the document within a double quoted scalar") e
      else double_loop k t n (position e + 1) (at_ (position e + 1) e)
  end.

Definition readDoubleQuotedScalar (t : Z) : M bool := fun e =>
  if negb (ch (position e) =? 34) then Ret false e
  else
    let p := position e + 1 in
    (run! double_loop loop_fuel t p p in ret true) (at_ p (with_scalar (Some Scalar) (VStr []) e)).

(** The chomping modes, and the header of a block scalar: the chomping and the
    indentation indicators in any order. *)
Inductive chomping := CLIP | STRIP | KEEP.

Fixpoint block_header (fuel : nat) (t : Z) (s : chomping) (f : Z) (c : bool) : M (chomping * Z * bool) := fun e =>
  match fuel with
  | O => Fuel
  | S k =>
      let e := at_ (position e + 1) e in
      let a := ch (position e) in
      if (a =? 43) || (a =? 45) then
        match s with
        | CLIP => block_header k t (if a =? 43 then KEEP else STRIP) f c e
        | _ => throwError (js "repeat of a chomping mode identifier") e
        end
      else if (48 <=? a) && (a <=? 57) then
        let i := a - 48 in
        if i =? 0 then
          throwError (js "bad explicit indentation width of a block scalar; it cannot be less than one") e
        else if c then throwError (js "repeat of an indentation width identifier") e
        else block_header k t s (t + i - 1) true e
      else Ret (s, f, c) e
  end.

(** The spaces at the start of a line, at most up to the detected indentation. *)
Fixpoint indent_len (bound : option Z) (l : jsstring) (n : Z) : Z :=
  match l with
  | c :: l' =>
      if (match bound with Some f => n <? f | None => true end) && (c =? 32)
      then indent_len bound l' (n + 1) else n
  | [] => n
  end.

(** The lines of a block scalar: [folding], the chomping [s], [l] didReadContent,
    [c] detectedIndent, [f] textIndent, [p] emptyLines, [m] atMoreIndented. *)
Fixpoint block_lines (fuel : nat) (folding : bool) (s : chomping) (l c : bool) (f p : Z) (m : bool) : M unit := fun e =>
  match fuel with
  | O => Fuel
  | S k =>
      if ch (position e) =? 0 then Ret tt e
      else
        (run! readLineBreak in
         do! e := get in
         let n := indent_len (if c then Some f else None) (drop (Z.to_nat (position e)) (input v)) 0 in
         let a := ch (position e + n) in
         run! upd (fun e => with_lineIndent n (at_ (position e + n) e)) in
         let f := if negb c && (f <? n) then n else f in
         if is_eol a then block_lines k folding s l c f (p + 1) m
         else
           let breaks := repeat [10] (if l then 1 + p else p) in
           if n <? f then
             match s with
             | KEEP => add_result breaks
             | CLIP => if l then add_result [10] else ret tt
             | STRIP => ret tt
             end
           else
             do! m := (if folding then
                         if is_white a then run! add_result breaks in ret true
                         else if m then run! add_result (repeat [10] (p + 1)) in ret false
                         else if p =? 0 then run! (if l then add_result [32] else ret tt) in ret m
                         else run! add_result (repeat [10] p) in ret m
                       else run! add_result breaks in ret m) in
             do! e := get in
             let q := skip (fun a => negb (is_eol a) && negb (a =? 0)) (position e) in
             run! upd (at_ q) in
             run! captureSegment (position e) q false in
             block_lines k folding s true true f 0 m) e
  end.

Definition readBlockScalar (t : Z) : M bool := fun e =>
  let a := ch (position e) in
  if negb (a =? 124) && negb (a =? 62) then Ret false e
  else
    (run! upd (with_scalar (Some Scalar) (VStr [])) in
     do! (s, f, c) := block_header loop_fuel t CLIP t false in
     run! upd (fun e =>
       if is_white (ch (position e)) then
         let p := skip is_white (position e + 1) in
         at_ (if ch p =? 35 then skip (fun a => negb (is_eol a) && negb (a =? 0)) (p + 1) else p) e
       else e) in
     run! block_lines loop_fuel (a =? 62) s false c f 0 false in
     ret true) e.

(** ** Collections *)

(** The contexts of a node. *)
Inductive context := FLOW_IN | FLOW_OUT | BLOCK_IN | BLOCK_OUT.

#[local] Instance context_eq_dec : EqDecision context.
Proof. solve_decision. Defined.

Section Collections.
(** [composeNode]: the indentation of the parent, the context, allowToSeek and
    allowCompact. *)
Context (composeNode : Z -> context -> bool -> bool -> M bool).

(** The entries of a block sequence into the array [a]; returns whether there was one. *)
Fixpoint sequence_loop (fuel : nat) (t : Z) (a : nat) (u : bool) : M bool := fun e =>
  match fuel with
  | O => Fuel
  | S k =>
      if (ch (position e) =? 45) && is_ws_or_eol (ch (position e + 1)) then
        (run! upd (at_ (position e + 1)) in
         do! l := skipSeparationSpace true (-1) in
         do! e := get in
         if negb (l =? 0) && (lineIndent e <=? t) then
           run! push a VNull in sequence_loop k t a true
         else
           let n := line e in
           run! composeNode t BLOCK_IN false true in
           do! e := get in
           run! push a (result e) in
           run! skipSeparationSpace true (-1) in
           do! e := get in
           if ((line e =? n) || (t <? lineIndent e)) && negb (ch (position e) =? 0) then
             throwError (js "bad indentation of a sequence entry")
           else if lineIndent e <? t then ret true
           else sequence_loop k t a true) e
      else Ret u e
  end.

Definition readBlockSequence (t : Z) : M bool := fun e0 =>
  (do! a := new_object (OArr []) in
   run! set_anchorMap (VRef a) in
   do! u := sequence_loop loop_fuel t a false in
   if (u : bool) then run! upd (with_node (tag e0) (anchor e0) (Some Sequence) (VRef a)) in ret true
   else ret false) e0.

(** The variables of the loop of [readBlockMapping]: overridableKeys, the tag and node
    of the key, the value, atExplicitKey, detected, allowCompact. *)
Record pending := mkpending {
  over : keys; keyTag : option jsstring; keyNode : value; valueNode : value;
  explicit_ : bool; detected : bool; compact : bool
}.

(** [L(e, f, d, h, v, null), h = v = m = null], when an explicit key is open. *)
Definition flush_key (f : nat) (s : pending) : M pending :=
  if explicit_ s then
    do! (_, d) := storeMappingPair (Some f) (over s) (keyTag s) (keyNode s) VNull None in
    ret (mkpending d None VNull VNull (explicit_ s) (detected s) (compact s))
  else ret s.

(** The outcome of the key part of an iteration: go on with the value, leave the
    loop, or return from the function at once (the node was not a mapping). *)
Inductive key_result := Value (s : pending) (u : Z) | Leave | NotMapping.

(** An iteration up to the value, at the character [u] of line [i]. *)
Definition mapping_key (n : Z) (f : nat) (u i : Z) (s : pending) : M key_result := fun e =>
  let r := ch (position e + 1) in
  if negb ((u =? 63) || (u =? 58)) || negb (is_ws_or_eol r) then
    (do! w := composeNode n FLOW_OUT false true in
     if negb w then ret Leave
     else
       do! e := get in
       if line e =? i then
         let p := skip is_white (position e) in
         run! upd (at_ p) in
         if ch p =? 58 then
           run! upd (at_ (p + 1)) in
           if negb (is_ws_or_eol (ch (p + 1))) then
             throwError (js "a whitespace character is expected after the key-value separator within a block mapping")
           else
             do! s := flush_key f s in
             do! e := get in
             ret (Value (mkpending (over s) (tag e) (result e) (valueNode s) false true false) (ch (p + 1)))
         else if detected s then
           throwError (js "can not read an implicit mapping pair; a colon is missed")
         else ret NotMapping
       else if detected s then
         throwError (js "can not read a block mapping entry; a multiline key may not be an implicit key")
       else ret NotMapping) e
  else
    (do! s := (if u =? 63 then
                 do! s := flush_key f s in
                 ret (mkpending (over s) (keyTag s) (keyNode s) (valueNode s) true true true)
               else if explicit_ s then
                 ret (mkpending (over s) (keyTag s) (keyNode s) (valueNode s) false (detected s) true)
               else throwError (js "incomplete explicit mapping pair; a key node is missed; or followed by a non-tabulated empty line")) in
     run! upd (fun e => at_ (position e + 1) e) in
     ret (Value s r)) e.

(** The value of an iteration that began at line [i], position [a]; returns the
    character the loop goes on with. *)
Definition mapping_value (t : Z) (f : nat) (i a : Z) (s : pending) (u : Z) : M (pending * Z) :=
  do! e := get in
  if (line e =? i) || (t <? lineIndent e) then
    do! w := composeNode t BLOCK_OUT true (compact s) in
    do! e := get in
    let s := if (w : bool) then
               if explicit_ s
               then mkpending (over s) (keyTag s) (result e) (valueNode s) (explicit_ s) (detected s) (compact s)
               else mkpending (over s) (keyTag s) (keyNode s) (result e) (explicit_ s) (detected s) (compact s)
             else s in
    do! s := (if explicit_ s then ret s
              else
                do! (_, d) := storeMappingPair (Some f) (over s) (keyTag s) (keyNode s) (valueNode s) (Some (i, a)) in
                ret (mkpending d None VNull VNull (explicit_ s) (detected s) (compact s))) in
    run! skipSeparationSpace true (-1) in
    do! e := get in
    ret (s, ch (position e))
  else ret (s, u).

(** [None]: the function returned from inside the loop. *)
Fixpoint mapping_loop (fuel : nat) (t n : Z) (f : nat) (u : Z) (s : pending) : M (option pending) := fun e =>
  match fuel with
  | O => Fuel
  | S k =>
      if u =? 0 then Ret (Some s) e
      else
        let i := line e in
        let a := position e in
        (do! kr := mapping_key n f u i s in
         match kr with
         | Leave => ret (Some s)
         | NotMapping => ret None
         | Value s u =>
             do! (s, u) := mapping_value t f i a s u in
             do! e := get in
             if (t <? lineIndent e) && negb (u =? 0) then throwError (js "bad indentation of a mapping entry")
             else if lineIndent e <? t then ret (Some s)
             else mapping_loop k t n f u s
         end) e
  end.

Definition readBlockMapping (t n : Z) : M bool := fun e0 =>
  (do! f := new_object (OObj []) in
   run! set_anchorMap (VRef f) in
   do! r := mapping_loop loop_fuel t n f (ch (position e0)) (mkpending [] None VNull VNull false false false) in
   match r with
   | None => run! upd (fun e => with_tag (tag e0) (with_anchor (anchor e0) e)) in ret true
   | Some s =>
       run! (if explicit_ s then run! storeMappingPair (Some f) (over s) (keyTag s) (keyNode s) VNull None in ret tt
             else ret tt) in
       if detected s then
         run! upd (with_node (tag e0) (anchor e0) (Some Mapping) (VRef f)) in ret true
       else ret false
   end) e0.

(** One entry of a flow collection after its separation: the pair or the element,
    added to [r]; [isMapping] tells whether [r] is an object. *)
Definition flow_entry (t : Z) (isMapping : bool) (r : nat) (m : keys) : M keys :=
  do! e := get in
  let a := (ch (position e) =? 63) && is_ws_or_eol (ch (position e + 1)) in
  run! (if a then run! upd (fun e => at_ (position e + 1) e) in
                  run! skipSeparationSpace true t in ret tt
        else ret tt) in
  do! e := get in
  let n := line e in
  run! composeNode t FLOW_IN false true in
  do! e := get in
  let c := tag e in
  let s := result e in
  run! skipSeparationSpace true t in
  do! e := get in
  do! (i, f) := (if (a || (line e =? n)) && (ch (position e) =? 58) then
                   run! upd (fun e => at_ (position e + 1) e) in
                   run! skipSeparationSpace true t in
                   run! composeNode t FLOW_IN false true in
                   do! e := get in
                   ret (true, result e)
                 else ret (a, VNull)) in
  if isMapping then
    do! (_, m) := storeMappingPair (Some r) m c s f None in ret m
  else if (i : bool) then
    do! (o, m) := storeMappingPair None m c s f None in
    run! push r (VRef o) in ret m
  else run! push r s in ret m.

(** [d]: readNext. Returns at the terminator, which is consumed. *)
Fixpoint flow_loop (fuel : nat) (t terminator : Z) (isMapping : bool) (r : nat) (m : keys) (d : bool) : M unit := fun e =>
  match fuel with
  | O => Fuel
  | S k =>
      if ch (position e) =? 0 then throwError (js "unexpected end of the stream within a flow collection") e
      else
        (run! skipSeparationSpace true t in
         do! e := get in
         if ch (position e) =? terminator then upd (at_ (position e + 1))
         else if negb d then throwError (js "missed comma between flow collection entries")
         else
           do! m := flow_entry t isMapping r m in
           run! skipSeparationSpace true t in
           do! e := get in
           if ch (position e) =? 44 then
             run! upd (at_ (position e + 1)) in flow_loop k t terminator isMapping r m true
           else flow_loop k t terminator isMapping r m false) e
  end.

Definition readFlowCollection (t : Z) : M bool := fun e0 =>
  let p := ch (position e0) in
  if negb (p =? 91) && negb (p =? 123) then Ret false e0
  else
    let isMapping := p =? 123 in
    (do! r := new_object (if isMapping then OObj [] else OArr []) in
     run! set_anchorMap (VRef r) in
     run! upd (at_ (position e0 + 1)) in
     run! flow_loop loop_fuel t (if isMapping then 125 else 93) isMapping r [] true in
     run! upd (with_node (tag e0) (anchor e0) (Some (if isMapping then Mapping else Sequence)) (VRef r)) in
     ret true) e0.

(** ** composeNode *)

Definition indent_status (t : Z) (e : st) : comparison := lineIndent e ?= t.

(** The properties before a node: atNewLine, whether block collections are allowed,
    the status of the indentation. *)
Fixpoint properties_loop (fuel : nat) (t : Z) (a : bool) (atNewLine : bool) (m : bool) (status : comparison) : M (bool * bool * comparison) := fun e =>
  match fuel with
  | O => Fuel
  | S k =>
      (do! x := readTagProperty in
       do! x := (if (x : bool) then ret true else readAnchorProperty) in
       if (x : bool) then
         do! l := skipSeparationSpace true (-1) in
         do! e := get in
         if negb (l =? 0) then properties_loop k t a true a (indent_status t e)
         else properties_loop k t a atNewLine false status
       else ret (atNewLine, m, status)) e
  end.

(** [m || n]: the second is tried when the first did not find its node. *)
Definition or_else (m n : M bool) : M bool := do! b := m in if (b : bool) then ret true else n.

(** The content of a node; returns hasContent. *)
Definition read_content (t : Z) (n : context) (blocks m : bool) (status : comparison) : M bool :=
  do! e := get in
  let flowIndent := match n with FLOW_IN | FLOW_OUT => t | _ => t + 1 end in
  let blockIndent := position e - lineStart e in
  match status with
  | Gt =>
      do! found := or_else (if m then or_else (readBlockSequence blockIndent) (readBlockMapping blockIndent flowIndent)
                            else ret false)
                     (readFlowCollection flowIndent) in
      if (found : bool) then ret true
      else
        do! scalar := or_else (if blocks then readBlockScalar flowIndent else ret false)
                        (or_else (readSingleQuotedScalar flowIndent) (readDoubleQuotedScalar flowIndent)) in
        do! j := (if (scalar : bool) then ret true
                  else
                    do! alias := readAlias in
                    if (alias : bool) then
                      do! e := get in
                      if bool_decide (tag e = None) && bool_decide (anchor e = None) then ret true
                      else throwError (js "alias node should not have any properties")
                    else
                      do! plain := readPlainScalar flowIndent (bool_decide (n = FLOW_IN)) in
                      if (plain : bool) then
                        run! upd (fun e => match tag e with
                                           | None => with_tag (Some (js "?")) e
                                           | Some _ => e
                                           end) in
                        ret true
                      else ret false) in
        do! e := get in
        run! set_anchorMap (result e) in
        ret j
  | Eq => if m then readBlockSequence blockIndent else ret false
  | Lt => ret false
  end.

(** The types whose functions expect a text or null, but for those that compare it only. *)
Definition reads_text (b : ytype) : bool :=
  match b with TInt | TFloat | TTimestamp | TBinary | TRegexp | TFunction => true | _ => false end.

(** The first implicit type that resolves the text of a plain scalar; the tag [!<?>] of an input
    can give a collection. *)
Fixpoint resolve_implicit (l : list ytype) : M unit := fun e =>
  match l with
  | [] => Ret tt e
  | b :: l' =>
      if reads_text b && match result e with VRef _ => true | _ => false end then Leaves CollectionAsScalar
      else if resolve (page v) b (heap e) (result e) then
        (do! (x, h) := lift (construct (page v) b (heap e) (result e)) in
         run! upd (fun e => with_tag (Some (type_tag b)) (with_result x (with_heap h e))) in
         set_anchorMap x) e
      else resolve_implicit l' e
  end.

Definition kind_text (k : option kind) : jsstring := match k with Some k => kind_name k | None => js "null" end.

Definition resolve_tag : M unit := fun e =>
  match tag e with
  | None => Ret tt e
  | Some tg =>
      if decide (tg = [33]) then Ret tt e
      else if decide (tg = [63]) then resolve_implicit (implicitTypes v) e
      else
        match typeMap v (kind_ e) tg with
        | None => throwError (js "unknown tag !<" ++ tg ++ js ">") e
        | Some b =>
            if negb (bool_decide (result e = VNull)) && negb (bool_decide (kind_ e = Some (type_kind b))) then
              throwError (js "unacceptable node kind for !<" ++ tg ++ js "> tag; it should be "
                          ++ [34] ++ kind_name (type_kind b) ++ [34] ++ js ", not " ++ [34] ++ kind_text (kind_ e) ++ [34]) e
            else if resolve (page v) b (heap e) (result e) then
              (do! (x, h) := lift (construct (page v) b (heap e) (result e)) in
               run! upd (fun e => with_result x (with_heap h e)) in
               set_anchorMap x) e
            else throwError (js "cannot resolve a node with !<" ++ tg ++ js "> explicit tag") e
        end
  end.

Definition compose_body (t : Z) (n : context) (allowToSeek allowCompact : bool) : M bool :=
  let blocks := match n with BLOCK_IN | BLOCK_OUT => true | _ => false end in
  run! upd (with_node None None None VNull) in
  do! (atNewLine, status) :=
    (if allowToSeek then
       do! l := skipSeparationSpace true (-1) in
       do! e := get in
       if negb (l =? 0) then ret (true, indent_status t e) else ret (false, Gt)
     else ret (false, Gt)) in
  do! (atNewLine, m, status) :=
    (match status with
     | Gt => properties_loop loop_fuel t blocks atNewLine blocks status
     | _ => ret (atNewLine, blocks, status)
     end) in
  let m := m && (atNewLine || allowCompact) in
  do! j := (match status, n with
            | Gt, _ | _, BLOCK_OUT => read_content t n blocks m status
            | _, _ => ret false
            end) in
  run! resolve_tag in
  do! e := get in
  ret (bool_decide (is_Some (tag e)) || bool_decide (is_Some (anchor e)) || j).

End Collections.

Fixpoint composeNode (fuel : nat) (t : Z) (n : context) (allowToSeek allowCompact : bool) : M bool :=
  match fuel with
  | O => fun _ => Fuel
  | S k => compose_body (composeNode k) t n allowToSeek allowCompact
  end.

(** ** Directives and documents *)

(** The directive [%YAML]: its arguments are the version alone. *)
Definition version_parts (s : jsstring) : option (Z * Z) :=
  let '(a, r) := span_digits s in
  match r with
  | 46 :: r' =>
      let '(b, r'') := span_digits r' in
      if bool_decide (a <> []) && bool_decide (b <> []) && bool_decide (r'' = [])
      then Some (digits_value a, digits_value b) else None
  | _ => None
  end.

Definition handleYamlDirective (n : list jsstring) : M unit := fun e =>
  if bool_decide (is_Some (version e)) then throwError (js "duplication of %YAML directive") e
  else match n with
  | [a] =>
      match version_parts a with
      | None => throwError (js "ill-formed argument of the YAML directive") e
      | Some (o, i) =>
          if negb (o =? 1) then throwError (js "unacceptable YAML version of the document") e
          else
            (run! upd (fun e => with_maps (Some a) (i <? 2) (tagMap e) (anchorMap e) e) in
             if negb (i =? 1) && negb (i =? 2) then throwWarning (js "unsupported YAML version of the document")
             else ret tt) e
      end
  | _ => throwError (js "YAML directive accepts exactly one argument") e
  end.

Definition handleTagDirective (n : list jsstring) : M unit := fun e =>
  match n with
  | [r; o] =>
      if negb (test tag_handle_re r) then
        throwError (js "ill-formed tag handle (first argument) of the TAG directive") e
      else if bool_decide (is_Some (own r (tagMap e))) then
        throwError (js "there is a previously declared suffix for " ++ [34] ++ r ++ [34] ++ js " tag handle") e
      else if negb (test tag_uri_re o) then
        throwError (js "ill-formed tag prefix (second argument) of the TAG directive") e
      else Ret tt (with_maps (version e) (checkLineBreaks e) (assign r o (tagMap e)) (anchorMap e) e)
  | _ => throwError (js "TAG directive accepts exactly two arguments") e
  end.

Definition word_char (o : Z) : bool := negb (o =? 0) && negb (is_ws_or_eol o).

(** The arguments of a directive. *)
Fixpoint arguments_loop (fuel : nat) (r : list jsstring) : M (list jsstring) := fun e =>
  match fuel with
  | O => Fuel
  | S k =>
      if ch (position e) =? 0 then Ret r e
      else
        let p := skip is_white (position e) in
        if ch p =? 35 then Ret r (at_ (skip (fun o => negb (o =? 0) && negb (is_eol o)) (p + 1)) e)
        else if is_eol (ch p) then Ret r (at_ p e)
        else
          let q := skip word_char p in
          arguments_loop k (r ++ [zsub (input v) p q]) (at_ q e)
  end.

Definition readDirective : M unit := fun e =>
  let t := position e + 1 in
  let p := skip word_char t in
  let n := zsub (input v) t p in
  (run! upd (at_ p) in
   if zlen n <? 1 then throwError (js "directive name must not be less than one character in length")
   else
     do! r := arguments_loop loop_fuel [] in
     do! e := get in
     run! (if negb (ch (position e) =? 0) then readLineBreak else ret tt) in
     if decide (n = js "YAML") then handleYamlDirective r
     else if decide (n = js "TAG") then handleTagDirective r
     else throwWarning (js "unknown document directive " ++ [34] ++ n ++ [34])) e.

(** Returns hasDirectives. *)
Fixpoint directives_loop (fuel : nat) (a : bool) : M bool := fun e =>
  match fuel with
  | O => Fuel
  | S k =>
      if ch (position e) =? 0 then Ret a e
      else
        (run! skipSeparationSpace true (-1) in
         do! e := get in
         if (0 <? lineIndent e) || negb (ch (position e) =? 37) then ret a
         else run! readDirective in directives_loop k true) e
  end.

(** The recursion bound of [composeNode]: a call reads a character before it calls
    itself again, except from a block context to a flow context. *)
Definition node_fuel : nat := (2 * length (input v) + 6)%nat.

Definition non_ascii_break (c : Z) : bool := (c =? 133) || (c =? 8232) || (c =? 8233).

Definition readDocument : M unit := fun e0 =>
  (run! upd (with_maps None (legacy v) [] []) in
   do! a := directives_loop loop_fuel false in
   run! skipSeparationSpace true (-1) in
   do! e := get in
   run! (if (lineIndent e =? 0) && (ch (position e) =? 45) && (ch (position e + 1) =? 45) && (ch (position e + 2) =? 45) then
           run! upd (at_ (position e + 3)) in
           run! skipSeparationSpace true (-1) in ret tt
         else if (a : bool) then throwError (js "directives end mark is expected") else ret tt) in
   do! e := get in
   run! composeNode node_fuel (lineIndent e - 1) BLOCK_OUT false true in
   run! skipSeparationSpace true (-1) in
   do! e := get in
   run! (if checkLineBreaks e && existsb non_ascii_break (zsub (input v) (position e0) (position e))
         then throwWarning (js "non-ASCII line breaks are interpreted as content") else ret tt) in
   run! upd (fun e => with_store (documents e ++ [result e]) (heap e) (warnings e) e) in
   do! e := get in
   if (position e =? lineStart e) && testDocumentSeparator e then
     if ch (position e) =? 46 then
       run! upd (at_ (position e + 3)) in run! skipSeparationSpace true (-1) in ret tt
     else ret tt
   else if position e <? length_ v - 1 then
     throwError (js "end of the stream or a document separator is expected")
   else ret tt) e0.

Fixpoint documents_loop (fuel : nat) : M unit := fun e =>
  match fuel with
  | O => Fuel
  | S k => if position e <? length_ v - 1 then (run! readDocument in documents_loop k) e else Ret tt e
  end.

End Loader.

(** ** load and its variants *)

Record load_options := mkoptions { opt_schema : schema ytype; opt_json : bool; opt_legacy : bool }.

(** The input ends with a line break and has no byte order mark. *)
Definition prepare (e : jsstring) : jsstring :=
  if decide (e = []) then e
  else
    let c := default (-1) (zget e (zlen e - 1)) in
    let e := if (c =? 10) || (c =? 13) then e else e ++ [10] in
    if bool_decide (zget e 0 = Some 65279) then zsub e 1 (zlen e) else e.

Definition load_env (w : host) (e : jsstring) (t : load_options) : env :=
  mkenv (prepare e ++ [0]) (zlen (prepare e)) (opt_json t) (opt_legacy t)
    (compiledImplicit type_tag type_kind (opt_schema t))
    (type_map type_tag type_kind (opt_schema t)) w.

Definition initial (h : store) (v : env) : st :=
  let p := skip v (Z.eqb 32) 0 in
  mkst p 0 0 p None None None VNull None false [] [] [] h [].

(** The documents of a stream and the store they live in, with the warnings. *)
Definition loadDocuments (w : host) (h : store) (e : jsstring) (t : load_options) : out (list value) :=
  let v := load_env w e t in
  match documents_loop v (loop_fuel v) (initial h v) with
  | Ret _ e => Ret (documents e) e
  | Fails f => Fails f
  | Leaves b => Leaves b
  | Fuel => Fuel
  end.

Definition load (w : host) (h : store) (e : jsstring) (t : load_options) : out value :=
  match loadDocuments w h e t with
  | Ret [] e => Ret VUndef e
  | Ret [d] e => Ret d e
  | Ret _ _ => Fails (YAMLException_unmarked (js "expected a single document in the stream, but found more"))
  | Fails f => Fails f
  | Leaves b => Leaves b
  | Fuel => Fuel
  end.

Definition default_options : load_options := mkoptions DEFAULT_FULL_SCHEMA false false.
Definition safe_options : load_options := mkoptions DEFAULT_SAFE_SCHEMA false false.

(** [loadAll(input, iterator, options)]: without an iterator it returns the
    documents. *)
Definition safeLoad (w : host) (h : store) (e : jsstring) : out value := load w h e safe_options.

(** [safeLoadAll(input)] without an iterator calls [loadAll(input, {schema: safe})]:
    the options arrive as the iterator, and the options are absent. *)
Definition loadAll (w : host) (h : store) (e : jsstring) (iterator_is_function : bool) (t : option load_options)
    : out (list value) :=
  loadDocuments w h e (default default_options t).

Definition safeLoadAll (w : host) (h : store) (e : jsstring) (iterator_is_function : bool) : out (list value) :=
  if iterator_is_function then loadAll w h e true (Some safe_options)
  else loadAll w h e false None.

End YamlLoad.
