(* ===== verification/YamlTotal.v ===== *)
(** * js-yaml: the loader always answers

    Every loop and every recursion of the loader advances in the input: with the
    bounds the model gives them, [loadDocuments] ends with documents or with an
    exception on every input, for every schema and page, or comes to a place where
    the model ends; it calls no function of the document unless the schema makes
    functions. *)

From S2P Require Import Prelude JsString JsNum Regex YamlTypes YamlTime YamlSchema Utf8 YamlLoad.
From Stdlib Require Import String.
From stdpp Require Import base numbers list strings option.
Open Scope Z_scope.

Module YamlTotal.
Import YamlSchema YamlLoad.

(** ** Functions in the store *)

Definition is_fun (o : obj) : bool := match o with OFun _ _ => true | _ => false end.
Definition functions (h : store) : Z := zlen (List.filter is_fun h).

(** A schema with the type of functions. *)
Definition makes_functions (s : schema ytype) : bool :=
  bool_decide (TFunction ∈ compiledImplicit type_tag type_kind s ++ compiledExplicit type_tag type_kind s).

Lemma functions_app h k : functions (h ++ k) = functions h + functions k.
Proof. unfold functions. by rewrite List.filter_app, zlen_app. Qed.

Lemma functions_alloc h o : is_fun o = false -> functions (h ++ [o]) = functions h.
Proof.
  intros H. rewrite functions_app. assert (functions [o] = 0) as ->; [|lia]. unfold functions. cbn [List.filter]. by rewrite H.
Qed.

Lemma functions_alter f a h : (forall o, is_fun (f o) = is_fun o) -> functions (alter f a h) = functions h.
Proof.
  intros Hf. unfold functions. revert a. induction h as [|o h IH]; intros a; [done|].
  destruct a as [|a]; cbn; [rewrite Hf|specialize (IH a)]; destruct (is_fun o); cbn in *; rewrite ?zlen_cons; try done; by f_equal.
Qed.

Lemma functions_alter_object a f h : functions (alter_object a f h) = functions h.
Proof. apply functions_alter. by intros []. Qed.

Lemma functions_in h a ps b : h !! a = Some (OFun ps b) -> 0 < functions h.
Proof.
  intros Ha. unfold functions. assert (In (OFun ps b) (List.filter is_fun h)) as Hin by (apply filter_In; split; [|done]; by eapply list_elem_of_In, list_elem_of_lookup_2).
  destruct (List.filter is_fun h); [done|]. rewrite zlen_cons. pose proof (zlen_nonneg l). lia.
Qed.

Lemma callable_in h x : callable h x = true -> 0 < functions h.
Proof. unfold callable. destruct x; try done. destruct (h !! a) as [[]|] eqn:E; try done. intros _. by eapply functions_in. Qed.

Lemma functions_pairs h x : functions (snd (pairs_construct h x)) = functions h.
Proof.
  unfold pairs_construct. destruct x; try (by apply functions_alloc); set (l := elements h _); clearbody l;
    (assert (forall i h0, functions h0 = functions h -> functions (snd (foldl (fun (acc : list value * store) r =>
          let '(i, h) := acc in
          let p := match properties h r with
                   | Some l => match object_keys l with k :: _ => [VStr k; default VUndef (own k l)] | [] => [VUndef; VUndef] end
                   | None => [VUndef; VUndef]
                   end in
          let '(v, h) := alloc h (OArr p) in (i ++ [v], h)) (i, h0) l)) = functions h) as H;
     [induction l as [|r l IH]; intros i h0 H0; [done|]; cbn [foldl alloc]; apply IH; by rewrite functions_alloc|];
     specialize (H [] h eq_refl); destruct (foldl _ _ _) as [i h1]; cbn [snd alloc] in *; by rewrite functions_alloc).
Qed.

Lemma functions_construct w b h x y h' : b <> TFunction -> construct w b h x = Ok (y, h') -> functions h' = functions h.
Proof.
  intros Hb. destruct b; try done; cbn [construct]; unfold seq_construct, map_construct, alloc.
  all: try (intros H; simplify_eq; done).
  all: try (destruct x; intros H; simplify_eq; done || by apply functions_alloc).
  - destruct (YamlTime.timestamp_construct _); intros H; simplify_eq/=. by apply functions_alloc.
  - intros H. simplify_eq. rewrite <- (functions_pairs h x). by rewrite H.
  - destruct (YamlSchema.regexp_construct _). destruct (RegExp_ok _ _ _); intros H; simplify_eq. by apply functions_alloc.
Qed.

Lemma join_text_runs l : join_text l = None -> In None l.
Proof.
  induction l as [|x l IH]; [done|]. cbn [join_text]. destruct l as [|y l]; [intros ->; by left|].
  destruct x as [[a|]|]; [|done|by left]. destruct (join_text (y :: l)) as [[]|]; try done. intros _. right. by apply IH.
Qed.

(** A conversion that calls a function finds it in the store. *)
Lemma text_of_runs v h fuel : forall seen x, text_of v fuel seen h x = None -> 0 < functions h.
Proof.
  assert (forall l, object_text h l = None -> 0 < functions h) as Ho.
  { intros l. unfold object_text. destruct (own (js "toString") l) as [f|]; [|done]. destruct (callable h f) eqn:E; [intros _; by eapply callable_in|].
    destruct (own (js "valueOf") l) as [g|]; [|done]. destruct (callable h g) eqn:E'; [intros _; by eapply callable_in|done]. }
  induction fuel as [|k IH]; intros seen x; destruct x as [| | | | |a]; try done; cbn [text_of]; destruct (h !! a) as [[l|l| | | |]|]; try done; [by apply Ho| |by apply Ho].
  destruct (bool_decide _); [done|]. intros (y & Hy & _)%join_text_runs%in_map_iff. destruct y; try done; by eapply IH.
Qed.

(** ** Outcomes that are not out of fuel *)

Section Total.
(** [strict] says that no function can come into the store. *)
Context (strict : bool).

Definition ok {A} (o : out A) (Q : A -> st -> Prop) : Prop :=
  match o with
  | Ret a e => Q a e
  | Fails _ => True
  | Leaves b => b = RunsFunction -> strict = false
  | Fuel => False
  end.

Lemma ok_mono {A} (o : out A) (P Q : A -> st -> Prop) :
  ok o P -> (forall a e, P a e -> Q a e) -> ok o Q.
Proof. destruct o; simpl; auto. Qed.

Lemma ok_bind {A B} (m : M A) (k : A -> M B) e Q :
  ok (m e) (fun a e' => ok (k a e') Q) -> ok (bind m k e) Q.
Proof. unfold bind. by destruct (m e). Qed.

Context (v : env) (L : Z).
Context (Hstrict : strict = true -> TFunction ∉ implicitTypes v /\ forall k t, typeMap v k t <> Some TFunction).

(** The functions in the store that must not be there. *)
Definition extra (h : store) : Z := if strict then functions h else 0.

Lemma extra_alloc h o : is_fun o = false -> extra (h ++ [o]) = extra h.
Proof. intros H. unfold extra. by rewrite functions_alloc. Qed.
Lemma extra_obj h l : extra (h ++ [OObj l]) = extra h.
Proof. by apply extra_alloc. Qed.
Lemma extra_arr h l : extra (h ++ [OArr l]) = extra h.
Proof. by apply extra_alloc. Qed.
Lemma extra_flow h (b : bool) l m : extra (h ++ [if b then OObj l else OArr m]) = extra h.
Proof. apply extra_alloc. by destruct b. Qed.
Lemma extra_push h a x : extra (alter (fun o => match o with OArr l => OArr (l ++ [x]) | o => o end) a h) = extra h.
Proof. unfold extra. rewrite functions_alter; [done|]. by intros []. Qed.
Lemma extra_object h a f : extra (alter_object a f h) = extra h.
Proof. unfold extra. by rewrite functions_alter_object. Qed.
Hint Rewrite extra_obj extra_arr extra_flow extra_push extra_object : heaps.

(** Where a function is called, functions may be in the store. *)
Lemma extra_runs h : extra h = 0 -> 0 < functions h -> strict = false.
Proof. unfold extra. destruct strict; [lia|done]. Qed.

Lemma extra_construct w b h x y h' : (strict = true -> b <> TFunction) -> construct w b h x = Ok (y, h') -> extra h' = extra h.
Proof. unfold extra. intros Hb Hc. destruct strict; [|done]. eapply functions_construct; [by apply Hb|exact Hc]. Qed.

(** The input is [L] characters and a NUL, and the last character is a line break. *)
Context (HL : 1 <= L) (Hlen : zlen (input v) = L + 1) (Hnul : ch v L = 0)
        (Heol : is_eol (ch v (L - 1)) = true) (Hlength : length_ v = L).

(** ** The position *)

(** The position is in the input and on the line that starts at [lineStart]; at the
    start of a line the indentation is 0. There are no functions where there must be none. *)
Definition Inv (e : st) : Prop :=
  0 <= lineStart e /\ lineStart e <= position e /\ position e <= L /\ 0 <= lineIndent e /\
  (position e = lineStart e -> lineIndent e = 0) /\ extra (heap e) = 0.

(** [e'] is not before [e], and is on the same line if it is at the same position. *)
Definition adv (e e' : st) : Prop :=
  position e <= position e' /\
  (position e' = position e -> lineStart e' = lineStart e /\ lineIndent e' = lineIndent e).

Lemma adv_refl e : adv e e.
Proof. unfold adv. lia. Qed.
Lemma adv_trans a b c : adv a b -> adv b c -> adv a c.
Proof. unfold adv. lia. Qed.

(** [e'] is at the same place. *)
Definition same {A} (e : st) (_ : A) (e' : st) : Prop :=
  position e' = position e /\ lineStart e' = lineStart e /\ lineIndent e' = lineIndent e /\ extra (heap e') = extra (heap e).

Definition step {A} (e : st) (_ : A) (e' : st) : Prop := Inv e' /\ adv e e'.

(** Arithmetic on the positions of the states at hand. *)
Ltac pos := unfold same, step, Inv, adv in *; cbn [position line lineStart lineIndent at_ with_line
  with_lineIndent with_node with_tag with_anchor with_result with_scalar with_maps with_anchorMap
  with_store with_heap heap] in *; autorewrite with heaps in *; try lia.

Lemma ch_lt p : p <= L -> ch v p <> 0 -> p < L.
Proof. intros Hp Hc. destruct (decide (p = L)) as [->|]; [by rewrite Hnul in Hc|lia]. Qed.

Lemma ch_lt_eq p c : c <> 0 -> c <> -1 -> ch v p = c -> p < L.
Proof.
  intros H0 H1 Hc. unfold ch in Hc. destruct (zget (input v) p) as [x|] eqn:Hz; simpl in Hc; [|lia].
  pose proof (zget_Some_lt _ _ _ Hz). apply ch_lt; [lia|]. unfold ch. rewrite Hz. simpl. lia.
Qed.

Lemma run_len_nonneg p l : 0 <= run_len p l.
Proof. induction l as [|c l IH]; simpl; [lia|]. destruct (p c); lia. Qed.

Lemma run_len_stop p l k c : p c = false -> l !! k = Some c -> run_len p l <= Z.of_nat k.
Proof.
  intros Hp. revert k. induction l as [|d l IH]; intros k Hk; simpl; [lia|].
  destruct k as [|k]; simpl in Hk.
  - simplify_eq. rewrite Hp. lia.
  - destruct (p d); [|lia]. specialize (IH k Hk). lia.
Qed.

Lemma nul_in_rest i : 0 <= i <= L -> drop (Z.to_nat i) (input v) !! Z.to_nat (L - i) = Some 0.
Proof.
  intros Hi. rewrite lookup_drop. replace (Z.to_nat i + Z.to_nat (L - i))%nat with (Z.to_nat L) by lia.
  unfold ch in Hnul. destruct (zget_in_range (input v) L) as [x Hx]; [lia|].
  rewrite Hx in Hnul. simpl in Hnul. subst x. unfold zget in Hx. by destruct (L <? 0).
Qed.

Lemma skip_range p i : p 0 = false -> 0 <= i <= L -> i <= skip v p i <= L.
Proof.
  intros Hp Hi. unfold skip. pose proof (run_len_nonneg p (drop (Z.to_nat i) (input v))).
  pose proof (run_len_stop p _ _ _ Hp (nul_in_rest i Hi)). lia.
Qed.

Lemma run_len_end p l c : l !! Z.to_nat (run_len p l) = Some c -> p c = false.
Proof.
  induction l as [|d l IH]; simpl; [done|]. destruct (p d) eqn:Hd.
  - pose proof (run_len_nonneg p l). replace (Z.to_nat (1 + run_len p l)) with (S (Z.to_nat (run_len p l))) by lia. done.
  - simpl. by intros [= ->].
Qed.

(** The run stops at a character that does not satisfy [p], and is not empty when it
    starts at one that does. *)
Lemma skip_stop p i : p 0 = false -> 0 <= i <= L -> p (ch v (skip v p i)) = false.
Proof.
  intros Hp Hi. pose proof (skip_range p i Hp Hi) as Hr.
  destruct (zget_in_range (input v) (skip v p i)) as [c Hc]; [lia|]. unfold ch. rewrite Hc. simpl.
  apply (run_len_end p (drop (Z.to_nat i) (input v))). rewrite lookup_drop.
  unfold zget in Hc. destruct (_ <? 0); [done|]. rewrite <- Hc. f_equal. unfold skip.
  pose proof (run_len_nonneg p (drop (Z.to_nat i) (input v))). lia.
Qed.

Lemma skip_start p i : 0 <= i <= L -> p (ch v i) = true -> i < skip v p i.
Proof.
  intros Hi. destruct (zget_in_range (input v) i) as [c Hc]; [lia|].
  unfold ch. rewrite Hc. simpl. intros Hpc. unfold zget in Hc.
  destruct (_ <? 0); [done|]. unfold skip. rewrite (drop_S _ _ _ Hc). cbn [run_len]. rewrite Hpc.
  pose proof (run_len_nonneg p (drop (S (Z.to_nat i)) (input v))). lia.
Qed.

Lemma indent_len_range b l n : n <= indent_len b l n <= n + run_len (Z.eqb 32) l.
Proof.
  revert n. induction l as [|c l IH]; intros n; cbn [indent_len run_len]; [lia|].
  pose proof (run_len_nonneg (Z.eqb 32) l). rewrite (Z.eqb_sym 32 c).
  destruct (c =? 32); [|rewrite andb_false_r; lia].
  destruct (match b with Some f => n <? f | None => true end); simpl; [|lia].
  specialize (IH (n + 1)). lia.
Qed.

(** ** Line breaks and separation *)

Lemma readLineBreak_ok e : Inv e ->
  ok (readLineBreak v e) (fun _ e' =>
    position e < position e' /\ position e' <= L /\ lineStart e' = position e' /\ lineIndent e' = lineIndent e /\ extra (heap e') = extra (heap e)).
Proof.
  intros He. unfold readLineBreak.
  destruct (ch v (position e) =? 10) eqn:H10.
  { apply Z.eqb_eq, ch_lt_eq in H10; [|lia..]. simpl. pos. }
  destruct (ch v (position e) =? 13) eqn:H13; [|done].
  apply Z.eqb_eq, ch_lt_eq in H13; [|lia..]. simpl.
  destruct (ch v (position e + 1) =? 10) eqn:Hn; pos.
  apply Z.eqb_eq, ch_lt_eq in Hn; lia.
Qed.

(** No line break follows the separation; it passes the line break it starts at. *)
Definition separated (e e' : st) : Prop :=
  Inv e' /\ adv e e' /\ is_eol (ch v (position e')) = false /\
  (is_eol (ch v (position e)) = true -> position e < position e').

Lemma skip_lines_ok fuel c r e : Inv e -> L - position e < Z.of_nat fuel ->
  ok (skip_lines v fuel c r e) (fun _ => separated e).
Proof.
  revert r e. induction fuel as [|k IH]; intros r e He Hf; [pos|]. cbn [skip_lines]. unfold separated in *.
  destruct (ch v (position e) =? 0) eqn:H0.
  { apply Z.eqb_eq in H0. simpl. rewrite H0. split_and!; [pos..|done|done]. }
  set (p1 := skip v is_white (position e)).
  assert (position e <= p1 <= L) as Hp1 by (apply skip_range; [done|pos]).
  set (p2 := if c && (ch v p1 =? 35) then _ else p1).
  assert (p1 <= p2 <= L) as Hp2.
  { subst p2. destruct (c && (ch v p1 =? 35)) eqn:Hc; [|lia].
    apply andb_prop in Hc as [_ Hc]. apply Z.eqb_eq, ch_lt_eq in Hc; [|lia..].
    pose proof (skip_range (fun o => negb (o =? 10) && negb (o =? 13) && negb (o =? 0)) (p1 + 1) eq_refl). pos. }
  clearbody p2. destruct (is_eol (ch v p2)) eqn:Hp.
  2:{ simpl. split_and!; [pos..|done|]. intros Hpe.
      destruct (decide (position e = p2)); [congruence|pos]. }
  apply ok_bind. eapply ok_mono; [apply readLineBreak_ok; pos|]. intros [] e1 H1. simpl in H1.
  apply ok_bind. cbn [upd ok].
  pose proof (skip_range (Z.eqb 32) (position e1) eq_refl).
  eapply ok_mono; [apply IH; pos|]. intros a e2 (H2 & H3 & H4 & H5). split_and!; [pos..|done|pos].
Qed.

Lemma loop_fuel_val : Z.of_nat (loop_fuel v) = L + 3.
Proof. unfold loop_fuel. unfold zlen in Hlen. lia. Qed.

Lemma separation_eol c n e : Inv e -> ok (skipSeparationSpace v c n e) (fun _ => separated e).
Proof.
  intros He. unfold skipSeparationSpace. apply ok_bind.
  eapply ok_mono; [apply skip_lines_ok; [done|]; rewrite loop_fuel_val; pos|].
  intros r e1 H1. apply ok_bind. simpl. apply ok_bind.
  by destruct (_ && _).
Qed.

Lemma separation_ok c n e : Inv e -> ok (skipSeparationSpace v c n e) (step e).
Proof. intros He. eapply ok_mono; [by apply separation_eol|]. intros ? ? (? & ? & _). done. Qed.

Lemma step_trans {A B'} e0 e1 (x : B') (a : A) e2 : step e0 x e1 -> step e1 a e2 -> step e0 a e2.
Proof. intros [_ H1] [H2 H3]. split; [done|by eapply adv_trans]. Qed.

Lemma step_same {A B'} e0 e1 (x : B') (a : A) e2 : step e0 x e1 -> same e1 a e2 -> step e0 a e2.
Proof. pos. Qed.

(** One step of a sequence: the bind, then a state access, a return or an exception,
    or the lemma [H] of the call. *)
Ltac prim := cbn [ok get upd ret lift throwError throwWarning add_result push].
Ltac seq := apply ok_bind; prim.
Ltac call H := apply ok_bind; eapply ok_mono; [eapply H; pos|]; intros ? ? ?; cbv beta in *.
Ltac call_as H e h := apply ok_bind; eapply ok_mono; [eapply H; pos|]; intros ? e h; cbv beta in *.
Ltac last_call H := eapply ok_mono; [eapply H; pos|]; intros ? ? ?; cbv beta in *; pos.

(** ** Operations that stay at their place *)

Lemma captureSegment_ok a b c e : ok (captureSegment v a b c e) (same e).
Proof. unfold captureSegment. repeat case_match; prim; pos. Qed.

Lemma writeFoldedLines_ok t e : ok (writeFoldedLines t e) (same e).
Proof. unfold writeFoldedLines. repeat case_match; prim; pos. Qed.

Lemma mergeMappings_ok t n d e : ok (mergeMappings t n d e) (same e).
Proof.
  unfold mergeMappings. seq. case_match eqn:Hl; [|done]. clear Hl.
  assert (forall h o, extra h = extra (heap e) -> extra (fst (foldl (fun (acc : store * list (jsstring * value)) p =>
          let '(h, over) := acc in
          match own p.1 (object_at h t) with
          | Some _ => (h, over)
          | None => (alter_object t (assign p.1 p.2) h, assign p.1 (VBool true) over)
          end) (h, o) l)) = extra (heap e)) as H.
  { induction l as [|p l IH]; intros h o Hh; [done|]. cbn [foldl]. destruct (own _ _); apply IH; [done|by rewrite extra_object]. }
  specialize (H (heap e) d eq_refl). destruct (foldl _ _ _). cbn [fst] in H. seq. pos.
Qed.

Lemma mergeAll_ok t l : forall d e, ok (mergeAll t l d e) (same e).
Proof.
  induction l as [|n l IH]; intros d e; cbn [mergeAll]; [prim; pos|].
  call mergeMappings_ok. last_call IH.
Qed.

Lemma guard_prototype_ok k x e : ok (guard_prototype k x e) (same e).
Proof. unfold guard_prototype. case_match; prim; [done|pos]. Qed.

Lemma set_anchorMap_ok x e : ok (set_anchorMap x e) (same e).
Proof. unfold set_anchorMap. case_match; [call guard_prototype_ok|]; prim; pos. Qed.

Lemma lift_text_ok h x e : Inv e -> h = heap e -> ok (lift_text (String_ v h x) e) (same e).
Proof.
  intros He ->. unfold lift_text, lift. destruct (String_ v (heap e) x) as [[]|] eqn:E; prim; [pos|done|].
  intros _. apply (extra_runs (heap e)); [pos|]. by eapply text_of_runs.
Qed.

Lemma merge_value_ok t d x e e0 : same e0 tt e ->
  ok ((match x with
       | VRef a => match heap e !! a with Some (OArr l) => mergeAll t l d | _ => mergeMappings t x d end
       | _ => mergeMappings t x d
       end) e) (same e0).
Proof. intros H. repeat case_match; first [last_call mergeAll_ok | last_call mergeMappings_ok]. Qed.

Lemma storeMappingPair_ok t d kt kn x w e : Inv e -> ok (storeMappingPair v t d kt kn x w e) (same e).
Proof.
  intros He. unfold storeMappingPair. seq. apply ok_bind. eapply ok_mono; [by apply lift_text_ok|]. intros o e0 H0.
  apply ok_bind. apply (ok_mono _ (same e)); [destruct t; simpl; pos|]. intros t' e1 H1.
  destruct (decide _).
  - seq. apply ok_bind. eapply ok_mono; [by apply merge_value_ok|]. intros ? ? ?. prim. pos.
  - seq. apply ok_bind. apply (ok_mono _ (same e)).
    + destruct (_ || _); [by prim|]. apply ok_bind. by repeat case_match.
    + intros ? ? ?. call guard_prototype_ok. seq. pos.
Qed.

Lemma flush_key_ok f s e : Inv e -> ok (flush_key v f s e) (same e).
Proof. intros He. unfold flush_key. case_match; [|prim; pos]. call storeMappingPair_ok. case_match. prim. pos. Qed.

(** A type of the schema makes a value. *)
Lemma constructed_ok b x e (f : value -> store -> st -> st) : (strict = true -> b <> TFunction) ->
  (forall y h e', position (f y h e') = position e' /\ lineStart (f y h e') = lineStart e' /\ lineIndent (f y h e') = lineIndent e' /\ heap (f y h e') = h) ->
  ok ((do! (y, h) := lift (construct (page v) b (heap e) x) in run! upd (f y h) in set_anchorMap y) e) (same e).
Proof.
  intros Hb Hf. apply ok_bind. unfold lift. destruct (construct (page v) b (heap e) x) as [[y h]|] eqn:Ec; [|done]. prim. seq.
  destruct (Hf y h e) as (H1 & H2 & H3 & H4). eapply ok_mono; [apply set_anchorMap_ok|]. intros ? e2 (G1 & G2 & G3 & G4).
  unfold same. rewrite G1, G2, G3, G4, H1, H2, H3, H4. split_and!; try done. by eapply extra_construct.
Qed.

Lemma resolve_implicit_ok l e : (strict = true -> TFunction ∉ l) -> ok (resolve_implicit v l e) (same e).
Proof.
  revert e. induction l as [|b l IH]; intros e Hl; cbn [resolve_implicit]; [simpl; pos|]. case_match; [done|].
  assert (strict = true -> b <> TFunction /\ TFunction ∉ l) as Hl' by (intros Hs; specialize (Hl Hs); rewrite not_elem_of_cons in Hl; naive_solver).
  destruct (resolve _ _ _ _); [|apply IH; naive_solver].
  apply (constructed_ok b (result e) e (fun x h e => with_tag (Some (type_tag b)) (with_result x (with_heap h e)))); [naive_solver|done].
Qed.

Lemma resolve_tag_ok e : ok (resolve_tag v e) (same e).
Proof.
  unfold resolve_tag. repeat case_match; try (simpl; by pos); [apply resolve_implicit_ok; intros Hs; by apply Hstrict|].
  apply (constructed_ok _ (result e) e (fun x h e => with_result x (with_heap h e))); [|done]. intros Hs ->. destruct (Hstrict Hs) as [_ Ht]. naive_solver.
Qed.

(** ** Node properties *)

(** Turns the test of a character at a position into the bound of the position. *)
Ltac ch_bounds :=
  repeat match goal with
  | H : negb _ = false |- _ => apply negb_false_iff in H
  | H : negb _ = true |- _ => apply negb_true_iff in H
  | H : _ && _ = true |- _ => apply andb_prop in H as [? ?]
  | H : (ch v ?p =? ?c) = true |- _ =>
      let B := fresh "B" in
      apply Z.eqb_eq in H; assert (p < L) as B by (apply (ch_lt_eq p c); [lia|lia|exact H])
  end.

Lemma tag_loop_ok fuel n a t e : Inv e -> L - position e < Z.of_nat fuel ->
  ok (tag_loop v fuel n a t e) (step e).
Proof.
  revert n a t e. induction fuel as [|k IH]; intros n a t e He Hf; [pos|]. cbn [tag_loop].
  destruct (_ || _) eqn:H0; [simpl; pos|]. apply orb_false_iff in H0 as [H0 _].
  apply Z.eqb_neq, ch_lt in H0; [|pos].
  repeat case_match; try done; last_call IH.
Qed.

Lemma readTagProperty_ok e : Inv e -> ok (readTagProperty v e) (fun b e' => step e b e' /\ (b = true -> position e < position e')).
Proof.
  intros He. unfold readTagProperty.
  destruct (negb (ch v (position e) =? 33)) eqn:H33; [simpl; pos|]. ch_bounds.
  case_match; [done|]. set (i := ch v (position e + 1) =? 60). set (a := ch v (position e + 1) =? 33).
  set (t := if i || a then _ else _).
  assert (position e < t /\ t <= L /\ (i = true -> t + 1 <= L)) as Ht.
  { subst t i a. destruct (ch v (position e + 1) =? 60) eqn:Hi; [|destruct (ch v (position e + 1) =? 33) eqn:Ha]; ch_bounds; simpl; [|lia..].
    destruct (decide (position e + 1 = L - 1)) as [Heq|]; [|lia]. rewrite <- Heq, Hi in Heol. done. }
  clearbody t i a. apply ok_bind. apply (ok_mono _ (fun _ e' => step e tt e' /\ position e < position e')).
  - destruct i.
    + pose proof (skip_range (fun o => negb (o =? 0) && negb (o =? 62)) (t + 1) eq_refl).
      seq. destruct (_ <? _) eqn:Hlt; [|done]. seq. apply Z.ltb_lt in Hlt. pos.
    + seq. apply ok_bind. eapply ok_mono; [apply tag_loop_ok; [pos|rewrite loop_fuel_val; pos]|].
      intros [? ?] e1 H1. seq. case_match; prim; pos.
  - intros [n r] e1 H1. apply ok_bind. destruct (_ && _); prim; [done|].
    seq. apply ok_bind. repeat case_match; prim; pos.
Qed.

Lemma readAnchorProperty_ok e : Inv e ->
  ok (readAnchorProperty v e) (fun b e' => step e b e' /\ (b = true -> position e < position e')).
Proof.
  intros He. unfold readAnchorProperty. destruct (negb _) eqn:H38; [simpl; pos|]. ch_bounds.
  case_match; [done|]. pose proof (skip_range name_char (position e + 1) eq_refl).
  case_match; [done|]. simpl. pos.
Qed.

Lemma readAlias_ok e : Inv e -> ok (readAlias v e) (step e).
Proof.
  intros He. unfold readAlias. destruct (negb _) eqn:H42; [simpl; pos|]. ch_bounds.
  pose proof (skip_range name_char (position e + 1) eq_refl).
  repeat case_match; try done.
  - intros _. eapply (extra_runs (heap e)); [pos|]. by eapply callable_in.
  - seq. call separation_ok. prim. pos.
Qed.

(** ** Scalars *)

(** The end [i] of the captured text is a place of the line, unless a line break is
    pending, and then no line break follows. *)
Lemma plain_loop_ok fuel t w e0 : forall o i u e, Inv e -> adv e0 e -> Inv e0 ->
  L - position e < Z.of_nat fuel ->
  match u with
  | None => Inv (at_ i e) /\ adv e0 (at_ i e) /\ i <= position e
  | Some _ => is_eol (ch v (position e)) = false
  end ->
  ok (plain_loop v fuel t w o i u e) (step e0).
Proof.
  induction fuel as [|k IH]; intros o i u e He Ha H0 Hf Hi; [pos|]. cbn [plain_loop].
  set (c := ch v (position e)). set (r := ch v (position e + 1)).
  set (consume := bind _ _).
  assert (c <> 0 -> ok (consume e) (step e0)) as Hconsume.
  { intros Hc. apply ch_lt in Hc; [|pos]. apply ok_bind.
    apply (ok_mono _ (fun p e1 => same e tt e1 /\ Inv (at_ p.2 e1) /\ adv e0 (at_ p.2 e1) /\ p.2 <= position e1)).
    - destruct u as [u|]; [|prim; simpl; pos].
      call captureSegment_ok. seq. call writeFoldedLines_ok. prim. simpl. pos.
    - intros [o' i'] e1 H1. simpl in H1. seq. seq. apply IH; [pos..|].
      destruct (is_white c); pos. }
  clearbody consume. destruct (c =? 0) eqn:Hc0; [simpl; pos|]. apply Z.eqb_neq in Hc0.
  specialize (Hconsume Hc0).
  destruct (c =? 58); [destruct (is_ws_or_eol r || _); [simpl; pos|exact Hconsume]|].
  destruct (c =? 35); [destruct (is_ws_or_eol _); [simpl; pos|exact Hconsume]|].
  destruct (_ || _); [simpl; pos|].
  destruct (is_eol c) eqn:Hec; [|done].
  destruct u as [u|]; [subst c; congruence|].
  apply ok_bind. eapply ok_mono; [by apply separation_eol|]. intros _ e1 (H1 & H2 & H3 & H4). seq.
  specialize (H4 Hec). destruct (t <=? lineIndent e1).
  - apply IH; [pos..|done].
  - seq. pos.
Qed.

Lemma readPlainScalar_ok t w e : Inv e -> ok (readPlainScalar v t w e) (step e).
Proof.
  intros He. unfold readPlainScalar. case_match; [simpl; pos|]. case_match; [simpl; pos|].
  seq. apply ok_bind. eapply ok_mono.
  { apply (plain_loop_ok (loop_fuel v) t w (with_scalar (Some Scalar) (VStr []) e)); [..|]; pos.
    rewrite loop_fuel_val. pos. }
  intros [o i] e1 H1. call captureSegment_ok. seq. case_match; [seq|prim]; pos.
Qed.

(** The quoted scalars: a line break is passed by the separation. *)
Lemma fold_lines_ok {A} n r t e (k : Z -> M A) Q : Inv e -> is_eol (ch v (position e)) = true ->
  (forall e', Inv e' -> adv e e' -> position e < position e' -> ok (k (position e') e') Q) ->
  ok ((run! captureSegment v n r true in
       do! l := skipSeparationSpace v false t in
       run! writeFoldedLines l in
       do! e := get in k (position e)) e) Q.
Proof.
  intros He Hc Hk. call captureSegment_ok. apply ok_bind. eapply ok_mono; [apply separation_eol; pos|].
  intros l e2 (H2 & H3 & H4 & H5). call writeFoldedLines_ok. seq.
  assert (position e < position e2).
  { destruct H as (Hp & _). rewrite Hp in H5. specialize (H5 Hc). pos. }
  apply Hk; pos.
Qed.

Lemma single_loop_ok fuel t e0 : forall r o e, Inv e -> adv e0 e -> L - position e < Z.of_nat fuel ->
  ok (single_loop v fuel t r o e) (step e0).
Proof.
  induction fuel as [|k IH]; intros r o e He Ha Hf; [pos|]. cbn [single_loop].
  destruct (_ =? 0) eqn:H0; [done|]. apply Z.eqb_neq, ch_lt in H0; [|pos].
  destruct (_ =? 39).
  { call captureSegment_ok. seq. destruct (ch v (position e + 1) =? 39) eqn:H39; ch_bounds.
    - seq. apply IH; pos.
    - prim. pos. }
  destruct (is_eol (ch v (position e))) eqn:He'; [apply (fold_lines_ok _ _ _ _ (fun p => single_loop v k t p p)); [done..|]; intros; apply IH; pos|].
  destruct (_ && _); [done|]. apply IH; pos.
Qed.

Lemma readSingleQuotedScalar_ok t e : Inv e -> ok (readSingleQuotedScalar v t e) (step e).
Proof.
  intros He. unfold readSingleQuotedScalar. destruct (negb _) eqn:H; [simpl; pos|]. ch_bounds.
  apply ok_bind. eapply ok_mono.
  { apply (single_loop_ok _ _ (at_ (position e + 1) (with_scalar (Some Scalar) (VStr []) e))); pos. rewrite loop_fuel_val. pos. }
  intros [] e1 H1. prim. pos.
Qed.

Lemma fromHexCode_lt p : p <= L -> 0 <= fromHexCode (ch v p) -> p < L.
Proof.
  intros Hp Hh. apply ch_lt; [done|]. intros Hc. rewrite Hc in Hh. by vm_compute in Hh.
Qed.

Lemma hex_loop_ok o e0 : forall i e, Inv e -> adv e0 e -> position e < L ->
  ok (hex_loop v o i e) (fun _ e' => Inv e' /\ adv e0 e' /\ position e' < L).
Proof.
  induction o as [|k IH]; intros i e He Ha Hl; cbn [hex_loop]; [simpl; pos|].
  destruct (0 <=? _) eqn:Hh; [|done]. apply Z.leb_le, fromHexCode_lt in Hh; [|pos]. apply IH; pos.
Qed.

Lemma read_escape_ok t e : Inv e -> ok (read_escape v t e) (step e).
Proof.
  intros He. unfold read_escape. destruct (is_eol (ch v (position e))); [call separation_ok; prim; pos|].
  destruct (decide (ch v (position e) = 0)) as [->|Hc]; [done|]. apply ch_lt in Hc; [|pos].
  destruct (bool_decide _); [seq; prim; pos|]. destruct (0 <? _); [|done].
  apply ok_bind. eapply ok_mono; [apply (hex_loop_ok _ e); [done|apply adv_refl|done]|].
  intros i e1 H1. seq. prim. pos.
Qed.

Lemma double_loop_ok fuel t e0 : forall r o e, Inv e -> adv e0 e -> L - position e < Z.of_nat fuel ->
  ok (double_loop v fuel t r o e) (step e0).
Proof.
  induction fuel as [|k IH]; intros r o e He Ha Hf; [pos|]. cbn [double_loop].
  destruct (_ =? 0) eqn:H0; [done|]. apply Z.eqb_neq, ch_lt in H0; [|pos].
  destruct (_ =? 34); [call captureSegment_ok; prim; pos|].
  destruct (_ =? 92); [call captureSegment_ok; seq; call read_escape_ok; seq; apply IH; pos|].
  destruct (is_eol (ch v (position e))) eqn:He'; [apply (fold_lines_ok _ _ _ _ (fun p => double_loop v k t p p)); [done..|]; intros; apply IH; pos|].
  destruct (_ && _); [done|]. apply IH; pos.
Qed.

Lemma readDoubleQuotedScalar_ok t e : Inv e -> ok (readDoubleQuotedScalar v t e) (step e).
Proof.
  intros He. unfold readDoubleQuotedScalar. destruct (negb _) eqn:H; [simpl; pos|]. ch_bounds.
  apply ok_bind. eapply ok_mono.
  { apply (double_loop_ok _ _ (at_ (position e + 1) (with_scalar (Some Scalar) (VStr []) e))); pos. rewrite loop_fuel_val. pos. }
  intros [] e1 H1. prim. pos.
Qed.

Lemma block_header_ok fuel t e0 : forall s f c e, Inv e -> adv e0 e -> position e < L -> L - position e < Z.of_nat fuel ->
  ok (block_header v fuel t s f c e) (step e0).
Proof.
  induction fuel as [|k IH]; intros s f c e He Ha Hl Hf; [pos|]. cbn [block_header].
  cbn [position at_].
  assert (forall P, (P = true -> ch v (position e + 1) <> 0) -> P = true -> position e + 1 < L) as Hc.
  { intros P HP Hp. apply ch_lt; [pos|]. auto. }
  destruct ((_ =? 43) || _) eqn:H43.
  - apply Hc in H43; [|intros HP H0; rewrite H0 in HP; done]. destruct s; [|done..]. apply IH; pos.
  - destruct ((48 <=? _) && _) eqn:H48; [|simpl; pos].
    apply Hc in H48; [|intros HP H0; rewrite H0 in HP; done].
    repeat case_match; try done. apply IH; pos.
Qed.

Lemma block_lines_ok fuel fo s e0 : forall l c f p m e, Inv e -> adv e0 e -> L - position e < Z.of_nat fuel ->
  ok (block_lines v fuel fo s l c f p m e) (step e0).
Proof.
  induction fuel as [|k IH]; intros l c f p m e He Ha Hf; [pos|]. cbn [block_lines].
  destruct (_ =? 0); [simpl; pos|].
  apply ok_bind. eapply ok_mono; [by apply readLineBreak_ok|]. intros [] e1 H1. simpl in H1.
  seq. set (n := indent_len _ _ 0).
  assert (0 <= n /\ position e1 + n <= L) as Hn.
  { pose proof (indent_len_range (if c then Some f else None) (drop (Z.to_nat (position e1)) (input v)) 0) as Hi.
    pose proof (skip_range (Z.eqb 32) (position e1) eq_refl) as Hs. unfold skip in Hs. subst n. pos. }
  clearbody n. seq. set (f' := if negb c && _ then n else f). clearbody f'.
  destruct (is_eol (ch v (position e1 + n))); [apply IH; pos|].
  destruct (n <? f'); [destruct s, l; prim; pos|].
  set (e2 := with_lineIndent n (at_ (position e1 + n) e1)).
  apply ok_bind. apply (ok_mono _ (same e2)); [repeat case_match; repeat (seq); prim; pos|].
  intros m' e3 H3. seq.
  pose proof (skip_range (fun a => negb (is_eol a) && negb (a =? 0)) (position e3) eq_refl).
  subst e2. seq. call captureSegment_ok. apply IH; pos.
Qed.

Lemma readBlockScalar_ok t e : Inv e -> ok (readBlockScalar v t e) (step e).
Proof.
  intros He. unfold readBlockScalar. destruct (_ && _) eqn:Hc; [simpl; pos|].
  assert (position e < L) as Hl.
  { apply ch_lt; [pos|]. intros H0. rewrite H0 in Hc. done. }
  seq. apply ok_bind. eapply ok_mono.
  { apply (block_header_ok _ _ (with_scalar (Some Scalar) (VStr []) e)); pos. rewrite loop_fuel_val. pos. }
  intros [[s f] c] e1 H1. seq. set (e2 := if is_white _ then _ else _).
  assert (step e tt e2) as H2.
  { subst e2. destruct (is_white (ch v (position e1))) eqn:Hw; [|pos].
    assert (position e1 < L) by (apply ch_lt; [pos|]; intros H0; rewrite H0 in Hw; done).
    pose proof (skip_range is_white (position e1 + 1) eq_refl).
    pose proof (skip_range (fun a => negb (is_eol a) && negb (a =? 0)) (skip v is_white (position e1 + 1) + 1) eq_refl).
    destruct (_ =? 35) eqn:H35; ch_bounds; pos. }
  clearbody e2. apply ok_bind. eapply ok_mono.
  { apply (block_lines_ok _ _ _ e); [pos..|]. rewrite loop_fuel_val. pos. }
  intros [] e3 H3. prim. pos.
Qed.

(** ** Collections and nodes *)

Definition blk (n : context) : Z := match n with BLOCK_IN | BLOCK_OUT => 1 | _ => 0 end.

Section Nodes.
(** A [composeNode] that answers below the measure [B]. *)
Context (cn : Z -> context -> bool -> bool -> M bool) (B : Z).
Context (Hcn : forall t n o i e, Inv e -> 2 * (L - position e) + blk n < B -> ok (cn t n o i e) (step e)).

Lemma sequence_loop_ok fuel t a e0 : forall u e, Inv e -> adv e0 e -> 2 * (L - position e) <= B ->
  L - position e < Z.of_nat fuel -> ok (sequence_loop v cn fuel t a u e) (step e0).
Proof.
  induction fuel as [|k IH]; intros u e He Ha HB Hf; [pos|]. cbn [sequence_loop].
  destruct (_ && _) eqn:Hc; [|simpl; pos]. ch_bounds. seq. call separation_ok. seq.
  case_match; [seq; apply IH; pos|].
  apply ok_bind. eapply ok_mono; [apply Hcn; cbn [blk]; pos|]. intros ? ? ?. seq. seq.
  call separation_ok. seq. repeat case_match; [done|prim; pos|apply IH; pos].
Qed.

Lemma readBlockSequence_ok t e : Inv e -> 2 * (L - position e) <= B -> ok (readBlockSequence v cn t e) (step e).
Proof.
  intros He HB. unfold readBlockSequence. apply ok_bind. cbn [new_object ok]. call set_anchorMap_ok.
  apply ok_bind. eapply ok_mono; [apply (sequence_loop_ok _ _ _ e); [pos..|]; rewrite loop_fuel_val; pos|].
  intros [] e1 H1; [seq|prim]; pos.
Qed.

Lemma mapping_key_ok n f u i s e : Inv e -> 2 * (L - position e) < B -> u = ch v (position e) ->
  ok (mapping_key v cn n f u i s e)
    (fun kr e' => step e tt e' /\ match kr with
       | Value _ u' => position e < position e' /\ u' = ch v (position e')
       | _ => True
       end).
Proof.
  intros He HB Hu. unfold mapping_key. destruct (_ || _) eqn:Hk.
  - apply ok_bind. eapply ok_mono; [apply Hcn; cbn [blk]; pos|]. intros w e1 H1.
    destruct w; cbn [negb]; [|prim; pos]. seq.
    pose proof (skip_range is_white (position e1) eq_refl) as Hs.
    destruct (line e1 =? i); [|case_match; prim; pos]. seq.
    destruct (ch v (skip v is_white (position e1)) =? 58) eqn:H58; [|case_match; prim; pos]. ch_bounds. seq.
    case_match; [done|]. call flush_key_ok. seq. pos. split_and!; try lia. f_equal. lia.
  - assert (position e < L) as Hl.
    { apply ch_lt; [pos|]. intros H0. rewrite Hu, H0 in Hk. done. }
    apply ok_bind. apply (ok_mono _ (same e)).
    + case_match; [call flush_key_ok; prim; pos|]. case_match; prim; pos.
    + intros s' e1 H1. seq. pos. split_and!; try lia. f_equal. lia.
Qed.

(** The value ends with the character at the position, or stays at the next one. *)
Lemma mapping_value_char t f i a s u e : Inv e -> 2 * (L - position e) + 1 < B -> u = ch v (position e) ->
  ok (mapping_value v cn t f i a s u e) (fun p e' => step e tt e' /\ p.2 = ch v (position e')).
Proof.
  intros He HB Hu. unfold mapping_value. seq. case_match; [|prim; simpl; pos].
  apply ok_bind. eapply ok_mono; [apply Hcn; cbn [blk]; pos|]. intros w e1 H1. seq.
  set (s' := if w then _ else _). clearbody s'. apply ok_bind. apply (ok_mono _ (same e1)).
  - case_match; [prim; pos|]. call storeMappingPair_ok. case_match. prim. pos.
  - intros s2 e2 H2. call separation_ok. seq. simpl. pos.
Qed.

Lemma mapping_loop_ok fuel t n f e0 : forall u s e, Inv e -> adv e0 e -> 2 * (L - position e) < B ->
  u = ch v (position e) -> L - position e < Z.of_nat fuel ->
  ok (mapping_loop v cn fuel t n f u s e) (step e0).
Proof.
  induction fuel as [|k IH]; intros u s e He Ha HB Hu Hf; [pos|]. cbn [mapping_loop].
  destruct (u =? 0); [simpl; pos|].
  apply ok_bind. eapply ok_mono; [by apply mapping_key_ok|]. intros kr e1 [H1 Hkr].
  destruct kr as [s1 u1| |]; [|prim; pos..]. destruct Hkr as [Hlt Hu1].
  apply ok_bind. eapply ok_mono; [apply mapping_value_char; [pos..|done]|]. intros [s2 u2] e2 [H2 Hu2].
  seq. repeat case_match; [done|prim; pos|apply IH; [pos..|done|pos]].
Qed.

Lemma readBlockMapping_ok t n e : Inv e -> 2 * (L - position e) < B -> ok (readBlockMapping v cn t n e) (step e).
Proof.
  intros He HB. unfold readBlockMapping. apply ok_bind. cbn [new_object ok]. apply ok_bind.
  set (e1 := with_heap _ e). eapply ok_mono; [apply set_anchorMap_ok|]. intros [] e2 H2. subst e1.
  apply ok_bind. eapply ok_mono.
  { apply (mapping_loop_ok _ _ _ _ e); [pos..| |rewrite loop_fuel_val; pos]. f_equal. pos. }
  intros [s|] e3 H3; [|seq; pos].
  apply ok_bind. apply (ok_mono _ (same e3)).
  - case_match; [call storeMappingPair_ok|]; prim; pos.
  - intros [] e4 H4. case_match; [seq|prim]; pos.
Qed.

Lemma flow_entry_ok t im r m e : Inv e -> 2 * (L - position e) < B -> ok (flow_entry v cn t im r m e) (step e).
Proof.
  intros He HB. unfold flow_entry. seq. set (a := _ && _).
  apply ok_bind. apply (ok_mono _ (step e)).
  { subst a. destruct (_ && _) eqn:Ha; [|prim; pos]. ch_bounds. seq. call separation_ok. prim. pos. }
  intros [] e1 H1. seq. apply ok_bind. eapply ok_mono; [apply Hcn; cbn [blk]; pos|]. intros w e2 H2.
  seq. call_as separation_ok e3 H3. seq. apply ok_bind. apply (ok_mono _ (step e3)).
  { destruct (_ && (_ =? 58)) eqn:H58; [|prim; pos]. ch_bounds. seq. call separation_ok.
    apply ok_bind. eapply ok_mono; [apply Hcn; cbn [blk]; pos|]. intros ? ? ?. seq. pos. }
  intros [i f] e4 H4.
  destruct im; [call storeMappingPair_ok; case_match; prim; pos|].
  destruct i; [call storeMappingPair_ok; case_match|]; seq; prim; pos.
Qed.

Lemma flow_loop_ok fuel t c im r e0 : forall m d e, Inv e -> adv e0 e -> 2 * (L - position e) < B ->
  c <> 0 -> c <> -1 -> L - position e + (if d : bool then 1 else 0) < Z.of_nat fuel ->
  ok (flow_loop v cn fuel t c im r m d e) (step e0).
Proof.
  induction fuel as [|k IH]; intros m d e He Ha HB Hc0 Hc1 Hf; [destruct d; pos|]. cbn [flow_loop].
  destruct (_ =? 0); [done|]. call_as separation_ok e1 H1. seq.
  destruct (_ =? c) eqn:Hc.
  { apply Z.eqb_eq, ch_lt_eq in Hc; [|done..]. prim. pos. }
  destruct d; [|done]. cbn [negb].
  call flow_entry_ok. call separation_ok. seq.
  destruct (_ =? 44) eqn:H44; ch_bounds; [seq|]; apply IH; pos.
Qed.

Lemma readFlowCollection_ok t e : Inv e -> 2 * (L - position e) <= B -> ok (readFlowCollection v cn t e) (step e).
Proof.
  intros He HB. unfold readFlowCollection. destruct (_ && _) eqn:Hc; [simpl; pos|].
  assert (position e < L) as Hl.
  { apply ch_lt; [pos|]. intros H0. rewrite H0 in Hc. done. }
  apply ok_bind. cbn [new_object ok]. call set_anchorMap_ok. seq.
  apply ok_bind. eapply ok_mono.
  { apply (flow_loop_ok _ _ _ _ _ e); [pos..|case_match; lia|case_match; lia|rewrite loop_fuel_val; pos]. }
  intros [] e3 H3. seq. pos.
Qed.

Lemma properties_loop_ok fuel t a e0 : forall nl m st_ e, Inv e -> adv e0 e -> (m = true -> a = true) ->
  L - position e < Z.of_nat fuel ->
  ok (properties_loop v fuel t a nl m st_ e) (fun p e' => step e0 tt e' /\ (p.1.2 = true -> a = true)).
Proof.
  induction fuel as [|k IH]; intros nl m st_ e He Ha Hm Hf; [pos|]. cbn [properties_loop].
  apply ok_bind. eapply ok_mono; [by apply readTagProperty_ok|]. intros x e1 [H1 H1'].
  apply ok_bind. apply (ok_mono _ (fun b e' => step e tt e' /\ (b = true -> position e < position e'))).
  { destruct x; [prim; split; [pos|auto]|]. eapply ok_mono; [apply readAnchorProperty_ok; pos|].
    intros b e2 [H2 H2']. split; [pos|]. intros Hb. specialize (H2' Hb). pos. }
  intros x' e2 [H2 H2']. destruct x'; [|prim; split; [pos|exact Hm]].
  specialize (H2' eq_refl). call_as separation_ok e3 H3. seq.
  case_match; apply IH; first [done|pos].
Qed.

Lemma or_else_ok (m n : M bool) e0 e : ok (m e) (step e0) ->
  (forall e', step e0 false e' -> ok (n e') (step e0)) -> ok (or_else m n e) (step e0).
Proof.
  intros Hm Hn. unfold or_else. apply ok_bind. eapply ok_mono; [exact Hm|].
  intros [] e1 H1; [exact H1|by apply Hn].
Qed.

Lemma ok_step {A} (o : out A) e0 e1 : step e0 tt e1 -> ok o (step e1) -> ok o (step e0).
Proof. intros H Ho. eapply ok_mono; [exact Ho|]. intros a e2 H2. by eapply step_trans. Qed.

Ltac from H := eapply ok_step; [exact H|].

Lemma read_content_ok t n blocks m status e : Inv e -> 2 * (L - position e) + blk n <= B ->
  (m = true -> blk n = 1) -> ok (read_content v cn t n blocks m status e) (step e).
Proof.
  intros He HB Hm. assert (0 <= blk n) by (destruct n; simpl; lia).
  unfold read_content. seq. destruct status.
  - destruct m; [apply readBlockSequence_ok; pos|prim; pos].
  - prim; pos.
  - apply ok_bind. apply (ok_mono _ (step e)).
    { apply or_else_ok.
      - destruct m; [|prim; pos]. specialize (Hm eq_refl). apply or_else_ok; [apply readBlockSequence_ok; pos|].
        intros e1 H1. from H1. apply readBlockMapping_ok; pos.
      - intros e1 H1. from H1. apply readFlowCollection_ok; pos. }
    intros [] e1 H1; [prim; pos|]. apply ok_bind. apply (ok_mono _ (step e)).
    { apply or_else_ok.
      - from H1. destruct blocks; [apply readBlockScalar_ok; pos|prim; pos].
      - intros e2 H2. apply or_else_ok; [from H2; apply readSingleQuotedScalar_ok; pos|].
        intros e3 H3. from H3. apply readDoubleQuotedScalar_ok; pos. }
    intros b e2 H2. apply ok_bind. apply (ok_mono _ (step e)).
    { destruct b; [prim; pos|]. call_as readAlias_ok e3 H3. case_match; [seq; case_match; prim; pos|].
      call_as readPlainScalar_ok e4 H4. case_match; [seq; case_match|prim]; pos. }
    intros j e3 H3. seq. call set_anchorMap_ok. prim. pos.
Qed.

Lemma compose_body_ok t n o i e : Inv e -> 2 * (L - position e) + blk n <= B ->
  ok (compose_body v cn t n o i e) (step e).
Proof.
  intros He HB. unfold compose_body. set (blocks := match n with BLOCK_IN | BLOCK_OUT => true | _ => false end).
  assert (blocks = true -> blk n = 1) as Hblk by (by destruct n).
  assert (0 <= blk n) by (destruct n; simpl; lia). clearbody blocks.
  seq. apply ok_bind. apply (ok_mono _ (step e)).
  { destruct o; [|prim; pos]. call_as separation_ok e1 H1. seq. case_match; prim; pos. }
  intros [nl status] e1 H1. apply ok_bind.
  apply (ok_mono _ (fun p e' => step e tt e' /\ (p.1.2 = true -> blk n = 1))).
  { destruct status; [prim; split; [pos|auto]..|]. eapply ok_mono.
    - apply (properties_loop_ok _ _ _ e); [pos..|done|]. rewrite loop_fuel_val. pos.
    - intros p e2 [H2 Hp]. split; [done|auto]. }
  intros [[nl' m] status'] e2 [H2 Hm]. simpl in Hm.
  apply ok_bind. apply (ok_mono _ (step e)).
  { assert (m && (nl' || i) = true -> blk n = 1) as Hm' by (intros Hc; apply andb_prop in Hc as [? _]; auto).
    assert (ok (read_content v cn t n blocks (m && (nl' || i)) status' e2) (step e)) as Hr.
    { from H2. apply read_content_ok; [pos..|done]. }
    destruct status', n; first [exact Hr|prim; pos]. }
  intros j e3 H3. call_as resolve_tag_ok e4 H4. seq. pos.
Qed.

End Nodes.

Lemma composeNode_ok fuel : forall t n o i e, Inv e -> 2 * (L - position e) + blk n < Z.of_nat fuel ->
  ok (composeNode v fuel t n o i e) (step e).
Proof.
  induction fuel as [|k IH]; intros t n o i e He Hf; [destruct n; simpl in Hf; pos|]. cbn [composeNode].
  apply (compose_body_ok _ (Z.of_nat k)); [exact IH|done|lia].
Qed.

(** ** Directives and documents *)

Lemma arguments_loop_ok fuel e0 : forall r e, Inv e -> adv e0 e -> L - position e < Z.of_nat fuel ->
  ok (arguments_loop v fuel r e) (fun _ e' => step e0 tt e' /\ lineIndent e' = lineIndent e).
Proof.
  induction fuel as [|k IH]; intros r e He Ha Hf; [pos|]. cbn [arguments_loop].
  destruct (_ =? 0) eqn:H0; [simpl; pos|].
  pose proof (skip_range is_white (position e) eq_refl) as Hp. set (p := skip v is_white (position e)) in *.
  destruct (ch v p =? 35) eqn:H35.
  { ch_bounds. pose proof (skip_range (fun o => negb (o =? 0) && negb (is_eol o)) (p + 1) eq_refl). simpl. pos. }
  destruct (is_eol (ch v p)) eqn:Hpe; [simpl; pos|].
  pose proof (skip_range word_char p eq_refl) as Hq.
  assert (position e < skip v word_char p) as Hlt.
  { destruct (decide (position e = p)) as [Heq|]; [|pos]. rewrite Heq in H0.
    assert (word_char (ch v p) = true) as Hw; [|apply (skip_start word_char p) in Hw; pos].
    pose proof (skip_stop is_white (position e) eq_refl) as Hwh. fold p in Hwh.
    unfold word_char. rewrite H0. simpl. unfold is_ws_or_eol, is_white, is_eol in *.
    rewrite <- orb_assoc, Hpe, Hwh by pos. done. }
  eapply ok_mono; [apply IH; pos|]. intros l e1 [H1 H2]. pos.
Qed.

Lemma handleYamlDirective_ok n e : ok (handleYamlDirective n e) (same e).
Proof. unfold handleYamlDirective. repeat case_match; try done. all: seq; prim; pos. Qed.

Lemma handleTagDirective_ok n e : ok (handleTagDirective n e) (same e).
Proof. unfold handleTagDirective. repeat case_match; done. Qed.

Lemma readDirective_ok e : Inv e -> lineIndent e = 0 -> ch v (position e) = 37 ->
  ok (readDirective v e) (fun _ e' => Inv e' /\ position e < position e').
Proof.
  intros He Hli Hc. apply ch_lt_eq in Hc; [|lia..]. unfold readDirective.
  pose proof (skip_range word_char (position e + 1) eq_refl). seq. case_match; [done|].
  apply ok_bind. eapply ok_mono.
  { apply (arguments_loop_ok _ (at_ (skip v word_char (position e + 1)) e)); [pos..|rewrite loop_fuel_val; pos]. }
  intros r e1 [H1 H1']. seq. apply ok_bind.
  apply (ok_mono _ (fun _ e' => Inv e' /\ position e < position e')).
  { destruct (negb _); [|prim; pos]. eapply ok_mono; [apply readLineBreak_ok; pos|]. intros [] e2 Hb. pos. }
  intros [] e2 Hb. repeat case_match; [last_call handleYamlDirective_ok|last_call handleTagDirective_ok|prim; pos].
Qed.

Lemma directives_loop_ok fuel e0 : forall a e, Inv e -> adv e0 e -> L - position e < Z.of_nat fuel ->
  ok (directives_loop v fuel a e) (step e0).
Proof.
  induction fuel as [|k IH]; intros a e He Ha Hf; [pos|]. cbn [directives_loop].
  destruct (_ =? 0); [simpl; pos|]. call_as separation_ok e1 H1. seq.
  destruct (_ || _) eqn:Hc; [prim; pos|]. apply orb_false_iff in Hc as [Hli Hc].
  apply Z.ltb_ge in Hli. apply negb_false_iff, Z.eqb_eq in Hc.
  apply ok_bind. eapply ok_mono; [apply readDirective_ok; pos; done|]. intros [] e2 H2. apply IH; pos.
Qed.

Lemma separator_marks e : testDocumentSeparator v e = true ->
  (ch v (position e) = 45 \/ ch v (position e) = 46) /\
  ch v (position e + 1) = ch v (position e) /\ ch v (position e + 2) = ch v (position e).
Proof.
  unfold testDocumentSeparator. intros H.
  apply andb_prop in H as [H _]. apply andb_prop in H as [H H2]. apply andb_prop in H as [H H1].
  apply Z.eqb_eq in H1, H2. apply orb_prop in H as [H|H]; apply Z.eqb_eq in H; auto.
Qed.

(** A document consumes input, or leaves at most the last line break. *)
Lemma readDocument_ok e : Inv e -> position e < L - 1 ->
  ok (readDocument v e) (fun _ e' => Inv e' /\ (position e < position e' \/ L - 1 <= position e')).
Proof.
  intros He Hlt. unfold readDocument. seq. apply ok_bind.
  eapply ok_mono; [apply (directives_loop_ok _ e); pos; rewrite loop_fuel_val; pos|]. intros a e1 St1.
  call_as separation_ok e2 St2. seq. apply ok_bind.
  apply (ok_mono _ (fun _ e' => step e2 tt e' /\ (ch v (position e2) = 45 -> ch v (position e2 + 1) = 45 ->
     ch v (position e2 + 2) = 45 -> position e' = position e2 -> lineStart e' < position e'))).
  { destruct (_ && (_ =? 45)) eqn:Hm.
    - ch_bounds. seq. call_as separation_ok e3 St3. prim. split; [pos|]. intros _ _ _. pos.
    - destruct a; [done|]. prim. split; [pos|]. intros H45 H45' H45'' _.
      rewrite H45, H45', H45'' in Hm. simpl in Hm. rewrite !andb_true_r in Hm. apply Z.eqb_neq in Hm. pos. }
  intros [] e3 [St3 St3']. seq. apply ok_bind. eapply ok_mono.
  { apply composeNode_ok; [pos|]. cbn [blk]. unfold node_fuel. unfold zlen in Hlen. pos. }
  intros b e4 St4. call_as separation_ok e5 St5. seq. apply ok_bind. apply (ok_mono _ (same e5)).
  { case_match; prim; pos. }
  intros [] e6 St6. seq. seq.
  assert (step e3 tt e6) as [Hi6 Ha6] by exact (step_same _ _ _ _ _ (step_trans _ _ _ _ _ St4 St5) St6).
  assert (adv e e2 /\ adv e2 e3) as [Ha2 Ha3] by (split; [exact (proj2 (step_trans _ _ _ _ _ St1 St2))|exact (proj2 St3)]).
  clear St1 St2 St3 St4 St5 St6 He.
  destruct (_ && _) eqn:Hsep.
  - cbn [position lineStart with_store] in Hsep |- *. apply andb_prop in Hsep as [Hls Hsep].
    apply Z.eqb_eq in Hls. apply separator_marks in Hsep as (Hm & Hm1 & Hm2).
    cbn [position with_store] in Hm, Hm1, Hm2.
    destruct (_ =? 46) eqn:H46; [|destruct Hm as [Hm|Hm]; [|by rewrite Hm in H46]].
    + ch_bounds. rewrite H46 in Hm2. apply ch_lt_eq in Hm2; [|lia..].
      seq. call_as separation_ok e7 St7. prim. pos.
    + prim. rewrite Hm in Hm1, Hm2. split; [pos|]. left.
      destruct (decide (position e6 = position e)) as [Heq|]; [exfalso|pos].
      assert (position e2 = position e6) as Heq2 by pos. rewrite <- Heq2 in Hm, Hm1, Hm2.
      specialize (St3' Hm Hm1 Hm2). pos.
  - case_match; [done|]. prim. apply Z.ltb_ge in H. cbn [position with_store] in H. split; [pos|]. rewrite Hlength in H. pos.
Qed.

Lemma documents_loop_ok fuel : forall e, Inv e -> L - position e < Z.of_nat fuel ->
  ok (documents_loop v fuel e) (fun _ e' => Inv e').
Proof.
  induction fuel as [|k IH]; intros e He Hf; [pos|]. cbn [documents_loop].
  destruct (_ <? _) eqn:Hlt; [|done]. apply Z.ltb_lt in Hlt. rewrite Hlength in Hlt.
  apply ok_bind. eapply ok_mono; [by apply readDocument_ok|]. intros [] e1 [H1 [H2|H2]]; [apply IH; [done|lia]|].
  destruct k as [|k]; [lia|]. cbn [documents_loop].
  destruct (_ <? _) eqn:Hlt'; [|done]. apply Z.ltb_lt in Hlt'. lia.
Qed.

End Total.

(** ** Every input *)

Lemma prepare_shape e : prepare e = [] \/
  exists l c, prepare e = l ++ [c] /\ is_eol c = true.
Proof.
  unfold prepare. destruct (decide (e = [])) as [->|Hne]; [by left|right].
  set (d := default (-1) (zget e (zlen e - 1))). set (f := if _ || _ then e else e ++ [10]).
  assert (exists l c, f = l ++ [c] /\ is_eol c = true) as (l & c & Hf & Hc).
  { subst f. destruct ((d =? 10) || (d =? 13)) eqn:Hd; [|by exists e, 10].
    destruct (exists_last Hne) as (l & c & ->). exists l, c. split; [done|].
    subst d. rewrite zlen_app, zget_app_r in Hd by (unfold zlen; simpl; lia).
    replace (zlen l + zlen [c] - 1 - zlen l) with 0 in Hd by (unfold zlen; simpl; lia). done. }
  clearbody f. subst f. destruct (bool_decide _) eqn:Hb; [|by exists l, c].
  apply bool_decide_eq_true in Hb. destruct l as [|x l]; simpl in Hb.
  - unfold zget in Hb. simpl in Hb. by simplify_eq.
  - exists l, c. split; [|done].
    replace ((x :: l) ++ [c]) with ([x] ++ (l ++ [c]) ++ []) by by rewrite app_nil_r.
    replace 1 with (zlen [x]) by done.
    replace (zlen ([x] ++ (l ++ [c]) ++ [])) with (zlen [x] + zlen (l ++ [c])) by (rewrite app_nil_r; unfold zlen; simpl; lia).
    apply zsub_app.
Qed.

(** The schema of an input has the types of the options. *)
Lemma env_strict w e t strict : (strict = true -> makes_functions (opt_schema t) = false) ->
  strict = true -> TFunction ∉ implicitTypes (load_env w e t) /\ forall k g, typeMap (load_env w e t) k g <> Some TFunction.
Proof.
  intros H Hs. specialize (H Hs). apply bool_decide_eq_false in H. rewrite elem_of_app in H. split; cbn [load_env implicitTypes typeMap]; [tauto|].
  intros k g [Hf _]%find_some. apply H. apply list_elem_of_In in Hf. by rewrite elem_of_reverse, elem_of_app in Hf.
Qed.

Lemma loadDocuments_ok strict w h e t : (strict = true -> makes_functions (opt_schema t) = false /\ functions h = 0) ->
  ok strict (loadDocuments w h e t) (fun _ _ => True).
Proof.
  intros Hst. assert (Hv := env_strict w e t strict (fun Hs => proj1 (Hst Hs))). unfold loadDocuments. set (v := load_env w e t) in *.
  assert (ok strict (documents_loop v (loop_fuel v) (initial h v)) (fun _ _ => True)) as H; [|by destruct (documents_loop _ _ _)].
  destruct (prepare_shape e) as [H0|(l & c & Hp & Hc)].
  - unfold loop_fuel. cbn [documents_loop]. subst v. unfold load_env, initial. cbn [length_ position].
    rewrite H0. by simpl.
  - assert (input v = l ++ [c; 0]) as Hin by (subst v; unfold load_env; cbn [input]; rewrite Hp, <- app_assoc; done).
    set (L := zlen l + 1). assert (0 <= zlen l) by (unfold zlen; lia).
    assert (zlen (input v) = L + 1) as Hlen by (rewrite Hin, zlen_app; unfold zlen at 2; simpl; lia).
    assert (ch v L = 0) as Hnul.
    { unfold ch. rewrite Hin. subst L. by rewrite zget_app_at by lia. }
    assert (is_eol (ch v (L - 1)) = true) as Heol.
    { unfold ch. rewrite Hin. subst L. replace (zlen l + 1 - 1) with (zlen l + 0) by lia. by rewrite zget_app_at by lia. }
    assert (length_ v = L) as Hlength by (subst v; unfold load_env; cbn [length_]; rewrite Hp, zlen_app; done).
    assert (1 <= L) as HL by lia.
    assert (0 <= skip v (Z.eqb 32) 0 <= L) as Hs by (apply (skip_range v L); done || lia).
    eapply ok_mono; [apply (documents_loop_ok strict v L)|done]; try done; try lia.
    + unfold Inv, initial, extra. cbn [position line lineStart lineIndent heap]. destruct strict; [destruct (Hst eq_refl)|]; lia.
    + rewrite (loop_fuel_val v L) by done. unfold initial. cbn [position]. lia.
Qed.

(** C12: the loader always answers. On every input, with every schema of the types of the library,
    set of options and page, and without a listener, [loadDocuments] ends with the list of
    documents or with an exception: no loop and no nesting of nodes goes on without consuming
    input. There are three ways out of this: a function of the document is called, and then the
    schema has the type of functions or there were functions in the store before; a collection
    or null is put under the name [__proto__] into a mapping or the map of the anchors, and becomes
    its prototype; or a collection has the tag [!<?>] and is given to a type of scalars. *)
Theorem yaml_load_total w h e t :
  (exists d s, loadDocuments w h e t = Ret d s) \/ (exists f, loadDocuments w h e t = Fails f) \/
  (exists b, loadDocuments w h e t = Leaves b /\ (b = RunsFunction -> makes_functions (opt_schema t) = true \/ 0 < functions h)).
Proof.
  pose proof (loadDocuments_ok (negb (makes_functions (opt_schema t)) && (functions h =? 0)) w h e t) as H.
  destruct (loadDocuments w h e t) as [d s|f|b|]; [by left; eauto|by right; left; eauto|right; right|].
  - exists b. split; [done|]. intros ->. assert (0 <= functions h) by (unfold functions; apply zlen_nonneg).
    destruct (makes_functions (opt_schema t)); [by left|right]. destruct (Z.eqb_spec (functions h) 0); [|lia]. by discriminate H.
  - exfalso. apply H. intros [H1%negb_true_iff H2%Z.eqb_eq]%andb_prop. done.
Qed.

(** The safe schema has no functions; the default one has. *)
Lemma safe_makes_none : makes_functions (opt_schema safe_options) = false /\ makes_functions (opt_schema default_options) = true.
Proof. by vm_compute. Qed.

(** ** Behaviours the loader should not have *)

(** A page with esprima that knows one function. *)
Definition page_with_esprima : host :=
  Build_host
    (Some (fun s => if decide (s = js "(function(){ return 1 })") then
       Some (Build_program (js "Program") [(js "ExpressionStatement",
         Build_expression (js "FunctionExpression") [] (js "BlockStatement") (11, 23))])
     else None))
    (fun _ _ => true) (fun _ _ => true) (fun _ => []) (fun s => s) (fun _ _ => []).

(** [safeLoadAll] without an iterator is not safe: it hands its options to
    [loadAll] in the place of the iterator, so the default schema with the
    JavaScript types is used, and a document builds a function; [safeLoad], and
    [safeLoadAll] with an iterator, reject that document. *)
Theorem yaml_safeLoadAll_unsafe :
  let doc := js "!!js/function 'function(){ return 1 }'" in
  let unknown := YAMLException (js "unknown tag !<tag:yaml.org,2002:js/function>") 38 0 38 in
  (exists s, safeLoadAll page_with_esprima [] doc false = Ret [VRef 0] s /\
             heap s = [OFun [] (js " return 1 ")]) /\
  safeLoadAll page_with_esprima [] doc true = Fails unknown /\
  safeLoad page_with_esprima [] doc = Fails unknown.
Proof. split; [eexists|]; vm_compute; auto. Qed.

(** With the schema of [load] a document can run code while it is read: a key that is a mapping
    whose [toString] is a function is converted to a string, and an anchor named
    [hasOwnProperty] can be a function as well. A mapping under the key [__proto__] becomes a
    prototype, with any schema. *)
Theorem yaml_load_leaves :
  load page_with_esprima [] (js "? {toString: !!js/function 'function(){ return 1 }'} : x") default_options = Leaves RunsFunction /\
  load page_with_esprima [] (js "[&hasOwnProperty !!js/function 'function(){ return 1 }', *a]") default_options = Leaves RunsFunction /\
  safeLoad page_with_esprima [] (js "{__proto__: {a: 1}}") = Leaves SetsPrototype /\
  safeLoad page_with_esprima [] (js "!<?> [1]") = Leaves CollectionAsScalar.
Proof. by vm_compute. Qed.

(** What [safeLoad] answers: the value with the object it is, or the exception. *)
Definition answer (o : out value) : option (value * option obj) + option failure :=
  match o with
  | Ret (VRef a) s => inl (Some (VRef a, heap s !! a))
  | Ret x s => inl (Some (x, None))
  | Fails f => inr (Some f)
  | Leaves _ | Fuel => inr None
  end.

Definition plain_page : host :=
  Build_host None (fun _ _ => true) (fun _ _ => true) (fun _ => []) (fun s => s) (fun _ _ => []).

(** Lines joined by line feeds. *)
Definition lines (l : list string) : jsstring := foldr (fun s r => js s ++ [10] ++ r) [] l.

(** Four documents the loader reads wrongly. The strip indicator of a block
    scalar has no effect when the text is not indented; an anchor named
    [hasOwnProperty] makes every alias throw a TypeError, because the loader calls
    that method on the map of the anchors; an alias to an anchor named [__proto__]
    is unidentified; and a key named [__proto__] is lost. *)
Theorem yaml_load_defects :
  answer (safeLoad plain_page [] (lines ["--- |-"; "text"]))
    = inl (Some (VStr (js "text" ++ [10]), None)) /\
  answer (safeLoad plain_page [] (lines ["--- |-"; " text"]))
    = inl (Some (VStr (js "text"), None)) /\
  answer (safeLoad plain_page [] (lines ["- &hasOwnProperty 1"; "- *hasOwnProperty"]))
    = inr (Some (Exception (TypeError "e.anchorMap.hasOwnProperty is not a function"))) /\
  answer (safeLoad plain_page [] (lines ["- &__proto__ 1"; "- *__proto__"]))
    = inr (Some (YAMLException (js "unidentified alias " ++ [34] ++ js "__proto__" ++ [34]) 27 1 12)) /\
  answer (safeLoad plain_page [] (lines ["a: 1"; "__proto__: 2"]))
    = inl (Some (VRef 1, Some (OObj [(js "a", VNum (JInt 1))]))).
Proof. vm_compute. auto 10. Qed.

End YamlTotal.
