(* ===== verification/YamlDump.v ===== *)
(** * js-yaml: the dumper

    A model of the dumper of js-yaml (swagger-ui-bundle.js, 27325 to 27592): the
    scalar styles and how one is chosen, the detection of a type, the block and flow
    collections, the references to duplicated objects, [dump] and [safeDump]. *)

From S2P Require Import Prelude JsString JsNum Regex YamlTypes YamlTime YamlSchema YamlLoad.
From Stdlib Require Import String.
From stdpp Require Import base numbers list strings option.
Open Scope Z_scope.

Module YamlDump.
Import YamlTypes YamlTime YamlSchema YamlLoad.

(** ** Options and state *)

(** The options as the caller gives them; 0 counts as absent where the code uses
    [||]. A function for [sortKeys] is not modelled. *)
Record dump_options := mkdump {
  d_schema : schema ytype; d_indent : Z; d_skipInvalid : bool; d_flowLevel : option Z;
  d_styles : list (jsstring * jsstring); d_sortKeys : bool; d_lineWidth : Z;
  d_noRefs : bool; d_noCompatMode : bool; d_condenseFlow : bool
}.

Record settings := mksettings {
  indent : Z; skipInvalid : bool; flowLevel : Z; styleMap : list (jsstring * jsstring);
  sortKeys : bool; lineWidth : Z; noRefs : bool; noCompatMode : bool; condenseFlow : bool;
  implicitTypes : list ytype; explicitTypes : list ytype
}.

Definition styleAliases (t : ytype) (u : jsstring) : option jsstring :=
  match t with
  | TInt => own u (map (fun p => (js p.1, js p.2))
              [("2", "binary"); ("bin", "binary"); ("8", "octal"); ("oct", "octal");
               ("10", "decimal"); ("dec", "decimal"); ("16", "hexadecimal"); ("hex", "hexadecimal")]%string)
  | _ => None
  end.

Definition compileStyleMap (s : schema ytype) (styles : list (jsstring * jsstring)) : list (jsstring * jsstring) :=
  foldl (fun n p =>
    let a := if bool_decide (take 2 p.1 = js "!!") then js "tag:yaml.org,2002:" ++ drop 2 p.1 else p.1 in
    let u := match type_map type_tag type_kind s None a with
             | Some l => default p.2 (styleAliases l p.2)
             | None => p.2
             end in
    assign a u n) [] styles.

Definition State (e : dump_options) : settings :=
  mksettings (Z.max 1 (if d_indent e =? 0 then 2 else d_indent e)) (d_skipInvalid e)
    (default (-1) (d_flowLevel e)) (compileStyleMap (d_schema e) (d_styles e)) (d_sortKeys e)
    (if d_lineWidth e =? 0 then 80 else d_lineWidth e) (d_noRefs e) (d_noCompatMode e) (d_condenseFlow e)
    (compiledImplicit type_tag type_kind (d_schema e)) (compiledExplicit type_tag type_kind (d_schema e)).

(** ** Characters *)

Definition isPrintable (e : Z) : bool :=
  ((32 <=? e) && (e <=? 126))
  || ((161 <=? e) && (e <=? 55295) && negb (e =? 8232) && negb (e =? 8233))
  || ((57344 <=? e) && (e <=? 65533) && negb (e =? 65279))
  || ((65536 <=? e) && (e <=? 1114111)).

Definition isPlainSafe (e : Z) : bool :=
  isPrintable e && negb (e =? 65279) && negb (is_flow e) && negb (e =? 58) && negb (e =? 35).

Definition first_excluded (u : Z) : bool :=
  is_white u || bool_decide (u ∈ js "-?:,[]{}#&*!|>'%@`") || (u =? 34).

Definition isPlainSafeFirst (u : Z) : bool := isPrintable u && negb (u =? 65279) && negb (first_excluded u).

(** The table ESCAPE_SEQUENCES. *)
Definition ESCAPE_SEQUENCES (e : Z) : option jsstring :=
  own [e] (map (fun p => ([p.1], [92; p.2]))
    [(0, 48); (7, 97); (8, 98); (9, 116); (10, 110); (11, 118); (12, 102); (13, 114); (27, 101);
     (34, 34); (92, 92); (133, 78); (160, 95); (8232, 76); (8233, 80)]).

Definition DEPRECATED_BOOLEANS : list string :=
  ["y"; "Y"; "yes"; "Yes"; "YES"; "on"; "On"; "ON"; "n"; "N"; "no"; "No"; "NO"; "off"; "Off"; "OFF"]%string.

Definition encodeHex (e : Z) : res jsstring :=
  let t := upper (digits 16 e) in
  let write n i := Ok ([92; n] ++ repeat [48] (i - zlen t) ++ t) in
  if e <=? 255 then write 120 2
  else if e <=? 65535 then write 117 4
  else if e <=? 4294967295 then write 85 8
  else Throw (JsError "code point within a string may not be greater than 0xFFFFFFFF").

(** ** Scalar styles *)

Fixpoint escapeString (e : jsstring) : res jsstring :=
  match e with
  | [] => Ok []
  | t :: e' =>
      let single (k : res jsstring) :=
        let! o := (match ESCAPE_SEQUENCES t with
                   | Some r => Ok r
                   | None => if isPrintable t then Ok [t] else encodeHex t
                   end) in
        let! r := k in Ok (o ++ r) in
      match e' with
      | n :: e'' =>
          if high_surrogate t && low_surrogate n then
            let! o := encodeHex (1024 * (t - 55296) + n - 56320 + 65536) in
            let! r := escapeString e'' in Ok (o ++ r)
          else single (escapeString e')
      | [] => single (Ok [])
      end
  end.

(** [/^\n* /.test(s)]. *)
Fixpoint needIndentIndicator (s : jsstring) : bool :=
  match s with
  | c :: s' => if c =? 10 then needIndentIndicator s' else c =? 32
  | [] => false
  end.

Inductive scalar_style := PLAIN | SINGLE | LITERAL | FOLDED | DOUBLE.

(** A line longer than the width that does not start with a space: [i] is the index
    after it and [m] the index before it. *)
Definition long_line (s : jsstring) (width i m : Z) : bool :=
  negb (width =? -1) && (width <? i - m - 1) && negb (bool_decide (zget s (m + 1) = Some 32)).

(** The loop over the characters of a scalar that may take several lines: a line
    break was seen, a line is long, plain is possible; [None]: not printable. *)
Fixpoint style_loop (s rest : jsstring) (width i m : Z) (brk long plain : bool) : option (bool * bool * bool) :=
  match rest with
  | [] => Some (brk, long || long_line s width i m, plain)
  | a :: rest' =>
      let plain := plain && isPlainSafe a in
      if a =? 10 then
        if width =? -1 then style_loop s rest' width (i + 1) m true long plain
        else style_loop s rest' width (i + 1) i true (long || long_line s width i m) plain
      else if isPrintable a then style_loop s rest' width (i + 1) m brk long plain
      else None
  end.

Definition chooseScalarStyle (s : jsstring) (singleLineOnly : bool) (indentPerLevel width : Z)
    (ambiguous : jsstring -> bool) : scalar_style :=
  let plain := isPlainSafeFirst (default (-1) (zget s 0)) && negb (is_white (default (-1) (zget s (zlen s - 1)))) in
  let scanned :=
    if singleLineOnly then
      if forallb isPrintable s then Some (false, false, plain && forallb isPlainSafe s) else None
    else style_loop s s width 0 (-1) false false plain in
  match scanned with
  | None => DOUBLE
  | Some (brk, long, plain) =>
      if brk || long then
        if (9 <? indentPerLevel) && needIndentIndicator s then DOUBLE
        else if long then FOLDED else LITERAL
      else if plain && negb (ambiguous s) then PLAIN else SINGLE
  end.

(** ** Block scalars *)

(** [indentString(s, spaces)]: a line is indented unless it is empty. [at_start]
    tells that the rest starts a line. *)
Fixpoint indent_from (ind : jsstring) (at_start : bool) (s : jsstring) : jsstring :=
  match s with
  | [] => []
  | c :: s' => (if at_start && negb (c =? 10) then ind else []) ++ c :: indent_from ind (c =? 10) s'
  end.
Definition indentString (s : jsstring) (spaces : Z) : jsstring := indent_from (repeat [32] spaces) true s.

Definition generateNextLine (e : settings) (level : Z) : jsstring := [10] ++ repeat [32] (indent e * level).

Definition blockHeader (s : jsstring) (indentPerLevel : Z) : jsstring :=
  let n := if needIndentIndicator s then digits 10 indentPerLevel else [] in
  let r := bool_decide (zget s (zlen s - 1) = Some 10) in
  n ++ (if r && (bool_decide (zget s (zlen s - 2) = Some 10) || bool_decide (s = [10])) then [43]
        else if r then [] else [45]) ++ [10].

Definition dropEndingNewline (s : jsstring) : jsstring :=
  if bool_decide (zget s (zlen s - 1) = Some 10) then zsub s 0 (zlen s - 1) else s.

(** The matches of [/ [^ ]/g] in a line: the indices of the spaces before a
    character that is not one. The search goes on after that character. *)
Fixpoint break_points (fuel : nat) (line : jsstring) (i : Z) : list Z :=
  match fuel, line with
  | S k, 32 :: c :: line' =>
      if c =? 32 then break_points k (c :: line') (i + 1) else i :: break_points k line' (i + 2)
  | S k, _ :: line' => break_points k line' (i + 1)
  | _, _ => []
  end.

(** [foldLine(line, width)]: [i] is the start of the line, [a] the last break point. *)
Definition foldLine (line : jsstring) (width : Z) : jsstring :=
  if bool_decide (line = []) || bool_decide (zget line 0 = Some 32) then line
  else
    let '(i, a, s) := foldl (fun acc u =>
        let '(i, a, s) := acc in
        if width <? u - i then
          let r := if i <? a then a else u in
          (r + 1, u, s ++ [10] ++ zsub line i r)
        else (i, u, s)) (0, 0, []) (break_points (length line) line 0) in
    let s := s ++ [10] in
    drop 1 (if (width <? zlen line - i) && (i <? a)
            then s ++ zsub line i a ++ [10] ++ zsub line (a + 1) (zlen line)
            else s ++ zsub line i (zlen line)).

(** The run of line feeds at the start of [s], and the line after it. *)
Fixpoint take_breaks (s : jsstring) : jsstring * jsstring :=
  match s with
  | c :: s' => if c =? 10 then let '(b, r) := take_breaks s' in (c :: b, r) else ([], s)
  | [] => ([], [])
  end.
Fixpoint take_line (s : jsstring) : jsstring * jsstring :=
  match s with
  | c :: s' => if c =? 10 then ([], s) else let '(l, r) := take_line s' in (c :: l, r)
  | [] => ([], [])
  end.

(** The loop over the matches of [/(\n+)([^\n] * )/g]; [a]: the previous line is more
    indented. *)
Fixpoint fold_loop (fuel : nat) (rest : jsstring) (width : Z) (a : bool) : jsstring :=
  match fuel, rest with
  | S k, _ :: _ =>
      let '(s, r) := take_breaks rest in
      let '(l, r) := take_line r in
      let n := bool_decide (zget l 0 = Some 32) in
      s ++ (if a || n || bool_decide (l = []) then [] else [10]) ++ foldLine l width ++ fold_loop k r width n
  | _, _ => []
  end.

Definition foldString (s : jsstring) (width : Z) : jsstring :=
  let '(l, r) := take_line s in
  let a := bool_decide (zget s 0 = Some 10) || bool_decide (zget s 0 = Some 32) in
  foldLine l width ++ fold_loop (length s) r width a.

Definition double_quotes (s : jsstring) : jsstring := concat (map (fun c => if c =? 39 then [39; 39] else [c]) s).

(** [writeScalar(state, string, level, iskey)]. *)
Definition testImplicitResolving (w : host) (e : settings) (s : jsstring) : bool :=
  existsb (fun t => resolve w t [] (VStr s)) (implicitTypes e).

Definition writeScalar (w : host) (e : settings) (t : jsstring) (level : Z) (iskey : bool) : res jsstring :=
  if zlen t =? 0 then Ok [39; 39]
  else if negb (noCompatMode e) && is_text t DEPRECATED_BOOLEANS then Ok ([39] ++ t ++ [39])
  else
    let i := indent e * Z.max 1 level in
    let a := if lineWidth e =? -1 then -1 else Z.max (Z.min (lineWidth e) 40) (lineWidth e - i) in
    let single := iskey || ((-1 <? flowLevel e) && (flowLevel e <=? level)) in
    match chooseScalarStyle t single (indent e) a (testImplicitResolving w e) with
    | PLAIN => Ok t
    | SINGLE => Ok ([39] ++ double_quotes t ++ [39])
    | LITERAL => Ok ([124] ++ blockHeader t (indent e) ++ dropEndingNewline (indentString t i))
    | FOLDED => Ok ([62] ++ blockHeader t (indent e) ++ dropEndingNewline (indentString (foldString t a) i))
    | DOUBLE => let! s := escapeString t in Ok ([34] ++ s ++ [34])
    end.

(** ** Types *)

Definition type_matches (t : ytype) (h : store) (x : value) : bool :=
  match t, x with
  | TNull, VNull => true
  | TBool, VBool _ => true
  | TInt, VNum n => int_predicate n
  | TFloat, VNum n => float_predicate n
  | TUndefined, VUndef => true
  | TTimestamp, VRef a => match h !! a with Some (ODate _) => true | _ => false end
  | TBinary, VRef a => match h !! a with Some (OBuf _) => true | _ => false end
  | TRegexp, VRef a => match h !! a with Some (ORegExp _ _) => true | _ => false end
  | TFunction, VRef a => match h !! a with Some (OFun _ _) => true | _ => false end
  | _, _ => false
  end.

Definition defaultStyle (t : ytype) : jsstring :=
  match t with
  | TNull | TBool | TFloat => js "lowercase"
  | TInt => js "decimal"
  | _ => []
  end.

(** The name of a style, among those the types know. *)
Definition style_name (s : jsstring) : string :=
  default "?"%string (List.find (fun n => bool_decide (js n = s))
    ["canonical"; "lowercase"; "uppercase"; "camelcase"; "binary"; "octal"; "decimal"; "hexadecimal"]%string).

Definition style_of_int (n : string) : option int_style :=
  if bool_decide (n = "binary"%string) then Some Binary
  else if bool_decide (n = "octal"%string) then Some Octal
  else if bool_decide (n = "decimal"%string) then Some Decimal
  else if bool_decide (n = "hexadecimal"%string) then Some Hexadecimal
  else None.

(** [represent] of a type; [None]: the type does not know the style. *)
Definition represent (w : host) (t : ytype) (style : jsstring) (h : store) (x : value) : option jsstring :=
  let n := style_name style in
  match t, x with
  | TNull, _ => null_represent n
  | TBool, VBool b => bool_represent n b
  | TInt, VNum (JInt z) => s ← style_of_int n; Some (int_represent s z)
  | TFloat, VNum f => Some (float_represent n f)
  | TUndefined, _ => Some []
  | _, VRef a =>
      match h !! a with
      | Some (ODate ms) => Some (timestamp_represent ms)
      | Some (OBuf b) => Some (binary_represent b)
      | Some (ORegExp s f) =>
          Some ([47] ++ RegExp_source w s ++ [47] ++ List.filter (fun c => bool_decide (c ∈ f)) (js "gmi"))
      | Some (OFun ps b) => Some (Function_text w ps b)
      | _ => None
      end
  | _, _ => None
  end.

(** ** Nodes *)

Record dst := mkdst { dtag : option jsstring; dump : jsstring; used : list nat }.

Inductive dout :=
| DRet (ok : bool) (s : dst)
| DFails (f : failure)
| DFuel.

Definition dbind (m : dout) (k : bool -> dst -> dout) : dout :=
  match m with
  | DRet b s => k b s
  | DFails f => DFails f
  | DFuel => DFuel
  end.

Notation "'node!' b , s ':=' m 'in' k" := (dbind m (fun b s => k))
  (at level 10, b name, s name, m at level 100, k at level 200) : js_scope.

(** [detectType]: the tag ("?" for an implicit type) and the text. *)
Definition detectType (w : host) (e : settings) (h : store) (x : value) (explicit : bool)
    : option (failure + jsstring * jsstring) :=
  match List.find (fun t => type_matches t h x) (if explicit then explicitTypes e else implicitTypes e) with
  | None => None
  | Some c =>
      let f := match own (type_tag c) (styleMap e) with
               | Some u => if bool_decide (u = []) then defaultStyle c else u
               | None => defaultStyle c
               end in
      Some (match represent w c f h x with
            | Some r => inr (if explicit then type_tag c else js "?", r)
            | None => inl (YAMLException_unmarked
                (js "!<" ++ type_tag c ++ js "> tag resolver accepts not " ++ [34] ++ f ++ [34] ++ js " style"))
            end)
  end.

(** What [Object.prototype.toString] tells of a value that no type represents. *)
Inductive class :=
| IsObject (a : nat) (l : list (jsstring * value))
| IsArray (a : nat) (l : list value)
| IsString (s : jsstring)
| IsOther (name : jsstring).

Definition class_of (h : store) (x : value) : class :=
  match x with
  | VStr s => IsString s
  | VUndef => IsOther (js "[object Undefined]")
  | VNull => IsOther (js "[object Null]")
  | VBool _ => IsOther (js "[object Boolean]")
  | VNum _ => IsOther (js "[object Number]")
  | VRef a =>
      match h !! a with
      | Some (OObj l) => IsObject a l
      | Some (OArr l) => IsArray a l
      | Some (OBuf _) => IsOther (js "[object Uint8Array]")
      | Some (ODate _) => IsOther (js "[object Date]")
      | Some (ORegExp _ _) => IsOther (js "[object RegExp]")
      | Some (OFun _ _) | None => IsOther (js "[object Function]")
      end
  end.

(** [h.sort()]: by code units. *)
Fixpoint string_le (a b : jsstring) : bool :=
  match a, b with
  | [], _ => true
  | _ :: _, [] => false
  | x :: a', y :: b' => if x =? y then string_le a' b' else x <? y
  end.
Fixpoint insert_key (k : jsstring) (l : list jsstring) : list jsstring :=
  match l with
  | [] => [k]
  | k' :: l' => if string_le k k' then k :: l else k' :: insert_key k l'
  end.

Definition starts_line (s : jsstring) : bool := bool_decide (zget s 0 = Some 10).

Definition explicit_tag (t : option jsstring) : bool :=
  match t with Some t => negb (bool_decide (t = [63])) | None => false end.

Fixpoint index_of_nat (a : nat) (l : list nat) (i : nat) : option nat :=
  match l with
  | [] => None
  | b :: l' => if Nat.eqb a b then Some i else index_of_nat a l' (S i)
  end.

Section Nodes.
Context (w : host) (e : settings) (h : store) (duplicates : list nat).
(** [writeNode(state, level, object, block, compact, iskey)]. *)
Context (writeNode : Z -> value -> bool -> bool -> bool -> dst -> dout).

(** The collections: [p] is the text so far; a node that is not dumped is left out. *)
Fixpoint block_mapping (level : Z) (compact first : bool) (l : list (jsstring * value)) (p : jsstring) (s : dst) : dout :=
  match l with
  | [] => DRet true (mkdst (dtag s) p (used s))
  | (u, x) :: l' =>
      let f := if compact && first then [] else generateNextLine e level in
      node! b, s := writeNode (level + 1) (VStr u) true true true s in
      if negb b then block_mapping level compact false l' p s
      else
        let explicit := explicit_tag (dtag s) || (1024 <? zlen (dump s)) in
        let f := f ++ (if explicit then if starts_line (dump s) then [63] else [63; 32] else [])
                   ++ dump s ++ (if explicit then generateNextLine e level else []) in
        node! b, s := writeNode (level + 1) x true explicit false s in
        if negb b then block_mapping level compact false l' p s
        else block_mapping level compact false l'
               (p ++ f ++ (if starts_line (dump s) then [58] else [58; 32]) ++ dump s) s
  end.

Fixpoint flow_mapping (level : Z) (first : bool) (l : list (jsstring * value)) (p : jsstring) (s : dst) : dout :=
  match l with
  | [] => DRet true (mkdst (dtag s) p (used s))
  | (u, x) :: l' =>
      let f := (if condenseFlow e then [34] else []) ++ (if first then [] else [44; 32]) in
      node! b, s := writeNode level (VStr u) false false false s in
      if negb b then flow_mapping level false l' p s
      else
        let f := f ++ (if 1024 <? zlen (dump s) then [63; 32] else []) ++ dump s
                   ++ (if condenseFlow e then [34; 58] else [58; 32]) in
        node! b, s := writeNode level x false false false s in
        if negb b then flow_mapping level false l' p s
        else flow_mapping level false l' (p ++ f ++ dump s) s
  end.

Fixpoint block_sequence (level : Z) (compact first : bool) (l : list value) (p : jsstring) (s : dst) : dout :=
  match l with
  | [] => DRet true (mkdst (dtag s) p (used s))
  | x :: l' =>
      node! b, s := writeNode (level + 1) x true true false s in
      if negb b then block_sequence level compact false l' p s
      else block_sequence level compact false l'
             (p ++ (if compact && first then [] else generateNextLine e level)
                ++ (if starts_line (dump s) then [45] else [45; 32]) ++ dump s) s
  end.

Fixpoint flow_sequence (level : Z) (first : bool) (l : list value) (p : jsstring) (s : dst) : dout :=
  match l with
  | [] => DRet true (mkdst (dtag s) p (used s))
  | x :: l' =>
      node! b, s := writeNode level x false false false s in
      if negb b then flow_sequence level false l' p s
      else flow_sequence level false l'
             (p ++ (if first then [] else [44] ++ (if condenseFlow e then [] else [32])) ++ dump s) s
  end.

(** The text of a collection with the tag of the node restored; [empty] when the
    block form has no entry. *)
Definition collection (tg : option jsstring) (m : dout) (f : jsstring -> jsstring) : dout :=
  node! _, s := m in DRet true (mkdst tg (f (dump s)) (used s)).

Definition or_text (d s : jsstring) : jsstring := if bool_decide (s = []) then d else s.

Definition ref_text (c : Z) (l : nat) : jsstring := [c] ++ js "ref_" ++ digits 10 (Z.of_nat l).

(** The content of a node of class [c] and tag [tg]; [dup] is its index among the
    duplicated objects. *)
Definition write_content (level : Z) (c : class) (tg : option jsstring) (block compact iskey : bool)
    (dup : option nat) (s : dst) : dout :=
  let anchored (sep s : jsstring) := match dup with Some l => ref_text 38 l ++ sep ++ s | None => s end in
  let tagged (m : dout) := node! b, s := m in
    DRet b (if explicit_tag (dtag s)
            then mkdst (dtag s) (js "!<" ++ default [] (dtag s) ++ js "> " ++ dump s) (used s) else s) in
  match c with
  | IsObject _ l =>
      let entry k := (k, default VUndef (own k l)) in
      let keys := object_keys l in
      if block && bool_decide (keys <> []) then
        let keys := if sortKeys e then foldr insert_key [] keys else keys in
        tagged (collection tg (block_mapping level compact true (map entry keys) [] s)
                  (fun p => anchored [] (or_text (js "{}") p)))
      else
        tagged (collection tg (flow_mapping level true (map entry keys) [] s)
                  (fun p => anchored [32] ([123] ++ p ++ [125])))
  | IsArray _ l =>
      if block && bool_decide (l <> []) then
        tagged (collection tg (block_sequence level compact true l [] s)
                  (fun p => anchored [] (or_text (js "[]") p)))
      else
        tagged (collection tg (flow_sequence level true l [] s)
                  (fun p => anchored [32] ([91] ++ p ++ [93])))
  | IsString t =>
      if bool_decide (tg = Some [63]) then DRet true (mkdst tg t (used s))
      else match writeScalar w e t level iskey with
           | Ok d => tagged (DRet true (mkdst tg d (used s)))
           | Throw x => DFails (Exception x)
           end
  | IsOther n =>
      if skipInvalid e then DRet false s
      else DFails (YAMLException_unmarked (js "unacceptable kind of an object to dump " ++ n))
  end.

Definition write_node (level : Z) (x : value) (block compact iskey : bool) (s : dst) : dout :=
  match (match detectType w e h x false with Some r => Some r | None => detectType w e h x true end) with
  | Some (inl f) => DFails f
  | detected =>
      let tg := match detected with Some (inr (t, _)) => Some t | _ => None end in
      let c := match detected with Some (inr (_, r)) => IsString r | _ => class_of h x end in
      let block := block && ((flowLevel e <? 0) || (level <? flowLevel e)) in
      let dup := match c with
                 | IsObject a _ | IsArray a _ => index_of_nat a duplicates 0
                 | _ => None
                 end in
      let compact := compact && negb (explicit_tag tg || bool_decide (is_Some dup)
                                      || (negb (indent e =? 2) && (0 <? level))) in
      match dup with
      | Some l =>
          if bool_decide (l ∈ used s) then DRet true (mkdst tg (ref_text 42 l) (used s))
          else write_content level c tg block compact iskey (Some l) (mkdst tg (dump s) (used s ++ [l]))
      | None => write_content level c tg block compact iskey None (mkdst tg (dump s) (used s))
      end
  end.
End Nodes.

Fixpoint writeNode (fuel : nat) (w : host) (e : settings) (h : store) (duplicates : list nat)
    (level : Z) (x : value) (block compact iskey : bool) (s : dst) : dout :=
  match fuel with
  | O => DFuel
  | S k => write_node w e h duplicates (writeNode k w e h duplicates) level x block compact iskey s
  end.

(** [inspectNode]: the objects met, in order, and the indices of those met again. *)
Fixpoint inspectNode (fuel : nat) (h : store) (x : value) (acc : list nat * list nat) : list nat * list nat :=
  match fuel, x with
  | S k, VRef a =>
      let '(objects, dups) := acc in
      let visit l := foldl (fun acc y => inspectNode k h y acc) (objects ++ [a], dups) l in
      match h !! a with
      | Some (OFun _ _) | None => acc
      | Some o =>
          match index_of_nat a objects 0 with
          | Some i => (objects, if bool_decide (i ∈ dups) then dups else dups ++ [i])
          | None =>
              match o with
              | OArr l => visit l
              | OObj l => visit (map (fun k => default VUndef (own k l)) (object_keys l))
              | _ => visit []
              end
          end
      end
  | _, _ => acc
  end.

Definition getDuplicateReferences (h : store) (x : value) : list nat :=
  let '(objects, dups) := inspectNode (S (length h)) h x ([], []) in
  map (fun i => nth i objects 0%nat) dups.

(** [dump(object, options)]: a path of nodes that are not references goes through an
    object once, so its length is bounded by the store; without references an object
    that contains itself has no bound. *)
Definition dump_ (w : host) (h : store) (x : value) (t : dump_options) : dout :=
  let e := State t in
  let dups := if noRefs e then [] else getDuplicateReferences h x in
  node! b, s := writeNode (S (S (length h))) w e h dups 0 x true true false (mkdst None [] []) in
  DRet b (mkdst (dtag s) (if b then dump s ++ [10] else []) (used s)).

Definition default_dump_options (s : schema ytype) : dump_options :=
  mkdump s 0 false None [] false 0 false false false.

Definition safeDump (w : host) (h : store) (x : value) : dout :=
  dump_ w h x (default_dump_options DEFAULT_SAFE_SCHEMA).

(** The text, when there is one. *)
Definition dumped (d : dout) : option jsstring := match d with DRet _ s => Some (dump s) | _ => None end.

End YamlDump.
