(* ===== verification/YamlRoundtrip.v ===== *)
(** * js-yaml: what is dumped loads back

    A string the dumper writes on one line, in the plain, single quoted or double
    quoted style, is read back by the loader. *)

From S2P Require Import Prelude JsString JsNum Regex YamlTypes YamlTime YamlSchema Utf8 YamlLoad YamlDump.
From Stdlib Require Import String.
From stdpp Require Import base numbers list strings option.
Open Scope Z_scope.

Module YamlRoundtrip.
Import YamlTypes YamlSchema YamlLoad YamlDump.

(** ** Reading at a known place *)

Section Input.
Context (v : env).

Lemma ch_at pre c post : input v = pre ++ c :: post -> ch v (zlen pre) = c.
Proof.
  intros H. unfold ch. rewrite H. replace (zlen pre) with (zlen pre + 0) by lia.
  by rewrite zget_app_at by lia.
Qed.

Lemma ch_next pre c d post : input v = pre ++ c :: d :: post -> ch v (zlen pre + 1) = d.
Proof.
  intros H. replace (zlen pre + 1) with (zlen (pre ++ [c])) by (rewrite zlen_app; done).
  apply (ch_at _ _ post). by rewrite H, <- app_assoc.
Qed.

Lemma segment_at pre mid post n : input v = pre ++ mid ++ post -> n = zlen pre ->
  zsub (input v) n (n + zlen mid) = mid.
Proof. intros H ->. rewrite H. apply zsub_app. Qed.

Lemma at_same e : at_ (position e) e = e.
Proof. by destruct e. Qed.

Lemma at_result p q r e : at_ p (with_result r (at_ q e)) = at_ p (with_result r e).
Proof. done. Qed.
Lemma result_result r r' e : with_result r (with_result r' e) = with_result r e.
Proof. done. Qed.

Lemma skip_none p i : p (ch v i) = false -> 0 <= i < zlen (input v) -> skip v p i = i.
Proof.
  intros Hp Hi. unfold skip, ch in *. destruct (zget_in_range (input v) i Hi) as [c Hc].
  rewrite Hc in Hp. simpl in Hp. unfold zget in Hc. destruct (_ <? 0); [done|].
  rewrite (drop_S _ _ _ Hc). cbn [run_len]. rewrite Hp. lia.
Qed.

(** No separation at a character of the content. *)
Lemma separation_none b n e : is_ws_or_eol (ch v (position e)) = false -> ch v (position e) <> 35 ->
  0 <= position e < zlen (input v) -> skipSeparationSpace v b n e = Ret 0 e.
Proof.
  intros Hw Hc Hp. unfold skipSeparationSpace, bind, get, ret, upd. unfold loop_fuel. cbn [skip_lines].
  destruct (ch v (position e) =? 0) eqn:H0; [by rewrite andb_false_r|].
  assert (is_white (ch v (position e)) = false /\ is_eol (ch v (position e)) = false) as [Hwh Heo].
  { unfold is_ws_or_eol, is_white, is_eol in *.
    destruct (ch v (position e) =? 9), (ch v (position e) =? 32), (ch v (position e) =? 10), (ch v (position e) =? 13);
      simpl in *; try done; by split. }
  rewrite skip_none by done. apply Z.eqb_neq in Hc. rewrite Hc, andb_false_r, Heo, at_same.
  by rewrite andb_false_r.
Qed.

Lemma separation_nul b e : ch v (position e) = 0 -> skipSeparationSpace v b (-1) e = Ret 0 e.
Proof.
  intros H0. unfold skipSeparationSpace, bind, get, ret, upd. unfold loop_fuel. cbn [skip_lines].
  by rewrite H0.
Qed.

(** The line feed that ends the input. *)
Lemma separation_end b n e pre : input v = pre ++ [10; 0] -> position e = zlen pre -> n <= 0 ->
  skipSeparationSpace v b n e
  = Ret 1 (with_line (line e + 1) (zlen pre + 1) 0 (at_ (zlen pre + 1) e)).
Proof.
  intros Hin Hp Hn. pose proof (ch_at _ _ _ Hin) as Hc. pose proof (ch_next _ _ _ _ Hin) as Hc1.
  assert (0 <= zlen pre) as Hz by (unfold zlen; lia).
  assert (zlen (input v) = zlen pre + 2) as Hl by (rewrite Hin, zlen_app; done).
  unfold skipSeparationSpace, bind, get, ret, upd. unfold loop_fuel.
  assert (length (input v) = S (S (length pre))) as Hl' by (rewrite Hin, length_app; simpl; lia).
  rewrite Hl'. cbn [skip_lines]. rewrite Hp, Hc. cbn [Z.eqb].
  rewrite skip_none by (rewrite ?Hc; done || lia). rewrite Hc. rewrite andb_false_r. cbn [is_eol Z.eqb orb Pos.eqb].
  unfold bind, upd, readLineBreak. cbn [position at_]. rewrite Hc. cbn [Z.eqb Pos.eqb].
  cbn [position at_ with_line]. rewrite skip_none by (rewrite ?Hc1; done || lia).
  cbn [position at_ with_line with_lineIndent]. rewrite Hc1. cbn [Z.eqb].
  rewrite Z.sub_diag. cbn [lineIndent with_lineIndent with_line at_].
  change (is_eol 10) with true. cbv beta iota. cbn [lineIndent with_lineIndent with_line at_].
  rewrite (proj2 (Z.ltb_ge 0 n)) by lia. by rewrite andb_false_r.
Qed.

End Input.

(** ** A document that is one scalar *)

(** The characters that do not start a scalar of a flow context, and the byte order
    mark. *)
Definition not_start : list Z := [0; 9; 10; 13; 32; 33; 35; 37; 38; 45; 58; 63; 91; 123; 65279].

Section OneScalar.
Context (v : env) (body : jsstring) (c0 : Z) (rest : jsstring).
Context (Hbody : body = c0 :: rest) (Hin : input v = body ++ [10; 0]) (Hlength : length_ v = zlen body + 1).
Context (Hc0 : c0 ∉ not_start).

Lemma c0_ne k : bool_decide (k ∈ not_start) = true -> (c0 =? k) = false.
Proof. intros Hk. apply bool_decide_eq_true in Hk. apply Z.eqb_neq. by intros ->. Qed.

Lemma ch_0 : ch v 0 = c0.
Proof. apply (ch_at v [] c0 (rest ++ [10; 0])). by rewrite Hin, Hbody. Qed.

Lemma body_pos : 1 <= zlen body.
Proof. rewrite Hbody. unfold zlen. simpl. lia. Qed.

Lemma input_len : zlen (input v) = zlen body + 2.
Proof. rewrite Hin, zlen_app. done. Qed.

(** [e1] is after the scalar [s] that was read from [e]: before the line feed of the
    input, or after it on the next line. *)
Definition reads (s : jsstring) (e e1 : st) : Prop :=
  result e1 = VStr s /\ documents e1 = documents e /\ heap e1 = heap e /\ checkLineBreaks e1 = checkLineBreaks e /\
  (line e1 = line e /\ position e1 = zlen body \/ line e1 <> line e /\ position e1 = zlen body + 1).

Ltac start := repeat match goal with |- context [c0 =? ?k] => rewrite (c0_ne k eq_refl) end.

Lemma separation_0 e : position e = 0 -> skipSeparationSpace v true (-1) e = Ret 0 e.
Proof.
  intros Hp. pose proof body_pos. pose proof input_len. apply separation_none; rewrite Hp, ?ch_0; [| |lia].
  - unfold is_ws_or_eol. by start.
  - intros H35. apply Z.eqb_eq in H35. by rewrite (c0_ne 35 eq_refl) in H35.
Qed.

Lemma properties_0 k t a m st_ e : position e = 0 ->
  properties_loop v (S k) t a false m st_ e = Ret (false, m, st_) e.
Proof.
  intros Hp. cbn [properties_loop]. unfold bind, readTagProperty, readAnchorProperty, ret.
  rewrite Hp, ch_0. start. cbn [negb]. rewrite Hp, ch_0. by start.
Qed.

(** The steps of a computation. *)
Lemma bind_ret {A B} (m : M A) (k : A -> M B) e a e1 : m e = Ret a e1 -> bind m k e = k a e1.
Proof. unfold bind. by intros ->. Qed.

Lemma block_sequence_0 cn t e : position e = 0 -> anchor e = None ->
  readBlockSequence v cn t e = Ret false (with_heap (heap e ++ [OArr []]) e).
Proof.
  intros Hp Ha. unfold readBlockSequence, bind, new_object, set_anchorMap, upd, ret.
  cbn [anchor with_heap with_store]. rewrite Ha. unfold loop_fuel. cbn [sequence_loop position with_heap with_store].
  rewrite Hp, ch_0. by start.
Qed.

(** The key of a mapping is read and no colon follows it: the node is the key. *)
Lemma block_mapping_0 cn t n s e : position e = 0 -> anchor e = None ->
  (forall e', position e' = 0 -> lineStart e' = lineStart e -> exists e1, cn n FLOW_OUT false true e' = Ret true e1 /\ reads s e' e1) ->
  exists e1, readBlockMapping v cn t n e = Ret true e1 /\ tag e1 = tag e /\
    result e1 = VStr s /\ documents e1 = documents e /\ checkLineBreaks e1 = checkLineBreaks e /\
    (position e1 = zlen body \/ position e1 = zlen body + 1).
Proof.
  intros Hp Ha Hinner. unfold readBlockMapping.
  set (e0 := with_heap (heap e ++ [OObj []]) e).
  destruct (Hinner e0) as (e1 & He1 & Hr); [done..|].
  rewrite (bind_ret _ _ e (length (heap e)) e0) by done.
  rewrite (bind_ret _ _ e0 tt e0) by (unfold set_anchorMap, upd, e0; cbn [anchor with_heap with_store]; by rewrite Ha).
  rewrite Hp, ch_0. unfold loop_fuel.
  assert (exists e2, mapping_loop v cn (S (S (length (input v)))) t n (length (heap e)) c0
      (mkpending [] None VNull VNull false false false) e0 = Ret None e2 /\
    result e2 = VStr s /\ documents e2 = documents e /\ checkLineBreaks e2 = checkLineBreaks e /\
    (position e2 = zlen body \/ position e2 = zlen body + 1)) as (e2 & He2 & Hr2).
  { cbn [mapping_loop]. start. destruct Hr as (Hres & Hdoc & _ & Hcl & Hpos).
    unfold mapping_key. start. cbn [orb negb].
    unfold bind at 1. rewrite (bind_ret _ _ e0 true e1) by done. cbn [negb].
    rewrite (bind_ret _ _ e1 e1 e1) by done.
    pose proof body_pos. pose proof input_len.
    destruct Hpos as [[Hl Hpos]|[Hl Hpos]].
    - rewrite (proj2 (Z.eqb_eq _ _)) by done.
      assert (ch v (position e1) = 10) as Hc by (rewrite Hpos; by apply (ch_at v body 10 [0])).
      rewrite skip_none by (rewrite ?Hc, ?Hpos; done || lia).
      rewrite (bind_ret _ _ e1 tt e1) by (unfold upd; by rewrite at_same).
      rewrite Hc. cbn [Z.eqb Pos.eqb detected]. exists e1. split; [done|]. by auto.
    - rewrite (proj2 (Z.eqb_neq _ _)) by done. cbn [detected]. exists e1. split; [done|]. by auto. }
  rewrite (bind_ret _ _ e0 None e2) by done. eexists. split; [done|]. by destruct Hr2 as (? & ? & ? & ?).
Qed.

(** The node of the document, when the scalar is read in the context of an implicit
    key: the key is not followed by a colon, and the node is the scalar. *)
Lemma document_node k s e : position e = 0 -> lineStart e = 0 ->
  (forall e', position e' = 0 -> lineStart e' = 0 ->
    exists e1, composeNode v k 0 FLOW_OUT false true e' = Ret true e1 /\ reads s e' e1) ->
  exists b e1, composeNode v (S k) (-1) BLOCK_OUT false true e = Ret b e1 /\
    result e1 = VStr s /\ documents e1 = documents e /\ checkLineBreaks e1 = checkLineBreaks e /\
    (position e1 = zlen body \/ position e1 = zlen body + 1).
Proof.
  intros Hp Hls Hinner. cbn [composeNode]. unfold compose_body.
  set (e0 := with_node None None None VNull e).
  rewrite (bind_ret _ _ e tt e0) by done. rewrite (bind_ret _ _ e0 (false, Gt) e0) by done.
  rewrite (bind_ret _ _ e0 (false, true, Gt) e0) by (unfold loop_fuel; by apply properties_0).
  cbn [andb orb].
  set (e1 := with_heap (heap e0 ++ [OArr []]) e0).
  destruct (block_mapping_0 (composeNode v k) (position e0 - lineStart e0) 0 s e1) as (e2 & He2 & Ht & Hr).
  { done. } { done. } { intros e' Hp' Hls'. apply Hinner; [done|]. by rewrite Hls'. }
  assert (read_content v (composeNode v k) (-1) BLOCK_OUT true true Gt e0 = Ret true e2) as Hc.
  { unfold read_content. rewrite (bind_ret _ _ e0 e0 e0) by done.
    rewrite (bind_ret _ _ e0 true e2); [done|].
    unfold or_else at 1. rewrite (bind_ret _ _ e0 true e2); [done|].
    unfold or_else. rewrite (bind_ret _ _ e0 false e1) by (by apply block_sequence_0). done. }
  rewrite (bind_ret _ _ e0 true e2) by done.
  rewrite (bind_ret _ _ e2 tt e2) by (unfold resolve_tag; by rewrite Ht).
  rewrite (bind_ret _ _ e2 e2 e2) by done. eexists _, _. split; [done|]. done.
Qed.

(** What the loader does after the node: it is at the end of the input. *)
Lemma after_node e : (position e = zlen body \/ position e = zlen body + 1) ->
  exists r e1, skipSeparationSpace v true (-1) e = Ret r e1 /\ result e1 = result e /\
    documents e1 = documents e /\ checkLineBreaks e1 = checkLineBreaks e /\ position e1 = zlen body + 1.
Proof.
  intros [Hp|Hp].
  - eexists _, _. split; [by apply (separation_end v true (-1) e body)|]. done.
  - exists 0, e. split; [|done]. apply separation_nul. rewrite Hp. apply (ch_next v body 10 0 []). done.
Qed.

Lemma one_document s e : position e = 0 -> lineStart e = 0 -> lineIndent e = 0 -> legacy v = false ->
  (forall e', position e' = 0 -> lineStart e' = 0 ->
    exists e1, composeNode v (pred (node_fuel v)) 0 FLOW_OUT false true e' = Ret true e1 /\ reads s e' e1) ->
  exists e1, readDocument v e = Ret tt e1 /\ documents e1 = documents e ++ [VStr s] /\ position e1 = zlen body + 1.
Proof.
  intros Hp Hls Hli Hleg Hinner. unfold readDocument. set (e0 := with_maps None (legacy v) [] [] e).
  rewrite (bind_ret _ _ e tt e0) by done.
  rewrite (bind_ret _ _ e0 false e0).
  2:{ unfold loop_fuel. cbn [directives_loop]. change (position e0) with (position e). rewrite Hp, ch_0. start.
      rewrite (bind_ret _ _ e0 0 e0) by (by apply separation_0). rewrite (bind_ret _ _ e0 e0 e0) by done.
      change (lineIndent e0) with (lineIndent e). change (position e0) with (position e). rewrite Hp, Hli, ch_0. by start. }
  rewrite (bind_ret _ _ e0 0 e0) by (by apply separation_0). rewrite (bind_ret _ _ e0 e0 e0) by done.
  rewrite (bind_ret _ _ e0 tt e0).
  2:{ change (position e0) with (position e). rewrite Hp, ch_0. start. by rewrite andb_false_r. }
  rewrite (bind_ret _ _ e0 e0 e0) by done. change (lineIndent e0) with (lineIndent e). rewrite Hli.
  destruct (document_node (pred (node_fuel v)) s e0) as (b & e1 & He1 & Hr1 & Hd1 & Hl1 & Hp1); [done..|].
  replace (S (pred (node_fuel v))) with (node_fuel v) in He1 by (unfold node_fuel; lia).
  rewrite (bind_ret _ _ e0 b e1) by done.
  destruct (after_node e1 Hp1) as (r & e2 & He2 & Hr2 & Hd2 & Hl2 & Hp2).
  rewrite (bind_ret _ _ e1 r e2) by done. rewrite (bind_ret _ _ e2 e2 e2) by done.
  rewrite (bind_ret _ _ e2 tt e2) by (rewrite Hl2, Hl1; cbn [e0 checkLineBreaks with_maps]; by rewrite Hleg).
  rewrite (bind_ret _ _ e2 tt (with_store (documents e2 ++ [result e2]) (heap e2) (warnings e2) e2)) by done.
  set (e3 := with_store _ _ _ e2). rewrite (bind_ret _ _ e3 e3 e3) by done.
  assert (ch v (position e3) = 0) as Hc.
  { change (position e3) with (position e2). rewrite Hp2. by apply (ch_next v body 10 0 []). }
  assert (testDocumentSeparator v e3 = false) as -> by (unfold testDocumentSeparator; by rewrite Hc).
  rewrite andb_false_r. change (position e3) with (position e2). rewrite Hp2, Hlength.
  rewrite (proj2 (Z.ltb_ge _ _)) by lia. exists e3. split; [done|].
  change (documents e3) with (documents e2 ++ [result e2]). by rewrite Hr2, Hd2, Hr1, Hd1.
Qed.

(** The scalar in the context of an implicit key. *)
Lemma flow_node k j e e1 e2 : position e = 0 ->
  let e0 := with_node None None None VNull e in
  read_content v (composeNode v k) 0 FLOW_OUT false false Gt e0 = Ret j e1 ->
  resolve_tag v e1 = Ret tt e2 -> j = true ->
  composeNode v (S k) 0 FLOW_OUT false true e = Ret true e2.
Proof.
  intros Hp e0 Hc Ht ->. cbn [composeNode]. unfold compose_body. fold e0.
  rewrite (bind_ret _ _ e tt e0) by done. rewrite (bind_ret _ _ e0 (false, Gt) e0) by done.
  rewrite (bind_ret _ _ e0 (false, false, Gt) e0) by (unfold loop_fuel; by apply properties_0).
  cbn [andb orb]. rewrite (bind_ret _ _ e0 true e1) by done. rewrite (bind_ret _ _ e1 tt e2) by done.
  rewrite (bind_ret _ _ e2 e2 e2) by done. unfold ret. by rewrite orb_true_r.
Qed.

Lemma flow_collection_0 cn t e : position e = 0 -> readFlowCollection v cn t e = Ret false e.
Proof. intros Hp. unfold readFlowCollection. rewrite Hp, ch_0. by start. Qed.

Lemma single_0 t e : position e = 0 -> (c0 =? 39) = false -> readSingleQuotedScalar v t e = Ret false e.
Proof. intros Hp Hc. unfold readSingleQuotedScalar. by rewrite Hp, ch_0, Hc. Qed.
Lemma double_0 t e : position e = 0 -> (c0 =? 34) = false -> readDoubleQuotedScalar v t e = Ret false e.
Proof. intros Hp Hc. unfold readDoubleQuotedScalar. by rewrite Hp, ch_0, Hc. Qed.
Lemma alias_0 e : position e = 0 -> (c0 =? 42) = false -> readAlias v e = Ret false e.
Proof. intros Hp Hc. unfold readAlias. by rewrite Hp, ch_0, Hc. Qed.

(** The quoted scalars are tried first, then the alias and the plain scalar. *)
Lemma content_quoted cn e e1 : position e = 0 -> tag e1 = None -> anchor e1 = None ->
  (c0 = 39 /\ readSingleQuotedScalar v 0 e = Ret true e1 \/ c0 = 34 /\ readDoubleQuotedScalar v 0 e = Ret true e1) ->
  read_content v cn 0 FLOW_OUT false false Gt e = Ret true e1.
Proof.
  intros Hp Ht Ha Hq. unfold read_content. rewrite (bind_ret _ _ e e e) by done.
  rewrite (bind_ret _ _ e false e) by (by apply flow_collection_0).
  rewrite (bind_ret _ _ e true e1).
  - rewrite (bind_ret _ _ e1 true e1) by done. unfold bind, get, set_anchorMap. by rewrite Ha.
  - unfold or_else at 1. rewrite (bind_ret _ _ e false e) by done. unfold or_else.
    destruct Hq as [[_ Hq]|[Hc Hq]]; [by rewrite (bind_ret _ _ e true e1)|].
    rewrite (bind_ret _ _ e false e) by (apply single_0; [done|by rewrite Hc]). done.
Qed.

Lemma content_plain cn e e1 : position e = 0 -> tag e1 = None -> anchor e1 = None ->
  c0 <> 39 -> c0 <> 34 -> c0 <> 42 -> readPlainScalar v 0 false e = Ret true e1 ->
  read_content v cn 0 FLOW_OUT false false Gt e = Ret true (with_tag (Some (js "?")) e1).
Proof.
  intros Hp Ht Ha H39%Z.eqb_neq H34%Z.eqb_neq H42%Z.eqb_neq Hq. unfold read_content. rewrite (bind_ret _ _ e e e) by done.
  rewrite (bind_ret _ _ e false e) by (by apply flow_collection_0).
  rewrite (bind_ret _ _ e false e).
  - rewrite (bind_ret _ _ e true (with_tag (Some (js "?")) e1)); [unfold bind, get, set_anchorMap; cbn [anchor with_tag with_node]; by rewrite Ha|].
    rewrite (bind_ret _ _ e false e) by (by apply alias_0). rewrite (bind_ret _ _ e true e1) by done.
    unfold bind, upd, ret. by rewrite Ht.
  - unfold or_else at 1. rewrite (bind_ret _ _ e false e) by done. unfold or_else.
    rewrite (bind_ret _ _ e false e) by (by apply single_0). by apply double_0.
Qed.

(** A quoted scalar whose loop ends before the line feed. *)
Lemma quoted_reads k s e : position e = 0 ->
  let e0 := at_ 1 (with_scalar (Some Scalar) (VStr []) (with_node None None None VNull e)) in
  let e1 := at_ (zlen body) (with_result (VStr s) e0) in
  (c0 = 39 /\ single_loop v (loop_fuel v) 0 1 1 e0 = Ret tt e1 \/
   c0 = 34 /\ double_loop v (loop_fuel v) 0 1 1 e0 = Ret tt e1) ->
  exists e1, composeNode v (S k) 0 FLOW_OUT false true e = Ret true e1 /\ reads s e e1.
Proof.
  intros Hp e0 e1 Hq. exists e1. split; [|unfold reads; cbn; auto 10].
  apply (flow_node k true e e1 e1); [done| |done|done].
  apply content_quoted; [done..|]. destruct Hq as [[Hc Hq]|[Hc Hq]]; [left|right]; (split; [done|]).
  - unfold readSingleQuotedScalar. cbn [position with_node]. rewrite Hp, ch_0, Hc. cbn [Z.eqb Pos.eqb negb].
    by rewrite (bind_ret _ _ e0 tt e1).
  - unfold readDoubleQuotedScalar. cbn [position with_node]. rewrite Hp, ch_0, Hc. cbn [Z.eqb Pos.eqb negb].
    by rewrite (bind_ret _ _ e0 tt e1).
Qed.

End OneScalar.

(** ** Quoted text *)

Section Quoted.
Context (v : env).

Lemma with_result_same e acc : result e = VStr acc -> with_result (VStr acc) e = e.
Proof. destruct e. simpl. by intros ->. Qed.

Lemma capture_json r p e acc : result e = VStr acc -> forallb json_char (zsub (input v) r p) = true ->
  captureSegment v r p true e = Ret tt (with_result (VStr (acc ++ zsub (input v) r p)) e).
Proof.
  intros Hr Hj. unfold captureSegment. destruct (Z.ltb_spec r p).
  - rewrite Hj. unfold add_result, upd, append_text. by rewrite Hr.
  - rewrite zsub_nil by done. rewrite app_nil_r, with_result_same by done. done.
Qed.

Lemma capture_plain r p e : result e = VStr [] -> r < p -> non_printable (zsub (input v) r p) = false ->
  captureSegment v r p false e = Ret tt (with_result (VStr (zsub (input v) r p)) e).
Proof.
  intros Hr Hp Hn. unfold captureSegment. rewrite (proj2 (Z.ltb_lt r p)) by done. rewrite Hn.
  unfold add_result, upd, append_text. by rewrite Hr.
Qed.

(** A character inside quotes that stands for itself. *)
Definition text_char (c : Z) : bool := json_char c && negb (is_eol c) && negb (c =? 0).

Lemma text_char_spec c : text_char c = true -> json_char c = true /\ is_eol c = false /\ (c =? 0) = false.
Proof.
  unfold text_char. rewrite !andb_true_iff, !negb_true_iff. tauto.
Qed.

(** The segment from [r] grows by the character at the end of [pre]. *)
Lemma segment_snoc pre c post r : input v = pre ++ c :: post -> 0 <= r <= zlen pre ->
  zsub (input v) r (zlen pre + 1) = zsub (input v) r (zlen pre) ++ [c].
Proof.
  intros H Hr. apply zsub_snoc; [lia|]. rewrite H. replace (zlen pre) with (zlen pre + 0) by lia.
  by rewrite zget_app_at by lia.
Qed.

Lemma single_loop_spec s : forall fuel t r o pre d post e acc,
  input v = pre ++ double_quotes s ++ 39 :: d :: post -> d <> 39 ->
  Forall (fun c => text_char c = true) s -> (length (double_quotes s) < fuel)%nat ->
  position e = zlen pre -> lineStart e < position e -> result e = VStr acc ->
  0 <= r <= zlen pre -> forallb json_char (zsub (input v) r (zlen pre)) = true ->
  single_loop v fuel t r o e =
    Ret tt (at_ (zlen pre + zlen (double_quotes s) + 1)
             (with_result (VStr (acc ++ zsub (input v) r (zlen pre) ++ s)) e)).
Proof.
  induction s as [|c s IH]; intros fuel t r o pre d post e acc Hin Hd Hs Hf Hp Hls Hr Hrp Hj;
    (destruct fuel as [|k]; [lia|]); cbn [single_loop].
  - simpl in Hin. rewrite Hp, (ch_at v pre 39 (d :: post)) by done. cbn [Z.eqb Pos.eqb].
    rewrite (bind_ret _ _ e tt (with_result (VStr (acc ++ zsub (input v) r (zlen pre))) e)) by (by apply capture_json).
    unfold bind, upd. rewrite (ch_next v pre 39 d post) by done. rewrite (proj2 (Z.eqb_neq _ _)) by done.
    unfold ret. simpl. by rewrite app_nil_r, Z.add_0_r.
  - apply Forall_cons_iff in Hs as [Hc Hs]. apply text_char_spec in Hc as (Hjc & Hec & H0c).
    assert (double_quotes (c :: s) = (if c =? 39 then [39; 39] else [c]) ++ double_quotes s) as Hdq by done.
    rewrite Hdq in Hin, Hf |- *. rewrite length_app in Hf. destruct (c =? 39) eqn:H39.
    + apply Z.eqb_eq in H39. subst c. simpl in Hin, Hf.
      rewrite Hp, (ch_at v pre 39 (39 :: double_quotes s ++ 39 :: d :: post)) by done. cbn [Z.eqb Pos.eqb].
      rewrite (bind_ret _ _ e tt (with_result (VStr (acc ++ zsub (input v) r (zlen pre))) e)) by (by apply capture_json).
      unfold bind, upd. rewrite (ch_next v pre 39 39 (double_quotes s ++ 39 :: d :: post)) by done. cbn [Z.eqb Pos.eqb].
      assert (input v = (pre ++ [39]) ++ 39 :: double_quotes s ++ 39 :: d :: post) as Hin1 by (by rewrite Hin, <- app_assoc).
      assert (zsub (input v) (zlen pre + 1) (zlen pre + 2) = [39]) as Hseg.
      { replace (zlen pre + 2) with (zlen pre + 1 + zlen [39]) by (change (zlen [39]) with 1; lia).
        apply (segment_at v (pre ++ [39]) [39] (double_quotes s ++ 39 :: d :: post)); [done|]. rewrite zlen_app. done. }
      assert (zlen (pre ++ [39; 39]) = zlen pre + 2) as Hl2 by (rewrite zlen_app; done).
      rewrite (IH k t (zlen pre + 1) _ (pre ++ [39; 39]) d post _ (acc ++ zsub (input v) r (zlen pre)));
        rewrite ?Hl2, ?Hseg; cbn [position lineStart result at_ with_result with_node]; try done; try lia.
      * f_equal. rewrite !zlen_app. change (zlen [39; 39]) with 2.
        rewrite !at_result, !result_result, <- !app_assoc. f_equal. lia.
      * by rewrite Hin, <- app_assoc.
    + simpl in Hin, Hf. rewrite Hp, (ch_at v pre c (double_quotes s ++ 39 :: d :: post)) by done.
      rewrite H0c, H39, Hec. rewrite (proj2 (Z.eqb_neq (zlen pre) _)) by lia. cbn [andb].
      assert (zlen (pre ++ [c]) = zlen pre + 1) as Hl1 by (rewrite zlen_app; done).
      assert (zsub (input v) r (zlen pre + 1) = zsub (input v) r (zlen pre) ++ [c]) as Hseg
        by (by apply (segment_snoc pre c (double_quotes s ++ 39 :: d :: post))).
      rewrite (IH k t r _ (pre ++ [c]) d post _ acc);
        rewrite ?Hl1, ?Hseg; cbn [position lineStart result at_ with_result with_node]; try done; try lia.
      * f_equal. rewrite !zlen_app. change (zlen [c]) with 1.
        rewrite at_result, <- !app_assoc. f_equal. lia.
      * by rewrite Hin, <- app_assoc.
      * rewrite forallb_app, Hj. simpl. by rewrite Hjc.
Qed.

(** ** Escapes *)

Lemma repeat_replicate c n : repeat [c] n = replicate (Z.to_nat n) c.
Proof.
  unfold repeat. destruct (Z.le_ge_cases n 0) as [Hn|Hn].
  { rewrite forZ_done by done. by replace (Z.to_nat n) with 0%nat by lia. }
  apply (forZ_inv1 (fun i l => l = replicate (Z.to_nat i) c)); [lia|done|].
  intros i l Hi ->. replace (Z.to_nat (i + 1)) with (S (Z.to_nat i)) by lia. by rewrite replicate_S_end.
Qed.

Definition hex_value (i : Z) (hs : jsstring) : Z := foldl (fun a c => a * 16 + fromHexCode c) i hs.

Lemma fromHexCode_digit c d : digit_in 16 c = Some d -> fromHexCode c = d /\ 0 <= d.
Proof.
  intros Hd. assert (0 <= c < 128) as Hc.
  { unfold digit_in, digit_val in Hd. repeat case_match; simplify_eq; lia. }
  assert (forallb (fun c => match digit_in 16 c with Some d => (fromHexCode c =? d) && (0 <=? d) | None => true end)
    (map Z.of_nat (seq 0 128)) = true) as Hall by (vm_compute; reflexivity).
  rewrite forallb_forall in Hall. specialize (Hall c).
  rewrite Hd in Hall. assert (In c (map Z.of_nat (seq 0 128))) as Hin.
  { apply in_map_iff. exists (Z.to_nat c). split; [lia|]. apply in_seq. lia. }
  specialize (Hall Hin). apply andb_prop in Hall as [H1 H2]. lia.
Qed.

Lemma hex_value_digits s a : digits_of 16 s -> parse_digits 16 s (Some a) = Some (hex_value a s).
Proof.
  intros Hs. revert a. induction Hs as [|c s [d Hd] _ IH]; intros a; [done|]. simpl. rewrite Hd.
  apply fromHexCode_digit in Hd as [Hd _]. rewrite IH. by rewrite Hd.
Qed.

Lemma hex_value_ge hs i : digits_of 16 hs -> 0 <= i -> i <= hex_value i hs.
Proof.
  intros Hs. revert i. induction Hs as [|c s [d Hd] _ IH]; intros i Hi; [simpl; lia|].
  apply fromHexCode_digit in Hd as [Hd Hd0]. change (hex_value i (c :: s)) with (hex_value (i * 16 + fromHexCode c) s).
  specialize (IH (i * 16 + fromHexCode c)). lia.
Qed.

(** The digits after the character at the end of [pre]. *)
Lemma hex_loop_spec hs : forall i pre c post e, input v = pre ++ c :: hs ++ post -> digits_of 16 hs ->
  position e = zlen pre -> 0 <= i -> hex_value i hs < 2 ^ 27 ->
  hex_loop v (length hs) i e = Ret (hex_value i hs) (at_ (zlen pre + zlen hs) e).
Proof.
  induction hs as [|d hs IH]; intros i pre c post e Hin Hd Hp Hi Hv; cbn [length hex_loop].
  - rewrite Z.add_0_r, <- Hp, at_same. done.
  - apply Forall_cons_iff in Hd as [[x Hx] Hd]. cbn [position at_]. rewrite Hp.
    rewrite (ch_next v pre c d (hs ++ post)) by done.
    apply fromHexCode_digit in Hx as [Hx Hx0]. rewrite (proj2 (Z.leb_le _ _)) by lia.
    change (hex_value i (d :: hs)) with (hex_value (i * 16 + fromHexCode d) hs) in *.
    pose proof (hex_value_ge hs (i * 16 + fromHexCode d) Hd ltac:(lia)).
    assert (js_shl i 4 = i * 16) as -> by (rewrite js_shl_mul; unfold pow31; lia).
    rewrite (IH _ (pre ++ [c]) d post); cbn [position at_]; try done; try lia.
    + unfold at_. cbn. rewrite zlen_app. do 2 f_equal. unfold zlen. simpl. lia.
    + by rewrite Hin, <- app_assoc.
    + rewrite zlen_app. done.
Qed.

End Quoted.

Lemma upper_hex z : 0 <= z -> digits_of 16 (upper (digits 16 z)) /\ hex_value 0 (upper (digits 16 z)) = z.
Proof.
  intros Hz. destruct (digits_spec 16 z ltac:(lia) Hz) as (Hd & Hne & Hp).
  destruct (upper_digits _ Hd) as [Hu Hpu]. split; [done|].
  specialize (Hpu (Some 0)). rewrite hex_value_digits in Hpu by done.
  assert (parse_digits 16 (digits 16 z) (Some 0) = parse_digits 16 (digits 16 z) None) as E.
  { destruct Hd as [|c s [d Hc] _]; [done|]. simpl. by rewrite Hc. }
  rewrite E, Hp in Hpu. by simplify_eq.
Qed.

(** [encodeHex]: an escape of the right number of hexadecimal digits. *)
Lemma encodeHex_spec z : 0 <= z < 2 ^ 21 -> exists x hs,
  encodeHex z = Ok (92 :: x :: hs) /\ x ∈ [120; 117; 85] /\ escapedHexLen x = zlen hs /\
  digits_of 16 hs /\ hex_value 0 hs = z.
Proof.
  intros Hz. destruct (upper_hex z) as [Hd Hv]; [lia|].
  assert (forall n : nat, (0 < n)%nat -> z < 16 ^ Z.of_nat n ->
    let hs := repeat [48] (Z.of_nat n - zlen (upper (digits 16 z))) ++ upper (digits 16 z) in
    zlen hs = Z.of_nat n /\ digits_of 16 hs /\ hex_value 0 hs = z) as Hpad.
  { intros n Hn Hlt. pose proof (digits_length 16 z n ltac:(lia) ltac:(lia) Hn) as Hl.
    rewrite repeat_replicate. set (k := Z.to_nat _).
    assert (length (upper (digits 16 z)) = length (digits 16 z)) as Hul by (unfold upper; apply length_map).
    split_and!.
    - unfold zlen. rewrite length_app, length_replicate, Hul. subst k. unfold zlen. rewrite Hul. lia.
    - apply Forall_app. split; [|done]. apply Forall_replicate. by exists 0.
    - clearbody k. unfold hex_value. rewrite foldl_app.
      assert (forall k, foldl (fun a c => a * 16 + fromHexCode c) 0 (replicate k 48) = 0) as ->; [|done].
      intros j. induction j as [|j IH]; [done|]. exact IH. }
  unfold encodeHex. destruct (Z.leb_spec z 255); [|destruct (Z.leb_spec z 65535)].
  - destruct (Hpad 2%nat) as (H1 & H2 & H3); [lia..|]. eexists 120, _. split; [done|]. split_and!; first [done|by rewrite H1|by repeat constructor].
  - destruct (Hpad 4%nat) as (H1 & H2 & H3); [lia..|]. eexists 117, _. split; [done|]. split_and!; first [done|by rewrite H1|by repeat constructor].
  - rewrite (proj2 (Z.leb_le z 4294967295)) by lia.
    destruct (Hpad 8%nat) as (H1 & H2 & H3); [lia..|]. eexists 85, _. split; [done|]. split_and!; first [done|by rewrite H1|by repeat constructor].
Qed.

(** [part] is an escape sequence that stands for the units [us]. *)
Definition escapes (part us : jsstring) : Prop :=
  exists part', part = 92 :: part' /\
  forall v t pre post e acc, input v = pre ++ part ++ post -> position e = zlen pre + 1 -> result e = VStr acc ->
    read_escape v t e = Ret tt (at_ (zlen pre + zlen part) (with_result (VStr (acc ++ us)) e)).

Lemma escapes_hex z : 0 <= z < 2 ^ 21 -> exists part, encodeHex z = Ok part /\ escapes part (charFromCodepoint z).
Proof.
  intros Hz. destruct (encodeHex_spec z Hz) as (x & hs & He & Hx & Hlen & Hd & Hv).
  exists (92 :: x :: hs). split; [done|]. exists (x :: hs). split; [done|].
  intros v t pre post e acc Hin Hp Hr. unfold read_escape. rewrite Hp.
  assert (ch v (zlen pre + 1) = x) as -> by (by apply (ch_next v pre 92 x (hs ++ post))).
  assert (is_eol x = false /\ simpleEscapeSequence x = [] /\ 0 < escapedHexLen x) as (H1 & H2 & H3).
  { rewrite !elem_of_cons in Hx. destruct Hx as [->|[->|[->|Hx]]]; [done..|by apply elem_of_nil in Hx]. }
  rewrite H1, H2, (proj2 (Z.ltb_lt _ _)) by done. rewrite bool_decide_eq_false_2 by (by intros []).
  rewrite Hlen. replace (Z.to_nat (zlen hs)) with (length hs) by (unfold zlen; lia).
  rewrite (bind_ret _ _ e z (at_ (zlen (pre ++ [92]) + zlen hs) e)).
  2:{ rewrite <- Hv. apply (hex_loop_spec v hs 0 (pre ++ [92]) x post).
      - by rewrite Hin, <- app_assoc. - done. - rewrite Hp, zlen_app. done. - done. - rewrite Hv. lia. }
  unfold bind, add_result, upd. cbn [result at_ position with_result with_node]. rewrite Hr. cbn [append_text].
  unfold at_, with_result, with_node. cbn. rewrite zlen_app. do 2 f_equal. unfold zlen. simpl. lia.
Qed.

Lemma escapes_simple c r : ESCAPE_SEQUENCES c = Some r -> escapes r [c].
Proof.
  intros Hc. assert (exists x, r = [92; x] /\ is_eol x = false /\ simpleEscapeSequence x = [c]) as (x & -> & Hx & Hs).
  { unfold ESCAPE_SEQUENCES in Hc. cbn [map own fst snd] in Hc.
    repeat (destruct (decide _) as [E|_] in Hc; [injection E as <-; injection Hc as <-; eexists; done|]). done. }
  exists [x]. split; [done|]. intros v t pre post e acc Hin Hp Hr. unfold read_escape. rewrite Hp.
  assert (ch v (zlen pre + 1) = x) as -> by (by apply (ch_next v pre 92 x post)).
  rewrite Hx, Hs. rewrite bool_decide_eq_true_2 by done.
  unfold bind, add_result, upd. cbn [result at_ position with_result with_node]. rewrite Hr. cbn [append_text].
  change (zlen [92; x]) with 2. unfold at_, with_result, with_node. cbn. do 2 f_equal. lia.
Qed.

(** What the dumper writes for the next units: a character that stands for itself, or
    an escape. *)
Definition written (part us : jsstring) : Prop :=
  (exists c, part = [c] /\ us = [c] /\ text_char c = true /\ c <> 34 /\ c <> 92) \/ escapes part us.

Lemma printable_text c : isPrintable c = true -> text_char c = true.
Proof. unfold isPrintable, text_char, json_char, is_eol. lia. Qed.

Lemma surrogates_codepoint t n : high_surrogate t = true -> low_surrogate n = true ->
  let z := 1024 * (t - 55296) + n - 56320 + 65536 in 65536 <= z < 2 ^ 21 /\ charFromCodepoint z = [t; n].
Proof.
  intros Ht Hn z. unfold high_surrogate, low_surrogate in Ht, Hn.
  assert (55296 <= t <= 56319 /\ 56320 <= n <= 57343) as [Ht' Hn'] by lia. split; [lia|].
  unfold charFromCodepoint. rewrite (proj2 (Z.leb_gt z 65535)) by lia.
  rewrite js_shr_div by (unfold pow31; lia). change 1023 with (2 ^ 10 - 1). rewrite js_and_ones by lia.
  change (2 ^ 10) with 1024. assert ((z - 65536) / 1024 = t - 55296 /\ (z - 65536) mod 1024 = n - 56320) as [-> ->] by dlia.
  f_equal; [|f_equal]; rewrite Z.mod_small by lia; lia.
Qed.

Lemma written_unit c k esc : Utf8.unit_ok c ->
  (let! o := (match ESCAPE_SEQUENCES c with
              | Some r => Ok r
              | None => if isPrintable c then Ok [c] else encodeHex c
              end) in let! r := k in Ok (o ++ r)) = Ok esc ->
  exists part esc', esc = part ++ esc' /\ part <> [] /\ k = Ok esc' /\ written part [c].
Proof.
  unfold Utf8.unit_ok. intros Hc He. destruct (ESCAPE_SEQUENCES c) as [r|] eqn:Hr.
  - destruct k as [esc'|]; [|done]. injection He as <-. exists r, esc'. split; [done|].
    apply escapes_simple in Hr. split; [by destruct Hr as (? & -> & _)|]. split; [done|by right].
  - destruct (isPrintable c) eqn:Hp.
    + destruct k as [esc'|]; [|done]. injection He as <-. exists [c], esc'. split; [done|]. split; [done|]. split; [done|].
      left. exists c. split; [done|]. split; [done|]. split; [by apply printable_text|].
      split; intros ->; done.
    + destruct (escapes_hex c) as (part & Hpart & Hesc); [lia|]. rewrite Hpart in He.
      destruct k as [esc'|]; [|done]. injection He as <-. exists part, esc'. split; [done|].
      split; [by destruct Hesc as (? & -> & _)|]. split; [done|]. right.
      assert (charFromCodepoint c = [c]) as E.
      { unfold charFromCodepoint. rewrite (proj2 (Z.leb_le c 65535)) by lia. by rewrite Z.mod_small by lia. }
      by rewrite <- E.
Qed.

Lemma escapeString_split s esc : Forall Utf8.unit_ok s -> escapeString s = Ok esc -> s <> [] ->
  exists part us s' esc', s = us ++ s' /\ us <> [] /\ esc = part ++ esc' /\ part <> [] /\
    escapeString s' = Ok esc' /\ written part us.
Proof.
  intros Hs He Hne. destruct s as [|c s]; [done|]. apply Forall_cons_iff in Hs as [Hc Hs].
  destruct s as [|d s]; cbn [escapeString] in He.
  - apply written_unit in He as (part & esc' & -> & Hp & Hk & Hw); [|done].
    injection Hk as <-. by exists part, [c], [], [].
  - destruct (high_surrogate c && low_surrogate d) eqn:Hsur.
    + apply andb_prop in Hsur as [H1 H2]. destruct (surrogates_codepoint c d H1 H2) as [Hz Hcp].
      destruct (escapes_hex (1024 * (c - 55296) + d - 56320 + 65536)) as (part & Hpart & Hesc); [lia|].
      rewrite Hpart in He. simpl in He. destruct (escapeString s) as [esc'|] eqn:Hk; [|done]. injection He as <-.
      exists part, [c; d], s, esc'. rewrite Hcp in Hesc. split_and!; try done; [by destruct Hesc as (? & -> & _)|by right].
    + apply written_unit in He as (part & esc' & -> & Hp & Hk & Hw); [|done].
      by exists part, [c], (d :: s), esc'.
Qed.

Section Double.
Context (v : env).

Lemma double_loop_spec n : forall s, (length s <= n)%nat -> forall fuel t r o pre post e acc esc,
  Forall Utf8.unit_ok s -> escapeString s = Ok esc -> input v = pre ++ esc ++ 34 :: post ->
  (length esc < fuel)%nat -> position e = zlen pre -> lineStart e < position e -> result e = VStr acc ->
  0 <= r <= zlen pre -> forallb json_char (zsub (input v) r (zlen pre)) = true ->
  double_loop v fuel t r o e =
    Ret tt (at_ (zlen pre + zlen esc + 1) (with_result (VStr (acc ++ zsub (input v) r (zlen pre) ++ s)) e)).
Proof.
  induction n as [|n IH]; intros s Hn fuel t r o pre post e acc esc Hs He Hin Hf Hp Hls Hr Hrp Hj;
    (destruct fuel as [|k]; [lia|]); cbn [double_loop].
  all: destruct (decide (s = [])) as [->|Hne].
  1,3: injection He as <-; simpl in Hin; rewrite Hp, (ch_at v pre 34 post) by done; cbn [Z.eqb Pos.eqb];
       rewrite (bind_ret _ _ e tt (with_result (VStr (acc ++ zsub (input v) r (zlen pre))) e)) by (by apply capture_json);
       unfold upd; by rewrite app_nil_r, Z.add_0_r.
  1: destruct s; [done|simpl in Hn; lia].
  destruct (escapeString_split s esc Hs He Hne) as (part & us & s' & esc' & -> & Hus & -> & Hpart & He' & Hw).
  apply Forall_app in Hs as [_ Hs']. rewrite length_app in Hn, Hf.
  assert (length s' <= n)%nat by (destruct us; [done|simpl in Hn; lia]).
  assert (zlen (pre ++ part) = zlen pre + zlen part) as Hl by apply zlen_app.
  assert (input v = (pre ++ part) ++ esc' ++ 34 :: post) as Hin' by (by rewrite Hin, <- !app_assoc).
  assert (1 <= zlen part) by (destruct part; [done|unfold zlen; simpl; lia]).
  destruct Hw as [(c & -> & -> & Htc & H34 & H92)|Hesc].
  - apply text_char_spec in Htc as (Hjc & Hec & H0c).
    rewrite Hp, (ch_at v pre c (esc' ++ 34 :: post)) by (by rewrite Hin, <- app_assoc).
    rewrite H0c, (proj2 (Z.eqb_neq c 34)), (proj2 (Z.eqb_neq c 92)), Hec by done.
    rewrite (proj2 (Z.eqb_neq (zlen pre) _)) by lia. cbn [andb].
    assert (zsub (input v) r (zlen pre + 1) = zsub (input v) r (zlen pre) ++ [c]) as Hseg
      by (apply (segment_snoc v pre c (esc' ++ 34 :: post)); [by rewrite Hin, <- app_assoc|done]).
    rewrite (IH s' ltac:(done) k t r _ (pre ++ [c]) post _ acc esc'); rewrite ?Hl; change (zlen [c]) with 1;
      rewrite ?Hseg; cbn [position lineStart result at_ with_result with_node]; try done; try lia.
    + f_equal. rewrite zlen_app. change (zlen [c]) with 1.
      rewrite at_result, <- !app_assoc. f_equal. lia.
    + simpl in Hf. lia.
    + rewrite forallb_app, Hj. simpl. by rewrite Hjc.
  - destruct Hesc as (part' & Hpart' & Hread).
    rewrite Hp, (ch_at v pre 92 (part' ++ esc' ++ 34 :: post)) by (rewrite Hin, Hpart'; simpl; by rewrite <- app_assoc).
    cbn [Z.eqb Pos.eqb].
    rewrite (bind_ret _ _ e tt (with_result (VStr (acc ++ zsub (input v) r (zlen pre))) e)) by (by apply capture_json).
    set (e1 := with_result _ e). rewrite (bind_ret _ _ e1 tt (at_ (zlen pre + 1) e1)) by done.
    rewrite (bind_ret _ _ _ tt (at_ (zlen pre + zlen part) (with_result (VStr ((acc ++ zsub (input v) r (zlen pre)) ++ us)) (at_ (zlen pre + 1) e1)))).
    2:{ apply (Hread v t pre (esc' ++ 34 :: post)); [by rewrite Hin, <- app_assoc|done|done]. }
    set (e2 := at_ _ _). rewrite (bind_ret _ _ e2 e2 e2) by done. change (position e2) with (zlen pre + zlen part).
    rewrite (IH s' ltac:(done) k t _ _ (pre ++ part) post e2 ((acc ++ zsub (input v) r (zlen pre)) ++ us) esc');
      rewrite ?Hl; try done; try lia.
    + f_equal. rewrite zlen_app, (zsub_nil _ (zlen pre + zlen part)) by lia.
      unfold e2, e1. rewrite !at_result, !result_result, ?at_result, ?result_result.
      rewrite <- !app_assoc. f_equal. lia.
    + destruct part; [done|simpl in Hf; lia].
    + change (lineStart e2) with (lineStart e). change (position e2) with (zlen pre + zlen part). lia.
    + by rewrite zsub_nil by lia.
Qed.

End Double.

(** ** Plain text *)

Section Plain.
Context (v : env).

Lemma plain_safe_spec c : isPlainSafe c = true ->
  (c =? 0) = false /\ (c =? 58) = false /\ (c =? 35) = false /\ is_flow c = false /\ is_eol c = false.
Proof. unfold isPlainSafe, isPrintable, is_eol. destruct (is_flow c); lia. Qed.

Definition ends_dark (s : jsstring) : Prop := forall l c, s = l ++ [c] -> is_white c = false.

Lemma plain_loop_spec s : forall fuel o i pre e, input v = pre ++ s ++ [10; 0] ->
  Forall (fun c => isPlainSafe c = true) s -> (S (length s) < fuel)%nat -> position e = zlen pre ->
  lineStart e <= position e -> (position e =? lineStart e) && testDocumentSeparator v e = false ->
  (s = [] -> i = zlen pre) -> ends_dark s ->
  plain_loop v fuel 0 false o i None e =
    Ret (o, zlen pre + zlen s)
      (with_line (line e + 1) (zlen pre + zlen s + 1) 0 (at_ (zlen pre + zlen s + 1) e)).
Proof.
  induction s as [|c s IH]; intros fuel o i pre e Hin Hs Hf Hp Hls Hsep Hi Hend;
    (destruct fuel as [|k]; [lia|]); cbn [plain_loop]; rewrite Hp.
  - simpl in Hin, Hf. rewrite (ch_at v pre 10 [0]) by done. cbn [Z.eqb Pos.eqb andb orb is_flow].
    rewrite Hp in Hsep. rewrite Hsep. change (is_eol 10) with true. cbn [orb].
    rewrite (bind_ret _ _ e 1 (with_line (line e + 1) (zlen pre + 1) 0 (at_ (zlen pre + 1) e)))
      by (by apply separation_end).
    set (e1 := with_line _ _ _ _). rewrite (bind_ret _ _ e1 e1 e1) by done.
    change (0 <=? lineIndent e1) with true. cbv iota. destruct k as [|k]; [lia|]. cbn [plain_loop].
    change (position e1) with (zlen pre + 1). rewrite (ch_next v pre 10 0 []) by done. cbn [Z.eqb].
    rewrite Hi by done. unfold e1. by rewrite !Z.add_0_r.
  - apply Forall_cons_iff in Hs as [Hc Hs]. apply plain_safe_spec in Hc as (H0 & H58 & H35 & Hfl & He).
    rewrite (ch_at v pre c (s ++ [10; 0])) by done. rewrite H0, H58, H35. cbn [andb].
    rewrite Hp in Hsep. rewrite Hsep, He. cbn [orb].
    unfold bind, ret, get, upd. rewrite Hp.
    assert (zlen (pre ++ [c]) = zlen pre + 1) as Hl by (rewrite zlen_app; done).
    simpl in Hf. rewrite (IH k o _ (pre ++ [c])); cbn [position lineStart line at_]; rewrite ?Hl; try done; try lia.
    + assert (zlen (c :: s) = 1 + zlen s) as -> by (unfold zlen; simpl; lia).
      rewrite Z.add_assoc. done.
    + by rewrite Hin, <- app_assoc.
    + intros ->. by rewrite (Hend [] c eq_refl).
    + intros l d ->. by apply (Hend (c :: l) d).
Qed.

Lemma plain_printable s prev : Forall (fun c => isPlainSafe c = true) s -> non_printable_from prev s = false.
Proof.
  intros Hs. revert prev. induction Hs as [|c s Hc _ IH]; intros prev; simpl; [done|]. rewrite IH.
  unfold isPlainSafe, isPrintable in Hc. unfold control_char, Regex.range, high_surrogate, low_surrogate.
  assert ((55296 <=? c) && (c <=? 56319) = false) as -> by lia.
  assert ((56320 <=? c) && (c <=? 57343) = false) as -> by lia. simpl. rewrite !orb_false_r. lia.
Qed.

End Plain.

(** [load] of a text that is one scalar and a line feed. *)
Lemma load_one w h c0 rest s t : c0 ∉ not_start -> opt_legacy t = false ->
  (forall v e, input v = (c0 :: rest) ++ [10; 0] -> v = load_env w ((c0 :: rest) ++ [10]) t ->
    position e = 0 -> lineStart e = 0 ->
    exists e1, composeNode v (pred (node_fuel v)) 0 FLOW_OUT false true e = Ret true e1 /\ reads (c0 :: rest) s e e1) ->
  exists e, load w h ((c0 :: rest) ++ [10]) t = Ret (VStr s) e.
Proof.
  intros Hc0 Hleg Hinner. set (body := c0 :: rest) in *.
  assert (prepare (body ++ [10]) = body ++ [10]) as Hprep.
  { unfold prepare. rewrite decide_False by done.
    rewrite zlen_app, zget_app_r by (change (zlen [10]) with 1; lia).
    replace (zlen body + zlen [10] - 1 - zlen body) with 0 by (change (zlen [10]) with 1; lia).
    cbn [zget Z.ltb Z.compare Z.to_nat lookup list_lookup default orb]. change (10 =? 10) with true. cbn [orb].
    rewrite bool_decide_eq_false_2; [done|]. unfold body. simpl. unfold zget. simpl. intros [= ->]. apply Hc0. by repeat constructor. }
  unfold load, loadDocuments. set (v := load_env w (body ++ [10]) t).
  assert (input v = body ++ [10; 0]) as Hin.
  { unfold v, load_env. cbn [input]. by rewrite Hprep, <- app_assoc. }
  assert (length_ v = zlen body + 1) as Hlen.
  { unfold v, load_env. cbn [length_]. by rewrite Hprep, zlen_app. }
  assert (0 < zlen body) as Hb by (unfold zlen, body; simpl; lia).
  assert (zlen (input v) = zlen body + 2) as Hil by (rewrite Hin, zlen_app; done).
  assert (initial h v = mkst 0 0 0 0 None None None VNull None false [] [] [] h []) as Hinit.
  { unfold initial. rewrite skip_none; [done| |lia].
    rewrite (ch_0 v body c0 rest eq_refl Hin). apply Z.eqb_neq. intros <-. apply Hc0. by vm_compute; repeat constructor. }
  rewrite Hinit. set (e := mkst 0 _ _ _ _ _ _ _ _ _ _ _ _ _ _). unfold loop_fuel. cbn [documents_loop].
  change (position e) with 0. rewrite Hlen, (proj2 (Z.ltb_lt _ _)) by lia.
  destruct (one_document v body c0 rest eq_refl Hin Hlen Hc0 s e) as (e1 & He1 & Hd1 & Hp1); [done..| |].
  { intros e' Hp' Hls'. by apply Hinner. }
  rewrite (bind_ret _ _ e tt e1) by done. cbn [documents_loop]. rewrite Hp1, (proj2 (Z.ltb_ge _ _)) by lia.
  rewrite Hd1. by eexists.
Qed.

(** ** The round trip *)

(** The string starts like the mark that ends a document. *)
Definition document_end (s : jsstring) : bool :=
  bool_decide (take 3 s = [46; 46; 46])
  && match drop 3 s with [] => true | c :: _ => is_white c end.

Lemma quotes_start : (39 ∉ not_start) /\ (34 ∉ not_start).
Proof. split; [apply (bool_decide_unpack (39 ∉ not_start))|apply (bool_decide_unpack (34 ∉ not_start))]; exact I. Qed.

Lemma node_fuel_S v : exists k, pred (node_fuel v) = S k.
Proof. exists (2 * length (input v) + 4)%nat. unfold node_fuel. lia. Qed.

Lemma load_single w h t s : opt_legacy t = false -> Forall (fun c => text_char c = true) s ->
  exists e, load w h ([39] ++ double_quotes s ++ [39; 10]) t = Ret (VStr s) e.
Proof.
  intros Hleg Hs. set (rest := double_quotes s ++ [39]).
  replace ([39] ++ double_quotes s ++ [39; 10]) with ((39 :: rest) ++ [10]) by (unfold rest; simpl; by rewrite <- app_assoc).
  apply load_one; [apply quotes_start|done|].
  intros v e Hin _ Hp Hls. destruct (node_fuel_S v) as [k ->].
  apply (quoted_reads v (39 :: rest) 39 rest); [done|done|apply quotes_start|done|]. left. split; [done|].
  assert (input v = [39] ++ double_quotes s ++ 39 :: 10 :: [0]) as Hin'
    by (rewrite Hin; unfold rest; simpl; by rewrite <- app_assoc).
  rewrite (single_loop_spec v s _ 0 1 1 [39] 10 [0] _ []); try done.
  - rewrite zsub_nil by done. simpl. f_equal. f_equal. unfold rest, zlen. simpl. rewrite length_app. simpl. lia.
  - unfold loop_fuel. rewrite Hin'. simpl. rewrite length_app. simpl. lia.
  - cbn. rewrite Hls. lia.
Qed.

Lemma load_double w h t s esc : opt_legacy t = false -> Forall Utf8.unit_ok s -> escapeString s = Ok esc ->
  exists e, load w h ([34] ++ esc ++ [34; 10]) t = Ret (VStr s) e.
Proof.
  intros Hleg Hs He. set (rest := esc ++ [34]).
  replace ([34] ++ esc ++ [34; 10]) with ((34 :: rest) ++ [10]) by (unfold rest; simpl; by rewrite <- app_assoc).
  apply load_one; [apply quotes_start|done|].
  intros v e Hin _ Hp Hls. destruct (node_fuel_S v) as [k ->].
  apply (quoted_reads v (34 :: rest) 34 rest); [done|done|apply quotes_start|done|]. right. split; [done|].
  assert (input v = [34] ++ esc ++ 34 :: 10 :: [0]) as Hin'
    by (rewrite Hin; unfold rest; simpl; by rewrite <- app_assoc).
  rewrite (double_loop_spec v (length s) s ltac:(done) _ 0 1 1 [34] [10; 0] _ [] esc); try done.
  - rewrite zsub_nil by done. simpl. f_equal. f_equal. unfold rest, zlen. simpl. rewrite length_app. simpl. lia.
  - unfold loop_fuel. rewrite Hin'. simpl. rewrite length_app. simpl. lia.
  - cbn. rewrite Hls. lia.
Qed.

Lemma resolve_implicit_none v l e s : result e = VStr s -> (forall b, b ∈ l -> resolve (page v) b (heap e) (VStr s) = false) ->
  resolve_implicit v l e = Ret tt e.
Proof.
  intros Hr. induction l as [|b l IH]; intros Hl; cbn [resolve_implicit]; [done|].
  rewrite Hr, andb_false_r, (Hl b) by by left. apply IH. intros b' Hb'. apply Hl. by right.
Qed.

(** The separator of documents is not a plain string that passes the test. *)
Lemma no_separator v s e : input v = s ++ [10; 0] -> zget s 0 <> Some 45 -> document_end s = false ->
  Forall (fun c => isPlainSafe c = true) s -> position e = 0 -> testDocumentSeparator v e = false.
Proof.
  intros Hin H45 Hd Hs Hp. unfold testDocumentSeparator. rewrite Hp.
  destruct (_ && _) eqn:Ht; [exfalso|done]. apply andb_prop in Ht as [Ht Hend].
  apply andb_prop in Ht as [Ht H2]. apply andb_prop in Ht as [Ht H1]. apply Z.eqb_eq in H1, H2.
  unfold ch in *. rewrite Hin in *.
  destruct s as [|a [|b [|c s]]]; unfold zget in *; simpl in *; try (lia || done).
  - apply orb_prop in Ht as [Ht|Ht]; apply Z.eqb_eq in Ht; [congruence|]. subst a b c.
    unfold document_end in Hd. rewrite bool_decide_eq_true_2 in Hd by done. simpl in Hd.
    destruct s as [|d s]; [done|]. simpl in Hend.
    assert (isPlainSafe d = true) as Hsd by (repeat (apply Forall_cons_iff in Hs as [? Hs]); done).
    apply plain_safe_spec in Hsd as (H0 & _ & _ & _ & He).
    unfold is_ws_or_eol in Hend. unfold is_white in Hd. unfold is_eol in He.
    rewrite drop_0 in Hd. rewrite H0 in Hend. destruct (d =? 9), (d =? 32), (d =? 10), (d =? 13); simpl in *; congruence.
Qed.

Lemma plain_first_spec c : isPlainSafeFirst c = true ->
  (c ∉ not_start) /\ c <> 39 /\ c <> 34 /\ c <> 42 /\ plain_start_excluded c = false /\ (c =? 63) = false /\ (c =? 45) = false.
Proof.
  unfold isPlainSafeFirst, first_excluded. rewrite !andb_true_iff, !negb_true_iff, !orb_false_iff.
  intros [[Hp Hb] [[Hw Hx] H34]]. apply bool_decide_eq_false in Hx.
  assert (forall k, k ∈ js "-?:,[]{}#&*!|>'%@`" -> c <> k) as Hne by (intros k Hk ->; done).
  assert (forall k, bool_decide (k ∈ js "-?:,[]{}#&*!|>'%@`") = true -> (c =? k) = false) as Hne'.
  { intros k Hk. apply bool_decide_eq_true in Hk. apply Z.eqb_neq. by apply Hne. }
  unfold isPrintable in Hp. unfold is_white in Hw.
  pose proof (Hne' 45 eq_refl). pose proof (Hne' 63 eq_refl). pose proof (Hne' 58 eq_refl). pose proof (Hne' 44 eq_refl).
  pose proof (Hne' 91 eq_refl). pose proof (Hne' 93 eq_refl). pose proof (Hne' 123 eq_refl). pose proof (Hne' 125 eq_refl).
  pose proof (Hne' 35 eq_refl). pose proof (Hne' 38 eq_refl). pose proof (Hne' 42 eq_refl). pose proof (Hne' 33 eq_refl).
  pose proof (Hne' 124 eq_refl). pose proof (Hne' 62 eq_refl). pose proof (Hne' 39 eq_refl). pose proof (Hne' 37 eq_refl).
  pose proof (Hne' 64 eq_refl). pose proof (Hne' 96 eq_refl). clear Hne Hne' Hx.
  split_and!; try lia.
  - unfold not_start. rewrite !elem_of_cons, elem_of_nil. lia.
  - unfold plain_start_excluded, is_ws_or_eol, is_flow. lia.
Qed.

Lemma load_plain w h t c0 rest : let s := c0 :: rest in opt_legacy t = false ->
  isPlainSafeFirst c0 = true -> Forall (fun c => isPlainSafe c = true) s -> ends_dark s -> document_end s = false ->
  (forall b h, b ∈ compiledImplicit type_tag type_kind (opt_schema t) -> resolve w b h (VStr s) = false) ->
  exists e, load w h (s ++ [10]) t = Ret (VStr s) e.
Proof.
  intros s Hleg Hf Hs Hend Hdoc Himp. apply plain_first_spec in Hf as (Hns & H39 & H34 & H42 & Hex & H63 & H45).
  apply load_one; [done|done|]. intros v e Hin Hv Hp Hls. destruct (node_fuel_S v) as [k ->].
  set (e0 := with_node None None None VNull e). set (e1 := with_scalar (Some Scalar) (VStr []) e0).
  set (e2 := with_line (line e1 + 1) (zlen s + 1) 0 (at_ (zlen s + 1) e1)).
  set (e3 := with_result (VStr s) e2). set (e4 := with_tag (Some (js "?")) e3).
  assert (1 <= zlen s) as Hl by (unfold s, zlen; simpl; lia).
  assert (readPlainScalar v 0 false e0 = Ret true e3) as Hr.
  { unfold readPlainScalar. change (position e0) with (position e). rewrite Hp, (ch_0 v s c0 rest eq_refl Hin), Hex, H63, H45.
    cbn [orb andb]. rewrite (bind_ret _ _ e0 tt e1) by done.
    rewrite (bind_ret _ _ e1 (0, zlen s) e2).
    2:{ unfold e2. apply (plain_loop_spec v s _ 0 0 []); [done|done| |done| |..|done|done].
        - unfold loop_fuel. rewrite Hin, length_app. simpl. lia.
        - change (position e1) with (position e). change (lineStart e1) with (lineStart e). lia.
        - rewrite (no_separator v s e1); [by rewrite andb_false_r|done| |done|done|done].
          unfold s, zget. simpl. intros [= ->]. done. }
    rewrite (bind_ret _ _ e2 tt e3).
    2:{ assert (zsub (input v) 0 (zlen s) = s) as Hz by (apply (segment_at v [] s [10; 0]); done).
        unfold e3. rewrite <- Hz at 2. apply capture_plain; [done|lia|]. rewrite Hz. by apply plain_printable. }
    rewrite (bind_ret _ _ e3 e3 e3) by done. by rewrite decide_False by done. }
  exists e4. split.
  - apply (flow_node v s c0 rest eq_refl Hin Hns k true e e4 e4); [done| | |done].
    + apply (content_plain v s c0 rest eq_refl Hin Hns _ e0 e3); done.
    + change (resolve_tag v e4) with (resolve_implicit v (YamlLoad.implicitTypes v) e4).
      apply (resolve_implicit_none _ _ _ s); [done|]. intros b Hb. subst v. by apply Himp.
  - unfold reads. split_and!; try done. right. split; [|done]. change (line e4) with (line e + 1). lia.
Qed.

(** ** What the dumper writes for a string *)

Definition safe_settings : settings := State (default_dump_options DEFAULT_SAFE_SCHEMA).

Definition unprintable (c : Z) : bool := negb (isPrintable c) && negb (c =? 10).

(** The strings that are written on one line: those of one line that is not long,
    and those with a character that is not printable. *)
Definition one_line (s : jsstring) : bool :=
  (negb (bool_decide (10 ∈ s)) && (zlen s <=? 78)) || existsb unprintable s.

Lemma style_loop_double s rest : forall width i m b l p, existsb unprintable rest = true ->
  style_loop s rest width i m b l p = None.
Proof.
  induction rest as [|c rest IH]; intros width i m b l p; simpl; [done|].
  unfold unprintable at 1. destruct (c =? 10) eqn:H10.
  - rewrite andb_false_r. intros H. simpl in H. destruct (width =? -1); by apply IH.
  - destruct (isPrintable c); simpl; [|done]. apply IH.
Qed.

Lemma style_loop_single s rest : forall width i m b l p, existsb unprintable rest = false -> 10 ∉ rest ->
  style_loop s rest width i m b l p =
    Some (b, l || long_line s width (i + zlen rest) m, p && forallb isPlainSafe rest).
Proof.
  induction rest as [|c rest IH]; intros width i m b l p He Hn; simpl.
  - by rewrite Z.add_0_r, andb_true_r.
  - simpl in He. apply orb_false_iff in He as [Hc He]. rewrite elem_of_cons in Hn.
    assert ((c =? 10) = false) as H10 by (apply Z.eqb_neq; intros ->; apply Hn; by left).
    unfold unprintable in Hc. rewrite H10, andb_true_r in Hc. apply negb_false_iff in Hc. rewrite H10, Hc.
    rewrite IH by tauto. rewrite andb_assoc.
    by replace (i + zlen (c :: rest)) with (i + 1 + zlen rest) by (unfold zlen; simpl; lia).
Qed.

Lemma no_type w e h s b : detectType w e h (VStr s) b = None.
Proof.
  unfold detectType. assert (forall l, List.find (fun t => type_matches t h (VStr s)) l = None) as ->; [|done].
  intros l. induction l as [|t l IH]; simpl; [done|]. by destruct t.
Qed.

Lemma safeDump_string w h s : dumped (safeDump w h (VStr s)) =
  match writeScalar w safe_settings s 0 false with Ok d => Some (d ++ [10]) | Throw _ => None end.
Proof.
  unfold safeDump, dump_. fold safe_settings. cbn [writeNode]. unfold write_node. rewrite !no_type.
  cbn [class_of write_content bool_decide]. unfold write_content. rewrite bool_decide_eq_false_2 by done.
  by destruct (writeScalar w safe_settings s 0 false).
Qed.

(** The text written for a string of one line. *)
Definition style_of (w : host) (s : jsstring) : scalar_style :=
  chooseScalarStyle s false 2 78 (testImplicitResolving w safe_settings).

Lemma style_spec w s : one_line s = true ->
  match style_of w s with
  | PLAIN => existsb unprintable s = false /\ (10 ∉ s) /\
      isPlainSafeFirst (default (-1) (zget s 0)) = true /\ is_white (default (-1) (zget s (zlen s - 1))) = false /\
      forallb isPlainSafe s = true /\ testImplicitResolving w safe_settings s = false
  | SINGLE => existsb unprintable s = false /\ (10 ∉ s)
  | DOUBLE => True
  | _ => False
  end.
Proof.
  intros Ho. unfold style_of, chooseScalarStyle.
  destruct (existsb unprintable s) eqn:Hu; [by rewrite style_loop_double|].
  unfold one_line in Ho. rewrite Hu, orb_false_r in Ho. apply andb_prop in Ho as [Hn Hl].
  apply negb_true_iff, bool_decide_eq_false in Hn. apply Z.leb_le in Hl.
  rewrite style_loop_single by done.
  assert (long_line s 78 (0 + zlen s) (-1) = false) as ->.
  { unfold long_line. rewrite (proj2 (Z.ltb_ge _ _)) by lia. done. }
  cbn [orb]. destruct (_ && negb (testImplicitResolving _ _ _)) eqn:Hp; [|by split].
  apply andb_prop in Hp as [Hp Ht]. apply andb_prop in Hp as [Hp Hf]. apply andb_prop in Hp as [Hp Hw].
  apply negb_true_iff in Ht, Hw. split_and!; first [assumption|reflexivity].
Qed.

Lemma escapeString_cons c d s : escapeString (c :: d :: s) =
  if high_surrogate c && low_surrogate d then
    let! o := encodeHex (1024 * (c - 55296) + d - 56320 + 65536) in let! r := escapeString s in Ok (o ++ r)
  else
    let! o := (match ESCAPE_SEQUENCES c with
               | Some r => Ok r | None => if isPrintable c then Ok [c] else encodeHex c end) in
    let! r := escapeString (d :: s) in Ok (o ++ r).
Proof. reflexivity. Qed.

Lemma escapeString_ok s : Forall Utf8.unit_ok s -> exists esc, escapeString s = Ok esc.
Proof.
  remember (length s) as n eqn:Hn. revert s Hn. induction n as [n IH] using lt_wf_ind. intros s -> Hs.
  destruct s as [|c s]; [by exists []|]. apply Forall_cons_iff in Hs as [Hc Hs].
  assert (exists o, (match ESCAPE_SEQUENCES c with
    | Some r => Ok r | None => if isPrintable c then Ok [c] else encodeHex c end) = Ok o) as [o Ho].
  { destruct (ESCAPE_SEQUENCES c); [by eexists|]. destruct (isPrintable c); [by eexists|].
    unfold Utf8.unit_ok in Hc. destruct (escapes_hex c) as (part & -> & _); [lia|]. by eexists. }
  destruct s as [|d s]; [cbn [escapeString]; rewrite Ho; by eexists|]. rewrite escapeString_cons, Ho.
  destruct (high_surrogate c && low_surrogate d) eqn:Hsur.
  - apply andb_prop in Hsur as [H1 H2]. destruct (surrogates_codepoint c d H1 H2) as [Hz _].
    destruct (escapes_hex (1024 * (c - 55296) + d - 56320 + 65536)) as (part & -> & _); [lia|].
    apply Forall_cons_iff in Hs as [_ Hs]. destruct (IH (length s)) with s as [esc He]; [simpl; lia|done|done|].
    rewrite He. by eexists.
  - destruct (IH (length (d :: s))) with (d :: s) as [esc He]; [simpl; lia|done|done|].
    rewrite He. by eexists.
Qed.

Lemma text_chars s : Forall Utf8.unit_ok s -> existsb unprintable s = false -> 10 ∉ s ->
  Forall (fun c => text_char c = true) s.
Proof.
  intros Hs Hu Hn. apply Forall_forall. intros c Hc. apply printable_text.
  destruct (isPrintable c) eqn:Hp; [done|]. exfalso.
  assert (existsb unprintable s = true); [|congruence]. apply existsb_exists. exists c.
  split; [done|]. unfold unprintable. rewrite Hp. simpl.
  apply negb_true_iff, Z.eqb_neq. intros ->. apply Hn. by apply list_elem_of_In.
Qed.

Lemma deprecated_text t : is_text t DEPRECATED_BOOLEANS = true ->
  double_quotes t = t /\ Forall (fun c => text_char c = true) t.
Proof.
  unfold is_text. intros H. apply bool_decide_eq_true in H.
  assert (forallb (fun t => bool_decide (double_quotes t = t) && forallb text_char t) (map js DEPRECATED_BOOLEANS) = true) as Hall
    by (vm_compute; reflexivity).
  rewrite forallb_forall in Hall. apply list_elem_of_In in H. specialize (Hall t H).
  apply andb_prop in Hall as [H1 H2]. apply bool_decide_eq_true in H1. split; [done|].
  apply Forall_forall. by apply forallb_forall.
Qed.

Lemma safe_implicit w s h b : b ∈ compiledImplicit type_tag type_kind DEFAULT_SAFE_SCHEMA ->
  testImplicitResolving w safe_settings s = false -> resolve w b h (VStr s) = false.
Proof.
  intros Hb Ht. assert (resolve w b h (VStr s) = resolve w b [] (VStr s)) as ->.
  { assert (compiledImplicit type_tag type_kind DEFAULT_SAFE_SCHEMA = [TNull; TBool; TInt; TFloat; TTimestamp; TMerge]) as E
      by (vm_compute; reflexivity).
    rewrite E, !elem_of_cons, elem_of_nil in Hb. destruct Hb as [->|[->|[->|[->|[->|[->|[]]]]]]]; done. }
  destruct (resolve w b [] (VStr s)) eqn:Hr; [|done]. exfalso.
  assert (testImplicitResolving w safe_settings s = true); [|congruence].
  unfold testImplicitResolving. apply existsb_exists. exists b. split; [|done].
  apply list_elem_of_In. exact Hb.
Qed.

(** C13: A string that the dumper writes on one line (one line of at most 78
    characters, or any string with a character that is not printable), of any UTF-16
    units, is read back by the loader, whichever of the plain, single quoted and
    double quoted styles is chosen, unless the string starts like the mark at the end
    of a document: three periods, and then nothing or white space. *)
Theorem yaml_string_roundtrip w h s (Hs : Forall Utf8.unit_ok s) (Hone : one_line s = true) (Hend : document_end s = false) :
  exists text e, dumped (safeDump w h (VStr s)) = Some text /\ safeLoad w h text = Ret (VStr s) e.
Proof.
  assert (forall body, Forall (fun c => text_char c = true) body ->
    exists text e, Some ([39] ++ double_quotes body ++ [39] ++ [10]) = Some text /\ safeLoad w h text = Ret (VStr body) e) as Hsingle.
  { intros body Hb. destruct (load_single w h safe_options body) as [e He]; [done|done|]. by eexists _, e. }
  rewrite safeDump_string. unfold writeScalar. destruct (zlen s =? 0) eqn:H0.
  { apply Z.eqb_eq in H0. destruct s; [|unfold zlen in H0; simpl in H0; lia]. by apply (Hsingle []). }
  change (noCompatMode safe_settings) with false. cbn [negb andb].
  destruct (is_text s DEPRECATED_BOOLEANS) eqn:Hdep.
  { apply deprecated_text in Hdep as [Hd Ht]. destruct (Hsingle s Ht) as (t & e & He & Hl). exists t, e.
    split; [|done]. rewrite <- He, Hd. by rewrite <- !app_assoc. }
  match goal with |- context [match chooseScalarStyle ?a ?b ?c ?d ?f with _ => _ end] =>
    change (chooseScalarStyle a b c d f) with (style_of w s) end.
  pose proof (style_spec w s Hone) as Hst. destruct (style_of w s); try contradiction Hst.
  - destruct Hst as (Hu & Hn & Hf & Hw & Hsafe & Hamb).
    destruct s as [|c0 rest]; [discriminate H0|].
    destruct (load_plain w h safe_options c0 rest) as [e He]; [reflexivity| | | |exact Hend| |].
    + exact Hf.
    + apply Forall_forall. by apply forallb_forall.
    + intros l c Hlc. rewrite Hlc, zlen_app, zget_app_r in Hw by (change (zlen [c]) with 1; lia).
      replace (zlen l + zlen [c] - 1 - zlen l) with 0 in Hw by (change (zlen [c]) with 1; lia). exact Hw.
    + intros b h' Hb. by apply safe_implicit.
    + exists ((c0 :: rest) ++ [10]), e. split; [reflexivity|exact He].
  - destruct Hst as [Hu Hn]. destruct (Hsingle s) as (t & e & He & Hl); [by apply text_chars|]. exists t, e.
    split; [|done]. rewrite <- He. by rewrite <- !app_assoc.
  - destruct (escapeString_ok s Hs) as [esc Hesc]. rewrite Hesc. simpl.
    destruct (load_double w h safe_options s esc) as [e He]; [done|done|done|].
    eexists _, e. split; [done|]. rewrite <- He. unfold safeLoad. f_equal. simpl. by rewrite <- app_assoc.
Qed.

(** A page on which no object of the host matters. *)
Definition bare_page : host :=
  Build_host None (fun _ _ => true) (fun _ _ => true) (fun _ => []) (fun s => s) (fun _ _ => []).

Lemma yaml_string_roundtrip_witness :
  dumped (safeDump bare_page [] (VStr [105; 116; 39; 115; 7; 55357; 56832]))
    = Some ([34] ++ js "it's\a\U0001F600" ++ [34; 10]) /\
  exists text e, dumped (safeDump bare_page [] (VStr [105; 116; 39; 115; 7; 55357; 56832])) = Some text /\
    safeLoad bare_page [] text = Ret (VStr [105; 116; 39; 115; 7; 55357; 56832]) e.
Proof.
  split; [vm_compute; reflexivity|].
  apply (yaml_string_roundtrip bare_page [] [105; 116; 39; 115; 7; 55357; 56832]);
    [repeat constructor; lia|vm_compute; reflexivity..].
Defined.

(** What is read back from the text of a string. *)
Definition reread (s : jsstring) : option value :=
  match dumped (safeDump bare_page [] (VStr s)) with
  | Some text => match safeLoad bare_page [] text with Ret x _ => Some x | _ => None end
  | None => None
  end.

(** Three strings that do not survive the dumper and the loader. The mark that
    ends a document is written plain and reads as null; followed by a text it does
    not load at all; and a text of several lines that starts with a space is written
    with an indentation indicator that is one more than its indentation, so that
    every line gains a space. *)
Theorem yaml_dump_defects :
  reread (js "...") = Some VNull /\
  reread (js "... and so on") = None /\
  reread (js " a" ++ [10] ++ js "b") = Some (VStr (js "  a" ++ [10] ++ js " b")).
Proof. vm_compute. auto. Qed.

End YamlRoundtrip.
