(* ===== verification/JsonPatch.v ===== *)
(** * JSON Patch

    Models fast-json-patch (lines 8910 to 8995, 15652 to 15849 and 32540 to 32596 of
    src/client/docs/swagger-ui/swagger-ui-bundle.js) and the deep-equal module it tests
    with (lines 15613 to 15650): pointers, the operations of RFC 6902 with and without
    validation, and [compare].

    A document is a tree; the library changes it in place, and the model returns the
    changed tree.  The value of an operation becomes part of the document itself, so the
    operations are taken to share no objects with each other or with the document.  The
    observers (they wait for DOM events) are not modelled, nor is a validator other than the
    one of the library.  [Outside] is the result of an operation that gives an array a hole
    or a property that is not an element, that ties a document into a cycle, that reads a
    member which every object inherits, or that changes the prototype of an object: the tree
    has no such values.  The methods that arrays and strings have besides are no members
    here. *)

From S2P Require Import Prelude.
From S2P Require Import JsString.
From Stdlib Require Import String.
From stdpp Require Import base numbers list option.
Open Scope Z_scope.

Module JsonPatch.

(** ** Documents *)

(** Numbers are integers: only their equality matters. *)
Inductive json :=
| JUndef
| JNull
| JBool (b : bool)
| JNum (z : Z)
| JStr (s : jsstring)
| JArr (l : list json)
| JObj (o : list (jsstring * json)).

Inductive perr := PTypeError | PatchError (name : string) | Outside.
Inductive pres (A : Type) := POk (a : A) | PErr (e : perr).
Arguments POk {A} a.
Arguments PErr {A} e.

Definition pbind {A B} (m : pres A) (k : A -> pres B) : pres B :=
  match m with POk a => k a | PErr e => PErr e end.
Notation "'let?' x ':=' m 'in' k" := (pbind m (fun x => k))
  (at level 10, x pattern, m at level 100, k at level 200).

(** ** Properties of objects

    The own keys of an object come with the array indices first, in their order. *)

Definition digit (c : Z) : bool := (48 <=? c) && (c <=? 57).
Definition digits_value (s : jsstring) : Z := fold_left (fun n c => 10 * n + (c - 48)) s 0.

(** [Some n] for the key of the array index [n]. *)
Definition array_index (s : jsstring) : option Z :=
  match s with
  | [] => None
  | c :: s' =>
      if forallb digit s && (negb (c =? 48) || bool_decide (s' = [])) && (digits_value s <? pow32 - 1)
      then Some (digits_value s) else None
  end.

Fixpoint obj_get (o : list (jsstring * json)) (k : jsstring) : option json :=
  match o with
  | [] => None
  | (k', v) :: o => if decide (k = k') then Some v else obj_get o k
  end.

(** Where a new key goes. *)
Fixpoint obj_add (o : list (jsstring * json)) (k : jsstring) (v : json) : list (jsstring * json) :=
  match o with
  | [] => [(k, v)]
  | (k', v') :: o' =>
      match array_index k, array_index k' with
      | Some n, Some n' => if n <? n' then (k, v) :: o else (k', v') :: obj_add o' k v
      | Some _, None => (k, v) :: o
      | None, _ => (k', v') :: obj_add o' k v
      end
  end.

Fixpoint obj_replace (o : list (jsstring * json)) (k : jsstring) (v : json) : list (jsstring * json) :=
  match o with
  | [] => []
  | (k', v') :: o => if decide (k = k') then (k', v) :: o else (k', v') :: obj_replace o k v
  end.

Definition obj_set (o : list (jsstring * json)) (k : jsstring) (v : json) : list (jsstring * json) :=
  match obj_get o k with Some _ => obj_replace o k v | None => obj_add o k v end.

Fixpoint obj_delete (o : list (jsstring * json)) (k : jsstring) : list (jsstring * json) :=
  match o with
  | [] => []
  | (k', v') :: o => if decide (k = k') then o else (k', v') :: obj_delete o k
  end.

(** ** Helpers *)

(** ["" + n]. *)
Fixpoint nat_digits (fuel : nat) (n : Z) : jsstring :=
  match fuel with
  | O => []
  | S fuel => (if n <? 10 then [] else nat_digits fuel (n / 10)) ++ [48 + n mod 10]
  end.
Definition number_string (n : Z) : jsstring := nat_digits (S (Z.to_nat (Z.log2 n))) n.

Definition objectKeys (e : json) : list jsstring :=
  match e with
  | JArr l => map (fun n => number_string (Z.of_nat n)) (seq 0 (length l))
  | JObj o => map fst o
  | JStr s => map (fun n => number_string (Z.of_nat n)) (seq 0 (length s))
  | _ => []
  end.

(** [s.replace(/c/g, t)] for a character [c]. *)
Definition replace_char (c : Z) (t s : jsstring) : jsstring := flat_map (fun x => if x =? c then t else [x]) s.

Definition slash : Z := 47.
Definition tilde : Z := 126.

Definition escapePathComponent (e : jsstring) : jsstring :=
  if (index_of slash e =? -1) && (index_of tilde e =? -1) then e
  else replace_char slash (js "~1") (replace_char tilde (js "~0") e).

(** [s.replace(/~d/g, t)] for a digit [d]. *)
Fixpoint replace_escape (d t : Z) (s : jsstring) : jsstring :=
  match s with
  | [] => []
  | c :: s' =>
      match s' with
      | c' :: s'' => if (c =? tilde) && (c' =? d) then t :: replace_escape d t s'' else c :: replace_escape d t s'
      | [] => [c]
      end
  end.
Definition unescapePathComponent (e : jsstring) : jsstring := replace_escape 48 tilde (replace_escape 49 slash e).

(** Also true of the empty string. *)
Definition isInteger (e : jsstring) : bool := forallb digit e.

(** [JSON.parse(JSON.stringify(e))]: undefined is left out of objects and null in arrays. *)
Fixpoint json_copy (e : json) : json :=
  match e with
  | JArr l => JArr (map (fun x => match x with JUndef => JNull | _ => json_copy x end) l)
  | JObj o => JObj (flat_map (fun kv => match snd kv with JUndef => [] | _ => [(fst kv, json_copy (snd kv))] end) o)
  | _ => e
  end.
Definition deepClone (e : json) : json :=
  match e with JUndef => JNull | _ => json_copy e end.

Fixpoint hasUndefined (t : json) : bool :=
  match t with
  | JUndef => true
  | JArr l => existsb hasUndefined l
  | JObj o => existsb (fun kv => hasUndefined (snd kv)) o
  | _ => false
  end.

(** A property key: a number or a string. *)
Inductive key := KNum (z : Z) | KStr (s : jsstring).

#[export] Instance key_eq_dec : EqDecision key.
Proof. solve_decision. Defined.

(** The element of an array or of a string that a key stands for. *)
Definition key_index (g : key) : option Z :=
  match g with KNum z => Some z | KStr s => array_index s end.

(** A member that is not an own one: undefined, or one of those that every object has, which are
    functions, and the object they come from for [__proto__]. *)
Definition no_own (g : jsstring) : pres json := if bool_decide (g ∈ inherited) then PErr Outside else POk JUndef.
Definition key_text (g : key) : jsstring := match g with KStr s => s | KNum z => number_string z end.

(** [d[g]]. *)
Definition get_prop (d : json) (g : key) : pres json :=
  match d with
  | JUndef | JNull => PErr PTypeError
  | JBool _ | JNum _ => no_own (key_text g)
  | JStr s =>
      match key_index g with
      | Some z => POk match zget s z with Some c => JStr [c] | None => JUndef end
      | None => if bool_decide (g = KStr (js "length")) then POk (JNum (zlen s)) else no_own (key_text g)
      end
  | JArr l =>
      match key_index g with
      | Some z => POk (default JUndef (zget l z))
      | None => if bool_decide (g = KStr (js "length")) then POk (JNum (zlen l)) else no_own (key_text g)
      end
  | JObj o => match obj_get o (key_text g) with Some v => POk v | None => no_own (key_text g) end
  end.
(** The same for a member that [d] has, or that no object inherits; undefined where [d] has no
    properties. *)
Definition prop (d : json) (g : key) : json := match get_prop d g with POk v => v | PErr _ => JUndef end.

(** ** deep-equal, strict *)

Definition container (e : json) : bool := match e with JArr _ | JObj _ => true | _ => false end.

(** [===], where arrays and objects are never the same. *)
Definition strict_eq (e t : json) : bool :=
  match e, t with
  | JUndef, JUndef | JNull, JNull => true
  | JBool a, JBool b => Bool.eqb a b
  | JNum a, JNum b => a =? b
  | JStr a, JStr b => bool_decide (a = b)
  | _, _ => false
  end.

Fixpoint str_leb (a b : jsstring) : bool :=
  match a, b with
  | [], _ => true
  | _, [] => false
  | x :: a, y :: b => if x =? y then str_leb a b else x <? y
  end.
Fixpoint insert_key (k : jsstring) (l : list jsstring) : list jsstring :=
  match l with
  | [] => [k]
  | k' :: l' => if str_leb k k' then k :: l else k' :: insert_key k l'
  end.
Definition sort_keys (l : list jsstring) : list jsstring := foldr insert_key [] l.

Fixpoint deep_equal (e t : json) {struct e} : bool :=
  if container e && container t then
    if negb (strict_eq (prop e (KStr (js "prototype"))) (prop t (KStr (js "prototype")))) then false
    else if negb (bool_decide (sort_keys (objectKeys e) = sort_keys (objectKeys t))) then false
    else match e with
         | JArr l =>
             (fix elements (l : list json) (i : Z) : bool :=
                match l with
                | [] => true
                | x :: l => deep_equal x (prop t (KStr (number_string i))) && elements l (i + 1)
                end) l 0
         | JObj o => forallb (fun kv => deep_equal (snd kv) (prop t (KStr (fst kv)))) o
         | _ => true
         end
  else strict_eq e t.

(** [void 0 === e] and truth. *)
Definition undefined (e : json) : bool := match e with JUndef => true | _ => false end.
Definition truthy (e : json) : bool :=
  match e with
  | JUndef | JNull => false
  | JBool b => b
  | JNum z => negb (z =? 0)
  | JStr s => negb (bool_decide (s = []))
  | _ => true
  end.

(** ** Operations *)

Inductive opname := Add | Remove | Replace | Move | Copy | Test | Get_ | OtherOp (name : jsstring).

#[export] Instance opname_eq_dec : EqDecision opname.
Proof. solve_decision. Defined.

(** An operation object; a missing path or from is [None], a missing value undefined. *)
Record operation := Operation {
  op : opname;
  path : option jsstring;
  from : option jsstring;
  value : json
}.

(** What an operation gives, with the value that _get finds. *)
Record result := Result {
  newDocument : json;
  removed : json;
  test : option bool;
  index : option key;
  found : json
}.

(** The changed container, and what the method returns beside the document. *)
Record change := Change { holder : json; c_removed : json; c_test : option bool; c_index : option key; c_found : json }.
Definition only (d : json) : change := Change d JUndef None None JUndef.

(** Writing and deleting a property: on a primitive value nothing happens. An assignment to
    [__proto__] that meets no own member changes the object that the members are inherited from, if
    the value is an object or null, and does nothing else. *)
Definition set_prop (d : json) (g : jsstring) (v : json) : pres json :=
  match d with
  | JUndef | JNull => PErr PTypeError
  | JObj o =>
      if bool_decide (g = js "__proto__") && bool_decide (obj_get o g = None) then
        match v with JArr _ | JObj _ | JNull => PErr Outside | _ => POk d end
      else POk (JObj (obj_set o g v))
  | _ => POk d
  end.
Definition delete_prop (d : json) (g : jsstring) : pres json :=
  match d with
  | JUndef | JNull => PErr PTypeError
  | JObj o => POk (JObj (obj_delete o g))
  | _ => POk d
  end.

(** The methods of [u] but move and copy. *)
Definition object_op (n : operation) (d : json) (g : jsstring) : pres change :=
  match op n with
  | Add => let? d := set_prop d g (value n) in POk (only d)
  | Remove =>
      let? r := get_prop d (KStr g) in
      let? d := delete_prop d g in POk (Change d r None None JUndef)
  | Replace =>
      let? r := get_prop d (KStr g) in
      let? d := set_prop d g (value n) in POk (Change d r None None JUndef)
  | Test => let? v := get_prop d (KStr g) in POk (Change d JUndef (Some (deep_equal v (value n))) None JUndef)
  | Get_ => let? v := get_prop d (KStr g) in POk (Change d JUndef None None v)
  | Move | Copy => POk (only d)
  | OtherOp _ => PErr PTypeError
  end.

(** The start of [splice]. *)
Definition splice_start (t len : Z) : Z := if t <? 0 then Z.max (len + t) 0 else Z.min t len.

(** ToInteger of a key that is not all digits: 0 for a text that cannot be a number. *)
Definition key_integer (g : key) : pres Z :=
  match g with
  | KNum z => POk z
  | KStr [] => POk 0
  | KStr (c :: _) => if (65 <=? c) && (c <=? 122) && negb (c =? 73) then POk 0 else PErr Outside
  end.

(** [e[t] = v] on an array. *)
Definition set_element (l : list json) (t : key) (v : json) : pres json :=
  match t with
  | KNum z => if (0 <=? z) && (z <? zlen l) then POk (JArr (zset l z v))
              else if z =? zlen l then POk (JArr (l ++ [v]))
              else PErr Outside
  | KStr _ => PErr Outside
  end.

(** The methods of [s] but move and copy. *)
Definition array_op (n : operation) (l : list json) (t : key) : pres change :=
  match op n with
  | Add =>
      match t with
      | KNum z =>
          let i := Z.to_nat (splice_start z (zlen l)) in
          POk (Change (JArr (take i l ++ value n :: drop i l)) JUndef None (Some t) JUndef)
      | KStr _ => PErr Outside
      end
  | Remove =>
      let? z := key_integer t in
      let i := Z.to_nat (splice_start z (zlen l)) in
      POk (Change (JArr (take i l ++ drop (S i) l)) (default JUndef (l !! i)) None None JUndef)
  | Replace =>
      let? r := get_prop (JArr l) t in
      let? d := set_element l t (value n) in POk (Change d r None None JUndef)
  | Test => let? v := get_prop (JArr l) t in POk (Change (JArr l) JUndef (Some (deep_equal v (value n))) None JUndef)
  | Get_ => let? v := get_prop (JArr l) t in POk (Change (JArr l) JUndef None None v)
  | Move | Copy => POk (only (JArr l))
  | OtherOp _ => PErr PTypeError
  end.

(** ** Pointers *)

(** The integer nearest to [z] among the doubles, for [z] that is not negative. *)
Definition round_double (z : Z) : Z :=
  if z <? 2 ^ 53 then z
  else
    let e := Z.log2 z - 52 in
    let q := z / 2 ^ e in
    let r := z mod 2 ^ e in
    (if (2 ^ (e - 1) <? r) || ((r =? 2 ^ (e - 1)) && Z.odd q) then q + 1 else q) * 2 ^ e.

(** [~~g] for a text of digits. *)
Definition integer_of (g : jsstring) : Z := to_int32 (round_double (digits_value g)).

(** The loop of [applyOperation]: the keys on the way, the container and the last key.
    [strict] is set with a validator, [check] calls it on the part of the path that is
    there, and [m] says that it has been called. *)
Fixpoint resolve (strict : bool) (check : jsstring -> pres unit) (n : operation) (before rest : list jsstring)
    (m : bool) (d : json) : pres (list key * json * key) :=
  match rest with
  | [] => match d with JArr _ => PErr PTypeError | _ => POk ([], d, KStr (js "undefined")) end
  | g :: rest' =>
      let? m := (if strict && negb m then
                   let? v := get_prop d (KStr g) in
                   if undefined v then let? _ := check (join_with [slash] before) in POk true
                   else match rest' with
                        | [] => let? _ := check (default [] (path n)) in POk true
                        | _ => POk false
                        end
                 else POk m) in
      let? k := (match d with
                 | JArr l =>
                     if bool_decide (g = js "-") then POk (KNum (zlen l))
                     else if strict && negb (isInteger g) then PErr (PatchError "OPERATION_PATH_ILLEGAL_ARRAY_INDEX")
                     else POk (if isInteger g then KNum (integer_of g) else KStr g)
                 | _ => POk (KStr (if index_of tilde g =? -1 then g else unescapePathComponent g))
                 end) in
      match rest' with
      | [] =>
          match d, k with
          | JArr l, KNum z =>
              if strict && bool_decide (op n = Add) && (zlen l <? z) then PErr (PatchError "OPERATION_VALUE_OUT_OF_BOUNDS")
              else POk ([], d, k)
          | _, _ => POk ([], d, k)
          end
      | _ =>
          let? v := get_prop d k in
          let? r := resolve strict check n (before ++ [g]) rest' m v in
          let '(ks, c, last) := r in POk (k :: ks, c, last)
      end
  end.

(** The document with another container at the end of the keys. *)
Fixpoint put_at (d : json) (ks : list key) (c : json) : json :=
  match ks with
  | [] => c
  | k :: ks =>
      let child := put_at (prop d k) ks c in
      match d, k with
      | JArr l, KNum z => if container (prop d k) then JArr (zset l z child) else d
      | JObj o, KStr g => if container (prop d k) then JObj (obj_set o g child) else d
      | _, _ => d
      end
  end.

Definition components (n : operation) : list jsstring := split_on slash (default [] (path n)).

(** The operations but move and copy, on a path that is not empty. *)
Definition apply_at (strict : bool) (check : jsstring -> pres unit) (e : json) (n : operation) : pres result :=
  let? r := resolve strict check n (take 1 (components n)) (drop 1 (components n)) false e in
  let '(ks, d, k) := r in
  let? c := (match d, k with
             | JArr l, _ => array_op n l k
             | _, KStr g => object_op n d g
             | _, KNum _ => PErr PTypeError
             end) in
  if bool_decide (c_test c = Some false) then PErr (PatchError "TEST_OPERATION_FAILED")
  else POk (Result (put_at e ks (holder c)) (c_removed c) (c_test c) (c_index c) (c_found c)).

(** An operation without validation that is not move or copy. *)
Definition unchecked (_ : jsstring) : pres unit := POk tt.
Definition apply_simple (e : json) (n : operation) : pres result :=
  if bool_decide (path n = Some []) then
    match op n with
    | Add => POk (Result (value n) JUndef None None JUndef)
    | Replace => POk (Result (value n) e None None JUndef)
    | Test =>
        if deep_equal e (value n) then POk (Result e JUndef (Some true) None JUndef)
        else PErr (PatchError "TEST_OPERATION_FAILED")
    | Remove => POk (Result JNull e None None JUndef)
    | Get_ => POk (Result e JUndef None None e)
    | _ => POk (Result e JUndef None None JUndef)
    end
  else apply_at false unchecked e n.

Definition getValueByPointer (e : json) (t : option jsstring) : pres json :=
  if bool_decide (t = Some []) then POk e
  else let? r := apply_simple e (Operation Get_ t None JUndef) in POk (found r).

(** The methods move and copy. *)
Definition move (n : operation) (e : json) : pres result :=
  let? r := getValueByPointer e (path n) in
  if bool_decide (from n = Some []) then PErr Outside
  else
    let? o := apply_simple e (Operation Remove (from n) None JUndef) in
    let? a := apply_simple (newDocument o) (Operation Add (path n) None (removed o)) in
    POk (Result (newDocument a) (match r with JUndef => JUndef | _ => deepClone r end) None None JUndef).
Definition copy (n : operation) (e : json) : pres result :=
  let? r := getValueByPointer e (from n) in
  let? a := apply_simple e (Operation Add (path n) None (deepClone r)) in
  POk (Result (newDocument a) JUndef None None JUndef).

(** ** The validator *)

(** The checks without a document. *)
Definition validator0 (e : operation) : pres unit :=
  match op e with OtherOp _ => PErr (PatchError "OPERATION_OP_INVALID") | _ =>
  match path e with
  | None => PErr (PatchError "OPERATION_PATH_INVALID")
  | Some p =>
      if match p with [] => false | c :: _ => negb (c =? slash) end then PErr (PatchError "OPERATION_PATH_INVALID")
      else if bool_decide (op e = Move \/ op e = Copy) && bool_decide (from e = None) then PErr (PatchError "OPERATION_FROM_REQUIRED")
      else if bool_decide (op e = Add \/ op e = Replace \/ op e = Test) && undefined (value e)
           then PErr (PatchError "OPERATION_VALUE_REQUIRED")
      else if bool_decide (op e = Add \/ op e = Replace \/ op e = Test) && hasUndefined (value e)
           then PErr (PatchError "OPERATION_VALUE_CANNOT_CONTAIN_UNDEFINED")
      else POk tt
  end end.

(** The path of _get, replace and remove is there. *)
Definition check_exists (e : operation) (m : jsstring) : pres unit :=
  if bool_decide (path e = Some m) then POk tt else PErr (PatchError "OPERATION_PATH_UNRESOLVABLE").

(** [validate] of a _get on the document: the error it returns, if any. *)
Definition validate_get (doc : json) (t : option jsstring) : pres (option string) :=
  let n := Operation Get_ t None JUndef in
  match (let? _ := validator0 n in
         if bool_decide (t = Some []) then POk tt
         else let? _ := apply_at true (check_exists n) (deepClone doc) n in POk tt) with
  | POk _ => POk None
  | PErr (PatchError name) => POk (Some name)
  | PErr e => PErr e
  end.

(** The checks with a document and the part [m] of the path that is there. *)
Definition validator (e : operation) (doc : json) (m : jsstring) : pres unit :=
  let? _ := validator0 e in
  if negb (truthy doc) then POk tt else
  match op e with
  | Add =>
      let i := length (components e) in
      let s := length (split_on slash m) in
      if negb (i =? s + 1)%nat && negb (i =? s)%nat then PErr (PatchError "OPERATION_PATH_CANNOT_ADD") else POk tt
  | Replace | Remove | Get_ => check_exists e m
  | Move | Copy =>
      let? l := validate_get doc (from e) in
      if bool_decide (l = Some "OPERATION_PATH_UNRESOLVABLE"%string) then PErr (PatchError "OPERATION_FROM_UNRESOLVABLE") else POk tt
  | _ => POk tt
  end.

(** ** applyOperation and applyPatch *)

Definition applyOperation (e : json) (n : operation) (validate mutate : bool) : pres result :=
  let? _ := (if validate then validator0 n else POk tt) in
  if bool_decide (path n = Some []) then
    match op n with
    | Move => let? v := getValueByPointer e (from n) in POk (Result v e None None JUndef)
    | Copy => let? v := getValueByPointer e (from n) in POk (Result v JUndef None None JUndef)
    | _ => apply_simple e n
    end
  else
    let e := if mutate then e else deepClone e in
    let check := if validate then validator n e else unchecked in
    let? r := apply_at validate check e n in
    match op n with
    | Move => move n e
    | Copy => copy n e
    | _ => POk r
    end.

Fixpoint apply_all (e : json) (n : list operation) (validate : bool) : pres (json * list result) :=
  match n with
  | [] => POk (e, [])
  | o :: n =>
      let? r := applyOperation e o validate true in
      let? er := apply_all (newDocument r) n validate in
      let '(e, rs) := er in POk (e, r :: rs)
  end.
Definition applyPatch (e : json) (n : list operation) (validate mutate : bool) : pres (json * list result) :=
  apply_all (if mutate then e else deepClone e) n validate.

Definition applyReducer (e : json) (n : operation) : pres json :=
  let? r := applyOperation e n false true in POk (newDocument r).

(** [validate] with a document: the error, if any. *)
Definition validate (ops : list operation) (doc : json) : pres (option string) :=
  match applyPatch (deepClone doc) ops true true with
  | POk _ => POk None
  | PErr (PatchError name) => POk (Some name)
  | PErr e => PErr e
  end.

(** ** compare *)

(** [hasOwnProperty]. *)
Definition own (d : json) (k : jsstring) : bool := bool_decide (k ∈ objectKeys d).

Definition path_to (o : jsstring) (p : jsstring) : jsstring := o ++ slash :: escapePathComponent p.
Definition operation_at (o : opname) (p : jsstring) (v : json) : operation := Operation o (Some p) None v.

(** The differences of the entry of [e] at the key [p] with [t]: the operations, and
    whether the entry is removed. *)
Definition compare_entry (rec : json -> json -> jsstring -> list operation) (t : json) (o p : jsstring) (l : json) : list operation * bool :=
  let c := prop t (KStr p) in
  if negb (own t p) || (undefined c && negb (undefined l) && match t with JArr _ => false | _ => true end)
  then ([operation_at Remove (path_to o p) JUndef], true)
  else if container l && container c then (rec l c (path_to o p), false)
  else (if strict_eq l c then [] else [operation_at Replace (path_to o p) (deepClone c)], false).

(** The additions of the keys of [t] that [e] has not. *)
Definition additions (e t : json) (o : jsstring) : list operation :=
  flat_map (fun p => if own e p || undefined (prop t (KStr p)) then []
                     else [operation_at Add (path_to o p) (deepClone (prop t (KStr p)))]) (objectKeys t).

(** [_generate]: from the last key of [e] to the first, then the additions. *)
Fixpoint generate (e t : json) (o : jsstring) {struct e} : list operation :=
  let rs :=
    match e with
    | JArr l =>
        (fix entries (l : list json) (i : Z) : list (list operation * bool) :=
           match l with
           | [] => []
           | x :: l => compare_entry (fun _ c o => generate x c o) t o (number_string i) x :: entries l (i + 1)
           end) l 0
    | JObj ob => map (fun kv => compare_entry (fun _ c o => generate (snd kv) c o) t o (fst kv) (snd kv)) ob
    | JStr s => map (fun n => compare_entry (fun _ _ _ => []) t o (number_string (Z.of_nat n)) (prop e (KNum (Z.of_nat n)))) (seq 0 (length s))
    | _ => []
    end in
  flat_map fst (List.rev rs) ++
  (if existsb snd rs || negb (length (objectKeys t) =? length (objectKeys e))%nat then additions e t o else []).

Definition compare (e t : json) : pres (list operation) :=
  if strict_eq e t then POk []
  else match e, t with
       | _, (JUndef | JNull) | (JUndef | JNull), _ => PErr PTypeError
       | _, _ => POk (generate e t [])
       end.

End JsonPatch.
