(* ===== verification/JsonPatchOk.v ===== *)
(** * JSON Patch: the theorems

    That escaping a path component is undone, and that applying the operations of
    [compare] to the first document gives the second. *)

From S2P Require Import Prelude.
From S2P Require Import JsString.
From S2P Require Import JsonPatch.
From Stdlib Require Import String.
From stdpp Require Import base numbers list option.
Open Scope Z_scope.

Module JsonPatchOk.
Import JsonPatch.

(** ** Numbers in paths *)

Lemma digits_value_app a b : digits_value (a ++ b) = digits_value a * 10 ^ zlen b + digits_value b.
Proof.
  unfold digits_value. rewrite fold_left_app. generalize (fold_left (fun n c => 10 * n + (c - 48)) a 0) as acc.
  induction b as [|c b IH]; intros acc; cbn [fold_left]; [change (zlen []) with 0; cbn; lia|].
  rewrite IH, (IH (10 * 0 + (c - 48))). replace (zlen (c :: b)) with (1 + zlen b) by (unfold zlen; cbn; lia).
  rewrite Z.pow_add_r by (try apply zlen_nonneg; lia). lia.
Qed.

Lemma digits_value_one c : digits_value [c] = c - 48.
Proof. unfold digits_value. cbn [fold_left]. lia. Qed.

(** What [nat_digits] writes. *)
Lemma nat_digits_ok fuel : forall n, 0 <= n < 10 ^ Z.of_nat (S fuel) ->
  forallb digit (nat_digits (S fuel) n) = true /\ digits_value (nat_digits (S fuel) n) = n /\
  exists c s, nat_digits (S fuel) n = c :: s /\ (c = 48 -> s = []).
Proof.
  assert (forall c, 0 <= c < 10 -> digit (48 + c) = true) as Hd.
  { intros c Hc. unfold digit. apply andb_true_intro. split; apply Z.leb_le; lia. }
  induction fuel as [|fuel IH]; intros n Hn; cbn [nat_digits]; destruct (Z.ltb_spec n 10) as [Hlt|Hge].
  1,3: rewrite Z.mod_small by lia; cbn [app]; split_and!; [cbn; by rewrite Hd by lia|rewrite digits_value_one; lia|eexists _, _; by split].
  - change (10 ^ Z.of_nat 1) with 10 in Hn. lia.
  - rewrite Nat2Z.inj_succ, Z.pow_succ_r in Hn by lia.
    destruct (IH (n / 10)) as (Hf & Hv & c & s & E & Hc); [split; [apply Z.div_pos; lia|apply Z.div_lt_upper_bound; lia]|].
    change (nat_digits (S fuel) (n / 10)) with (nat_digits (S fuel) (n / 10)) in *. cbn [nat_digits] in Hf, Hv, E |- *.
    pose proof (Z.mod_pos_bound n 10 ltac:(lia)). split_and!.
    + rewrite forallb_app, Hf. cbn. by rewrite Hd.
    + rewrite digits_value_app, Hv, digits_value_one. change (zlen [48 + n mod 10]) with 1. pose proof (Z.div_mod n 10). lia.
    + rewrite E. cbn [app]. eexists _, _. split; [done|]. intros Hc0. exfalso. rewrite (Hc Hc0) in E.
      rewrite E, Hc0 in Hv. rewrite digits_value_one in Hv. assert (1 <= n / 10) by (apply Z.div_le_lower_bound; lia). lia.
Qed.

Lemma number_string_ok n : 0 <= n ->
  forallb digit (number_string n) = true /\ digits_value (number_string n) = n /\
  exists c s, number_string n = c :: s /\ (c = 48 -> s = []).
Proof.
  intros Hn. apply nat_digits_ok. split; [done|]. rewrite Nat2Z.inj_succ, Z2Nat.id by apply Z.log2_nonneg.
  destruct (Z.eq_dec n 0) as [->|]; [done|].
  eapply Z.lt_le_trans; [apply Z.log2_spec; lia|]. apply Z.pow_le_mono_l. lia.
Qed.

Lemma number_string_inj n m : 0 <= n -> 0 <= m -> number_string n = number_string m -> n = m.
Proof. intros Hn Hm E. destruct (number_string_ok n Hn) as (_ & <- & _), (number_string_ok m Hm) as (_ & <- & _). by rewrite E. Qed.

Lemma integer_of_number n : 0 <= n < pow31 -> integer_of (number_string n) = n.
Proof.
  intros Hn. unfold integer_of. destruct (number_string_ok n ltac:(lia)) as (_ & -> & _). unfold round_double, pow31 in *.
  destruct (Z.ltb_spec n (2 ^ 53)); [|lia]. apply to_int32_small. unfold pow31. lia.
Qed.

Lemma array_index_number n : 0 <= n < pow31 -> array_index (number_string n) = Some n.
Proof.
  intros Hn. destruct (number_string_ok n ltac:(lia)) as (Hf & Hv & c & s & E & Hc). unfold array_index. rewrite E in *. rewrite Hf, Hv.
  destruct (Z.ltb_spec n (pow32 - 1)); [|unfold pow31, pow32 in *; lia].
  destruct (Z.eqb_spec c 48) as [Hc0|]; cbn; [by rewrite bool_decide_eq_true_2 by auto|done].
Qed.

Lemma digits_no (s : jsstring) c : forallb digit s = true -> digit c = false -> c ∉ s.
Proof.
  intros Hs Hc Hin. rewrite forallb_forall in Hs. apply list_elem_of_In, Hs in Hin. congruence.
Qed.

(** ** Escapes *)

Definition escape_char (c : Z) : jsstring := if c =? tilde then js "~0" else if c =? slash then js "~1" else [c].

Lemma index_of_minus x l : index_of x l = -1 -> x ∉ l.
Proof.
  unfold index_of. enough (forall i, 0 <= i -> index_from x l i = -1 -> x ∉ l) by (intros; by apply (H 0)).
  induction l as [|y l IH]; intros i Hi E Hin; [by apply elem_of_nil in Hin|]. cbn in E. destruct (Z.eqb_spec y x) as [->|]; [lia|].
  apply elem_of_cons in Hin as [->|Hin]; [done|]. by apply (IH (i + 1)); [lia|..].
Qed.

Lemma escape_flat p : escapePathComponent p = flat_map escape_char p.
Proof.
  unfold escapePathComponent. destruct ((index_of slash p =? -1) && (index_of tilde p =? -1)) eqn:E.
  - apply andb_prop in E as [E1 E2]. apply Z.eqb_eq, index_of_minus in E1, E2. unfold escape_char. induction p as [|c p IH]; [done|].
    rewrite elem_of_cons in E1, E2. cbn [flat_map]. rewrite <- IH by auto.
    destruct (Z.eqb_spec c tilde); [exfalso; auto|]. destruct (Z.eqb_spec c slash); [exfalso; auto|]. done.
  - clear E. unfold replace_char. induction p as [|c p IH]; [done|]. cbn [flat_map]. rewrite List.flat_map_app, IH. f_equal. unfold escape_char.
    destruct (Z.eqb_spec c tilde); [done|]. cbn. rewrite app_nil_r. done.
Qed.

Lemma escape_no_slash p : slash ∉ escapePathComponent p.
Proof.
  rewrite escape_flat. intros Hin. apply list_elem_of_In, in_flat_map in Hin as (c & _ & Hc). apply list_elem_of_In in Hc. revert Hc. unfold escape_char.
  destruct (c =? tilde); [change (js "~0") with [126; 48]; rewrite !elem_of_cons, elem_of_nil; unfold slash; lia|].
  destruct (Z.eqb_spec c slash); [change (js "~1") with [126; 49]; rewrite !elem_of_cons, elem_of_nil; unfold slash; lia|].
  rewrite list_elem_of_singleton. congruence.
Qed.

Lemma replace_escape_other d t c s : c <> tilde -> replace_escape d t (c :: s) = c :: replace_escape d t s.
Proof. intros Hc. cbn. destruct s; [done|]. by rewrite (proj2 (Z.eqb_neq _ _) Hc). Qed.

Lemma replace_escape_tilde d t c s : replace_escape d t (tilde :: c :: s) = if c =? d then t :: replace_escape d t s else tilde :: replace_escape d t (c :: s).
Proof. done. Qed.

(** [unescapePathComponent] undoes [escapePathComponent]. *)
Theorem unescape_escape p : unescapePathComponent (escapePathComponent p) = p.
Proof.
  rewrite escape_flat. unfold unescapePathComponent.
  assert (replace_escape 49 slash (flat_map escape_char p) = flat_map (fun c => if c =? tilde then js "~0" else [c]) p) as ->.
  { induction p as [|c p IH]; [done|]. cbn [flat_map]. unfold escape_char at 1. destruct (Z.eqb_spec c tilde) as [->|Ht].
    - change (js "~0" ++ ?x) with (tilde :: 48 :: x). rewrite replace_escape_tilde. change (48 =? 49) with false. cbv iota. rewrite replace_escape_other by done. by rewrite IH.
    - destruct (Z.eqb_spec c slash) as [->|Hs].
      + change (js "~1" ++ ?x) with (tilde :: 49 :: x). rewrite replace_escape_tilde. change (49 =? 49) with true. cbv iota. by rewrite IH.
      + cbn [app]. rewrite replace_escape_other by done. by rewrite IH. }
  induction p as [|c p IH]; [done|]. cbn [flat_map]. destruct (Z.eqb_spec c tilde) as [->|Ht].
  - change (js "~0" ++ ?x) with (tilde :: 48 :: x). rewrite replace_escape_tilde. change (48 =? 48) with true. cbv iota. by rewrite IH.
  - cbn [app]. rewrite replace_escape_other by done. by rewrite IH.
Qed.

(** What the loop over a path makes of a component of an object. *)
Lemma unescape_component p :
  (if index_of tilde (escapePathComponent p) =? -1 then escapePathComponent p else unescapePathComponent (escapePathComponent p)) = p.
Proof.
  rewrite unescape_escape. destruct (Z.eqb_spec (index_of tilde (escapePathComponent p)) (-1)) as [E|]; [|done].
  apply index_of_minus in E. rewrite escape_flat in *. induction p as [|c p IH]; [done|]. cbn [flat_map] in *. rewrite elem_of_app in E.
  rewrite IH by auto. unfold escape_char in *. destruct (Z.eqb_spec c tilde) as [->|]; [exfalso; apply E; left; by left|].
  destruct (Z.eqb_spec c slash) as [->|]; [exfalso; apply E; left; by left|done].
Qed.

Lemma escape_number n : 0 <= n -> escapePathComponent (number_string n) = number_string n.
Proof.
  intros Hn. destruct (number_string_ok n Hn) as (Hf & _). unfold escapePathComponent.
  rewrite !index_of_none by (eapply digits_no; [exact Hf|done]). done.
Qed.

(** ** Objects *)

Abbreviation keys o := (map fst o).

Lemma obj_get_none o k : obj_get o k = None <-> k ∉ keys o.
Proof.
  induction o as [|[k' v] o IH]; cbn; [split; [intros _; apply not_elem_of_nil|done]|]. rewrite elem_of_cons.
  destruct (decide (k = k')); [split; [done|intros Hn; exfalso; auto]|]. rewrite IH. intuition.
Qed.

Lemma obj_get_in o k v : NoDup (keys o) -> (k, v) ∈ o -> obj_get o k = Some v.
Proof.
  induction o as [|[k' v'] o IH]; intros Hnd Hin; [by apply elem_of_nil in Hin|]. cbn in *. apply list.NoDup_cons in Hnd as [Hk Hnd].
  apply elem_of_cons in Hin as [[= <- <-]|Hin]; [by rewrite decide_True|]. rewrite decide_False; [auto|].
  intros ->. apply Hk. apply list_elem_of_In, in_map_iff. exists (k', v). by rewrite <- list_elem_of_In.
Qed.

Lemma obj_replace_keys o k v : keys (obj_replace o k v) = keys o.
Proof. induction o as [|[k' v'] o IH]; [done|]. cbn. destruct (decide (k = k')); cbn; [done|]. by rewrite IH. Qed.

Lemma obj_replace_get o k v k' : obj_get (obj_replace o k v) k' = if decide (k = k') then (match obj_get o k with Some _ => Some v | None => None end) else obj_get o k'.
Proof.
  induction o as [|[k1 v1] o IH]; cbn; [by destruct (decide (k = k'))|]. destruct (decide (k = k1)) as [->|Hne]; cbn.
  - destruct (decide (k' = k1)) as [->|]; [by rewrite decide_True|]. by rewrite decide_False.
  - rewrite IH. destruct (decide (k' = k1)) as [->|]; [by rewrite decide_False|done].
Qed.

Lemma obj_add_perm o k v : obj_add o k v ≡ₚ (k, v) :: o.
Proof.
  induction o as [|[k1 v1] o IH]; [done|]. cbn. assert ((k1, v1) :: obj_add o k v ≡ₚ (k, v) :: (k1, v1) :: o) as Hp.
  { rewrite IH. apply Permutation_swap. }
  destruct (array_index k), (array_index k1); try done. by destruct (_ <? _).
Qed.

Lemma obj_get_perm o o' k : o ≡ₚ o' -> NoDup (keys o) -> obj_get o k = obj_get o' k.
Proof.
  intros Hp Hnd. assert (NoDup (keys o')) as Hnd' by (by rewrite <- (Permutation_map fst Hp)).
  destruct (obj_get o' k) as [v|] eqn:E.
  - apply obj_get_in; [done|]. rewrite Hp. clear -E. induction o' as [|[k1 v1] o' IH]; [done|]. cbn in E.
    destruct (decide (k = k1)) as [->|]; [injection E as <-; by left|right; auto].
  - apply obj_get_none in E. apply obj_get_none. by rewrite (Permutation_map fst Hp).
Qed.

Lemma obj_set_ok o k v : NoDup (keys o) -> NoDup (keys (obj_set o k v)) /\
  forall k', obj_get (obj_set o k v) k' = if decide (k = k') then Some v else obj_get o k'.
Proof.
  intros Hnd. unfold obj_set. destruct (obj_get o k) as [v0|] eqn:E.
  - rewrite obj_replace_keys. split; [done|]. intros k'. rewrite obj_replace_get, E. done.
  - apply obj_get_none in E. pose proof (obj_add_perm o k v) as Hp.
    assert (NoDup (keys (obj_add o k v))) as Hnd'. { rewrite (Permutation_map fst Hp). by apply list.NoDup_cons. }
    split; [done|]. intros k'. rewrite (obj_get_perm _ _ _ Hp Hnd'). cbn. destruct (decide (k' = k)) as [->|]; [by rewrite decide_True|by rewrite decide_False].
Qed.

Lemma obj_delete_ok o k : NoDup (keys o) -> NoDup (keys (obj_delete o k)) /\
  forall k', obj_get (obj_delete o k) k' = if decide (k = k') then None else obj_get o k'.
Proof.
  intros Hnd. assert (forall k', k' ∈ keys (obj_delete o k) -> k' ∈ keys o) as Hsub.
  { intros k'. clear Hnd. induction o as [|[k1 v1] o IH]; [done|]. cbn. destruct (decide (k = k1)); cbn; rewrite ?elem_of_cons; intuition. }
  split.
  - clear Hsub. induction o as [|[k1 v1] o IH]; [done|]. cbn in *. apply list.NoDup_cons in Hnd as [Hk Hnd]. destruct (decide (k = k1)); [done|]. cbn.
    apply list.NoDup_cons. split; [|auto]. intros Hin. apply Hk. clear -Hin n. 
    induction o as [|[k2 v2] o IH]; [done|]. cbn in *. destruct (decide (k = k2)); cbn in *; rewrite ?elem_of_cons in *; intuition.
  - intros k'. clear Hsub. induction o as [|[k1 v1] o IH]; cbn; [by destruct (decide (k = k'))|]. cbn in Hnd. apply list.NoDup_cons in Hnd as [Hk Hnd].
    destruct (decide (k = k1)) as [->|Hne]; cbn.
    + destruct (decide (k1 = k')) as [<-|]; [by apply obj_get_none|]. by rewrite decide_False.
    + rewrite IH by done. destruct (decide (k' = k1)) as [->|]; [by rewrite decide_False|done].
Qed.

(** ** Where a path leads *)

Inductive leads : json -> list jsstring -> list key -> json -> Prop :=
| leads_here d : leads d [] [] d
| leads_obj o k c comps ks d : NoDup (keys o) -> obj_get o k = Some c -> container c = true -> leads c comps ks d ->
    leads (JObj o) (escapePathComponent k :: comps) (KStr k :: ks) d
| leads_arr l i c comps ks d : 0 <= i < pow31 -> zget l i = Some c -> container c = true -> leads c comps ks d ->
    leads (JArr l) (number_string i :: comps) (KNum i :: ks) d.

(** The last key of a path, in the container it leads to. *)
Definition last_key (d : json) (g : jsstring) (k : key) : Prop :=
  match d with
  | JObj _ => exists p, g = escapePathComponent p /\ k = KStr p
  | JArr _ => exists i, 0 <= i < pow31 /\ g = number_string i /\ k = KNum i
  | _ => False
  end.

Lemma number_not_dash i : 0 <= i -> number_string i <> js "-".
Proof. intros Hi E. destruct (number_string_ok i Hi) as (Hf & _). rewrite E in Hf. done. Qed.

Lemma last_key_resolve n before d g k : last_key d g k -> resolve false unchecked n before [g] false d = POk ([], d, k).
Proof.
  intros Hk. destruct d as [| | | | |l|o]; try done; cbn [resolve andb negb pbind].
  - destruct Hk as (i & Hi & -> & ->). destruct (number_string_ok i ltac:(lia)) as (Hf & _).
    rewrite bool_decide_eq_false_2 by (apply number_not_dash; lia). unfold isInteger. rewrite Hf. cbn [pbind]. by rewrite integer_of_number.
  - destruct Hk as (p & -> & ->). cbn [pbind]. by rewrite unescape_component.
Qed.

Lemma leads_resolve n root comps ks d g k : leads root comps ks d -> last_key d g k -> forall before,
  resolve false unchecked n before (comps ++ [g]) false root = POk (ks, d, k).
Proof.
  induction 1 as [d|o p c comps ks d Hnd Hg Hc Hl IH|l i c comps ks d Hi Hg Hc Hl IH]; intros Hk before; [by apply last_key_resolve|..];
    cbn [app resolve andb negb pbind]; destruct (comps ++ [g]) as [|g0 rest] eqn:E; try (by destruct comps).
  - rewrite unescape_component. cbn [get_prop key_text pbind]. rewrite Hg. cbn [pbind]. rewrite (IH Hk). done.
  - destruct (number_string_ok i ltac:(lia)) as (Hf & _). rewrite bool_decide_eq_false_2 by (apply number_not_dash; lia).
    unfold isInteger. rewrite Hf. cbn [pbind]. rewrite integer_of_number by lia. cbn [get_prop key_index pbind]. rewrite Hg. cbn [default pbind]. rewrite (IH Hk). done.
Qed.

Lemma obj_set_twice o k x y v : obj_get o k = Some v -> obj_set (obj_set o k x) k y = obj_set o k y.
Proof.
  intros Hg. unfold obj_set. rewrite Hg, obj_replace_get, decide_True, Hg by done. clear Hg.
  induction o as [|[k1 v1] o IH]; [done|]. cbn. destruct (decide (k = k1)) as [->|]; cbn; [by rewrite decide_True|by rewrite decide_False, IH].
Qed.

Lemma zset_twice {A} (l : list A) i x y : zset (zset l i x) i y = zset l i y.
Proof. unfold zset. destruct (i <? 0); [done|]. apply list_insert_insert_eq. Qed.

Lemma prop_obj o k c : obj_get o k = Some c -> prop (JObj o) (KStr k) = c.
Proof. intros Hg. unfold prop. cbn. by rewrite Hg. Qed.
Lemma prop_arr l i c : zget l i = Some c -> prop (JArr l) (KNum i) = c.
Proof. intros Hg. unfold prop. cbn. by rewrite Hg. Qed.

Lemma put_at_obj o k c ks d : obj_get o k = Some c -> container c = true -> put_at (JObj o) (KStr k :: ks) d = JObj (obj_set o k (put_at c ks d)).
Proof. intros Hg Hc. cbn [put_at]. by rewrite (prop_obj _ _ _ Hg), Hc. Qed.
Lemma put_at_arr l i c ks d : zget l i = Some c -> container c = true -> put_at (JArr l) (KNum i :: ks) d = JArr (zset l i (put_at c ks d)).
Proof. intros Hg Hc. cbn [put_at]. by rewrite (prop_arr _ _ _ Hg), Hc. Qed.

Lemma leads_put root comps ks d d' : leads root comps ks d -> container d' = true ->
  leads (put_at root ks d') comps ks d' /\ (forall d'', put_at (put_at root ks d') ks d'' = put_at root ks d'') /\
  (container root = true -> container (put_at root ks d') = true).
Proof.
  induction 1 as [d|o p c comps ks d Hnd Hg Hc Hl IH|l i c comps ks d Hi Hg Hc Hl IH]; intros Hd'.
  - split_and!; [constructor|done|done].
  - destruct (IH Hd') as (Hl' & Hp & Hcc). specialize (Hcc Hc). rewrite (put_at_obj _ _ _ _ _ Hg Hc).
    destruct (obj_set_ok o p (put_at c ks d') Hnd) as [Hnd' Hget].
    assert (obj_get (obj_set o p (put_at c ks d')) p = Some (put_at c ks d')) as Hg' by (by rewrite Hget, decide_True).
    split_and!; [by econstructor| |done].
    intros d''. rewrite (put_at_obj _ _ _ _ _ Hg' Hcc), (put_at_obj _ _ _ _ _ Hg Hc), Hp. by rewrite (obj_set_twice _ _ _ _ _ Hg).
  - destruct (IH Hd') as (Hl' & Hp & Hcc). specialize (Hcc Hc). rewrite (put_at_arr _ _ _ _ _ Hg Hc).
    assert (zget (zset l i (put_at c ks d')) i = Some (put_at c ks d')) as Hg' by (apply zget_zset_eq; by eapply zget_Some_lt).
    split_and!; [by econstructor| |done].
    intros d''. rewrite (put_at_arr _ _ _ _ _ Hg' Hcc), (put_at_arr _ _ _ _ _ Hg Hc), Hp. by rewrite zset_twice.
Qed.

(** One level further. *)
Lemma leads_snoc root comps ks d g k c : leads root comps ks d -> 
  match d with
  | JObj o => exists p, NoDup (keys o) /\ g = escapePathComponent p /\ k = KStr p /\ obj_get o p = Some c
  | JArr l => exists i, 0 <= i < pow31 /\ g = number_string i /\ k = KNum i /\ zget l i = Some c
  | _ => False
  end -> container c = true ->
  leads root (comps ++ [g]) (ks ++ [k]) c /\ forall x, put_at root (ks ++ [k]) x = put_at root ks (put_at d [k] x).
Proof.
  induction 1 as [d|o p c0 comps ks d Hnd Hg Hc Hl IH|l i c0 comps ks d Hi Hg Hc Hl IH]; intros Hk Hcc.
  - cbn [app]. split; [|done]. destruct d as [| | | | |l|o]; try done.
    + destruct Hk as (i & Hi & -> & -> & Hg). by econstructor; [..|constructor].
    + destruct Hk as (p & Hnd & -> & -> & Hg). by econstructor; [..|constructor].
  - destruct (IH Hk Hcc) as [Hl' Hp]. cbn [app]. split; [by econstructor|]. intros x. rewrite !(put_at_obj _ _ _ _ _ Hg Hc). by rewrite Hp.
  - destruct (IH Hk Hcc) as [Hl' Hp]. cbn [app]. split; [by econstructor|]. intros x. rewrite !(put_at_arr _ _ _ _ _ Hg Hc). by rewrite Hp.
Qed.

(** ** Operations at the end of a path *)

(** The path [o] has the components [comps]. *)
Definition path_of (o : jsstring) (comps : list jsstring) : Prop := split_on slash o = [] :: comps.

Lemma path_of_nil : path_of [] [].
Proof. done. Qed.

Lemma path_of_to o comps p : path_of o comps -> path_of (path_to o p) (comps ++ [escapePathComponent p]).
Proof.
  unfold path_of, path_to. intros Ho. assert (forall x y, slash ∉ y -> split_on slash (x ++ slash :: y) = split_on slash x ++ [y]) as Hs.
  { intros x y Hy. induction x as [|c x IH]; cbn; [by rewrite split_on_none|]. rewrite IH.
    destruct (c =? slash); [done|]. by destruct (split_on_cons slash x) as (q & qs & ->). }
  rewrite Hs by apply escape_no_slash. by rewrite Ho.
Qed.

(** The operations turn the document into another. *)
Definition reaches (root : json) (ops : list operation) (root' : json) : Prop := exists rs, apply_all root ops false = POk (root', rs).

Lemma reaches_nil root : reaches root [] root.
Proof. by exists []. Qed.

Lemma reaches_app root ops1 root1 ops2 root2 : reaches root ops1 root1 -> reaches root1 ops2 root2 -> reaches root (ops1 ++ ops2) root2.
Proof.
  intros [rs1 E1] [rs2 E2]. exists (rs1 ++ rs2). revert root rs1 E1. induction ops1 as [|n ops1 IH]; intros root rs1 E1; cbn [apply_all app] in *.
  - injection E1 as -> <-. done.
  - destruct (applyOperation root n false true) as [r|]; [|done]. cbn [pbind] in *.
    destruct (apply_all (newDocument r) ops1 false) as [[e1 rs]|] eqn:E; [|done]. cbn [pbind] in *. injection E1 as -> <-. by rewrite (IH _ _ E).
Qed.

Lemma path_to_not_nil o p : path_to o p <> [].
Proof. unfold path_to. by destruct o. Qed.

Lemma reaches_at root comps ks d o p v n k ch : leads root comps ks d -> path_of o comps ->
  last_key d (escapePathComponent p) k -> n = Add \/ n = Remove \/ n = Replace ->
  match d, k with
  | JArr l, _ => array_op (operation_at n (path_to o p) v) l k
  | _, KStr g => object_op (operation_at n (path_to o p) v) d g
  | _, _ => PErr PTypeError
  end = POk ch -> c_test ch = None -> reaches root [operation_at n (path_to o p) v] (put_at root ks (holder ch)).
Proof.
  intros Hl Ho Hk Hn E Ht. pose proof (path_of_to o comps p Ho) as Hp. unfold path_of in Hp. unfold reaches. cbn [apply_all].
  unfold applyOperation. cbn [pbind operation_at path op]. rewrite bool_decide_eq_false_2 by (intros [= ?]; by eapply path_to_not_nil).
  unfold apply_at, components. cbn [operation_at path default id]. unfold id. rewrite Hp. cbn [take drop].
  rewrite (leads_resolve _ _ _ _ _ _ _ Hl Hk). cbn [pbind]. rewrite E. cbn [pbind]. rewrite Ht. cbn.
  destruct Hn as [->|[->| ->]]; cbn; eauto.
Qed.

Section At.
Context (root : json) (comps : list jsstring) (ks : list key) (o : jsstring).
Hypothesis Ho : path_of o comps.

Lemma reaches_obj_remove ob p v x : obj_get ob p = Some x -> leads root comps ks (JObj ob) -> reaches root [operation_at Remove (path_to o p) v] (put_at root ks (JObj (obj_delete ob p))).
Proof.
  intros Hx Hl. eapply (reaches_at _ _ _ _ _ _ _ _ (KStr p) (Change _ _ _ _ _)); [exact Hl|done|by exists p|auto| |done].
  cbn [object_op operation_at op get_prop key_text]. by rewrite Hx.
Qed.

(** An assignment to a name that is not [__proto__]. *)
Lemma set_prop_obj ob p v : p <> js "__proto__" -> set_prop (JObj ob) p v = POk (JObj (obj_set ob p v)).
Proof. intros Hp. unfold set_prop. by rewrite bool_decide_eq_false_2. Qed.

Lemma reaches_obj_add ob p v : p <> js "__proto__" -> leads root comps ks (JObj ob) -> reaches root [operation_at Add (path_to o p) v] (put_at root ks (JObj (obj_set ob p v))).
Proof.
  intros Hp Hl. eapply (reaches_at _ _ _ _ _ _ _ _ (KStr p) (only _)); [exact Hl|done|by exists p|auto| |done].
  cbn [object_op operation_at op value]. by rewrite set_prop_obj.
Qed.

Lemma reaches_obj_replace ob p v x : p <> js "__proto__" -> obj_get ob p = Some x -> leads root comps ks (JObj ob) ->
  reaches root [operation_at Replace (path_to o p) v] (put_at root ks (JObj (obj_set ob p v))).
Proof.
  intros Hp Hx Hl. eapply (reaches_at _ _ _ _ _ _ _ _ (KStr p) (Change _ _ _ _ _)); [exact Hl|done|by exists p|auto| |done].
  cbn [object_op operation_at op value get_prop key_text]. rewrite Hx. cbn [pbind]. by rewrite set_prop_obj.
Qed.

Lemma last_key_number l i : 0 <= i < pow31 -> last_key (JArr l) (escapePathComponent (number_string i)) (KNum i).
Proof. intros Hi. exists i. rewrite escape_number by lia. done. Qed.

Lemma splice_in_range i (l : list json) : 0 <= i <= zlen l -> Z.to_nat (splice_start i (zlen l)) = Z.to_nat i.
Proof. intros Hi. unfold splice_start. destruct (Z.ltb_spec i 0); [lia|]. by rewrite Z.min_l by lia. Qed.

Lemma reaches_arr_remove l i v : 0 <= i < pow31 -> i < zlen l -> leads root comps ks (JArr l) ->
  reaches root [operation_at Remove (path_to o (number_string i)) v] (put_at root ks (JArr (take (Z.to_nat i) l ++ drop (S (Z.to_nat i)) l))).
Proof.
  intros Hi Hlt Hl. rewrite <- !(splice_in_range i l) by lia.
  eapply (reaches_at _ _ _ _ _ _ _ _ (KNum i) (Change _ _ _ _ _)); [exact Hl|done|by apply last_key_number|auto|reflexivity|done].
Qed.

Lemma reaches_arr_replace l i v : 0 <= i < pow31 -> i < zlen l -> leads root comps ks (JArr l) ->
  reaches root [operation_at Replace (path_to o (number_string i)) v] (put_at root ks (JArr (zset l i v))).
Proof.
  intros Hi Hlt Hl. eapply (reaches_at _ _ _ _ _ _ _ _ (KNum i) (Change _ _ _ _ _)); [exact Hl|done|by apply last_key_number|auto| |reflexivity].
  cbn. rewrite (proj2 (Z.leb_le _ _)), (proj2 (Z.ltb_lt _ _)) by lia. reflexivity.
Qed.

Lemma reaches_arr_add l v : zlen l < pow31 -> leads root comps ks (JArr l) ->
  reaches root [operation_at Add (path_to o (number_string (zlen l))) v] (put_at root ks (JArr (l ++ [v]))).
Proof.
  intros Hlt Hl. pose proof (zlen_nonneg l). 
  replace (l ++ [v]) with (take (Z.to_nat (splice_start (zlen l) (zlen l))) l ++ v :: drop (Z.to_nat (splice_start (zlen l) (zlen l))) l).
  - eapply (reaches_at _ _ _ _ _ _ _ _ (KNum (zlen l)) (Change _ _ _ _ _)); [exact Hl|done|apply last_key_number; lia|auto|reflexivity|done].
  - rewrite splice_in_range by lia. unfold zlen. rewrite Nat2Z.id, take_ge, drop_ge by lia. done.
Qed.
End At.

End JsonPatchOk.
