(* ===== verification/JsonPatchCompare.v ===== *)
(** * Comparing and patching

    The patch that [compare] makes of two documents turns the first into the second:
    by induction on the first document, one entry of a container at a time. *)

From S2P Require Import Prelude.
From S2P Require Import JsString.
From S2P Require Import JsonPatch.
From S2P Require Import JsonPatchOk.
From Stdlib Require Import String.
From stdpp Require Import base numbers list option.
Open Scope Z_scope.

Module JsonPatchCompare.
Import JsonPatch.
Import JsonPatchOk.

(** ** Documents that can be compared *)

(** A document as JSON has it: no undefined, the keys of an object distinct and none of them
    [__proto__], and the elements of an array counted by an int32. *)
Fixpoint clean (d : json) : bool :=
  match d with
  | JUndef => false
  | JArr l => (zlen l <? pow31) && forallb clean l
  | JObj o => bool_decide (NoDup (map fst o)) && bool_decide (js "__proto__" ∉ map fst o) && forallb (fun kv => clean (snd kv)) o
  | _ => true
  end.

(** Nowhere is an array in one where an object is in the other. *)
Fixpoint same_kinds (a b : json) {struct a} : bool :=
  match a, b with
  | JArr l, JArr m =>
      (fix elements (l m : list json) : bool :=
         match l, m with
         | x :: l, y :: m => same_kinds x y && elements l m
         | _, _ => true
         end) l m
  | JObj o, JObj o' => forallb (fun kv => match obj_get o' (fst kv) with Some y => same_kinds (snd kv) y | None => true end) o
  | JArr _, JObj _ | JObj _, JArr _ => false
  | _, _ => true
  end.

(** The same document, up to the order of the keys. *)
Inductive alike : json -> json -> Prop :=
| alike_same d : alike d d
| alike_arr l m : Forall2 alike l m -> alike (JArr l) (JArr m)
| alike_obj o o' : (forall k, option_Forall2 alike (obj_get o k) (obj_get o' k)) -> alike (JObj o) (JObj o').

Section Induction.
Context (P : json -> Prop).
Hypothesis Hscalar : forall d, container d = false -> P d.
Hypothesis Harr : forall l, Forall P l -> P (JArr l).
Hypothesis Hobj : forall o, Forall (fun kv => P (snd kv)) o -> P (JObj o).

(** Induction on the entries of a document. *)
Fixpoint json_tree (d : json) : P d :=
  match d with
  | JArr l => Harr l ((fix all l : Forall P l :=
      match l with [] => List.Forall_nil _ | x :: l => List.Forall_cons _ _ _ (json_tree x) (all l) end) l)
  | JObj o => Hobj o ((fix all o : Forall (fun kv => P (snd kv)) o :=
      match o with [] => List.Forall_nil _ | kv :: o => List.Forall_cons _ _ _ (json_tree (snd kv)) (all o) end) o)
  | d => Hscalar d eq_refl
  end.
End Induction.

Lemma clean_arr l : clean (JArr l) = true <-> zlen l < pow31 /\ Forall (fun x => clean x = true) l.
Proof. cbn. rewrite andb_true_iff, Z.ltb_lt, forallb_forall, List.Forall_forall. done. Qed.

Lemma clean_obj o : clean (JObj o) = true <-> (NoDup (keys o) /\ js "__proto__" ∉ keys o) /\ Forall (fun kv => clean (snd kv) = true) o.
Proof. cbn [clean]. rewrite !andb_true_iff, !bool_decide_eq_true, forallb_forall, List.Forall_forall. done. Qed.

Lemma clean_defined d : clean d = true -> undefined d = false.
Proof. by destruct d. Qed.

Lemma json_copy_clean d : clean d = true -> json_copy d = d.
Proof.
  induction d as [d Hd|l IH|o IH] using json_tree; [by destruct d| |].
  - rewrite clean_arr. intros [_ Hc]. cbn. f_equal. revert IH Hc. induction l as [|x l IHl]; intros IH Hc; [done|].
    inversion IH; inversion Hc; subst. cbn. f_equal; [destruct x; auto; done|auto].
  - rewrite clean_obj. intros [_ Hc]. cbn. f_equal. revert IH Hc. induction o as [|[k x] o IHo]; intros IH Hc; [done|].
    inversion IH as [|?? H1 H2]; inversion Hc as [|?? H3 H4]; subst. cbn in *. rewrite (IHo H2 H4). destruct x; try done; by rewrite (H1 H3).
Qed.

Lemma deepClone_clean d : clean d = true -> deepClone d = d.
Proof. intros Hc. rewrite <- (json_copy_clean d Hc) at 2. by destruct d. Qed.

Lemma obj_get_clean o k v : clean (JObj o) = true -> obj_get o k = Some v -> clean v = true.
Proof.
  rewrite clean_obj. intros [_ Hc]. induction o as [|[k' v'] o IH]; [done|]. inversion Hc; subst. cbn.
  destruct (decide _); [by intros [= <-]|auto].
Qed.

(** The names of the members are free for an assignment. *)
Lemma clean_key o k v : clean (JObj o) = true -> obj_get o k = Some v -> k <> js "__proto__".
Proof. rewrite clean_obj. intros [[_ Hp] _] Hg ->. by rewrite (proj2 (obj_get_none o _)) in Hg. Qed.

Lemma strict_eq_same a b : strict_eq a b = true -> a = b.
Proof. destruct a, b; cbn; try done; intros E; f_equal; [by apply Bool.eqb_prop|by apply Z.eqb_eq|by eapply bool_decide_eq_true]. Qed.

Lemma leads_same root comps ks d : leads root comps ks d -> put_at root ks d = root.
Proof.
  induction 1 as [d|o p c comps ks d Hnd Hg Hc Hl IH|l i c comps ks d Hi Hg Hc Hl IH]; [done| |].
  - rewrite (put_at_obj _ _ _ _ _ Hg Hc), IH. f_equal. unfold obj_set. rewrite Hg. clear -Hg.
    induction o as [|[k v] o IHo]; [done|]. cbn in *. destruct (decide (p = k)); [by injection Hg as ->|by rewrite IHo].
  - rewrite (put_at_arr _ _ _ _ _ Hg Hc), IH. f_equal. unfold zset, zget in *. destruct (i <? 0); [done|by apply list_insert_id].
Qed.

(** ** One container *)

(** The patch from [a] to any [b] of its kind, at any place, makes [b] of [a] there. *)
Definition patched (a : json) : Prop := forall b root comps ks o,
  clean a = true -> clean b = true -> same_kinds a b = true -> container a = true -> container b = true ->
  path_of o comps -> leads root comps ks a ->
  exists b', reaches root (generate a b o) (put_at root ks b') /\ alike b' b /\ container b' = true.

(** A step at a place followed by one at the same place. *)
Lemma reaches_then root comps ks d d1 ops1 ops2 (Q : json -> Prop) : leads root comps ks d -> container d1 = true ->
  reaches root ops1 (put_at root ks d1) ->
  (forall root1, leads root1 comps ks d1 -> exists d2, reaches root1 ops2 (put_at root1 ks d2) /\ Q d2) ->
  exists d2, reaches root (ops1 ++ ops2) (put_at root ks d2) /\ Q d2.
Proof.
  intros Hl Hd H1 H2. destruct (leads_put _ _ _ _ d1 Hl Hd) as (Hl1 & Hp & _). destruct (H2 _ Hl1) as (d2 & Hr & HQ).
  exists d2. split; [|done]. rewrite Hp in Hr. by eapply reaches_app.
Qed.

(** The additions are left out only where there are none. *)
Lemma additions_none e t o : NoDup (objectKeys e) -> (forall k, k ∈ objectKeys e -> own t k = true) -> length (objectKeys t) = length (objectKeys e) -> additions e t o = [].
Proof.
  intros Hnd Hsub Hlen. unfold additions. assert (forall k, k ∈ objectKeys t -> own e k = true) as Hsup.
  { intros k Hk. apply bool_decide_eq_true, list_elem_of_In. apply (List.NoDup_length_incl (l := objectKeys e) (l' := objectKeys t)).
    - by apply NoDup_ListNoDup.
    - by rewrite Hlen.
    - intros k' Hk'. apply list_elem_of_In. eapply bool_decide_eq_true, Hsub. by apply list_elem_of_In.
    - by apply list_elem_of_In. }
  induction (objectKeys t) as [|k l IH] in Hsup |- *; [done|]. cbn. rewrite Hsup by (by apply elem_of_cons; left). cbn.
  apply IH. intros k' Hk'. apply Hsup. by apply elem_of_cons; right.
Qed.

Section Container.
Context (comps : list jsstring) (ks : list key) (o : jsstring).
Hypothesis Ho : path_of o comps.

Section Objects.
Context (bo : list (jsstring * json)).
Hypothesis Hb : clean (JObj bo) = true.

Definition obj_entry (k : jsstring) (x : json) : list operation * bool := compare_entry (fun _ c o => generate x c o) (JObj bo) o k x.

Lemma obj_entry_removed k x : snd (obj_entry k x) = negb (own (JObj bo) k).
Proof.
  unfold obj_entry, compare_entry, own. cbn [objectKeys]. destruct (obj_get bo k) as [y|] eqn:E.
  - rewrite (prop_obj _ _ _ E). rewrite bool_decide_eq_true_2. 2: { destruct (decide (k ∈ keys bo)); [done|]. by rewrite (proj2 (obj_get_none bo k)) in E. }
    rewrite (clean_defined y) by (by eapply obj_get_clean). cbn [negb orb andb]. by destruct (container x && container y).
  - rewrite bool_decide_eq_false_2 by (by apply obj_get_none). done.
Qed.

(** The operations of an entry give it its value in [bo], and keep the others. *)
Lemma obj_entry_ok root cur k x : NoDup (keys cur) -> leads root comps ks (JObj cur) -> obj_get cur k = Some x ->
  patched x -> clean x = true -> (forall y, obj_get bo k = Some y -> same_kinds x y = true) ->
  exists cur', reaches root (fst (obj_entry k x)) (put_at root ks (JObj cur')) /\ NoDup (keys cur') /\
    option_Forall2 alike (obj_get cur' k) (obj_get bo k) /\ forall k', k <> k' -> obj_get cur' k' = obj_get cur k'.
Proof.
  intros Hnd Hl Hg Hx Hcx Hkx. unfold obj_entry, compare_entry, own. cbn [objectKeys].
  destruct (obj_get bo k) as [y|] eqn:E.
  2: { rewrite bool_decide_eq_false_2 by (by apply obj_get_none). cbn. exists (obj_delete cur k).
       destruct (obj_delete_ok cur k Hnd) as [Hnd' Hget]. split_and!; [by eapply (reaches_obj_remove root comps ks o Ho cur k _ x)|done| |].
       - rewrite Hget, decide_True by done. constructor.
       - intros k' Hk. by rewrite Hget, decide_False. }
  assert (clean y = true) as Hcy by (by eapply obj_get_clean).
  rewrite bool_decide_eq_true_2. 2: { destruct (decide (k ∈ keys bo)); [done|]. by rewrite (proj2 (obj_get_none bo k)) in E. }
  rewrite (prop_obj _ _ _ E), (clean_defined y) by done. cbn [negb orb andb].
  assert (forall v, alike v y -> NoDup (keys (obj_set cur k v)) /\ option_Forall2 alike (obj_get (obj_set cur k v) k) (Some y) /\
    forall k', k <> k' -> obj_get (obj_set cur k v) k' = obj_get cur k') as Hset.
  { intros v Hv. destruct (obj_set_ok cur k v Hnd) as [Hnd' Hget]. split_and!; [done| |].
    - rewrite Hget, decide_True by done. by constructor.
    - intros k' Hk. by rewrite Hget, decide_False. }
  destruct (container x && container y) eqn:Ec; cbn [fst].
  - apply andb_true_iff in Ec as [Ecx Ecy].
    destruct (leads_snoc root comps ks (JObj cur) (escapePathComponent k) (KStr k) x Hl) as [Hl' Hp]; [by exists k|done|].
    destruct (Hx y root _ _ _ Hcx Hcy (Hkx _ eq_refl) Ecx Ecy (path_of_to _ _ k Ho) Hl') as (y' & Hr & Ha & _).
    exists (obj_set cur k y'). split; [|by apply Hset]. rewrite Hp, (put_at_obj _ _ _ _ _ Hg Ecx) in Hr. done.
  - destruct (strict_eq x y) eqn:Es.
    + apply strict_eq_same in Es as ->. exists cur. rewrite (leads_same _ _ _ _ Hl), Hg. split_and!; [apply reaches_nil|done|by repeat constructor|done].
    + exists (obj_set cur k y). rewrite deepClone_clean by done. split; [by eapply (reaches_obj_replace root comps ks o Ho cur k y x (clean_key _ _ _ Hb E))|]. apply Hset. constructor.
Qed.

Lemma obj_entries_ok es : NoDup (keys es) ->
  Forall (fun kv => patched (snd kv) /\ clean (snd kv) = true /\ forall y, obj_get bo (fst kv) = Some y -> same_kinds (snd kv) y = true) es ->
  forall root cur, NoDup (keys cur) -> leads root comps ks (JObj cur) -> Forall (fun kv => obj_get cur (fst kv) = Some (snd kv)) es ->
  exists d, reaches root (flat_map fst (map (fun kv => obj_entry (fst kv) (snd kv)) es)) (put_at root ks d) /\
    exists cur', d = JObj cur' /\ NoDup (keys cur') /\
      forall k, if decide (k ∈ keys es) then option_Forall2 alike (obj_get cur' k) (obj_get bo k) else obj_get cur' k = obj_get cur k.
Proof.
  induction es as [|[k x] es IH]; intros Hnd He root cur Hc Hl Hcur.
  - exists (JObj cur). rewrite (leads_same _ _ _ _ Hl). split; [apply reaches_nil|]. exists cur. done.
  - cbn in Hnd. apply list.NoDup_cons in Hnd as [Hk Hnd]. inversion He as [|?? (H1 & H2 & H3) He']; inversion Hcur as [|?? H4 Hcur']; subst. cbn in *.
    destruct (obj_entry_ok root cur k x Hc Hl H4 H1 H2 H3) as (c1 & Hr & Hc1 & Hk1 & Hother).
    eapply reaches_then; [exact Hl| |exact Hr|]; [done|]. intros root1 Hl1.
    destruct (IH Hnd He' root1 c1 Hc1 Hl1) as (d & Hr2 & c2 & -> & Hc2 & Hget).
    { rewrite List.Forall_forall in Hcur' |- *. intros [k' v'] Hin. rewrite Hother; [by apply (Hcur' (k', v'))|].
      cbn. intros <-. apply Hk. apply list_elem_of_In, in_map_iff. by exists (k, v'). }
    exists (JObj c2). split; [done|]. exists c2. split_and!; [done..|]. intros k'. specialize (Hget k').
    destruct (decide (k' ∈ keys es)) as [Hin|Hin].
    + by rewrite decide_True by (by apply elem_of_cons; right).
    + destruct (decide (k = k')) as [<-|Hne]; [rewrite decide_True by (by apply elem_of_cons; left); by rewrite Hget|].
      rewrite decide_False by (rewrite elem_of_cons; intuition). rewrite Hget. auto.
Qed.

Lemma obj_additions_ok a ps : Forall (fun p => is_Some (obj_get bo p)) ps -> forall root cur, NoDup (keys cur) -> leads root comps ks (JObj cur) ->
  exists d, reaches root (flat_map (fun p => if own a p || undefined (prop (JObj bo) (KStr p)) then []
                     else [operation_at Add (path_to o p) (deepClone (prop (JObj bo) (KStr p)))]) ps) (put_at root ks d) /\
    exists cur', d = JObj cur' /\ forall k, if bool_decide (k ∈ ps) && negb (own a k) then obj_get cur' k = obj_get bo k else obj_get cur' k = obj_get cur k.
Proof.
  induction ps as [|p ps IH]; intros Hps root cur Hc Hl; cbn [flat_map].
  - exists (JObj cur). rewrite (leads_same _ _ _ _ Hl). split; [apply reaches_nil|]. by exists cur.
  - inversion Hps as [|?? [y E] Hps']; subst. rewrite (prop_obj _ _ _ E). assert (clean y = true) as Hy by (by eapply obj_get_clean).
    rewrite (clean_defined y), orb_false_r, deepClone_clean by done. destruct (own a p) eqn:Eo.
    + destruct (IH Hps' root cur Hc Hl) as (d & Hr & c2 & -> & Hget). exists (JObj c2). split; [done|]. exists c2. split; [done|].
      intros k. specialize (Hget k). destruct (decide (k = p)) as [->|Hne]; [by rewrite Eo, andb_false_r in *|].
      by rewrite (bool_decide_ext (k ∈ p :: ps) (k ∈ ps)) by (rewrite elem_of_cons; split; [by intros [->|?]|by right]).
    + destruct (obj_set_ok cur p y Hc) as [Hc1 Hget1]. eapply reaches_then; [exact Hl| |by apply (reaches_obj_add root comps ks o Ho cur p y (clean_key _ _ _ Hb E))|]; [done|].
      intros root1 Hl1. destruct (IH Hps' root1 _ Hc1 Hl1) as (d & Hr & c2 & -> & Hget). exists (JObj c2). split; [done|]. exists c2. split; [done|].
      intros k. specialize (Hget k). rewrite Hget1 in Hget. destruct (decide (p = k)) as [<-|Hne].
      * rewrite bool_decide_eq_true_2 by (by apply elem_of_cons; left). rewrite Eo in *. cbn.
        destruct (bool_decide (p ∈ ps)); [done|]. cbn in Hget. by rewrite Hget.
      * by rewrite (bool_decide_ext (k ∈ p :: ps) (k ∈ ps)) by (rewrite elem_of_cons; split; [by intros [->|?]|by right]).
Qed.

End Objects.
Section Arrays.
Context (m : list json).
Hypothesis Hm : clean (JArr m) = true.

Definition arr_entry (i : Z) (x : json) : list operation * bool := compare_entry (fun _ c o => generate x c o) (JArr m) o (number_string i) x.

Lemma own_arr l i : 0 <= i -> own (JArr l) (number_string i) = (i <? zlen l).
Proof.
  intros Hi. unfold own. cbn [objectKeys]. apply eq_true_iff_eq. rewrite bool_decide_eq_true, list_elem_of_In, in_map_iff, Z.ltb_lt. unfold zlen. split.
  - intros (n & E & Hn). apply in_seq in Hn. apply number_string_inj in E; lia.
  - intros Hlt. exists (Z.to_nat i). rewrite in_seq, Z2Nat.id by lia. split; [done|lia].
Qed.

Lemma prop_number l i : 0 <= i < pow31 -> prop (JArr l) (KStr (number_string i)) = default JUndef (zget l i).
Proof. intros Hi. unfold prop. cbn [get_prop key_index]. by rewrite array_index_number. Qed.

Lemma arr_entry_removed i x : 0 <= i < pow31 -> snd (arr_entry i x) = negb (own (JArr m) (number_string i)).
Proof.
  intros Hi. unfold arr_entry, compare_entry. rewrite andb_false_r, orb_false_r. destruct (own _ _); [|done]. cbn [negb].
  by destruct (_ && _).
Qed.

(** The operations of the element after [l]: removed, or given its value in [m]. *)
Lemma arr_entry_ok root l x T : zlen (l ++ x :: T) < pow31 -> leads root comps ks (JArr (l ++ x :: T)) ->
  patched x -> clean x = true -> (forall y, m !! length l = Some y -> same_kinds x y = true) -> (m !! length l = None -> T = []) ->
  exists x', reaches root (fst (arr_entry (zlen l) x)) (put_at root ks (JArr (l ++ x' ++ T))) /\
    match m !! length l with Some y => exists v, x' = [v] /\ alike v y | None => x' = [] end.
Proof.
  intros Hlen Hl Hx Hcx Hkx HT. pose proof (zlen_nonneg l). rewrite zlen_app, zlen_cons in Hlen. pose proof (zlen_nonneg T).
  assert (zget m (zlen l) = m !! length l) as Hg by apply zget_nat.
  unfold arr_entry, compare_entry. rewrite own_arr, prop_number, Hg, andb_false_r, orb_false_r by lia.
  destruct (m !! length l) as [y|] eqn:E; cbn [default].
  2: { rewrite (HT eq_refl) in *. rewrite (proj2 (Z.ltb_ge _ _)) by (apply lookup_ge_None in E; unfold zlen; lia). cbn [negb fst]. exists [].
       split; [|done]. replace (l ++ [] ++ []) with (take (Z.to_nat (zlen l)) (l ++ [x]) ++ drop (S (Z.to_nat (zlen l))) (l ++ [x])).
       - eapply reaches_arr_remove; [done|lia| |done]. rewrite zlen_app, zlen_cons. lia.
       - unfold zlen. rewrite Nat2Z.id, take_app_length, drop_ge by (rewrite length_app; cbn; lia). done. }
  rewrite (proj2 (Z.ltb_lt _ _)) by (apply lookup_lt_Some in E; unfold zlen; lia). cbn [negb]. unfold id.
  assert (clean y = true) as Hcy. { apply clean_arr in Hm as [_ Hm']. by eapply list.Forall_lookup_1 in Hm'. }
  assert (zget (l ++ x :: T) (zlen l) = Some x) as Hgx. { unfold zlen. rewrite zget_nat. by apply list_lookup_middle. }
  assert (forall v, zset (l ++ x :: T) (zlen l) v = l ++ [v] ++ T) as Hset.
  { intros v. unfold zset. destruct (Z.ltb_spec (zlen l) 0); [lia|]. unfold zlen. rewrite Nat2Z.id. by rewrite insert_app_r_alt, Nat.sub_diag by lia. }
  destruct (container x && container y) eqn:Ec; cbn [fst].
  - apply andb_true_iff in Ec as [Ecx Ecy].
    destruct (leads_snoc root comps ks (JArr (l ++ x :: T)) (number_string (zlen l)) (KNum (zlen l)) x Hl) as [Hl' Hp]; [exists (zlen l); split_and!; [lia..|done|done|done]|done|].
    pose proof (path_of_to _ _ (number_string (zlen l)) Ho) as Ho'. rewrite escape_number in Ho' by lia.
    destruct (Hx y root _ _ _ Hcx Hcy (Hkx _ eq_refl) Ecx Ecy Ho' Hl') as (y' & Hr & Ha & _).
    exists [y']. split; [|by exists y']. rewrite Hp, (put_at_arr _ _ _ _ _ Hgx Ecx), Hset in Hr. done.
  - destruct (strict_eq x y) eqn:Es.
    + apply strict_eq_same in Es as ->. exists [y]. cbn [app]. rewrite (leads_same _ _ _ _ Hl). split; [apply reaches_nil|]. exists y. split; [done|constructor].
    + exists [y]. rewrite deepClone_clean by done. split; [|exists y; split; [done|constructor]]. rewrite <- Hset.
      eapply reaches_arr_replace; [done|lia| |done]. rewrite zlen_app, zlen_cons. lia.
Qed.
Fixpoint arr_entries (l : list json) (i : Z) : list (list operation * bool) :=
  match l with
  | [] => []
  | x :: l => arr_entry i x :: arr_entries l (i + 1)
  end.

Lemma arr_entries_snoc l x : forall i, arr_entries (l ++ [x]) i = arr_entries l i ++ [arr_entry (i + zlen l) x].
Proof.
  induction l as [|y l IH]; intros i; cbn [arr_entries app]; [by rewrite Z.add_0_r|]. rewrite IH, zlen_cons. by rewrite Z.add_assoc.
Qed.

Lemma arr_entries_removed l : forall i, 0 <= i -> i + zlen l < pow31 ->
  map snd (arr_entries l i) = map (fun n => negb (own (JArr m) (number_string (i + Z.of_nat n)))) (seq 0 (length l)).
Proof.
  induction l as [|x l IH]; intros i Hi Hlen; [done|]. rewrite zlen_cons in Hlen. pose proof (zlen_nonneg l).
  cbn [arr_entries map length seq]. rewrite arr_entry_removed, IH, <- seq_shift, map_map, Z.add_0_r by lia. f_equal. apply map_ext. intros n. by rewrite Nat2Z.inj_succ, <- Z.add_1_l, Z.add_assoc.
Qed.

(** The elements of [l], the last first: what is left is alike to the beginning of [m]. *)
Lemma arr_entries_ok n l : (length l <= n)%nat -> forall root T, zlen (l ++ T) < pow31 -> leads root comps ks (JArr (l ++ T)) ->
  Forall (fun x => patched x /\ clean x = true) l -> (forall i x y, l !! i = Some x -> m !! i = Some y -> same_kinds x y = true) ->
  Forall2 alike T (drop (length l) (take n m)) ->
  exists d, reaches root (flat_map fst (List.rev (arr_entries l 0))) (put_at root ks d) /\ exists r, d = JArr r /\ Forall2 alike r (take n m).
Proof.
  induction l as [|x l IH] using rev_ind; intros Hn root T Hlen Hl Hx Hk HT.
  - cbn [app] in Hl. exists (JArr T). rewrite (leads_same _ _ _ _ Hl). split; [apply reaches_nil|]. by exists T.
  - rewrite arr_entries_snoc, rev_app_distr, Z.add_0_l. cbn [List.rev app flat_map]. rewrite <- app_assoc in Hl, Hlen. cbn [app] in Hl, Hlen.
    rewrite length_app in Hn, HT. cbn [length] in Hn, HT. rewrite Nat.add_1_r in HT. apply Forall_app in Hx as [Hxl Hx]. inversion Hx as [|?? [H1 H2] _]; subst.
    destruct (arr_entry_ok root l x T Hlen Hl H1 H2) as (x' & Hr & Hx').
    { intros y Hy. eapply Hk; [|exact Hy]. by apply list_lookup_middle. }
    { intros E. rewrite drop_ge in HT; [by inversion HT|]. rewrite length_take. apply lookup_ge_None in E. lia. }
    eapply reaches_then; [exact Hl| |exact Hr|]; [done|]. intros root1 Hl1. eapply IH; [lia| |done|done| |].
    + revert Hlen. rewrite !zlen_app, zlen_cons. destruct (m !! length l); [destruct Hx' as (v & -> & _); change (zlen [v]) with 1|rewrite Hx'; change (zlen (@nil json)) with 0]; lia.
    + intros i z y Hi Hy. eapply Hk; [|exact Hy]. by apply lookup_app_l_Some.
    + destruct (m !! length l) as [y|] eqn:E.
      * destruct Hx' as (v & -> & Hv). rewrite (drop_S _ y) by (rewrite lookup_take_lt; [done|lia]). by constructor.
      * rewrite Hx', drop_ge in *; [done|..]; rewrite length_take; apply lookup_ge_None in E; lia.
Qed.

(** The elements of [m] after those of an array of [n] are added in order. *)
Lemma arr_additions_ok a n rest : zlen a = Z.of_nat n -> forall r root, (n <= length r)%nat -> drop (length r) m = rest -> leads root comps ks (JArr r) ->
  reaches root (flat_map (fun p => if own (JArr a) p || undefined (prop (JArr m) (KStr p)) then []
                     else [operation_at Add (path_to o p) (deepClone (prop (JArr m) (KStr p)))])
                  (map (fun n => number_string (Z.of_nat n)) (seq (length r) (length rest)))) (put_at root ks (JArr (r ++ rest))).
Proof.
  intros Hn. pose proof (proj1 (clean_arr m) Hm) as [Hlen Hc]. induction rest as [|y rest IH]; intros r root Hr Hd Hl.
  - rewrite app_nil_r, (leads_same _ _ _ _ Hl). apply reaches_nil.
  - assert (m !! length r = Some y) as Hy. { rewrite <- (Nat.add_0_r (length r)), <- lookup_drop, Hd. done. }
    assert (zlen r < pow31) as Hlr. { apply lookup_lt_Some in Hy. unfold zlen in *. lia. }
    assert (clean y = true) as Hcy by (by eapply list.Forall_lookup_1 in Hc).
    cbn [length seq map flat_map]. rewrite own_arr, prop_number, zget_nat, Hy by (unfold zlen in *; lia).
    cbn [default]. unfold id. rewrite (proj2 (Z.ltb_ge _ _)), (clean_defined y), deepClone_clean by (done || lia). cbn [orb].
    destruct (leads_put _ _ _ _ (JArr (r ++ [y])) Hl eq_refl) as (Hl1 & Hp & _).
    eapply reaches_app; [by eapply reaches_arr_add|]. rewrite <- (Hp (JArr (r ++ y :: rest))).
    replace (r ++ y :: rest) with ((r ++ [y]) ++ rest) by (by rewrite <- app_assoc). replace (S (length r)) with (length (r ++ [y])) by (rewrite length_app; cbn; lia).
    apply IH; [rewrite length_app; lia| |done]. rewrite length_app. cbn. rewrite <- drop_drop, Hd. done.
Qed.
End Arrays.
End Container.

(** The additions of the last step, whether or not they are looked for. *)
Lemma generate_additions e t o (rs : list (list operation * bool)) : NoDup (objectKeys e) -> map snd rs = map (fun k => negb (own t k)) (objectKeys e) ->
  (if existsb snd rs || negb (length (objectKeys t) =? length (objectKeys e))%nat then additions e t o else []) = additions e t o.
Proof.
  intros Hnd Hrs. destruct (existsb snd rs) eqn:Ex; [done|]. destruct (Nat.eqb_spec (length (objectKeys t)) (length (objectKeys e))) as [E|]; [|done].
  cbn. rewrite additions_none; [done|done| |done]. intros k Hk. destruct (own t k) eqn:Eo; [done|]. exfalso.
  enough (existsb snd rs = true) by congruence. apply existsb_exists.
  assert (In true (map snd rs)) as Hin. { rewrite Hrs. apply in_map_iff. exists k. by rewrite Eo, <- list_elem_of_In. }
  apply in_map_iff in Hin as (r & E1 & Hin). by exists r.
Qed.

Lemma patched_obj ao : Forall (fun kv => patched (snd kv)) ao -> patched (JObj ao).
Proof.
  intros IH b root comps ks o Ha Hb Hs _ Hcb Ho Hl. destruct b as [| | | | |l|bo]; try done. pose proof (proj1 (clean_obj ao) Ha) as [[Hnd _] Hca].
  change (generate (JObj ao) (JObj bo) o) with (let rs := map (fun kv => obj_entry o bo (fst kv) (snd kv)) ao in flat_map fst (List.rev rs) ++
    (if existsb snd rs || negb (length (objectKeys (JObj bo)) =? length (objectKeys (JObj ao)))%nat then additions (JObj ao) (JObj bo) o else [])).
  cbv zeta. rewrite generate_additions; [|done|].
  2: { rewrite map_map. cbn [objectKeys]. rewrite map_map. apply map_ext. intros kv. by apply obj_entry_removed. }
  rewrite <- map_rev. pose proof (Permutation_rev ao) as Hperm.
  destruct (obj_entries_ok comps ks o Ho bo Hb (List.rev ao)) with (root := root) (cur := ao) as (d & Hr & c1 & -> & Hc1 & Hget); [| |done|done| |].
  - by rewrite <- Hperm.
  - rewrite <- Hperm. cbn in Hs. rewrite forallb_forall in Hs. rewrite List.Forall_forall in IH, Hca |- *.
    intros kv Hin. split_and!; [by apply IH|by apply Hca|]. intros y Hy. specialize (Hs kv Hin). by rewrite Hy in Hs.
  - rewrite <- Hperm. apply List.Forall_forall. intros [k v] Hin. by apply obj_get_in, list_elem_of_In.
  - eapply reaches_then; [exact Hl| |exact Hr|]; [done|]. intros root1 Hl1.
    destruct (obj_additions_ok comps ks o Ho bo Hb (JObj ao) (objectKeys (JObj bo))) with (root := root1) (cur := c1) as (d & Hr2 & c2 & -> & Hget2); [|done|done|].
    { apply list.Forall_forall. intros p Hp. destruct (obj_get bo p) eqn:E; [by eexists|]. by apply obj_get_none in E. }
    exists (JObj c2). split_and!; [done| |done]. constructor. intros k. specialize (Hget k). specialize (Hget2 k). unfold own in Hget2. cbn [objectKeys] in Hget2.
    assert (k ∈ keys (List.rev ao) <-> k ∈ keys ao) as Hk by (by rewrite <- Hperm).
    destruct (decide (k ∈ keys (List.rev ao))) as [Hin|Hin]; rewrite Hk in Hin.
    + rewrite (bool_decide_eq_true_2 _ Hin), andb_false_r in Hget2. by rewrite Hget2.
    + rewrite (bool_decide_eq_false_2 _ Hin), andb_true_r in Hget2. case_bool_decide as Hin2; rewrite Hget2.
      * destruct (obj_get bo k); repeat constructor.
      * apply obj_get_none in Hin, Hin2. rewrite Hget, Hin, Hin2. constructor.
Qed.

Lemma same_kinds_arr l : forall m i x y, same_kinds (JArr l) (JArr m) = true -> l !! i = Some x -> m !! i = Some y -> same_kinds x y = true.
Proof.
  induction l as [|x l IH]; intros m i x' y Hs Hi Hy; [done|]. destruct m as [|y' m]; [done|]. cbn in Hs. apply andb_true_iff in Hs as [H1 H2].
  destruct i as [|i]; cbn in *; [by injection Hi as <-; injection Hy as <-|]. by apply (IH m i).
Qed.

Lemma patched_arr l : Forall patched l -> patched (JArr l).
Proof.
  intros IH b root comps ks o Ha Hb Hs _ Hcb Ho Hl. destruct b as [| | | | |m|]; try done. pose proof (proj1 (clean_arr l) Ha) as [Hlen Hca].
  assert (generate (JArr l) (JArr m) o = let rs := arr_entries o m l 0 in flat_map fst (List.rev rs) ++
    (if existsb snd rs || negb (length (objectKeys (JArr m)) =? length (objectKeys (JArr l)))%nat then additions (JArr l) (JArr m) o else [])) as -> by done.
  cbv zeta. rewrite generate_additions.
  2: { cbn [objectKeys]. apply NoDup_fmap_2_strong; [|apply NoDup_seq]. intros x y _ _ E. apply number_string_inj in E; lia. }
  2: { rewrite arr_entries_removed by lia. cbn [objectKeys]. by rewrite map_map. }
  destruct (arr_entries_ok comps ks o Ho m Hb (length l) l) with (root := root) (T := @nil json) as (d & Hr & r & -> & Hall); rewrite ?app_nil_r; [done..| | | |].
  - by apply List.Forall_and.
  - intros i x y. by apply same_kinds_arr.
  - rewrite drop_ge by (rewrite length_take; lia). constructor.
  - eapply reaches_then; [exact Hl| |exact Hr|]; [done|]. intros root1 Hl1. pose proof (Forall2_length Hall) as Hrl. rewrite length_take in Hrl.
    destruct (decide (length l <= length m)%nat) as [Hle|Hgt].
    + exists (JArr (r ++ drop (length r) m)). split_and!; [| |done].
      * unfold additions. cbn [objectKeys]. replace (length m) with (length r + length (drop (length r) m))%nat at 1 by (rewrite length_drop; lia).
        rewrite seq_app, map_app, flat_map_app. rewrite (flat_map_nil _ (map _ (seq 0 (length r)))).
        -- eapply arr_additions_ok; [done..|lia|done|done].
        -- intros p Hp. apply in_map_iff in Hp as (i & <- & Hi). apply in_seq in Hi. rewrite own_arr by lia. by rewrite (proj2 (Z.ltb_lt _ _)) by (unfold zlen; lia).
      * constructor. rewrite <- (take_drop (length r) m) at 2. apply Forall2_app; [replace (length r) with (length l) by lia; done|].
        apply Forall_Forall2_diag, List.Forall_forall. constructor.
    + exists (JArr r). rewrite (leads_same _ _ _ _ Hl1). split_and!; [| |done].
      * unfold additions. cbn [objectKeys]. rewrite flat_map_nil; [apply reaches_nil|]. intros p Hp. apply in_map_iff in Hp as (i & <- & Hi). apply in_seq in Hi.
        rewrite own_arr by lia. by rewrite (proj2 (Z.ltb_lt _ _)) by (unfold zlen; lia).
      * constructor. by rewrite take_ge in Hall by lia.
Qed.

Lemma patched_all a : patched a.
Proof.
  induction a as [d Hd|l IH|ob IH] using json_tree; [|by apply patched_arr|by apply patched_obj].
  intros b root comps ks o _ _ _ Hc. congruence.
Qed.

(** ** The round trip *)

(** C14: the patch that compare makes of two JSON documents, both arrays or objects and nowhere an
    array in one where the other has an object, applies without an error, in place or on a copy,
    and makes the second of the first, up to the order of keys. No key is [__proto__], and arrays
    have fewer than 2^31 elements. *)
Theorem compare_patch a b mutate : clean a = true -> clean b = true -> same_kinds a b = true -> container a = true -> container b = true ->
  exists ops b' rs, compare a b = POk ops /\ applyPatch a ops false mutate = POk (b', rs) /\ alike b' b.
Proof.
  intros Ha Hb Hs Hca Hcb. destruct (patched_all a b a [] [] [] Ha Hb Hs Hca Hcb path_of_nil (leads_here a)) as (b' & [rs Hr] & Hal & _).
  exists (generate a b []), b', rs. split_and!; [by destruct a, b| |done].
  unfold applyPatch. rewrite deepClone_clean by done. by destruct mutate.
Qed.

Definition before_patch : json := JObj [(js "a/b", JArr [JNum 1; JObj [(js "x", JNull)]; JNum 3]); (js "c", JNum 1)].
Definition after_patch : json := JObj [(js "~", JStr (js "y")); (js "a/b", JArr [JNum 2; JObj [(js "x", JBool true); (js "z", JArr [])]])].

Lemma compare_patch_witness : exists ops b' rs, compare before_patch after_patch = POk ops /\ applyPatch before_patch ops false true = POk (b', rs) /\ alike b' after_patch.
Proof. exact (compare_patch before_patch after_patch true eq_refl eq_refl eq_refl eq_refl eq_refl). Defined.

(** What compare and the operations do not do: an array is not told from an object with its keys, nor one number from
    another at the root; a key that is no index removes the first element of an array; a path with an escape is not found when
    it is validated; and the patch that adds a number under the key [__proto__] adds nothing. *)
Theorem patch_defects :
  compare (JObj [(js "a", JArr [JNum 1])]) (JObj [(js "a", JObj [(js "0", JNum 1)])]) = POk [] /\
  compare (JNum 1) (JNum 2) = POk [] /\
  deep_equal (JArr []) (JObj []) = true /\
  (exists rs, applyPatch (JArr [JNum 7; JNum 8]) [operation_at Remove (js "/foo") JUndef] false true = POk (JArr [JNum 8], rs)) /\
  (exists rs, applyPatch (JObj [(js "a/b", JNum 1)]) [operation_at Replace (js "/a~1b") (JNum 2)] false true = POk (JObj [(js "a/b", JNum 2)], rs)) /\
  applyPatch (JObj [(js "a/b", JNum 1)]) [operation_at Replace (js "/a~1b") (JNum 2)] true true = PErr (PatchError "OPERATION_PATH_UNRESOLVABLE") /\
  compare (JObj []) (JObj [(js "__proto__", JNum 1)]) = POk [operation_at Add (js "/__proto__") (JNum 1)] /\
  (exists rs, applyPatch (JObj []) [operation_at Add (js "/__proto__") (JNum 1)] false true = POk (JObj [], rs)).
Proof. split_and!; [reflexivity..|eexists; reflexivity|eexists; reflexivity|reflexivity|reflexivity|eexists; reflexivity]. Qed.

End JsonPatchCompare.
