(* ===== verification/Uri.v ===== *)
(** * encodeURIComponent and decodeURIComponent

    The two functions of the language that the query string and cookie modules of
    src/client/docs/swagger-ui/swagger-ui-bundle.js call, as ECMAScript defines them:
    UTF-8 in percent escapes, with a URIError for a lone surrogate and for escapes that
    are not UTF-8. *)

From S2P Require Import Prelude.
From S2P Require Import JsString.
From S2P Require Import Utf8.
From Stdlib Require Import String.
From stdpp Require Import base numbers list option.
Open Scope Z_scope.

Module Uri.
Import Utf8.

Definition URIError : jserr := JsError "URI malformed".

(** The characters that are not escaped. *)
Definition unescaped (c : Z) : bool :=
  ((48 <=? c) && (c <=? 57)) || ((65 <=? c) && (c <=? 90)) || ((97 <=? c) && (c <=? 122))
  || bool_decide (c ∈ js "-_.!~*'()").

Definition hex_upper (d : Z) : Z := if d <? 10 then 48 + d else 55 + d.
Definition percent (b : Z) : jsstring := [37; hex_upper (b / 16); hex_upper (b mod 16)].
Definition encode_scalar (c : Z) : jsstring := if unescaped c then [c] else flat_map percent (utf8_ref c).

Definition encodeURIComponent (s : jsstring) : res jsstring :=
  if well_formed s then Ok (flat_map encode_scalar (scalars s)) else Throw URIError.

(** A byte written %xy. *)
Definition escaped_byte (s : jsstring) : option (Z * jsstring) :=
  match s with
  | 37 :: h :: l :: s' =>
      match digit_in 16 h, digit_in 16 l with Some h, Some l => Some (16 * h + l, s') | _, _ => None end
  | _ => None
  end.

(** [n] continuation bytes after the value [c]. *)
Fixpoint continued (n : nat) (c : Z) (s : jsstring) : option (Z * jsstring) :=
  match n with
  | O => Some (c, s)
  | S n =>
      match escaped_byte s with
      | Some (b, s) => if (128 <=? b) && (b <? 192) then continued n (64 * c + (b - 128)) s else None
      | None => None
      end
  end.

(** A scalar value in the shortest UTF-8 form, escaped. *)
Definition escaped_scalar (s : jsstring) : option (Z * jsstring) :=
  match escaped_byte s with
  | None => None
  | Some (b, s) =>
      let value n c least :=
        match continued n c s with
        | Some (c, s) => if (least <=? c) && (c <? 1114112) && negb ((55296 <=? c) && (c <? 57344)) then Some (c, s) else None
        | None => None
        end in
      if b <? 128 then Some (b, s)
      else if b <? 192 then None
      else if b <? 224 then value 1%nat (b - 192) 128
      else if b <? 240 then value 2%nat (b - 224) 2048
      else if b <? 248 then value 3%nat (b - 240) 65536
      else None
  end.

(** Each step takes at least one character, so the length of the string is fuel enough. *)
Fixpoint decode_loop (fuel : nat) (s : jsstring) : res jsstring :=
  match fuel, s with
  | _, [] => Ok []
  | O, _ => Throw URIError
  | S fuel, c :: s' =>
      if c =? 37 then
        match escaped_scalar s with
        | Some (c, s) => let! t := decode_loop fuel s in Ok (utf16_ref c ++ t)
        | None => Throw URIError
        end
      else let! t := decode_loop fuel s' in Ok (c :: t)
  end.

Definition decodeURIComponent (s : jsstring) : res jsstring := decode_loop (length s) s.

(** ** Facts *)

(** What an encoded string is made of. *)
Definition uri_char (c : Z) : bool := unescaped c || (c =? 37).

Lemma hex_upper_digit d : 0 <= d < 16 -> digit_in 16 (hex_upper d) = Some d /\ uri_char (hex_upper d) = true.
Proof.
  intros Hd. assert (d = 0 \/ d = 1 \/ d = 2 \/ d = 3 \/ d = 4 \/ d = 5 \/ d = 6 \/ d = 7 \/ d = 8 \/ d = 9 \/ d = 10 \/ d = 11 \/ d = 12 \/ d = 13 \/ d = 14 \/ d = 15) as H by lia.
  by repeat destruct H as [->|H]; [..|subst].
Qed.

Lemma escaped_percent b s : byte_ok b -> escaped_byte (percent b ++ s) = Some (b, s).
Proof.
  intros Hb. unfold byte_ok in Hb. unfold percent. cbn [app escaped_byte].
  destruct (hex_upper_digit (b / 16)) as [-> _]; [dlia|]. destruct (hex_upper_digit (b mod 16)) as [-> _]; [dlia|].
  by rewrite <- Z.div_mod by lia.
Qed.

Lemma continued_percent n c b s : 0 <= b < 64 -> continued (S n) c (percent (128 + b) ++ s) = continued n (64 * c + b) s.
Proof.
  intros Hb. cbn [continued]. rewrite escaped_percent by (unfold byte_ok; lia).
  rewrite (proj2 (Z.leb_le _ _)), (proj2 (Z.ltb_lt _ _)) by lia. cbn [andb]. do 2 f_equal. lia.
Qed.

Lemma escaped_scalar_ref c s : scalar c -> escaped_scalar (flat_map percent (utf8_ref c) ++ s) = Some (c, s).
Proof.
  intros Hc. assert (0 <= c < 1114112 /\ (55296 <=? c) && (c <? 57344) = false) as [Hr Hsur].
  { destruct Hc; split; lia. }
  unfold utf8_ref. destruct (Z.ltb_spec c 128); [|destruct (Z.ltb_spec c 2048); [|destruct (Z.ltb_spec c 65536)]];
    cbn [flat_map]; rewrite <- ?app_assoc; unfold escaped_scalar; rewrite escaped_percent by (unfold byte_ok; dlia).
  - by rewrite (proj2 (Z.ltb_lt c 128)).
  - rewrite (proj2 (Z.ltb_ge _ 128)), (proj2 (Z.ltb_ge _ 192)), (proj2 (Z.ltb_lt _ 224)), continued_percent by dlia. cbn [continued app].
    replace (64 * (192 + c / 64 - 192) + c mod 64) with c by dlia. by rewrite (proj2 (Z.leb_le _ _)), (proj2 (Z.ltb_lt c 1114112)), Hsur by lia.
  - rewrite (proj2 (Z.ltb_ge _ 128)), (proj2 (Z.ltb_ge _ 192)), (proj2 (Z.ltb_ge _ 224)), (proj2 (Z.ltb_lt _ 240)) by dlia. rewrite !continued_percent by dlia. cbn [continued app].
    replace (64 * (64 * (224 + c / 4096 - 224) + c / 64 mod 64) + c mod 64) with c by dlia. by rewrite (proj2 (Z.leb_le _ _)), (proj2 (Z.ltb_lt c 1114112)), Hsur by lia.
  - rewrite (proj2 (Z.ltb_ge _ 128)), (proj2 (Z.ltb_ge _ 192)), (proj2 (Z.ltb_ge _ 224)), (proj2 (Z.ltb_ge _ 240)), (proj2 (Z.ltb_lt _ 248)) by dlia. rewrite !continued_percent by dlia. cbn [continued app].
    replace (64 * (64 * (64 * (240 + c / 262144 - 240) + c / 4096 mod 64) + c / 64 mod 64) + c mod 64) with c by dlia. by rewrite (proj2 (Z.leb_le _ _)), (proj2 (Z.ltb_lt c 1114112)), Hsur by lia.
Qed.

Lemma uri_char_percent b : byte_ok b -> Forall (fun c => uri_char c = true) (percent b).
Proof.
  intros Hb. unfold byte_ok in Hb. unfold percent. repeat constructor; apply hex_upper_digit; dlia.
Qed.

Lemma encode_scalar_chars c : scalar c -> Forall (fun c => uri_char c = true) (encode_scalar c) /\ encode_scalar c <> [].
Proof.
  intros Hc. unfold encode_scalar. destruct (unescaped c) eqn:E; [split; [|done]; repeat constructor; unfold uri_char; by rewrite E|].
  assert (0 <= c < 1114112) as Hr by (destruct Hc; lia). pose proof (utf8_ref_bytes c Hr) as Hb. split.
  - induction Hb as [|b l Hb _ IH]; cbn [flat_map]; [constructor|]. apply Forall_app. split; [by apply uri_char_percent|done].
  - unfold utf8_ref. repeat case_match; done.
Qed.

Lemma unescaped_ascii c : unescaped c = true -> 0 <= c < 128 /\ c <> 37.
Proof.
  unfold unescaped. rewrite !orb_true_iff, !andb_true_iff, !Z.leb_le, bool_decide_eq_true. intros [[[?|?]|?]|H]; [lia..|].
  cbn in H. repeat (apply elem_of_cons in H as [->|H]; [lia|]). by apply elem_of_nil in H.
Qed.

(** Decoding undoes any encoding that leaves some characters as they are, all of them ASCII and
    none the percent sign, and escapes the others. *)
Definition encode_with (plain : Z -> bool) (c : Z) : jsstring := if plain c then [c] else flat_map percent (utf8_ref c).

Lemma decode_loop_with plain cs : (forall c, plain c = true -> 0 <= c < 128 /\ c <> 37) -> Forall scalar cs ->
  forall fuel, (length (flat_map (encode_with plain) cs) <= fuel)%nat -> decode_loop fuel (flat_map (encode_with plain) cs) = Ok (flat_map utf16_ref cs).
Proof.
  intros Hp. induction 1 as [|c cs Hc Hcs IH]; intros fuel Hf; [by destruct fuel|]. cbn [flat_map] in *. rewrite length_app in Hf. unfold encode_with at 1 in Hf. unfold encode_with at 1. destruct (plain c) eqn:E.
  - apply Hp in E as [Ha H37]. destruct fuel as [|fuel]; [cbn in Hf; lia|]. cbn [app decode_loop]. cbn in Hf.
    rewrite (proj2 (Z.eqb_neq _ _)), IH by (done || lia). cbn. unfold utf16_ref. by rewrite (proj2 (Z.ltb_lt c 65536)) by lia.
  - pose proof (escaped_scalar_ref c (flat_map (encode_with plain) cs) Hc) as He.
    destruct (flat_map percent (utf8_ref c)) as [|x l] eqn:El; [unfold utf8_ref in El; repeat case_match; done|].
    assert (x = 37) as ->. { unfold utf8_ref in El. repeat case_match; by injection El as <- _. }
    destruct fuel as [|fuel]; [cbn in Hf; lia|]. cbn [app decode_loop] in *. rewrite Z.eqb_refl, He. cbn [length] in Hf. by rewrite IH by lia.
Qed.

Lemma decode_loop_scalars cs : Forall scalar cs -> forall fuel, (length (flat_map encode_scalar cs) <= fuel)%nat ->
  decode_loop fuel (flat_map encode_scalar cs) = Ok (flat_map utf16_ref cs).
Proof. apply (decode_loop_with unescaped), unescaped_ascii. Qed.

(** Decoding inverts encoding, which leaves only letters, digits, percent signs and a few marks. *)
Lemma uri_decode_encode s : units_ok s -> well_formed s = true ->
  exists t, encodeURIComponent s = Ok t /\ Forall (fun c => uri_char c = true) t /\ decodeURIComponent t = Ok s.
Proof.
  intros Hu Hw. pose proof (scalars_scalar s Hu) as Hs. exists (flat_map encode_scalar (scalars s)). unfold encodeURIComponent. rewrite Hw. split_and!; [done| |].
  - induction Hs as [|c cs Hc _ IH]; cbn [flat_map]; [constructor|]. apply Forall_app. split; [by apply encode_scalar_chars|done].
  - unfold decodeURIComponent. rewrite decode_loop_scalars by done. by rewrite well_formed_utf16.
Qed.

(** A character that an encoded string has not. *)
Lemma uri_char_no c t : uri_char c = false -> Forall (fun c => uri_char c = true) t -> c ∉ t.
Proof. intros Hc Ht Hin. rewrite list.Forall_forall in Ht. apply Ht in Hin. congruence. Qed.

End Uri.
