(* ===== verification/QueryString.v ===== *)
(** * Query strings

    Models querystring-es3, modules 899 and 900 (lines 32009 to 32070 of
    src/client/docs/swagger-ui/swagger-ui-bundle.js): decode (parse) and encode
    (stringify), with the separators and the limit of keys of their arguments.

    A decoded object is a finite map, without the order of its keys; the object to encode
    is its list of entries in the order of [Object.keys].  Numbers are integers. *)

From S2P Require Import Prelude.
From S2P Require Import JsString.
From S2P Require Import Utf8.
From S2P Require Import Uri.
From Stdlib Require Import String.
From stdpp Require Import base numbers list option gmap.
Open Scope Z_scope.

Module QueryString.
Import Uri.

(** ** Strings *)

Fixpoint starts_with (t s : jsstring) : bool :=
  match t, s with
  | [], _ => true
  | x :: t, y :: s => (x =? y) && starts_with t s
  | _, [] => false
  end.

(** [s.indexOf(t)], from the index [i]. *)
Fixpoint str_index (t s : jsstring) (i : Z) : Z :=
  if starts_with t s then i
  else match s with
       | [] => -1
       | _ :: s => str_index t s (i + 1)
       end.

(** [s.split(t)] for a separator that is not empty, [skip] code units of it still to pass. *)
Fixpoint split_str (t : jsstring) (skip : nat) (s : jsstring) : list jsstring :=
  match s with
  | [] => [[]]
  | x :: s' =>
      match skip with
      | S skip => split_str t skip s'
      | O =>
          if starts_with t s then [] :: split_str t (length t - 1) s'
          else match split_str t 0 s' with p :: ps => (x :: p) :: ps | [] => [[x]] end
      end
  end.

Definition or_default (t d : jsstring) : jsstring := if decide (t = []) then d else t.

(** ** decode *)

Inductive entry := One (s : jsstring) | Many (l : list jsstring).

(** The new value of a key; a string assigned to __proto__ is ignored. *)
Definition add_entry (a : gmap jsstring entry) (d h : jsstring) : gmap jsstring entry :=
  if decide (d = js "__proto__") then a
  else match a !! d with
       | Some (Many l) => <[d := Many (l ++ [h])]> a
       | Some (One s) => <[d := Many [s; h]]> a
       | None => <[d := One h]> a
       end.

Definition replace_plus (s : jsstring) : jsstring := flat_map (fun c => if c =? 43 then js "%20" else [c]) s.

Definition decode_pair (n v : jsstring) : res (jsstring * jsstring) :=
  let v := replace_plus v in
  let m := str_index n v 0 in
  let '(f, p) := if 0 <=? m then (take (Z.to_nat m) v, drop (Z.to_nat (m + 1)) v) else (v, []) in
  let! d := decodeURIComponent f in
  let! h := decodeURIComponent p in
  Ok (d, h).

Fixpoint decode_pairs (n : jsstring) (e : list jsstring) (a : gmap jsstring entry) : res (gmap jsstring entry) :=
  match e with
  | [] => Ok a
  | v :: e => let! dh := decode_pair n v in decode_pairs n e (add_entry a (fst dh) (snd dh))
  end.

(** [None] for an argument that is not a string, and for no limit given. *)
Definition decode (e : option jsstring) (t n : jsstring) (maxKeys : option Z) : res (gmap jsstring entry) :=
  let t := or_default t (js "&") in
  let n := or_default n (js "=") in
  match e with
  | None | Some [] => Ok ∅
  | Some e =>
      let e := split_str t 0 e in
      let s := default 1000 maxKeys in
      let l := if (0 <? s) && (s <? zlen e) then s else zlen e in
      decode_pairs n (take (Z.to_nat l) e) ∅
  end.

(** ** encode *)

(** A number that is not finite is [PNumber None]. *)
Inductive prim := PString (s : jsstring) | PBoolean (b : bool) | PNumber (z : option Z) | POther.
Inductive value := VPrim (p : prim) | VArray (l : list prim).

Definition stringifyPrimitive (e : prim) : jsstring :=
  match e with
  | PString s => s
  | PBoolean b => if b then js "true" else js "false"
  | PNumber (Some z) => num_to_string z 10
  | PNumber None => []
  | POther => []
  end.

Definition encode_entry (t n : jsstring) (kv : jsstring * value) : res jsstring :=
  let! k := encodeURIComponent (fst kv) in
  let u := k ++ n in
  let field p := let! v := encodeURIComponent (stringifyPrimitive p) in Ok (u ++ v) in
  match snd kv with
  | VArray l => let! vs := res_map field l in Ok (join_with t vs)
  | VPrim p => field p
  end.

(** An object, or a value that is none with a name for it. *)
Inductive input := Object (o : list (jsstring * value)) | Primitive (p : prim).

Definition encode (e : input) (t n name : jsstring) : res jsstring :=
  let t := or_default t (js "&") in
  let n := or_default n (js "=") in
  match e with
  | Object o => let! es := res_map (encode_entry t n) o in Ok (join_with t es)
  | Primitive p =>
      if decide (name = []) then Ok []
      else let! k := encodeURIComponent name in let! v := encodeURIComponent (stringifyPrimitive p) in Ok (k ++ n ++ v)
  end.

(** ** The round trip *)

Definition value_entry (v : value) : entry :=
  match v with
  | VPrim p => One (stringifyPrimitive p)
  | VArray l => Many (map stringifyPrimitive l)
  end.

(** The object that a decoder should give for the entries. *)
Definition object (o : list (jsstring * value)) (a : gmap jsstring entry) : gmap jsstring entry :=
  foldl (fun a kv => <[fst kv := value_entry (snd kv)]> a) a o.

Definition value_strings (v : value) : list jsstring :=
  match v with VPrim p => [stringifyPrimitive p] | VArray l => map stringifyPrimitive l end.
Definition pairs (o : list (jsstring * value)) : list (jsstring * jsstring) :=
  flat_map (fun kv => map (pair (fst kv)) (value_strings (snd kv))) o.

(** Text that can be escaped. *)
Definition text (s : jsstring) : Prop := Utf8.units_ok s /\ Utf8.well_formed s = true.
Definition entry_ok (kv : jsstring * value) : Prop :=
  text (fst kv) /\ fst kv <> js "__proto__" /\ Forall text (value_strings (snd kv)) /\
  match snd kv with VArray l => (2 <= length l)%nat | VPrim _ => True end.

Lemma starts_with_one c s : starts_with [c] s = match s with x :: _ => c =? x | [] => false end.
Proof. destruct s; cbn; [done|by rewrite andb_true_r]. Qed.

Lemma split_str_one c s : split_str [c] 0 s = split_on c s.
Proof.
  induction s as [|x s IH]; [done|]. cbn [split_str split_on length Nat.sub]. rewrite starts_with_one, IH, Z.eqb_sym. done.
Qed.

Lemma str_index_one c p s i : c ∉ p -> str_index [c] (p ++ c :: s) i = i + zlen p.
Proof.
  revert i. induction p as [|x p IH]; intros i Hp; cbn [app str_index]; rewrite starts_with_one.
  - rewrite Z.eqb_refl. unfold zlen. cbn. lia.
  - apply not_elem_of_cons in Hp as [Hx Hp]. rewrite (proj2 (Z.eqb_neq _ _)), IH by done. unfold zlen. cbn. lia.
Qed.

Lemma replace_plus_id s : 43 ∉ s -> replace_plus s = s.
Proof.
  induction s as [|x s IH]; [done|]. rewrite not_elem_of_cons. intros [Hx Hs]. cbn. rewrite (proj2 (Z.eqb_neq _ _)) by done. cbn. f_equal. auto.
Qed.

(** A pair as it is read, and written. *)
Lemma decode_pair_ok k' v' k v : (43 ∉ k') -> (61 ∉ k') -> (43 ∉ v') -> decodeURIComponent k' = Ok k -> decodeURIComponent v' = Ok v ->
  decode_pair [61] (k' ++ [61] ++ v') = Ok (k, v).
Proof.
  intros Pk Nk Pv Dk Dv. unfold decode_pair. rewrite replace_plus_id by (rewrite !elem_of_app, list_elem_of_singleton; intros [H|[H|H]]; done).
  cbn [app]. rewrite str_index_one by done. pose proof (zlen_nonneg k'). rewrite (proj2 (Z.leb_le _ _)) by lia. rewrite Z.add_0_l.
  unfold zlen. rewrite Nat2Z.id, take_app_length. replace (Z.to_nat (Z.of_nat (length k') + 1)) with (length k' + 1)%nat by lia.
  rewrite drop_app_add'; [|done]. change (drop 1 (61 :: v')) with v'. by rewrite Dk, Dv.
Qed.

Lemma pair_text k v : text k -> text v -> exists k' v', encodeURIComponent k = Ok k' /\ encodeURIComponent v = Ok v' /\
  (38 ∉ k' ++ [61] ++ v') /\ decode_pair [61] (k' ++ [61] ++ v') = Ok (k, v).
Proof.
  intros [Hk Hk'] [Hv Hv']. destruct (uri_decode_encode k Hk Hk') as (k' & Ek & Ck & Dk). destruct (uri_decode_encode v Hv Hv') as (v' & Ev & Cv & Dv).
  exists k', v'. split_and!; [done|done| |apply decode_pair_ok; done || by apply uri_char_no].
  rewrite !elem_of_app, list_elem_of_singleton. intros [H|[H|H]]; [by eapply (uri_char_no 38) in H|done|by eapply (uri_char_no 38) in H].
Qed.

Lemma res_map_app {A B} (f : A -> res B) l r : res_map f (l ++ r) = (let! x := res_map f l in let! y := res_map f r in Ok (x ++ y)).
Proof.
  induction l as [|a l IH]; cbn; [by destruct (res_map f r)|]. rewrite IH. destruct (f a); [|done]. cbn. destruct (res_map f l); [|done]. cbn.
  by destruct (res_map f r).
Qed.

Lemma res_map_map {A B C} (f : B -> res C) (g : A -> B) l : res_map f (map g l) = res_map (fun x => f (g x)) l.
Proof. induction l as [|x l IH]; cbn; [done|]. by rewrite IH. Qed.

Lemma join_with_cons sep p l : l <> [] -> join_with sep (p :: l) = p ++ sep ++ join_with sep l.
Proof. by destruct l. Qed.

Lemma join_with_app sep l r : l <> [] -> r <> [] -> join_with sep (l ++ r) = join_with sep l ++ sep ++ join_with sep r.
Proof.
  intros Hl Hr. induction l as [|p l IH]; [done|]. destruct l as [|q l]; [by rewrite <- join_with_cons|].
  change ((p :: q :: l) ++ r) with (p :: ((q :: l) ++ r)).
  rewrite (join_with_cons sep p ((q :: l) ++ r)), (join_with_cons sep p (q :: l)), IH by done. by rewrite <- !app_assoc.
Qed.

(** Pieces between separators that are read as pairs. *)
Definition pieces (ps : list jsstring) (l : list (jsstring * jsstring)) : Prop :=
  Forall (fun p => 38 ∉ p) ps /\ ([] ∉ ps) /\ res_map (decode_pair [61]) ps = Ok l /\ length ps = length l.

Lemma pieces_app ps qs l r : pieces ps l -> pieces qs r -> pieces (ps ++ qs) (l ++ r).
Proof.
  intros (H1 & H0 & H2 & H3) (H4 & H7 & H5 & H6). split_and!; [by apply Forall_app|rewrite elem_of_app; intuition| |by rewrite !length_app, H3, H6].
  rewrite res_map_app, H2. cbn. by rewrite H5.
Qed.

Lemma fields_text k l : text k -> Forall text l -> exists k', encodeURIComponent k = Ok k' /\
  exists vs, res_map (fun v => let! v := encodeURIComponent v in Ok ((k' ++ [61]) ++ v)) l = Ok vs /\ pieces vs (map (pair k) l).
Proof.
  intros Hk Hl. destruct (pair_text k k Hk Hk) as (k' & _ & Ek & _). exists k'. split; [done|]. induction Hl as [|v l Hv Hl (vs & E & Hp)].
  - exists []. split; [done|]. split_and!; [constructor|apply not_elem_of_nil|done|done].
  - destruct (pair_text k v Hk Hv) as (k1 & v' & Ek1 & Ev & Hno & Hd). rewrite Ek in Ek1. injection Ek1 as <-.
    exists (((k' ++ [61]) ++ v') :: vs). cbn [res_map]. rewrite Ev. cbn [res_bind]. rewrite E. split; [done|]. rewrite <- app_assoc.
    apply (pieces_app [_] vs [_] (map (pair k) l)); [|done]. split_and!; [by repeat constructor| | |done].
    + rewrite list_elem_of_singleton. by destruct k'.
    + cbn [res_map]. by rewrite Hd.
Qed.

Lemma entry_text kv : entry_ok kv -> exists e ps, encode_entry [38] [61] kv = Ok e /\ e = join_with [38] ps /\ ps <> [] /\
  pieces ps (map (pair (fst kv)) (value_strings (snd kv))).
Proof.
  destruct kv as [k v]. intros (Hk & _ & Hv & Hlen). cbn [fst snd] in *. destruct (fields_text k _ Hk Hv) as (k' & Ek & vs & E & Hp).
  unfold encode_entry. cbn [fst snd]. rewrite Ek. cbn [res_bind]. destruct v as [p|l]; cbn [value_strings] in *.
  - cbn [res_map] in E. destruct (encodeURIComponent (stringifyPrimitive p)) as [v'|]; [|done]. cbn in E. injection E as <-.
    by exists ((k' ++ [61]) ++ v'), [(k' ++ [61]) ++ v'].
  - exists (join_with [38] vs), vs. split_and!; [|done| |done].
    + rewrite res_map_map in E. cbv beta in E. by rewrite E.
    + destruct Hp as (_ & _ & _ & Hp). rewrite !length_map in Hp. by destruct vs, l; cbn in *; try lia.
Qed.

Lemma entries_text o : Forall entry_ok o -> exists es ps, res_map (encode_entry [38] [61]) o = Ok es /\
  join_with [38] es = join_with [38] ps /\ (o = [] <-> ps = []) /\ (o = [] <-> es = []) /\ pieces ps (pairs o).
Proof.
  induction 1 as [|kv o Hkv Ho (es & ps & E & Ej & He & He' & Hp)].
  - exists [], []. split_and!; [done..|]. split_and!; [constructor|apply not_elem_of_nil|done|done].
  - destruct (entry_text kv Hkv) as (e & qs & Ee & -> & Hne & Hq). exists (join_with [38] qs :: es), (qs ++ ps). cbn [res_map]. rewrite Ee. cbn [res_bind]. rewrite E.
    split_and!; [done| |split; [done|by destruct qs]|done|by apply pieces_app].
    destruct (decide (es = [])) as [->|Hes].
    + destruct o; [|by destruct He' as [_ H0]; specialize (H0 eq_refl)]. rewrite (proj1 He eq_refl), app_nil_r. done.
    + rewrite join_with_cons, Ej by done. rewrite join_with_app; [done|done|]. intros ->. apply Hes, He', He. done.
Qed.

Lemma decode_pairs_map n ps l a : res_map (decode_pair n) ps = Ok l -> decode_pairs n ps a = Ok (foldl (fun a dh => add_entry a (fst dh) (snd dh)) a l).
Proof.
  revert l a. induction ps as [|p ps IH]; intros l a E; cbn in *; [by injection E as <-|].
  destruct (decode_pair n p) as [dh|]; [|done]. cbn in *. destruct (res_map (decode_pair n) ps) as [l'|]; [|done]. cbn in E. injection E as <-. by rewrite (IH l' _ eq_refl).
Qed.

Lemma add_many a k l h : k <> js "__proto__" -> a !! k = Some (Many h) -> foldl (fun a dh => add_entry a (fst dh) (snd dh)) a (map (pair k) l) = <[k := Many (h ++ l)]> a.
Proof.
  intros Hk. revert a h. induction l as [|v l IH]; intros a h Ha; cbn; [by rewrite app_nil_r, insert_id|].
  unfold add_entry at 2. rewrite decide_False, Ha by done. rewrite (IH _ (h ++ [v])) by (by rewrite lookup_insert_eq). by rewrite insert_insert_eq, <- app_assoc.
Qed.

Lemma add_strings a k v : entry_ok (k, v) -> a !! k = None ->
  foldl (fun a dh => add_entry a (fst dh) (snd dh)) a (map (pair k) (value_strings v)) = <[k := value_entry v]> a.
Proof.
  intros (_ & Hk & _ & Hlen) Ha. cbn [fst snd] in *. destruct v as [p|[|x [|y l]]]; cbn in Hlen; try lia; cbn [value_strings value_entry map foldl fst snd].
  - unfold add_entry. by rewrite decide_False, Ha by done.
  - unfold add_entry at 3. rewrite decide_False, Ha by done. unfold add_entry at 2. rewrite decide_False, lookup_insert_eq by done.
    rewrite insert_insert_eq, (add_many _ _ _ [stringifyPrimitive x; stringifyPrimitive y]) by (done || by rewrite lookup_insert_eq). by rewrite insert_insert_eq.
Qed.

Lemma add_pairs o : Forall entry_ok o -> NoDup (map fst o) -> forall a, (forall k, k ∈ map fst o -> a !! k = None) ->
  foldl (fun a dh => add_entry a (fst dh) (snd dh)) a (pairs o) = object o a.
Proof.
  induction 1 as [|[k v] o Hkv Ho IH]; intros Hnd a Ha; [done|]. cbn [map] in Hnd. apply list.NoDup_cons in Hnd as [Hk Hnd].
  change (pairs ((k, v) :: o)) with (map (pair k) (value_strings v) ++ pairs o). rewrite foldl_app, add_strings; [|done|apply Ha; by left].
  rewrite IH; [done|done|]. intros k' Hk'. rewrite lookup_insert_ne by (by intros ->). apply Ha. by right.
Qed.

(** Pieces that are read as the pairs of an object. *)
Lemma decode_pieces o ps : Forall entry_ok o -> NoDup (map fst o) -> zlen (pairs o) <= 1000 -> pieces ps (pairs o) -> (o = [] <-> ps = []) ->
  decode (Some (join_with [38] ps)) [] [] None = Ok (object o ∅).
Proof.
  intros Ho Hnd Hlen (Hno & Hnil & Hd & Hl) He. unfold decode. change (or_default [] (js "&")) with [38]. change (or_default [] (js "=")) with [61].
  destruct (decide (o = [])) as [->|Hne]; [by rewrite (proj1 He eq_refl)|].
  assert (split_str [38] 0 (join_with [38] ps) = ps) as Hs. { rewrite split_str_one. apply split_join; [|done]. intros ->. by apply Hne, He. }
  destruct (join_with [38] ps) as [|c s] eqn:Ejs.
  - exfalso. apply Hnil. rewrite <- Hs. by left.
  - rewrite Hs. replace (if (0 <? default 1000 None) && (default 1000 None <? zlen ps) then default 1000 None else zlen ps) with (zlen ps).
    2: { cbn. unfold zlen in *. rewrite Hl. destruct (Z.ltb_spec 1000 (Z.of_nat (length (pairs o)))); [lia|done]. }
    unfold zlen. rewrite Nat2Z.id, take_ge by done. rewrite (decode_pairs_map _ _ _ _ Hd). by rewrite add_pairs.
Qed.

(** C29: Decoding what encode makes of an object gives its strings back: for every object of primitive values and of arrays of
    at least two of them, whatever the characters apart from lone surrogates, with at most 1000 strings and no key __proto__. *)
Theorem querystring_roundtrip o : Forall entry_ok o -> NoDup (map fst o) -> zlen (pairs o) <= 1000 ->
  exists s, encode (Object o) [] [] [] = Ok s /\ decode (Some s) [] [] None = Ok (object o ∅).
Proof.
  intros Ho Hnd Hlen. destruct (entries_text o Ho) as (es & ps & E & Ej & He & _ & Hp). exists (join_with [38] ps). split; [|by apply decode_pieces].
  unfold encode. change (or_default [] (js "&")) with [38]. change (or_default [] (js "=")) with [61]. by rewrite E, <- Ej.
Qed.

Definition query : list (jsstring * value) :=
  [(js "a b", VPrim (PString (js "1&2"))); ([233; 55357; 56832], VArray [PString (js "+"); PBoolean true; PNumber (Some (-12))]); ([], VPrim POther)].

Lemma querystring_roundtrip_witness : exists s, encode (Object query) [] [] [] = Ok s /\ decode (Some s) [] [] None = Ok (object query ∅).
Proof.
  apply (querystring_roundtrip query); [|by eapply bool_decide_eq_true_1; vm_compute|vm_compute; congruence].
  repeat constructor; cbn; try done; lia.
Defined.

(** Objects that do not survive: an array of one string comes back as the string; an empty array between others leaves an
    empty key; a key __proto__ is dropped; and a separator of two characters between key and value leaves its second
    character in the value. *)
Theorem querystring_defects :
  (encode (Object [(js "a", VArray [PString (js "1")])]) [] [] [] = Ok (js "a=1") /\ decode (Some (js "a=1")) [] [] None = Ok {[js "a" := One (js "1")]}) /\
  (encode (Object [(js "a", VArray []); (js "b", VPrim (PString (js "1")))]) [] [] [] = Ok (js "&b=1") /\
    decode (Some (js "&b=1")) [] [] None = Ok (<[js "b" := One (js "1")]> {[ [] := One [] ]})) /\
  decode (Some (js "__proto__=1")) [] [] None = Ok ∅ /\
  (encode (Object [(js "a", VPrim (PString (js "1")))]) [] (js "==") [] = Ok (js "a==1") /\
    decode (Some (js "a==1")) [] (js "==") None = Ok {[js "a" := One (js "=1")]}).
Proof. split_and!; vm_compute; reflexivity. Qed.

End QueryString.
