(* ===== verification/Cookie.v ===== *)
(** * Cookies

    Models the cookie module (lines 33288 to 33363 of
    src/client/docs/swagger-ui/swagger-ui-bundle.js): parse and serialize with all their
    options.  The parsed object is a finite map; the names it inherits from
    Object.prototype are written out, because [parse] meets them. *)

From S2P Require Import Prelude.
From S2P Require Import JsString.
From S2P Require Import Utf8.
From S2P Require Import Uri.
From Stdlib Require Import String Ascii.
From stdpp Require Import base numbers list option gmap.
Open Scope Z_scope.

Module Cookie.
Import Uri.

(** ** parse *)

Definition semicolon : Z := 59.

(** [e.split(/; */)]. *)
Fixpoint split_cookies (after : bool) (e : jsstring) : list jsstring :=
  match e with
  | [] => [[]]
  | x :: e =>
      if x =? semicolon then [] :: split_cookies true e
      else if after && (x =? 32) then split_cookies true e
      else match split_cookies false e with p :: ps => (x :: p) :: ps | [] => [[x]] end
  end.

Definition tryDecode (e : jsstring) (decode : jsstring -> res jsstring) : jsstring :=
  match decode e with Ok s => s | Throw _ => e end.

(** [d.slice(1, -1)]. *)
Definition unquote (d : jsstring) : jsstring := take (length d - 2) (drop 1 d).

Definition parse_cookie (decode : jsstring -> res jsstring) (n : gmap jsstring jsstring) (c : jsstring) : gmap jsstring jsstring :=
  let f := index_of 61 c in
  if f <? 0 then n
  else
    let p := trim (take (Z.to_nat f) c) in
    let d := trim (drop (Z.to_nat (f + 1)) c) in
    let d := match d with 34 :: _ => unquote d | _ => d end in
    if bool_decide (p ∈ inherited) || bool_decide (is_Some (n !! p)) then n
    else <[p := tryDecode d decode]> n.

(** [None] for an argument that is not a string. *)
Definition parse (e : option jsstring) (decode : jsstring -> res jsstring) : res (gmap jsstring jsstring) :=
  match e with
  | None => Throw (TypeError "argument str must be a string")
  | Some e => Ok (foldl (parse_cookie decode) ∅ (split_cookies false e))
  end.

(** ** serialize *)

(** [/^[\u0009 -~\u0080-ÿ]+$/]. *)
Definition field_char (c : Z) : bool := (c =? 9) || ((32 <=? c) && (c <=? 126)) || ((128 <=? c) && (c <=? 255)).
Definition fieldContent (s : jsstring) : bool := negb (bool_decide (s = [])) && forallb field_char s.

(** A number as a fraction, or not a number. *)
Inductive maxage := NoMaxAge | MaxAge (n : Z) (d : positive) | BadMaxAge.
(** What [toUTCString] returns, or an object without it. *)
Inductive expiry := NoExpires | Expires (utc : jsstring) | BadExpires.
Inductive samesite := NoSameSite | SameSiteTrue | SameSite (s : jsstring) | BadSameSite.

Record options := Options {
  maxAge : maxage;
  domain : jsstring;
  path : jsstring;
  expires : expiry;
  httpOnly : bool;
  secure : bool;
  sameSite : samesite
}.
Definition no_options : options := Options NoMaxAge [] [] NoExpires false false NoSameSite.

(** [toLowerCase] as far as a comparison with ASCII letters sees it. *)
Definition lower_case (s : jsstring) : jsstring := map (fun c => if (65 <=? c) && (c <=? 90) then c + 32 else c) s.

Definition add_maxAge (r : options) (s : jsstring) : res jsstring :=
  match maxAge r with
  | NoMaxAge => Ok s
  | MaxAge n d => Ok (s ++ js "; Max-Age=" ++ num_to_string (n / Zpos d) 10)
  | BadMaxAge => Throw (JsError "maxAge should be a Number")
  end.
(** Domain and Path. *)
Definition add_attribute (v : jsstring) (name msg : string) (s : jsstring) : res jsstring :=
  if decide (v = []) then Ok s
  else if fieldContent v then Ok (s ++ js name ++ v)
  else Throw (TypeError msg).
Definition add_expires (r : options) (s : jsstring) : res jsstring :=
  match expires r with
  | NoExpires => Ok s
  | Expires utc => Ok (s ++ js "; Expires=" ++ utc)
  | BadExpires => Throw (TypeError "option expires is invalid")
  end.
Definition add_sameSite (r : options) (s : jsstring) : res jsstring :=
  let bad := Throw (TypeError "option sameSite is invalid") in
  match sameSite r with
  | NoSameSite => Ok s
  | SameSiteTrue => Ok (s ++ js "; SameSite=Strict")
  | SameSite c =>
      if decide (c = []) then Ok s
      else if decide (lower_case c = js "lax") then Ok (s ++ js "; SameSite=Lax")
      else if decide (lower_case c = js "strict") then Ok (s ++ js "; SameSite=Strict")
      else bad
  | BadSameSite => bad
  end.

Definition serialize (e t : jsstring) (encode : jsstring -> res jsstring) (r : options) : res jsstring :=
  if negb (fieldContent e) then Throw (TypeError "argument name is invalid")
  else
    let! u := encode t in
    if negb (bool_decide (u = [])) && negb (fieldContent u) then Throw (TypeError "argument val is invalid")
    else
      let s := e ++ js "=" ++ u in
      let! s := add_maxAge r s in
      let! s := add_attribute (domain r) "; Domain=" "option domain is invalid" s in
      let! s := add_attribute (path r) "; Path=" "option path is invalid" s in
      let! s := add_expires r s in
      let s := if httpOnly r then s ++ js "; HttpOnly" else s in
      let s := if secure r then s ++ js "; Secure" else s in
      add_sameSite r s.

(** ** What is serialized is parsed *)

(** Every option has a value that serialize takes. *)
Definition options_ok (r : options) : bool :=
  match maxAge r with BadMaxAge => false | _ => true end &&
  (bool_decide (domain r = []) || fieldContent (domain r)) && (bool_decide (path r = []) || fieldContent (path r)) &&
  match expires r with BadExpires => false | _ => true end &&
  match sameSite r with
  | BadSameSite => false
  | SameSite c => bool_decide (c = []) || bool_decide (lower_case c = js "lax") || bool_decide (lower_case c = js "strict")
  | _ => true
  end.

(** A name that can be read back. *)
Definition name_ok (e : jsstring) : Prop := fieldContent e = true /\ (61 ∉ e) /\ (semicolon ∉ e) /\ trim e = e /\ (e ∉ inherited).

(** More attributes. *)
Definition attributes_extend (s s' : jsstring) : Prop := s' = s \/ exists r, s' = s ++ semicolon :: r.

Lemma attributes_trans s s' s'' : attributes_extend s s' -> attributes_extend s' s'' -> attributes_extend s s''.
Proof. intros [->|[r ->]] [->|[r' ->]]; [by left|by right; exists r'|by right; exists r|]. right. exists (r ++ semicolon :: r'). by rewrite <- app_assoc. Qed.

Lemma extends_more s r : attributes_extend s (s ++ semicolon :: r).
Proof. right. by exists r. Qed.

(** A step of serialize that does not throw. *)
Definition adds (f : jsstring -> res jsstring) : Prop := forall s, exists s', f s = Ok s' /\ attributes_extend s s'.

Lemma adds_then s0 s f (k : jsstring -> res jsstring) : attributes_extend s0 s -> adds f ->
  (forall s', attributes_extend s0 s' -> exists s'', k s' = Ok s'' /\ attributes_extend s0 s'') -> exists s'', res_bind (f s) k = Ok s'' /\ attributes_extend s0 s''.
Proof. intros Hs Hf Hk. destruct (Hf s) as (s' & -> & Hx). apply Hk. by eapply attributes_trans. Qed.

Lemma adds_flag s0 s (b : bool) r : attributes_extend s0 s -> attributes_extend s0 (if b then s ++ semicolon :: r else s).
Proof. intros Hs. destruct b; [|done]. eapply attributes_trans; [done|apply extends_more]. Qed.

Lemma adds_maxAge r : match maxAge r with BadMaxAge => false | _ => true end = true -> adds (add_maxAge r).
Proof. intros H s. unfold add_maxAge. destruct (maxAge r); [| |done]; eexists; split; [done|by left|done|apply extends_more]. Qed.

Lemma adds_expires r : match expires r with BadExpires => false | _ => true end = true -> adds (add_expires r).
Proof. intros H s. unfold add_expires. destruct (expires r); [| |done]; eexists; split; [done|by left|done|apply extends_more]. Qed.

Lemma adds_attribute v name msg : bool_decide (v = []) || fieldContent v = true -> adds (add_attribute v (String ";"%char name) msg).
Proof.
  intros Hv s. unfold add_attribute. destruct (decide (v = [])); [eexists; split; [done|by left]|].
  rewrite bool_decide_eq_false_2 in Hv by done. cbn [orb] in Hv. rewrite Hv. eexists; split; [done|apply extends_more].
Qed.

Lemma adds_sameSite r : match sameSite r with
  | BadSameSite => false
  | SameSite c => bool_decide (c = []) || bool_decide (lower_case c = js "lax") || bool_decide (lower_case c = js "strict")
  | _ => true
  end = true -> adds (add_sameSite r).
Proof.
  intros H s. unfold add_sameSite. destruct (sameSite r) as [| |c|]; [eexists; split; [done|by left]|eexists; split; [done|apply extends_more]| |done].
  destruct (decide (c = [])); [eexists; split; [done|by left]|]. destruct (decide (lower_case c = js "lax")); [eexists; split; [done|apply extends_more]|].
  destruct (decide (lower_case c = js "strict")); [eexists; split; [done|apply extends_more]|]. by rewrite !bool_decide_eq_false_2 in H.
Qed.

Lemma serialize_attributes e t encode r u : fieldContent e = true -> encode t = Ok u -> u = [] \/ fieldContent u = true -> options_ok r = true ->
  exists s, serialize e t encode r = Ok s /\ attributes_extend (e ++ js "=" ++ u) s.
Proof.
  intros He Eu Hu Hr. unfold options_ok in Hr. rewrite !andb_true_iff in Hr. destruct Hr as ((((H1 & H2) & H3) & H4) & H5).
  unfold serialize. rewrite He, Eu. cbn [negb res_bind].
  assert (negb (bool_decide (u = [])) && negb (fieldContent u) = false) as -> by (destruct Hu as [->| ->]; [done|by rewrite andb_false_r]).
  apply adds_then; [by left|by apply adds_maxAge|]. intros s1 X1. apply adds_then; [done|by apply adds_attribute|]. intros s2 X2.
  apply adds_then; [done|by apply adds_attribute|]. intros s3 X3. apply adds_then; [done|by apply adds_expires|]. intros s4 X4.
  destruct (adds_sameSite r H5 (let s := if httpOnly r then s4 ++ js "; HttpOnly" else s4 in if secure r then s ++ js "; Secure" else s)) as (s' & E & X).
  exists s'. split; [exact E|]. eapply attributes_trans; [|exact X]. by apply adds_flag, adds_flag.
Qed.

Lemma split_first p s : semicolon ∉ p -> attributes_extend p s -> exists ps, split_cookies false s = p :: ps.
Proof.
  intros Hp Hs. assert (forall q, split_cookies false (p ++ q) = match split_cookies false q with x :: ps => (p ++ x) :: ps | [] => [p] end) as Happ.
  { intros q. clear Hs. induction p as [|c p IH]; cbn [app]; [destruct (split_cookies false q) eqn:E; [|done]; by destruct q as [|x q]; cbn in E; repeat case_match|].
    apply not_elem_of_cons in Hp as [Hc Hp]. cbn [split_cookies andb]. rewrite (proj2 (Z.eqb_neq _ _)), IH by done. by destruct (split_cookies false q). }
  destruct Hs as [->|[r ->]].
  - exists []. rewrite <- (app_nil_r p) at 1. rewrite Happ. cbn. by rewrite app_nil_r.
  - exists (split_cookies true r). rewrite Happ. cbn. by rewrite app_nil_r.
Qed.

Lemma parse_cookie_keeps decode n c k v : n !! k = Some v -> parse_cookie decode n c !! k = Some v.
Proof.
  intros Hk. unfold parse_cookie. destruct (_ <? 0); [done|]. destruct (_ || _) eqn:E; [done|]. apply orb_false_iff in E as [_ E].
  rewrite bool_decide_eq_false in E. rewrite lookup_insert_ne; [done|]. intros Heq. apply E. rewrite Heq. by exists v.
Qed.

Lemma parse_rest decode ps n k v : n !! k = Some v -> foldl (parse_cookie decode) n ps !! k = Some v.
Proof. revert n. induction ps as [|p ps IH]; intros n Hk; [done|]. by apply IH, parse_cookie_keeps. Qed.

Lemma uri_char_field t : Forall (fun c => uri_char c = true) t -> (t = [] \/ fieldContent t = true) /\ Forall (fun c => is_space c = false) t.
Proof.
  intros Ht. assert (forall c, uri_char c = true -> field_char c = true /\ is_space c = false) as H.
  { intros c Hc. unfold uri_char in Hc. apply orb_true_iff in Hc as [Hc|Hc]; [|by apply Z.eqb_eq in Hc as ->].
    pose proof (unescaped_ascii c Hc) as [Hr _]. assert (c <> 127 /\ 33 <= c) as [H1 H2].
    { unfold unescaped in Hc. rewrite !orb_true_iff, !andb_true_iff, !Z.leb_le, bool_decide_eq_true in Hc. destruct Hc as [[[?|?]|?]|Hc]; [lia..|].
      cbn in Hc. repeat (apply elem_of_cons in Hc as [->|Hc]; [lia|]). by apply elem_of_nil in Hc. }
    unfold field_char, is_space. split; lia. }
  split.
  - destruct t as [|c t]; [by left|right]. unfold fieldContent. cbn [bool_decide negb andb]. apply forallb_forall. rewrite List.Forall_forall in Ht. intros x Hx. by apply H, Ht.
  - eapply List.Forall_impl; [|exact Ht]. intros c Hc. by apply H.
Qed.

(** C30: A cookie that is serialized with its default encoding, with whatever valid attributes, is parsed back with its value,
    whatever characters the value has apart from lone surrogates.  Its name is text of a header field with no equals sign, no
    semicolon and no white space at its ends, and is not the name of a member that every object inherits. *)
Theorem cookie_roundtrip e t r : name_ok e -> Utf8.units_ok t -> Utf8.well_formed t = true -> options_ok r = true ->
  exists s n, serialize e t encodeURIComponent r = Ok s /\ parse (Some s) decodeURIComponent = Ok n /\ n !! e = Some t.
Proof.
  intros (He & Heq & Hsemi & Htrim & Hin) Ht Hw Hr. destruct (uri_decode_encode t Ht Hw) as (u & Eu & Cu & Du). destruct (uri_char_field u Cu) as [Hu Hsp].
  destruct (serialize_attributes e t encodeURIComponent r u He Eu Hu Hr) as (s & Es & Hx).
  destruct (split_first (e ++ js "=" ++ u) s) as (ps & Hs); [|done|].
  { rewrite !elem_of_app. intros [H|[H|H]]; [done|by apply list_elem_of_singleton in H|by eapply (uri_char_no semicolon) in H]. }
  eexists s, _. split_and!; [done|done|]. rewrite Hs. cbn [foldl]. apply parse_rest. unfold parse_cookie. cbv zeta.
  change (js "=" ++ u) with (61 :: u). rewrite index_of_app by done. pose proof (zlen_nonneg e). rewrite (proj2 (Z.ltb_ge _ _)) by lia.
  unfold zlen. rewrite Nat2Z.id, take_app_length, Htrim. replace (Z.to_nat (Z.of_nat (length e) + 1)) with (length e + 1)%nat by lia.
  rewrite drop_app_add'; [|done]. cbn [drop]. rewrite drop_0, trim_id by done. rewrite bool_decide_eq_false_2 by done. rewrite lookup_empty. cbn [orb].
  rewrite bool_decide_eq_false_2 by (by intros [? ?]). unfold tryDecode.
  assert (match u with 34 :: _ => unquote u | _ => u end = u) as ->. { destruct u as [|c u]; [done|]. inversion Cu as [|?? Hc _]; subst. destruct (Z.eq_dec c 34) as [->|]; [done|]. repeat case_match; done. }
  by rewrite Du, lookup_insert_eq.
Qed.

Definition session_options : options := Options (MaxAge 7 2) (js "quicksilver.zone") (js "/") (Expires (js "Thu, 01 Jan 1970 00:00:00 GMT")) true true (SameSite (js "LAX")).

Lemma cookie_roundtrip_witness : exists s n, serialize (js "sid") [59; 32; 34; 8364] encodeURIComponent session_options = Ok s /\
  parse (Some s) decodeURIComponent = Ok n /\ n !! js "sid" = Some [59; 32; 34; 8364].
Proof.
  apply (cookie_roundtrip (js "sid") [59; 32; 34; 8364] session_options); [|repeat constructor; lia|done|done].
  split_and!; [done|by eapply bool_decide_eq_true_1; vm_compute..|done|by eapply bool_decide_eq_true_1; vm_compute].
Defined.

(** ** What can be in a header *)

Lemma field_app s s' : forallb field_char s = true -> forallb field_char s' = true -> forallb field_char (s ++ s') = true.
Proof. intros. rewrite forallb_app. by apply andb_true_iff. Qed.

Lemma fieldContent_field s : fieldContent s = true -> forallb field_char s = true.
Proof. unfold fieldContent. by intros [_ ?]%andb_true_iff. Qed.

Lemma number_field z : forallb field_char (num_to_string z 10) = true.
Proof.
  assert (forall fuel y, 0 <= y -> forallb field_char (digits_fuel fuel 10 y) = true) as Hd.
  { induction fuel as [|fuel IH]; intros y Hy; [done|]. cbn [digits_fuel]. destruct (Z.ltb_spec y 10).
    - cbn. unfold field_char, digit_char. destruct (y <? 10) eqn:E; lia.
    - apply field_app; [apply IH; dlia|]. cbn. unfold field_char, digit_char. pose proof (Z.mod_pos_bound y 10). destruct (y mod 10 <? 10) eqn:E; lia. }
  unfold num_to_string, digits. destruct (Z.ltb_spec z 0); [|by apply Hd]. cbn [forallb]. apply andb_true_iff. split; [done|]. apply Hd. lia.
Qed.

(** C31: Whatever the name, the value, its encoding and the options, a cookie that serialize returns has only the characters
    of a header field: no line break, so no other header, can be put into it. *)
Theorem serialize_header e t encode r s : serialize e t encode r = Ok s ->
  match expires r with Expires utc => forallb field_char utc = true | _ => True end -> forallb field_char s = true.
Proof.
  unfold serialize. destruct (fieldContent e) eqn:Ee; [|done]. apply fieldContent_field in Ee. cbn [negb]. destruct (encode t) as [u|]; [|done]. cbn [res_bind].
  destruct (_ && _) eqn:Eu; [done|]. assert (forallb field_char u = true) as Hu.
  { apply andb_false_iff in Eu as [Eu|Eu]; apply negb_false_iff in Eu; [by apply bool_decide_eq_true in Eu as ->|by apply fieldContent_field]. }
  assert (forallb field_char (e ++ js "=" ++ u) = true) as H0 by (by repeat apply field_app). set (s0 := e ++ js "=" ++ u) in *. clearbody s0. intros E Hx.
  destruct (add_maxAge r s0) as [s1|] eqn:E1; [|done]. cbn [res_bind] in E.
  assert (forallb field_char s1 = true) as H1. { unfold add_maxAge in E1. destruct (maxAge r); [by injection E1 as <-|injection E1 as <-; rewrite forallb_app, H0; exact (number_field _)|done]. }
  assert (forall v name msg s s', forallb field_char (js name) = true -> forallb field_char s = true -> add_attribute v name msg s = Ok s' -> forallb field_char s' = true) as Ha.
  { intros v name msg s2 s3 Hn Hs. unfold add_attribute. destruct (decide (v = [])); [by intros [= <-]|]. destruct (fieldContent v) eqn:Ev; [|done]. intros [= <-].
    apply fieldContent_field in Ev. by repeat apply field_app. }
  destruct (add_attribute (domain r) _ _ s1) as [s2|] eqn:E2; [|done]. cbn [res_bind] in E. apply Ha in E2; [|done|done].
  destruct (add_attribute (path r) _ _ s2) as [s3|] eqn:E3; [|done]. cbn [res_bind] in E. apply Ha in E3; [|done|done].
  destruct (add_expires r s3) as [s4|] eqn:E4; [|done]. cbn [res_bind] in E.
  assert (forallb field_char s4 = true) as H4. { unfold add_expires in E4. destruct (expires r); [by injection E4 as <-|injection E4 as <-; by repeat apply field_app|done]. }
  unfold add_sameSite in E. destruct (sameSite r), (httpOnly r), (secure r); repeat case_match; try done; injection E as <-; by repeat apply field_app.
Qed.

Lemma serialize_header_witness : forallb field_char (js "a=b; Max-Age=3") = true.
Proof. apply (serialize_header (js "a") (js "b") Ok (Options (MaxAge 7 2) [] [] NoExpires false false NoSameSite)); [reflexivity|exact I]. Defined.

(** What the checks let through, and what the parser loses: a name or a path with a semicolon adds attributes of its own;
    a name that every object has is not found; a value that begins with a quote loses its last character. *)
Theorem cookie_defects :
  serialize (js "a=1; Domain=x; b") (js "v") encodeURIComponent no_options = Ok (js "a=1; Domain=x; b=v") /\
  serialize (js "a") (js "v") encodeURIComponent (Options NoMaxAge [] (js "/; Domain=x") NoExpires false false NoSameSite) = Ok (js "a=v; Path=/; Domain=x") /\
  parse (Some (js "constructor=v")) decodeURIComponent = Ok ∅ /\
  parse (Some (js "a=" ++ 34 :: js "bc")) decodeURIComponent = Ok {[js "a" := js "b"]}.
Proof. split_and!; vm_compute; reflexivity. Qed.

End Cookie.
