(* ===== verification/NextTick.v ===== *)
(** * process.nextTick

    Models the queue of the process module (lines 4702 to 4746 of
    src/client/docs/swagger-ui/swagger-ui-bundle.js) as a state machine: [nextTick],
    [drainQueue] one turn of its loops at a time, and [cleanUpNextTick], with the timers
    that they set and clear.  setTimeout and clearTimeout are those of the page: the
    machine fires a timer at any time when no other code runs.

    A callback is given by what it does when it is called: the callbacks it passes to
    nextTick, and whether it throws then.  It may depend on all the calls before. *)

From S2P Require Import Prelude.
From stdpp Require Import base numbers list option.
Open Scope Z_scope.

Module NextTick.

(** ** The machine *)

Inductive timer := DrainQueue | CleanUp.

#[export] Instance timer_eq_dec : EqDecision timer.
Proof. solve_decision. Defined.

(** Where the code is: between the tasks of the page, or in drainQueue with its local
    variables [e] (its timer) and [t], at the test of the outer or of the inner loop. *)
Inductive phase := Idle | Outer (e t : Z) | Inner (e t : Z).

Section Machine.
Context {A : Type}.

(** [queue], [draining], [currentQueue] and [queueIndex] are l, c, s and f of the code;
    [sent] and [called] record the calls of nextTick and of callbacks. *)
Record state := State {
  queue : list A;
  draining : bool;
  currentQueue : option (list A);
  queueIndex : Z;
  timers : list (Z * timer);
  lastTimer : Z;
  at_ : phase;
  sent : list A;
  called : list A
}.

Definition init : state := State [] false None (-1) [] 0 Idle [] [].

Definition setTimeout (k : timer) (st : state) : state * Z :=
  let i := lastTimer st + 1 in
  (State (queue st) (draining st) (currentQueue st) (queueIndex st) (timers st ++ [(i, k)]) i (at_ st) (sent st) (called st), i).
Definition clearTimeout (i : Z) (st : state) : state :=
  State (queue st) (draining st) (currentQueue st) (queueIndex st)
    (List.filter (fun ik => negb (fst ik =? i)) (timers st)) (lastTimer st) (at_ st) (sent st) (called st).

(** [process.nextTick(x)]. *)
Definition nextTick (st : state) (x : A) : state :=
  let st := State (queue st ++ [x]) (draining st) (currentQueue st) (queueIndex st) (timers st) (lastTimer st) (at_ st) (sent st ++ [x]) (called st) in
  if negb (zlen (queue st) =? 1) || draining st then st else fst (setTimeout DrainQueue st).

(** The beginning of drainQueue. *)
Definition drainQueue (st : state) : state :=
  if draining st then st
  else
    let '(st, e) := setTimeout CleanUp st in
    State (queue st) true (currentQueue st) (queueIndex st) (timers st) (lastTimer st) (Outer e (zlen (queue st))) (sent st) (called st).

Definition cleanUpNextTick (st : state) : state :=
  match draining st, currentQueue st with
  | true, Some s =>
      let '(l, f) := if zlen s =? 0 then (queue st, -1) else (s ++ queue st, queueIndex st) in
      let st := State l false (currentQueue st) f (timers st) (lastTimer st) (at_ st) (sent st) (called st) in
      if zlen l =? 0 then st else drainQueue st
  | _, _ => st
  end.

(** What a callback does, after the calls before it. *)
Context (behaviour : list A -> A -> list A * bool).

Definition call (x : A) (st : state) : state * bool :=
  let '(xs, throws) := behaviour (called st) x in
  let st := State (queue st) (draining st) (currentQueue st) (queueIndex st) (timers st) (lastTimer st) (at_ st) (sent st) (called st ++ [x]) in
  (foldl nextTick st xs, throws).

Definition go_to (p : phase) (st : state) : state :=
  State (queue st) (draining st) (currentQueue st) (queueIndex st) (timers st) (lastTimer st) p (sent st) (called st).

(** A turn of the loops of drainQueue.  An exception of a callback leaves it as it is. *)
Definition turn (st : state) : state :=
  match at_ st with
  | Idle => st
  | Outer e t =>
      if t =? 0 then
        clearTimeout e (State (queue st) false None (queueIndex st) (timers st) (lastTimer st) Idle (sent st) (called st))
      else State [] (draining st) (Some (queue st)) (queueIndex st) (timers st) (lastTimer st) (Inner e t) (sent st) (called st)
  | Inner e t =>
      let f := queueIndex st + 1 in
      let st := State (queue st) (draining st) (currentQueue st) f (timers st) (lastTimer st) (at_ st) (sent st) (called st) in
      if f <? t then
        match currentQueue st with
        | Some s =>
            match zget s f with
            | Some x => let '(st, throws) := call x st in if throws : bool then go_to Idle st else st
            | None => go_to Idle st
            end
        | None => st
        end
      else State (queue st) (draining st) (currentQueue st) (-1) (timers st) (lastTimer st) (Outer e (zlen (queue st))) (sent st) (called st)
  end.

(** A timer fires: it is no longer set. *)
Definition fire (i : Z) (k : timer) (st : state) : state :=
  let st := clearTimeout i st in
  match k with DrainQueue => drainQueue st | CleanUp => cleanUpNextTick st end.

(** The steps of the page: code that calls nextTick, a timer, a turn. *)
Inductive step : state -> state -> Prop :=
| step_tick st x : at_ st = Idle -> step st (nextTick st x)
| step_fire st i k : at_ st = Idle -> (i, k) ∈ timers st -> step st (fire i k st)
| step_turn st : at_ st <> Idle -> step st (turn st).

Inductive reachable : state -> Prop :=
| reachable_init : reachable init
| reachable_step st st' : reachable st -> step st st' -> reachable st'.

(** The page left alone: the code runs on, and the timers fire one by one. *)
Definition tick (st : state) : state :=
  match at_ st with
  | Idle => match timers st with (i, k) :: _ => fire i k st | [] => st end
  | _ => turn st
  end.
Fixpoint ticks (n : nat) (st : state) : state :=
  match n with O => st | S n => ticks n (tick st) end.
End Machine.

Arguments state A : clear implicits.

(** ** The invariant *)

Section Invariant.
Context {A : Type} (behaviour : list A -> A -> list A * bool).

(** The callbacks still to call. *)
Definition pending (st : state A) : list A :=
  match at_ st with
  | Idle => if draining st then drop (Z.to_nat (queueIndex st + 1)) (default [] (currentQueue st)) ++ queue st else queue st
  | Outer _ _ => drop (Z.to_nat (queueIndex st + 1)) (queue st)
  | Inner _ _ => drop (Z.to_nat (queueIndex st + 1)) (default [] (currentQueue st)) ++ queue st
  end.

Definition inv (st : state A) : Prop :=
  sent st = called st ++ pending st /\
  match at_ st with
  | Idle =>
      if draining st then
        exists s e, currentQueue st = Some s /\ 0 <= queueIndex st < zlen s /\ timers st = [(e, CleanUp)]
      else queueIndex st = -1 /\ (queue st = [] /\ timers st = [] \/ queue st <> [] /\ exists i, timers st = [(i, DrainQueue)])
  | Outer e t => draining st = true /\ t = zlen (queue st) /\ -1 <= queueIndex st < Z.max 0 t /\ timers st = [(e, CleanUp)]
  | Inner e t => draining st = true /\ exists s, currentQueue st = Some s /\ t = zlen s /\ -1 <= queueIndex st < t /\ timers st = [(e, CleanUp)]
  end.

Lemma nextTicks_draining xs : forall st : state A, draining st = true ->
  foldl nextTick st xs = State (queue st ++ xs) true (currentQueue st) (queueIndex st) (timers st) (lastTimer st) (at_ st) (sent st ++ xs) (called st).
Proof.
  induction xs as [|x xs IH]; intros [l c s f ts n p se ca] Hd; cbn in Hd; subst c; cbn [foldl].
  - by rewrite !app_nil_r.
  - unfold nextTick at 2. cbn. rewrite orb_true_r, IH by done. cbn. by rewrite <- !app_assoc.
Qed.

Lemma clear_only (i : Z) (k : timer) : List.filter (fun ik => negb (fst ik =? i)) [(i, k)] = [].
Proof. cbn. by rewrite Z.eqb_refl. Qed.

Lemma nextTick_inv st x : at_ st = Idle -> inv st -> inv (nextTick st x).
Proof.
  destruct st as [l c s f ts n p se ca]. unfold inv, pending. cbn. intros -> [Hs Hi]. unfold nextTick. cbn. destruct c; cbn.
  - rewrite orb_true_r. cbn. split; [by rewrite Hs, !app_assoc|done].
  - rewrite orb_false_r. destruct Hi as [-> [[-> ->]|[Hne [i ->]]]]; cbn.
    + split; [by rewrite Hs, app_nil_r|]. split; [done|]. right. split; [done|by eexists].
    + destruct (Z.eqb_spec (zlen (l ++ [x])) 1) as [E|_]; cbn.
      * exfalso. apply Hne. destruct l; [done|]. rewrite zlen_app in E. unfold zlen in E. cbn in E. lia.
      * split; [by rewrite Hs, app_assoc|]. split; [done|]. right. split; [by destruct l|by eexists].
Qed.

(** drainQueue, called when it does not run. *)
Lemma drainQueue_inv (st : state A) : draining st = false -> timers st = [] -> -1 <= queueIndex st < zlen (queue st) ->
  sent st = called st ++ drop (Z.to_nat (queueIndex st + 1)) (queue st) -> inv (drainQueue st).
Proof.
  destruct st as [l c s f ts n p se ca]. unfold inv, pending, drainQueue. cbn. intros -> -> Hf Hs. cbn. split; [done|]. split_and!; [done|done|lia|lia|done].
Qed.

Lemma fire_inv st i k : at_ st = Idle -> (i, k) ∈ timers st -> inv st -> inv (fire i k st).
Proof.
  destruct st as [l c s f ts n p se ca]. unfold inv at 1, pending at 1. cbn. intros -> Hin [Hs Hi]. destruct c.
  - destruct Hi as (s' & e & -> & Hf & ->). apply list_elem_of_singleton in Hin as [= -> ->]. unfold fire. unfold clearTimeout at 1. cbn [timers]. rewrite clear_only.
    unfold cleanUpNextTick. cbn [draining currentQueue queue queueIndex timers lastTimer at_ sent called]. destruct (Z.eqb_spec (zlen s') 0) as [E|E]; [lia|]. pose proof (zlen_nonneg l).
    destruct (Z.eqb_spec (zlen (s' ++ l)) 0) as [E2|E2]; [rewrite zlen_app in E2; lia|]. apply drainQueue_inv; cbn; [done|done|rewrite zlen_app; lia|].
    rewrite Hs. cbn. f_equal. rewrite drop_app_le; [done|]. unfold zlen in *. lia.
  - destruct Hi as [-> [[-> ->]|[Hne [j ->]]]]; [by apply elem_of_nil in Hin|]. apply list_elem_of_singleton in Hin as [= -> ->].
    unfold fire, clearTimeout. cbn [timers]. rewrite clear_only. apply drainQueue_inv; cbn; [done|done| |done].
    destruct l; [done|]. unfold zlen. cbn. lia.
Qed.

Lemma turn_inv st : at_ st <> Idle -> inv st -> inv (turn behaviour st).
Proof.
  destruct st as [l c s f ts n p se ca]. unfold inv at 1, pending at 1. cbn. destruct p as [|e t|e t]; [done|intros _ [Hs Hi]..].
  - destruct Hi as (-> & -> & Hf & ->). unfold turn. cbn. destruct (Z.eqb_spec (zlen l) 0) as [E|E].
    + assert (l = []) as -> by (destruct l; [done|unfold zlen in E; cbn in E; lia]). unfold clearTimeout, inv, pending. cbn. rewrite Z.eqb_refl. cbn.
      rewrite drop_nil in Hs. split; [done|]. split; [lia|by left].
    + unfold inv, pending. cbn. split; [by rewrite app_nil_r|]. split; [done|]. exists l. pose proof (zlen_nonneg l). split_and!; [done..|lia|lia|done].
  - destruct Hi as (-> & s' & -> & -> & Hf & ->). unfold turn. cbn. destruct (Z.ltb_spec (f + 1) (zlen s')) as [Hlt|Hge].
    + destruct (zget_in_range s' (f + 1)) as [x Hx]; [lia|]. rewrite Hx. unfold call. cbn. destruct (behaviour ca x) as [xs throws].
      assert (drop (Z.to_nat (f + 1)) s' = x :: drop (Z.to_nat (f + 1 + 1)) s') as Hd.
      { unfold zget in Hx. destruct (Z.ltb_spec (f + 1) 0); [done|]. rewrite (drop_S _ _ _ Hx). by replace (Z.to_nat (f + 1 + 1)) with (S (Z.to_nat (f + 1))) by lia. }
      rewrite nextTicks_draining by done. cbn in *. rewrite Hd in Hs.
      destruct throws; unfold inv, pending; cbn; (split; [by rewrite Hs, <- !app_assoc|]).
      * exists s', e. split_and!; [done|lia|lia|done].
      * split; [done|]. exists s'. split_and!; [done..|lia|lia|done].
    + unfold inv, pending. cbn. rewrite drop_ge in Hs by (unfold zlen in *; cbn; lia). cbn in Hs.
      split; [done|]. pose proof (zlen_nonneg l). split_and!; [done|done|lia|lia|done].
Qed.

Lemma reachable_inv st : reachable behaviour st -> inv st.
Proof.
  induction 1 as [|st st' _ IH Hst]; [by split; [|split; [|left]]|]. destruct Hst; [by apply nextTick_inv|by apply fire_inv|by apply turn_inv].
Qed.

(** C20: Whatever callbacks do, queue more or throw, and whenever the timers fire, the callbacks are called in the order in
    which they were queued, each once, and none is forgotten: as long as one is left, the queue runs or a timer is set. *)
Theorem nextTick_order st : reachable behaviour st ->
  called st `prefix_of` sent st /\ (called st = sent st \/ at_ st <> Idle \/ timers st <> []).
Proof.
  intros Hr. destruct (reachable_inv st Hr) as [Hs Hi]. split; [by exists (pending st)|].
  destruct (at_ st) as [| |] eqn:Ep; [|right; by left..]. unfold pending in Hs. rewrite Ep in Hs. destruct (draining st).
  - destruct Hi as (s & e & _ & _ & ->). right. by right.
  - destruct Hi as [_ [[Hq _]|[_ [i ->]]]]; [left; by rewrite Hs, Hq, app_nil_r|right; by right].
Qed.

(** ** Progress *)

Section Progress.
(** Callbacks weigh more than those they queue: a chain of them comes to an end. *)
Context (weight : A -> nat).
Hypothesis lighter : forall before x, (list_sum (map weight (fst (behaviour before x))) < weight x)%nat.

Definition total (l : list A) : nat := list_sum (map weight l).

Lemma total_app l r : total (l ++ r) = (total l + total r)%nat.
Proof. unfold total. rewrite map_app. apply list_sum_app. Qed.

Lemma total_cons x l : total (x :: l) = (weight x + total l)%nat.
Proof. done. Qed.

Lemma total_lighter before x xs b : behaviour before x = (xs, b) -> (total xs < weight x)%nat.
Proof. intros E. pose proof (lighter before x) as H. by rewrite E in H. Qed.

#[local] Opaque total.

(** At most this many steps to the end of the queue. *)
Definition potential (st : state A) : nat :=
  (6 * total (pending st) +
   match at_ st with
   | Idle => match timers st with [] => 0 | _ => 5 end
   | Outer _ t => if ((t =? 0) || (queueIndex st + 1 <? t))%Z then 2 else 4
   | Inner _ t => if (queueIndex st + 1 <? t)%Z then 1 else 3
   end)%nat.

Lemma tick_inv st : inv st -> inv (tick behaviour st).
Proof.
  intros Hi. unfold tick. destruct (at_ st) eqn:Ep; [|apply turn_inv; congruence..].
  destruct (timers st) as [|[i k] ts] eqn:Et; [done|]. apply fire_inv; [done| |done]. rewrite Et. by left.
Qed.

Ltac fields := cbn [queue draining currentQueue queueIndex timers lastTimer at_ sent called].

Lemma tick_potential st : inv st -> at_ st <> Idle \/ timers st <> [] -> (potential (tick behaviour st) < potential st)%nat.
Proof.
  destruct st as [l c s f ts n p se ca]. unfold inv, pending. cbn. intros [Hs Hi] Hrun. destruct p as [|e t|e t].
  - destruct Hrun as [|Hts]; [done|]. destruct c.
    + destruct Hi as (s' & e & -> & Hf & ->). unfold tick, fire, clearTimeout. cbn [at_ timers]. rewrite clear_only.
      unfold cleanUpNextTick. cbn [draining currentQueue queue queueIndex timers lastTimer at_ sent called]. destruct (Z.eqb_spec (zlen s') 0) as [E|E]; [lia|]. pose proof (zlen_nonneg l).
      destruct (Z.eqb_spec (zlen (s' ++ l)) 0) as [E2|E2]; [rewrite zlen_app in E2; lia|]. unfold drainQueue, potential, pending. cbn.
      rewrite drop_app_le by (unfold zlen in *; lia). destruct (_ || _); lia.
    + destruct Hi as [-> [[-> ->]|[Hne [j ->]]]]; [done|]. unfold tick, fire, clearTimeout. cbn [at_ timers]. rewrite clear_only. unfold drainQueue, potential, pending. cbn.
      rewrite drop_0. destruct (_ || _); lia.
  - destruct Hi as (-> & -> & Hf & ->). unfold tick, turn. fields. destruct (Z.eqb_spec (zlen l) 0) as [E|E]; unfold potential, pending; cbn -[Nat.mul Z.eqb Z.ltb].
    + assert (l = []) as -> by (destruct l; [done|unfold zlen in E; cbn in E; lia]). rewrite Z.eqb_refl, drop_nil. cbn -[Nat.mul]. lia.
    + rewrite app_nil_r. destruct (_ <? _); lia.
  - destruct Hi as (-> & s' & -> & -> & Hf & ->). unfold tick, turn. fields. destruct (Z.ltb_spec (f + 1) (zlen s')) as [Hlt|Hge].
    + destruct (zget_in_range s' (f + 1)) as [x Hx]; [lia|]. rewrite Hx. unfold call. fields. destruct (behaviour ca x) as [xs throws] eqn:Eb. apply total_lighter in Eb.
      assert (drop (Z.to_nat (f + 1)) s' = x :: drop (Z.to_nat (f + 1 + 1)) s') as Hd.
      { unfold zget in Hx. destruct (Z.ltb_spec (f + 1) 0); [done|]. rewrite (drop_S _ _ _ Hx). by replace (Z.to_nat (f + 1 + 1)) with (S (Z.to_nat (f + 1))) by lia. }
      rewrite nextTicks_draining by done. fields. destruct throws; unfold potential, pending; cbn -[Nat.mul]; rewrite Hd, !total_app, total_cons;
        [|destruct (_ <? _)]; lia.
    + unfold potential, pending. cbn -[Nat.mul]. rewrite (drop_ge s') by (unfold zlen in *; lia). cbn -[Nat.mul].
      rewrite drop_0. destruct (Z.eqb_spec (zlen l) 0); cbn -[Nat.mul]; [lia|]. destruct (Z.ltb_spec (-1 + 1) (zlen l)); [lia|]. pose proof (zlen_nonneg l). lia.
Qed.

Lemma nextTicks_sent xs : forall st : state A, sent (foldl nextTick st xs) = sent st ++ xs.
Proof.
  induction xs as [|x xs IH]; intros st; cbn [foldl]; [by rewrite app_nil_r|]. rewrite IH.
  assert (sent (nextTick st x) = sent st ++ [x]) as -> by (unfold nextTick; by destruct (_ || _)). by rewrite <- app_assoc.
Qed.

Lemma tick_sent st : sent st `prefix_of` sent (tick behaviour st).
Proof.
  assert (forall st : state A, sent (drainQueue st) = sent st) as Hd by (intros [l c s f ts n p se ca]; unfold drainQueue; cbn; by destruct c).
  unfold tick. destruct (at_ st) eqn:Ep.
  - destruct (timers st) as [|[i [|]] ts]; [done|unfold fire; by rewrite Hd|]. unfold fire, cleanUpNextTick, clearTimeout. fields. destruct (draining st), (currentQueue st) as [s|]; try done.
    destruct (zlen s =? 0); cbn [queue]; case_match; try rewrite Hd; done.
  - unfold turn. rewrite Ep. by destruct (_ =? 0).
  - unfold turn. rewrite Ep. cbn [currentQueue]. destruct (_ <? _); [|done]. destruct (currentQueue st) as [s|]; [|done]. destruct (zget s _) as [x|]; [|done].
    unfold call. cbn. destruct (behaviour (called st) x) as [xs throws]. exists xs. destruct throws; cbn; by rewrite nextTicks_sent.
Qed.

Lemma settles st : inv st -> exists n, let st' := ticks behaviour n st in inv st' /\ sent st `prefix_of` sent st' /\ at_ st' = Idle /\ timers st' = [].
Proof.
  remember (potential st) as m eqn:Em. revert st Em. induction m as [m IH] using lt_wf_ind. intros st -> Hi.
  assert (at_ st = Idle /\ timers st = [] \/ (at_ st <> Idle \/ timers st <> [])) as [[Hp Ht]|Hne].
  { destruct (at_ st); [|right; by left..]. destruct (timers st); [by left|right; by right]. }
  - by exists O.
  - destruct (IH (potential (tick behaviour st))) with (st := tick behaviour st) as [n (H1 & H2 & H3 & H4)]; [by apply tick_potential|done|by apply tick_inv|].
    exists (S n). split_and!; [done| |done|done]. etrans; [apply tick_sent|done].
Qed.

End Progress.
End Invariant.
(** C21: When chains of callbacks come to an end, the page left alone calls every callback that was queued, the ones queued on
    the way included, even if callbacks throw: from any state it comes to rest with nothing left. *)
Theorem nextTick_settles {A} (behaviour : list A -> A -> list A * bool) (weight : A -> nat) st :
  (forall before x, (list_sum (map weight (fst (behaviour before x))) < weight x)%nat) -> reachable behaviour st ->
  exists n, let st' := ticks behaviour n st in called st' = sent st' /\ sent st `prefix_of` sent st' /\ timers st' = [].
Proof.
  intros Hw Hr. destruct (settles behaviour weight Hw st (reachable_inv _ _ Hr)) as (n & [Hs Hi] & Hpre & Hp & Ht). exists n. split_and!; [|done|done].
  unfold pending in Hs. rewrite Hp in *. destruct (draining _).
  - destruct Hi as (s & e & _ & _ & E). by rewrite Ht in E.
  - destruct Hi as [_ [[Hq _]|[_ [i E]]]]; [by rewrite Hs, Hq, app_nil_r|by rewrite Ht in E].
Qed.

(** Callback [n] queues the callbacks below it and throws when it is even. *)
Definition cascade (before : list nat) (n : nat) : list nat * bool := (match n with S (S m) => [m] | _ => [] end, Nat.even n).

Definition queued : state nat := foldl nextTick init [5; 4; 0]%nat.

Lemma queued_reachable : reachable cascade queued.
Proof.
  unfold queued. cbn [foldl]. do 3 (eapply reachable_step; [|by constructor]). constructor.
Qed.

Lemma nextTick_order_witness : called queued `prefix_of` sent queued /\ (called queued = sent queued \/ at_ queued <> Idle \/ timers queued <> []).
Proof. exact (nextTick_order cascade queued queued_reachable). Defined.

Lemma nextTick_settles_witness : exists n, let st' := ticks cascade n queued in called st' = sent st' /\ sent queued `prefix_of` sent st' /\ timers st' = [].
Proof. apply (nextTick_settles cascade S queued); [intros before [|[|n]]; cbn; lia|exact queued_reachable]. Defined.

End NextTick.
