(* ===== verification/Reselect.v ===== *)
(** * Reselect

    Models the selectors module (lines 4764 to 4838 of
    src/client/docs/swagger-ui/swagger-ui-bundle.js): defaultMemoize,
    createSelectorCreator over it, and createStructuredSelector.  A function may throw;
    its closure variables are explicit states.

    The values that flow through selectors are of any type, compared by any function. *)

From S2P Require Import Prelude.
From S2P Require Import JsString.
From Stdlib Require Import String.
From stdpp Require Import base numbers list option gmap.
Open Scope Z_scope.

Module Reselect.

Section Memoize.
Context {V R : Type}.

(** ** defaultMemoize *)

(** The variables n and o of the closure; both are null before the first call. *)
Record memo := Memo { lastArgs : option (list V); lastResult : option R }.
Definition no_memo : memo := Memo None None.

Fixpoint every2 (t : V -> V -> bool) (i n : list V) : bool :=
  match i, n with
  | x :: i, y :: n => t x y && every2 t i n
  | [], [] => true
  | _, _ => false
  end.

(** [lengths equal && i.every(...)]. *)
Definition hit (t : V -> V -> bool) (m : memo) (i : list V) : bool :=
  match lastArgs m with
  | None => false
  | Some n => (length n =? length i)%nat && every2 t i n
  end.

(** A call of the memoized function, with the state [s] of the function [e] itself. *)
Definition memoized {S : Type} (t : V -> V -> bool) (e : S -> list V -> S * res R) (ms : memo * S) (i : list V) : (memo * S) * res (option R) :=
  let '(m, s) := ms in
  if hit t m i then ((Memo (Some i) (lastResult m), s), Ok (lastResult m))
  else
    let '(s, r) := e s i in
    match r with
    | Ok r => ((Memo (Some i) (Some r), s), Ok (Some r))
    | Throw x => ((m, s), Throw x)
    end.
End Memoize.

Arguments memo V R : clear implicits.

Section Selector.
Context {X V R : Type} (equal : V -> V -> bool).

(** ** createSelector *)

(** An argument of createSelector: a function, an array, or something else. *)
Inductive argument := Fn (f : X -> res V) | Arr (l : list argument) | NoFn.

Definition is_fn (a : argument) : bool := match a with Fn _ => true | _ => false end.

(** The input selectors of the arguments before the last. *)
Definition getDependencies (r : list argument) : res (list (X -> res V)) :=
  let t := match r with Arr l :: _ => l | _ => r end in
  if forallb is_fn t then Ok (flat_map (fun a => match a with Fn f => [f] | _ => [] end) t)
  else Throw (JsError "Selector creators expect all input-selectors to be functions").

Fixpoint inputs (u : list (X -> res V)) (x : X) : res (list V) :=
  match u with
  | [] => Ok []
  | f :: u => let! v := f x in let! vs := inputs u x in Ok (v :: vs)
  end.

(** The state of a selector: the memo of its result function, and the variable i. *)
Record selector := Selector { dependencies : list (X -> res V); resultFunc : list V -> res R; state : memo V R * Z }.

Definition createSelector (r : list argument) (a : list V -> res R) : res selector :=
  let! u := getDependencies r in Ok (Selector u a (no_memo, 0)).

Definition counted (a : list V -> res R) (i : Z) (args : list V) : Z * res R := (i + 1, a args).

(** A call of the selector. *)
Definition select (s : selector) (x : X) : selector * res (option R) :=
  match inputs (dependencies s) x with
  | Throw e => (s, Throw e)
  | Ok i =>
      let '(st, r) := memoized equal (counted (resultFunc s)) (state s) i in
      (Selector (dependencies s) (resultFunc s) st, r)
  end.

Definition recomputations (s : selector) : Z := snd (state s).
Definition resetRecomputations (s : selector) : selector := Selector (dependencies s) (resultFunc s) (fst (state s), 0).

(** What happens to a selector: calls, and resets of its counter. *)
Inductive event := Call (x : X) | ResetCount.

Fixpoint history (s : selector) (l : list event) : selector * list (res (option R)) :=
  match l with
  | [] => (s, [])
  | Call x :: l => let '(s, r) := select s x in let '(s, rs) := history s l in (s, r :: rs)
  | ResetCount :: l => history (resetRecomputations s) l
  end.

(** What a call should give: the result function of the inputs, without any memory. *)
Definition plain (u : list (X -> res V)) (a : list V -> res R) (x : X) : res (option R) :=
  let! i := inputs u x in let! r := a i in Ok (Some r).

Definition calls (l : list event) : list X := flat_map (fun e => match e with Call x => [x] | ResetCount => [] end) l.

(** ** createStructuredSelector *)

End Selector.

Arguments argument : clear implicits.
Arguments selector : clear implicits.
Arguments event : clear implicits.

(** The result function: an object with the names of the selectors. *)
Definition structured {V} (n : list jsstring) (args : list V) : res (gmap jsstring V) :=
  Ok (foldl (fun e nt => <[fst nt := snd nt]> e) ∅ (zip n args)).

Definition createStructuredSelector {X V} (e : list (jsstring * argument X V)) : res (selector X V (gmap jsstring V)) :=
  createSelector [Arr (map snd e)] (structured (map fst e)).

(** ** Memory is not seen *)

Section Transparent.
Context {X V R : Type} (equal : V -> V -> bool).

Lemma every2_Forall2 i n : every2 equal i n = true <-> Forall2 (fun x y => equal x y = true) i n.
Proof.
  revert n. induction i as [|x i IH]; intros [|y n]; cbn.
  - split; [constructor|done].
  - split; [done|intros H; inversion H].
  - split; [done|intros H; inversion H].
  - rewrite andb_true_iff, IH. split; [intros []; by constructor|intros H; by inversion H].
Qed.

(** The function cannot tell apart what [equal] takes for the same. *)
Definition respects (a : list V -> res R) : Prop := forall i n, Forall2 (fun x y => equal x y = true) i n -> a i = a n.

(** What the memo remembers is what the function returns. *)
Definition memo_ok (a : list V -> res R) (m : memo V R) : Prop :=
  match lastArgs m with None => True | Some n => exists r, lastResult m = Some r /\ a n = Ok r end.

Lemma memoized_ok a m k i : respects a -> memo_ok a m ->
  let '((m', k'), r) := memoized equal (counted a) (m, k) i in
  memo_ok a m' /\ r = (let! r := a i in Ok (Some r)) /\ k <= k' <= k + 1.
Proof.
  intros Ha Hm. unfold memoized. destruct (hit equal m i) eqn:Eh.
  - unfold hit, memo_ok in *. destruct (lastArgs m) as [n|]; [|done]. destruct Hm as (r & Er & En). apply andb_true_iff in Eh as [_ Eh].
    apply every2_Forall2, Ha in Eh. cbn. rewrite Er, Eh, En. split_and!; [by exists r|done|lia|lia].
  - unfold counted. destruct (a i) as [r|e] eqn:E; cbn; (split_and!; [|done|lia|lia]); [by exists r|done].
Qed.

Lemma select_ok (s : selector X V R) x : respects (resultFunc s) -> memo_ok (resultFunc s) (fst (state s)) ->
  let '(s', r) := select equal s x in
  dependencies s' = dependencies s /\ resultFunc s' = resultFunc s /\ memo_ok (resultFunc s) (fst (state s')) /\
  r = plain (dependencies s) (resultFunc s) x /\ recomputations s <= recomputations s' <= recomputations s + 1.
Proof.
  destruct s as [u a [m k]]. unfold select, plain, recomputations. cbn [dependencies resultFunc state fst snd]. intros Ha Hm.
  destruct (inputs u x) as [i|e]; [|cbn; split_and!; done || lia].
  pose proof (memoized_ok a m k i Ha Hm) as H. destruct (memoized equal (counted a) (m, k) i) as [[m' k'] r]. destruct H as (H1 & H2 & H3 & H4). cbn. split_and!; done || lia.
Qed.

Lemma history_ok l : forall s : selector X V R, respects (resultFunc s) -> memo_ok (resultFunc s) (fst (state s)) ->
  let '(s', rs) := history equal s l in
  rs = map (plain (dependencies s) (resultFunc s)) (calls l) /\ recomputations s' <= Z.max 0 (recomputations s) + zlen (calls l).
Proof.
  induction l as [|[x|] l IH]; intros s Ha Hm; cbn [history].
  - split; [done|]. unfold zlen. cbn. lia.
  - pose proof (select_ok s x Ha Hm) as Hs. destruct (select equal s x) as [s1 r]. destruct Hs as (Hd & Hr & Hm1 & -> & Hk).
    specialize (IH s1). rewrite Hr, Hd in IH. specialize (IH Ha Hm1). destruct (history equal s1 l) as [s2 rs]. destruct IH as [-> IH]. 
    change (calls (Call x :: l)) with (x :: calls l). split; [done|]. rewrite zlen_cons. lia.
  - specialize (IH (resetRecomputations s) Ha Hm). destruct (history equal (resetRecomputations s) l) as [s2 rs]. destruct IH as [-> IH].
    change (calls (ResetCount :: l)) with (calls l). split; [done|]. unfold recomputations in *. cbn [resetRecomputations state snd] in IH. lia.
Qed.

End Transparent.
(** C24: A selector that createSelector makes returns on every call what its result function gives for the inputs, as if it
    kept nothing, whatever the calls before and whichever of its functions throw, provided the result function cannot tell
    apart inputs that are equal; and it computes at most once a call. *)
Theorem selector_transparent {X V R} (equal : V -> V -> bool) (deps : list (X -> res V)) (a : list V -> res R) l : respects equal a ->
  exists s, createSelector (map Fn deps) a = Ok s /\
    let '(s', rs) := history equal s l in rs = map (plain deps a) (calls l) /\ recomputations s' <= zlen (calls l).
Proof.
  intros Ha. exists (Selector deps a (no_memo, 0)). split.
  - unfold createSelector, getDependencies. assert ((match map (@Fn X V) deps with Arr l :: _ => l | _ => map Fn deps end) = map Fn deps) as -> by (by destruct deps).
    assert (forallb is_fn (map (@Fn X V) deps) = true) as -> by (by apply forallb_forall; intros ? (? & <- & _)%in_map_iff). cbn. do 2 f_equal.
    induction deps as [|f u IH]; [done|]. cbn. by rewrite IH.
  - pose proof (history_ok equal l (Selector deps a (no_memo, 0)) Ha I) as H. by destruct (history equal _ l) as [s' rs].
Qed.

Lemma selector_transparent_witness : let a := fun l => match l with [x; y] => if y =? 0 then Throw (JsError "division") else Ok (x / y) | _ => Ok 0 end in
  exists s, createSelector (map Fn [fun p : Z * Z => Ok (fst p); fun p => Ok (snd p)]) a = Ok s /\
    let '(s', rs) := history Z.eqb s [Call (6, 3); Call (6, 3); Call (6, 0); ResetCount; Call (6, 3)] in
    rs = [Ok (Some 2); Ok (Some 2); Throw (JsError "division"); Ok (Some 2)] /\ recomputations s' <= 4.
Proof.
  intros a. assert (respects Z.eqb a) as Ha.
  { intros i n H. f_equal. induction H as [|x y i n E _ IH]; [done|]. f_equal; [by apply Z.eqb_eq|done]. }
  exact (selector_transparent Z.eqb [fun p : Z * Z => Ok (fst p); fun p => Ok (snd p)] a [Call (6, 3); Call (6, 3); Call (6, 0); ResetCount; Call (6, 3)] Ha).
Defined.

(** The inputs stay equal from one call to the next, beginning with [n]. *)
Fixpoint steady {X V} (equal : V -> V -> bool) (deps : list (X -> res V)) (n : list V) (xs : list X) : Prop :=
  match xs with
  | [] => True
  | y :: xs => exists i, inputs deps y = Ok i /\ every2 equal i n = true /\ steady equal deps i xs
  end.

Lemma every2_length {V} (equal : V -> V -> bool) i n : every2 equal i n = true -> length n = length i.
Proof. revert n. induction i as [|x i IH]; intros [|y n] E; cbn in *; [done|done|done|]. apply andb_true_iff in E as [_ E]. by rewrite (IH n). Qed.

(** While the inputs of a selector stay equal from one call to the next, its result function runs once, and every call
    gives the same result. *)
Theorem selector_computes_once {X V R} (equal : V -> V -> bool) (deps : list (X -> res V)) (a : list V -> res R) x xs n r :
  inputs deps x = Ok n -> a n = Ok r -> steady equal deps n xs ->
  let '(s, rs) := history equal (Selector deps a (no_memo, 0)) (map Call (x :: xs)) in
  recomputations s = 1 /\ rs = replicate (S (length xs)) (Ok (Some r)).
Proof.
  intros Ex Ea Hxs. cbn [map history]. unfold select. cbn [dependencies resultFunc state]. rewrite Ex. unfold memoized. cbn [hit lastArgs no_memo counted]. rewrite Ea.
  assert (forall xs n, steady equal deps n xs -> history equal (Selector deps a (Memo (Some n) (Some r), 0 + 1)) (map Call xs) =
    (fst (history equal (Selector deps a (Memo (Some n) (Some r), 0 + 1)) (map Call xs)), replicate (length xs) (Ok (Some r))) /\
    recomputations (fst (history equal (Selector deps a (Memo (Some n) (Some r), 0 + 1)) (map Call xs))) = 1) as H.
  { clear. induction xs as [|y xs IH]; intros n Hs; [done|]. destruct Hs as (i & Ei & Eq & Hs). cbn [map history length replicate]. unfold select.
    cbn [dependencies resultFunc state]. rewrite Ei. unfold memoized, hit. cbn [lastArgs lastResult].
    rewrite (every2_length _ _ _ Eq), Nat.eqb_refl, Eq. cbn [andb]. destruct (IH i Hs) as [E1 E2]. rewrite E1. done. }
  destruct (H xs n Hxs) as [-> H2]. done.
Qed.

Lemma selector_computes_once_witness :
  let '(s, rs) := history Z.eqb (Selector [fun p : Z * Z => Ok (fst p)] (fun l => Ok (length l)) (no_memo, 0)) (map Call [(6, 1); (6, 2); (6, 3)]) in
  recomputations s = 1 /\ rs = replicate 3 (Ok (Some 1%nat)).
Proof.
  apply (selector_computes_once Z.eqb [fun p : Z * Z => Ok (fst p)] (fun l => Ok (length l)) (6, 1) [(6, 2); (6, 3)] [6] 1%nat); [reflexivity|reflexivity|].
  exists [6]. split_and!; [reflexivity|reflexivity|]. exists [6]. split_and!; [reflexivity|reflexivity|exact I].
Defined.

End Reselect.
