(* ===== verification/ReduxStore.v ===== *)
(** * The Redux store

    Models createStore (lines 9819 to 9911 of
    src/client/docs/swagger-ui/swagger-ui-bundle.js): the closure variables s, l, c, f
    and p, with the two arrays of listeners c and f in a heap, because the code compares
    them by identity, copies one before it changes it, and walks over it while listeners
    run.  Listeners and reducers are programs over the store: they may dispatch,
    subscribe, unsubscribe, replace the reducer and throw, at any depth.

    A program gives a result for a number of nested steps; the theorems hold for each
    number, so a run that does not end in the model of the code does not end in the
    specification either.  Enhancers (they replace createStore) and the observable
    interface are not modelled. *)

From S2P Require Import Prelude.
From Stdlib Require Import String.
From stdpp Require Import base numbers list option.
Open Scope Z_scope.

Module ReduxStore.

Section Store.
(** States, action types; listeners and reducers are given by their names. *)
Context {S T : Type}.

(** An action: whether it is a plain object, and its type if it has one. *)
Record action := Action { plain : bool; type : option T }.

Inductive prog (R : Type) :=
| Ret (r : R)
| Raise (e : jserr)
| Dispatch (a : action) (k : res unit -> prog R)
| Subscribe (f : Z) (k : nat -> prog R)
| Unsubscribe (h : nat) (k : prog R)
| GetState (k : S -> prog R)
| ReplaceReducer (r : Z) (k : res unit -> prog R).

(** ** The code *)

(** The arrays are numbers of the heap; [handles] are the functions that subscribe has
    returned, with their variables e and t. *)
Record store := Store {
  currentReducer : Z;
  currentState : S;
  currentListeners : nat;
  nextListeners : nat;
  isDispatching : bool;
  heap : list (list Z);
  handles : list (Z * bool)
}.

Context (reducer : Z -> S -> action -> prog S) (listener : Z -> prog unit) (INIT : T).

Definition array (a : nat) (st : store) : list Z := default [] (heap st !! a).

Definition set_array (a : nat) (l : list Z) (st : store) : store :=
  Store (currentReducer st) (currentState st) (currentListeners st) (nextListeners st) (isDispatching st) (<[a := l]> (heap st)) (handles st).
Definition set_dispatching (b : bool) (st : store) : store :=
  Store (currentReducer st) (currentState st) (currentListeners st) (nextListeners st) b (heap st) (handles st).
Definition set_state (s : S) (st : store) : store :=
  Store (currentReducer st) s (currentListeners st) (nextListeners st) (isDispatching st) (heap st) (handles st).
Definition set_reducer (r : Z) (st : store) : store :=
  Store r (currentState st) (currentListeners st) (nextListeners st) (isDispatching st) (heap st) (handles st).
Definition set_handles (hs : list (Z * bool)) (st : store) : store :=
  Store (currentReducer st) (currentState st) (currentListeners st) (nextListeners st) (isDispatching st) (heap st) hs.
(** [c = f]. *)
Definition take_listeners (st : store) : store :=
  Store (currentReducer st) (currentState st) (nextListeners st) (nextListeners st) (isDispatching st) (heap st) (handles st).

(** [f === c && (f = c.slice())]. *)
Definition ensureCanMutateNextListeners (st : store) : store :=
  if (nextListeners st =? currentListeners st)%nat then
    Store (currentReducer st) (currentState st) (currentListeners st) (length (heap st)) (isDispatching st)
      (heap st ++ [array (currentListeners st) st]) (handles st)
  else st.

Definition subscribe (f : Z) (st : store) : store * nat :=
  let st := ensureCanMutateNextListeners st in
  let st := set_array (nextListeners st) (array (nextListeners st) st ++ [f]) st in
  (set_handles (handles st ++ [(f, true)]) st, length (handles st)).

(** [l.splice(l.indexOf(x), 1)], which takes the last element when there is no [x]. *)
Definition splice_listener (x : Z) (l : list Z) : list Z :=
  let n := index_of x l in
  let n := if n <? 0 then Z.max (zlen l + n) 0 else n in
  take (Z.to_nat n) l ++ drop (Datatypes.S (Z.to_nat n)) l.

Definition unsubscribe (h : nat) (st : store) : store :=
  match handles st !! h with
  | Some (e, true) =>
      let st := ensureCanMutateNextListeners (set_handles (<[h := (e, false)]> (handles st)) st) in
      set_array (nextListeners st) (splice_listener e (array (nextListeners st) st)) st
  | _ => st
  end.

Definition check_action (a : action) (busy : bool) : res unit :=
  if negb (plain a) then Throw (JsError "Actions must be plain objects. Use custom middleware for async actions.")
  else match type a with
       | None => Throw (JsError "Actions may not have an undefined type property. Have you misspelled a constant?")
       | Some _ => if busy then Throw (JsError "Reducers may not dispatch actions.") else Ok tt
       end.

(** The loop over the array [t]: its length and its elements are read anew each turn. *)
Fixpoint notify (run : prog unit -> store -> option (store * res unit)) (fuel : nat) (t n : nat) (st : store) : option (store * res unit) :=
  match array t st !! n with
  | None => Some (st, Ok tt)
  | Some o =>
      match fuel with
      | O => None
      | Datatypes.S fuel =>
          match run (listener o) st with
          | Some (st, Ok _) => notify run fuel t (Datatypes.S n) st
          | r => r
          end
      end
  end.

Definition dispatch (reduce : prog S -> store -> option (store * res S)) (run : prog unit -> store -> option (store * res unit))
    (fuel : nat) (a : action) (st : store) : option (store * res unit) :=
  match check_action a (isDispatching st) with
  | Throw e => Some (st, Throw e)
  | Ok _ =>
      match reduce (reducer (currentReducer st) (currentState st) a) (set_dispatching true st) with
      | Some (st, Ok s) =>
          let st := take_listeners (set_dispatching false (set_state s st)) in
          notify run fuel (currentListeners st) 0 st
      | Some (st, Throw e) => Some (set_dispatching false st, Throw e)
      | None => None
      end
  end.

(** A program on the store; [None] when there are not enough steps. *)
Fixpoint exec (fuel : nat) {R} (p : prog R) (st : store) {struct fuel} : option (store * res R) :=
  match fuel with
  | O => None
  | Datatypes.S fuel =>
      match p with
      | Ret _ r => Some (st, Ok r)
      | Raise _ e => Some (st, Throw e)
      | Dispatch _ a k =>
          match dispatch (exec fuel) (exec fuel) fuel a st with
          | Some (st, r) => exec fuel (k r) st
          | None => None
          end
      | Subscribe _ f k => let '(st, h) := subscribe f st in exec fuel (k h) st
      | Unsubscribe _ h k => exec fuel k (unsubscribe h st)
      | GetState _ k => exec fuel (k (currentState st)) st
      | ReplaceReducer _ r k =>
          match dispatch (exec fuel) (exec fuel) fuel (Action true (Some INIT)) (set_reducer r st) with
          | Some (st, r) => exec fuel (k r) st
          | None => None
          end
      end
  end.

(** [createStore(reducer, preloadedState)]: the store, or the exception of the reducer. *)
Definition createStore (fuel : nat) (r : Z) (preloaded : S) : option (store * res unit) :=
  dispatch (exec fuel) (exec fuel) fuel (Action true (Some INIT)) (Store r preloaded 0 0 false [[]] []).

(** ** The specification

    One list of listeners; a dispatch calls those that are in the list when the reducer
    has returned, whatever happens to the list meanwhile. *)

Record sstore := SStore {
  s_reducer : Z;
  s_state : S;
  s_listeners : list Z;
  s_dispatching : bool;
  s_handles : list (Z * bool)
}.

(** Without the first occurrence of [x]. *)
Fixpoint remove_first (x : Z) (l : list Z) : list Z :=
  match l with
  | [] => []
  | y :: l => if y =? x then l else y :: remove_first x l
  end.

Definition s_subscribe (f : Z) (st : sstore) : sstore * nat :=
  (SStore (s_reducer st) (s_state st) (s_listeners st ++ [f]) (s_dispatching st) (s_handles st ++ [(f, true)]), length (s_handles st)).

Definition s_unsubscribe (h : nat) (st : sstore) : sstore :=
  match s_handles st !! h with
  | Some (e, true) => SStore (s_reducer st) (s_state st) (remove_first e (s_listeners st)) (s_dispatching st) (<[h := (e, false)]> (s_handles st))
  | _ => st
  end.

Fixpoint s_notify (run : prog unit -> sstore -> option (sstore * res unit)) (fuel : nat) (l : list Z) (st : sstore) : option (sstore * res unit) :=
  match l with
  | [] => Some (st, Ok tt)
  | o :: l =>
      match fuel with
      | O => None
      | Datatypes.S fuel =>
          match run (listener o) st with
          | Some (st, Ok _) => s_notify run fuel l st
          | r => r
          end
      end
  end.

Definition s_set_dispatching (b : bool) (st : sstore) : sstore := SStore (s_reducer st) (s_state st) (s_listeners st) b (s_handles st).
Definition s_set_state (s : S) (st : sstore) : sstore := SStore (s_reducer st) s (s_listeners st) (s_dispatching st) (s_handles st).
Definition s_set_reducer (r : Z) (st : sstore) : sstore := SStore r (s_state st) (s_listeners st) (s_dispatching st) (s_handles st).

Definition s_dispatch (reduce : prog S -> sstore -> option (sstore * res S)) (run : prog unit -> sstore -> option (sstore * res unit))
    (fuel : nat) (a : action) (st : sstore) : option (sstore * res unit) :=
  match check_action a (s_dispatching st) with
  | Throw e => Some (st, Throw e)
  | Ok _ =>
      match reduce (reducer (s_reducer st) (s_state st) a) (s_set_dispatching true st) with
      | Some (st, Ok s) => let st := s_set_dispatching false (s_set_state s st) in s_notify run fuel (s_listeners st) st
      | Some (st, Throw e) => Some (s_set_dispatching false st, Throw e)
      | None => None
      end
  end.

Fixpoint s_exec (fuel : nat) {R} (p : prog R) (st : sstore) {struct fuel} : option (sstore * res R) :=
  match fuel with
  | O => None
  | Datatypes.S fuel =>
      match p with
      | Ret _ r => Some (st, Ok r)
      | Raise _ e => Some (st, Throw e)
      | Dispatch _ a k =>
          match s_dispatch (s_exec fuel) (s_exec fuel) fuel a st with
          | Some (st, r) => s_exec fuel (k r) st
          | None => None
          end
      | Subscribe _ f k => let '(st, h) := s_subscribe f st in s_exec fuel (k h) st
      | Unsubscribe _ h k => s_exec fuel k (s_unsubscribe h st)
      | GetState _ k => s_exec fuel (k (s_state st)) st
      | ReplaceReducer _ r k =>
          match s_dispatch (s_exec fuel) (s_exec fuel) fuel (Action true (Some INIT)) (s_set_reducer r st) with
          | Some (st, r) => s_exec fuel (k r) st
          | None => None
          end
      end
  end.

(** ** The code meets it *)

(** The listeners whose handles are in use. *)
Definition active (hs : list (Z * bool)) : list Z := flat_map (fun h => if snd h : bool then [fst h] else []) hs.

Record sim (st : store) (sp : sstore) : Prop := {
  sim_reducer : currentReducer st = s_reducer sp;
  sim_state : currentState st = s_state sp;
  sim_dispatching : isDispatching st = s_dispatching sp;
  sim_handles : handles st = s_handles sp;
  sim_listeners : heap st !! nextListeners st = Some (s_listeners sp);
  sim_current : (currentListeners st < length (heap st))%nat;
  sim_active : s_listeners sp ≡ₚ active (s_handles sp)
}.

(** The arrays that are never changed again: all but the next one, and that too while it
    is the current one. *)
Definition frozen (st : store) (a : nat) : Prop := (a < length (heap st))%nat /\ (a = nextListeners st -> nextListeners st = currentListeners st).

Definition frame (st st' : store) : Prop := forall a, frozen st a -> frozen st' a /\ heap st' !! a = heap st !! a.

Lemma heap_frame_refl st : frame st st.
Proof. by intros a Ha. Qed.

Lemma heap_frame_trans st1 st2 st3 : frame st1 st2 -> frame st2 st3 -> frame st1 st3.
Proof. intros H12 H23 a Ha. destruct (H12 a Ha) as [Ha2 E2]. destruct (H23 a Ha2) as [Ha3 E3]. split; [done|congruence]. Qed.

(** The array that may be changed. *)
Lemma ensure_ok st sp : sim st sp -> let st' := ensureCanMutateNextListeners st in
  sim st' sp /\ frame st st' /\ nextListeners st' <> currentListeners st'.
Proof.
  intros [Hr Hs Hd Hh Hl Hc Ha]. unfold ensureCanMutateNextListeners. destruct (Nat.eqb_spec (nextListeners st) (currentListeners st)) as [E|E].
  - rewrite E in Hl. split_and!.
    + split; cbn; try done; [|rewrite length_app; cbn; lia]. rewrite lookup_app_r, Nat.sub_diag by lia. cbn. unfold array. by rewrite Hl.
    + intros a [Hlt Hf]. unfold frozen. cbn. rewrite lookup_app_l, length_app by done. cbn. split; [split; lia|done].
    + cbn. lia.
  - split_and!; [done|apply heap_frame_refl|done].
Qed.

(** A change of that array. *)
Lemma set_array_ok st sp l hs : sim st sp -> nextListeners st <> currentListeners st -> l ≡ₚ active hs ->
  let st' := set_handles hs (set_array (nextListeners st) l st) in
  sim st' (SStore (s_reducer sp) (s_state sp) l (s_dispatching sp) hs) /\ frame st st'.
Proof.
  intros [Hr Hs Hd Hh Hl Hc Ha] Hne Hp. split.
  - split; cbn; try done; [|by rewrite length_insert]. apply list_lookup_insert_eq. by eapply lookup_lt_Some.
  - intros a [Hlt Hf]. unfold frozen. cbn. rewrite length_insert. split; [split; [done|intros ->; exfalso; by apply Hne, Hf]|].
    apply list_lookup_insert_ne. intros <-. by apply Hne, Hf.
Qed.

Lemma remove_first_app x l1 l2 : x ∉ l1 -> remove_first x (l1 ++ x :: l2) = l1 ++ l2.
Proof.
  induction l1 as [|y l1 IH]; intros Hx; cbn; [by rewrite Z.eqb_refl|]. apply not_elem_of_cons in Hx as [Hy Hx].
  rewrite (proj2 (Z.eqb_neq y x)), IH by done. done.
Qed.

Lemma splice_remove x l : x ∈ l -> splice_listener x l = remove_first x l /\ l ≡ₚ x :: remove_first x l.
Proof.
  intros Hx. apply list_elem_of_split_l in Hx as (l1 & l2 & -> & Hx). unfold splice_listener. rewrite index_of_app, remove_first_app by done.
  pose proof (zlen_nonneg l1). rewrite (proj2 (Z.ltb_ge _ _)) by lia. unfold zlen. rewrite Nat2Z.id, take_app_length. split; [|by rewrite Permutation_middle].
  f_equal. replace (Datatypes.S (length l1)) with (length l1 + 1)%nat by lia. by rewrite drop_app_add'.
Qed.

Lemma active_app hs1 hs2 : active (hs1 ++ hs2) = active hs1 ++ active hs2.
Proof. apply flat_map_app. Qed.

Lemma active_off hs h e : hs !! h = Some (e, true) -> active hs ≡ₚ e :: active (<[h := (e, false)]> hs).
Proof.
  intros Hh. rewrite insert_take_drop by (by eapply lookup_lt_Some). rewrite <- (take_drop_middle hs h _ Hh) at 1.
  rewrite !active_app. cbn. by rewrite Permutation_middle.
Qed.

Lemma subscribe_ok st sp f : sim st sp -> let '(st', h) := subscribe f st in let '(sp', h') := s_subscribe f sp in
  h = h' /\ sim st' sp' /\ frame st st'.
Proof.
  intros Hsim. destruct (ensure_ok st sp Hsim) as (Hs & Hf & Hne). pose proof Hs as [Hr Hst Hd Hh Hl Hc Ha]. unfold subscribe, s_subscribe. cbn zeta.
  assert (array (nextListeners (ensureCanMutateNextListeners st)) (ensureCanMutateNextListeners st) = s_listeners sp) as Harr by (unfold array; by rewrite Hl).
  rewrite Harr. cbn [handles set_array]. rewrite Hh.
  destruct (set_array_ok _ _ (s_listeners sp ++ [f]) (s_handles sp ++ [(f, true)]) Hs Hne) as [H1 H2].
  { rewrite active_app, <- Ha. done. }
  split_and!; [done|done|]. by eapply heap_frame_trans.
Qed.

Lemma unsubscribe_ok st sp h : sim st sp -> sim (unsubscribe h st) (s_unsubscribe h sp) /\ frame st (unsubscribe h st).
Proof.
  intros Hsim. unfold unsubscribe, s_unsubscribe. rewrite (sim_handles _ _ Hsim). destruct (s_handles sp !! h) as [[e [|]]|] eqn:Eh; [|split; [done|apply heap_frame_refl]..].
  destruct (ensure_ok st sp Hsim) as (Hs & Hf & Hne). pose proof Hs as [Hr Hst Hd Hh Hl Hc Ha]. cbn zeta. set (hs := <[h := (e, false)]> (s_handles sp)).
  assert (e ∈ s_listeners sp) as Hin. { rewrite Ha, (active_off _ _ _ Eh). by left. }
  destruct (splice_remove e _ Hin) as [Es Hp]. destruct (set_array_ok _ _ (remove_first e (s_listeners sp)) hs Hs Hne) as [H1 H2].
  { apply (Permutation_cons_inv (a := e)). rewrite <- Hp, Ha. by apply active_off. }
  assert (set_array (nextListeners (ensureCanMutateNextListeners (set_handles hs st)))
      (splice_listener e (array (nextListeners (ensureCanMutateNextListeners (set_handles hs st))) (ensureCanMutateNextListeners (set_handles hs st))))
      (ensureCanMutateNextListeners (set_handles hs st)) =
    set_handles hs (set_array (nextListeners (ensureCanMutateNextListeners st)) (remove_first e (s_listeners sp)) (ensureCanMutateNextListeners st))) as ->.
  { rewrite <- Es. replace (s_listeners sp) with (array (nextListeners (ensureCanMutateNextListeners st)) (ensureCanMutateNextListeners st)) by (unfold array; by rewrite Hl).
    unfold ensureCanMutateNextListeners. cbn. by destruct (_ =? _)%nat. }
  split; [done|]. by eapply heap_frame_trans.
Qed.

(** The same result, and no frozen array changed. *)
Definition agree {R} (st : store) (x : option (store * res R)) (y : option (sstore * res R)) : Prop :=
  match x, y with
  | Some (st', r), Some (sp', r') => r = r' /\ sim st' sp' /\ frame st st'
  | None, None => True
  | _, _ => False
  end.

Lemma agree_frame {R} st st' (x : option (store * res R)) y : frame st st' -> agree st' x y -> agree st x y.
Proof. intros Hf. destruct x as [[]|], y as [[]|]; try done. intros (? & ? & ?). split_and!; [done|done|by eapply heap_frame_trans]. Qed.

Section Dispatch.
Context (fuel : nat).
Context (reduce : prog S -> store -> option (store * res S)) (run : prog unit -> store -> option (store * res unit)).
Context (reduce' : prog S -> sstore -> option (sstore * res S)) (run' : prog unit -> sstore -> option (sstore * res unit)).
Hypothesis Hreduce : forall p st sp, sim st sp -> agree st (reduce p st) (reduce' p sp).
Hypothesis Hrun : forall p st sp, sim st sp -> agree st (run p st) (run' p sp).

(** The array of the loop stays what it was when the loop began. *)
Lemma notify_ok t k : forall l n st sp, sim st sp -> frozen st t -> drop n (array t st) = l -> agree st (notify run k t n st) (s_notify run' k l sp).
Proof.
  induction k as [|k IH]; intros l n st sp Hs Ht El.
  - cbn. destruct l as [|o l].
    + rewrite lookup_ge_None_2; [split_and!; [done|done|apply heap_frame_refl]|]. apply (f_equal length) in El. rewrite length_drop in El. cbn in El. lia.
    + by rewrite <- (Nat.add_0_r n), <- lookup_drop, El.
  - cbn. destruct l as [|o l].
    + rewrite lookup_ge_None_2; [split_and!; [done|done|apply heap_frame_refl]|]. apply (f_equal length) in El. rewrite length_drop in El. cbn in El. lia.
    + assert (array t st !! n = Some o) as -> by (by rewrite <- (Nat.add_0_r n), <- lookup_drop, El).
      pose proof (Hrun (listener o) st sp Hs) as H. destruct (run (listener o) st) as [[st1 [u|e]]|], (run' (listener o) sp) as [[sp1 [u'|e']]|]; try done; try by destruct H as (? & _).
      destruct H as (_ & Hs1 & Hf1). destruct (Hf1 t Ht) as [Ht1 Et]. eapply agree_frame; [exact Hf1|]. apply IH; [done|done|].
      unfold array in *. rewrite Et. replace (Datatypes.S n) with (n + 1)%nat by lia. rewrite <- drop_drop, El. done.
Qed.

Lemma dispatch_ok a st sp : sim st sp -> agree st (dispatch reduce run fuel a st) (s_dispatch reduce' run' fuel a sp).
Proof.
  intros Hsim. unfold dispatch, s_dispatch. rewrite (sim_dispatching _ _ Hsim), (sim_reducer _ _ Hsim), (sim_state _ _ Hsim).
  destruct (check_action a (s_dispatching sp)); [|split_and!; [done|done|apply heap_frame_refl]].
  assert (forall b st sp, sim st sp -> sim (set_dispatching b st) (s_set_dispatching b sp)) as Hset by (intros b st1 sp1 []; by split).
  pose proof (Hreduce (reducer (s_reducer sp) (s_state sp) a) _ _ (Hset true _ _ Hsim)) as H.
  destruct (reduce _ _) as [[st1 [s|e]]|], (reduce' _ _) as [[sp1 [s'|e']]|]; try done; try by destruct H as (? & _).
  - destruct H as ([= <-] & Hs1 & Hf1). pose proof Hs1 as [Hr Hst Hd Hh Hl Hc Ha]. cbn zeta.
    set (st2 := take_listeners (set_dispatching false (set_state s st1))).
    assert (frame st1 st2) as Hf2. { intros x [Hlt Hx]. split; [split; [done|done]|done]. }
    eapply agree_frame; [eapply heap_frame_trans; [exact Hf1|exact Hf2]|]. apply notify_ok.
    + split; try done. by eapply lookup_lt_Some.
    + split; [by eapply lookup_lt_Some|done].
    + unfold array. cbn. by rewrite Hl, drop_0.
  - destruct H as ([= <-] & Hs1 & Hf1). split_and!; [done|by apply Hset|]. intros x Hx. exact (Hf1 x Hx).
Qed.
End Dispatch.

Lemma exec_ok fuel : forall R (p : prog R) st sp, sim st sp -> agree st (exec fuel p st) (s_exec fuel p sp).
Proof.
  induction fuel as [|fuel IH]; intros R p st sp Hs; [done|]. destruct p as [r|e|a k|f k|h k|k|r k]; cbn [exec s_exec].
  - split_and!; [done|done|apply heap_frame_refl].
  - split_and!; [done|done|apply heap_frame_refl].
  - pose proof (dispatch_ok fuel _ _ _ _ (IH S) (IH unit) a st sp Hs) as H. destruct (dispatch _ _ _ _ _) as [[st1 r]|], (s_dispatch _ _ _ _ _) as [[sp1 r']|]; try done.
    destruct H as (<- & Hs1 & Hf1). eapply agree_frame; [exact Hf1|]. by apply IH.
  - pose proof (subscribe_ok st sp f Hs) as H. destruct (subscribe f st) as [st1 h], (s_subscribe f sp) as [sp1 h']. destruct H as (<- & Hs1 & Hf1).
    eapply agree_frame; [exact Hf1|]. by apply IH.
  - destruct (unsubscribe_ok st sp h Hs) as [Hs1 Hf1]. eapply agree_frame; [exact Hf1|]. by apply IH.
  - rewrite (sim_state _ _ Hs). by apply IH.
  - assert (sim (set_reducer r st) (s_set_reducer r sp)) as Hs0 by (destruct Hs; by split).
    pose proof (dispatch_ok fuel _ _ _ _ (IH S) (IH unit) (Action true (Some INIT)) _ _ Hs0) as H. destruct (dispatch _ _ _ _ _) as [[st1 r1]|], (s_dispatch _ _ _ _ _) as [[sp1 r1']|]; try done.
    destruct H as (<- & Hs1 & Hf1). eapply agree_frame; [exact Hf1|]. by apply IH.
Qed.

(** A store, and a program on it: the state it leaves, the listeners, and the result. *)
Definition session (fuel : nat) (r : Z) (preloaded : S) {R} (p : prog R) : option (S * list Z * res R) :=
  match createStore fuel r preloaded with
  | Some (st, Ok _) => option_map (fun x => (currentState (fst x), array (nextListeners (fst x)) (fst x), snd x)) (exec fuel p st)
  | Some (st, Throw e) => Some (currentState st, [], Throw e)
  | None => None
  end.
Definition s_session (fuel : nat) (r : Z) (preloaded : S) {R} (p : prog R) : option (S * list Z * res R) :=
  match s_dispatch (s_exec fuel) (s_exec fuel) fuel (Action true (Some INIT)) (SStore r preloaded [] false []) with
  | Some (st, Ok _) => option_map (fun x => (s_state (fst x), s_listeners (fst x), snd x)) (s_exec fuel p st)
  | Some (st, Throw e) => Some (s_state st, [], Throw e)
  | None => None
  end.

(** C11: The store with its two arrays of listeners, shared and copied only when one is about to change, behaves as the store
    with one list of which each dispatch calls the listeners of that moment, whatever the listeners and reducers do to the
    store while they run, for every program and number of steps. *)
Theorem redux_store_refines fuel r preloaded {R} (p : prog R) : session fuel r preloaded p = s_session fuel r preloaded p.
Proof.
  unfold session, s_session, createStore.
  assert (sim (Store r preloaded 0 0 false [[]] []) (SStore r preloaded [] false [])) as H0 by (by split; cbn; try lia).
  pose proof (dispatch_ok fuel _ _ _ _ (exec_ok fuel S) (exec_ok fuel unit) (Action true (Some INIT)) _ _ H0) as H.
  destruct (dispatch _ _ _ _ _) as [[st [u|e]]|], (s_dispatch _ _ _ _ _) as [[sp [u'|e']]|]; try done; try by destruct H as (? & _).
  - destruct H as (_ & Hs & _). pose proof (exec_ok fuel R p st sp Hs) as H1. destruct (exec fuel p st) as [[st1 r1]|], (s_exec fuel p sp) as [[sp1 r1']|]; try done.
    destruct H1 as (<- & [Hr Hst Hd Hh Hl Hc Ha] & _). cbn. unfold array. by rewrite Hst, Hl.
  - destruct H as ([= <-] & [Hr Hst Hd Hh Hl Hc Ha] & _). by rewrite Hst.
Qed.

(** ** The lock *)

Lemma notify_lock run k t : (forall p st st' r, run p st = Some (st', r) -> isDispatching st' = isDispatching st) ->
  forall n st st' r, notify run k t n st = Some (st', r) -> isDispatching st' = isDispatching st.
Proof.
  intros Hrun. induction k as [|k IH]; intros n st st' r; cbn; destruct (array t st !! n) as [o|]; try done; try by intros [= <- _].
  destruct (run (listener o) st) as [[st1 [u|e]]|] eqn:E; [|intros [= <- _]; by eapply Hrun|done]. intros H. rewrite (IH _ _ _ _ H). by eapply Hrun.
Qed.

Lemma dispatch_lock reduce run fuel a st st' r :
  (forall p st st' r, run p st = Some (st', r) -> isDispatching st' = isDispatching st) ->
  dispatch reduce run fuel a st = Some (st', r) -> isDispatching st' = isDispatching st.
Proof.
  intros Hrun. unfold dispatch. destruct (check_action a (isDispatching st)) eqn:Ec; [|by intros [= <- _]].
  assert (isDispatching st = false) as ->. { unfold check_action in Ec. destruct (plain a), (type a), (isDispatching st); done. }
  destruct (reduce _ _) as [[st1 [s|e]]|]; [|by intros [= <- _]|done]. intros H. by rewrite (notify_lock _ _ _ Hrun _ _ _ _ H).
Qed.

(** The flag that forbids reducers to dispatch is, after every program, what it was before, whatever throws: the store is
    never left locked, and no listener runs while it is locked. *)
Theorem redux_lock fuel {R} (p : prog R) st st' r : exec fuel p st = Some (st', r) -> isDispatching st' = isDispatching st.
Proof.
  revert R p st st' r. induction fuel as [|fuel IH]; intros R p st st' r; [done|]. destruct p as [x|e|a k|f k|h k|k|x k]; cbn [exec].
  - by intros [= <- _].
  - by intros [= <- _].
  - destruct (dispatch _ _ _ _ _) as [[st1 r1]|] eqn:E; [|done]. intros H. rewrite (IH _ _ _ _ _ H). eapply dispatch_lock; [|exact E]. apply IH.
  - assert (isDispatching (fst (subscribe f st)) = isDispatching st) as Hs by (unfold subscribe, ensureCanMutateNextListeners; by destruct (_ =? _)%nat).
    destruct (subscribe f st) as [st1 h1]. intros H. by rewrite (IH _ _ _ _ _ H).
  - intros H. rewrite (IH _ _ _ _ _ H). unfold unsubscribe, ensureCanMutateNextListeners. destruct (handles st !! h) as [[e [|]]|]; try done. cbn. by destruct (_ =? _)%nat.
  - apply IH.
  - destruct (dispatch _ _ _ _ _) as [[st1 r1]|] eqn:E; [|done]. intros H. rewrite (IH _ _ _ _ _ H). change (isDispatching st) with (isDispatching (set_reducer x st)).
    eapply dispatch_lock; [|exact E]. apply IH.
Qed.

End Store.
(** A reducer that adds, and throws on actions of a negative type; listener 1 removes listener 2 and adds itself. *)
Definition sum_reducer (_ : Z) (s : Z) (a : @action Z) : @prog Z Z Z :=
  match type a with Some t => if t <? 0 then Raise _ (JsError "negative") else Ret _ (s + t) | None => Ret _ s end.
Definition some_listener (l : Z) : @prog Z Z unit := if l =? 1 then Unsubscribe _ 1%nat (Subscribe _ 1 (fun _ => Ret _ tt)) else Ret _ tt.
Definition some_program : @prog Z Z unit :=
  Subscribe _ 1 (fun _ => Subscribe _ 2 (fun _ => Dispatch _ (Action true (Some 5)) (fun _ => Dispatch _ (Action true (Some (-1))) (fun _ => Ret _ tt)))).
Definition some_store : @store Z := Store 0 0 0 0 false [[]] [].

Lemma redux_lock_witness : option_map (fun x => isDispatching (fst x)) (exec sum_reducer some_listener 0 20 some_program some_store) = Some false.
Proof.
  assert (exists st' r, exec sum_reducer some_listener 0 20 some_program some_store = Some (st', r)) as (st' & r & E) by (eexists _, _; vm_compute; reflexivity).
  rewrite E. cbn. f_equal. exact (redux_lock sum_reducer some_listener 0 20 some_program some_store st' r E).
Defined.

End ReduxStore.
