(* ===== verification/Events.v ===== *)
(** * EventEmitter

    Models the events module (lines 7131 to 7224 of
    src/client/docs/swagger-ui/swagger-ui-bundle.js): emit, addListener, once,
    removeListener, removeAllListeners, listeners, listenerCount and setMaxListeners.

    The value of an event in [_events] is a function or an array; arrays are in a heap,
    since removeAllListeners keeps one while listeners run.  A listener is a program of
    calls of the same emitter, at any depth; the arguments of events are left out, and so
    are the names of events that every object inherits.  [run] makes one call of a
    method for each unit of fuel it nests; when the fuel has run out it stops with the emitter of
    that point and no result, so that a run that does not return is seen up to any depth.  The
    stack of calls has no end. *)

From S2P Require Import Prelude.
From Stdlib Require Import String.
From stdpp Require Import base numbers list option gmap.
Open Scope Z_scope.

Module Events.

(** ** Data *)

Inductive event := Error | NewListener | RemoveListenerEvent | Named (z : Z).

#[export] Instance event_eq_dec : EqDecision event.
Proof. solve_decision. Defined.

(** A function of the user, or the function that [once] makes of one: [h] is its own
    variable n. *)
Inductive fn := Plain (z : Z) | Wrap (h : nat) (e : event) (z : Z).

#[export] Instance fn_eq_dec : EqDecision fn.
Proof. solve_decision. Defined.

(** [n === t || n.listener === t]. *)
Definition matches (n t : fn) : bool :=
  bool_decide (n = t) || match n with Wrap _ _ z => bool_decide (t = Plain z) | Plain _ => false end.

Inductive slot := One (f : fn) | Many (a : nat).

Record emitter := Emitter {
  _events : list (event * slot);
  heap : list (list fn * bool);
  fired : list bool;
  _maxListeners : option Z;
  warnings : Z;
  called : list fn
}.

Definition new_emitter : emitter := Emitter [] [] [] None 0 [].

Definition defaultMaxListeners : Z := 10.

Fixpoint get_event (l : list (event * slot)) (e : event) : option slot :=
  match l with
  | [] => None
  | (e', s) :: l => if decide (e = e') then Some s else get_event l e
  end.
Fixpoint delete_event (l : list (event * slot)) (e : event) : list (event * slot) :=
  match l with
  | [] => []
  | (e', s) :: l => if decide (e = e') then l else (e', s) :: delete_event l e
  end.
Fixpoint replace_event (l : list (event * slot)) (e : event) (s : slot) : list (event * slot) :=
  match l with
  | [] => [(e, s)]
  | (e', s') :: l => if decide (e = e') then (e, s) :: l else (e', s') :: replace_event l e s
  end.

Definition slot_of (st : emitter) (e : event) : option slot := get_event (_events st) e.
Definition listened (st : emitter) (e : event) : bool := match slot_of st e with Some _ => true | None => false end.
Definition array (st : emitter) (a : nat) : list fn := default [] (fst <$> heap st !! a).
Definition warned (st : emitter) (a : nat) : bool := default false (snd <$> heap st !! a).

Definition set_events (l : list (event * slot)) (st : emitter) : emitter :=
  Emitter l (heap st) (fired st) (_maxListeners st) (warnings st) (called st).
Definition set_array (a : nat) (l : list fn) (w : bool) (st : emitter) : emitter :=
  Emitter (_events st) (<[a := (l, w)]> (heap st)) (fired st) (_maxListeners st) (warnings st) (called st).
Definition new_array (l : list fn) (st : emitter) : emitter * nat :=
  (Emitter (_events st) (heap st ++ [(l, false)]) (fired st) (_maxListeners st) (warnings st) (called st), length (heap st)).
Definition set_fired (l : list bool) (st : emitter) : emitter :=
  Emitter (_events st) (heap st) l (_maxListeners st) (warnings st) (called st).
Definition log_call (f : fn) (st : emitter) : emitter :=
  Emitter (_events st) (heap st) (fired st) (_maxListeners st) (warnings st) (called st ++ [f]).
Definition set_max (n : Z) (st : emitter) : emitter :=
  Emitter (_events st) (heap st) (fired st) (Some n) (warnings st) (called st).
Definition warn (st : emitter) : emitter :=
  Emitter (_events st) (heap st) (fired st) (_maxListeners st) (warnings st + 1) (called st).

(** ** Pure methods *)

Definition listeners (st : emitter) (e : event) : list fn :=
  match slot_of st e with
  | None => []
  | Some (One f) => [f]
  | Some (Many a) => array st a
  end.
Definition listenerCount (st : emitter) (e : event) : Z :=
  match slot_of st e with
  | None => 0
  | Some (One _) => 1
  | Some (Many a) => zlen (array st a)
  end.

(** The new listener is stored; the warning comes once for an array. *)
Definition store_listener (e : event) (t : fn) (st : emitter) : emitter :=
  match slot_of st e with
  | None => set_events (replace_event (_events st) e (One t)) st
  | Some s =>
      let '(st, a) :=
        match s with
        | Many a => (set_array a (array st a ++ [t]) (warned st a) st, a)
        | One f => let '(st, a) := new_array [f; t] st in (set_events (replace_event (_events st) e (Many a)) st, a)
        end in
      let max := default defaultMaxListeners (_maxListeners st) in
      if negb (warned st a) && (0 <? max) && (max <? zlen (array st a))
      then warn (set_array a (array st a) true st) else st
  end.

(** The greatest index of a listener that matches [t]. *)
Fixpoint last_match (t : fn) (l : list fn) (i : nat) (r : option nat) : option nat :=
  match l with
  | [] => r
  | n :: l => last_match t l (S i) (if matches n t then Some i else r)
  end.

(** Whether the listener was found, and the emitter without it. *)
Definition take_listener (e : event) (t : fn) (st : emitter) : option emitter :=
  match slot_of st e with
  | None => None
  | Some (One f) => if matches f t then Some (set_events (delete_event (_events st) e) st) else None
  | Some (Many a) =>
      match last_match t (array st a) 0 None with
      | None => None
      | Some i =>
          if (length (array st a) =? 1)%nat then
            Some (set_events (delete_event (_events st) e) (set_array a [] (warned st a) st))
          else Some (set_array a (take i (array st a) ++ drop (S i) (array st a)) (warned st a) st)
      end
  end.

(** ** The methods that call listeners *)

Inductive op := EmitOp (e : event) | OnOp (e : event) (z : Z) | OnceOp (e : event) (z : Z) | OffOp (e : event) (z : Z)
  | OffAllOp (e : option event) | SetMaxOp (n : option Z).
Inductive prog := Done | Raise (x : jserr) | Do (o : op) (k : res bool -> prog).

Inductive command :=
| Program (p : prog)
| Emit (e : event)
| Call (f : fn)
| CallAll (l : list fn)
| AddListener (e : event) (t : fn)
| RemoveListener (e : event) (t : fn)
| RemoveAll (e : event)
| RemoveLoop (e : event) (n : nat)
| RemoveEach (l : list event).

(** The emitter after a call and what the call gave, or the emitter at the point where the fuel has
    run out. *)
Definition outcome : Type := emitter * option (res bool).

Section Run.
Context (listener : Z -> prog).

(** [c] and then, unless it throws, [k]. *)
Definition andThen (r : outcome) (k : emitter -> outcome) : outcome :=
  match r with
  | (st, Some (Ok _)) => k st
  | r => r
  end.

Definition unhandled (st : emitter) (e : event) : bool :=
  bool_decide (e = Error) && match slot_of st e with None => true | Some (One _) => false | Some (Many a) => (length (array st a) =? 0)%nat end.

Definition setMaxListeners (e : option Z) (st : emitter) : outcome :=
  match e with
  | Some e => if e <? 0 then (st, Some (Throw (TypeError "n must be a positive number"))) else (set_max e st, Some (Ok true))
  | None => (st, Some (Throw (TypeError "n must be a positive number")))
  end.

(** once makes a function with a variable of its own, and adds it. *)
Definition once (run : command -> emitter -> outcome) (e : event) (z : Z) (st : emitter) : outcome :=
  run (AddListener e (Wrap (length (fired st)) e z)) (set_fired (fired st ++ [false]) st).

(** [removeAllListeners()]. *)
Definition removeAllListeners (run : command -> emitter -> outcome) (st : emitter) : outcome :=
  if listened st RemoveListenerEvent
  then andThen (run (RemoveEach (map fst (_events st))) st) (fun st =>
       andThen (run (RemoveAll RemoveListenerEvent) st) (fun st => (set_events [] st, Some (Ok true))))
  else (set_events [] st, Some (Ok true)).

(** A call of a method by a program. *)
Definition run_op (run : command -> emitter -> outcome) (o : op) (st : emitter) : outcome :=
  match o with
  | EmitOp e => run (Emit e) st
  | OnOp e z => run (AddListener e (Plain z)) st
  | OnceOp e z => once run e z st
  | OffOp e z => run (RemoveListener e (Plain z)) st
  | OffAllOp (Some e) => run (RemoveAll e) st
  | OffAllOp None => removeAllListeners run st
  | SetMaxOp n => setMaxListeners n st
  end.

Fixpoint run (fuel : nat) (c : command) (st : emitter) : outcome :=
  match fuel with
  | O => (st, None)
  | S fuel =>
      match c with
      | Program Done => (st, Some (Ok true))
      | Program (Raise x) => (st, Some (Throw x))
      | Program (Do o k) =>
          match run_op (run fuel) o st with
          | (st, Some r) => run fuel (Program (k r)) st
          | (st, None) => (st, None)
          end
      | Emit e =>
          if unhandled st e then (st, Some (Throw (JsError "Uncaught, unspecified error event.")))
          else match slot_of st e with
               | None => (st, Some (Ok false))
               | Some (One f) => run fuel (Call f) st
               | Some (Many a) => run fuel (CallAll (array st a)) st
               end
      | CallAll [] => (st, Some (Ok true))
      | CallAll (f :: l) => andThen (run fuel (Call f) st) (run fuel (CallAll l))
      | Call (Plain z) => run fuel (Program (listener z)) (log_call (Plain z) st)
      | Call (Wrap h e z) =>
          andThen (run fuel (RemoveListener e (Wrap h e z)) st) (fun st =>
            if default false (fired st !! h) then (st, Some (Ok true))
            else run fuel (Program (listener z)) (log_call (Wrap h e z) (set_fired (<[h := true]> (fired st)) st)))
      | AddListener e t =>
          andThen (if listened st NewListener then run fuel (Emit NewListener) st else (st, Some (Ok true)))
            (fun st => (store_listener e t st, Some (Ok true)))
      | RemoveListener e t =>
          match take_listener e t st with
          | None => (st, Some (Ok true))
          | Some st => if listened st RemoveListenerEvent then run fuel (Emit RemoveListenerEvent) st else (st, Some (Ok true))
          end
      | RemoveAll e =>
          if listened st RemoveListenerEvent then
            andThen (match slot_of st e with
                     | None => (st, Some (Ok true))
                     | Some (One f) => run fuel (RemoveListener e f) st
                     | Some (Many a) => run fuel (RemoveLoop e a) st
                     end) (fun st => (set_events (delete_event (_events st) e) st, Some (Ok true)))
          else (set_events (delete_event (_events st) e) st, Some (Ok true))
      | RemoveLoop e n =>
          match last (array st n) with
          | None => (st, Some (Ok true))
          | Some f => andThen (run fuel (RemoveListener e f) st) (run fuel (RemoveLoop e n))
          end
      | RemoveEach [] => (st, Some (Ok true))
      | RemoveEach (e :: l) =>
          andThen (if decide (e = RemoveListenerEvent) then (st, Some (Ok true)) else run fuel (RemoveAll e) st) (run fuel (RemoveEach l))
      end
  end.
End Run.
(** ** A call that does not return *)

Lemma run_program listener fuel o k st : run listener (S fuel) (Program (Do o k)) st =
  match run_op (run listener fuel) o st with (st, Some r) => run listener fuel (Program (k r)) st | (st, None) => (st, None) end.
Proof. done. Qed.

Lemma run_removeAll listener fuel e a st : listened st RemoveListenerEvent = true -> slot_of st e = Some (Many a) ->
  run listener (S fuel) (RemoveAll e) st = andThen (run listener fuel (RemoveLoop e a) st) (fun st => (set_events (delete_event (_events st) e) st, Some (Ok true))).
Proof. intros Hl Hs. cbn [run]. by rewrite Hl, Hs. Qed.

Lemma run_loop listener fuel e a f st : last (array st a) = Some f ->
  run listener (S fuel) (RemoveLoop e a) st = andThen (run listener fuel (RemoveListener e f) st) (run listener fuel (RemoveLoop e a)).
Proof. intros Hf. cbn [run]. by rewrite Hf. Qed.

Lemma remove_loop_stuck listener e n f st : slot_of st e = None -> last (array st n) = Some f -> forall fuel, run listener fuel (RemoveLoop e n) st = (st, None).
Proof.
  intros He Hn fuel. induction fuel as [|fuel IH]; [done|]. cbn [run]. rewrite Hn. destruct fuel as [|fuel]; [done|].
  replace (run listener (S fuel) (RemoveListener e f) st) with ((st, Some (Ok true))) by (cbn [run]; unfold take_listener; by rewrite He). exact IH.
Qed.

(** The listener 1 of removals takes itself away, and then all the listeners of the event 0. *)
Definition remover (z : Z) : prog :=
  if z =? 1 then Do (OffAllOp (Some RemoveListenerEvent)) (fun _ => Do (OffAllOp (Some (Named 0))) (fun _ => Done)) else Done.
Definition hanging : prog :=
  Do (OnOp RemoveListenerEvent 1) (fun _ => Do (OnOp (Named 0) 2) (fun _ => Do (OnOp (Named 0) 3) (fun _ => Do (OnOp (Named 0) 4) (fun _ =>
  Do (OffAllOp (Some (Named 0))) (fun _ => Done))))).

Ltac evaluate c :=
  match goal with
  | |- context [run remover ?n (c ?e ?f) ?st] =>
      let v := eval vm_compute in (run remover n (c e f) st) in
      replace (run remover n (c e f) st) with v by (vm_compute; reflexivity); cbv beta iota
  end.

(** RemoveAllListeners does not return when a listener of removals removes itself and then all listeners of the same event:
    the loop keeps an array that is no longer that of the event, and never gets shorter. *)
Theorem removeAllListeners_hangs fuel : snd (run remover fuel (Program hanging) new_emitter) = None.
Proof.
  do 16 (destruct fuel as [|fuel]; [vm_compute; reflexivity|]). unfold hanging.
  do 4 (rewrite run_program; cbn [run_op]; evaluate AddListener). rewrite run_program. cbn [run_op].
  rewrite (run_removeAll _ _ _ 0) by reflexivity. rewrite (run_loop _ _ _ _ (Plain 4)) by reflexivity. evaluate RemoveListener. cbn [andThen].
  by rewrite (remove_loop_stuck _ _ _ (Plain 3)) by reflexivity.
Qed.

(** ** Functions of once *)

Definition handles (l : list fn) : list nat := flat_map (fun f => match f with Wrap h _ _ => [h] | Plain _ => [] end) l.

Definition handle_ok (st : emitter) (f : fn) : Prop := match f with Wrap h _ _ => (h < length (fired st))%nat | Plain _ => True end.

(** The functions that an emitter keeps. *)
Definition stored (st : emitter) (f : fn) : Prop :=
  (exists e, (e, One f) ∈ _events st) \/ exists l w, (l, w) ∈ heap st /\ f ∈ l.

Record good (st : emitter) : Prop := {
  good_stored : forall f, stored st f -> handle_ok st f;
  good_once : NoDup (handles (called st));
  good_fired : forall h, h ∈ handles (called st) -> fired st !! h = Some true
}.

Definition command_ok (st : emitter) (c : command) : Prop :=
  match c with
  | Call f | AddListener _ f | RemoveListener _ f => handle_ok st f
  | CallAll l => Forall (handle_ok st) l
  | _ => True
  end.

(** What every step keeps: the functions of once are not forgotten. *)
Definition later (st st' : emitter) : Prop := good st' /\ (length (fired st) <= length (fired st'))%nat.
Definition kept (st : emitter) (x : outcome) : Prop := later st (fst x).

Lemma handle_later st st' f : (length (fired st) <= length (fired st'))%nat -> handle_ok st f -> handle_ok st' f.
Proof. destruct f; cbn; lia. Qed.

Lemma andThen_kept st x k : kept st x -> (forall st', later st st' -> kept st' (k st')) -> kept st (andThen x k).
Proof.
  intros Hx Hk. destruct x as [st' [[b|e]|]]; [|done|done]. unfold kept in *. cbn [andThen fst] in *. destruct (Hk st' Hx) as [Hg Hl'], Hx as [_ Hl]. split; [done|lia].
Qed.

(** A change that stores no other functions. *)
Lemma later_stored st st' : good st -> fired st' = fired st -> called st' = called st -> (forall f, stored st' f -> stored st f \/ handle_ok st f) -> later st st'.
Proof.
  intros [H1 H2 H3] Hf Hc Hs. split; [|by rewrite Hf]. split; rewrite ?Hc, ?Hf; [|done|done]. intros f Hst. apply (handle_later st); [by rewrite Hf|]. destruct (Hs f Hst); [by apply H1|done].
Qed.

Lemma get_event_in l e s : get_event l e = Some s -> (e, s) ∈ l.
Proof. induction l as [|[e' s'] l IH]; cbn; [done|]. destruct (decide (e = e')) as [->|]; [intros [= ->]; by left|]. intros H. right. auto. Qed.

Lemma delete_event_in l e x : x ∈ delete_event l e -> x ∈ l.
Proof. induction l as [|[e' s'] l IH]; cbn; [done|]. destruct (decide (e = e')); rewrite ?elem_of_cons; intuition. Qed.

Lemma replace_event_in l e s x : x ∈ replace_event l e s -> x = (e, s) \/ x ∈ l.
Proof. induction l as [|[e' s'] l IH]; cbn; [rewrite elem_of_cons; intuition|]. destruct (decide (e = e')); rewrite !elem_of_cons; intuition. Qed.

Lemma array_stored st a f : f ∈ array st a -> stored st f.
Proof. unfold array. destruct (heap st !! a) as [[l w]|] eqn:E; cbn; [|by intros H%elem_of_nil]. intros H. right. exists l, w. split; [by eapply list_elem_of_lookup_2|done]. Qed.

Lemma set_array_stored st a l w f : stored (set_array a l w st) f -> f ∈ l \/ stored st f.
Proof.
  intros [[e H]|(l' & w' & H & Hf)]; [right; left; by exists e|]. cbn in H. apply list_elem_of_lookup in H as [i H].
  destruct (decide (a = i)) as [->|Hne].
  - destruct (decide (i < length (heap st))%nat) as [Hlt|Hge]; [rewrite list_lookup_insert_eq in H by done; injection H as <- _; by left|].
    rewrite list_insert_ge in H by lia. apply lookup_lt_Some in H. lia.
  - rewrite list_lookup_insert_ne in H by done. right. right. exists l', w'. split; [by eapply list_elem_of_lookup_2|done].
Qed.

Lemma delete_later st e : good st -> later st (set_events (delete_event (_events st) e) st).
Proof. intros Hg. apply later_stored; try done. intros f [[e' H]|H]; left; [left; exists e'; exact (delete_event_in _ _ _ H)|by right]. Qed.

Lemma take_later e t st st' : good st -> take_listener e t st = Some st' -> later st st'.
Proof.
  intros Hg. unfold take_listener. destruct (slot_of st e) as [[f|a]|]; [| |done].
  - destruct (matches f t); [|done]. intros [= <-]. by apply delete_later.
  - destruct (last_match _ _ _ _) as [i|]; [|done]. destruct (_ =? 1)%nat; intros [= <-]; apply later_stored; try done; intros f.
    + intros [[e' H]|H]; [left; left; exists e'; exact (delete_event_in _ _ _ H)|].
      destruct (set_array_stored st a [] (warned st a) f) as [H0|H0]; [by right|by apply elem_of_nil in H0|by left].
    + intros H%set_array_stored. left. destruct H as [H|H]; [|done]. apply (array_stored st a). apply elem_of_app in H as [H|H]; [rewrite <- (take_drop i (array st a)), elem_of_app; by left|rewrite <- (take_drop (S i) (array st a)), elem_of_app; by right].
Qed.

Lemma store_later e t st : good st -> handle_ok st t -> later st (store_listener e t st).
Proof.
  intros Hg Ht. unfold store_listener. destruct (slot_of st e) as [s|] eqn:Es.
  2: { apply later_stored; try done. intros f [[e' H]|H]; [|left; by right]. apply replace_event_in in H as [[= -> ->]|H]; [by right|]. left. left. by exists e'. }
  set (x := match s with Many a => _ | One f => _ end). assert (fired (fst x) = fired st /\ called (fst x) = called st /\ forall f, stored (fst x) f -> stored st f \/ handle_ok st f) as (H1 & H2 & H3).
  { destruct s as [g|a]; cbn; (split_and!; [done|done|]); intros f.
    - intros [[e' H]|(l & w & H & Hf)]; cbn in H.
      + apply replace_event_in in H as [[=]|H]. left. left. by exists e'.
      + apply elem_of_app in H as [H|H]; [left; right; by exists l, w|]. apply list_elem_of_singleton in H as [= -> ->]. apply elem_of_cons in Hf as [->|Hf]; [|apply list_elem_of_singleton in Hf as ->; by right].
        left. left. exists e. by apply get_event_in.
    - intros H%set_array_stored. destruct H as [H|H]; [|by left]. apply elem_of_app in H as [H|H]; [left; by eapply array_stored|apply list_elem_of_singleton in H as ->; by right]. }
  destruct x as [st1 a]. cbn in H1, H2, H3. destruct (_ && _); [|by apply later_stored].
  apply later_stored; [done..|]. intros f H. apply (H3 f). destruct (set_array_stored st1 a (array st1 a) true f H) as [H0|H0]; [by eapply array_stored|done].
Qed.

Lemma later_refl st : good st -> later st st.
Proof. done. Qed.

Lemma kept_from st st' x : later st st' -> kept st' x -> kept st x.
Proof. intros [_ Hl] [Hg Hl']. split; [done|lia]. Qed.

Lemma slot_ok st e f : good st -> slot_of st e = Some (One f) -> handle_ok st f.
Proof. intros Hg He. apply (good_stored _ Hg). left. exists e. by apply get_event_in. Qed.

Lemma array_ok st a : good st -> Forall (handle_ok st) (array st a).
Proof. intros Hg. apply list.Forall_forall. intros f Hf. apply (good_stored _ Hg). by eapply array_stored. Qed.

Lemma log_plain st z : good st -> later st (log_call (Plain z) st).
Proof. intros [H1 H2 H3]. split; [|done]. split; cbn; unfold handles in *; rewrite ?flat_map_app; cbn; rewrite ?app_nil_r; done. Qed.

Lemma fire_later st h e z : good st -> (h < length (fired st))%nat -> default false (fired st !! h) = false ->
  later st (log_call (Wrap h e z) (set_fired (<[h := true]> (fired st)) st)).
Proof.
  intros [H1 H2 H3] Hh Hf. assert (h ∉ handles (called st)) as Hnew. { intros Hin. apply H3 in Hin. by rewrite Hin in Hf. }
  split; [|cbn; by rewrite length_insert]. split; cbn.
  - intros f Hs. destruct f as [|h' e' z']; [done|]. cbn. rewrite length_insert. exact (H1 (Wrap h' e' z') Hs).
  - unfold handles in *. rewrite flat_map_app. cbn. apply list.NoDup_app. split_and!; [done| |apply NoDup_singleton].
    intros x Hx. rewrite list_elem_of_singleton. by intros ->.
  - intros h'. unfold handles. rewrite flat_map_app. cbn. rewrite elem_of_app, list_elem_of_singleton. destruct (decide (h = h')) as [<-|Hne].
    + intros _. by apply list_lookup_insert_eq.
    + rewrite list_lookup_insert_ne by done. intros [Hin|Hin]; [by apply H3|congruence].
Qed.

Lemma run_op_kept run o st : good st -> (forall c st, good st -> command_ok st c -> kept st (run c st)) -> kept st (run_op run o st).
Proof.
  intros Hg Hrun. destruct o as [e|e z|e z|e z|[e|]|[n|]]; cbn; try by apply Hrun.
  - assert (later st (set_fired (fired st ++ [false]) st)) as Hl.
    { destruct Hg as [H1 H2 H3]. split; [|cbn; rewrite length_app; lia]. split; cbn; [|done|].
      - intros f Hs. apply (handle_later st); [cbn; rewrite length_app; lia|]. by apply H1.
      - intros h Hh. apply lookup_app_l_Some. by apply H3. }
    eapply kept_from; [exact Hl|]. apply Hrun; [apply Hl|]. cbn. rewrite length_app. cbn. lia.
  - assert (forall st, good st -> later st (set_events [] st)) as Hempty.
    { intros st0 H0. apply later_stored; try done. intros f [[e' H]|H]; [by apply elem_of_nil in H|left; by right]. }
    unfold removeAllListeners. destruct (listened st _); [|by apply Hempty]. apply andThen_kept; [by apply Hrun|]. intros st1 [Hg1 _]. apply andThen_kept; [by apply Hrun|]. intros st2 [Hg2 _]. by apply Hempty.
  - destruct (n <? 0); [done|]. apply later_stored; [done..|]. intros f H. by left.
  - done.
Qed.

Lemma run_kept listener fuel : forall c st, good st -> command_ok st c -> kept st (run listener fuel c st).
Proof.
  induction fuel as [|fuel IH]; intros c st Hg Hc; [done|]. destruct c as [[|x|o k]|e|[z|h e z]|[|f l]|e t|e t|e|e n|[|e l]]; cbn [run command_ok] in *; try done.
  - pose proof (run_op_kept (run listener fuel) o st Hg IH) as Ho. destruct (run_op _ _ _) as [st1 [r|]]; [|done]. eapply kept_from; [exact Ho|]. apply IH; [apply Ho|done].
  - destruct (unhandled st e); [done|]. destruct (slot_of st e) as [[f|a]|] eqn:Es; [| |done]; apply IH; [done| |done|by apply array_ok]. by eapply slot_ok.
  - eapply kept_from; [by apply log_plain|]. apply IH; [by apply log_plain|done].
  - apply andThen_kept; [by apply IH|]. intros st1 [Hg1 Hl1]. destruct (default false (fired st1 !! h)) eqn:Ef; [done|].
    assert (later st1 (log_call (Wrap h e z) (set_fired (<[h := true]> (fired st1)) st1))) as Hl by (apply fire_later; [done|cbn in Hc; lia|done]).
    eapply kept_from; [exact Hl|]. apply IH; [apply Hl|done].
  - inversion Hc as [|?? Hf Hl]; subst. apply andThen_kept; [by apply IH|]. intros st1 [Hg1 Hl1]. apply IH; [done|]. cbn. eapply List.Forall_impl; [|exact Hl]. intros g. by apply handle_later.
  - apply andThen_kept; [destruct (listened st _); [by apply IH|done]|]. intros st1 [Hg1 Hl1]. cbn. apply store_later; [done|]. by eapply handle_later.
  - destruct (take_listener e t st) as [st1|] eqn:Et; [|done]. pose proof (take_later _ _ _ _ Hg Et) as Hl. destruct (listened st1 _); [|done].
    eapply kept_from; [exact Hl|]. apply IH; [apply Hl|done].
  - destruct (listened st _); [|by apply delete_later]. apply andThen_kept; [|intros st1 [Hg1 _]; by apply delete_later].
    destruct (slot_of st e) as [[f|a]|] eqn:Es; [apply IH; [done|by eapply slot_ok]|by apply IH|done].
  - destruct (last (array st n)) as [f|] eqn:El; [|done]. apply andThen_kept; [|intros st1 [Hg1 _]; by apply IH]. apply IH; [done|]. cbn.
    pose proof (array_ok st n Hg) as Ha. rewrite list.Forall_forall in Ha. apply Ha. apply last_Some in El as [l ->]. apply elem_of_app. right. by left.
  - apply andThen_kept; [destruct (decide _); [done|by apply IH]|]. intros st1 [Hg1 _]. by apply IH.
Qed.

(** C26: however listeners emit, add and remove while they run, and whatever throws, a function
    passed to once is called at most once for that call of once, in every program on an emitter
    and at every point of its run, whether it returns or not. *)
Theorem once_at_most_once listener fuel p : NoDup (handles (called (fst (run listener fuel (Program p) new_emitter)))).
Proof.
  assert (good new_emitter) as Hg. { split; [intros f [[e H]|(l & w & H & _)]; by apply elem_of_nil in H|constructor|intros h H; by apply elem_of_nil in H]. }
  by destruct (run_kept listener fuel (Program p) new_emitter Hg I) as [[] _].
Qed.

(** Listener 1 emits its own event again. *)
Definition emit_again (z : Z) : prog := if z =? 1 then Do (EmitOp (Named 0)) (fun _ => Done) else Done.

(** Both functions are called, each once, though the first emits the event again. *)
Example once_runs :
  let p := Do (OnceOp (Named 0) 1) (fun _ => Do (OnceOp (Named 0) 1) (fun _ => Do (EmitOp (Named 0)) (fun _ => Do (EmitOp (Named 0)) (fun _ => Done)))) in
  snd (run emit_again 30 (Program p) new_emitter) = Some (Ok true) /\ handles (called (fst (run emit_again 30 (Program p) new_emitter))) = [0%nat; 1%nat].
Proof. by vm_compute. Qed.

(** ** Listeners are lists

    As long as no one listens to the events of additions and removals, the methods act on
    one list of listeners for each event. *)

Fixpoint remove_first (t : fn) (l : list fn) : list fn :=
  match l with
  | [] => []
  | n :: l => if matches n t then l else n :: remove_first t l
  end.
(** Without the last listener that matches [t]. *)
Definition remove_last (t : fn) (l : list fn) : list fn := reverse (remove_first t (reverse l)).

Lemma remove_last_snoc t l n : remove_last t (l ++ [n]) = if matches n t then l else remove_last t l ++ [n].
Proof. unfold remove_last. rewrite reverse_snoc. cbn [remove_first]. destruct (matches n t); [by rewrite reverse_involutive|]. by rewrite reverse_cons. Qed.

Lemma last_match_snoc t l n : forall i r, last_match t (l ++ [n]) i r = if matches n t then Some (i + length l)%nat else last_match t l i r.
Proof.
  induction l as [|x l IH]; intros i r; cbn; [by rewrite Nat.add_0_r|]. rewrite IH. replace (i + S (length l))%nat with (S i + length l)%nat by lia. done.
Qed.

Lemma last_match_ok t l : match last_match t l 0 None with
  | Some i => (i < length l)%nat /\ take i l ++ drop (S i) l = remove_last t l
  | None => remove_last t l = l
  end.
Proof.
  induction l as [|n l IH] using rev_ind; [done|]. rewrite last_match_snoc, remove_last_snoc, length_app. cbn [length]. destruct (matches n t); cbn [Nat.add].
  - split; [lia|]. rewrite take_app_length, drop_ge by (rewrite length_app; cbn; lia). by rewrite app_nil_r.
  - destruct (last_match t l 0 None) as [i|]; [|by rewrite IH]. destruct IH as [Hi <-]. split; [lia|].
    rewrite take_app_le, drop_app_le by lia. by rewrite app_assoc.
Qed.

Record apart (st : emitter) : Prop := {
  apart_keys : NoDup (map fst (_events st));
  apart_heap : forall e a, slot_of st e = Some (Many a) -> (a < length (heap st))%nat;
  apart_arrays : forall e e' a, slot_of st e = Some (Many a) -> slot_of st e' = Some (Many a) -> e = e'
}.

Lemma get_event_none l e : e ∉ map fst l -> get_event l e = None.
Proof. induction l as [|[e' s] l IH]; cbn; [done|]. rewrite not_elem_of_cons. intros [? ?]. rewrite decide_False by done. auto. Qed.

Lemma get_event_delete l e e' : NoDup (map fst l) -> get_event (delete_event l e) e' = if decide (e = e') then None else get_event l e'.
Proof.
  induction l as [|[e1 s] l IH]; intros Hnd; cbn in *; [by destruct (decide _)|]. apply list.NoDup_cons in Hnd as [Hn Hnd]. destruct (decide (e = e1)) as [->|Hne].
  - destruct (decide (e1 = e')) as [->|]; [by apply get_event_none|by rewrite decide_False by congruence].
  - cbn. rewrite IH by done. destruct (decide (e' = e1)) as [->|]; [by rewrite decide_False|done].
Qed.

Lemma get_event_replace l e s e' : get_event (replace_event l e s) e' = if decide (e = e') then Some s else get_event l e'.
Proof.
  induction l as [|[e1 s1] l IH]; cbn; [destruct (decide (e = e')), (decide (e' = e)); congruence|]. destruct (decide (e = e1)) as [->|Hne]; cbn.
  - destruct (decide (e' = e1)) as [->|]; [by rewrite decide_True|by rewrite decide_False by congruence].
  - rewrite IH. destruct (decide (e' = e1)) as [->|]; [by rewrite decide_False|done].
Qed.

Lemma keys_delete l e : map fst (delete_event l e) `sublist_of` map fst l.
Proof. induction l as [|[e1 s] l IH]; cbn; [done|]. destruct (decide _); cbn; [by apply sublist_cons|by apply sublist_skip]. Qed.

Lemma keys_replace_in l e s x : x ∈ map fst (replace_event l e s) -> x = e \/ x ∈ map fst l.
Proof. induction l as [|[e1 s1] l IH]; cbn; [rewrite elem_of_cons; intuition|]. destruct (decide (e = e1)); cbn; rewrite !elem_of_cons; intuition. Qed.

Lemma keys_replace l e s : NoDup (map fst l) -> NoDup (map fst (replace_event l e s)).
Proof.
  induction l as [|[e1 s1] l IH]; cbn; intros Hnd; [apply NoDup_singleton|]. apply list.NoDup_cons in Hnd as [Hn Hnd].
  destruct (decide (e = e1)) as [->|Hne]; cbn; apply list.NoDup_cons; [done|]. split; [|auto]. by intros [->|Hx]%keys_replace_in.
Qed.

(** A change of the slot of one event, and of its array only. *)
Lemma apart_change st st' e s : apart st -> NoDup (map fst (_events st')) -> (length (heap st) <= length (heap st'))%nat ->
  (forall e', slot_of st' e' = if decide (e = e') then s else slot_of st e') ->
  (forall a, s = Some (Many a) -> (a < length (heap st'))%nat /\ (slot_of st e = Some (Many a) \/ (length (heap st) <= a)%nat)) -> apart st'.
Proof.
  intros [Hk Hh Ha] Hnd Hlen Hs Hnew. assert (forall e1 a, e <> e1 -> s = Some (Many a) -> slot_of st e1 = Some (Many a) -> False) as Hno.
  { intros e1 a Hne Es E1. destruct (Hnew a Es) as [_ [E|Hge]]; [apply Hne; by eapply Ha|]. apply Hh in E1. lia. }
  split; [done| |].
  - intros e1 a. rewrite Hs. destruct (decide (e = e1)); [by intros [H _]%Hnew|]. intros H%Hh. lia.
  - intros e1 e2 a. rewrite !Hs. destruct (decide (e = e1)) as [<-|H1], (decide (e = e2)) as [<-|H2]; [done| | |apply Ha]; intros E1 E2; exfalso; [exact (Hno e2 a H2 E1 E2)|exact (Hno e1 a H1 E2 E1)].
Qed.

Lemma array_set st a l w a' : (a < length (heap st))%nat -> array (set_array a l w st) a' = if decide (a = a') then l else array st a'.
Proof.
  intros Hlt. unfold array. cbn. destruct (decide (a = a')) as [<-|Hne]; [by rewrite list_lookup_insert_eq|by rewrite list_lookup_insert_ne].
Qed.

(** The listeners of the events other than [e] are those of before. *)
Definition others (st st' : emitter) (e : event) : Prop := forall e', e <> e' -> listeners st' e' = listeners st e'.

Lemma take_lists e t st : apart st -> match take_listener e t st with
  | Some st' => apart st' /\ listeners st' e = remove_last t (listeners st e) /\ others st st' e /\ fired st' = fired st
  | None => remove_last t (listeners st e) = listeners st e
  end.
Proof.
  intros Hap. pose proof Hap as [Hk Hh Ha]. unfold take_listener. assert (listeners st e = match slot_of st e with None => [] | Some (One f) => [f] | Some (Many a) => array st a end) as -> by done.
  destruct (slot_of st e) as [[f|a]|] eqn:Es; [| |done].
  - unfold remove_last. cbn. destruct (matches f t); [|done]. split_and!; [| | |done].
    + eapply (apart_change st _ e None); [done| |done| |done]; [by eapply sublist_NoDup; [|apply keys_delete]|]. intros e'. by apply get_event_delete.
    + unfold listeners, slot_of. cbn. by rewrite get_event_delete, decide_True.
    + intros e' Hne. unfold listeners, slot_of. cbn. by rewrite get_event_delete, decide_False.
  - pose proof (last_match_ok t (array st a)) as Hm. destruct (last_match t (array st a) 0 None) as [i|]; [|done]. destruct Hm as [Hi Hm]. pose proof (Hh _ _ Es) as Hlt.
    assert (forall e' b, e <> e' -> slot_of st e' = Some (Many b) -> a <> b) as Hne' by (intros e' b Hne Eb ->; by apply Hne, (Ha e e' b)).
    destruct (Nat.eqb_spec (length (array st a)) 1) as [E1|E1]; (split_and!; [| | |done]).
    + eapply (apart_change st _ e None); [done| | | |done]; cbn; [by eapply sublist_NoDup; [|apply keys_delete]|by rewrite length_insert|]. intros e'. by apply get_event_delete.
    + unfold listeners, slot_of. cbn. rewrite get_event_delete, decide_True by done. rewrite <- Hm. replace i with O by lia. destruct (array st a) as [|x [|]]; done.
    + intros e' Hne. unfold listeners, slot_of. cbn. rewrite get_event_delete, decide_False by done. fold (slot_of st e'). destruct (slot_of st e') as [[|b]|] eqn:Eb; try done.
      change (array (set_array a [] (warned st a) st) b = array st b). rewrite array_set by done. rewrite decide_False; [done|]. by eapply Hne'.
    + split; cbn; [done| |done]. intros e' b Eb. rewrite length_insert. by eapply Hh.
    + unfold listeners. change (slot_of (set_array _ _ _ st) e) with (slot_of st e). rewrite Es, array_set, decide_True by done. done.
    + intros e' Hne. unfold listeners. change (slot_of (set_array _ _ _ st) e') with (slot_of st e'). destruct (slot_of st e') as [[|b]|] eqn:Eb; try done.
      rewrite array_set by done. rewrite decide_False; [done|]. by eapply Hne'.
Qed.

Lemma warn_lists a st : (a < length (heap st))%nat -> apart st -> let st' := warn (set_array a (array st a) true st) in
  apart st' /\ (forall e, listeners st' e = listeners st e) /\ fired st' = fired st.
Proof.
  intros Hlt [Hk Hh Ha]. split_and!; [| |done].
  - split; cbn; [done| |done]. intros e b Eb. rewrite length_insert. by eapply Hh.
  - intros e. unfold listeners. change (slot_of (warn (set_array a (array st a) true st)) e) with (slot_of st e). destruct (slot_of st e) as [[|b]|]; try done.
    change (array (set_array a (array st a) true st) b = array st b). rewrite array_set by done. by destruct (decide (a = b)) as [->|].
Qed.

Lemma store_lists e t st : apart st -> let st' := store_listener e t st in
  apart st' /\ listeners st' e = listeners st e ++ [t] /\ others st st' e /\ fired st' = fired st.
Proof.
  intros Hap. pose proof Hap as [Hk Hh Ha]. unfold store_listener. assert (listeners st e = match slot_of st e with None => [] | Some (One f) => [f] | Some (Many a) => array st a end) as -> by done.
  destruct (slot_of st e) as [s|] eqn:Es.
  2: { split_and!; [| | |done].
    - eapply (apart_change st _ e (Some (One t))); [done| |done| |done]; [by apply keys_replace|]. intros e'. apply get_event_replace.
    - unfold listeners, slot_of. cbn. by rewrite get_event_replace, decide_True.
    - intros e' Hne. unfold listeners, slot_of. cbn. by rewrite get_event_replace, decide_False. }
  set (x := match s with Many a => _ | One f => _ end).
  assert ((snd x < length (heap (fst x)))%nat /\ apart (fst x) /\ listeners (fst x) e = (match s with One f => [f] | Many a => array st a end) ++ [t] /\ others st (fst x) e /\ fired (fst x) = fired st) as (H0 & H1 & H2 & H3 & H4).
  { destruct s as [f|a]; cbn; (split_and!; [| | | |done]).
    - rewrite length_app. cbn. lia.
    - eapply (apart_change st _ e (Some (Many (length (heap st))))); [done| | | |]; cbn; [by apply keys_replace|rewrite length_app; lia|intros e'; apply get_event_replace|].
      intros a [= <-]. rewrite length_app. cbn. split; [lia|right; lia].
    - unfold listeners, slot_of. cbn. rewrite get_event_replace, decide_True by done. unfold array. cbn. by rewrite lookup_app_r, Nat.sub_diag by lia.
    - intros e' Hne. unfold listeners, slot_of. cbn. rewrite get_event_replace, decide_False by done. fold (slot_of st e'). destruct (slot_of st e') as [[|b]|] eqn:Eb; try done.
      unfold array. cbn. by rewrite lookup_app_l by (by eapply Hh).
    - rewrite length_insert. by eapply Hh.
    - split; cbn; [done| |done]. intros e' b Eb. rewrite length_insert. by eapply Hh.
    - unfold listeners. change (slot_of (set_array _ _ _ st) e) with (slot_of st e). rewrite Es, array_set, decide_True by (done || by eapply Hh). done.
    - intros e' Hne. unfold listeners. change (slot_of (set_array _ _ _ st) e') with (slot_of st e'). destruct (slot_of st e') as [[|b]|] eqn:Eb; try done.
      rewrite array_set by (by eapply Hh). rewrite decide_False; [done|]. intros ->. by apply Hne, (Ha e e' b). }
  destruct x as [st1 a]. cbn in H0, H1, H2, H3, H4. destruct (_ && _); [|done]. destruct (warn_lists a st1 H0 H1) as (W1 & W2 & W3).
  split_and!; [done|by rewrite W2|intros e' Hne; rewrite W2; by apply H3|by rewrite W3].
Qed.

Lemma take_slot e t st st' e' : apart st -> take_listener e t st = Some st' -> e <> e' -> slot_of st' e' = slot_of st e'.
Proof.
  intros [Hk _ _] Ht Hne. unfold take_listener in Ht. destruct (slot_of st e) as [[f|a]|]; [destruct (matches f t); [|done]|destruct (last_match _ _ _ _); [|done]; destruct (_ =? 1)%nat|done];
    injection Ht as <-; unfold slot_of; cbn; by rewrite ?get_event_delete, ?decide_False.
Qed.

Lemma store_slot e t st e' : e <> e' -> slot_of (store_listener e t st) e' = slot_of st e'.
Proof.
  intros Hne. unfold store_listener. destruct (slot_of st e) as [[f|a]|]; cbn; [|by destruct (_ && _)|unfold slot_of; cbn; by rewrite get_event_replace, decide_False].
  destruct (_ && _); unfold slot_of; cbn; by rewrite get_event_replace, decide_False.
Qed.

(** A list of listeners for each event, and the number of calls of once. *)
Definition lists : Type := (event -> list fn) * nat.
Definition update (m : event -> list fn) (e : event) (l : list fn) : event -> list fn := fun e' => if decide (e = e') then l else m e'.

Definition list_op (x : lists) (o : op) : lists :=
  let '(m, n) := x in
  match o with
  | OnOp e z => (update m e (m e ++ [Plain z]), n)
  | OnceOp e z => (update m e (m e ++ [Wrap n e z]), S n)
  | OffOp e z => (update m e (remove_last (Plain z) (m e)), n)
  | OffAllOp (Some e) => (update m e [], n)
  | OffAllOp None => (fun _ => [], n)
  | EmitOp _ | SetMaxOp _ => (m, n)
  end.

(** Not a call of emit, nor on the events of additions and removals. *)
Definition quiet (o : op) : bool :=
  match o with
  | OnOp e _ | OnceOp e _ | OffOp e _ | OffAllOp (Some e) => negb (bool_decide (e = NewListener)) && negb (bool_decide (e = RemoveListenerEvent))
  | EmitOp _ => false
  | _ => true
  end.

Definition sequence (ops : list op) : prog := foldr (fun o p => Do o (fun _ => p)) Done ops.

Record shows (st : emitter) (x : lists) : Prop := {
  shows_apart : apart st;
  shows_lists : forall e, listeners st e = fst x e;
  shows_fired : length (fired st) = snd x;
  shows_new : slot_of st NewListener = None;
  shows_remove : slot_of st RemoveListenerEvent = None
}.

Lemma add_shows listener fuel st m n e t : shows st (m, n) -> e <> NewListener -> e <> RemoveListenerEvent ->
  exists st', run listener (S fuel) (AddListener e t) st = (st', Some (Ok true)) /\ shows st' (update m e (m e ++ [t]), n).
Proof.
  intros [Ha Hl Hf Hn Hr] H1 H2. exists (store_listener e t st). cbn [run]. unfold listened. rewrite Hn. split; [done|].
  destruct (store_lists e t st Ha) as (Ha' & Hl' & Ho & Hf'). cbn in *. split; cbn; [done| |by rewrite Hf'|by rewrite store_slot|by rewrite store_slot].
  intros e'. unfold update. destruct (decide (e = e')) as [<-|Hne]; [by rewrite Hl', Hl|by rewrite Ho, Hl].
Qed.

Lemma op_shows listener fuel o st x : shows st x -> quiet o = true ->
  exists st' r, run_op (run listener (S fuel)) o st = (st', Some r) /\ shows st' (list_op x o).
Proof.
  destruct x as [m n]. intros Hs Hq. pose proof Hs as [Ha Hl Hf Hn Hr]. destruct o as [e|e z|e z|e z|[e|]|[k|]]; cbn in Hq; try done;
    rewrite ?andb_true_iff, ?negb_true_iff, ?bool_decide_eq_false in Hq; try destruct Hq as [H1 H2]; unfold run_op, removeAllListeners, setMaxListeners, once; cbn [list_op].
  - destruct (add_shows listener fuel st m n e (Plain z) Hs H1 H2) as (st' & E & Hs'). by exists st', (Ok true).
  - cbn in Hf. subst n. destruct (add_shows listener fuel (set_fired (fired st ++ [false]) st) m (S (length (fired st))) e (Wrap (length (fired st)) e z)) as (st' & E & Hs'); [|done|done|by exists st', (Ok true)].
    split; cbn; [by destruct Ha|done|rewrite length_app; cbn; lia|done|done].
  - cbn [run]. pose proof (take_lists e (Plain z) st Ha) as Ht. destruct (take_listener e (Plain z) st) as [st'|] eqn:Et.
    + destruct Ht as (Ha' & Hl' & Ho & Hf'). unfold listened. rewrite (take_slot _ _ _ _ _ Ha Et H2), Hr. exists st', (Ok true). split; [done|].
      split; cbn; [done| |by rewrite Hf'|by rewrite (take_slot _ _ _ _ _ Ha Et H1)|by rewrite (take_slot _ _ _ _ _ Ha Et H2)].
      intros e'. unfold update. destruct (decide (e = e')) as [<-|Hne]; [by rewrite Hl', Hl|by rewrite Ho, Hl].
    + exists st, (Ok true). split; [done|]. split; cbn; try done. intros e'. unfold update. destruct (decide (e = e')) as [<-|Hne]; [|by rewrite Hl]. by rewrite Hl in Ht |- *.
  - cbn [run]. unfold listened. rewrite Hr. eexists _, _. split; [done|]. pose proof (apart_keys _ Ha) as Hk. assert (forall e', slot_of (set_events (delete_event (_events st) e) st) e' = if decide (e = e') then None else slot_of st e') as Hd by (intros e'; by apply get_event_delete).
    split; cbn [fst snd]; [|intros e'; unfold listeners, update; rewrite Hd; destruct (decide (e = e')); [done|by rewrite <- Hl]|done|by rewrite Hd, decide_False|by rewrite Hd, decide_False].
    eapply (apart_change st _ e None); [done| |done|done|done]. by eapply sublist_NoDup; [|apply keys_delete].
  - unfold listened. rewrite Hr. eexists _, _. split; [done|]. split; cbn; try done. split; cbn; [constructor|done|done].
  - destruct (k <? 0); (eexists _, _; split; [done|]); [done|]. split; cbn; try done. by destruct Ha.
  - eexists _, _. by split.
Qed.

(** C25: any sequence of on, once, removeListener, removeAllListeners and setMaxListeners on a new
    emitter, in which no call names the events newListener and removeListener, returns and leaves
    for each event the list that these methods should make: additions go to the end, a removal
    takes the last listener that is the function or was made of it by once; and listenerCount is
    its length. *)
Theorem events_lists listener ops : forallb quiet ops = true ->
  exists st, run listener (length ops + 2) (Program (sequence ops)) new_emitter = (st, Some (Ok true)) /\
    forall e, listeners st e = fst (foldl list_op (fun _ => [], O) ops) e /\ listenerCount st e = zlen (listeners st e).
Proof.
  intros Hq. assert (forall ops st x, forallb quiet ops = true -> shows st x ->
    exists st', run listener (length ops + 2) (Program (sequence ops)) st = (st', Some (Ok true)) /\ shows st' (foldl list_op x ops)) as H.
  { clear. induction ops as [|o ops IH]; intros st x Hq Hs; [by exists st|]. cbn [forallb] in Hq. apply andb_true_iff in Hq as [Hq1 Hq2].
    cbn [length Nat.add sequence foldr foldl]. rewrite run_program. replace (length ops + 2)%nat with (S (length ops + 1)) by lia.
    destruct (op_shows listener (length ops + 1) o st x Hs Hq1) as (st1 & r & E & Hs1). rewrite E. replace (S (length ops + 1)) with (length ops + 2)%nat by lia.
    by apply IH. }
  destruct (H ops new_emitter (fun _ => [], O) Hq) as (st & E & Hs); [by split; [split; [constructor|..]|..]|].
  exists st. split; [done|]. intros e. split; [apply Hs|]. unfold listenerCount, listeners. by destruct (slot_of st e) as [[|]|].
Qed.

Lemma events_lists_witness :
  let ops := [OnOp (Named 1) 5; OnceOp (Named 1) 6; OnOp (Named 2) 6; OnOp (Named 1) 5; OffOp (Named 1) 6; OffAllOp (Some (Named 2))] in
  exists st, run emit_again 8 (Program (sequence ops)) new_emitter = (st, Some (Ok true)) /\
    forall e, listeners st e = fst (foldl list_op (fun _ => [], O) ops) e /\ listenerCount st e = zlen (listeners st e).
Proof. exact (events_lists emit_again [OnOp (Named 1) 5; OnceOp (Named 1) 6; OnOp (Named 2) 6; OnOp (Named 1) 5; OffOp (Named 1) 6; OffAllOp (Some (Named 2))] eq_refl). Defined.

End Events.
