(* ===== verification/Url.v ===== *)
(** * url

    Models the url module, number 895 (lines 31682 to 31873 of
    src/client/docs/swagger-ui/swagger-ui-bundle.js): Url objects, parse with its options,
    format, and resolve, over the models of punycode, querystring and of
    encodeURIComponent.  Unicode's [toLowerCase] is an argument.

    A field is null or a string.  The objects that a relative address is resolved with
    are values here: the code also changes the relative object, which is its own copy
    unless the caller passes an object. *)

From S2P Require Import Prelude.
From S2P Require Import JsString.
From S2P Require Import Utf8.
From S2P Require Import Punycode.
From S2P Require Import Uri.
From S2P Require Import QueryString.
From Stdlib Require Import String.
From stdpp Require Import base numbers list option gmap.
Open Scope Z_scope.

Module Url.
Import Uri.

(** ** Data *)

(** The query: null, the text, what querystring made of it, or an object of the user. *)
Inductive query_value :=
| QNull
| QText (s : jsstring)
| QParsed (m : gmap jsstring QueryString.entry)
| QObject (o : list (jsstring * QueryString.value)).

Record url := Url {
  protocol : option jsstring;
  slashes : bool;
  auth : option jsstring;
  host : option jsstring;
  port : option jsstring;
  hostname : option jsstring;
  hash : option jsstring;
  search : option jsstring;
  query : query_value;
  pathname : option jsstring;
  path : option jsstring;
  href : option jsstring
}.
Definition new_url : url := Url None false None None None None None None QNull None None None.

Definition with_protocol (v : option jsstring) (u : url) : url := Url v (slashes u) (auth u) (host u) (port u) (hostname u) (hash u) (search u) (query u) (pathname u) (path u) (href u).
Definition with_slashes (v : bool) (u : url) : url := Url (protocol u) v (auth u) (host u) (port u) (hostname u) (hash u) (search u) (query u) (pathname u) (path u) (href u).
Definition with_auth (v : option jsstring) (u : url) : url := Url (protocol u) (slashes u) v (host u) (port u) (hostname u) (hash u) (search u) (query u) (pathname u) (path u) (href u).
Definition with_host (v : option jsstring) (u : url) : url := Url (protocol u) (slashes u) (auth u) v (port u) (hostname u) (hash u) (search u) (query u) (pathname u) (path u) (href u).
Definition with_port (v : option jsstring) (u : url) : url := Url (protocol u) (slashes u) (auth u) (host u) v (hostname u) (hash u) (search u) (query u) (pathname u) (path u) (href u).
Definition with_hostname (v : option jsstring) (u : url) : url := Url (protocol u) (slashes u) (auth u) (host u) (port u) v (hash u) (search u) (query u) (pathname u) (path u) (href u).
Definition with_hash (v : option jsstring) (u : url) : url := Url (protocol u) (slashes u) (auth u) (host u) (port u) (hostname u) v (search u) (query u) (pathname u) (path u) (href u).
Definition with_search (v : option jsstring) (q : query_value) (u : url) : url := Url (protocol u) (slashes u) (auth u) (host u) (port u) (hostname u) (hash u) v q (pathname u) (path u) (href u).
Definition with_pathname (v : option jsstring) (u : url) : url := Url (protocol u) (slashes u) (auth u) (host u) (port u) (hostname u) (hash u) (search u) (query u) v (path u) (href u).
Definition with_path (v : option jsstring) (u : url) : url := Url (protocol u) (slashes u) (auth u) (host u) (port u) (hostname u) (hash u) (search u) (query u) (pathname u) v (href u).
Definition with_href (v : option jsstring) (u : url) : url := Url (protocol u) (slashes u) (auth u) (host u) (port u) (hostname u) (hash u) (search u) (query u) (pathname u) (path u) v.

(** null and the empty string are false. *)
Definition given (s : option jsstring) : bool := match s with Some (_ :: _) => true | _ => false end.
Definition text_of (s : option jsstring) : jsstring := default [] s.

(** ** Tables and patterns *)

Definition unwise : list Z := js "{}|\^`" ++ js "<>" ++ [34] ++ js "` " ++ [13; 10; 9].
Definition autoEscape : list Z := js "'" ++ unwise.
Definition nonHostChars : list Z := js "%/?;#" ++ autoEscape.
Definition hostEndingChars : list Z := js "/?#".
(** hostlessProtocol; the table unsafeProtocol is the same. *)
Definition hostlessProtocol (p : option jsstring) : bool := bool_decide (p ∈ [Some (js "javascript"); Some (js "javascript:")]).
Definition slashedProtocol (p : option jsstring) : bool :=
  bool_decide (p ∈ map (fun s => Some (js s)) ["http"; "https"; "ftp"; "gopher"; "file"; "http:"; "https:"; "ftp:"; "gopher:"; "file:"]%string).

Definition is_alnum (c : Z) : bool := ((48 <=? c) && (c <=? 57)) || ((65 <=? c) && (c <=? 90)) || ((97 <=? c) && (c <=? 122)).

(** [/^([a-z0-9.+-]+:)/i]. *)
Definition protocol_char (c : Z) : bool := is_alnum c || (c =? 46) || (c =? 43) || (c =? 45).
Fixpoint protocol_run (s : jsstring) : jsstring :=
  match s with
  | c :: s => if protocol_char c then c :: protocol_run s else []
  | [] => []
  end.
Definition protocolPattern (s : jsstring) : option jsstring :=
  let p := protocol_run s in
  match p, drop (length p) s with
  | _ :: _, 58 :: _ => Some (p ++ [58])
  | _, _ => None
  end.

(** simplePathPattern: one or two slashes and no third, no white space; the path before the
    first question mark, and the search from there if there is one. *)
Definition simplePathPattern (s : jsstring) : option (jsstring * option jsstring) :=
  if bool_decide (take 1 s = js "/") && negb (bool_decide (take 3 s = js "///")) && negb (existsb is_space s) then
    let i := index_of 63 s in
    if i <? 0 then Some (s, None) else Some (take (Z.to_nat i) s, Some (drop (Z.to_nat i) s))
  else None.

(** [/:[0-9]*$/]: the colon and the digits. *)
Definition portPattern (s : jsstring) : option jsstring :=
  let i := last_index_of 58 s in
  if i <? 0 then None
  else let t := drop (Z.to_nat i) s in
       if forallb (fun c => (48 <=? c) && (c <=? 57)) (drop 1 t) then Some t else None.

(** hostnamePartPattern, at most 63 characters of a hostname, and hostnamePartStart, which
    splits off as many; its dot does not match the end of a line. *)
Definition hostname_char (c : Z) : bool := is_alnum c || (c =? 43) || (c =? 95) || (c =? 45).
Definition hostnamePartPattern (s : jsstring) : bool := forallb hostname_char s && (length s <=? 63)%nat.
Fixpoint hostname_run (n : nat) (s : jsstring) : jsstring :=
  match n, s with
  | S n, c :: s => if hostname_char c then c :: hostname_run n s else []
  | _, _ => []
  end.
Definition line_end (c : Z) : bool := (c =? 10) || (c =? 13) || (c =? 8232) || (c =? 8233).
Definition hostnamePartStart (s : jsstring) : option (jsstring * jsstring) :=
  if existsb line_end s then None
  else let p := hostname_run 63 s in Some (p, drop (length p) s).

(** [/^\/\/[^@\/]+@[^@\/]+/]. *)
Definition loginPattern (s : jsstring) : bool :=
  if bool_decide (take 2 s = js "//") then
    match split_on 64 (drop 2 s) with
    | p :: q :: _ => negb (bool_decide (p = [])) && negb (existsb (Z.eqb 47) p) &&
        match q with c :: _ => negb (c =? 47) | [] => false end
    | _ => false
    end
  else false.

(** The least index of one of the characters, or -1. *)
Definition first_of (cs : list Z) (b : jsstring) : Z :=
  foldl (fun k c => let o := index_of c b in if negb (o =? -1) && ((k =? -1) || (o <? k)) then o else k) (-1) cs.

(** [s.replace(/c/g, t)], and [s.split(c).join(t)], for a character [c]. *)
Definition replace_all (c : Z) (t s : jsstring) : jsstring := flat_map (fun x => if x =? c then t else [x]) s.

(** ** parse *)

(** The backslashes before the first question mark or number sign. *)
Definition fix_slashes (e : jsstring) : jsstring :=
  let i := index_of 63 e in
  let u := if negb (i =? -1) && (i <? index_of 35 e) then 63 else 35 in
  match split_on u e with
  | p :: l => join_with [u] (replace_all 92 (js "/") p :: l)
  | [] => []
  end.

Definition parse_query (t : bool) (s : jsstring) : res query_value :=
  if t then let! m := QueryString.decode (Some s) [] [] None in Ok (QParsed m) else Ok (QText s).

Definition parseHost (u : url) : url :=
  let e := text_of (host u) in
  let '(u, e) :=
    match portPattern e with
    | Some t => (if decide (t = [58]) then u else with_port (Some (drop 1 t)) u, take (length e - length t) e)
    | None => (u, e)
    end in
  if decide (e = []) then u else with_hostname (Some e) u.

(** The parts [T] of the hostname from the part [A] on, those before in [D]: at a part
    that cannot be one, the hostname and what goes back to the path. *)
Fixpoint check_parts (D T : list jsstring) : option (jsstring * option jsstring) :=
  match T with
  | [] => None
  | part :: T =>
      if negb (bool_decide (part = [])) && negb (hostnamePartPattern part) && negb (hostnamePartPattern (map (fun c => if 127 <? c then 120 else c) part)) then
        let '(D, L) := match hostnamePartStart part with Some (p, q) => (D ++ [p], q :: T) | None => (D, T) end in
        Some (join_with [46] D, if decide (L = []) then None else Some (47 :: join_with [46] L))
      else check_parts (D ++ [part]) T
  end.

Section Lower.
Context (toLowerCase : jsstring -> jsstring).

(** The authority at the beginning of [b]: the rest is returned. *)
Definition parse_authority (u : url) (b : jsstring) : res (url * jsstring) :=
  let k := first_of hostEndingChars b in
  let c := if k =? -1 then last_index_of 64 b else last_index_of 64 (take (Z.to_nat (k + 1)) b) in
  let! (u, b) := (if c =? -1 then Ok (u, b)
                  else let! s := decodeURIComponent (take (Z.to_nat c) b) in Ok (with_auth (Some s) u, drop (Z.to_nat (c + 1)) b)) in
  let k := first_of nonHostChars b in
  let k := if k =? -1 then zlen b else k in
  let u := parseHost (with_host (Some (take (Z.to_nat k) b)) u) in
  let b := drop (Z.to_nat k) b in
  let h := text_of (hostname u) in
  let P := bool_decide (head h = Some 91) && bool_decide (last h = Some 93) in
  let '(h, b) := if P then (h, b)
                 else match check_parts [] (split_on 46 h) with
                      | Some (h, rest) => (h, text_of rest ++ b)
                      | None => (h, b)
                      end in
  let h := if 255 <? zlen h then [] else toLowerCase h in
  let! h := (if P then Ok h else Punycode.toASCII h) in
  let u := with_host (Some (h ++ (if given (port u) then 58 :: text_of (port u) else []))) u in
  if P then Ok (with_hostname (Some (take (length h - 2) (drop 1 h))) u, if bool_decide (head b = Some 47) then b else 47 :: b)
  else Ok (with_hostname (Some h) u, b).

(** [encodeURIComponent(z)], or [escape(z)] where that changes nothing. *)
Definition escape_char (z : Z) : jsstring := percent z.

Definition percent_3A (s : jsstring) : bool :=
  match s with 37 :: 51 :: c :: _ => (c =? 65) || (c =? 97) | _ => false end.
(** [s.replace(/%3A/i, ":")], the first only. *)
Fixpoint first_colon (s : jsstring) : jsstring :=
  match s with
  | [] => []
  | c :: s' => if percent_3A s then 58 :: drop 3 s else c :: first_colon s'
  end.

(** A parsed query has no order of its own here: where [parse] made one that is not empty it
    made a search too, and the text of the query is not used. *)
Definition entry_value (v : QueryString.entry) : QueryString.value :=
  match v with
  | QueryString.One s => QueryString.VPrim (QueryString.PString s)
  | QueryString.Many l => QueryString.VArray (map QueryString.PString l)
  end.

Definition format_query (q : query_value) : res jsstring :=
  let keys := match q with
              | QObject o => o
              | QParsed m => map (fun kv => (fst kv, entry_value (snd kv))) (map_to_list m)
              | _ => []
              end in
  if decide (keys = []) then Ok [] else QueryString.encode (QueryString.Object keys) [] [] [].

(** A first character is put before a text that has not got it. *)
Definition start_with (c : Z) (s : jsstring) : jsstring := if decide (s = []) then [] else if bool_decide (head s = Some c) then s else c :: s.

Definition format (u : url) : res jsstring :=
  let! e := (if given (auth u) then let! a := encodeURIComponent (text_of (auth u)) in Ok (first_colon a ++ [64]) else Ok []) in
  let t := text_of (protocol u) in
  let n := text_of (pathname u) in
  let i := if given (host u) then Some (e ++ text_of (host u))
           else if given (hostname u) then
             let h := text_of (hostname u) in
             Some (e ++ (if index_of 58 h =? -1 then h else [91] ++ h ++ [93]) ++ (if given (port u) then 58 :: text_of (port u) else []))
           else None in
  let! a := format_query (query u) in
  let s := if given (search u) then text_of (search u) else if decide (a = []) then [] else 63 :: a in
  let t := if decide (t = []) then [] else if bool_decide (last t = Some 58) then t else t ++ [58] in
  let '(i, n) :=
    if slashes u || ((bool_decide (t = []) || slashedProtocol (Some t)) && bool_decide (is_Some i))
    then (js "//" ++ text_of i, start_with 47 n)
    else (text_of i, n) in
  let r := start_with 35 (text_of (hash u)) in
  let s := start_with 63 s in
  let n := replace_all 63 (js "%3F") (replace_all 35 (js "%23") n) in
  let s := match split_on 35 s with p :: q => if decide (q = []) then p else p ++ js "%23" ++ join_with [35] q | [] => [] end in
  Ok (t ++ i ++ n ++ s ++ r).

Definition set_path (u : url) : url :=
  if given (pathname u) || given (search u) then with_path (Some (text_of (pathname u) ++ text_of (search u))) u else u.
Definition set_href (u : url) : res url := let! f := format u in Ok (with_href (Some f) u).

(** What is left after the authority. *)
Definition parse_rest (t : bool) (E : option jsstring) (u : url) (b : jsstring) : res url :=
  let b := if hostlessProtocol E then b else foldl (fun b z => replace_all z (escape_char z) b) b autoEscape in
  let V := index_of 35 b in
  let '(u, b) := if V =? -1 then (u, b) else (with_hash (Some (drop (Z.to_nat V) b)) u, take (Z.to_nat V) b) in
  let H := index_of 63 b in
  let! (u, b) := (if H =? -1 then Ok (if t then with_search (Some []) (QParsed ∅) u else u, b)
                  else let! q := parse_query t (drop (Z.to_nat (H + 1)) b) in Ok (with_search (Some (drop (Z.to_nat H) b)) q u, take (Z.to_nat H) b)) in
  let u := if decide (b = []) then u else with_pathname (Some b) u in
  let u := if slashedProtocol E && given (hostname u) && negb (given (pathname u)) then with_pathname (Some (js "/")) u else u in
  set_href (set_path u).

(** [parse(e, t, n)] on a new object. *)
Definition parse (e : jsstring) (t n : bool) : res url :=
  let e := fix_slashes e in
  let b := trim e in
  let whole :=
    let w := protocolPattern b in
    let E := match w with Some w => Some (toLowerCase w) | None => None end in
    let u := with_protocol E new_url in
    let b := match w with Some w => drop (length w) b | None => b end in
    let entered := n || (match w with Some _ => true | None => false end) || loginPattern b in
    let x := entered && bool_decide (take 2 b = js "//") in
    let '(u, b) := if x && negb (hostlessProtocol w) then (with_slashes true u, drop 2 b) else (u, b) in
    let! (u, b) := (if negb (hostlessProtocol w) && (x || (bool_decide (is_Some w) && negb (slashedProtocol w)))
                    then parse_authority u b else Ok (u, b)) in
    parse_rest t E u b in
  if negb n && (index_of 35 e =? -1) then
    match simplePathPattern b with
    | Some (p, s) =>
        let u := with_pathname (Some p) (with_href (Some b) (with_path (Some b) new_url)) in
        match s with
        | Some s => let! q := parse_query t (drop 1 s) in Ok (with_search (Some s) q u)
        | None => Ok (if t then with_search (Some []) (QParsed ∅) u else u)
        end
    | None => whole
    end
  else whole.
(** ** resolve *)

(** The loop over the segments from the last to the first, here reversed: [A] counts the
    segments that are still to be left out.  The result is in order. *)
Fixpoint remove_dots (rx : list jsstring) (A : nat) (acc : list jsstring) : list jsstring * nat :=
  match rx with
  | [] => (acc, A)
  | C :: rx =>
      if decide (C = js ".") then remove_dots rx A acc
      else if decide (C = js "..") then remove_dots rx (S A) acc
      else match A with
           | S A => remove_dots rx A acc
           | O => remove_dots rx O (C :: acc)
           end
  end.

(** [n.path] when one of pathname and search is not null. *)
Definition set_path_null (n : url) : url :=
  match pathname n, search n with
  | None, None => n
  | _, _ => with_path (Some (text_of (pathname n) ++ text_of (search n))) n
  end.

(** A host with a login in it is split. *)
Definition split_login (n : url) : url :=
  if given (host n) && (0 <? index_of 64 (text_of (host n))) then
    match split_on 64 (text_of (host n)) with
    | p :: q :: _ => with_hostname (Some q) (with_host (Some q) (with_auth (Some p) n))
    | _ => n
    end
  else n.

Definition starts_slash (s : option jsstring) : bool := bool_decide (head (text_of s) = Some 47).

Definition segments (s : option jsstring) : list jsstring := if given s then split_on 47 (text_of s) else [].

(** The relative address has another protocol, one with slashes. *)
Definition resolve_protocol (n e : url) : res url :=
  let n := with_protocol (protocol e) n in
  let '(e, n) :=
    if given (host e) || hostlessProtocol (protocol e) then (e, with_pathname (pathname e) n)
    else
      let fix shift (h : list jsstring) : jsstring * list jsstring :=
        match h with
        | [] => ([], [])
        | x :: h => if decide (x = []) then shift h else (x, h)
        end in
      let '(x, h) := shift (split_on 47 (text_of (pathname e))) in
      let e := with_host (Some x) e in
      let e := if given (hostname e) then e else with_hostname (Some []) e in
      let h := if bool_decide (head h = Some []) then h else [] :: h in
      let h := if (length h <? 2)%nat then [] :: h else h in
      (e, with_pathname (Some (join_with [47] h)) n) in
  let n := with_search (search e) (query e) n in
  let n := with_host (Some (text_of (host e))) n in
  let n := with_auth (auth e) n in
  let n := with_hostname (if given (hostname e) then hostname e else host e) n in
  let n := with_port (port e) n in
  set_href (with_slashes (slashes n || slashes e) (set_path n)).

(** In a protocol without slashes the host is the first segment of the path. *)
Definition first_segment (h : option jsstring) (x : list jsstring) : list jsstring :=
  if given h then match x with [] :: x => text_of h :: x | _ => text_of h :: x end else x.

(** The path of the segments [x]; [w] and [E] are the variables mustEndAbs and removeAllDots
    of the code, [psychotic] its S. *)
Definition finish_path (n e : url) (x : list jsstring) (w E psychotic : bool) : res url :=
  let C := text_of (last x) in
  let k := ((given (host n) || given (host e) || (1 <? length x)%nat) && (bool_decide (C = js ".") || bool_decide (C = js ".."))) || bool_decide (C = []) in
  let '(x, A) := remove_dots (List.rev x) 0 [] in
  let x := if negb w && negb E then replicate A (js "..") ++ x else x in
  let x := if w && negb (bool_decide (head x = Some [])) && negb (starts_slash (head x)) then [] :: x else x in
  let x := if k && negb (bool_decide (last (join_with [47] x) = Some 47)) then x ++ [[]] else x in
  let T := bool_decide (head x = Some []) || starts_slash (head x) in
  let '(n, x) :=
    if psychotic then
      let '(h, x) := if T then ([], x) else match x with h :: x => (h, x) | [] => ([], []) end in
      (split_login (with_hostname (Some h) (with_host (Some h) n)), x)
    else (n, x) in
  let w := w || (given (host n) && negb (bool_decide (x = []))) in
  let x := if w && negb T then [] :: x else x in
  let n := if decide (x = []) then with_path None (with_pathname None n) else with_pathname (Some (join_with [47] x)) n in
  let n := set_path_null n in
  let n := with_auth (if given (auth e) then auth e else auth n) n in
  set_href (with_slashes (slashes n || slashes e) n).

(** The relative address has no protocol of its own, or the same. *)
Definition resolve_path (n e : url) : res url :=
  let b := given (pathname n) && starts_slash (pathname n) in
  let a := given (host e) || (given (pathname e) && starts_slash (pathname e)) in
  let w := a || b || (given (host n) && given (pathname e)) in
  let x := segments (pathname n) in
  let h := segments (pathname e) in
  let psychotic := given (protocol n) && negb (slashedProtocol (protocol n)) in
  let x1 := if psychotic then first_segment (host n) x else x in
  let h1 := if psychotic && given (protocol e) then first_segment (host e) h else h in
  let n1 := if psychotic then with_host (Some []) (with_port None (with_hostname (Some []) n)) else n in
  let e1 := if psychotic && given (protocol e) then with_host None (with_port None (with_hostname None e)) else e in
  let w1 := if psychotic then w && (bool_decide (head h1 = Some []) || bool_decide (head x1 = Some [])) else w in
  let go n x := if decide (x = []) then
                  set_href (with_path (if given (search n) then Some (47 :: text_of (search n)) else None) (with_pathname None n))
                else finish_path n e1 x w1 w psychotic in
  if a then
    let n := with_host (match host e1 with Some s => Some s | None => host n1 end) n1 in
    let n := with_hostname (match hostname e1 with Some s => Some s | None => hostname n end) n in
    go (with_search (search e1) (query e1) n) h1
  else if decide (h1 = []) then
    match search e1 with
    | Some _ =>
        let n := if psychotic then split_login (with_host (head x1) (with_hostname (head x1) n1)) else n1 in
        set_href (set_path_null (with_search (search e1) (query e1) n))
    | None => go n1 x1
    end
  else go (with_search (search e1) (query e1) n1) (take (length x1 - 1) x1 ++ h1).

Definition resolveObject (this e : url) : res url :=
  let n := with_hash (hash e) this in
  if bool_decide (href e = Some []) then set_href n
  else if slashes e && negb (given (protocol e)) then
    let n := with_protocol (protocol n) e in
    let n := if slashedProtocol (protocol n) && given (hostname n) && negb (given (pathname n)) then with_path (Some (js "/")) (with_pathname (Some (js "/")) n) else n in
    set_href n
  else if given (protocol e) && negb (bool_decide (protocol e = protocol n)) then
    if slashedProtocol (protocol e) then resolve_protocol n e else set_href e
  else resolve_path n e.

(** [url.resolve(e, t)]. *)
Definition resolve (e t : jsstring) : res jsstring :=
  let! u := parse e false true in
  let! r := parse t false true in
  let! v := resolveObject u r in
  format v.

End Lower.
End Url.
