(* ===== verification/UrlOk.v ===== *)
(** * Addresses that survive

    The facts about the url module: an address in its normal form is parsed into its
    parts and formatted back, and resolving leaves no dot segments. *)

From S2P Require Import Prelude.
From S2P Require Import JsString.
From S2P Require Import Utf8.
From S2P Require Import Punycode.
From S2P Require Import Uri.
From S2P Require Import QueryString.
From S2P Require Import Url.
From Stdlib Require Import String.
From stdpp Require Import base numbers list option gmap.
Open Scope Z_scope.

Module UrlOk.
Import Uri.
Import Url.

(** ** Searching and replacing *)

Lemma replace_all_none c t s : c ∉ s -> replace_all c t s = s.
Proof. induction s as [|x s IH]; [done|]. rewrite not_elem_of_cons. intros [Hx Hs]. cbn. rewrite (proj2 (Z.eqb_neq _ _)) by done. cbn. f_equal. auto. Qed.

Lemma replace_each_none cs f : forall s, (forall c, c ∈ cs -> c ∉ s) -> foldl (fun b z => replace_all z (f z) b) s cs = s.
Proof. induction cs as [|c cs IH]; intros s Hs; [done|]. cbn. rewrite replace_all_none by (apply Hs; by left). apply IH. intros x Hx. apply Hs. by right. Qed.

Lemma index_of_bound x pre s : x ∉ pre -> index_of x (pre ++ s) = -1 \/ zlen pre <= index_of x (pre ++ s).
Proof.
  intros Hx. destruct (decide (x ∈ s)) as [Hin|Hout].
  - right. apply list_elem_of_split_l in Hin as (s1 & s2 & -> & Hs). rewrite app_assoc, index_of_app by (rewrite elem_of_app; intuition). rewrite zlen_app. pose proof (zlen_nonneg s1). lia.
  - left. apply index_of_none. rewrite elem_of_app. intuition.
Qed.

Lemma first_of_app cs pre c s : (forall x, x ∈ cs -> x ∉ pre) -> c ∈ cs -> first_of cs (pre ++ c :: s) = zlen pre.
Proof.
  intros Hpre Hc. unfold first_of. pose proof (zlen_nonneg pre). set (f := fun k x => _).
  assert (forall cs k, (forall x, x ∈ cs -> x ∉ pre) -> k = -1 \/ zlen pre <= k -> foldl f k cs = -1 \/ zlen pre <= foldl f k cs) as Hge.
  { induction cs0 as [|x cs0 IH]; intros k Hcs Hk; [done|]. cbn. apply IH; [intros y Hy; apply Hcs; by right|]. unfold f. destruct (_ && _); [|done]. apply index_of_bound, Hcs. by left. }
  assert (forall cs, (forall x, x ∈ cs -> x ∉ pre) -> foldl f (zlen pre) cs = zlen pre) as Hfix.
  { induction cs0 as [|x cs0 IH]; intros Hcs; [done|]. cbn. assert (f (zlen pre) x = zlen pre) as ->; [|apply IH; intros y Hy; apply Hcs; by right].
    unfold f. destruct (index_of_bound x pre (c :: s)) as [E|E]; [apply Hcs; by left|by rewrite E|].
    rewrite (proj2 (Z.ltb_ge _ _)), (proj2 (Z.eqb_neq (zlen pre) _)) by lia. by rewrite andb_false_r. }
  apply list_elem_of_split in Hc as (cs1 & cs2 & ->). rewrite foldl_app. cbn.
  assert (f (foldl f (-1) cs1) c = zlen pre) as ->; [|apply Hfix; intros x Hx; apply Hpre; rewrite elem_of_app, elem_of_cons; auto].
  unfold f at 1. rewrite index_of_app by (apply Hpre; rewrite elem_of_app, elem_of_cons; auto). rewrite (proj2 (Z.eqb_neq (zlen pre) _)) by lia. cbn [negb andb].
  destruct (Hge cs1 (-1)) as [->|Hk]; [intros x Hx; apply Hpre; rewrite elem_of_app; auto|by left|done|].
  destruct (Z.ltb_spec (zlen pre) (foldl f (-1) cs1)); [by rewrite orb_true_r|]. rewrite (proj2 (Z.eqb_neq (foldl f (-1) cs1) _)) by lia. cbn. lia.
Qed.

Lemma first_of_none cs s : (forall x, x ∈ cs -> x ∉ s) -> first_of cs s = -1.
Proof.
  unfold first_of. induction cs as [|x cs IH] using rev_ind; intros Hs; [done|]. rewrite foldl_app. cbn. rewrite IH by (intros y Hy; apply Hs; rewrite elem_of_app; auto).
  by rewrite index_of_none by (apply Hs; rewrite elem_of_app, list_elem_of_singleton; auto).
Qed.

(** ** Dot segments *)

(** One pass from the first segment to the last, with a stack; the number of segments that
    were missing. *)
Definition push_segment (st : list jsstring * nat) (C : jsstring) : list jsstring * nat :=
  let '(l, k) := st in
  if decide (C = js ".") then (l, k)
  else if decide (C = js "..") then (if decide (l = []) then ([], S k) else (take (length l - 1) l, k))
  else (l ++ [C], k).
Definition normalize (x : list jsstring) : list jsstring * nat := foldl push_segment ([], O) x.

Lemma remove_dots_stack x : forall A acc, remove_dots (List.rev x) A acc =
  let '(l, k) := normalize x in (take (length l - A) l ++ acc, (k + (A - length l))%nat).
Proof.
  induction x as [|C x IH] using rev_ind; intros A acc; [cbn; f_equal; lia|].
  rewrite rev_app_distr. cbn [List.rev app remove_dots]. unfold normalize in *. rewrite foldl_app. cbn [foldl]. destruct (foldl push_segment ([], O) x) as [l k]. unfold push_segment.
  destruct (decide (C = js ".")); [apply IH|]. destruct (decide (C = js "..")).
  - rewrite IH. destruct (decide (l = [])) as [->|Hl]; [cbn; f_equal; lia|]. assert (length l <> O) by (by destruct l). rewrite take_take, length_take. f_equal; [do 2 f_equal; lia|lia].
  - destruct A as [|A]; rewrite IH, length_app; cbn [length].
    + rewrite Nat.sub_0_r, (take_ge l), take_ge by (rewrite ?length_app; cbn; lia). rewrite <- app_assoc. f_equal; lia.
    + rewrite take_app_le by lia. f_equal; [do 2 f_equal; lia|lia].
Qed.

(** The loop of resolve, from the last segment to the first, does what a stack does from
    the first to the last. *)
Lemma dot_segments_loop x : remove_dots (List.rev x) 0 [] = normalize x.
Proof. rewrite remove_dots_stack. destruct (normalize x) as [l k]. rewrite Nat.sub_0_r, take_ge, app_nil_r by lia. f_equal. lia. Qed.

Definition dot (C : jsstring) : Prop := C = js "." \/ C = js "..".

(** The segments left are segments of the path, and no dots. *)
Lemma normalize_segments x : Forall (fun C => C ∈ x /\ ~ dot C) (fst (normalize x)).
Proof.
  induction x as [|C x IH] using rev_ind; [constructor|]. unfold normalize in *. rewrite foldl_app. cbn [foldl]. destruct (foldl push_segment ([], O) x) as [l k]. cbn in IH.
  assert (Forall (fun c => c ∈ x ++ [C] /\ ~ dot c) l) as IH' by (eapply List.Forall_impl; [|exact IH]; cbn; intros a [? ?]; split; [apply elem_of_app; by left|done]).
  unfold push_segment. destruct (decide (C = js ".")); [done|]. destruct (decide (C = js "..")); [destruct (decide (l = [])); [constructor|by apply Forall_take]|].
  apply Forall_app. split; [done|]. constructor; [|constructor]. split; [apply elem_of_app; right; by left|]. by intros [?|?].
Qed.

Lemma normalize_last x C : ~ dot C -> exists l, fst (normalize (x ++ [C])) = l ++ [C].
Proof.
  intros HC. unfold normalize. rewrite foldl_app. cbn. destruct (foldl push_segment ([], O) x) as [l k]. exists l. unfold push_segment.
  rewrite !decide_False by (intros ->; apply HC; by (left + right)). done.
Qed.

(** A path from the root without dots. *)
Definition rooted (p : jsstring) : Prop := head p = Some 47 /\ Forall (fun C => ~ dot C) (split_on 47 p).

(** An address that format does not reject. *)
Definition formats (u : url) : Prop :=
  QueryString.text (text_of (auth u)) /\ exists q, format_query (query u) = Ok q.

Lemma format_ok u : formats u -> exists f, format u = Ok f.
Proof.
  intros [[Hu Hw] [q Hq]]. unfold format. destruct (uri_decode_encode _ Hu Hw) as (t & E & _). rewrite E, Hq. destruct (given (auth u)); cbn [res_bind]; repeat case_match; eauto.
Qed.

Lemma set_href_ok u : formats u -> exists v, set_href u = Ok v /\ pathname v = pathname u /\ host v = host u /\ protocol v = protocol u.
Proof. intros Hu. unfold set_href. destruct (format_ok u Hu) as [f ->]. cbn. by eexists. Qed.

(** The segments of an absolute path after the loop: the first is empty, and there are
    two, the last empty where a slash must end the path. *)
Lemma absolute_segments x (k : bool) : (2 <= length x)%nat -> Forall (fun C => 47 ∉ C) x ->
  (k = false -> exists x0 C, x = x0 ++ [C] /\ C <> [] /\ ~ dot C) ->
  let x1 := fst (normalize x) in
  let x2 := if negb (bool_decide (head x1 = Some [])) && negb (starts_slash (head x1)) then [] :: x1 else x1 in
  let x3 := if k && negb (bool_decide (last (join_with [47] x2) = Some 47)) then x2 ++ [[]] else x2 in
  head x3 = Some [] /\ rooted (join_with [47] x3).
Proof.
  intros Hlen Hx Hk x1 x2 x3. pose proof (normalize_segments x) as Hseg. fold x1 in Hseg.
  assert (Forall (fun c => (47 ∉ c) /\ ~ dot c) x1) as H1. { eapply List.Forall_impl; [|exact Hseg]. intros c [Hin Hd]. split; [|done]. rewrite list.Forall_forall in Hx. by apply Hx. }
  assert (exists y, x2 = [] :: y /\ Forall (fun c => (47 ∉ c) /\ ~ dot c) x2 /\ (k = false -> y <> [])) as (y & Ey & H2 & Hy).
  { assert (starts_slash (head x1) = false \/ head x1 = Some []) as Hss.
    { destruct x1 as [|c y]; [by left|]. inversion H1 as [|?? [Hc _] _]; subst. destruct c as [|c0 c]; [by right|]. left. unfold starts_slash. cbn. apply bool_decide_eq_false_2. intros [= ->]. apply Hc. by left. }
    assert (k = false -> exists l C, x1 = l ++ [C] /\ C <> []) as Hlast.
    { intros (x0 & C & -> & HC & Hd)%Hk. destruct (normalize_last x0 C Hd) as [l El]. by exists l, C. }
    unfold x2. destruct (decide (head x1 = Some [])) as [E|E].
    - rewrite bool_decide_eq_true_2 by done. cbn. destruct x1 as [|c y]; [done|]. injection E as ->. exists y. split_and!; [done|done|]. intros Ek ->. destruct (Hlast Ek) as (l & C & El & HC). destruct l as [|? [|]]; by injection El.
    - rewrite bool_decide_eq_false_2 by done. destruct Hss as [->|]; [|done]. cbn. exists x1. split_and!; [done| |].
      + constructor; [|done]. split; [apply not_elem_of_nil|by intros [|]].
      + intros Ek. destruct (Hlast Ek) as (l & C & -> & _). by destruct l. }
  assert (exists z, x3 = [] :: z /\ z <> [] /\ Forall (fun c => (47 ∉ c) /\ ~ dot c) x3) as (z & Ez & Hz & H3).
  { unfold x3. destruct k; cbn [andb]; [|exists y; by rewrite Ey in *; auto]. destruct (decide (last (join_with [47] x2) = Some 47)) as [E|E].
    - rewrite bool_decide_eq_true_2 by done. cbn. exists y. split_and!; [done| |done]. intros ->. rewrite Ey in E. done.
    - rewrite bool_decide_eq_false_2 by done. cbn. exists (y ++ [[]]). split_and!; [by rewrite Ey|by destruct y|].
      apply Forall_app. split; [done|]. constructor; [|constructor]. split; [apply not_elem_of_nil|by intros [|]]. }
  rewrite Ez. split; [done|]. split; [by destruct z|]. rewrite split_join; [|done|].
  - rewrite <- Ez. eapply List.Forall_impl; [|exact H3]. by intros c [_ ?].
  - rewrite <- Ez. eapply List.Forall_impl; [|exact H3]. by intros c [? _].
Qed.

Lemma finish_path_rooted n e x : (2 <= length x)%nat -> Forall (fun C => 47 ∉ C) x -> formats n -> QueryString.text (text_of (auth e)) ->
  exists v p, finish_path n e x true true false = Ok v /\ pathname v = Some p /\ rooted p /\ host v = host n /\ protocol v = protocol n.
Proof.
  intros Hlen Hx Hn He. unfold finish_path. rewrite dot_segments_loop. set (k := (_ && _) || _).
  destruct (absolute_segments x k Hlen Hx) as [Hhead Hroot].
  { unfold k. intros [Hk Hk']%orb_false_iff. destruct x as [|C x0 _] using rev_ind; [cbn in Hlen; lia|]. rewrite last_snoc in Hk, Hk'. change (text_of (Some C)) with C in *. exists x0, C.
    rewrite bool_decide_eq_false in Hk'. split_and!; [done|done|]. rewrite (proj2 (Nat.ltb_lt 1 _)), orb_true_r in Hk by lia. cbn [andb] in Hk. apply orb_false_iff in Hk as [Hk1 Hk2].
    rewrite bool_decide_eq_false in Hk1, Hk2. by intros [->| ->]. }
  destruct (normalize x) as [x1 A]. cbn [negb andb orb fst] in *. 
  match type of Hhead with head ?y = _ => set (x3 := y) in * end. rewrite Hhead. rewrite bool_decide_eq_true_2 by done. cbn [orb negb].
  rewrite decide_False by (intros E; by rewrite E in Hhead). clearbody x3.
  set (n1 := with_auth _ _). destruct (set_href_ok (with_slashes (slashes n1 || slashes e) n1)) as (v & Ev & Hv & Hh & Hp).
  { destruct Hn as [Ha Hq]. split; [|by unfold n1, set_path_null; destruct (search n)]. unfold n1. cbn. destruct (given (auth e)); [done|]. unfold set_path_null. by destruct (search n). }
  exists v, (join_with [47] x3). rewrite Hv, Hh, Hp. split_and!; try done; unfold n1, set_path_null; by destruct (search n).
Qed.

Lemma starts_segments p : starts_slash (Some p) = true -> exists q, p = 47 :: q /\ segments (Some p) = [] :: split_on 47 q.
Proof.
  unfold starts_slash. rewrite bool_decide_eq_true. cbn. destruct p as [|c q]; [done|]. intros [= ->]. by exists q.
Qed.

Lemma segments_no_slash p : Forall (fun C => 47 ∉ C) (segments p).
Proof. unfold segments. destruct (given p); [apply split_on_no|constructor]. Qed.

(** C23: resolving a path, relative or absolute, against an address with an absolute path, over any host or none, keeps the
    protocol and the host and gives a path that starts at the root and has no dot segments left, whatever dots the two paths
    have.  The address has no protocol or one of http, https, ftp, gopher and file; the reference has a path and an address that is not empty, and neither a
    protocol, slashes nor a host of its own; and what the two have for user and query can be formatted. *)
Theorem resolve_rooted u r : starts_slash (pathname u) = true -> protocol u = None \/ slashedProtocol (protocol u) = true ->
  protocol r = None -> slashes r = false -> host r = None -> given (pathname r) = true -> href r <> Some [] -> formats u -> formats r ->
  exists v p, resolveObject u r = Ok v /\ pathname v = Some p /\ rooted p /\ host v = host u /\ protocol v = protocol u.
Proof.
  intros Hu Hp Hrp Hrs Hrh Hrg Href Fu Fr. unfold resolveObject. rewrite bool_decide_eq_false_2 by done. rewrite Hrs, Hrp. cbn [andb given].
  destruct (pathname u) as [pu|] eqn:Epu; [|done]. destruct (starts_segments pu Hu) as (qu & -> & Hsu). destruct (pathname r) as [pr|] eqn:Epr; [|done].
  unfold resolve_path. cbn [protocol with_hash pathname host]. rewrite Epu, Epr, Hrp, Hrh, Hrg, Hu, Hsu. cbn [given text_of default andb orb].
  assert (given (protocol u) && negb (slashedProtocol (protocol u)) = false) as ->. { destruct Hp as [->| ->]; [done|by rewrite andb_false_r]. }
  cbn [andb negb]. destruct (split_on_cons 47 qu) as (s1 & ss & Eqs). rewrite orb_true_r. cbn [orb].
  assert (segments (Some pr) = split_on 47 pr) as Hseg by (unfold segments; by rewrite Hrg). destruct (split_on_cons 47 pr) as (t1 & ts & Et).
  assert (forall n x, formats n -> (2 <= length x)%nat -> Forall (fun C => 47 ∉ C) x -> host n = host u -> protocol n = protocol u ->
    exists v p, finish_path n r x true true false = Ok v /\ pathname v = Some p /\ rooted p /\ host v = host u /\ protocol v = protocol u) as Hfin.
  { intros n x Fn Hlen Hx <- <-. apply finish_path_rooted; [done|done|done|apply Fr]. }
  destruct (starts_slash (Some pr)) eqn:Es.
  - destruct (starts_segments pr Es) as (qr & -> & Hsr). rewrite Hsr. rewrite decide_False by done. destruct (split_on_cons 47 qr) as (u1 & us & Eq). apply Hfin; [|rewrite Eq; cbn; lia| |by cbn; rewrite Hrh|done].
    + split; [apply Fu|apply Fr].
    + rewrite <- Hsr. apply segments_no_slash.
  - rewrite Hseg, Et. rewrite decide_False by done. rewrite decide_False by (rewrite Eqs; destruct ss; done). apply Hfin; [split; [apply Fu|apply Fr]| | |done|done].
    + rewrite Eqs. cbn. rewrite length_app. cbn. rewrite length_take. lia.
    + rewrite Forall_app. rewrite <- Et, <- Hseg. split; [|apply segments_no_slash]. apply Forall_take. rewrite <- Hsu. apply segments_no_slash.
Qed.

Definition base_url : url := Url (Some (js "http:")) true None (Some (js "a.b")) None (Some (js "a.b")) None None QNull (Some (js "/x/../y/z")) (Some (js "/x/../y/z")) (Some (js "http://a.b/x/../y/z")).
Definition relative_url : url := Url None false None None None None None (Some (js "?q")) (QText (js "q")) (Some (js "../../../w/.")) (Some (js "../../../w/.?q")) (Some (js "../../../w/.?q")).

Lemma resolve_rooted_witness : exists v p, resolveObject base_url relative_url = Ok v /\ pathname v = Some p /\ rooted p /\ host v = host base_url /\ protocol v = protocol base_url.
Proof.
  apply (resolve_rooted base_url relative_url); try done; [by right|..]; (split; [split; done || constructor|by eexists]).
Defined.

(** ** Addresses in normal form *)

(** Printed characters that are not escaped and do not begin the search or the hash. *)
Definition plain_char (c : Z) : bool := (33 <=? c) && (c <=? 126) && negb (bool_decide (c ∈ autoEscape)) && negb (c =? 35) && negb (c =? 63).
Definition digit_char (c : Z) : bool := (48 <=? c) && (c <=? 57).
Definition lower_host (c : Z) : bool := digit_char c || ((97 <=? c) && (c <=? 122)) || (c =? 43) || (c =? 95) || (c =? 45).

Record address := Address {
  a_protocol : string;
  a_labels : list jsstring;
  a_port : jsstring;
  a_path : jsstring;
  a_search : option jsstring;
  a_hash : option jsstring
}.

Definition a_host (a : address) : jsstring := join_with [46] (a_labels a).
Definition a_port_text (a : address) : jsstring := if decide (a_port a = []) then [] else 58 :: a_port a.
Definition a_search_text (a : address) : jsstring := match a_search a with Some s => 63 :: s | None => [] end.
Definition a_hash_text (a : address) : jsstring := match a_hash a with Some s => 35 :: s | None => [] end.
Definition address_text (a : address) : jsstring :=
  js (a_protocol a) ++ js "://" ++ a_host a ++ a_port_text a ++ 47 :: a_path a ++ a_search_text a ++ a_hash_text a.

Record address_ok (a : address) : Prop := {
  ok_protocol : a_protocol a ∈ ["http"; "https"; "ftp"; "gopher"; "file"]%string;
  ok_labels : a_labels a <> [] /\ Forall (fun l => l <> [] /\ (length l <= 63)%nat /\ forallb lower_host l = true) (a_labels a);
  ok_host : zlen (a_host a) <= 255;
  ok_port : forallb digit_char (a_port a) = true;
  ok_path : forallb plain_char (a_path a) = true;
  ok_search : forallb (fun c => plain_char c || (c =? 63)) (default [] (a_search a)) = true;
  ok_hash : forallb (fun c => plain_char c || (c =? 63) || (c =? 35)) (default [] (a_hash a)) = true
}.

(** What parse should make of it. *)
Definition address_url (a : address) : url :=
  Url (Some (js (a_protocol a) ++ [58])) true None (Some (a_host a ++ a_port_text a)) (if decide (a_port a = []) then None else Some (a_port a)) (Some (a_host a))
    (option_map (cons 35) (a_hash a)) (option_map (cons 63) (a_search a)) (match a_search a with Some s => QText s | None => QNull end)
    (Some (47 :: a_path a)) (Some (47 :: a_path a ++ a_search_text a)) (Some (address_text a)).

Lemma split_on_elem c s p x : p ∈ split_on c s -> x ∈ p -> x ∈ s.
Proof.
  revert p. induction s as [|y s IH]; intros p Hp Hx; cbn in Hp; [apply list_elem_of_singleton in Hp as ->; done|].
  destruct (y =? c); [apply elem_of_cons in Hp as [->|Hp]; [by apply elem_of_nil in Hx|right; by eapply IH]|].
  destruct (split_on_cons c s) as (q & qs & E). rewrite E in *. apply elem_of_cons in Hp as [->|Hp]; [|right; eapply IH; [by right|done]].
  apply elem_of_cons in Hx as [->|Hx]; [by left|right]. eapply IH; [by left|done].
Qed.

Lemma fix_slashes_none e : 92 ∉ e -> fix_slashes e = e.
Proof.
  intros He. unfold fix_slashes. match goal with |- context [split_on ?c e] => set (u := c) end. destruct (split_on_cons u e) as (p & l & E). rewrite E.
  rewrite replace_all_none; [rewrite <- E; apply join_split|]. intros Hp. apply He. eapply (split_on_elem u); [rewrite E; by left|done].
Qed.

Lemma join_elem c x l : x ∈ join_with [c] l -> x = c \/ exists p, p ∈ l /\ x ∈ p.
Proof.
  induction l as [|p l IH]; [by intros H%elem_of_nil|]. destruct l as [|q l]; [intros H; right; exists p; split; [by left|done]|].
  change (join_with [c] (p :: q :: l)) with (p ++ [c] ++ join_with [c] (q :: l)). rewrite !elem_of_app, list_elem_of_singleton. intros [H|[H|H]]; [right; exists p; split; [by left|done]|by left|].
  destruct (IH H) as [->|(p' & Hp' & Hx)]; [by left|right; exists p'; split; [by right|done]].
Qed.

(** The characters of a hostname. *)
Definition host_char (c : Z) : bool := lower_host c || (c =? 46).

Lemma host_chars a : address_ok a -> Forall (fun c => host_char c = true) (a_host a).
Proof.
  intros [_ [_ Hl] _ _ _ _ _]. apply list.Forall_forall. intros c Hc. unfold host_char. apply join_elem in Hc as [->|(p & Hp & Hc)]; [done|].
  rewrite list.Forall_forall in Hl. destruct (Hl p Hp) as (_ & _ & Hf). rewrite forallb_forall in Hf. rewrite Hf by (by apply list_elem_of_In). done.
Qed.

Lemma host_no a c : address_ok a -> host_char c = false -> c ∉ a_host a.
Proof. intros Ha Hc Hin. pose proof (host_chars a Ha) as H. rewrite list.Forall_forall in H. apply H in Hin. congruence. Qed.

Lemma port_no a c : address_ok a -> digit_char c = false -> c <> 58 -> c ∉ a_port_text a.
Proof.
  intros [_ _ _ Hp _ _ _] Hc Hne. unfold a_port_text. destruct (decide _); [apply not_elem_of_nil|]. rewrite not_elem_of_cons. split; [done|]. intros Hin.
  rewrite forallb_forall in Hp. apply list_elem_of_In, Hp in Hin. congruence.
Qed.

Lemma portPattern_ok a : address_ok a -> portPattern (a_host a ++ a_port_text a) = if decide (a_port a = []) then None else Some (58 :: a_port a).
Proof.
  intros Ha. pose proof Ha as [_ _ _ Hp _ _ _]. unfold portPattern, a_port_text. destruct (decide (a_port a = [])) as [E|E].
  - rewrite app_nil_r, last_index_of_none; [done|]. by apply host_no.
  - rewrite last_index_of_app.
    + pose proof (zlen_nonneg (a_host a)). rewrite (proj2 (Z.ltb_ge _ _)) by lia. unfold zlen. rewrite Nat2Z.id, drop_app_length. change (drop 1 (58 :: a_port a)) with (a_port a). unfold digit_char in Hp. by rewrite Hp.
    + intros Hin. rewrite forallb_forall in Hp. by apply list_elem_of_In, Hp in Hin.
Qed.

Lemma check_parts_ok l : forall D, Forall (fun l => (length l <= 63)%nat /\ forallb lower_host l = true) l -> check_parts D l = None.
Proof.
  induction l as [|p l IH]; intros D Hl; [done|]. inversion Hl as [|?? [Hlen Hf] Hl']; subst. cbn [check_parts].
  assert (hostnamePartPattern p = true) as ->.
  { unfold hostnamePartPattern. apply andb_true_iff. split; [|by apply Nat.leb_le]. apply forallb_forall. intros c Hc. rewrite forallb_forall in Hf. apply Hf in Hc.
    unfold lower_host, digit_char in Hc. unfold hostname_char, is_alnum. lia. }
  rewrite andb_false_r. cbn [andb]. by apply IH.
Qed.

Lemma toASCII_ok a : address_ok a -> Punycode.toASCII (a_host a) = Ok (a_host a).
Proof.
  intros Ha. pose proof Ha as [_ [Hne Hl] _ _ _ _ _]. unfold Punycode.toASCII, Punycode.mapDomain. rewrite split_on_none by (by apply host_no).
  rewrite Punycode.map_separators.
  - unfold a_host at 1. rewrite split_join; [|done|].
    + erewrite Punycode.map_last_ok; [done|]. apply Forall_Forall2_diag. eapply List.Forall_impl; [|exact Hl]. cbn. intros l (_ & _ & Hf).
      assert (Punycode.nonASCII l = false) as ->; [|done]. unfold Punycode.nonASCII. apply Bool.not_true_is_false. intros (c & Hc & Hn)%existsb_exists.
      rewrite forallb_forall in Hf. apply Hf in Hc. unfold lower_host, digit_char in Hc. lia.
    + eapply List.Forall_impl; [|exact Hl]. cbn. intros l (_ & _ & Hf) Hin. rewrite forallb_forall in Hf. by apply list_elem_of_In, Hf in Hin.
  - eapply List.Forall_impl; [|apply (host_chars a Ha)]. intros c Hc. unfold host_char, lower_host, digit_char in Hc. unfold Punycode.separator. lia.
Qed.

(** Characters that the host and the port have not. *)
Definition outside (c : Z) : bool := negb (host_char c) && negb (digit_char c) && negb (c =? 58).

Lemma authority_no a c : address_ok a -> outside c = true -> c ∉ a_host a ++ a_port_text a.
Proof.
  intros Ha. unfold outside. rewrite !andb_true_iff, !negb_true_iff, Z.eqb_neq. intros [[Hh Hd] Hc]. rewrite elem_of_app. intros [H|H]; [by eapply host_no in H|by eapply port_no in H].
Qed.

Lemma authority_none a cs : address_ok a -> forallb outside cs = true -> forall x, x ∈ cs -> x ∉ a_host a ++ a_port_text a.
Proof. intros Ha Hcs x Hx. apply authority_no; [done|]. rewrite forallb_forall in Hcs. by apply Hcs, list_elem_of_In. Qed.

(** toLowerCase on letters that are lower-case already. *)
Definition keeps_lower (toLowerCase : jsstring -> jsstring) : Prop :=
  forall s, Forall (fun c => 0 <= c < 128 /\ ~ 65 <= c <= 90) s -> toLowerCase s = s.

Lemma parse_authority_ok toLowerCase a P rest : keeps_lower toLowerCase -> address_ok a ->
  parse_authority toLowerCase (with_slashes true (with_protocol (Some P) new_url)) ((a_host a ++ a_port_text a) ++ 47 :: rest) =
  Ok (Url (Some P) true None (Some (a_host a ++ a_port_text a)) (if decide (a_port a = []) then None else Some (a_port a)) (Some (a_host a)) None None QNull None None None, 47 :: rest).
Proof.
  intros Hlow Ha. pose proof Ha as [_ [Hne Hl] Hlen Hp _ _ _]. unfold parse_authority. set (pre := a_host a ++ a_port_text a). pose proof (zlen_nonneg pre).
  rewrite (first_of_app hostEndingChars pre 47 rest) by (by apply authority_none || by left). rewrite (proj2 (Z.eqb_neq (zlen pre) _)) by lia.
  assert (last_index_of 64 (take (Z.to_nat (zlen pre + 1)) (pre ++ 47 :: rest)) = -1) as Hat.
  { replace (Z.to_nat (zlen pre + 1)) with (length (pre ++ [47])) by (rewrite length_app; unfold zlen; cbn; lia). change (47 :: rest) with ([47] ++ rest). rewrite app_assoc, take_app_length.
    apply last_index_of_none. rewrite elem_of_app, list_elem_of_singleton. intros [H0|H0]; [by apply (authority_no a 64 Ha) in H0|done]. }
  rewrite Hat, Z.eqb_refl. cbn [res_bind].
  rewrite (first_of_app nonHostChars pre 47 rest) by (by apply authority_none || by right; left). rewrite (proj2 (Z.eqb_neq (zlen pre) _)) by lia.
  unfold zlen. rewrite Nat2Z.id, take_app_length, drop_app_length. unfold parseHost. cbn [host with_host text_of default with_slashes with_protocol new_url id]. unfold pre. rewrite portPattern_ok by done.
  assert (a_host a <> []) as Hh. { unfold a_host. destruct (a_labels a) as [|l [|l' ls]]; [done|inversion Hl as [|?? (? & _) _]; by subst|]. cbn. by destruct l. }
  assert (bool_decide (head (a_host a) = Some 91) = false) as Hb. { apply bool_decide_eq_false_2. intros E. apply (host_no a 91 Ha); [done|]. destruct (a_host a); [done|]. injection E as ->. by left. }
  assert (check_parts [] (split_on 46 (a_host a)) = None) as Hc.
  { unfold a_host. rewrite split_join; [|done|].
    - apply check_parts_ok. eapply List.Forall_impl; [|exact Hl]. cbn. by intros l (_ & ? & ?).
    - eapply List.Forall_impl; [|exact Hl]. cbn. intros l (_ & _ & Hf) Hin. rewrite forallb_forall in Hf. by apply list_elem_of_In, Hf in Hin. }
  assert (toLowerCase (a_host a) = a_host a) as Hlo.
  { apply Hlow. eapply List.Forall_impl; [|apply (host_chars a Ha)]. intros c Hc0. unfold host_char, lower_host, digit_char in Hc0. lia. }
  unfold a_port_text. destruct (decide (a_port a = [])) as [E|E].
  - rewrite app_nil_r, decide_False by done. cbn [hostname with_hostname text_of default id]. unfold text_of. cbn [default id]. rewrite Hb. cbn [andb]. rewrite Hc. cbn [text_of default].
    rewrite (proj2 (Z.ltb_ge _ _)), Hlo, toASCII_ok by (done || unfold zlen in *; lia). cbn. by rewrite app_nil_r.
  - replace (length (a_host a ++ 58%Z :: a_port a) - length (58%Z :: a_port a))%nat with (length (a_host a)) by (rewrite length_app; lia). rewrite take_app_length.
    rewrite (decide_False (P := a_host a = [])) by done. rewrite (decide_False (P := 58%Z :: a_port a = [58%Z])) by (intros [= E0]; by apply E).
    change (drop 1 (58 :: a_port a)) with (a_port a). cbn [hostname with_hostname with_port text_of default id]. unfold text_of. cbn [default id]. rewrite Hb. cbn [andb]. rewrite Hc.
    rewrite (proj2 (Z.ltb_ge _ _)), Hlo, toASCII_ok by (done || unfold zlen in *; lia). cbn. destruct (a_port a); done.
Qed.

Lemma plain_char_no c x : plain_char x = false -> plain_char c = true -> c <> x.
Proof. congruence. Qed.

Lemma path_no a c : address_ok a -> plain_char c = false -> c ∉ a_path a.
Proof. intros [_ _ _ _ Hp _ _] Hc Hin. rewrite forallb_forall in Hp. apply list_elem_of_In, Hp in Hin. congruence. Qed.

Lemma search_no a c : address_ok a -> plain_char c = false -> c <> 63 -> c ∉ a_search_text a.
Proof.
  intros [_ _ _ _ _ Hp _] Hc Hne. unfold a_search_text. destruct (a_search a) as [s|]; [|apply not_elem_of_nil]. cbn in Hp. rewrite not_elem_of_cons. split; [done|]. intros Hin.
  rewrite forallb_forall in Hp. apply list_elem_of_In, Hp in Hin. rewrite Hc in Hin. cbn in Hin. lia.
Qed.

Lemma hash_no a c : address_ok a -> plain_char c = false -> c <> 63 -> c <> 35 -> c ∉ a_hash_text a.
Proof.
  intros [_ _ _ _ _ _ Hp] Hc Hne Hne'. unfold a_hash_text. destruct (a_hash a) as [s|]; [|apply not_elem_of_nil]. cbn in Hp. rewrite not_elem_of_cons. split; [done|]. intros Hin.
  rewrite forallb_forall in Hp. apply list_elem_of_In, Hp in Hin. rewrite Hc in Hin. cbn in Hin. lia.
Qed.

Lemma autoEscape_not_plain c : c ∈ autoEscape -> plain_char c = false /\ c <> 63 /\ c <> 35 /\ c <> 47.
Proof. intros Hc. split; [unfold plain_char; rewrite (bool_decide_eq_true_2 _ Hc); by rewrite andb_false_r|]. cbn in Hc. repeat (apply elem_of_cons in Hc as [->|Hc]; [done|]). by apply elem_of_nil in Hc. Qed.

(** The parts of [p ++ c :: s], where [c] is not in [p], as index, slice and substr give them. *)
Lemma cut_at c p (s : option jsstring) : c ∉ p -> let b := p ++ match s with Some s => c :: s | None => [] end in let i := index_of c b in
  match s with
  | Some s => (i =? -1) = false /\ drop (Z.to_nat i) b = c :: s /\ drop (Z.to_nat (i + 1)) b = s /\ take (Z.to_nat i) b = p
  | None => i = -1 /\ b = p
  end.
Proof.
  intros Hp. destruct s as [s|]; cbn zeta.
  - rewrite index_of_app by done. pose proof (zlen_nonneg p). unfold zlen. rewrite Nat2Z.id, drop_app_length, take_app_length. split_and!; [apply Z.eqb_neq; lia|done| |done].
    replace (Z.to_nat (Z.of_nat (length p) + 1)) with (length p + 1)%nat by lia. by rewrite drop_app_add'.
  - rewrite app_nil_r. by rewrite index_of_none.
Qed.

Lemma start_with_ok c s : start_with c (c :: s) = c :: s.
Proof. unfold start_with. rewrite decide_False, bool_decide_eq_true_2 by done. done. Qed.

(** The address without its href. *)
Definition address_parts (a : address) : url := with_href None (address_url a).

Lemma format_address a : address_ok a -> format (address_parts a) = Ok (address_text a).
Proof.
  intros Ha. unfold format, address_parts. cbn [auth with_href address_url host protocol pathname query search hash slashes]. change (given None) with false. cbn [res_bind].
  assert (given (Some (a_host a ++ a_port_text a)) = true) as ->.
  { destruct Ha as [_ [Hne Hl] _ _ _ _ _]. unfold a_host. destruct (a_labels a) as [|l [|l' ls]]; [done|inversion Hl as [|?? (? & _) _]; subst; by destruct l|]. cbn. inversion Hl as [|?? (? & _) _]; subst. by destruct l. }
  assert (format_query (match a_search a with Some s => QText s | None => QNull end) = Ok []) as -> by (by destruct (a_search a)). cbn [res_bind text_of default app orb].
  unfold text_of. cbn [default id]. rewrite decide_False by (by destruct (js (a_protocol a))). rewrite last_snoc, bool_decide_eq_true_2 by done. rewrite start_with_ok.
  rewrite (replace_all_none 35), (replace_all_none 63) by (rewrite not_elem_of_cons; split; [done|by apply path_no]).
  unfold address_text. f_equal. rewrite <- !app_assoc. cbn [app js]. do 2 f_equal. cbn. do 3 f_equal.
  match goal with |- context [start_with 63 ?t] => assert (start_with 63 t = a_search_text a) as -> by (unfold a_search_text; by destruct (a_search a)) end.
  rewrite split_on_none by (by apply search_no). rewrite decide_True by done. do 3 f_equal. unfold a_hash_text. by destruct (a_hash a).
Qed.

Lemma protocol_cases a (P : string -> Prop) : address_ok a -> P "http"%string -> P "https"%string -> P "ftp"%string -> P "gopher"%string -> P "file"%string -> P (a_protocol a).
Proof. intros [Hp _ _ _ _ _ _] ?????. by repeat (apply elem_of_cons in Hp as [->|Hp]; [done|]); apply elem_of_nil in Hp. Qed.

Lemma rest_no a c : address_ok a -> plain_char c = false -> c <> 63 -> c <> 35 -> c <> 47 -> c ∉ 47 :: a_path a ++ a_search_text a ++ a_hash_text a.
Proof. intros Ha ????. rewrite not_elem_of_cons, !elem_of_app. pose proof (path_no a c Ha). pose proof (search_no a c Ha). pose proof (hash_no a c Ha). naive_solver. Qed.

(** What the authority leaves in the object. *)
Definition authority_url (a : address) : url :=
  Url (Some (js (a_protocol a) ++ [58])) true None (Some (a_host a ++ a_port_text a)) (if decide (a_port a = []) then None else Some (a_port a)) (Some (a_host a)) None None QNull None None None.

Lemma parse_rest_ok a : address_ok a ->
  parse_rest false (Some (js (a_protocol a) ++ [58])) (authority_url a) (47 :: a_path a ++ a_search_text a ++ a_hash_text a) = Ok (address_url a).
Proof.
  intros Ha. unfold parse_rest. assert (hostlessProtocol (Some (js (a_protocol a) ++ [58])) = false) as -> by (by apply (protocol_cases a)).
  rewrite (replace_each_none autoEscape escape_char) by (intros c (? & ? & ? & ?)%autoEscape_not_plain; by apply rest_no).
  pose proof (cut_at 35 (47 :: a_path a ++ a_search_text a) (a_hash a)) as Hh. pose proof (cut_at 63 (47 :: a_path a) (a_search a)) as Hs.
  rewrite (app_assoc (a_path a)). change (47 :: (a_path a ++ a_search_text a) ++ a_hash_text a) with ((47 :: a_path a ++ a_search_text a) ++ a_hash_text a).
  fold (a_hash_text a) in Hh. fold (a_search_text a) in Hs.
  set (b := (47 :: a_path a ++ a_search_text a) ++ a_hash_text a) in *.
  assert (63 ∉ 47 :: a_path a) as Hp63 by (rewrite not_elem_of_cons; split; [done|by apply path_no]). specialize (Hs Hp63).
  assert (35 ∉ 47 :: a_path a ++ a_search_text a) as Hp35. { rewrite not_elem_of_cons, elem_of_app. pose proof (path_no a 35 Ha). pose proof (search_no a 35 Ha). naive_solver. }
  specialize (Hh Hp35). cbn zeta in Hh, Hs. change ((47 :: a_path a) ++ a_search_text a) with (47 :: a_path a ++ a_search_text a) in Hs.
  assert ((if index_of 35 b =? -1 then (authority_url a, b) else (with_hash (Some (drop (Z.to_nat (index_of 35 b)) b)) (authority_url a), take (Z.to_nat (index_of 35 b)) b)) =
    (with_hash (option_map (cons 35) (a_hash a)) (authority_url a), 47 :: a_path a ++ a_search_text a)) as ->.
  { destruct (a_hash a) as [h|]; [destruct Hh as (-> & -> & _ & ->); done|destruct Hh as [-> ->]; done]. }
  set (r := 47 :: a_path a ++ a_search_text a) in *.
  transitivity (let! (u, b) := Ok (with_search (option_map (cons 63) (a_search a)) (match a_search a with Some s => QText s | None => QNull end) (with_hash (option_map (cons 35) (a_hash a)) (authority_url a)), 47 :: a_path a) in
    let u := if decide (b = []) then u else with_pathname (Some b) u in
    let u := if slashedProtocol (Some (js (a_protocol a) ++ [58])) && given (hostname u) && negb (given (pathname u)) then with_pathname (Some (js "/")) u else u in
    set_href (set_path u)).
  { destruct (a_search a) as [q|]; [destruct Hs as (-> & -> & -> & ->); done|destruct Hs as [-> ->]; done]. }
  cbn [res_bind]. rewrite decide_False by done. cbn [pathname with_pathname given negb]. rewrite andb_false_r.
  unfold set_href. assert (set_path (with_pathname (Some (47 :: a_path a)) (with_search (option_map (cons 63) (a_search a)) (match a_search a with Some s => QText s | None => QNull end)
    (with_hash (option_map (cons 35) (a_hash a)) (authority_url a)))) = address_parts a) as ->.
  { unfold set_path, address_parts, address_url, a_search_text. by destruct (a_search a). }
  by rewrite format_address.
Qed.

Lemma address_no a c : address_ok a -> plain_char c = false -> c <> 63 -> c <> 35 -> outside c = true -> c ∉ address_text a.
Proof.
  intros Ha Hp H63 H35 Ho. assert (c <> 58 /\ c <> 47) as [H58 H47]. { split; intros ->; done. }
  unfold address_text. rewrite (app_assoc (a_host a)), elem_of_app, elem_of_app, elem_of_app. intros [H|[H|[H|H]]].
  - revert H. apply (protocol_cases a (fun s => c ∉ js s)); [done|..]; cbn; rewrite !not_elem_of_cons; repeat split; try (intros ->; discriminate Hp); apply not_elem_of_nil.
  - cbn in H. repeat (apply elem_of_cons in H as [->|H]; [done|]). by apply elem_of_nil in H.
  - by apply (authority_no a c Ha Ho) in H.
  - by apply (rest_no a c Ha) in H.
Qed.

Lemma address_trim a : address_ok a -> trim (fix_slashes (address_text a)) = address_text a /\ fix_slashes (address_text a) = address_text a.
Proof.
  intros Ha. assert (fix_slashes (address_text a) = address_text a) as E by (by apply fix_slashes_none, address_no).
  split; [|done]. rewrite E. apply trim_id, list.Forall_forall. intros c Hc. destruct (is_space c) eqn:Hsp; [|done]. exfalso. revert Hc.
  unfold is_space in Hsp. apply address_no; [done|..]; [|lia..|].
  - unfold plain_char. assert ((33 <=? c) && (c <=? 126) = false) as -> by lia. done.
  - unfold outside, host_char, lower_host, digit_char. lia.
Qed.

Lemma protocol_known a r : address_ok a -> let P := js (a_protocol a) ++ [58] in
  protocolPattern (P ++ r) = Some P /\ simplePathPattern (P ++ r) = None /\ hostlessProtocol (Some P) = false /\
  Forall (fun c => 0 <= c < 128 /\ ~ 65 <= c <= 90) P.
Proof. intros Ha. apply (protocol_cases a (fun s => let P := js s ++ [58] in _ (P ++ r) = Some P /\ _ (P ++ r) = None /\ _ (Some P) = false /\ Forall _ P)); [done|..]; (split_and!; [done..|repeat constructor; cbn; lia]). Qed.

(** C22: parsing an address and formatting what was parsed gives the address back, and the
    parts are its parts.  For every address in normal form (a protocol with slashes, lower-case
    labels of at most 63 characters and together of at most 255, digits for the port, a path, a
    search and a hash of characters that are not escaped) and every [toLowerCase] that leaves
    lower-case ASCII text alone, [parse] returns the object of its protocol, host, port,
    hostname, path, search, query and hash, and [format] of that object is the text that was
    parsed, with and without the option that lets an address begin with its host. *)
Theorem url_roundtrip toLowerCase a n : keeps_lower toLowerCase -> address_ok a ->
  parse toLowerCase (address_text a) false n = Ok (address_url a) /\ format (address_url a) = Ok (address_text a).
Proof.
  intros Hlow Ha. split; [|exact (format_address a Ha)]. destruct (address_trim a Ha) as [Ht Hf]. unfold parse. rewrite Ht, Hf.
  assert (address_text a = (js (a_protocol a) ++ [58]) ++ 47 :: 47 :: (a_host a ++ a_port_text a) ++ 47 :: a_path a ++ a_search_text a ++ a_hash_text a) as E.
  { unfold address_text. by rewrite <- !app_assoc. }
  rewrite E. match goal with |- context [protocolPattern (_ ++ ?r)] => destruct (protocol_known a r Ha) as (-> & -> & Hh & Hl) end.
  rewrite (Hlow _ Hl), drop_app_length, Hh, orb_true_r. cbn [orb andb negb]. rewrite bool_decide_eq_true_2 by done. cbn [andb negb orb].
  change (drop 2 (47 :: 47 :: ?r)) with r. rewrite (parse_authority_ok toLowerCase a _ _ Hlow Ha). cbn [res_bind]. fold (authority_url a). rewrite (parse_rest_ok a Ha).
  by destruct (_ && _).
Qed.

Definition sample_address : address := Address "https" [js "api"; js "example"; js "com"] (js "8080") (js "v1/x") (Some (js "q=1?2")) (Some (js "top#x")).

Lemma sample_address_ok : address_ok sample_address.
Proof. split; try done; [by right; left|]. split; [done|]. repeat constructor; done || (cbn; lia). Defined.

Lemma ascii_lower_keeps : keeps_lower Punycode.ascii_lower.
Proof. intros s Hs. unfold Punycode.ascii_lower. induction Hs as [|c s [_ Hc] _ IH]; [done|]. cbn [map]. rewrite IH. f_equal. destruct (_ && _) eqn:E; [lia|done]. Qed.

Lemma url_roundtrip_witness : keeps_lower Punycode.ascii_lower /\ address_text sample_address = js "https://api.example.com:8080/v1/x?q=1?2#top#x" /\
  parse Punycode.ascii_lower (address_text sample_address) false true = Ok (address_url sample_address).
Proof. split; [exact ascii_lower_keeps|split; [reflexivity|]]. exact (proj1 (url_roundtrip Punycode.ascii_lower sample_address true ascii_lower_keeps sample_address_ok)). Defined.

(** Where the module departs from the addresses it reads.  Resolving an address with an
    empty host, [file:///C:/x], against an address of another protocol takes the first segment of
    its path for the host.  An address that is one or two slashes and a path is never looked at
    for a host or for characters to escape, unless there is a number sign somewhere. *)
Theorem url_defects :
  resolve Punycode.ascii_lower (js "http://h/a") (js "file:///C:/x") = Ok (js "file://C:/x") /\
  (let! u := parse Punycode.ascii_lower (js "/a'b") false false in Ok (pathname u)) = Ok (Some (js "/a'b")) /\
  (let! u := parse Punycode.ascii_lower (js "/a'b#") false false in Ok (pathname u)) = Ok (Some (js "/a%27b")).
Proof. split_and!; vm_compute; reflexivity. Qed.

End UrlOk.
