(* ===== verification/Ruler.v ===== *)
(** * The rules of the Remarkable parsers

    Models Ruler (lines 6520 to 6591 of src/client/docs/swagger-ui/swagger-ui-bundle.js):
    the list of the rules of a parser, in the order in which they are tried, and the
    functions of each chain of rules, which are computed when they are first asked for and
    kept until the list changes.  The methods keep what they did before they throw.

    A rule stands for its object: nothing else refers to it.  A chain called __proto__ is
    left out: the code would then change the prototype of the object that keeps the chains. *)

From S2P Require Import Prelude.
From S2P Require Import JsString.
From Stdlib Require Import String.
From stdpp Require Import base numbers list option gmap.
Open Scope Z_scope.

Module Ruler.

Section Ruler.
(** The functions of the rules. *)
Context {F : Type}.

Record rule := Rule { name : jsstring; enabled : bool; fn : F; alt : list jsstring }.
Record ruler := MkRuler { rules : list rule; cache : option (gmap jsstring (list F)) }.

Definition new_ruler : ruler := MkRuler [] None.

(** ** The code *)

(** The loop of __find__ from the index [n]. *)
Fixpoint find_from (e : jsstring) (n : Z) (l : list rule) : Z :=
  match l with
  | [] => -1
  | r :: l => if decide (name r = e) then n else find_from e (n + 1) l
  end.
Definition find (e : jsstring) (r : ruler) : Z := find_from e 0 (rules r).

(** The names of the chains: the empty one, and those of the enabled rules, each once. *)
Definition add_chain (t : list jsstring) (e : jsstring) : list jsstring := if decide (e ∈ t) then t else t ++ [e].
Definition chains (l : list rule) : list jsstring :=
  foldl (fun t r => if enabled r then foldl add_chain t (alt r) else t) [[]] l.

(** The functions of the chain [t]. *)
Definition chain (t : jsstring) (l : list rule) : list F :=
  flat_map (fun r => if enabled r then if negb (bool_decide (t = [])) && negb (bool_decide (t ∈ alt r)) then [] else [fn r] else []) l.

Definition compile (l : list rule) : gmap jsstring (list F) :=
  foldl (fun m t => <[t := chain t l]> m) ∅ (chains l).

(** [rules[i] = f(rules[i])] and [rules.splice(i, 0, r)], at an index of the array. *)
Definition alter_at (i : Z) (f : rule -> rule) (l : list rule) : list rule := alter f (Z.to_nat i) l.
Definition insert_at (i : Z) (r : rule) (l : list rule) : list rule := take (Z.to_nat i) l ++ r :: drop (Z.to_nat i) l.

Definition not_found : jserr := JsError "Parser rule not found".
Definition invalid_name : jserr := JsError "Rules manager: invalid rule name".

(** A method: the new state, and the result or the exception. *)
Definition at_ (e : jsstring) (t : F) (a : list jsstring) (r : ruler) : ruler * res unit :=
  let i := find e r in
  if i =? -1 then (r, Throw not_found)
  else (MkRuler (alter_at i (fun x => Rule (name x) (enabled x) t a) (rules r)) None, Ok tt).

Definition before (e t : jsstring) (n : F) (a : list jsstring) (r : ruler) : ruler * res unit :=
  let o := find e r in
  if o =? -1 then (r, Throw not_found)
  else (MkRuler (insert_at o (Rule t true n a) (rules r)) None, Ok tt).

Definition after (e t : jsstring) (n : F) (a : list jsstring) (r : ruler) : ruler * res unit :=
  let o := find e r in
  if o =? -1 then (r, Throw not_found)
  else (MkRuler (insert_at (o + 1) (Rule t true n a) (rules r)) None, Ok tt).

Definition push (e : jsstring) (t : F) (a : list jsstring) (r : ruler) : ruler * res unit :=
  (MkRuler (rules r ++ [Rule e true t a]) None, Ok tt).

Definition set_enabled (b : bool) (x : rule) : rule := Rule (name x) b (fn x) (alt x).

(** The loop over the names. *)
Fixpoint switch (b : bool) (e : list jsstring) (r : ruler) : ruler * res unit :=
  match e with
  | [] => (r, Ok tt)
  | x :: e =>
      let t := find x r in
      if t <? 0 then (r, Throw invalid_name)
      else switch b e (MkRuler (alter_at t (set_enabled b) (rules r)) (cache r))
  end.

Definition clear_cache (o : ruler * res unit) : ruler * res unit :=
  match o with
  | (r, Ok _) => (MkRuler (rules r) None, Ok tt)
  | (r, Throw e) => (r, Throw e)
  end.

Definition enable (e : list jsstring) (strict : bool) (r : ruler) : ruler * res unit :=
  clear_cache (switch true e (if strict then MkRuler (map (set_enabled false) (rules r)) (cache r) else r)).
Definition disable (e : list jsstring) (r : ruler) : ruler * res unit := clear_cache (switch false e r).

(** What getRules returns: an array of functions, or what every object has under this name. *)
Inductive answer := Functions (l : list F) | Inherited.

Definition getRules (e : jsstring) (r : ruler) : ruler * answer :=
  let m := match cache r with Some m => m | None => compile (rules r) end in
  (MkRuler (rules r) (Some m),
   match m !! e with
   | Some l => Functions l
   | None => if decide (e ∈ inherited) then Inherited else Functions []
   end).

(** ** Calls *)

Inductive call :=
| CAt (e : jsstring) (t : F) (a : list jsstring)
| CBefore (e t : jsstring) (n : F) (a : list jsstring)
| CAfter (e t : jsstring) (n : F) (a : list jsstring)
| CPush (e : jsstring) (t : F) (a : list jsstring)
| CEnable (e : list jsstring) (strict : bool)
| CDisable (e : list jsstring)
| CGetRules (e : jsstring).

Inductive outcome := Done (r : res unit) | Answer (a : answer).

Definition done (o : ruler * res unit) : ruler * outcome := (fst o, Done (snd o)).
Definition step (c : call) (r : ruler) : ruler * outcome :=
  match c with
  | CAt e t a => done (at_ e t a r)
  | CBefore e t n a => done (before e t n a r)
  | CAfter e t n a => done (after e t n a r)
  | CPush e t a => done (push e t a r)
  | CEnable e strict => done (enable e strict r)
  | CDisable e => done (disable e r)
  | CGetRules e => let '(r, a) := getRules e r in (r, Answer a)
  end.

Fixpoint run (cs : list call) (r : ruler) : ruler * list outcome :=
  match cs with
  | [] => (r, [])
  | c :: cs => let '(r, o) := step c r in let '(r, os) := run cs r in (r, o :: os)
  end.

(** ** What they should do *)

(** The first rule of a name is replaced by some rules. *)
Fixpoint on_first (e : jsstring) (f : rule -> list rule) (l : list rule) : option (list rule) :=
  match l with
  | [] => None
  | r :: l => if decide (name r = e) then Some (f r ++ l) else option_map (cons r) (on_first e f l)
  end.

Fixpoint switch_all (b : bool) (e : list jsstring) (l : list rule) : option (list rule) :=
  match e with
  | [] => Some l
  | x :: e => match on_first x (fun r => [set_enabled b r]) l with Some l => switch_all b e l | None => None end
  end.

(** The new list, or none for a name that no rule has. *)
Definition change (c : call) (l : list rule) : option (list rule) :=
  match c with
  | CAt e t a => on_first e (fun r => [Rule (name r) (enabled r) t a]) l
  | CBefore e t n a => on_first e (fun r => [Rule t true n a; r]) l
  | CAfter e t n a => on_first e (fun r => [r; Rule t true n a]) l
  | CPush e t a => Some (l ++ [Rule e true t a])
  | CEnable e strict => switch_all true e (if strict then map (set_enabled false) l else l)
  | CDisable e => switch_all false e l
  | CGetRules _ => Some l
  end.

(** The rules of a chain: the enabled ones that name it, or all of them for the empty name. *)
Definition in_chain (t : jsstring) (r : rule) : Prop := enabled r = true /\ (t = [] \/ t ∈ alt r).
#[global] Instance in_chain_dec t r : Decision (in_chain t r).
Proof. unfold in_chain. apply _. Defined.

Definition expected (c : call) (l : list rule) : outcome :=
  match c with
  | CGetRules t => Answer (Functions (map fn (filter (in_chain t) l)))
  | CEnable _ _ | CDisable _ => Done (if change c l is Some _ then Ok tt else Throw invalid_name)
  | _ => Done (if change c l is Some _ then Ok tt else Throw not_found)
  end.

Fixpoint spec (cs : list call) (l : list rule) : list rule * list outcome :=
  match cs with
  | [] => (l, [])
  | c :: cs => let '(l', os) := spec cs (default l (change c l)) in (l', expected c l :: os)
  end.

(** Calls that the theorem is about: a switch names only rules that are there, the chain
    asked for is not a name that every object has, and no chain is called __proto__. *)
Definition chain_names_ok (a : list jsstring) : bool := bool_decide (js "__proto__" ∉ a).
Fixpoint regular (cs : list call) (l : list rule) : bool :=
  match cs with
  | [] => true
  | c :: cs =>
      match c with
      | CEnable _ _ | CDisable _ => bool_decide (is_Some (change c l))
      | CGetRules t => bool_decide (t ∉ inherited)
      | CAt _ _ a | CBefore _ _ _ a | CAfter _ _ _ a | CPush _ _ a => chain_names_ok a
      end && regular cs (default l (change c l))
  end.

(** ** Proofs *)

Lemma find_first e f l : forall n, 0 <= n ->
  match on_first e f l with
  | None => find_from e n l = -1
  | Some l' => exists p r q, l = p ++ r :: q /\ l' = p ++ f r ++ q /\ find_from e n l = n + zlen p
  end.
Proof.
  induction l as [|r l IH]; intros n Hn; [done|]. cbn [on_first find_from]. destruct (decide (name r = e)) as [_|_].
  - exists [], r, l. split_and!; [done|done|]. rewrite Z.add_comm. done.
  - specialize (IH (n + 1) ltac:(lia)). destruct (on_first e f l) as [l'|]; cbn [option_map]; [|done].
    destruct IH as (p & r' & q & -> & -> & ->). exists (r :: p), r', q. rewrite zlen_cons. split_and!; [done|done|lia].
Qed.

Lemma alter_at_app f p r q : alter_at (zlen p) f (p ++ r :: q) = p ++ f r :: q.
Proof. unfold alter_at, zlen. rewrite Nat2Z.id. rewrite <- (Nat.add_0_r (length p)) at 1. by rewrite alter_app_r. Qed.

Lemma insert_at_app x p q : insert_at (zlen p) x (p ++ q) = p ++ x :: q.
Proof. unfold insert_at, zlen. by rewrite Nat2Z.id, take_app_length, drop_app_length. Qed.

Lemma chain_filter t l : chain t l = map fn (filter (in_chain t) l).
Proof.
  unfold chain in *. induction l as [|r l IH]; [done|]. cbn [flat_map]. rewrite IH, filter_cons. destruct (decide (in_chain t r)) as [[He Ht]|Hn].
  - rewrite He. destruct Ht as [->|Ht]; [done|]. rewrite (bool_decide_eq_true_2 (t ∈ alt r)) by done. by rewrite andb_false_r.
  - destruct (enabled r) eqn:He; [|done]. rewrite !bool_decide_eq_false_2; [done|..]; intros H; apply Hn; split; auto.
Qed.

Lemma add_chain_elem t e x : x ∈ add_chain t e <-> x ∈ t \/ x = e.
Proof. unfold add_chain. destruct (decide (e ∈ t)); [naive_solver|]. rewrite elem_of_app, list_elem_of_singleton. done. Qed.

Lemma add_chains_elem a : forall t x, x ∈ foldl add_chain t a <-> x ∈ t \/ x ∈ a.
Proof. induction a as [|e a IH]; intros t x; cbn; [rewrite elem_of_nil; tauto|]. rewrite IH, add_chain_elem, elem_of_cons. tauto. Qed.

Lemma chains_elem x l : x ∈ chains l <-> x = [] \/ exists r, r ∈ l /\ enabled r = true /\ x ∈ alt r.
Proof.
  unfold chains. rewrite <- (list_elem_of_singleton x []). generalize ([[]] : list jsstring). intros t. revert t.
  induction l as [|r l IH]; intros t; cbn; [split; [by left|intros [H|(r & H%elem_of_nil & _)]; done]|]. rewrite IH. clear IH.
  assert ((exists r', r' ∈ r :: l /\ enabled r' = true /\ x ∈ alt r') <-> (enabled r = true /\ x ∈ alt r) \/ exists r', r' ∈ l /\ enabled r' = true /\ x ∈ alt r') as ->.
  { split; [intros (r' & [->|H]%elem_of_cons & H'); [by left|right; by exists r']|intros [H|(r' & H & H')]; [exists r; split; [by left|done]|exists r'; split; [by right|done]]]. }
  destruct (enabled r); [rewrite add_chains_elem|]; intuition discriminate.
Qed.

Lemma compile_lookup t l : compile l !! t = if decide (t ∈ chains l) then Some (chain t l) else None.
Proof.
  unfold compile. generalize (chains l) as ts. intros ts. induction ts as [|x ts IH] using rev_ind; [cbn; by rewrite lookup_empty|].
  rewrite foldl_app. cbn. destruct (decide (x = t)) as [->|Hx].
  - rewrite lookup_insert_eq, decide_True; [done|]. apply elem_of_app. right. by left.
  - rewrite lookup_insert_ne, IH by done. destruct (decide (t ∈ ts)) as [H|H]; [rewrite decide_True; [done|apply elem_of_app; by left]|].
    rewrite decide_False; [done|]. rewrite elem_of_app, list_elem_of_singleton. naive_solver.
Qed.

Lemma no_chain t l : t ∉ chains l -> filter (in_chain t) l = [].
Proof.
  rewrite chains_elem. intros Ht. induction l as [|r l IH]; [done|]. rewrite filter_cons, decide_False, IH; [done|..].
  - intros [->|(x & Hx & H)]; apply Ht; [by left|]. right. exists x. split; [by right|done].
  - intros [He [->|Ha]]; apply Ht; [by left|]. right. exists r. split; [by left|done].
Qed.

(** The functions that are kept are those of the rules. *)
Definition coherent (r : ruler) : Prop := forall m, cache r = Some m -> m = compile (rules r).

Lemma getRules_ok e r : coherent r -> e ∉ inherited ->
  exists m, getRules e r = (MkRuler (rules r) (Some m), Functions (map fn (filter (in_chain e) (rules r)))) /\ m = compile (rules r).
Proof.
  intros Hr He. exists (compile (rules r)). split; [|done]. unfold getRules.
  assert (match cache r with Some m => m | None => compile (rules r) end = compile (rules r)) as ->. { destruct (cache r) eqn:E; [by apply Hr|done]. }
  rewrite compile_lookup. destruct (decide (e ∈ chains (rules r))) as [_|H]; [by rewrite chain_filter|].
  rewrite decide_False by done. by rewrite no_chain.
Qed.

Lemma switch_ok b e : forall r,
  match switch_all b e (rules r) with
  | Some l => switch b e r = (MkRuler l (cache r), Ok tt)
  | None => exists l, switch b e r = (MkRuler l (cache r), Throw invalid_name)
  end.
Proof.
  induction e as [|x e IH]; intros r; cbn; [by destruct r|]. pose proof (find_first x (fun r => [set_enabled b r]) (rules r) 0 ltac:(lia)) as H. unfold find.
  destruct (on_first x _ (rules r)) as [l|].
  - destruct H as (p & y & q & -> & -> & ->). pose proof (zlen_nonneg p). rewrite (proj2 (Z.ltb_ge _ _)) by lia. rewrite Z.add_0_l, alter_at_app. apply (IH (MkRuler _ (cache r))).
  - rewrite H. cbn. exists (rules r). by destruct r.
Qed.

(** A change of the first rule of a name, as the code makes it. *)
Lemma change_first e f r (g : Z -> list rule) :
  (forall p x q, rules r = p ++ x :: q -> g (zlen p) = p ++ f x ++ q) ->
  (if find e r =? -1 then (r, Throw not_found) else (MkRuler (g (find e r)) None, Ok tt)) =
  match on_first e f (rules r) with Some l => (MkRuler l None, Ok tt) | None => (r, Throw not_found) end.
Proof.
  intros Hg. pose proof (find_first e f (rules r) 0 ltac:(lia)) as H. unfold find. destruct (on_first e f (rules r)) as [l|]; [|by rewrite H].
  destruct H as (p & x & q & E & -> & ->). pose proof (zlen_nonneg p). rewrite Z.add_0_l, (proj2 (Z.eqb_neq _ _)) by lia. by rewrite (Hg p x q E).
Qed.

Lemma step_ok c r : coherent r -> regular [c] (rules r) = true ->
  exists m, step c r = (MkRuler (default (rules r) (change c (rules r))) m, expected c (rules r)) /\ coherent (MkRuler (default (rules r) (change c (rules r))) m).
Proof.
  intros Hr Hreg. assert (forall l, coherent (MkRuler l None)) as Hn by done.
  assert (forall e f, exists m, match on_first e f (rules r) with Some l => (MkRuler l None, Ok tt) | None => (r, Throw not_found) end =
    (MkRuler (default (rules r) (on_first e f (rules r))) m, if on_first e f (rules r) is Some _ then Ok tt else Throw not_found) /\
    coherent (MkRuler (default (rules r) (on_first e f (rules r))) m)) as Hfirst.
  { intros e f. destruct (on_first e f (rules r)); [by exists None|]. exists (cache r). destruct r. by split. }
  assert (forall b e l, is_Some (switch_all b e l) -> exists m, done (clear_cache (switch b e (MkRuler l (cache r)))) =
    (MkRuler (default (rules r) (switch_all b e l)) m, Done (if switch_all b e l is Some _ then Ok tt else Throw invalid_name)) /\
    coherent (MkRuler (default (rules r) (switch_all b e l)) m)) as Hswitch.
  { intros b e l [l' E]. pose proof (switch_ok b e (MkRuler l (cache r))) as H. cbn in H. rewrite E in *. rewrite H. by exists None. }
  destruct c as [e t a|e t n a|e t n a|e t a|e strict|e|e]; cbn in Hreg; rewrite andb_true_r in Hreg; unfold step, expected; cbn [change].
  - unfold at_. rewrite (change_first e (fun x => [Rule (name x) (enabled x) t a]) r (fun i => alter_at i _ (rules r))) by (intros p x q ->; apply alter_at_app).
    destruct (Hfirst e (fun x => [Rule (name x) (enabled x) t a])) as (m & -> & H). by exists m.
  - unfold before. rewrite (change_first e (fun x => [Rule t true n a; x]) r (fun i => insert_at i _ (rules r))) by (intros p x q ->; apply insert_at_app).
    destruct (Hfirst e (fun x => [Rule t true n a; x])) as (m & -> & H). by exists m.
  - unfold after. rewrite (change_first e (fun x => [x; Rule t true n a]) r (fun i => insert_at (i + 1) _ (rules r))).
    + destruct (Hfirst e (fun x => [x; Rule t true n a])) as (m & -> & H). by exists m.
    + intros p x q ->. replace (zlen p + 1) with (zlen (p ++ [x])) by (rewrite zlen_app; unfold zlen; cbn; lia). change (p ++ x :: q) with (p ++ [x] ++ q). rewrite app_assoc, insert_at_app. by rewrite <- app_assoc.
  - by exists None.
  - apply bool_decide_eq_true in Hreg. specialize (Hswitch true e _ Hreg). unfold enable. destruct strict, r; done.
  - apply bool_decide_eq_true in Hreg. specialize (Hswitch false e _ Hreg). unfold disable. destruct r; done.
  - apply bool_decide_eq_true in Hreg. destruct (getRules_ok e r Hr Hreg) as (m & -> & ->). exists (Some (compile (rules r))). split; [done|]. by intros m [= <-].
Qed.

Lemma regular_cons c cs l : regular (c :: cs) l = true -> regular [c] l = true /\ regular cs (default l (change c l)) = true.
Proof. cbn. rewrite andb_true_r. by intros [? ?]%andb_true_iff. Qed.

(** C32: for every sequence of calls in which each switch names rules that are there, no chain is
    named __proto__ and getRules is asked for no chain with the name of a member that every object
    inherits, the rules are those that the calls should make, in their order, every call answers
    or throws as it should, and getRules returns the functions of the enabled rules of the chain
    in the order of the rules, however often the list was changed since it was last asked. *)
Theorem ruler_refines cs : regular cs [] = true ->
  exists m, run cs new_ruler = (MkRuler (fst (spec cs [])) m, snd (spec cs [])).
Proof.
  assert (coherent new_ruler) as H0 by done. revert H0. change (@nil rule) with (rules new_ruler). generalize new_ruler.
  induction cs as [|c cs IH]; intros r Hr Hreg; [exists (cache r); by destruct r|].
  apply regular_cons in Hreg as [Hc Hcs]. destruct (step_ok c r Hr Hc) as (m & E & Hm). cbn [run spec]. rewrite E.
  destruct (IH _ Hm Hcs) as (m' & E'). cbn [rules] in E'. rewrite E'. exists m'. by destruct (spec cs _).
Qed.

End Ruler.

Definition sample_calls : list (@call Z) :=
  [CPush (js "a") 1 [js "x"]; CPush (js "b") 2 []; CGetRules (js "x"); CBefore (js "b") (js "c") 3 [js "x"]; CDisable [js "a"];
   CGetRules (js "x"); CEnable [js "b"] true; CGetRules []; CAt (js "z") 4 []].

Lemma ruler_refines_witness : exists m, run sample_calls new_ruler = (MkRuler (fst (spec sample_calls [])) m, snd (spec sample_calls [])).
Proof. apply (ruler_refines sample_calls). vm_compute. reflexivity. Defined.

(** A switch that names a rule that is not there throws after it has switched the rules
    before that name, and keeps the functions of the list as it was: getRules goes on to return
    the function of a rule that is disabled.  A chain with the name of a member that every object
    has is answered with this member. *)
Theorem ruler_defects :
  let cs := [CPush (js "a") 1 []; CGetRules []; CDisable [js "a"; js "z"]; CGetRules []; CGetRules (js "constructor")] in
  map enabled (rules (fst (run cs new_ruler))) = [false] /\
  snd (run cs new_ruler) = [Done (Ok tt); Answer (Functions [1]); Done (Throw invalid_name); Answer (Functions [1]); Answer Inherited].
Proof. split; vm_compute; reflexivity. Qed.

End Ruler.
