(* ===== verification/ReduxCombine.v ===== *)
(** * Combined reducers

    Models combineReducers of redux-immutable (lines 23230 to 23242 and 23286 to 23289 of
    src/client/docs/swagger-ui/swagger-ui-bundle.js), which Swagger UI makes its root
    reducer with, and combineReducers of Redux (lines 23111 to 23160).

    The first works on the map in place.  What it uses of the maps is the class [StateMap],
    what it relies on is [StateMapLaws]; [Immutable.Map] is an instance, so that a reducer of
    each key gives a new map and leaves all others alone.  The second works on plain objects,
    here finite maps, where keys that every object has are left out. *)

From S2P Require Import Prelude.
From S2P Require Import JsString.
From S2P Require Import ImmutableMap.
From S2P Require Import ImmutableTrie.
From S2P Require Import ImmutableUpdate.
From S2P Require Import ImmutableHash.
From S2P Require Import ImmutableMapOk.
From Stdlib Require Import String.
From stdpp Require Import base numbers list option gmap.
Open Scope Z_scope.

(** Code over a state that may throw; [None] where the state is not what it should be. *)
Definition action_of (St A : Type) : Type := St -> option (A * St).

(** The maps that hold the state of a store, as the reducers see them: [m_with] is
    withMutations with a callback that may throw. *)
Class StateMap (St H V : Type) := {
  m_empty : action_of St H;
  m_get : H -> jsstring -> action_of St (option V);
  m_set : H -> jsstring -> V -> action_of St H;
  m_with : H -> (H -> action_of St (res unit)) -> action_of St (res H)
}.

(** What they promise: [rep] is a map that does not change, [work] one that is being changed. *)
Class StateMapLaws (St H V : Type) `{StateMap St H V} := {
  valid : St -> Prop;
  rep : St -> H -> (jsstring -> option V) -> Prop;
  token : Type;
  work : token -> St -> H -> (jsstring -> option V) -> Prop;
  empty_law s : valid s -> exists m s', m_empty s = Some (m, s') /\ valid s' /\ rep s' m (fun _ => None) /\
    forall m2 f2, rep s m2 f2 -> rep s' m2 f2;
  work_get t s m f k : work t s m f -> m_get m k s = Some (f k, s);
  work_set t s m f k v : work t s m f -> exists m' s', m_set m k v s = Some (m', s') /\
    work t s' m (fun k' => if decide (k = k') then Some v else f k');
  with_law s m f fn (Q : res unit -> (jsstring -> option V) -> Prop) : valid s -> rep s m f ->
    (forall t s1 m1, work t s1 m1 f -> exists r s2 g, fn m1 s1 = Some (r, s2) /\ work t s2 m1 g /\ Q r g) ->
    exists r s' g, m_with m fn s = Some (r, s') /\ valid s' /\ (forall m2 f2, rep s m2 f2 -> rep s' m2 f2) /\
      match r with Ok m' => Q (Ok tt) g /\ rep s' m' g | Throw e => Q (Throw e) g end
}.

Module ReduxCombine.

(** ** redux-immutable *)

Section Immutable.
Context {St H V A : Type} `{StateMapLaws St H V}.

(** A reducer: the state or undefined, the action; the result, undefined, or an exception. *)
Definition reducer : Type := option V -> A -> res (option V).

Definition returned_undefined : jserr := JsError "Reducer returned undefined when handling an action. To ignore an action, you must explicitly return the previous state.".

Definition checked (err : jserr) (o : option V) : res V := match o with None => Throw err | Some v => Ok v end.
Definition validateNextState (o : option V) : res V := checked returned_undefined o.

(** The callback of withMutations. *)
Fixpoint each (t : H) (rs : list (jsstring * reducer)) (a : A) : action_of St (res unit) := fun s =>
  match rs with
  | [] => Some (Ok tt, s)
  | (k, r) :: rs =>
      match m_get t k s with
      | None => None
      | Some (v, s) =>
          match (let! o := r v a in validateNextState o) with
          | Throw e => Some (Throw e, s)
          | Ok o => match m_set t k o s with Some (_, s) => each t rs a s | None => None end
          end
      end
  end.

(** The combined reducer; [n] is undefined in the first call. *)
Definition combineReducers (rs : list (jsstring * reducer)) (n : option H) (a : A) : action_of St (res H) := fun s =>
  match (match n with Some n => Some (n, s) | None => m_empty s end) with
  | Some (n, s) => m_with n (fun t => each t rs a) s
  | None => None
  end.

(** What the reducers return for the values that the map has before. *)
Fixpoint outcome (err : jserr) (rs : list (jsstring * reducer)) (a : A) (f : jsstring -> option V) : res (list (jsstring * V)) :=
  match rs with
  | [] => Ok []
  | (k, r) :: rs => let! v := (let! o := r (f k) a in checked err o) in let! l := outcome err rs a f in Ok ((k, v) :: l)
  end.

Fixpoint value_in (l : list (jsstring * V)) (k : jsstring) : option V :=
  match l with
  | [] => None
  | (k', v) :: l => if decide (k' = k) then Some v else value_in l k
  end.

(** The values after the changes [l]. *)
Definition changed (f : jsstring -> option V) (l : list (jsstring * V)) (k : jsstring) : option V :=
  match value_in l k with Some v => Some v | None => f k end.

Lemma outcome_ext err rs a f g : (forall k, k ∈ map fst rs -> f k = g k) -> outcome err rs a f = outcome err rs a g.
Proof.
  induction rs as [|[k r] rs IH]; intros Hfg; [done|]. cbn [outcome]. rewrite (Hfg k) by (by left).
  rewrite IH; [done|]. intros k' Hk. apply Hfg. by right.
Qed.

Lemma outcome_keys err rs a f l : outcome err rs a f = Ok l -> map fst l = map fst rs.
Proof.
  revert l. induction rs as [|[k r] rs IH]; cbn [outcome]; intros l; [by intros [= <-]|].
  destruct (r (f k) a) as [[v|]|]; cbn [res_bind checked]; [|done|done]. destruct (outcome err rs a f) as [l'|]; cbn [res_bind]; [|done].
  intros [= <-]. cbn. f_equal. auto.
Qed.

Lemma value_in_none l k : k ∉ map fst l -> value_in l k = None.
Proof. induction l as [|[k' v] l IH]; [done|]. cbn. rewrite not_elem_of_cons. intros [Hk Hl]. rewrite decide_False by done. auto. Qed.

Lemma each_ok t m rs a : forall s f, NoDup (map fst rs) -> work t s m f ->
  exists r s' g, each m rs a s = Some (r, s') /\ work t s' m g /\
    match outcome returned_undefined rs a f with
    | Ok l => r = Ok tt /\ forall k, g k = changed f l k
    | Throw e => r = Throw e
    end.
Proof.
  induction rs as [|[k r] rs IH]; intros s f Hnd Hw; [exists (Ok tt), s, f; split_and!; [done|done|by split]|]. cbn in Hnd. apply list.NoDup_cons in Hnd as [Hk Hnd].
  cbn [each outcome]. rewrite (work_get t s m f k Hw). destruct (r (f k) a) as [[v|]|e]; unfold validateNextState; cbn [res_bind checked]; [|by exists (Throw returned_undefined), s, f|by exists (Throw e), s, f].
  destruct (work_set t s m f k v Hw) as (m' & s1 & -> & Hw1). destruct (IH s1 _ Hnd Hw1) as (r' & s' & g & -> & Hw' & Hg). exists r', s', g. split_and!; [done|done|].
  rewrite (outcome_ext returned_undefined rs a f (fun k' => if decide (k = k') then Some v else f k')); [|intros k' Hk'; by rewrite decide_False by (by intros ->)].
  destruct (outcome returned_undefined rs a _) as [l|e] eqn:Eo; cbn [res_bind]; [|done]. destruct Hg as [-> Hg]. split; [done|]. intros k'. rewrite Hg. unfold changed. cbn [value_in].
  destruct (decide (k = k')) as [<-|]; [|done]. rewrite value_in_none; [done|]. by rewrite (outcome_keys _ _ _ _ _ Eo).
Qed.

(** C5: a combined reducer gives every reducer the value of its key and puts what it returns
    there, all other keys keep their values, and no map that there was before changes, the state
    itself included; if a reducer throws or returns undefined, the combined reducer throws what
    the first of them threw, and every map is still what it was. *)
Theorem combine_slices rs s m f a : NoDup (map fst rs) -> valid s -> rep s m f ->
  exists r s', combineReducers rs (Some m) a s = Some (r, s') /\ valid s' /\ (forall m2 f2, rep s m2 f2 -> rep s' m2 f2) /\
    match outcome returned_undefined rs a f with
    | Ok l => exists m' g, r = Ok m' /\ rep s' m' g /\ forall k, g k = changed f l k
    | Throw e => r = Throw e
    end.
Proof.
  intros Hnd Hs Hm. unfold combineReducers.
  destruct (with_law s m f (fun t => each t rs a) (fun r g => match outcome returned_undefined rs a f with Ok l => r = Ok tt /\ forall k, g k = changed f l k | Throw e => r = Throw e end) Hs Hm)
    as (r & s' & g & E & Hs' & Hkeep & Hr).
  { intros t s1 m1 Hw. destruct (each_ok t m1 rs a s1 f Hnd Hw) as (r & s2 & g & ?). by exists r, s2, g. }
  exists r, s'. split_and!; try done. destruct (outcome returned_undefined rs a f) as [l|e], r as [m'|e']; [destruct Hr as [[_ Hg] Hrep]; by exists m', g|by destruct Hr|by destruct Hr|congruence].
Qed.

End Immutable.

(** ** Redux *)

Section Objects.
Context {V A : Type} `{SameLaws V}.
Context (INIT PROBE : A).
Abbreviation object := (gmap jsstring V).

Definition undefined_init : jserr := JsError "Reducer returned undefined during initialization.".
Definition undefined_probe : jserr := JsError "Reducer returned undefined when probed with a random type.".
Definition undefined_result : jserr := JsError "Given an action, reducer returned undefined.".

(** The reducers among the members of the argument. *)
Definition finalReducers (e : list (jsstring * option (@reducer V A))) : list (jsstring * @reducer V A) :=
  flat_map (fun kv => match snd kv with Some r => [(fst kv, r)] | None => [] end) e.

Fixpoint assertReducerShape (rs : list (jsstring * @reducer V A)) : res unit :=
  match rs with
  | [] => Ok tt
  | (k, r) :: rs =>
      let! _ := (let! o := r None INIT in checked undefined_init o) in
      let! _ := (let! o := r None PROBE in checked undefined_probe o) in
      assertReducerShape rs
  end.

(** [p === f], where [f] may be undefined. *)
Definition same_value (f : option V) (p : V) : bool := match f with Some f => same p f | None => false end.

(** The loop: what has changed, and the new object. *)
Fixpoint next_object (rs : list (jsstring * @reducer V A)) (e : object) (a : A) (r : bool) (i : object) : res (bool * object) :=
  match rs with
  | [] => Ok (r, i)
  | (l, c) :: rs =>
      let f := e !! l in
      let! p := (let! o := c f a in checked undefined_result o) in
      next_object rs e a (r || negb (same_value f p)) (<[l := p]> i)
  end.

(** The same object, or a new one. *)
Inductive next := Unchanged | Next (i : object).

(** The function that combineReducers returns for the argument [e]. *)
Definition combination (e : list (jsstring * option (@reducer V A))) (state : option object) (a : A) : res next :=
  let n := finalReducers e in
  let! _ := assertReducerShape n in
  let! (r, i) := next_object n (default ∅ state) a false ∅ in
  Ok (if r then Next i else Unchanged).

Lemma next_object_ok rs e a : forall r i, NoDup (map fst rs) ->
  next_object rs e a r i =
  let! l := outcome undefined_result rs a (fun k => e !! k) in
  Ok (r || negb (forallb (fun kv => same_value (e !! fst kv) (snd kv)) l), list_to_map l ∪ i).
Proof.
  induction rs as [|[k c] rs IH]; intros r i Hnd; cbn [next_object outcome].
  - cbn. by rewrite orb_false_r, (left_id_L ∅ (∪)).
  - cbn in Hnd. apply list.NoDup_cons in Hnd as [Hk Hnd]. destruct (c (e !! k) a) as [[p|]|]; cbn [res_bind checked]; [|done|done].
    rewrite IH by done. destruct (outcome undefined_result rs a _) as [l|] eqn:Eo; cbn [res_bind]; [|done]. f_equal. f_equal.
    + cbn [forallb fst snd]. destruct r; [done|]. cbn. by rewrite negb_andb.
    + cbn. rewrite <- insert_union_l. rewrite <- insert_union_r; [done|]. apply not_elem_of_list_to_map_1.
      intros Hin. apply Hk. rewrite <- (outcome_keys _ _ _ _ _ Eo). done.
Qed.

(** The combined reducer of Redux returns the object it was given when every reducer returns
    the value it was given, and when one does not, a new object with the values that the reducers
    return: other keys of the old object are not in it; it throws what the first reducer throws. *)
Theorem combine_objects e state a : NoDup (map fst (finalReducers e)) -> assertReducerShape (finalReducers e) = Ok tt ->
  match outcome undefined_result (finalReducers e) a (fun k => state !! k) with
  | Throw er => combination e (Some state) a = Throw er
  | Ok l => (combination e (Some state) a = Ok Unchanged /\ Forall (fun kv => state !! fst kv = Some (snd kv)) l) \/
            (combination e (Some state) a = Ok (Next (list_to_map l)) /\ Exists (fun kv => same_value (state !! fst kv) (snd kv) = false) l)
  end.
Proof.
  intros Hnd Hs. unfold combination. rewrite Hs. cbn [res_bind default]. unfold id. rewrite next_object_ok by done.
  destruct (outcome undefined_result _ a _) as [l|er]; cbn [res_bind]; [|done]. rewrite (right_id_L ∅ (∪)). cbn [orb].
  destruct (forallb _ l) eqn:E; cbn [negb]; [left|right]; (split; [done|]).
  - rewrite forallb_forall in E. apply list.Forall_forall. intros [k v] Hin%list_elem_of_In. specialize (E _ Hin). cbn in *.
    destruct (state !! k) as [f|]; [|done]. by rewrite (same_eq v f E).
  - clear Hnd Hs. induction l as [|kv l IH]; [done|]. cbn in E. apply andb_false_iff in E as [E|E]; [by left|right; auto].
Qed.

End Objects.

(** ** Immutable.Map *)

Section Instance.
Import ImmutableMap ImmutableTrie ImmutableUpdate ImmutableMapOk.
Context {V : Type} `{SameLaws V}.
Abbreviation mstore := (@store prim V).

(** withMutations with a callback that may throw. *)
Definition withMutations_throw (this : nat) (fn : nat -> @M prim V (res unit)) : @M prim V (res nat) :=
  let* t := asMutable this in
  let* r := fn t in
  match r with
  | Throw e => ret (Throw e)
  | Ok _ =>
      let* m := (let* altered := wasAltered t in if altered then let* m := get_map this in __ensureOwner t (__ownerID m) else ret this) in
      ret (Ok m)
  end.

#[global] Instance immutable_map : StateMap mstore nat V := {
  m_empty := emptyMap;
  m_get m k := get m (PStr k);
  m_set m k v := set m (PStr k) v;
  m_with := withMutations_throw
}.

Definition map_rep (s : mstore) (m : nat) (f : jsstring -> option V) : Prop :=
  exists es, map_ok s m None es /\ forall k, look (PStr k) es = f k.
Definition map_work (t : mstore * nat * nat * list (prim * V)) (s : mstore) (m : nat) (f : jsstring -> option V) : Prop :=
  let '(s0, e, t, es0) := t in m = t /\ exists es, session s0 e t es0 s es /\ forall k, look (PStr k) es = f k.

Lemma extends_rep (s s' : mstore) : extends s s' -> forall m f, map_rep s m f -> map_rep s' m f.
Proof. intros Hex m f (es & Hm & Hf). exists es. split; [by eapply extends_persists|done]. Qed.

#[global] Instance immutable_map_laws : StateMapLaws mstore nat V.
Proof.
  refine {| valid := store_ok; rep := map_rep; work := map_work |}.
  - intros s Hs. destruct (emptyMap_ok s Hs) as (m & s' & E & Hs' & Hm & Hex & _). exists m, s'. split_and!; [done|done|by exists []|by apply extends_rep].
  - intros [[[s0 e] t] es0] s m f k (-> & es & Hss & Hf). cbn. rewrite <- Hf. apply (get_ok s t (Some e) es), Hss.
  - intros [[[s0 e] t] es0] s m f k v (-> & es & Hss & Hf). destruct (session_step _ _ _ _ _ _ (PStr k) (Some v) Hss) as (s' & es' & E & Hss' & Hl); [by intros [? _]|].
    exists t, s'. split; [exact E|]. split; [done|]. exists es'. split; [done|]. intros k'. rewrite Hl, Hf. cbn. unfold is_, prim_key, ImmutableHash.is_.
    destruct (decide (k = k')) as [->|Hne]; [by rewrite bool_decide_eq_true_2|]. by rewrite bool_decide_eq_false_2 by congruence.
  - intros s m f fn Q Hs (es & Hm & Hf) Hfn. destruct (session_start s m es Hs Hm) as (e & t & s1 & E & Hss).
    destruct (Hfn (s, e, t, es) s1 t) as (r & s2 & g & E2 & (_ & es2 & Hss2 & Hg) & HQ). { split; [done|]. by exists es. }
    cbn. unfold withMutations_throw. unfold bind at 1. rewrite E. unfold bind at 1. rewrite E2. destruct r as [[]|er].
    + destruct (session_end s m es e t s2 es2 Hm Hss2) as (m' & s' & es' & E3 & Hs' & Hm' & Hl & Hex). unfold bind at 1. rewrite E3.
      exists (Ok m'), s', g. split_and!; [done|done|by apply extends_rep|done|]. exists es'. split; [done|]. intros k. by rewrite Hl.
    + exists (Throw er), s2, g. split_and!; [done|apply Hss2|apply extends_rep; by eapply session_extends|done].
Defined.

End Instance.

Import ImmutableMapOk.

(** A counter and a log of the actions. *)
Definition count_reducer : @reducer Z Z := fun v a => Ok (Some (default 0 v + a)).
Definition last_reducer : @reducer Z Z := fun v a => Ok (Some a).
Definition two_reducers : list (jsstring * @reducer Z Z) := [(js "a", count_reducer); (js "last", last_reducer)].

Lemma combine_objects_witness : exists l, outcome undefined_result two_reducers 5 (fun k => ({[js "a" := 1]} : gmap jsstring Z) !! k) = Ok l /\
  combination 0 0 [(js "a", Some count_reducer); (js "x", None); (js "last", Some last_reducer)] (Some {[js "a" := 1]}) 5 = Ok (Next (list_to_map l)).
Proof.
  assert (NoDup (map fst (finalReducers [(js "a", Some count_reducer); (js "x", None); (js "last", Some last_reducer)]))) as Hnd by (by eapply bool_decide_eq_true_1; vm_compute).
  destruct (combine_objects 0 0 [(js "a", Some count_reducer); (js "x", None); (js "last", Some last_reducer)] {[js "a" := 1]} 5 Hnd eq_refl) as [[E _]|[E _]]; [by vm_compute in E|].
  eexists. split; [reflexivity|exact E].
Defined.

Lemma combine_slices_witness : exists r s', combineReducers two_reducers (Some 1%nat) 5 ImmutableMapOk.one_entry = Some (r, s') /\
  exists m' g, r = Ok m' /\ map_rep s' m' g /\ g (js "a") = Some 6 /\ g (js "last") = Some 5.
Proof.
  assert (NoDup (map fst two_reducers)) as Hnd by (by eapply bool_decide_eq_true_1; vm_compute).
  destruct ImmutableMapOk.one_entry_ok as [Hs Hm].
  assert (map_rep ImmutableMapOk.one_entry 1 (fun k => if decide (k = js "a") then Some 1 else None)) as Hrep.
  { exists [(ImmutableMapOk.key "a", 1)]. split; [done|]. intros k. destruct (decide (k = js "a")) as [->|Hne]; [vm_compute; done|]. cbn [ImmutableTrie.ImmutableTrie.look]. unfold is_, prim_key, ImmutableHash.is_.
    rewrite bool_decide_eq_false_2; [done|]. intros E. injection E as E. by apply Hne. }
  destruct (@combine_slices _ _ _ _ immutable_map immutable_map_laws two_reducers ImmutableMapOk.one_entry 1%nat _ 5 Hnd Hs Hrep) as (r & s' & E & _ & _ & m' & g & -> & Hg & Hk).
  exists (Ok m'), s'. split; [done|]. exists m', g. rewrite !Hk. by split_and!.
Defined.

End ReduxCombine.
