(* ===== verification/UiUtils.v ===== *)
(** * Helpers of Swagger UI

    Models from the utilities of Swagger UI (lines 2669 to 3054 of
    src/client/docs/swagger-ui/swagger-ui-bundle.js): sanitizeUrl with the package behind it
    (lines 23305 to 23318), through which the links of a specification go into the page;
    parseSearch and serializeSearch, for the address of the page; buildFormData and btoa, for
    the requests of the login; createDeepLinkPath; deeplyStripKey.

    The search of the page is an argument.  An object is the list of its members in the order
    of [Object.keys], or a finite map where it is built. *)

From S2P Require Import Prelude.
From S2P Require Import JsString.
From S2P Require Import Utf8.
From S2P Require Import Base64.
From S2P Require Import BufferOps.
From S2P Require Import BufferText.
From S2P Require Import JsonPatch.
From S2P Require Import JsonPatchOk.
From S2P Require Import JsonPatchCompare.
From S2P Require Import Uri.
From S2P Require Import QueryString.
From Stdlib Require Import String.
From stdpp Require Import base numbers list option gmap.
Open Scope Z_scope.

Module UiUtils.
Import Utf8 Uri.

(** ** sanitizeUrl *)

Definition printable (c : Z) : bool := (32 <=? c) && (c <=? 126).
Definition lower (c : Z) : Z := if (65 <=? c) && (c <=? 90) then c + 32 else c.

(** [(%20|\s)*] at the beginning of a text. *)
Fixpoint skip_blanks (skip : nat) (s : jsstring) : jsstring :=
  match s with
  | [] => []
  | c :: s' =>
      match skip with
      | S skip => skip_blanks skip s'
      | O => if bool_decide (take 3 s = js "%20") then skip_blanks 2 s' else if is_space c then skip_blanks 0 s' else s
      end
  end.

(** [/^(%20|\s)*(javascript|data)/im], on one line. *)
Definition unsafe (t : jsstring) : bool :=
  let t := map lower (skip_blanks 0 t) in
  QueryString.starts_with (js "javascript") t || QueryString.starts_with (js "data") t.

Definition about_blank : jsstring := js "about:blank".

(** The package.  After the first replacement the text is one line, so that the pattern of the
    scheme is looked for at its beginning only. *)
Definition sanitize (e : jsstring) : jsstring :=
  let u := List.filter printable e in
  match u with
  | [] => about_blank
  | c :: _ =>
      if (c =? 46) || (c =? 47) then u
      else
        let i := index_of 58 u in
        if i <=? 0 then about_blank
        else if unsafe (take (Z.to_nat (i + 1)) u) then about_blank else u
  end.

(** [None] for what is not a string. *)
Definition sanitizeUrl (e : option jsstring) : jsstring :=
  match e with None | Some [] => [] | Some e => sanitize e end.

(** ** The search of the page *)

(** [e[k] = v] for a string: the member __proto__ keeps its value. *)
Definition assign (e : gmap jsstring jsstring) (k v : jsstring) : gmap jsstring jsstring :=
  if decide (k = js "__proto__") then e else <[k := v]> e.

Definition parse_member (s : jsstring) : res (jsstring * jsstring) :=
  let r := split_on 61 s in
  let! k := decodeURIComponent (default [] (head r)) in
  let! v := (match r with
             | _ :: v :: _ => if decide (v = []) then Ok [] else decodeURIComponent v
             | _ => Ok []
             end) in
  Ok (k, v).

Fixpoint parse_members (n : list jsstring) (e : gmap jsstring jsstring) : res (gmap jsstring jsstring) :=
  match n with
  | [] => Ok e
  | s :: n => let! kv := parse_member s in parse_members n (assign e (fst kv) (snd kv))
  end.

Definition parseSearch (search : jsstring) : res (gmap jsstring jsstring) :=
  if decide (search = []) then Ok ∅ else parse_members (split_on 38 (drop 1 search)) ∅.

Definition member_text (kv : jsstring * jsstring) : res jsstring :=
  let! k := encodeURIComponent (fst kv) in
  let! v := encodeURIComponent (snd kv) in
  Ok (k ++ [61] ++ v).

Definition serializeSearch (e : list (jsstring * jsstring)) : res jsstring :=
  let! l := res_map member_text e in Ok (join_with [38] l).

(** ** Forms *)

(** [s.replace(/%20/g, "+")]. *)
Fixpoint plus_for_space (skip : nat) (s : jsstring) : jsstring :=
  match s with
  | [] => []
  | c :: s' =>
      match skip with
      | S skip => plus_for_space skip s'
      | O => if bool_decide (take 3 s = js "%20") then 43 :: plus_for_space 2 s' else c :: plus_for_space 0 s'
      end
  end.

(** A member is left out when it is undefined or the empty text. *)
Definition form_member (kv : jsstring * option jsstring) : res (list jsstring) :=
  match snd kv with
  | None | Some [] => Ok []
  | Some v => let! v := encodeURIComponent v in Ok [fst kv ++ [61] ++ plus_for_space 0 v]
  end.

Definition buildFormData (e : list (jsstring * option jsstring)) : res jsstring :=
  let! l := res_map form_member e in Ok (join_with [38] (concat l)).

(** [btoa] of a text: through a Buffer, with typed arrays or without. *)
Definition btoa (tas : bool) (t : jsstring) : res jsstring :=
  let! b := BufferText.from tas t (Some "utf-8"%string) in BufferText.toString b "base64" None None.

(** ** Other helpers *)

(** [None] for what is not a string. *)
Definition createDeepLinkPath (e : option jsstring) : jsstring :=
  match e with
  | Some e => map (fun c => if is_space c then 95 else c) (trim e)
  | None => []
  end.

(** deeplyStripKey without a predicate, on a JSON value: a key is left out of an object and of
    the objects among its members; arrays are left alone. *)
Fixpoint deeplyStripKey (n : jsstring) (t : JsonPatch.json) : JsonPatch.json :=
  match t with
  | JsonPatch.JObj o =>
      if decide (n = []) then t
      else JsonPatch.JObj ((fix go o := match o with
                                        | [] => []
                                        | (k, v) :: o => if decide (k = n) then go o else (k, deeplyStripKey n v) :: go o
                                        end) o)
  | _ => t
  end.

(** ** Addresses are safe *)

(** The scheme that a browser finds: without blanks and control characters before it, and
    without tabs and line ends in it, in lower case. *)
Fixpoint drop_controls (u : jsstring) : jsstring :=
  match u with c :: u' => if c <=? 32 then drop_controls u' else u | [] => [] end.
Definition scheme_char (c : Z) : bool := ((48 <=? c) && (c <=? 57)) || ((65 <=? c) && (c <=? 90)) || ((97 <=? c) && (c <=? 122)) || (c =? 43) || (c =? 45) || (c =? 46).
Fixpoint scheme_run (u : jsstring) : jsstring :=
  match u with c :: u => if scheme_char c then c :: scheme_run u else [] | [] => [] end.
Definition browser_scheme (u : jsstring) : option jsstring :=
  let u := List.filter (fun c => negb ((c =? 9) || (c =? 10) || (c =? 13))) (drop_controls u) in
  let p := scheme_run u in
  match drop (length p) u with 58 :: _ => Some (map lower p) | _ => None end.

Definition harmful (p : jsstring) : Prop := p = js "javascript" \/ p = js "data".

Lemma drop_controls_printable u : Forall (fun c => printable c = true) u -> exists k, u = replicate k 32 ++ drop_controls u.
Proof.
  induction 1 as [|c u Hc _ [k IH]]; [by exists O|]. cbn. destruct (Z.leb_spec c 32); [|by exists O].
  exists (S k). cbn. unfold printable in Hc. f_equal; [lia|done].
Qed.

Lemma scheme_run_app u : exists r, u = scheme_run u ++ r /\ drop (length (scheme_run u)) u = r /\ 58 ∉ scheme_run u.
Proof.
  induction u as [|c u (r & E & D & H)]; [exists []; split_and!; [done|done|apply not_elem_of_nil]|]. cbn. destruct (scheme_char c) eqn:Hc.
  - exists r. split_and!; [cbn; by f_equal|done|]. rewrite not_elem_of_cons. split; [by intros <-|done].
  - exists (c :: u). split_and!; [done|done|apply not_elem_of_nil].
Qed.

Lemma harmful_shape u p : Forall (fun c => printable c = true) u -> browser_scheme u = Some p -> harmful p ->
  exists k q r, u = replicate k 32 ++ q ++ 58 :: r /\ (58 ∉ q) /\ harmful (map lower q).
Proof.
  intros Hu Hp Hh. destruct (drop_controls_printable u Hu) as [k E]. unfold browser_scheme in Hp.
  assert (List.filter (fun c => negb ((c =? 9) || (c =? 10) || (c =? 13))) (drop_controls u) = drop_controls u) as Hf.
  { apply List.forallb_filter_id, forallb_forall. intros c Hc. apply list_elem_of_In in Hc. rewrite list.Forall_forall in Hu.
    assert (c ∈ u) as Hin by (rewrite E; apply elem_of_app; by right). apply Hu in Hin. unfold printable in Hin. lia. }
  rewrite Hf in Hp. destruct (scheme_run_app (drop_controls u)) as (r & E' & D & Hno). rewrite D in Hp.
  exists k, (scheme_run (drop_controls u)). destruct r as [|c r]; [done|]. destruct (decide (c = 58)) as [->|Hc]; [|by repeat case_match].
  injection Hp as <-. exists r. split_and!; [by rewrite <- E'|done|done].
Qed.

Lemma harmful_head q : harmful (map lower q) -> exists c q', q = c :: q' /\ is_space c = false /\ c <> 37 /\ c <> 46 /\ c <> 47.
Proof.
  intros Hq. destruct q as [|c q]; [by destruct Hq|]. exists c, q. split; [done|]. assert (lower c = 106 \/ lower c = 100) as Hc by (destruct Hq as [E|E]; injection E; auto).
  unfold lower in Hc. unfold is_space. destruct (_ && _) eqn:E in Hc; lia.
Qed.

Lemma skip_spaces k s : skip_blanks 0 (replicate k 32 ++ s) = skip_blanks 0 s.
Proof. induction k as [|k IH]; [done|]. cbn [replicate app skip_blanks]. rewrite bool_decide_eq_false_2 by done. exact IH. Qed.

Lemma starts_with_app t s : QueryString.starts_with t (t ++ s) = true.
Proof. induction t as [|x t IH]; [done|]. cbn. by rewrite Z.eqb_refl. Qed.

Lemma unsafe_harmful k q : harmful (map lower q) -> unsafe (replicate k 32 ++ q ++ [58]) = true.
Proof.
  intros Hq. unfold unsafe. rewrite skip_spaces. destruct (harmful_head q Hq) as (c & q' & -> & Hs & H37 & _).
  assert (skip_blanks 0 ((c :: q') ++ [58]) = (c :: q') ++ [58]) as ->. { cbn. rewrite bool_decide_eq_false_2 by (by intros [= ->]). by rewrite Hs. }
  rewrite map_app. destruct Hq as [-> | ->]; rewrite starts_with_app; [done|by rewrite orb_true_r].
Qed.

Lemma printable_sanitize e : Forall (fun c => printable c = true) (sanitize e).
Proof.
  assert (Forall (fun c => printable c = true) (List.filter printable e)) as H.
  { apply list.Forall_forall. intros c Hc%list_elem_of_In%filter_In. apply Hc. }
  unfold sanitize. destruct (List.filter printable e) as [|c u] eqn:E; [by repeat constructor|]. repeat case_match; done || by repeat constructor.
Qed.

(** An address that passes. *)
Definition passes (u : jsstring) : Prop :=
  List.filter printable u = u /\ (head u = Some 46 \/ head u = Some 47 \/ (0 < index_of 58 u /\ unsafe (take (Z.to_nat (index_of 58 u + 1)) u) = false)).

Lemma sanitize_passes e : sanitize e = about_blank \/ passes (sanitize e).
Proof.
  unfold sanitize. set (u := List.filter printable e). assert (List.filter printable u = u) as Hf by (apply List.forallb_filter_id, forallb_forall; intros x Hx; apply filter_In in Hx as [_ Hx]; exact Hx).
  clearbody u. destruct u as [|c u]; [by left|]. destruct ((c =? 46) || (c =? 47)) eqn:E; [right; split; [done|]; cbn; apply orb_true_iff in E as [->%Z.eqb_eq| ->%Z.eqb_eq]; auto|].
  destruct (Z.leb_spec (index_of 58 (c :: u)) 0); [by left|]. destruct (unsafe _) eqn:Eu; [by left|right]. split; [done|]. auto.
Qed.

Lemma passes_sanitize u : passes u -> sanitize u = u.
Proof.
  intros [Hf Hu]. unfold sanitize. rewrite Hf. destruct u as [|c u]; [by destruct Hu as [?|[?|[? _]]]|]. destruct ((c =? 46) || (c =? 47)) eqn:E; [done|].
  apply orb_false_iff in E as [H46%Z.eqb_neq H47%Z.eqb_neq]. destruct Hu as [[= ->]|[[= ->]|[Hi Hs]]]; [done..|]. rewrite (proj2 (Z.leb_gt _ _)) by lia. by rewrite Hs.
Qed.

Lemma passes_harmless u p : passes u -> browser_scheme u = Some p -> ~ harmful p.
Proof.
  intros [Hf Hu] Hp Hh. assert (Forall (fun c => printable c = true) u) as Hpr. { rewrite <- Hf. apply list.Forall_forall. intros x Hx%list_elem_of_In%filter_In; apply Hx. }
  destruct (harmful_shape u p Hpr Hp Hh) as (k & q & r & -> & Hno & Hq). destruct (harmful_head q Hq) as (c & q' & Eq & _ & _ & H46 & H47).
  assert (forall x, head (replicate k 32 ++ q ++ 58 :: r) = Some x -> x = 32 \/ x = c) as Hhead. { subst q. destruct k; cbn; intros x [= <-]; auto. }
  destruct Hu as [H|[H|[_ Hs]]]; [apply Hhead in H; lia|apply Hhead in H; lia|]. rewrite app_assoc in Hs.
  assert (58 ∉ replicate k 32 ++ q) as Hno'. { rewrite elem_of_app. intros [H|H]; [|done]. by apply elem_of_replicate in H as [? _]. }
  rewrite index_of_app in Hs by done. replace (Z.to_nat (zlen (replicate k 32 ++ q) + 1)) with (length (replicate k 32%Z ++ q) + 1)%nat in Hs by (unfold zlen; lia).
  rewrite take_app_add' in Hs by done. change (take 1 (58 :: r)) with [58] in Hs. rewrite <- app_assoc, unsafe_harmful in Hs; done.
Qed.

(** C15: whatever text a specification has for a link, what sanitizeUrl makes of it is not
    taken for a javascript or data address by a browser, which skips blanks and control
    characters and knows no case; and it is left alone when it is sanitized again. *)
Theorem sanitize_safe e : (~ exists p, browser_scheme (sanitizeUrl e) = Some p /\ harmful p) /\ sanitizeUrl (Some (sanitizeUrl e)) = sanitizeUrl e.
Proof.
  destruct e as [[|x e]|]; [split; [by intros (p & E & _)|done]| |split; [by intros (p & E & _)|done]]. cbn [sanitizeUrl]. generalize (x :: e). clear x e. intros e.
  destruct (sanitize_passes e) as [-> |Hp].
  - split; [|done]. intros (p & E & Hh). vm_compute in E. injection E as <-. by destruct Hh.
  - split; [intros (p & E & Hh); by apply (passes_harmless _ p Hp E)|]. destruct (sanitize e) as [|c u] eqn:E; [done|]. rewrite <- E. by apply passes_sanitize; rewrite E.
Qed.

(** What sanitizeUrl does to other addresses: one without a scheme that does not begin with a
    dot or a slash is lost, and a vbscript address passes. *)
Theorem sanitize_defects :
  sanitizeUrl (Some (js "docs/index.html")) = about_blank /\ sanitizeUrl (Some (js "#top")) = about_blank /\
  sanitizeUrl (Some (js "vbscript:x")) = js "vbscript:x".
Proof. split_and!; reflexivity. Qed.

(** ** The search of the page comes back *)

Definition member_ok (kv : jsstring * jsstring) : Prop := QueryString.text (fst kv) /\ fst kv <> js "__proto__" /\ QueryString.text (snd kv).

Lemma member_parsed kv : member_ok kv -> exists p, member_text kv = Ok p /\ (38 ∉ p) /\ parse_member p = Ok kv.
Proof.
  destruct kv as [k v]. intros ([Hk Hk'] & _ & [Hv Hv']). cbn [fst snd] in *. destruct (uri_decode_encode k Hk Hk') as (k' & Ek & Ck & Dk). destruct (uri_decode_encode v Hv Hv') as (v' & Ev & Cv & Dv).
  exists (k' ++ [61] ++ v'). unfold member_text. cbn [fst snd]. rewrite Ek, Ev. split_and!; [done| |].
  - rewrite !elem_of_app, list_elem_of_singleton. intros [H|[H|H]]; [by eapply (uri_char_no 38) in H|done|by eapply (uri_char_no 38) in H].
  - unfold parse_member. cbn [app]. rewrite split_on_app, split_on_none by (by apply uri_char_no). cbn [head default]. unfold id. rewrite Dk. cbn [res_bind].
    destruct (decide (v' = [])) as [->|_]; [by injection Dv as <-|]. by rewrite Dv.
Qed.

Lemma parse_members_map n l : forall e, res_map parse_member n = Ok l -> parse_members n e = Ok (foldl (fun e kv => assign e (fst kv) (snd kv)) e l).
Proof.
  revert l. induction n as [|s n IH]; intros l e E; cbn in *; [by injection E as <-|].
  destruct (parse_member s) as [kv|]; [|done]. cbn in *. destruct (res_map parse_member n) as [l'|]; [|done]. cbn in E. injection E as <-. by rewrite (IH l' _ eq_refl).
Qed.

Lemma assign_all o : forall e, Forall member_ok o -> NoDup (map fst o) -> foldl (fun e kv => assign e (fst kv) (snd kv)) e o = list_to_map o ∪ e.
Proof.
  induction o as [|[k v] o IH]; intros e Ho Hnd; cbn; [by rewrite (left_id_L ∅ (∪))|]. apply list.Forall_cons in Ho as [(_ & Hk & _) Ho]. cbn in Hnd. apply list.NoDup_cons in Hnd as [Hnk Hnd].
  rewrite IH by done. cbn in Hk. unfold assign. rewrite decide_False by done. rewrite <- insert_union_l, <- insert_union_r; [done|]. by apply not_elem_of_list_to_map_1.
Qed.

(** The search that serializeSearch writes for an object of texts, whatever their
    characters, is read by parseSearch as that object. *)
Theorem search_roundtrip o : o <> [] -> Forall member_ok o -> NoDup (map fst o) ->
  exists s, serializeSearch o = Ok s /\ parseSearch (63 :: s) = Ok (list_to_map o).
Proof.
  intros Hne Ho Hnd. assert (exists ps, res_map member_text o = Ok ps /\ Forall (fun p => 38 ∉ p) ps /\ length ps = length o /\ res_map parse_member ps = Ok o) as (ps & E & Hno & Hlen & Hp).
  { clear Hne Hnd. induction Ho as [|kv o Hkv Ho (ps & E & Hno & Hlen & Hp)]; [by exists []|]. destruct (member_parsed kv Hkv) as (p & Ep & Hp' & Hpp).
    exists (p :: ps). cbn. rewrite Ep. cbn. rewrite E, Hpp. cbn. rewrite Hp. split_and!; [done|by constructor|by rewrite Hlen|done]. }
  exists (join_with [38] ps). unfold serializeSearch. rewrite E. split; [done|]. unfold parseSearch. rewrite decide_False by done. change (drop 1 (63 :: ?s)) with s.
  rewrite split_join; [|by destruct ps, o|done]. rewrite (parse_members_map _ _ _ Hp), assign_all by done. by rewrite (right_id_L ∅ (∪)).
Qed.

Lemma search_roundtrip_witness : exists s, serializeSearch [(js "url", js "/a?b=1&c"); ([233], [])] = Ok s /\
  parseSearch (63 :: s) = Ok (list_to_map [(js "url", js "/a?b=1&c"); ([233], [])]).
Proof. apply (search_roundtrip [(js "url", js "/a?b=1&c"); ([233], [])]); [done|repeat constructor; cbn; done || lia|by eapply bool_decide_eq_true_1; vm_compute]. Defined.

(** ** Forms are read as they were written *)

Lemma decode_plain k : 37 ∉ k -> decodeURIComponent k = Ok k.
Proof.
  unfold decodeURIComponent. induction k as [|c k IH]; [done|]. rewrite not_elem_of_cons. intros [Hc Hk]. cbn [length decode_loop].
  rewrite (proj2 (Z.eqb_neq _ _)) by done. by rewrite IH.
Qed.

Lemma plus_back s : 43 ∉ s -> QueryString.replace_plus (plus_for_space 0 s) = s /\ forall c, c <> 43 -> c ∉ s -> c ∉ plus_for_space 0 s.
Proof.
  remember (length s) as n eqn:Hn. revert s Hn. induction n as [n IH] using lt_wf_ind. intros s -> Hs. destruct s as [|c s]; [by split|].
  cbn [plus_for_space]. destruct (bool_decide_reflect (take 3 (c :: s) = js "%20")) as [E|_].
  - destruct s as [|c1 [|c2 s]]; [done..|]. injection E as -> -> ->. cbn [plus_for_space]. rewrite !not_elem_of_cons in Hs. destruct Hs as (_ & _ & _ & Hs).
    destruct (IH (length s)) with (s := s) as [IH1 IH2]; [cbn; lia|done|done|]. split; [cbn; by rewrite <- IH1 at 2|].
    intros x Hx. rewrite !not_elem_of_cons. intros (_ & _ & _ & Hx'). split; [done|auto].
  - rewrite not_elem_of_cons in Hs. destruct Hs as [Hc Hs]. destruct (IH (length s)) with (s := s) as [IH1 IH2]; [cbn; lia|done|done|]. split.
    + cbn. rewrite (proj2 (Z.eqb_neq _ _)) by done. cbn. by f_equal.
    + intros x Hx. rewrite !not_elem_of_cons. intros [? ?]. auto.
Qed.

(** The members that are sent: the keys are written as they are. *)
Definition sent (o : list (jsstring * option jsstring)) : list (jsstring * QueryString.value) :=
  flat_map (fun kv => match snd kv with None | Some [] => [] | Some v => [(fst kv, QueryString.VPrim (QueryString.PString v))] end) o.
Definition form_ok (kv : jsstring * option jsstring) : Prop :=
  Forall (fun c => unescaped c = true) (fst kv) /\ fst kv <> js "__proto__" /\ match snd kv with Some v => QueryString.text v | None => True end.

Lemma unescaped_no c k : unescaped c = false -> Forall (fun c => unescaped c = true) k -> c ∉ k.
Proof. intros Hc Hk Hin. rewrite list.Forall_forall in Hk. apply Hk in Hin. congruence. Qed.

Lemma form_member_read k v : Forall (fun c => unescaped c = true) k -> QueryString.text v -> exists v', encodeURIComponent v = Ok v' /\
  (38 ∉ k ++ [61] ++ plus_for_space 0 v') /\ QueryString.decode_pair [61] (k ++ [61] ++ plus_for_space 0 v') = Ok (k, v).
Proof.
  intros Hk [Hv Hv']. destruct (uri_decode_encode v Hv Hv') as (v' & Ev & Cv & Dv). exists v'. split; [done|].
  destruct (plus_back v') as [Hback Hno]; [by apply uri_char_no|]. split.
  - rewrite !elem_of_app, list_elem_of_singleton. intros [H|[H|H]]; [by eapply (unescaped_no 38) in H|done|]. revert H. apply Hno; [done|by apply uri_char_no].
  - rewrite <- (QueryString.decode_pair_ok k v' k v); [|by apply unescaped_no|by apply unescaped_no|by apply uri_char_no|apply decode_plain; by apply unescaped_no|done].
    unfold QueryString.decode_pair. assert (QueryString.replace_plus (k ++ [61] ++ plus_for_space 0 v') = QueryString.replace_plus (k ++ [61] ++ v')) as ->; [|done].
    unfold QueryString.replace_plus in *. rewrite !flat_map_app, Hback. do 2 f_equal. symmetry. apply QueryString.replace_plus_id. by apply uri_char_no.
Qed.

Lemma plain_text k : Forall (fun c => unescaped c = true) k -> QueryString.text k.
Proof.
  induction 1 as [|c k Hc _ [IHu IHw]]; [by split; [constructor|]|]. apply unescaped_ascii in Hc as [Hc _]. split; [constructor; [unfold unit_ok; lia|done]|].
  cbn. assert (is_lead c = false /\ is_trail c = false) as [-> ->] by (unfold is_lead, is_trail; lia). done.
Qed.

(** A form that buildFormData writes is read, by the decoder of query strings, as the
    members with a text that is not empty, whatever the characters of the text, where the keys
    have only characters that need no escape. *)
Theorem form_read o : Forall form_ok o -> NoDup (map fst (sent o)) -> zlen (sent o) <= 1000 ->
  exists s, buildFormData o = Ok s /\ QueryString.decode (Some s) [] [] None = Ok (QueryString.object (sent o) ∅).
Proof.
  intros Ho Hnd Hlen. assert (exists ls, res_map form_member o = Ok ls /\ QueryString.pieces (concat ls) (QueryString.pairs (sent o)) /\ (sent o = [] <-> concat ls = []) /\
    Forall QueryString.entry_ok (sent o)) as (ls & E & Hp & He & Hok).
  { clear Hnd Hlen. induction Ho as [|[k v] o (Hk & Hkp & Hv) Ho (ls & E & Hp & He & Hok)].
    - exists []. split_and!; [done| |done|constructor]. split_and!; [constructor|apply not_elem_of_nil|done|done].
    - cbn [fst snd] in *. destruct v as [[|c v]|]; [exists ([] :: ls); cbn; by rewrite E| |exists ([] :: ls); cbn; by rewrite E].
      destruct (form_member_read k (c :: v) Hk Hv) as (v' & Ev & Hno & Hd). exists ([k ++ [61] ++ plus_for_space 0 v'] :: ls).
      cbn [res_map]. unfold form_member at 1. cbn [fst snd]. rewrite Ev. cbn [res_bind]. rewrite E. split_and!; [done| |done|].
      + apply (QueryString.pieces_app [_] (concat ls) [(k, c :: v)] (QueryString.pairs (sent o))); [|done]. split_and!; [by repeat constructor| | |done].
        * rewrite list_elem_of_singleton. by destruct k.
        * cbn [res_map]. by rewrite Hd.
      + constructor; [|done]. split_and!; [by apply plain_text|done|constructor; [done|constructor]|done]. }
  exists (join_with [38] (concat ls)). unfold buildFormData. rewrite E. split; [done|]. apply QueryString.decode_pieces; try done.
  assert (length (QueryString.pairs (sent o)) = length (sent o)) as Hl; [|unfold zlen in *; lia]. clear. induction o as [|[k [[|c v]|]] o IH]; [done|exact IH| |exact IH]. change (S (length (QueryString.pairs (sent o))) = S (length (sent o))). by rewrite IH.
Qed.

Definition login_form : list (jsstring * option jsstring) := [(js "grant_type", Some (js "password")); (js "scope", Some []); (js "client_id", None); (js "username", Some (js "a b&c+%"))].

Lemma form_read_witness : exists s, buildFormData login_form = Ok s /\ s = js "grant_type=password&username=a+b%26c%2B%25" /\
  QueryString.decode (Some s) [] [] None = Ok (QueryString.object (sent login_form) ∅).
Proof.
  destruct (form_read login_form) as (s & E & D).
  - repeat constructor; cbn; done || lia.
  - by eapply bool_decide_eq_true_1; vm_compute.
  - by vm_compute.
  - exists s. split; [done|]. split; [|done]. vm_compute in E. injection E as <-. reflexivity.
Defined.

(** A key of a form is written as it is: an ampersand in it begins another member. *)
Theorem form_key_unescaped : buildFormData [(js "a&b", Some (js "1"))] = Ok (js "a&b=1") /\
  QueryString.decode (Some (js "a&b=1")) [] [] None = Ok (<[js "b" := QueryString.One (js "1")]> {[js "a" := QueryString.One []]}).
Proof. split; vm_compute; reflexivity. Qed.

(** ** Credentials *)

(** Btoa, which writes the credentials of a login into a header, gives the standard base64
    text of the UTF-8 bytes of any text, with typed arrays or without, where the Buffer can be
    as long as it must be. *)
Theorem btoa_standard tas t : units_ok t -> 4 * zlen t <= BufferOps.kMaxLength tas ->
  btoa tas t = Ok (Base64.ref_encode (flat_map utf8_ref (scalars (effective t)))).
Proof.
  intros Ht Hmax. destruct (BufferText.from_utf8 tas "utf-8" t) as [Hf _]; [done..|]. unfold btoa. rewrite Hf. cbn [res_bind]. set (b := flat_map utf8_ref (scalars (effective t))).
  assert (bytes_ok b) as Hb by (apply BufferText.flat_utf8_bytes, scalars_scalar; by apply effective_units).
  rewrite (BufferText.toString_all b "base64" BufferText.Base64E); [|done|].
  - cbn. unfold BufferText.base64Slice. rewrite !Z.eqb_refl. cbn. by rewrite Base64.encode_is_ref.
  - pose proof (BufferText.length_flat_utf8 (scalars (effective t))). pose proof (BufferText.length_scalars (effective t)). pose proof (BufferText.length_effective t).
    unfold b, pow32 in *. destruct tas; cbn in Hmax; lia.
Qed.

Lemma btoa_standard_witness : btoa true (js "user:" ++ [233]) = Ok (Base64.ref_encode [117; 115; 101; 114; 58; 195; 169]).
Proof. apply (btoa_standard true (js "user:" ++ [233])); [repeat constructor; cbn; done || lia|vm_compute; congruence]. Defined.

(** ** deeplyStripKey *)

(** The key is in the object, or in an object among its members. *)
Fixpoint has_key (n : jsstring) (t : JsonPatch.json) : bool :=
  match t with
  | JsonPatch.JObj o => existsb (fun kv => bool_decide (fst kv = n) || has_key n (snd kv)) o
  | _ => false
  end.

(** DeeplyStripKey leaves no such key, and leaves everything as it was if there is none. *)
Theorem strip_key_gone n t : n <> [] -> has_key n (deeplyStripKey n t) = false /\ (has_key n t = false -> deeplyStripKey n t = t).
Proof.
  intros Hn. induction t as [d Hd|l _|o IH] using JsonPatchCompare.json_tree; [by destruct d|done|]. cbn [deeplyStripKey]. rewrite decide_False by done. cbn [has_key].
  induction IH as [|[k v] o [Hv Hv'] _ [IHo IHo']]; [done|]. cbn [fst snd] in *. destruct (decide (k = n)) as [->|Hk].
  - split; [done|]. cbn [existsb fst]. by rewrite bool_decide_eq_true_2.
  - cbn [existsb fst snd]. rewrite bool_decide_eq_false_2, Hv, IHo by done. split; [done|]. cbn [orb]. intros [Hv0 Ho0]%orb_false_iff.
    rewrite (Hv' Hv0). specialize (IHo' Ho0). injection IHo' as IHo'. by rewrite IHo'.
Qed.

Lemma strip_key_gone_witness : has_key (js "$$ref") (deeplyStripKey (js "$$ref") (JsonPatch.JObj [(js "a", JsonPatch.JObj [(js "$$ref", JsonPatch.JNull)])])) = false.
Proof. apply (strip_key_gone (js "$$ref") (JsonPatch.JObj [(js "a", JsonPatch.JObj [(js "$$ref", JsonPatch.JNull)])])). discriminate. Defined.

(** ** createDeepLinkPath *)

(** The path of a deep link has no blanks, and only the blanks of the text are changed. *)
Theorem deep_link_no_blanks e : Forall (fun c => is_space c = false) (createDeepLinkPath (Some e)) /\
  (Forall (fun c => is_space c = false) e -> createDeepLinkPath (Some e) = e).
Proof.
  split.
  - cbn. apply list.Forall_forall. intros c Hc. apply list_elem_of_fmap in Hc as (x & -> & _). by destruct (is_space x) eqn:E.
  - intros He. cbn. rewrite trim_id by done. clear -He. induction He as [|c e Hc _ IH]; [done|]. cbn. by rewrite Hc, IH.
Qed.

End UiUtils.
