(* ===== verification/UiValidate.v ===== *)
(** * The validation of parameters

    Models validateParam and the validators it calls (lines 2863 to 2986 of
    src/client/docs/swagger-ui/swagger-ui-bundle.js), which decide whether Swagger UI sends a
    request, with the texts of the values they look at ([toString] of an Immutable List, lines
    1092, 2161 and 2514).

    A parameter is an Immutable Map; here it is a record of the members that are read.  The
    bounds of a schema are numbers, as OpenAPI wants them; they are compared as doubles.  The
    regular expressions of a schema, Date.parse and JSON.parse, which is only asked whether it throws,
    are arguments. *)

From S2P Require Import Prelude.
From S2P Require Import JsString.
From S2P Require Import Regex.
From S2P Require Import JsNum.
From Stdlib Require Import String.
From stdpp Require Import base numbers list strings option.
Open Scope Z_scope.

Module UiValidate.
Import Regex.

(** ** Values and their texts *)

Inductive value :=
| Undefined
| Null
| Bool (b : bool)
| Number (n : jsnum)
| Str (s : jsstring)
| Array (l : list value)
| IList (l : list value)
| File
| Object.

Definition is_zero (n : jsnum) : bool := match double n with JInt z => z =? 0 | JNegZero => true | _ => false end.

Definition truthy (v : value) : bool :=
  match v with
  | Undefined | Null => false
  | Bool b => b
  | Number n => negb (is_zero n) && negb (bool_decide (n = JNaN))
  | Str s => negb (bool_decide (s = []))
  | _ => true
  end.

(** [JSON.stringify] of a string. *)
Definition hex_lower (d : Z) : Z := if d <? 10 then 48 + d else 87 + d.
Definition escape_unit (c : Z) : jsstring :=
  if c =? 34 then js "\" ++ [34]
  else if c =? 92 then js "\\"
  else if c =? 8 then js "\b" else if c =? 9 then js "\t" else if c =? 10 then js "\n" else if c =? 12 then js "\f" else if c =? 13 then js "\r"
  else if c <? 32 then js "\u00" ++ [hex_lower (c / 16); hex_lower (c mod 16)]
  else [c].
Definition stringify (s : jsstring) : jsstring := [34] ++ flat_map escape_unit s ++ [34].

(** [String(v)]. *)
Fixpoint text (v : value) : jsstring :=
  match v with
  | Undefined => js "undefined"
  | Null => js "null"
  | Bool b => if b then js "true" else js "false"
  | Number n => jn_to_string n
  | Str s => s
  | Array l => join_with (js ",") (map (fun v => match v with Undefined | Null => [] | _ => text v end) l)
  | IList [] => js "List []"
  | IList l => js "List [ " ++ join_with (js ", ") (map (fun v => match v with Str s => stringify s | _ => text v end) l) ++ js " ]"
  | File => js "[object File]"
  | Object => js "[object Object]"
  end.

(** ** Numbers *)

Definition dec_digit : re := RChr (range 48 57).
Definition sign : re := opt (RAlt (one 43) (one 45)).
(** A decimal literal that may be converted to a number. *)
Definition decimal_literal : re :=
  RSeq sign (RAlt (literal (js "Infinity"))
    (RSeq (RAlt (RSeq (plus dec_digit) (opt (RSeq (one 46) (RStar dec_digit)))) (RSeq (one 46) (plus dec_digit)))
          (opt (seqs [RAlt (one 101) (one 69); sign; plus dec_digit])))).

Definition radix_number (radix : Z) (d : jsstring) : jsnum :=
  if forallb (fun c => bool_decide (is_Some (digit_in radix c))) d
  then match parse_digits radix d None with Some z => JInt z | None => JNaN end else JNaN.

(** [Number(s)]. *)
Definition string_number (s : jsstring) : jsnum :=
  match trim s with
  | [] => JInt 0
  | 48 :: c :: d =>
      if (c =? 120) || (c =? 88) then radix_number 16 d
      else if (c =? 111) || (c =? 79) then radix_number 8 d
      else if (c =? 98) || (c =? 66) then radix_number 2 d
      else if test decimal_literal (48 :: c :: d) then parseFloat (48 :: c :: d) else JNaN
  | t => if test decimal_literal t then parseFloat t else JNaN
  end.

Definition to_number (v : value) : jsnum :=
  match v with
  | Undefined => JNaN
  | Null => JInt 0
  | Bool b => JInt (if b then 1 else 0)
  | Number n => n
  | v => string_number (text v)
  end.

(** The order of exact numbers. *)
Definition below (a b : jsnum) : bool :=
  match a, b with
  | JNaN, _ | _, JNaN => false
  | JInf true, JInf true => false
  | JInf true, _ => true
  | _, JInf true => false
  | JInf false, _ => false
  | _, JInf false => true
  | _, _ =>
      match parts a, parts b with
      | Some (m1, e1), Some (m2, e2) => let e := Z.max e1 e2 in m1 * 10 ^ (e - e1) <? m2 * 10 ^ (e - e2)
      | _, _ => false
      end
  end.

(** [a < b], which compares the doubles. *)
Definition less (a b : jsnum) : bool := below (double a) (double b).

(** [v.length], on a value that has members. *)
Definition length_of (v : value) : res jsnum :=
  match v with
  | Undefined | Null => Throw (TypeError "Cannot read property 'length'")
  | Str s => Ok (JInt (zlen s))
  | Array l => Ok (JInt (zlen l))
  | _ => Ok JNaN
  end.

(** ** The validators *)

Inductive message := Message (s : jsstring) | Item (index : Z) (s : jsstring).

Definition when (b : bool) (s : string) : option jsstring := if b then Some (js s) else None.

Definition validateMaximum (e : value) (t : jsnum) : option jsstring := when (less t (to_number e)) "Value must be less than Maximum".
Definition validateMinimum (e : value) (t : jsnum) : option jsstring := when (less (to_number e) t) "Value must be greater than Minimum".

Definition integer_re : re := RSeq (opt (one 45)) (plus dec_digit).
Definition number_re : re := RSeq (opt (one 45)) (RSeq (plus dec_digit) (opt (RSeq (opt (one 46)) (plus dec_digit)))).

Definition validateNumber (e : value) : option jsstring := when (negb (test number_re (text e))) "Value must be a number".
Definition validateInteger (e : value) : option jsstring := when (negb (test integer_re (text e))) "Value must be an integer".
Definition validateFile (e : value) : option jsstring := when (truthy e && match e with File => false | _ => true end) "Value must be a file".
Definition validateBoolean (e : value) : option jsstring :=
  when (match e with Bool _ => false | Str s => negb (bool_decide (s ∈ [js "true"; js "false"])) | _ => true end) "Value must be a boolean".
Definition validateString (e : value) : option jsstring := when (truthy e && match e with Str _ => false | _ => true end) "Value must be a string".

(** Lower-casing other letters gives none of those of the pattern. *)
Definition lower_unit (c : Z) : Z := if (65 <=? c) && (c <=? 90) then c + 32 else c.
Definition hex_unit : re := RChr (fun c => range 48 57 c || range 97 102 c).
Definition hexes (n : nat) : re := seqs (replicate n hex_unit).
Definition guid_re : re :=
  seqs [opt (RAlt (one 123) (one 40)); hexes 8; one 45; hexes 4; one 45; hexes 4; one 45; hexes 4; one 45; hexes 12; opt (RAlt (one 41) (one 125))].
Definition validateGuid (e : value) : res (option jsstring) :=
  match e with
  | Undefined | Null => Throw (TypeError "Cannot read property 'toString'")
  | _ => Ok (when (negb (test guid_re (map lower_unit (text e)))) "Value must be a Guid")
  end.

Definition validateMaxLength (e : value) (t : jsnum) : res (option jsstring) :=
  let! n := length_of e in Ok (when (less t n) "Value must be less than MaxLength").
Definition validateMinLength (e : value) (t : jsnum) : res (option jsstring) :=
  let! n := length_of e in Ok (when (less n t) "Value must be greater than MinLength").

Section Engine.
(** [new RegExp(t).test(e)]; whether Date.parse gives a number; whether JSON.parse succeeds. *)
Context (matches : jsstring -> jsstring -> res bool) (date : jsstring -> bool) (json : jsstring -> bool).

Definition validateDateTime (e : value) : option jsstring := when (negb (date (text e))) "Value must be a DateTime".
Definition validatePattern (e : value) (t : jsstring) : res (option jsstring) :=
  let! b := matches t (text e) in Ok (if b then None else Some (js "Value must follow pattern " ++ t)).

(** ** validateParam *)

(** The members of a schema; an absent text is empty. *)
Record schema := Schema {
  maximum : option jsnum;
  minimum : option jsnum;
  type : jsstring;
  format : jsstring;
  maxLength : option jsnum;
  minLength : option jsnum;
  pattern : jsstring;
  items_type : jsstring
}.

Record param := Param {
  in_ : jsstring;
  value_ : value;
  value_xml : value;
  required : bool;
  own : schema;
  schema_ : option schema
}.

Definition is_type (a : schema) (t : string) : bool := bool_decide (type a = js t).

(** Whether the value is one that the type takes for given; the last is for objects. *)
Definition provided (a : schema) (o : value) (objectOk : bool) : bool :=
  (is_type a "string" && truthy o)
  || (is_type a "array" && match o with Array l => negb (zlen l =? 0) | _ => false end)
  || (is_type a "array" && match o with IList l => negb (zlen l =? 0) | _ => false end)
  || (is_type a "file" && match o with File => true | _ => false end)
  || (is_type a "boolean" && (truthy o || match o with Bool b => negb b | _ => false end))
  || (is_type a "number" && (truthy o || match o with Number n => is_zero n | _ => false end))
  || (is_type a "integer" && (truthy o || match o with Number n => is_zero n | _ => false end))
  || objectOk.

Definition add (r : list message) (m : option jsstring) : list message := match m with Some s => r ++ [Message s] | None => r end.

(** A bound that is a number other than NaN is looked at; a least length of 0 is not. *)
Definition bound (b : option jsnum) : option jsnum := match b with Some JNaN => None | b => b end.

Definition item_error (t : jsstring) (e : value) : option jsstring :=
  if decide (t = js "number") then validateNumber e
  else if decide (t = js "integer") then validateInteger e
  else if decide (t = js "string") then validateString e
  else None.
Fixpoint item_errors (t : jsstring) (i : Z) (l : list value) : list message :=
  match l with
  | [] => []
  | e :: l => match item_error t e with Some s => [Item i s] | None => [] end ++ item_errors t (i + 1) l
  end.

(** The error of the type. *)
Definition type_errors (a : schema) (o : value) (r : list message) : res (list message) :=
  if is_type a "string" then
    let! v := (if decide (format a = js "date-time") then Ok (validateDateTime o)
               else if decide (format a = js "uuid") then validateGuid o
               else Ok (validateString o)) in
    Ok (add r v)
  else if is_type a "boolean" then Ok (add r (validateBoolean o))
  else if is_type a "number" then Ok (add r (validateNumber o))
  else if is_type a "integer" then Ok (add r (validateInteger o))
  else if is_type a "array" then Ok (match o with IList l => r ++ item_errors (items_type a) 0 l | _ => r end)
  else if is_type a "file" then Ok (add r (validateFile o))
  else Ok r.

Definition check_value (a : schema) (o : value) : res (list message) :=
  let! r := (if decide (pattern a = []) then Ok [] else let! u := validatePattern o (pattern a) in Ok (add [] u)) in
  let! r := (match bound (maxLength a) with Some d => let! q := validateMaxLength o d in Ok (add r q) | None => Ok r end) in
  let! r := (match bound (minLength a) with Some h => if is_zero h then Ok r else let! f := validateMinLength o h in Ok (add r f) | None => Ok r end) in
  let r := match bound (maximum a) with Some u => add r (validateMaximum o u) | None => r end in
  let r := match bound (minimum a) with Some c => add r (validateMinimum o c) | None => r end in
  type_errors a o r.

Definition effective_value (e : param) (isXml : bool) : value := if isXml && bool_decide (in_ e = js "body") then value_xml e else value_ e.
Definition effective_schema (e : param) (isOAS3 : bool) : option schema := if isOAS3 then schema_ e else Some (own e).

Definition validateParam (e : param) (isXml isOAS3 : bool) : res (list message) :=
  let o := effective_value e isXml in
  match effective_schema e isOAS3 with
  | None => Ok []
  | Some a =>
      if negb (bool_decide (type a = [])) && (required e || truthy o) then
        let objects := isOAS3 && is_type a "object" in
        if objects && match o with Str s => negb (json s) | _ => false end then Ok [Message (js "Parameter string value must be valid JSON")]
        else
          let S := objects && match o with Null | Array _ | IList _ | File | Object | Str _ => true | _ => false end in
          if required e && negb (provided a o S) then Ok [Message (js "Required field is not provided")]
          else check_value a o
      else Ok []
  end.

End Engine.

(** ** Integers *)





















Section Theorems.
Context (matches : jsstring -> jsstring -> res bool) (date : jsstring -> bool) (json : jsstring -> bool).





Lemma length_of_ok o : o <> Undefined -> o <> Null -> exists n, length_of o = Ok n.
Proof. destruct o; cbn; eauto; done. Qed.

(** What is thrown when a value is checked. *)
Definition check_throws (a : schema) (o : value) (x : jserr) : Prop :=
  (pattern a <> [] /\ matches (pattern a) (text o) = Throw x) \/
  (o = Null /\ is_type a "object" = true /\ (bound (maxLength a) <> None \/ bound (minLength a) <> None) /\ x = TypeError "Cannot read property 'length'").

Lemma type_errors_ok a o r : o <> Undefined -> (o = Null -> is_type a "object" = true) -> exists l, type_errors date a o r = Ok l.
Proof.
  intros Hu Hn. unfold type_errors. destruct (is_type a "string") eqn:E; [|repeat case_match; eauto].
  assert (exists v, validateGuid o = Ok v) as [v ->]; [|repeat case_match; eauto]. destruct o; cbn; eauto; [done|]. exfalso. specialize (Hn eq_refl). unfold is_type in *.
  apply bool_decide_eq_true_1 in E, Hn. rewrite E in Hn. discriminate Hn.
Qed.

Lemma check_value_throws a o : o <> Undefined -> (o = Null -> is_type a "object" = true) ->
  match check_value matches date a o with Ok _ => True | Throw x => check_throws a o x end.
Proof.
  intros Hu Hn. assert (Hd : o = Null \/ o <> Null) by (destruct o; auto; by right). unfold check_value, validatePattern, check_throws. destruct (decide (pattern a = [])) as [Ep|Ep]; cbn [res_bind];
    [|destruct (matches (pattern a) (text o)) as [b|x] eqn:Em; cbn [res_bind]; [|by left]];
    (destruct Hd as [->|Ho];
     [unfold validateMaxLength, validateMinLength; cbn [length_of res_bind];
      destruct (bound (maxLength a)) eqn:EM; cbn [res_bind]; [by right; split_and!; auto|];
      destruct (bound (minLength a)) as [h|] eqn:EN; [destruct (is_zero h)|]; cbn [res_bind]; try (by right; split_and!; auto)
     |unfold validateMaxLength, validateMinLength; destruct (length_of_ok o Hu Ho) as [n ->]; cbn [res_bind];
      destruct (bound (maxLength a)), (bound (minLength a)) as [h|]; cbn [res_bind]; try destruct (is_zero h); cbn [res_bind]]);
    match goal with |- context [type_errors _ _ _ ?r] => by destruct (type_errors_ok a _ r Hu Hn) as [l ->] end.
Qed.

(** C36: validateParam returns a list of messages whatever the value, and throws for two reasons
    only: the test of the pattern of the schema throws, and then this is what it throws; or the
    value is the null of a required object of OpenAPI 3 with a bound on the length, which is a
    TypeError.  A missing value gives the one message that it is required, where it is, and none
    where it is not. *)
Theorem validate_total e isXml isOAS3 :
  match validateParam matches date json e isXml isOAS3 with
  | Ok _ => True
  | Throw x => exists a, effective_schema e isOAS3 = Some a /\
      ((pattern a <> [] /\ matches (pattern a) (text (effective_value e isXml)) = Throw x) \/
       (effective_value e isXml = Null /\ isOAS3 = true /\ required e = true /\ type a = js "object" /\ (bound (maxLength a) <> None \/ bound (minLength a) <> None) /\
        x = TypeError "Cannot read property 'length'"))
  end /\
  (effective_value e isXml = Undefined -> forall a, effective_schema e isOAS3 = Some a -> type a <> [] ->
    validateParam matches date json e isXml isOAS3 = Ok (if required e then [Message (js "Required field is not provided")] else [])).
Proof.
  split.
  - unfold validateParam. destruct (effective_schema e isOAS3) as [a|] eqn:Ea; [|done]. destruct (negb _ && _) eqn:E; [|done]. apply andb_true_iff in E as [_ E].
    set (o := effective_value e isXml) in *. destruct (isOAS3 && is_type a "object" && _); [done|]. destruct (required e && _) eqn:Ep; [done|].
    assert (Hu : o <> Undefined).
    { intros Eo. rewrite Eo in *. cbn [truthy] in E. rewrite orb_false_r in E. rewrite E in Ep. revert Ep. unfold provided. cbn. by rewrite !andb_false_r. }
    assert (Hn : o = Null -> isOAS3 = true /\ required e = true /\ is_type a "object" = true).
    { intros Eo. rewrite Eo in *. cbn [truthy] in E. rewrite orb_false_r in E. split_and!; try done; rewrite E in Ep; revert Ep; unfold provided; cbn; rewrite !andb_false_r, andb_true_r; by destruct isOAS3, (is_type a "object"). }
    assert (H := check_value_throws a o Hu (fun H => proj2 (proj2 (Hn H)))). destruct (check_value matches date a o) as [l|x]; [done|]. exists a. split; [done|].
    destruct H as [H|(Ho & Ht & Hb & Hx)]; [by left|right]. destruct (Hn Ho) as (H1 & H2 & _). split_and!; try done. by apply bool_decide_eq_true_1 in Ht.
  - intros Ho a Ha Hta. unfold validateParam. rewrite Ho, Ha. rewrite bool_decide_eq_false_2 by done. cbn [truthy negb andb]. rewrite orb_false_r, andb_false_r.
    destruct (required e); [|done]. unfold provided. cbn. by rewrite !andb_false_r.
Qed.

End Theorems.

Definition no_engine (p s : jsstring) : res bool := Ok true.
Definition page_schema : schema := Schema (Some (JInt 100)) (Some (JInt 1)) (js "integer") [] None None [] [].


Lemma validate_total_witness :
  let e := Param (js "query") Undefined Undefined true page_schema None in
  validateParam no_engine (fun _ => true) (fun _ => true) e false false = Ok [Message (js "Required field is not provided")].
Proof. intros e. by apply (validate_total no_engine (fun _ => true) (fun _ => true) e false false) with (a := page_schema). Defined.

(** Values that are judged wrongly: a number that is written with an exponent is no number; an
    optional number 0 is not compared with the least value; the null of an object with a greatest
    length is a TypeError; and the text 9007199254740993 is accepted where the greatest value is
    9007199254740992. *)
Theorem validate_defects :
  validateNumber (Number (decimal 1 7)) = Some (js "Value must be a number") /\
  validateParam no_engine (fun _ => true) (fun _ => true) (Param (js "query") (Number (JInt 0)) Undefined false page_schema None) false false = Ok [] /\
  (exists m, validateParam no_engine (fun _ => true) (fun _ => true)
    (Param (js "query") Null Undefined true page_schema (Some (Schema None None (js "object") [] (Some (JInt 5)) None [] []))) false true = Throw (TypeError m)) /\
  validateParam no_engine (fun _ => true) (fun _ => true)
    (Param (js "query") (Str (js "9007199254740993")) Undefined true (Schema (Some (JInt 9007199254740992)) None (js "integer") [] None None [] []) None) false false = Ok [].
Proof. split_and!; [vm_compute; reflexivity..|eexists; vm_compute; reflexivity|vm_compute; reflexivity]. Qed.

End UiValidate.
