(* ===== verification/ImmutableList.v ===== *)
(** * Immutable.List

    Models List of Immutable (lines 180 to 207 and 1073 to 1320 of
    src/client/docs/swagger-ui/swagger-ui-bundle.js): a trie of 32-way nodes with the positions from
    [_origin] to [_capacity], whose last node, the tail, is kept apart; its reads and writes, and
    setListBounds (kt), which adds and drops positions at both ends.

    Nodes are values here: a node that belongs to the current mutation is changed in place by the
    code and copied in the model.  A level is the number of its steps of five bits.  [===] of nodes
    only saves copies and is left out where the copy is the same. *)

From S2P Require Import Prelude.
From Stdlib Require Import ZArith.
From stdpp Require Import base numbers list option.
Open Scope Z_scope.

Module ImmutableList.

Section List.
Context {V : Type}.

(** ** The code *)

(** What an array of a node holds: undefined, a value, a node with its array. *)
Inductive slot := SU | SV (v : V) | SN (a : list slot).

Definition arr (e : slot) : list slot := match e with SN a => a | _ => [] end.
Definition present (e : slot) : bool := match e with SU => false | _ => true end.

(** [a[i]] and [a[i] = x]. *)
Definition at_ (a : list slot) (i : Z) : slot := default SU (a !! Z.to_nat i).
Definition put_at (a : list slot) (i : Z) (x : slot) : list slot :=
  let n := Z.to_nat i in
  if decide (n < length a)%nat then <[n := x]> a else a ++ replicate (n - length a) SU ++ [x].

Definition bits (k : nat) : Z := 5 * Z.of_nat k.
(** [i >>> level & MASK]. *)
Definition digit (k : nat) (i : Z) : Z := js_and (js_ushr i (bits k)) 31.

Record List := MkList { _origin : Z; _capacity : Z; _level : nat; _root : slot; _tail : slot }.
Definition size (e : List) : Z := _capacity e - _origin e.
Definition emptyList : List := MkList 0 0 1 SU SU.

(** getTailOffset. *)
Definition getTailOffset (e : Z) : Z := if e <? 32 then 0 else js_shl (js_ushr (e - 1) 5) 5.

(** updateVNode, where [None] is undefined. *)
Fixpoint updateVNode (k : nat) (e : slot) (r : Z) (o : option V) : slot :=
  let u := digit k r in
  let s := present e && (u <? zlen (arr e)) in
  match s, o with
  | false, None => e
  | _, _ =>
      match k with
      | S k' =>
          let l := at_ (arr e) u in
          let c := updateVNode k' l r o in
          if present l || present c then SN (put_at (arr e) u c) else e
      | O =>
          match o with
          | Some v => SN (put_at (arr e) u (SV v))
          | None =>
              if negb (present (at_ (arr e) u)) then e
              else if u =? zlen (arr e) - 1 then SN (take (length (arr e) - 1) (arr e))
              else SN (put_at (arr e) u SU)
          end
      end
  end.

(** listNodeFor. *)
Fixpoint descend (k : nat) (n : slot) (t : Z) : slot :=
  match k with
  | O => n
  | S k' => if present n then descend k' (at_ (arr n) (digit k t)) t else n
  end.
Definition listNodeFor (e : List) (t : Z) : slot :=
  if getTailOffset (_capacity e) <=? t then _tail e
  else if t <? js_shl 1 (bits (_level e) + 5) then descend (_level e) (_root e) t
  else SU.

(** VNode.prototype.removeBefore; the test of its first line compares the index with the level. *)
Fixpoint removeBefore (k : nat) (this : list slot) (n : Z) : list slot :=
  if (if n =? bits k then negb (js_shl 1 (bits k) =? 0) else zlen this =? 0) then this
  else
    let r := digit k n in
    if zlen this <=? r then []
    else
      let i := r =? 0 in
      let o := match k with
               | S k' => match at_ this r with SN a => SN (removeBefore k' a n) | _ => SU end
               | O => SU
               end in
      if i && negb (present o) then this
      else
        let u := if i then this else replicate (Z.to_nat r) SU ++ drop (Z.to_nat r) this in
        if present o then put_at u r o else u.

(** VNode.prototype.removeAfter. *)
Fixpoint removeAfter (k : nat) (this : list slot) (n : Z) : list slot :=
  if (n =? match k with O => 0 | _ => js_shl 1 (bits k) end) || (zlen this =? 0) then this
  else
    let o := digit k (n - 1) in
    if zlen this <=? o then this
    else
      let r := match k with
               | S k' => match at_ this o with SN a => SN (removeAfter k' a n) | _ => SU end
               | O => SU
               end in
      let a := take (Z.to_nat o + 1) this in
      if present r then put_at a o r else a.

(** setListBounds: the loops that add levels, at the front and at the back. *)
Definition filled (l : slot) : bool := present l && negb (zlen (arr l) =? 0).
Fixpoint grow_front (fuel : nat) (a : Z) (k : nat) (l : slot) (c : Z) : nat * slot * Z :=
  match fuel with
  | O => (k, l, c)
  | S fuel => if a + c <? 0 then grow_front fuel a (S k) (SN (if filled l then [SU; l] else [])) (c + js_shl 1 (bits (S k))) else (k, l, c)
  end.
Fixpoint grow_back (fuel : nat) (p : Z) (k : nat) (l : slot) : nat * slot :=
  match fuel with
  | O => (k, l)
  | S fuel => if js_shl 1 (bits k + 5) <=? p then grow_back fuel p (S k) (SN (if filled l then [l] else [])) else (k, l)
  end.

(** The old tail [d] becomes a node of the trie, at the position [f]. *)
Fixpoint put_tail (k : nat) (l : slot) (f : Z) (d : slot) : slot :=
  match k with
  | S (S _ as k') => SN (put_at (arr l) (digit k f) (put_tail k' (at_ (arr l) (digit k f)) f d))
  | _ => SN (put_at (arr l) (digit 1 f) d)
  end.

(** Levels with a single node are dropped. The test [_ !== p >>> s & g] reads as
    [(_ !== (p >>> s)) & g]: the digit of [a] is compared with all that is left of [p], so that the
    loop ends below the first digit that is not 0. It ends at the level 0 at the latest: there
    [p], a multiple of 32 above [a], is no digit. *)
Fixpoint narrow (k : nat) (l : slot) (a p c : Z) : nat * slot * Z :=
  match k with
  | O => (k, l, c)
  | S k' =>
      if present l && (digit k a =? js_ushr p (bits k)) then narrow k' (at_ (arr l) (digit k a)) a p (c + js_shl 1 (bits k) * digit k a)
      else (k, l, c)
  end.

Definition on_node (f : list slot -> list slot) (l : slot) : slot := match l with SN a => SN (f a) | _ => l end.
Definition on_if (b : bool) (f : list slot -> list slot) (l : slot) : slot := if b then on_node f l else l.

(** setListBounds, its end: what is before [a] and from [u] on is dropped; [o] and [i] are the old
    bounds. *)
Definition trim (s : nat) (l h : slot) (a o u i : Z) : List :=
  let f := getTailOffset i in
  let p := getTailOffset u in
  let h := on_if (u <? i) (fun x => removeAfter 0 x u) h in
  if p <=? a then MkList (a - p) (u - p) 1 SU (on_node (fun x => removeBefore 0 x (a - p)) h)
  else if (o <? a) || (p <? f) then
    let '(s, l, c) := narrow s l a p 0 in
    let l := on_if (o <? a) (fun x => removeBefore s x (a - c)) l in
    let l := on_if (p <? f) (fun x => removeAfter s x (p - c)) l in
    MkList (a - c) (u - c) s l h
  else MkList a u s l h.

Definition setListBounds (e : List) (t : Z) (n : option Z) : List :=
  let t := to_int32 t in
  let n := option_map to_int32 n in
  let o := _origin e in
  let i := _capacity e in
  let a := o + t in
  let u := match n with None => i | Some n => if n <? 0 then i + n else o + n end in
  if (a =? o) && (u =? i) then e
  else if u <=? a then emptyList
  else
    let '(s, l, c) := grow_front 8 a (_level e) (_root e) 0 in
    let a := a + c in let o := o + c in let u := u + c in let i := i + c in
    let f := getTailOffset i in
    let p := getTailOffset u in
    let '(s, l) := grow_back 8 p s l in
    let d := _tail e in
    let h := if p <? f then listNodeFor e (u - 1) else if f <? p then SN [] else d in
    let l := if present d && (f <? p) && (a <? i) && negb (zlen (arr d) =? 0) then put_tail s l f d else l in
    trim s l h a o u i.

(** ** The operations *)

(** wrapIndex of a number. *)
Definition wrapIndex (e : List) (t : Z) : Z := if t <? 0 then size e + t else t.

Definition get (e : List) (t : Z) : slot :=
  let t := wrapIndex e t in
  if (0 <=? t) && (t <? size e) then let t := t + _origin e in at_ (arr (listNodeFor e t)) (js_and t 31) else SU.

Definition set_in_range (e : List) (t : Z) (v : option V) : List :=
  let t := t + _origin e in
  if getTailOffset (_capacity e) <=? t
  then MkList (_origin e) (_capacity e) (_level e) (_root e) (updateVNode 0 (_tail e) t v)
  else MkList (_origin e) (_capacity e) (_level e) (updateVNode (_level e) (_root e) t v) (_tail e).
Definition set (e : List) (t : Z) (v : option V) : List :=
  let t := wrapIndex e t in
  if t <? 0 then set_in_range (setListBounds e t None) 0 v
  else if size e <=? t then set_in_range (setListBounds e 0 (Some (t + 1))) t v
  else set_in_range e t v.

(** The values of a call, set one after the other. *)
Fixpoint set_all (e : List) (i : Z) (vs : list (option V)) : List :=
  match vs with [] => e | v :: vs => set_all (set e i v) (i + 1) vs end.

Definition push (e : List) (vs : list (option V)) : List := set_all (setListBounds e 0 (Some (size e + zlen vs))) (size e) vs.
Definition pop (e : List) : List := setListBounds e 0 (Some (-1)).
Definition unshift (e : List) (vs : list (option V)) : List := set_all (setListBounds e (- zlen vs) None) 0 vs.
Definition shift (e : List) : List := setListBounds e 1 None.
Definition setSize (e : List) (n : Z) : List := setListBounds e 0 (Some n).

(** iterateList, as the values its iterator gives from the first position to the last; [None] if a
    loop that waits for two numbers to be equal does not end. *)
Definition zrange (a b : Z) : list Z := map (fun i => a + Z.of_nat i) (seq 0 (Z.to_nat (b - a))).
Fixpoint iterate (left right : Z) (tail : slot) (k : nat) (e : slot) (offset : Z) : option (list slot) :=
  match k with
  | O =>
      let a := if offset =? getTailOffset right then tail else e in
      let from := if left <? offset then 0 else left - offset in
      let to := Z.min 32 (right - offset) in
      if to <? from then None else Some (map (at_ (arr a)) (zrange from to))
  | S k' =>
      let from := if left <? offset then 0 else js_shr (left - offset) (bits k) in
      let to := Z.min 32 (1 + js_shr (right - offset) (bits k)) in
      if to <? from then None
      else foldr (fun i r => match iterate left right tail k' (at_ (arr e) i) (offset + js_shl i (bits k)), r with
                             | Some x, Some y => Some (x ++ y)
                             | _, _ => None
                             end) (Some []) (zrange from to)
  end.
Definition iterateList (e : List) : option (list slot) := iterate (_origin e) (_capacity e) (_tail e) (_level e) (_root e) 0.

(** wholeSlice, resolveBegin and resolveEnd. *)
Definition wholeSlice (b : Z) (e : option Z) (n : Z) : bool :=
  ((b =? 0) || (b <=? - n)) && match e with None => true | Some e => n <=? e end.
Definition resolveBegin (b n : Z) : Z := if b <? 0 then Z.max 0 (n + b) else Z.min n b.
Definition resolveEnd (e : option Z) (n : Z) : Z :=
  match e with None => n | Some e => if e <? 0 then Z.max 0 (n + e) else Z.min n e end.
Definition slice (e : List) (b : Z) (end_ : option Z) : List :=
  if wholeSlice b end_ (size e) then e else setListBounds e (resolveBegin b (size e)) (Some (resolveEnd end_ (size e))).

(** List of an array. *)
Definition fromArray (l : list (option V)) : List :=
  let r := zlen l in
  if r =? 0 then emptyList
  else if r <? 32 then MkList 0 r 1 SU (SN (map (fun v => match v with Some v => SV v | None => SU end) l))
  else set_all (setSize emptyList r) 0 l.

End List.
End ImmutableList.
