(* ===== verification/ImmutableListOk.v ===== *)
(** * Immutable.List is a list

    Proves that the operations of ImmutableList are those of lists, as long as no undefined values
    are stored: get, set, push, pop, shift, unshift and slice; and states where the code goes
    wrong, with elements that come back after they have been dropped. *)

From S2P Require Import Prelude.
From S2P Require Import ImmutableList.
From Stdlib Require Import ZArith Lia.
From stdpp Require Import base numbers list option.
Open Scope Z_scope.

Module ImmutableListOk.
Import ImmutableList.

(** ** Digits of positions *)

Definition B (k : nat) : Z := 32 ^ Z.of_nat k.
Definition dg (k : nat) (i : Z) : Z := (i / B k) mod 32.
Definition low (k : nat) (i : Z) : Z := i mod B (S k).

Lemma B_S k : B (S k) = 32 * B k.
Proof. unfold B. rewrite Nat2Z.inj_succ, Z.pow_succ_r by lia. done. Qed.
Lemma B_pos k : 0 < B k.
Proof. unfold B. apply Z.pow_pos_nonneg; lia. Qed.
Lemma B_32 k : 32 <= B (S k).
Proof. rewrite B_S. assert (H := B_pos k). lia. Qed.
Lemma B_mono k k' : (k <= k')%nat -> B k <= B k'.
Proof. intros H. unfold B. apply Z.pow_le_mono_r; lia. Qed.

Lemma dg_range k i : 0 <= dg k i < 32.
Proof. apply Z.mod_pos_bound. lia. Qed.
Lemma low_bound k i : 0 <= low k i < B (S k).
Proof. apply Z.mod_pos_bound, B_pos. Qed.
Lemma low_S k i : low (S k) i = low k i + B (S k) * dg (S k) i.
Proof.
  unfold low, dg. rewrite (B_S (S k)), (Z.mul_comm 32). assert (H := B_pos (S k)). apply Z.rem_mul_r; lia.
Qed.
Lemma low_last i : low 0 i = dg 0 i.
Proof. unfold low, dg, B. cbn. by rewrite Z.div_1_r. Qed.
Lemma low_small k i : 0 <= i < B (S k) -> low k i = i.
Proof. apply Z.mod_small. Qed.

Lemma low_S_eq k i j : low (S k) i = low (S k) j <-> dg (S k) i = dg (S k) j /\ low k i = low k j.
Proof.
  rewrite !low_S. assert (Hi := low_bound k i). assert (Hj := low_bound k j). split; [|intros [-> ->]; done].
  intros H. assert (dg (S k) i = dg (S k) j) by nia. split; [done|]. nia.
Qed.
Lemma low_S_le k i j : low (S k) i <= low (S k) j <-> dg (S k) i < dg (S k) j \/ (dg (S k) i = dg (S k) j /\ low k i <= low k j).
Proof.
  rewrite !low_S. assert (Hi := low_bound k i). assert (Hj := low_bound k j). split; [|intros [H|[-> H]]; nia].
  intros H. destruct (Z.lt_trichotomy (dg (S k) i) (dg (S k) j)) as [?|[E|?]]; [by left|right|exfalso; nia]. rewrite E in *. split; [done|lia].
Qed.

(** The digits above the last one. *)
Definition hi (k : nat) (i : Z) : Z := (i / 32) mod B k.
Lemma hi_S k i : hi (S k) i = hi k i + B k * dg (S k) i.
Proof.
  unfold hi, dg. assert (H := B_pos k). rewrite B_S, (Z.mul_comm 32), Z.rem_mul_r by lia. rewrite (Z.mul_comm (B k) 32). by rewrite <- Z.div_div by lia.
Qed.
Lemma hi_S_eq k i j : hi (S k) i = hi (S k) j <-> dg (S k) i = dg (S k) j /\ hi k i = hi k j.
Proof.
  rewrite !hi_S. assert (Hb := B_pos k). assert (Hi := Z.mod_pos_bound (i / 32) (B k) Hb). assert (Hj := Z.mod_pos_bound (j / 32) (B k) Hb). fold (hi k i) in Hi. fold (hi k j) in Hj.
  split; [|intros [-> ->]; done]. intros H. assert (dg (S k) i = dg (S k) j) by nia. split; [done|nia].
Qed.
Lemma hi_small k i : 0 <= i < B (S k) -> hi k i = i / 32.
Proof. intros H. apply Z.mod_small. rewrite B_S in H. split; [apply Z.div_pos; lia|apply Z.div_lt_upper_bound; lia]. Qed.

(** ** The operators of the language on positions *)

Definition pos (i : Z) : Prop := 0 <= i < 2 ^ 31.

Lemma pow_bits k : 2 ^ bits k = B k.
Proof. unfold bits, B. by rewrite Z.pow_mul_r by lia. Qed.

Lemma digit_dg k i : pos i -> (k <= 6)%nat -> digit k i = dg k i.
Proof.
  unfold pos. intros Hi Hk. unfold digit, dg. rewrite js_ushr_div by (unfold pow32, bits; lia). rewrite pow_bits. by apply (js_and_ones _ 5).
Qed.

Lemma ushr_dg k i j : pos i -> (k <= 6)%nat -> dg k j = js_ushr i (bits k) -> dg k j = dg k i.
Proof.
  unfold pos. intros Hi Hk. rewrite js_ushr_div by (unfold pow32, bits; lia). rewrite pow_bits. intros E. unfold dg at 2. rewrite <- E.
  symmetry. apply Z.mod_small, dg_range.
Qed.

Lemma shl_B k : (k <= 5)%nat -> js_shl 1 (bits k + 5) = B (S k).
Proof. intros H. do 6 (destruct k as [|k]; [by vm_compute|]). lia. Qed.
Lemma shl_B' k : (k <= 6)%nat -> js_shl 1 (bits k) = B k.
Proof. intros H. do 7 (destruct k as [|k]; [by vm_compute|]). lia. Qed.

(** The position of the tail. *)
Lemma tail_offset e : 1 <= e < 2 ^ 31 -> getTailOffset e = 32 * ((e - 1) / 32).
Proof.
  intros He. unfold getTailOffset. destruct (Z.ltb_spec e 32); [rewrite Z.div_small by lia; done|]. assert (Hd := Z.mul_div_le (e - 1) 32). assert (H0 : 0 <= (e - 1) / 32) by (apply Z.div_pos; lia).
  rewrite js_ushr_div by (unfold pow32; lia). change (2 ^ 5) with 32. rewrite js_shl_mul; change (2 ^ 5) with 32; unfold pow31; lia.
Qed.
Lemma tail_bounds e : 1 <= e < 2 ^ 31 -> exists q, getTailOffset e = 32 * q /\ 0 <= q /\ 32 * q < e <= 32 * q + 32.
Proof.
  intros He. rewrite tail_offset by done. exists ((e - 1) / 32). assert (H := Z.div_mod (e - 1) 32). assert (H' := Z.mod_pos_bound (e - 1) 32).
  split; [done|]. split; [apply Z.div_pos; lia|lia].
Qed.

(** ** Reading through the levels *)

Section Ok.
Context {V : Type}.
Notation slot := (@slot V).
Notation List := (@List V).

Definition look (k : nat) (e : slot) (i : Z) : slot := at_ (arr (descend k e i)) (digit 0 i).

Lemma at_nil i : at_ (V := V) [] i = SU.
Proof. unfold at_. by rewrite lookup_nil. Qed.

Lemma at_put (a : list slot) i j x : 0 <= i -> 0 <= j -> at_ (put_at a i x) j = if decide (i = j) then x else at_ a j.
Proof.
  intros Hi Hj. unfold at_, put_at. destruct (decide (Z.to_nat i < length a)%nat) as [Hl|Hl].
  - destruct (decide (i = j)) as [->|Hij]; [by rewrite list_lookup_insert_eq|]. rewrite list_lookup_insert_ne; [done|lia].
  - destruct (decide (i = j)) as [->|Hij].
    + rewrite lookup_app_r by lia. rewrite lookup_app_r by (rewrite length_replicate; lia). rewrite length_replicate. by replace (_ - _ - _)%nat with 0%nat by lia.
    + destruct (decide (Z.to_nat j < length a)%nat); [by rewrite lookup_app_l by lia|]. rewrite lookup_app_r by lia. rewrite (lookup_ge_None_2 a) by lia.
      destruct (decide (Z.to_nat j < Z.to_nat i)%nat).
      * rewrite lookup_app_l by (rewrite length_replicate; lia). rewrite lookup_replicate_2 by lia. done.
      * rewrite lookup_ge_None_2; [done|]. rewrite length_app, length_replicate. cbn. lia.
Qed.

Lemma descend_SU k i : descend k (SU : slot) i = SU.
Proof. by destruct k. Qed.
Lemma look_SU k i : look k (SU : slot) i = SU.
Proof. unfold look. rewrite descend_SU. apply at_nil. Qed.

Lemma descend_S k (e : slot) i : descend (S k) e i = descend k (at_ (arr e) (digit (S k) i)) i \/ (e = SU /\ descend (S k) e i = SU).
Proof. destruct e; [right; done|left; done|left; done]. Qed.
Lemma look_S k (e : slot) i : look (S k) e i = look k (at_ (arr e) (digit (S k) i)) i.
Proof.
  unfold look. destruct (descend_S k e i) as [->|[-> ->]]; [done|]. cbn [arr]. by rewrite at_nil, descend_SU.
Qed.
Lemma look_0 (e : slot) i : look 0 e i = at_ (arr e) (digit 0 i).
Proof. done. Qed.

(** Nothing is found in a node without elements. *)
Lemma look_empty k (e : slot) i : filled e = false -> look k e i = SU.
Proof.
  intros H. assert (Ha : arr e = []) by (destruct e as [|v|[|]]; done). destruct k as [|k]; [rewrite look_0, Ha; apply at_nil|]. rewrite look_S, Ha, at_nil. apply look_SU.
Qed.

(** Only the digits count. *)
Lemma look_low k (e : slot) i j : pos i -> pos j -> (k <= 6)%nat -> low k i = low k j -> look k e i = look k e j.
Proof.
  intros Hi Hj. revert e. induction k as [|k IH]; intros e Hk H.
  - rewrite !look_0, !digit_dg, <- !low_last, H by (done || lia). done.
  - apply low_S_eq in H as [Hd Hl]. rewrite !look_S, !(digit_dg (S k)), Hd by (done || lia). apply IH; [lia|done].
Qed.

(** ** Writing *)

Lemma update_present k (e : slot) r v : present (updateVNode k e r (Some v)) = true.
Proof.
  revert e. induction k as [|k IH]; intros e; cbn [updateVNode]; [by destruct (present e && _)|].
  rewrite IH, orb_true_r. by destruct (present e && _).
Qed.

Lemma look_update k (e : slot) r v i : pos i -> pos r -> (k <= 6)%nat ->
  look k (updateVNode k e r (Some v)) i = if decide (low k i = low k r) then SV v else look k e i.
Proof.
  intros Hi Hr. revert e. induction k as [|k IH]; intros e Hk.
  - assert (E : updateVNode 0 e r (Some v) = SN (put_at (arr e) (digit 0 r) (SV v))) by (cbn; by destruct (present e && _)).
    rewrite E, !look_0. cbn [arr]. rewrite !digit_dg by (done || lia). rewrite at_put by apply dg_range. rewrite !low_last.
    destruct (decide (dg 0 r = dg 0 i)), (decide (dg 0 i = dg 0 r)); congruence.
  - assert (E : updateVNode (S k) e r (Some v) = SN (put_at (arr e) (digit (S k) r) (updateVNode k (at_ (arr e) (digit (S k) r)) r (Some v)))).
    { cbn [updateVNode]. rewrite update_present, orb_true_r. by destruct (present e && _). }
    rewrite E, !look_S. cbn [arr]. rewrite !(digit_dg (S k)) by (done || lia). rewrite at_put by apply dg_range.
    destruct (decide (dg (S k) r = dg (S k) i)) as [Hd|Hd].
    + rewrite IH by lia. rewrite Hd. destruct (decide (low k i = low k r)), (decide (low (S k) i = low (S k) r)) as [H|H]; try done; rewrite low_S_eq in H; exfalso; naive_solver.
    + rewrite decide_False; [done|]. rewrite low_S_eq. intros [? _]. congruence.
Qed.

(** ** Dropping positions keeps the others *)

Lemma at_cleared (a : list slot) r j : 0 <= r <= j -> at_ (replicate (Z.to_nat r) SU ++ drop (Z.to_nat r) a) j = at_ a j.
Proof.
  intros H. unfold at_. rewrite lookup_app_r by (rewrite length_replicate; lia). rewrite length_replicate, lookup_drop. f_equal. f_equal. lia.
Qed.
Lemma at_take (a : list slot) o j : 0 <= j <= o -> at_ (take (Z.to_nat o + 1) a) j = at_ a j.
Proof. intros H. unfold at_. by rewrite lookup_take_lt by lia. Qed.
Lemma at_beyond (a : list slot) j : zlen a <= j -> at_ a j = SU.
Proof. unfold zlen, at_. intros H. by rewrite lookup_ge_None_2 by lia. Qed.

(** What is found below a node, when the node at [r] has been replaced by one in which the same is
    found, and the nodes from [r] on have been kept otherwise. *)
Lemma look_child k (a u : list slot) r (o : slot) i :
  0 <= r -> pos i -> (S k <= 6)%nat -> at_ u (dg (S k) i) = at_ a (dg (S k) i) ->
  (present o = true -> dg (S k) i = r -> look k o i = look k (at_ a r) i) ->
  look (S k) (SN (if present o then put_at u r o else u)) i = look (S k) (SN a) i.
Proof.
  intros Hr Hi Hk Hu Ho. rewrite !look_S. cbn [arr]. rewrite !digit_dg by (done || lia). destruct (present o) eqn:E; [|by rewrite Hu].
  rewrite at_put by (done || apply dg_range). destruct (decide (r = dg (S k) i)) as [->|]; [by apply Ho|by rewrite Hu].
Qed.

Lemma look_removeBefore k : forall (a : list slot) n i, pos n -> pos i -> (k <= 6)%nat -> low k n <= low k i ->
  look k (SN (removeBefore k a n)) i = look k (SN a) i.
Proof.
  induction k as [|k IH]; intros a n i Hn Hi Hk Hl; cbn [removeBefore]; destruct (if n =? _ then _ else _); try done; rewrite digit_dg by (done || lia).
  - rewrite !low_last in Hl. destruct (Z.leb_spec (zlen a) (dg 0 n)).
    { rewrite !look_0. cbn [arr]. rewrite digit_dg by (done || lia). by rewrite at_nil, at_beyond by lia. }
    cbn [present negb]. rewrite andb_true_r. destruct (dg 0 n =? 0); [done|]. rewrite !look_0. cbn [arr]. rewrite digit_dg by (done || lia). apply at_cleared. assert (Hr := dg_range 0 n). lia.
  - apply low_S_le in Hl. assert (Hr := dg_range (S k) n). assert (Hle : dg (S k) n <= dg (S k) i) by lia. destruct (Z.leb_spec (zlen a) (dg (S k) n)).
    { rewrite !look_S. cbn [arr]. rewrite digit_dg by (done || lia). by rewrite at_nil, at_beyond by lia. }
    set (o := match at_ a (dg (S k) n) with SN x => SN (removeBefore k x n) | _ => SU end).
    destruct ((dg (S k) n =? 0) && negb (present o)); [done|]. apply look_child; [lia|done|lia|destruct (dg (S k) n =? 0); [done|apply at_cleared; lia]|].
    intros Hp Hd. subst o. destruct (at_ a (dg (S k) n)) as [|v|x]; [done|done|]. apply IH; [done|done|lia|]. destruct Hl as [?|[_ ?]]; [lia|done].
Qed.

Lemma look_removeAfter k : forall (a : list slot) n i, pos (n - 1) -> pos i -> (k <= 6)%nat -> low k i <= low k (n - 1) ->
  look k (SN (removeAfter k a n)) i = look k (SN a) i.
Proof.
  induction k as [|k IH]; intros a n i Hn Hi Hk Hl; cbn [removeAfter]; destruct (_ || _); try done; rewrite digit_dg by (done || lia).
  - rewrite !low_last in Hl. destruct (Z.leb_spec (zlen a) (dg 0 (n - 1))); [done|]. cbn [present]. rewrite !look_0. cbn [arr]. rewrite digit_dg by (done || lia).
    apply at_take. assert (Hr := dg_range 0 i). lia.
  - apply low_S_le in Hl. assert (Hr := dg_range (S k) i). assert (Hle : dg (S k) i <= dg (S k) (n - 1)) by lia. destruct (Z.leb_spec (zlen a) (dg (S k) (n - 1))); [done|].
    set (o := match at_ a (dg (S k) (n - 1)) with SN x => SN (removeAfter k x n) | _ => SU end). apply look_child; [lia|done|lia|apply at_take; lia|].
    intros Hp Hd. subst o. destruct (at_ a (dg (S k) (n - 1))) as [|v|x]; [done|done|]. apply IH; [done|done|lia|]. destruct Hl as [?|[_ ?]]; [lia|done].
Qed.

(** ** Adding levels *)

Lemma look_grow_back k (l : slot) i : 0 <= i < B (S k) -> pos i -> (S k <= 6)%nat -> look (S k) (SN (if filled l then [l] else [])) i = look k l i.
Proof.
  intros Hi Hp Hk. rewrite look_S. cbn [arr]. rewrite digit_dg by (done || lia). assert (dg (S k) i = 0) as -> by (unfold dg; by rewrite Z.div_small).
  destruct (filled l) eqn:E; [done|]. by rewrite at_nil, look_SU, look_empty.
Qed.

Lemma dg_add k i : 0 <= i < B k -> dg k (i + B k) = 1.
Proof. intros H. unfold dg. assert (Hb := B_pos k). replace (i + B k) with (i + 1 * B k) by lia. rewrite Z.div_add by lia. by rewrite Z.div_small. Qed.
Lemma low_add k i c : low k (i + c * B (S k)) = low k i.
Proof. unfold low. assert (Hb := B_pos (S k)). by rewrite Z.mod_add by lia. Qed.

Lemma look_grow_front k (l : slot) i : 0 <= i < B (S k) -> pos (i + B (S k)) -> (S k <= 6)%nat ->
  look (S k) (SN (if filled l then [SU; l] else [])) (i + B (S k)) = look k l i.
Proof.
  intros Hi Hp Hk. assert (Hpi : pos i) by (unfold pos in *; assert (Hb := B_pos (S k)); lia).
  rewrite look_S. cbn [arr]. rewrite digit_dg, dg_add by (done || lia). destruct (filled l) eqn:E; [|by rewrite at_nil, look_SU, look_empty].
  change (look k l (i + B (S k)) = look k l i). apply look_low; [done|done|lia|]. rewrite <- (low_add k i 1). f_equal. lia.
Qed.

(** ** The tail becomes a node *)

Lemma descend_hi k : forall (l : slot) i j, pos i -> pos j -> (k <= 6)%nat -> hi k i = hi k j -> descend k l i = descend k l j.
Proof.
  induction k as [|k IH]; intros l i j Hi Hj Hk H; [done|]. apply hi_S_eq in H as [Hd Hh]. cbn [descend]. rewrite !digit_dg, Hd by (done || lia).
  destruct (present l); [|done]. apply IH; (done || lia).
Qed.

Lemma look_put_tail k : forall (l : slot) f d i, pos i -> pos f -> (1 <= k <= 6)%nat ->
  look k (put_tail k l f d) i = if decide (hi k i = hi k f) then at_ (arr d) (digit 0 i) else look k l i.
Proof.
  induction k as [|k IH]; intros l f d i Hi Hf Hk; [lia|].
  assert (H0 : hi 0 i = hi 0 f) by (unfold hi, B; cbn; by rewrite !Z.mod_1_r).
  assert (E : put_tail (S k) l f d = SN (put_at (arr l) (digit (S k) f) (match k with O => d | S _ => put_tail k (at_ (arr l) (digit (S k) f)) f d end))) by by destruct k.
  rewrite E, !look_S. cbn [arr]. rewrite !(digit_dg (S k)) by (done || lia). rewrite at_put by apply dg_range.
  destruct (decide (dg (S k) f = dg (S k) i)) as [Hd|Hd].
  - destruct k as [|k]; [rewrite decide_True by (apply hi_S_eq; done); done|]. rewrite IH by (done || lia). rewrite Hd.
    destruct (decide (hi (S k) i = hi (S k) f)), (decide (hi (S (S k)) i = hi (S (S k)) f)) as [H|H]; try done; rewrite hi_S_eq in H; exfalso; naive_solver.
  - rewrite decide_False; [done|]. rewrite hi_S_eq. intros [? _]. congruence.
Qed.

(** ** Dropping levels *)

(** Between two positions with the same digits above [k], all have them. *)
Lemma between k a p c i : a - c = low k a -> p - c = low k p -> a <= i < p -> i - c = low k i.
Proof.
  intros Ha Hp Hi. assert (Hb := B_pos (S k)). assert (Hla := low_bound k a). assert (Hlp := low_bound k p). unfold low in *.
  assert (E := Z.div_mod a (B (S k))). replace i with ((i - c) + (a / B (S k)) * B (S k)) at 2 by lia.
  rewrite Z.mod_add by lia. symmetry. apply Z.mod_small. lia.
Qed.
Lemma between_dg k a p c i :
  a - c = low (S k) a -> p - c = low (S k) p -> a <= i < p -> dg (S k) a = dg (S k) p -> dg (S k) i = dg (S k) a.
Proof.
  intros Ha Hp Hi Hd. assert (H := between (S k) a p c i Ha Hp Hi). rewrite low_S in *. rewrite <- Hd in Hp.
  assert (Hla := low_bound k a). assert (Hlp := low_bound k p). assert (Hli := low_bound k i). nia.
Qed.

Lemma narrow_spec k : forall (l : slot) a p c k' l' c',
  narrow k l a p c = (k', l', c') -> pos a -> pos p -> (k <= 6)%nat -> a < p -> p mod 32 = 0 -> a - c = low k a -> p - c = low k p -> c mod 32 = 0 ->
  (1 <= k' <= k)%nat /\ a - c' = low k' a /\ p - c' = low k' p /\ c' mod 32 = 0 /\
  forall i, a <= i < p -> i - c' = low k' i /\ look k' l' i = look k l i.
Proof.
  induction k as [|k IH]; intros l a p c k' l' c' E Ha Hp Hk Hap Hp32 Hac Hpc Hc; cbn [narrow] in E.
  { exfalso. unfold low in *. change (B 1) with 32 in *. assert (H := Z.mod_pos_bound a 32). lia. }
  rewrite !digit_dg in E by (done || lia). destruct (present l && (dg (S k) a =? js_ushr p (bits (S k)))) eqn:Eq.
  - apply andb_true_iff in Eq as [Hl Hd%Z.eqb_eq]. apply ushr_dg in Hd; [|done|done]. rewrite shl_B' in E by lia. assert (HS := low_S k a). assert (HSp := low_S k p). rewrite <- Hd in HSp.
    destruct (IH _ _ _ _ _ _ _ E Ha Hp) as (H1 & H2 & H3 & H4 & H5); [clear -Hk; lia|done|done|lia|lia| |].
    { rewrite B_S. replace (c + 32 * B k * dg (S k) a) with (c + (B k * dg (S k) a) * 32) by lia. by rewrite Z.mod_add by lia. }
    split_and!; [lia|lia|done|done|done|]. intros i Hi. destruct (H5 i Hi) as [H6 ->]. split; [done|]. rewrite look_S, digit_dg by (lia || (unfold pos in *; lia)).
    by rewrite (between_dg k a p c i Hac Hpc Hi Hd).
  - injection E as <- <- <-. split_and!; [lia|lia|done|done|done|]. intros i Hi. split; [by apply (between _ a p)|done].
Qed.

(** ** The positions of a list *)

(** What is at a position. *)
Definition val (e : List) (i : Z) : slot := if getTailOffset (_capacity e) <=? i then at_ (arr (_tail e)) (digit 0 i) else look (_level e) (_root e) i.

Definition bounds (e : List) : Prop :=
  0 <= _origin e <= _capacity e /\ _capacity e < 2 ^ 31 /\ (1 <= _level e <= 5)%nat /\ getTailOffset (_capacity e) < B (S (_level e)).

Lemma and_digit i : pos i -> js_and i 31 = digit 0 i.
Proof. intros H. unfold digit, js_ushr, bits, to_uint32. change (_ mod 32) with 0. rewrite Z.shiftr_0_r, Z.mod_small; [done|]. unfold pos, pow32 in *. lia. Qed.

Lemma get_val e t : bounds e -> 0 <= t < size e -> get e t = val e (t + _origin e).
Proof.
  intros (Ho & Hc & Hl & Ht) Hs. unfold size in Hs. unfold get, wrapIndex, size, val, listNodeFor, look. destruct (Z.ltb_spec t 0); [lia|].
  destruct (Z.leb_spec 0 t); [|lia]. destruct (Z.ltb_spec t (_capacity e - _origin e)); [|lia]. cbn [andb]. rewrite and_digit by (unfold pos; lia).
  destruct (Z.leb_spec (getTailOffset (_capacity e)) (t + _origin e)); [done|]. rewrite shl_B by lia. destruct (Z.ltb_spec (t + _origin e) (B (S (_level e)))); [done|lia].
Qed.

Lemma tail_range e i : bounds e -> _origin e <= i < _capacity e -> getTailOffset (_capacity e) <= i -> exists q, getTailOffset (_capacity e) = 32 * q /\ 32 * q <= i < 32 * q + 32.
Proof. intros (Ho & Hc & _) Hi Ht. destruct (tail_bounds (_capacity e)) as (q & E & Hq & Hq'); [lia|]. exists q. split; [done|]. lia. Qed.

Lemma low_0_inj q i j : 32 * q <= i < 32 * q + 32 -> 32 * q <= j < 32 * q + 32 -> low 0 i = low 0 j -> i = j.
Proof. intros Hi Hj. unfold low. change (B 1) with 32. assert (Ei := Z.div_mod i 32). assert (Ej := Z.div_mod j 32). assert (Hmi := Z.mod_pos_bound i 32). assert (Hmj := Z.mod_pos_bound j 32). lia. Qed.

Lemma set_val e t v i :
  bounds e -> 0 <= t < size e -> _origin e <= i < _capacity e ->
  val (set_in_range e t (Some v)) i = if decide (i = t + _origin e) then SV v else val e i.
Proof.
  intros Hb Ht Hi. destruct (Hb) as (Ho & Hc & Hl & Htl). unfold size in Ht. unfold set_in_range. set (r := t + _origin e).
  assert (Hr : _origin e <= r < _capacity e) by lia. assert (Hpr : pos r) by (unfold pos; lia). assert (Hpi : pos i) by (unfold pos; lia).
  destruct (Z.leb_spec (getTailOffset (_capacity e)) r) as [Hrt|Hrt]; unfold val; cbn [_capacity _tail _root _level]; destruct (Z.leb_spec (getTailOffset (_capacity e)) i) as [Hit|Hit].
  - change (at_ (arr (updateVNode 0 (_tail e) r (Some v))) (digit 0 i)) with (look 0 (updateVNode 0 (_tail e) r (Some v)) i). rewrite look_update by (done || lia).
    destruct (tail_range e i Hb Hi Hit) as (q & Eq & Hqi), (tail_range e r Hb Hr Hrt) as (q' & Eq' & Hqr). assert (q' = q) as -> by lia.
    destruct (decide (i = r)) as [->|Hir]; [by rewrite decide_True|]. rewrite decide_False; [done|]. intros E. by apply Hir, (low_0_inj q).
  - rewrite decide_False by lia. done.
  - rewrite decide_False by lia. done.
  - rewrite look_update by (done || lia). rewrite !low_small by lia. done.
Qed.

(** ** The end of setListBounds *)

Lemma look_on k b (f : list slot -> list slot) (l : slot) i :
  (forall a, look k (SN (f a)) i = look k (SN a) i) -> look k (on_if b f l) i = look k l i.
Proof. intros H. unfold on_if, on_node. destruct b; [|done]. destruct l; [done|done|apply H]. Qed.

Lemma digit_shift i c : pos i -> pos (i - c) -> c mod 32 = 0 -> digit 0 (i - c) = digit 0 i.
Proof.
  intros Hi Hc H. rewrite !digit_dg by (done || lia). rewrite <- !low_last. unfold low. change (B 1) with 32. apply Z.mod_divide in H as [q ->]; [|lia].
  replace (i - q * 32) with (i + (- q) * 32) by lia. by rewrite Z.mod_add by lia.
Qed.

Lemma tail_shift u c : 1 <= u < 2 ^ 31 -> 1 <= u - c < 2 ^ 31 -> c mod 32 = 0 -> getTailOffset (u - c) = getTailOffset u - c.
Proof.
  intros Hu Hc H. rewrite !tail_offset by done. apply Z.mod_divide in H as [q ->]; [|lia]. replace (u - q * 32 - 1) with (u - 1 + (- q) * 32) by lia.
  rewrite Z.div_add by lia. lia.
Qed.

Lemma div32 q x : 32 * q <= x < 32 * q + 32 -> x / 32 = q.
Proof. intros H. symmetry. apply (Z.div_unique x 32 q (x - 32 * q)); lia. Qed.

Lemma mod_mult32 q : (32 * q) mod 32 = 0.
Proof. rewrite Z.mul_comm. apply Z.mod_mul. lia. Qed.

Section Trim.
Context (s : nat) (l h : slot) (a o u i : Z) (w : Z -> slot).
Notation p := (getTailOffset u).
Context (Ha : 0 <= a < u) (Hu : u < 2 ^ 31) (Hs : (1 <= s <= 5)%nat) (Hp : p < B (S s)).
Context (Ht : forall j, a <= j < u -> o <= j < i -> j < p -> look s l j = w j).
Context (Hh : forall j, a <= j < u -> o <= j < i -> p <= j -> at_ (arr h) (digit 0 j) = w j).

Definition trimmed (e : List) : Prop :=
  exists off, _origin e = a + off /\ _capacity e = u + off /\ bounds e /\ forall j, a <= j < u -> o <= j < i -> val e (j + off) = w j.

Lemma trim_tail j (b : bool) : a <= j < u -> p <= j -> look 0 (on_if b (fun x => removeAfter 0 x u) h) j = look 0 h j.
Proof.
  intros Hj Hpj. destruct (tail_bounds u) as (q & E & Hq & Hqu); [lia|]. apply look_on. intros x. apply look_removeAfter; [unfold pos; lia|unfold pos; lia|lia|].
  unfold low. change (B 1) with 32. rewrite !(Z.mod_eq _ 32) by lia. rewrite (div32 q j), (div32 q (u - 1)); lia.
Qed.

Lemma trim_all_tail b : p <= a -> trimmed (MkList (a - p) (u - p) 1 SU (on_node (fun x => removeBefore 0 x (a - p)) (on_if b (fun x => removeAfter 0 x u) h))).
Proof.
  intros Hpa. destruct (tail_bounds u) as (q & E & Hq & Hqu); [lia|]. exists (- p). cbn [_origin _capacity].
  assert (E0 : getTailOffset (u - p) = 0) by (rewrite tail_shift; [lia|lia|lia|rewrite E; apply mod_mult32]).
  split; [lia|]. split; [lia|]. split; [unfold bounds; cbn [_origin _capacity _level]; rewrite E0; assert (Hb := B_pos 2); lia|].
  intros j Hj Hoj. unfold val. cbn [_capacity _tail _level _root]. rewrite E0. destruct (Z.leb_spec 0 (j + - p)); [|lia].
  change (look 0 (on_if true (fun x => removeBefore 0 x (a - p)) (on_if b (fun x => removeAfter 0 x u) h)) (j - p) = w j).
  rewrite look_on. 2:{ intros x. apply look_removeBefore; [unfold pos; lia|unfold pos; lia|lia|]. rewrite !low_small; [lia|..]; change (B 1) with 32; lia. }
  rewrite look_0, digit_shift, <- look_0 by (unfold pos; lia || (rewrite E; apply mod_mult32)). rewrite trim_tail by lia. rewrite look_0. apply Hh; lia.
Qed.

Lemma trim_plain b : a < p -> trimmed (MkList a u s l (on_if b (fun x => removeAfter 0 x u) h)).
Proof.
  intros Hap. exists 0. cbn [_origin _capacity]. split; [lia|]. split; [lia|]. split; [unfold bounds; cbn [_origin _capacity _level]; lia|].
  intros j Hj Hoj. rewrite Z.add_0_r. unfold val. cbn [_capacity _tail _level _root]. destruct (Z.leb_spec p j); [|by apply Ht].
  rewrite <- look_0, trim_tail by lia. by apply Hh.
Qed.

Lemma trim_narrow b b1 b2 k' l' c' : a < p -> narrow s l a p 0 = (k', l', c') ->
  trimmed (MkList (a - c') (u - c') k' (on_if b2 (fun x => removeAfter k' x (p - c')) (on_if b1 (fun x => removeBefore k' x (a - c')) l')) (on_if b (fun x => removeAfter 0 x u) h)).
Proof.
  intros Hap En. destruct (tail_bounds u) as (q & E & Hq & Hqu); [lia|].
  destruct (narrow_spec s l a p 0 k' l' c' En) as (Hk & Hac & Hpc & Hc & Hn);
    [unfold pos; lia|unfold pos; lia|lia|done|rewrite E; apply mod_mult32|rewrite low_small; lia|rewrite low_small; lia|done|].
  assert (Hla := low_bound k' a). assert (Hlp := low_bound k' p). assert (Hc0 : low k' a <= a) by (apply Z.mod_le; [lia|apply B_pos]).
  assert (E0 : getTailOffset (u - c') = p - c') by (apply tail_shift; [lia|lia|done]).
  exists (- c'). cbn [_origin _capacity]. split; [lia|]. split; [lia|]. split; [unfold bounds; cbn [_origin _capacity _level]; rewrite E0; lia|].
  intros j Hj Hoj. unfold val. cbn [_capacity _tail _level _root]. rewrite E0. replace (j + - c') with (j - c') by lia. destruct (Z.leb_spec (p - c') (j - c')).
  - rewrite digit_shift by (unfold pos; lia || done). rewrite <- look_0, trim_tail by lia. apply Hh; lia.
  - destruct (Hn j) as [Hjc Hlk]; [lia|]. assert (Hlj := low_bound k' j). assert (Hsm : forall x, 0 <= x < B (S k') -> low k' x = x) by (intros; by apply low_small).
    rewrite look_on. 2:{ intros x. apply look_removeAfter; [unfold pos; lia|unfold pos; lia|lia|]. rewrite !Hsm; lia. }
    rewrite look_on. 2:{ intros x. apply look_removeBefore; [unfold pos; lia|unfold pos; lia|lia|]. rewrite !Hsm; lia. }
    rewrite (look_low k' l' (j - c') j); [rewrite Hlk; apply Ht; lia|unfold pos; lia|unfold pos; lia|lia|]. rewrite Hsm; lia.
Qed.

Lemma trim_spec : trimmed (trim s l h a o u i).
Proof.
  unfold trim. destruct (Z.leb_spec p a); [by apply trim_all_tail|]. destruct ((o <? a) || (p <? getTailOffset i)); [|by apply trim_plain].
  destruct (narrow s l a p 0) as [[k' l'] c'] eqn:E. by apply trim_narrow.
Qed.

End Trim.

(** ** setListBounds *)

Definition defined (e : List) : Prop := forall j, _origin e <= j < _capacity e -> exists v, val e j = SV v.

(** The result has the bounds [a] and [u], in the positions of [e], and the elements of [e] that
    are between them. *)
Definition kept (e : List) (a u : Z) (e' : List) : Prop := trimmed a (_origin e) u (_capacity e) (val e) e'.

Lemma B_room k : (1 <= k)%nat -> 1024 <= B (S k) /\ B (S k) mod 32 = 0.
Proof. intros H. split; [change 1024 with (B 2); apply B_mono; lia|]. rewrite B_S. apply mod_mult32. Qed.

Lemma capacity_room e : bounds e -> _capacity e <= B (S (_level e)) /\ (0 < _capacity e -> exists q, getTailOffset (_capacity e) = 32 * q /\ 0 <= q /\ 32 * q < _capacity e <= 32 * q + 32).
Proof.
  intros (Ho & Hc & Hl & Ht). destruct (B_room (_level e)) as [Hr Hm]; [lia|]. split.
  - destruct (Z.eq_dec (_capacity e) 0); [lia|]. destruct (tail_bounds (_capacity e)) as (q & E & Hq & Hu); [lia|]. apply Z.mod_divide in Hm as [x Hx]; lia.
  - intros Hp. apply tail_bounds. lia.
Qed.

Lemma grow_back_spec p k (l : slot) s l' :
  grow_back 8 p k l = (s, l') -> (1 <= k <= 4)%nat -> 0 <= p < B (S (S k)) ->
  (k <= s <= 5)%nat /\ p < B (S s) /\ (p < B (S k) -> s = k /\ l' = l) /\ forall j, 0 <= j < B (S k) -> look s l' j = look k l j.
Proof.
  intros E Hk Hp. cbn [grow_back] in E. rewrite (shl_B k) in E by lia. destruct (Z.leb_spec (B (S k)) p) as [H|H]; [|injection E as <- <-; split_and!; (done || lia)].
  rewrite (shl_B (S k)) in E by lia. destruct (Z.leb_spec (B (S (S k))) p); [lia|]. injection E as <- <-. split_and!; [lia|lia|done|lia|].
  intros j Hj. apply look_grow_back; [done| |lia]. unfold pos. assert (Hm := B_mono (S k) 6). change (B 6) with (2 ^ 30) in Hm. lia.
Qed.

Lemma int32_id t : - 2 ^ 31 <= t < 2 ^ 31 -> to_int32 t = t.
Proof. apply to_int32_small. Qed.

(** New positions at the front. *)
Lemma extend_front e t : bounds e -> (_level e <= 4)%nat -> -1024 <= t -> _origin e + t < 0 -> _capacity e < 2 ^ 29 ->
  kept e (_origin e + t) (_capacity e) (setListBounds e t None).
Proof.
  intros Hb Hk Ht Ha Hsm. destruct (Hb) as (Ho & Hc & Hl & Htl). destruct (capacity_room e Hb) as [Hcap Hq]. destruct (B_room (_level e)) as [HB HB32]; [lia|].
  assert (HB5 := B_mono (S (_level e)) 5). change (B 5) with (2 ^ 25) in HB5. set (k := _level e) in *. set (c := B (S k)) in *.
  unfold setListBounds. rewrite int32_id by lia. cbn [option_map]. destruct (Z.eqb_spec (_origin e + t) (_origin e)); [lia|]. cbn [andb]. destruct (Z.leb_spec (_capacity e) (_origin e + t)); [lia|].
  fold k. assert (Ef : grow_front 8 (_origin e + t) k (_root e) 0 = (S k, SN (if filled (_root e) then [SU; _root e] else []), c)).
  { cbn [grow_front]. destruct (Z.ltb_spec (_origin e + t + 0) 0); [|lia]. rewrite shl_B' by lia. fold c. destruct (Z.ltb_spec (_origin e + t + (0 + c)) 0); [lia|]. done. }
  rewrite Ef. set (l := SN _). assert (Hp : 1 <= _capacity e + c < 2 ^ 31) by lia. destruct (tail_bounds _ Hp) as (q & E & Hq0 & Hqc).
  destruct (grow_back 8 (getTailOffset (_capacity e + c)) (S k) l) as [s l'] eqn:Eb.
  assert (s = S k /\ l' = l) as [-> ->].
  { cbn [grow_back] in Eb. rewrite shl_B in Eb by lia. rewrite (B_S (S k)) in Eb. fold c in Eb. destruct (Z.leb_spec (32 * c) (getTailOffset (_capacity e + c))); [lia|]. by simplify_eq. }
  rewrite Z.ltb_irrefl, andb_false_r. cbn [andb].
  destruct (trim_spec (S k) l (_tail e) (_origin e + t + c) (_origin e + c) (_capacity e + c) (_capacity e + c) (fun j => val e (j - c))) as (off & H1 & H2 & H3 & H4); [lia|lia|lia|rewrite B_S; fold c; lia|..].
  - intros j Hj Hoj Hjp. assert (Hpos : 0 < _capacity e) by lia. assert (ET := tail_shift (_capacity e + c) c Hp ltac:(lia) HB32). replace (_capacity e + c - c) with (_capacity e) in ET by lia.
    unfold val. destruct (Z.leb_spec (getTailOffset (_capacity e)) (j - c)); [lia|]. fold k. replace j with (j - c + c) at 1 by lia. apply look_grow_front; [fold c; lia|unfold pos; fold c; lia|lia].
  - intros j Hj Hoj Hjp. assert (Hpos : 0 < _capacity e) by lia. assert (ET := tail_shift (_capacity e + c) c Hp ltac:(lia) HB32). replace (_capacity e + c - c) with (_capacity e) in ET by lia.
    unfold val. destruct (Z.leb_spec (getTailOffset (_capacity e)) (j - c)); [|lia]. by rewrite digit_shift by (done || (unfold pos; lia)).
  - exists (c + off). split; [lia|]. split; [lia|]. split; [done|]. intros j Hj Hoj. specialize (H4 (j + c)). replace (j + c - c) with j in H4 by lia. rewrite <- H4 by lia. f_equal. lia.
Qed.

(** The trie and the tail that are trimmed, when there is room at the front: in the three cases
    where the tail moves to the front, stays, and moves to the back. *)
Section Back.
Context (e : List) (a u : Z).
Notation o := (_origin e).
Notation i := (_capacity e).
Notation k := (_level e).
Notation f := (getTailOffset i).
Notation p := (getTailOffset u).
Context (Hb : bounds e) (Hd : defined e) (Hk : (k <= 4)%nat) (Ha : 0 <= a < u) (Hu : u <= i + 1024).

Lemma back_room : 0 <= p < B (S (S k)) /\ u < 2 ^ 31 /\ i < 2 ^ 26.
Proof using All.
  destruct (Hb) as (Ho & Hc & Hl & Ht). destruct (capacity_room e Hb) as [Hcap _]. destruct (B_room k) as [HB _]; [lia|].
  assert (HB5 := B_mono (S k) 5). change (B 5) with (2 ^ 25) in HB5. destruct (tail_bounds u) as (q & E & Hq & Hqu); [lia|]. rewrite (B_S (S k)). lia.
Qed.

Lemma val_tree j : j < f -> val e j = look k (_root e) j.
Proof using All. intros H. unfold val. destruct (Z.leb_spec f j); [lia|done]. Qed.
Lemma val_tail j : f <= j -> val e j = at_ (arr (_tail e)) (digit 0 j).
Proof using All. intros H. unfold val. destruct (Z.leb_spec f j); [done|lia]. Qed.

(** The tail moves to the front: it is a node of the trie. *)
Lemma back_shrunk : p < f -> kept e a u (trim k (_root e) (listNodeFor e (u - 1)) a o u i).
Proof using All.
  intros Hpf. destruct back_room as (Hp & Hu31 & Hi). destruct (Hb) as (Ho & Hc & Hl & Ht). destruct (tail_bounds u) as (q & E & Hq & Hqu); [lia|].
  assert (Hi1 : 1 <= i). { destruct (Z.eq_dec i 0) as [E0|]; [|lia]. rewrite E0 in Hpf. change (getTailOffset 0) with 0 in Hpf. lia. }
  destruct (tail_bounds i) as (q' & E' & Hq' & Hqi); [lia|].
  apply trim_spec; [done|done|lia|lia|intros j Hj Hoj Hjp; rewrite val_tree by lia; done|].
  intros j Hj Hoj Hjp. rewrite val_tree by lia. unfold listNodeFor, look. destruct (Z.leb_spec f (u - 1)); [lia|]. rewrite shl_B by lia. destruct (Z.ltb_spec (u - 1) (B (S k))); [|lia].
  rewrite (descend_hi k (_root e) (u - 1) j); [done|unfold pos; lia|unfold pos; lia|lia|]. rewrite !hi_small by lia. by rewrite (div32 q (u - 1)), (div32 q j) by lia.
Qed.

(** The tail stays. *)
Lemma back_same : p = f -> kept e a u (trim k (_root e) (_tail e) a o u i).
Proof using All.
  intros Hpf. destruct back_room as (Hp & Hu31 & Hi). destruct (Hb) as (Ho & Hc & Hl & Ht). apply trim_spec; [done|done|lia|lia|..].
  - intros j Hj Hoj Hjp. rewrite val_tree by lia. done.
  - intros j Hj Hoj Hjp. rewrite val_tail by lia. done.
Qed.

(** The tail moves to the back, and the old one becomes a node of the trie. *)
Lemma back_grown s l :
  f < p -> grow_back 8 p k (_root e) = (s, l) ->
  kept e a u (trim s (if present (_tail e) && (f <? p) && (a <? i) && negb (zlen (arr (_tail e)) =? 0) then put_tail s l f (_tail e) else l) (SN []) a o u i).
Proof using All.
  intros Hpf Eg. destruct back_room as (Hp & Hu31 & Hi). destruct (Hb) as (Ho & Hc & Hl & Ht). destruct (grow_back_spec _ _ _ _ _ Eg ltac:(lia) Hp) as (Hs & Hps & _ & Hlk).
  destruct (tail_bounds u) as (q & E & Hq & Hqu); [lia|]. assert (Hsb := B_mono (S s) 6 ltac:(lia)). change (B 6) with (2 ^ 30) in Hsb.
  assert (Hfi : 0 < i -> exists q', f = 32 * q' /\ 0 <= q' /\ 32 * q' < i <= 32 * q' + 32) by (intros; apply tail_bounds; lia).
  apply trim_spec; [done|done|lia|done|..].
  - intros j Hj Hoj Hjp. destruct Hfi as (q' & E' & Hq' & Hqi); [lia|]. destruct (Z.leb_spec f j) as [Hfj|Hfj].
    + rewrite val_tail by done. destruct (Hd j) as [v Hv]; [lia|]. rewrite val_tail in Hv by done.
      assert (Hne : arr (_tail e) <> []) by (intros En; rewrite En, at_nil in Hv; done).
      destruct (_tail e) as [| |x] eqn:Et; [done|done|]. cbn [present arr] in *. destruct (Z.ltb_spec f p); [|lia]. destruct (Z.ltb_spec a i); [|lia].
      destruct (Z.eqb_spec (zlen x) 0) as [Hz|]; [unfold zlen in Hz; destruct x; [done|cbn in Hz; lia]|]. cbn [andb negb].
      rewrite look_put_tail by (lia || (unfold pos; lia)). rewrite decide_True; [done|]. rewrite !hi_small by lia. by rewrite (div32 q' j), (div32 q' f) by lia.
    + rewrite val_tree by done. rewrite <- Hlk by lia. destruct (present (_tail e) && (f <? p) && (a <? i) && negb (zlen (arr (_tail e)) =? 0)); [|done].
      rewrite look_put_tail by (lia || (unfold pos; lia)). rewrite decide_False; [done|]. rewrite !hi_small by lia. rewrite (div32 q' f) by lia. intros Hj32. assert (Hm := Z.mul_div_le j 32). assert (Hm' := Z.mod_pos_bound j 32). assert (Hm'' := Z.div_mod j 32). lia.
  - intros j Hj Hoj Hjp. destruct Hfi as (q' & E' & Hq' & Hqi); lia.
Qed.

End Back.

(** New bounds, with room at the front. *)
Lemma set_bounds e t n a u :
  bounds e -> defined e -> (_level e <= 4)%nat -> - 2 ^ 31 <= t < 2 ^ 31 -> match n with Some n => - 2 ^ 31 <= n < 2 ^ 31 | None => True end ->
  a = _origin e + t -> u = (match n with None => _capacity e | Some n => if n <? 0 then _capacity e + n else _origin e + n end) ->
  0 <= a < u -> u <= _capacity e + 1024 -> (a <> _origin e \/ u <> _capacity e) -> kept e a u (setListBounds e t n).
Proof.
  intros Hb Hd Hk Ht Hn Ea Eu Ha Hu Hne. destruct (back_room e a u Hb Hd Hk Ha Hu) as (Hp & Hu31 & Hi). unfold setListBounds. rewrite (int32_id t) by done.
  assert (En : option_map to_int32 n = n) by (destruct n; cbn; [by rewrite int32_id|done]). rewrite En, <- Eu, <- Ea. clear En.
  assert (Eq : (a =? _origin e) && (u =? _capacity e) = false) by (destruct (Z.eqb_spec a (_origin e)), (Z.eqb_spec u (_capacity e)); [lia|done..]).
  rewrite Eq. destruct (Z.leb_spec u a); [lia|].
  assert (Eg : grow_front 8 a (_level e) (_root e) 0 = (_level e, _root e, 0)) by (cbn [grow_front]; destruct (Z.ltb_spec (a + 0) 0); [lia|done]).
  rewrite Eg, !Z.add_0_r. destruct (grow_back 8 (getTailOffset u) (_level e) (_root e)) as [s l] eqn:Eb.
  destruct (Hb) as (_ & _ & Hl & Htl). destruct (grow_back_spec _ _ _ _ _ Eb ltac:(lia) Hp) as (_ & _ & Hsame & _).
  destruct (Z.ltb_spec (getTailOffset u) (getTailOffset (_capacity e))) as [H1|H1].
  - destruct Hsame as [-> ->]; [lia|]. destruct (Z.ltb_spec (getTailOffset (_capacity e)) (getTailOffset u)); [lia|]. rewrite andb_false_r. by apply back_shrunk.
  - destruct (Z.ltb_spec (getTailOffset (_capacity e)) (getTailOffset u)) as [H2|H2].
    + assert (Hg := back_grown e a u Hb Hd Hk Ha Hu s l H2 Eb). destruct (Z.ltb_spec (getTailOffset (_capacity e)) (getTailOffset u)); [exact Hg|lia].
    + destruct Hsame as [-> ->]; [lia|]. rewrite andb_false_r. apply back_same; (done || lia).
Qed.

(** ** Lists *)

(** The list [e] stands for [l]. *)
Definition represents (e : List) (l : list V) : Prop :=
  bounds e /\ zlen l = size e /\ forall j v, l !! j = Some v -> val e (_origin e + Z.of_nat j) = SV v.

Lemma represents_get e l j : represents e l -> get e (Z.of_nat j) = match l !! j with Some v => SV v | None => SU end.
Proof.
  intros (Hb & Hl & Hv). unfold zlen in Hl. destruct (l !! j) as [v|] eqn:E.
  - assert (Hj := lookup_lt_Some _ _ _ E). rewrite get_val, Z.add_comm by (done || lia). by apply Hv.
  - apply lookup_ge_None_1 in E. unfold get, wrapIndex. destruct (Z.ltb_spec (Z.of_nat j) 0); [lia|]. destruct (Z.ltb_spec (Z.of_nat j) (size e)); [lia|]. by rewrite andb_false_r.
Qed.

Lemma represents_defined e l : represents e l -> defined e.
Proof.
  intros (Hb & Hl & Hv) j Hj. unfold zlen, size in Hl. destruct (lookup_lt_is_Some_2 l (Z.to_nat (j - _origin e))) as [v E]; [lia|].
  exists v. rewrite <- (Hv _ _ E). f_equal. lia.
Qed.

Lemma empty_represents : represents emptyList [].
Proof.
  split; [unfold bounds; change (getTailOffset _) with 0; change (B _) with 1024; cbn [_origin _capacity _level emptyList]; lia|]. split; [done|]. intros j v. by rewrite lookup_nil.
Qed.

(** A part of the positions. *)
Lemma kept_represents e l a u e' : represents e l -> _origin e <= a < u -> u <= _capacity e -> kept e a u e' -> represents e' (zsub l (a - _origin e) (u - _origin e)).
Proof.
  intros (Hb & Hl & Hv) Ha Hu (off & E1 & E2 & Hb' & Hk). unfold zlen, size in *. split; [done|]. unfold zlen, size, zsub.
  split; [rewrite length_take, length_drop, E1, E2; lia|]. intros j v Hj. apply lookup_take_Some in Hj as [Hj Hlt]. rewrite lookup_drop in Hj.
  rewrite E1. replace (a + off + Z.of_nat j) with (a + Z.of_nat j + off) by lia. rewrite Hk by lia. rewrite <- (Hv _ _ Hj). f_equal. lia.
Qed.

(** Setting values in range, one after the other. *)
Lemma set_range (e : List) t v : 0 <= t < size e -> set e t v = set_in_range e t v.
Proof. intros Ht. unfold set, wrapIndex. destruct (Z.ltb_spec t 0); [lia|]. destruct (Z.ltb_spec t 0); [lia|]. destruct (Z.leb_spec (size e) t); [lia|done]. Qed.

Definition same_frame (e e' : List) : Prop := _origin e' = _origin e /\ _capacity e' = _capacity e /\ _level e' = _level e.
Lemma set_in_frame (e : List) t v : same_frame e (set_in_range e t v).
Proof. unfold same_frame, set_in_range. by destruct (getTailOffset (_capacity e) <=? t + _origin e). Qed.
Lemma frame_bounds e e' : same_frame e e' -> bounds e -> bounds e'.
Proof. unfold bounds. by intros (-> & -> & ->). Qed.

Lemma set_all_val vs : forall e t, bounds e -> 0 <= t -> t + zlen vs <= size e ->
  same_frame e (set_all e t (map Some vs)) /\
  forall j, 0 <= j < size e -> val (set_all e t (map Some vs)) (_origin e + j) = match (if decide (t <= j) then vs !! Z.to_nat (j - t) else None) with Some v => SV v | None => val e (_origin e + j) end.
Proof.
  induction vs as [|v vs IH]; intros e t Hb Ht Hs; cbn [map set_all].
  { split; [done|]. intros j Hj. by destruct (decide (t <= j)); rewrite ?lookup_nil. }
  unfold zlen in *. cbn [length] in Hs. rewrite set_range by lia. assert (Hf := set_in_frame e t (Some v)). set (e1 := set_in_range e t (Some v)) in *.
  destruct (Hf) as (Fo & Fc & Fl). assert (Hsz : size e1 = size e) by (unfold size; by rewrite Fo, Fc).
  destruct (IH e1 (t + 1) (frame_bounds _ _ Hf Hb)) as [(Go & Gc & Gl) HI]; [lia|rewrite Hsz; lia|]. split; [unfold same_frame; split_and!; congruence|].
  intros j Hj. rewrite <- Fo, HI by (rewrite Hsz; lia). rewrite Fo. assert (E := set_val e t v (_origin e + j) Hb ltac:(lia) ltac:(unfold size in *; lia)). fold e1 in E.
  destruct (decide (t + 1 <= j)) as [H1|H1].
  - rewrite decide_True by lia. replace (Z.to_nat (j - t)) with (S (Z.to_nat (j - (t + 1)))) by lia. cbn. destruct (vs !! _); [done|]. rewrite E, decide_False by lia. done.
  - rewrite E. destruct (decide (t <= j)); [|by rewrite decide_False by lia]. assert (j = t) as -> by lia. rewrite decide_True by lia. by rewrite Z.sub_diag.
Qed.

(** The level at which a list may still grow: positions up to 2^25. *)
Definition shallow (e : List) : Prop := (_level e <= 4)%nat.

Lemma shallow_capacity e : bounds e -> shallow e -> _capacity e <= 2 ^ 25.
Proof. intros Hb Hs. destruct (capacity_room e Hb) as [H _]. assert (HB := B_mono (S (_level e)) 5). unfold shallow in Hs. change (B 5) with (2 ^ 25) in HB. lia. Qed.

Lemma push_represents e l vs : represents e l -> shallow e -> zlen vs <= 1000 -> represents (push e (map Some vs)) (l ++ vs).
Proof.
  intros Hr Hs Hv. destruct (Hr) as (Hb & Hl & Hval). assert (Hcap := shallow_capacity e Hb Hs). assert (Hd := represents_defined e l Hr). destruct (Hb) as (Ho & _). assert (Hv0 : 0 <= zlen vs) by (unfold zlen; lia).
  unfold push. replace (zlen (map Some vs)) with (zlen vs) by (unfold zlen; by rewrite length_map). set (e1 := setListBounds _ _ _).
  assert (Hk : kept e (_origin e) (_capacity e + zlen vs) e1).
  { destruct (Z.eq_dec (zlen vs) 0) as [E0|Hne].
    - exists 0. subst e1. unfold setListBounds. rewrite E0. cbn [option_map]. rewrite !int32_id by (unfold size; lia). destruct (Z.ltb_spec (size e + 0) 0); [unfold size in *; lia|].
      rewrite !Z.add_0_r, Z.eqb_refl. replace (_origin e + size e) with (_capacity e) by (unfold size; lia). rewrite Z.eqb_refl. split_and!; [done..|]. intros j _ _. by rewrite Z.add_0_r.
    - apply set_bounds; [done|done|done|lia|unfold size; lia|lia| |lia|lia|lia]. destruct (Z.ltb_spec (size e + zlen vs) 0); unfold size in *; lia. }
  destruct Hk as (off & E1 & E2 & Hb1 & Hk). assert (Hsz : size e1 = size e + zlen vs) by (unfold size; lia).
  destruct (set_all_val vs e1 (size e) Hb1) as [Hf HI]; [unfold size; lia|lia|]. split; [by apply (frame_bounds e1)|]. destruct Hf as (Fo & Fc & _). unfold size at 1. rewrite Fo, Fc.
  split; [unfold zlen, size in *; rewrite length_app; lia|]. intros j v Hj. unfold zlen in Hl. apply lookup_app_Some in Hj as [Hj|[Hge Hj]].
  - assert (Hlt := lookup_lt_Some _ _ _ Hj). rewrite HI by (rewrite Hsz; unfold zlen; lia). rewrite decide_False by lia. rewrite <- (Hval j v Hj), E1.
    replace (_origin e + off + Z.of_nat j) with (_origin e + Z.of_nat j + off) by lia. apply Hk; unfold size in *; lia.
  - assert (Hlt := lookup_lt_Some _ _ _ Hj). rewrite HI by (rewrite Hsz; unfold zlen in *; lia). rewrite decide_True by lia. replace (Z.to_nat (Z.of_nat j - size e)) with (j - length l)%nat by lia. by rewrite Hj.
Qed.

Lemma bounds_unchanged e t n :
  - 2 ^ 31 <= t < 2 ^ 31 -> match n with Some n => - 2 ^ 31 <= n < 2 ^ 31 | None => True end ->
  t = 0 -> match n with None => True | Some n => (if n <? 0 then _capacity e + n else _origin e + n) = _capacity e end ->
  @setListBounds V e t n = e.
Proof.
  intros Ht Hn -> Hu. unfold setListBounds. rewrite int32_id by done. rewrite Z.add_0_r, Z.eqb_refl. destruct n as [n|]; cbn [option_map]; [rewrite int32_id by done|]; by rewrite ?Hu, Z.eqb_refl.
Qed.

Lemma unshift_represents e l vs : represents e l -> shallow e -> zlen vs <= 1000 -> represents (unshift e (map Some vs)) (vs ++ l).
Proof.
  intros Hr Hs Hv. destruct (Hr) as (Hb & Hl & Hval). assert (Hcap := shallow_capacity e Hb Hs). assert (Hd := represents_defined e l Hr). destruct (Hb) as (Ho & _). assert (Hv0 : 0 <= zlen vs) by (unfold zlen; lia).
  unfold unshift. replace (zlen (map Some vs)) with (zlen vs) by (unfold zlen; by rewrite length_map). destruct (Z.eq_dec (zlen vs) 0) as [E0|Hne].
  { rewrite bounds_unchanged by (done || lia). destruct vs; [done|]. unfold zlen in E0. cbn [length] in E0. lia. }
  set (e1 := setListBounds _ _ _). destruct (Z.le_gt_cases (_capacity e) (_origin e - zlen vs)) as [Hx|Hx]; [lia|].
  assert (Hk : kept e (_origin e - zlen vs) (_capacity e) e1).
  { destruct (Z.le_gt_cases 0 (_origin e - zlen vs)); [apply set_bounds; (done || lia)|]. apply (extend_front e (- zlen vs)); (done || lia). }
  destruct Hk as (off & E1 & E2 & Hb1 & Hk). assert (Hsz : size e1 = size e + zlen vs) by (unfold size; lia).
  destruct (set_all_val vs e1 0 Hb1) as [Hf HI]; [lia|unfold size in *; lia|]. split; [by apply (frame_bounds e1)|]. destruct Hf as (Fo & Fc & _). unfold size at 1. rewrite Fo, Fc.
  split; [unfold zlen, size in *; rewrite length_app; lia|]. intros j v Hj. assert (Hlt := lookup_lt_Some _ _ _ Hj). rewrite length_app in Hlt. unfold zlen in Hl.
  rewrite HI by (rewrite Hsz; unfold zlen; lia). rewrite decide_True by lia. replace (Z.to_nat (Z.of_nat j - 0)) with j by lia. apply lookup_app_Some in Hj as [Hj|[Hge Hj]]; [by rewrite Hj|].
  rewrite lookup_ge_None_2 by done. rewrite <- (Hval _ v Hj), E1. unfold zlen in *. replace (_origin e - Z.of_nat (length vs) + off + Z.of_nat j) with (_origin e + Z.of_nat (j - length vs) + off) by lia. apply Hk; unfold size in *; lia.
Qed.

(** A part of the list; a slice, a pop and a shift are such parts. *)
Lemma part_represents e l t n b c :
  represents e l -> shallow e -> t = b -> 0 <= b <= size e -> 0 <= c <= size e -> match n with None => c = size e | Some n => n = c \/ (n = c - size e /\ n < 0) end ->
  represents (setListBounds e t n) (zsub l b c).
Proof.
  intros Hr Hs -> Hb Hc Hn. destruct (Hr) as (Hbd & Hl & Hval). assert (Hcap := shallow_capacity e Hbd Hs). destruct (Hbd) as (Ho & _). unfold size in *.
  assert (Hu : (match n with None => _capacity e | Some n => if n <? 0 then _capacity e + n else _origin e + n end) = _origin e + c).
  { destruct n as [n|]; [|lia]. destruct (Z.ltb_spec n 0); lia. }
  assert (Hn32 : match n with Some n => - 2 ^ 31 <= n < 2 ^ 31 | None => True end) by (destruct n; lia).
  destruct (Z.le_gt_cases c b) as [Hcb|Hcb].
  - replace (zsub l b c) with (@nil V) by (unfold zsub; by replace (Z.to_nat (c - b)) with 0%nat by lia).
    unfold setListBounds. rewrite int32_id by lia. replace (option_map to_int32 n) with n by (destruct n; cbn; [by rewrite int32_id|done]). rewrite Hu.
    destruct (Z.eqb_spec (_origin e + b) (_origin e)), (Z.eqb_spec (_origin e + c) (_capacity e)); cbn [andb]; try (destruct (Z.leb_spec (_origin e + c) (_origin e + b)); [apply empty_represents|lia]).
    destruct l as [|v l]; [done|]. unfold zlen in Hl. cbn [length] in Hl. lia.
  - destruct (Z.eq_dec b 0) as [->|Hb0]; [destruct (Z.eq_dec c (_capacity e - _origin e)) as [->|Hc0]|].
    + rewrite <- Hl, zsub_all. rewrite bounds_unchanged; [done|lia|done|done|]. destruct n; [lia|done].
    + assert (Hk : kept e (_origin e + 0) (_origin e + c) (setListBounds e 0 n)) by (apply set_bounds; [done|by eapply represents_defined|done|lia|done|done|by rewrite Hu|lia|lia|lia]).
      eapply (kept_represents e l) in Hk; [|done|lia|lia]. by replace (zsub l 0 c) with (zsub l (_origin e + 0 - _origin e) (_origin e + c - _origin e)) by (f_equal; lia).
    + assert (Hk : kept e (_origin e + b) (_origin e + c) (setListBounds e b n)) by (apply set_bounds; [done|by eapply represents_defined|done|lia|done|done|by rewrite Hu|lia|lia|lia]).
      eapply (kept_represents e l) in Hk; [|done|lia|lia]. by replace (zsub l b c) with (zsub l (_origin e + b - _origin e) (_origin e + c - _origin e)) by (f_equal; lia).
Qed.

Lemma set_represents e l t v : represents e l -> 0 <= t < size e -> represents (set e t (Some v)) (<[Z.to_nat t := v]> l).
Proof.
  intros (Hb & Hl & Hval) Ht. rewrite set_range by done. assert (Hf := set_in_frame e t (Some v)). split; [by apply (frame_bounds e)|]. destruct (Hf) as (Fo & Fc & _). unfold zlen, size in *.
  rewrite Fo, Fc, length_insert. split; [done|]. intros j w Hj. assert (Hlt := lookup_lt_Some _ _ _ Hj). rewrite length_insert in Hlt. rewrite set_val by (done || (unfold size; lia)).
  destruct (decide (j = Z.to_nat t)) as [->|Hne].
  - rewrite list_lookup_insert_eq in Hj by lia. rewrite decide_True by lia. congruence.
  - rewrite list_lookup_insert_ne in Hj by done. rewrite decide_False by lia. by apply Hval.
Qed.

Lemma drop_empty e t n : represents e [] -> (t = 0 /\ n = Some (-1)) \/ (t = 1 /\ n = None) -> setListBounds e t n = emptyList.
Proof.
  intros ((Ho & Hc & _) & Hl & _) H. unfold size, zlen in Hl. cbn [length] in Hl. unfold setListBounds. destruct H as [[-> ->]|[-> ->]]; cbn [option_map]; rewrite !int32_id by lia.
  - destruct (Z.ltb_spec (-1) 0); [|lia]. destruct (Z.eqb_spec (_capacity e + -1) (_capacity e)); [lia|]. rewrite andb_false_r. destruct (Z.leb_spec (_capacity e + -1) (_origin e + 0)); [done|lia].
  - destruct (Z.eqb_spec (_origin e + 1) (_origin e)); [lia|]. cbn [andb]. destruct (Z.leb_spec (_capacity e) (_origin e + 1)); [done|lia].
Qed.

Lemma from_represents l : zlen l <= 1000 -> represents (fromArray (map Some l)) l.
Proof.
  intros Hn. unfold fromArray. replace (zlen (map Some l)) with (zlen l) by (unfold zlen; by rewrite length_map). destruct (Z.eqb_spec (zlen l) 0) as [E|E].
  { destruct l; [apply empty_represents|unfold zlen in E; cbn [length] in E; lia]. }
  assert (Hl0 : 0 < zlen l) by (unfold zlen in *; lia). destruct (Z.ltb_spec (zlen l) 32) as [H|H].
  - split; [unfold bounds, getTailOffset; cbn [_origin _capacity _level]; destruct (Z.ltb_spec (zlen l) 32); [|lia]; change (B _) with 1024; lia|]. split; [unfold size; cbn; lia|].
    intros j v Hj. assert (Hlt := lookup_lt_Some _ _ _ Hj). unfold val, getTailOffset, zlen in *. cbn [_origin _capacity _tail arr]. destruct (Z.ltb_spec (Z.of_nat (length l)) 32); [|lia].
    destruct (Z.leb_spec 0 (0 + Z.of_nat j)); [|lia]. rewrite digit_dg, <- low_last, low_small by (unfold pos; change (B 1) with 32; lia). unfold at_. replace (Z.to_nat (0 + Z.of_nat j)) with j by lia.
    rewrite map_map, list_lookup_fmap, Hj. done.
  - assert (Hk : kept emptyList 0 (zlen l) (setSize emptyList (zlen l))).
    { apply set_bounds; [apply empty_represents|eapply represents_defined, empty_represents|cbn; lia|lia|lia|done| |lia|cbn; lia|cbn; lia]. destruct (Z.ltb_spec (zlen l) 0); cbn; lia. }
    destruct Hk as (off & E1 & E2 & Hb1 & _). set (e1 := setSize emptyList (zlen l)) in *. assert (Hsz : size e1 = zlen l) by (unfold size; lia).
    destruct (set_all_val l e1 0 Hb1) as [Hf HI]; [lia|lia|]. split; [by apply (frame_bounds e1)|]. destruct Hf as (Fo & Fc & _). unfold size. rewrite Fo, Fc.
    split; [lia|]. intros j v Hj. assert (Hlt := lookup_lt_Some _ _ _ Hj). rewrite HI by (rewrite Hsz; unfold zlen; lia). rewrite decide_True by lia. replace (Z.to_nat (Z.of_nat j - 0)) with j by lia. by rewrite Hj.
Qed.

(** ** Iteration *)

Lemma zrange_split a b c : a <= b <= c -> zrange a b ++ zrange b c = zrange a c.
Proof.
  intros H. unfold zrange. replace (Z.to_nat (c - a)) with (Z.to_nat (b - a) + Z.to_nat (c - b))%nat by lia. rewrite seq_app, map_app. f_equal.
  rewrite Nat.add_0_l, <- (Nat.add_0_r (Z.to_nat (b - a))) at 1. rewrite <- fmap_add_seq, map_map. apply map_ext. intros i. lia.
Qed.
Lemma zrange_nil a b : b <= a -> zrange a b = [].
Proof. intros H. unfold zrange. by replace (Z.to_nat (b - a)) with 0%nat by lia. Qed.
Lemma zrange_cons a b : a < b -> zrange a b = a :: zrange (a + 1) b.
Proof.
  intros H. rewrite <- (zrange_split a (a + 1) b) by lia. f_equal. unfold zrange. replace (Z.to_nat (a + 1 - a)) with 1%nat by lia. cbn. f_equal. lia.
Qed.
Lemma zrange_elem a b x : x ∈ zrange a b <-> a <= x < b.
Proof.
  unfold zrange. rewrite list_elem_of_fmap. setoid_rewrite elem_of_seq. split; [intros (i & -> & Hi); lia|]. intros H. exists (Z.to_nat (x - a)). lia.
Qed.

Lemma foldr_in {A C} (f g : A -> C -> C) (c : C) l : (forall x r, x ∈ l -> f x r = g x r) -> foldr f c l = foldr g c l.
Proof. induction l as [|x l IH]; intros H; cbn; [done|]. rewrite H by (by left). f_equal. apply IH. intros y r Hy. apply H. by right. Qed.

Section Iterate.
Context (left right : Z) (tail : slot) (w : Z -> slot).
Notation t := (getTailOffset right).
Context (Hlr : 0 <= left <= right) (Hr : right < 2 ^ 31).
Context (Hw : forall j, left <= j < right -> t <= j -> at_ (arr tail) (digit 0 j) = w j).

(** What an iteration of a node gives. *)
Definition gives (k : nat) (e : slot) (offset : Z) : Prop :=
  iterate left right tail k e offset = Some (map w (zrange (Z.max left offset) (Z.min right (offset + B (S k))))).

Lemma iterate_leaf e offset :
  0 <= offset <= right -> left < offset + 32 -> offset mod 32 = 0 -> (forall j, left <= j < right -> offset <= j < offset + 32 -> j < t -> look 0 e j = w j) -> gives 0 e offset.
Proof using Hlr Hr Hw.
  intros Ho Hl Hm He. unfold gives. cbn [iterate]. change (B 1) with 32. set (from := if left <? offset then 0 else left - offset).
  assert (Hf : from = Z.max left offset - offset) by (subst from; destruct (Z.ltb_spec left offset); lia). destruct (Z.ltb_spec (Z.min 32 (right - offset)) from); [lia|]. f_equal.
  apply Z.mod_divide in Hm as [q Hq]; [|lia]. set (a := if offset =? t then tail else e).
  replace (zrange (Z.max left offset) (Z.min right (offset + 32))) with (map (fun x => offset + x) (zrange from (Z.min 32 (right - offset)))).
  2:{ unfold zrange. rewrite map_map. replace (Z.to_nat (Z.min right (offset + 32) - Z.max left offset)) with (Z.to_nat (Z.min 32 (right - offset) - from)) by lia. apply map_ext. intros. lia. }
  rewrite map_map. apply map_ext_in. intros x Hx%list_elem_of_In%zrange_elem.
  assert (E : at_ (arr a) x = look 0 a (offset + x)).
  { rewrite look_0, digit_dg, <- low_last by (unfold pos; lia). unfold low. change (B 1) with 32. rewrite Hq, Z.add_comm, Z.mod_add, Z.mod_small by lia. done. }
  rewrite E. destruct (tail_bounds right) as (q' & Et & Hq' & Hqr); [lia|]. subst a. destruct (Z.eqb_spec offset t) as [->|Hne]; [rewrite look_0; apply Hw; lia|]. apply He; lia.
Qed.

Lemma children k (f : Z -> slot) offset n : forall from,
  (forall i, from <= i < from + Z.of_nat n -> gives k (f i) (offset + i * B (S k)) /\ offset + i * B (S k) <= right) -> left < offset + (from + 1) * B (S k) ->
  foldr (fun i r => match iterate left right tail k (f i) (offset + i * B (S k)), r with Some x, Some y => Some (x ++ y) | _, _ => None end) (Some []) (zrange from (from + Z.of_nat n)) =
  Some (map w (zrange (Z.max left (offset + from * B (S k))) (Z.min right (offset + (from + Z.of_nat n) * B (S k))))).
Proof using All.
  assert (Hb := B_pos (S k)). set (b := B (S k)) in *. induction n as [|n IH]; intros from Hc Hl.
  { rewrite !zrange_nil by lia. done. }
  rewrite zrange_cons by lia. cbn [foldr]. destruct (Hc from) as [Hg Hle]; [lia|]. unfold gives in Hg. rewrite Hg. fold b.
  replace (from + Z.of_nat (S n)) with (from + 1 + Z.of_nat n) by lia. rewrite (IH (from + 1)); [|intros i Hi; apply Hc; lia|lia]. f_equal. rewrite <- map_app. f_equal.
  replace (offset + from * b + b) with (offset + (from + 1) * b) by lia. destruct n as [|n]; [replace (from + 1 + Z.of_nat 0) with (from + 1) by lia; rewrite (zrange_nil (Z.max left (offset + (from + 1) * b))), app_nil_r by lia; done|].
  destruct (Hc (from + 1)) as [_ Hle1]; [lia|]. rewrite Z.min_r by lia. rewrite (Z.max_r left (offset + (from + 1) * b)) by lia. apply zrange_split. nia.
Qed.

Lemma shl_mul k i : 0 <= i < 32 -> (k <= 5)%nat -> js_shl i (bits k) = i * B k.
Proof using.
  intros Hi Hk. assert (Hb := B_pos k). assert (HB := B_mono k 5 Hk). change (B 5) with (2 ^ 25) in HB.
  rewrite js_shl_mul, pow_bits; [done|unfold pow31; lia|unfold bits; lia|]. rewrite pow_bits. unfold pow31. nia.
Qed.
Lemma shr_div k x : pos x -> (k <= 6)%nat -> js_shr x (bits k) = x / B k.
Proof using. unfold pos. intros Hx Hk. rewrite js_shr_div, pow_bits; [done|unfold pow31; lia|unfold bits; lia]. Qed.

Lemma iterate_node k : forall e offset,
  (k <= 5)%nat -> 0 <= offset <= right -> left < offset + B (S k) -> offset mod B (S k) = 0 ->
  (forall j, left <= j < right -> offset <= j < offset + B (S k) -> j < t -> look k e j = w j) -> gives k e offset.
Proof using All.
  induction k as [|k IH]; intros e offset Hk Ho Hl Hm He; [by apply iterate_leaf|].
  assert (Hb := B_pos (S k)). assert (HS := B_S (S k)). set (b := B (S k)) in *. unfold gives. cbn [iterate].
  set (from := if left <? offset then 0 else js_shr (left - offset) (bits (S k))). set (to := Z.min 32 (1 + js_shr (right - offset) (bits (S k)))).
  assert (Hto : to = Z.min 32 (1 + (right - offset) / b)) by (subst to; rewrite shr_div by (lia || (unfold pos; lia)); done).
  assert (Hfrom : from = if left <? offset then 0 else (left - offset) / b) by (subst from; destruct (Z.ltb_spec left offset); [done|rewrite shr_div by (lia || (unfold pos; lia)); done]).
  clearbody from to. assert (Dr := Z.div_mod (right - offset) b). assert (Mr := Z.mod_pos_bound (right - offset) b Hb). assert (Dl := Z.div_mod (left - offset) b). assert (Ml := Z.mod_pos_bound (left - offset) b Hb).
  assert (Hr0 : 0 <= (right - offset) / b) by (apply Z.div_pos; lia).
  assert (Hf : 0 <= from < to /\ left < offset + (from + 1) * b /\ Z.max left (offset + from * b) = Z.max left offset).
  { rewrite Hfrom, Hto. destruct (Z.ltb_spec left offset); [nia|]. assert (0 <= (left - offset) / b < 32) by (split; [apply Z.div_pos; lia|apply Z.div_lt_upper_bound; lia]).
    assert ((left - offset) / b <= (right - offset) / b) by (apply Z.div_le_mono; lia). nia. }
  destruct (Z.ltb_spec to from); [lia|]. destruct Hf as (Hf & Hlf & Hmax). apply Z.mod_divide in Hm as [q Hq]; [|lia].
  assert (Hi : forall i, from <= i < to -> 0 <= i < 32 /\ offset + i * b <= right /\ left < offset + i * b + b) by (intros i Hi; rewrite Hto in Hi; nia).
  rewrite (foldr_in _ (fun i r => match iterate left right tail k (at_ (arr e) i) (offset + i * b), r with Some x, Some y => Some (x ++ y) | _, _ => None end)).
  2:{ intros i r Hx%zrange_elem. rewrite shl_mul by (lia || apply Hi; lia). done. }
  replace to with (from + Z.of_nat (Z.to_nat (to - from))) by lia. subst b. rewrite (children k (at_ (arr e)) offset); [|intros i Hx|done].
  - rewrite Hmax. f_equal. f_equal. f_equal. replace (from + Z.of_nat (Z.to_nat (to - from))) with to by lia. rewrite HS, Hto. nia.
  - destruct (Hi i ltac:(lia)) as (Hi1 & Hi2 & Hi3). split; [|done]. apply IH; [lia|lia|lia|rewrite Hq, HS; replace (q * (32 * B (S k)) + i * B (S k)) with ((q * 32 + i) * B (S k)) by lia; apply Z.mod_mul; lia|].
    intros j Hj Hoj Hjt. assert (Hib : 0 <= i * B (S k) /\ (i + 1) * B (S k) <= 32 * B (S k)) by (clear -Hi1 Hb; nia). rewrite <- (He j) by lia. rewrite look_S, digit_dg by (lia || (unfold pos; lia)). f_equal. f_equal. unfold dg.
    replace (j / B (S k)) with (i + q * 32); [by rewrite Z.mod_add, Z.mod_small by lia|]. apply (Z.div_unique j (B (S k)) _ (j - offset - i * B (S k))); [lia|]. rewrite Hq, HS. lia.
Qed.

End Iterate.

Lemma iterate_represents e l : represents e l -> iterateList e = Some (map SV l).
Proof.
  intros (Hb & Hl & Hval). destruct (Hb) as (Ho & Hc & Hk & Ht). destruct (capacity_room e Hb) as [Hcap _]. unfold zlen, size in Hl.
  destruct (Z.eq_dec (_origin e) (B (S (_level e)))) as [Ee|Hne].
  { assert (l = []) as -> by (destruct l; [done|cbn [length] in Hl; lia]). unfold iterateList. destruct (_level e) as [|k]; [lia|]. cbn [iterate].
    assert (HB := B_mono (S (S k)) 6 ltac:(lia)). change (B 6) with (2 ^ 30) in HB. assert (Hp := B_pos (S k)). destruct (Z.ltb_spec (_origin e) 0); [lia|].
    rewrite !shr_div by (lia || (unfold pos; lia)). replace (_capacity e) with (_origin e) by lia. rewrite Ee, B_S, Z.sub_0_r, Z.div_mul by lia. done. }
  assert (Hg : gives (_origin e) (_capacity e) (_tail e) (val e) (_level e) (_root e) 0).
  { apply iterate_node; [done|done| |lia|lia|lia| |].
    - intros j Hj Hjt. unfold val. destruct (Z.leb_spec (getTailOffset (_capacity e)) j); [done|lia].
    - apply Z.mod_0_l. assert (Hp := B_pos (S (_level e))). lia.
    - intros j Hj Hoj Hjt. unfold val. destruct (Z.leb_spec (getTailOffset (_capacity e)) j); [lia|done]. }
  unfold gives in Hg. unfold iterateList. rewrite Hg. f_equal. rewrite Z.max_l, Z.min_l by lia. apply list_eq. intros j. unfold zrange. rewrite map_map, !list_lookup_fmap.
  destruct (l !! j) as [v|] eqn:E.
  - assert (Hlt := lookup_lt_Some _ _ _ E). rewrite lookup_seq_lt by lia. cbn. by rewrite (Hval j v E).
  - apply lookup_ge_None_1 in E. rewrite lookup_seq_ge by lia. done.
Qed.

(** ** Runs *)

Inductive op := Push (vs : list V) | Pop | Shift | Unshift (vs : list V) | Set_ (t : Z) (v : V) | Slice (b : Z) (end_ : option Z).

Definition exec (e : List) (o : op) : List :=
  match o with
  | Push vs => push e (map Some vs)
  | Pop => pop e
  | Shift => shift e
  | Unshift vs => unshift e (map Some vs)
  | Set_ t v => set e t (Some v)
  | Slice b n => slice e b n
  end.

(** The same on lists. *)
Definition spec (l : list V) (o : op) : list V :=
  match o with
  | Push vs => l ++ vs
  | Pop => take (length l - 1) l
  | Shift => drop 1 l
  | Unshift vs => vs ++ l
  | Set_ t v => <[Z.to_nat (if t <? 0 then zlen l + t else t) := v]> l
  | Slice b n => zsub l (resolveBegin b (zlen l)) (resolveEnd n (zlen l))
  end.

(** At most a thousand values at once; indices in range. *)
Definition fits (l : list V) (o : op) : Prop :=
  match o with
  | Push vs | Unshift vs => zlen vs <= 1000
  | Set_ t _ => - zlen l <= t < zlen l
  | _ => True
  end.

Lemma slice_represents e l b n : represents e l -> shallow e -> represents (slice e b n) (zsub l (resolveBegin b (zlen l)) (resolveEnd n (zlen l))).
Proof.
  intros Hr Hs. destruct (Hr) as ((Ho & _) & Hl & _). unfold slice. rewrite Hl. assert (Hsz : 0 <= size e) by (unfold size; lia). destruct (wholeSlice b n (size e)) eqn:Ew.
  - unfold wholeSlice in Ew. apply andb_true_iff in Ew as [Hb Hn]. assert (resolveBegin b (size e) = 0) as ->.
    { unfold resolveBegin. apply orb_true_iff in Hb as [?%Z.eqb_eq|?%Z.leb_le]; destruct (Z.ltb_spec b 0); lia. }
    assert (resolveEnd n (size e) = size e) as ->; [|by rewrite <- Hl, zsub_all]. unfold resolveEnd. destruct n as [n|]; [|done]. apply Z.leb_le in Hn. destruct (Z.ltb_spec n 0); lia.
  - apply (part_represents e l); [done|done|done|unfold resolveBegin; destruct (Z.ltb_spec b 0); lia|unfold resolveEnd; destruct n as [n|]; [destruct (Z.ltb_spec n 0)|]; lia|by left].
Qed.

Lemma exec_represents e l o : represents e l -> shallow e -> fits l o -> represents (exec e o) (spec l o).
Proof.
  intros Hr Hs Hf. destruct (Hr) as (Hb & Hl & _). destruct o as [vs| | |vs|t v|b n]; cbn [exec spec fits] in *; [by apply push_represents| | |by apply unshift_represents| |by apply slice_represents].
  - destruct l as [|x l]; [unfold pop; rewrite drop_empty by auto; apply empty_represents|]. replace (take _ _) with (zsub (x :: l) 0 (size e - 1)).
    + unfold zlen in Hl. cbn [length] in Hl. apply part_represents; [done|done|done|lia|lia|]. right. lia.
    + unfold zsub. rewrite drop_0. f_equal. unfold zlen in Hl. cbn [length] in *. lia.
  - destruct l as [|x l]; [unfold shift; rewrite drop_empty by auto; apply empty_represents|]. unfold zlen in Hl. cbn [length] in Hl. replace (drop 1 (x :: l)) with (zsub (x :: l) 1 (size e)).
    + apply part_represents; [done|done|done|lia|lia|done].
    + unfold zsub. apply take_ge. rewrite length_drop. cbn [length]. lia.
  - rewrite Hl in *. destruct (Z.ltb_spec t 0); [|apply set_represents; [done|lia]]. replace (set e t (Some v)) with (set e (size e + t) (Some v)); [apply set_represents; [done|lia]|].
    unfold set, wrapIndex. rewrite (proj2 (Z.ltb_lt t 0)), (proj2 (Z.ltb_ge (size e + t) 0)) by lia. cbv zeta. rewrite (proj2 (Z.ltb_ge (size e + t) 0)) by lia. done.
Qed.

Definition run (e : List) (os : list op) : List := foldl exec e os.
Definition spec_run (l : list V) (os : list op) : list V := foldl spec l os.

(** Every list before an operation is shallow, and every operation fits. *)
Fixpoint fine (e : List) (l : list V) (os : list op) : Prop :=
  match os with
  | [] => True
  | o :: os => shallow e /\ fits l o /\ fine (exec e o) (spec l o) os
  end.

Lemma run_represents os : forall e l, represents e l -> fine e l os -> represents (run e os) (spec_run l os).
Proof.
  induction os as [|o os IH]; intros e l Hr Hf; [done|]. destruct Hf as (Hs & Hfit & Hf). cbn. apply IH; [by apply exec_represents|done].
Qed.

(** C3: an Immutable.List is a list. Begin with the List of an array of at most a thousand values,
    and push, pop, shift, unshift, set in range and slice in any order, with none of the values
    undefined. As long as no List has more than four levels of nodes, which is room for 2^25
    positions, the size and the elements that get reads are those of the list on which the same
    is done, get gives undefined beyond its end, and an iteration ends and gives the elements in
    order. *)
Theorem list_refines l0 os :
  zlen l0 <= 1000 -> fine (fromArray (map Some l0)) l0 os ->
  let e := run (fromArray (map Some l0)) os in
  let l := spec_run l0 os in
  size e = zlen l /\ (forall j, get e (Z.of_nat j) = match l !! j with Some v => SV v | None => SU end) /\ iterateList e = Some (map SV l).
Proof.
  intros Hl Hf e l. assert (Hr := run_represents os _ _ (from_represents l0 Hl) Hf). split; [destruct Hr as (_ & Hz & _); symmetry; exact Hz|]. split; [intros j; by apply represents_get|by apply iterate_represents].
Qed.

End Ok.

Definition numbers (n : nat) : list Z := map Z.of_nat (seq 0 n).
Definition sample_ops : list (@op Z) := [Push [100; 101]; Unshift [-2; -1]; Shift; Slice 5 None; Pop; Set_ (-1) 7; Push (numbers 70); Slice 3 (Some (-40))].

Lemma list_refines_witness :
  let e := run (fromArray (map Some (numbers 90))) sample_ops in size e = 114 /\ get e 0 = SV 7 /\ get e 113 = SV 29.
Proof.
  destruct (list_refines (numbers 90) sample_ops) as (Hs & Hg & _); [by vm_compute|vm_compute; repeat split; try lia; congruence|].
  split; [exact Hs|]. split; [exact (Hg 0%nat)|exact (Hg 113%nat)].
Defined.

(** Dropped elements come back. A list of a hundred elements that is cut to 33 and made longer
    again has the old elements 64 to 95, where undefined is expected; a list without its first
    five elements shows the last two of these again when a place before them is set; and an
    element set to undefined is back when the list grows. *)
Theorem list_defects :
  let e := fromArray (map Some (numbers 100)) in
  get (setSize (setSize e 33) 100) 70 = SV 70 /\
  map (get (set (slice e 5 None) (-98) (Some 7))) [0; 1; 2; 3] = [SV 7; SV 3; SV 4; SV 5] /\
  get (set (setSize e 33) 32 None) 32 = SU /\ get (push (set (setSize e 33) 32 None) (map Some (numbers 40))) 32 = SV 32.
Proof. by vm_compute. Qed.

End ImmutableListOk.
