(* ===== verification/ImmutableTree.v ===== *)
(** * Trees of Immutable collections

    Models getIn, setIn, updateIn, deleteIn, merge and mergeWith of the collections of Immutable
    (lines 732 to 761, 763 to 767, 885 to 894, 908 to 920 and 2326 to 2332 of
    src/client/docs/swagger-ui/swagger-ui-bundle.js) on trees of maps and lists, and
    fromJSOrdered of Swagger UI (lines 2691 to 2695), which makes such trees.

    The collections never change (ImmutableMapOk), so they are values here: a map is the list of
    its entries, each key once, in the order of an OrderedMap, where set keeps the place of a key
    that there is; a list is a list.  Where the code asks whether a function returned the very
    object it was given, the function says so: [Same].  A path that would write beyond the
    elements of a list is left out, and the result is the exception [outside]. *)

From S2P Require Import Prelude.
From S2P Require Import JsString.
From Stdlib Require Import String.
From stdpp Require Import base numbers list strings option.
Open Scope Z_scope.

Module ImmutableTree.

Inductive key := KStr (s : jsstring) | KNum (z : Z).
#[export] Instance key_eq_dec : EqDecision key.
Proof. solve_decision. Defined.

Section Tree.
(** The values that are no collections. *)
Context {L : Type}.

Inductive tree :=
| Leaf (v : L)
| TMap (m : list (key * tree))
| TList (l : list tree).

(** ** The code *)

(** Entries. *)
Fixpoint map_get (k : key) (m : list (key * tree)) : option tree :=
  match m with
  | [] => None
  | (k', t) :: m => if decide (k' = k) then Some t else map_get k m
  end.
Fixpoint map_set (k : key) (t : tree) (m : list (key * tree)) : list (key * tree) :=
  match m with
  | [] => [(k, t)]
  | (k', t') :: m => if decide (k' = k) then (k', t) :: m else (k', t') :: map_set k t m
  end.
Fixpoint map_remove (k : key) (m : list (key * tree)) : list (key * tree) :=
  match m with
  | [] => []
  | (k', t) :: m => if decide (k' = k) then m else (k', t) :: map_remove k m
  end.

(** wrapIndex, for a list of [n] elements: the index, if it is one of an element. *)
Definition list_index (k : key) (n : Z) : option nat :=
  let i := match k with
           | KNum z => Some (if z <? 0 then n + z else z)
           | KStr s => match parseInt s 10 with
                       | Num z => if (0 <=? z) && (z <? 4294967295) && bool_decide (num_to_string z 10 = s) then Some z else None
                       | _ => None
                       end
           end in
  match i with
  | Some i => if (0 <=? i) && (i <? n) then Some (Z.to_nat i) else None
  | None => None
  end.

(** [t.get(k, NOT_SET)], and NOT_SET for what is no collection. *)
Definition get (k : key) (t : tree) : option tree :=
  match t with
  | Leaf _ => None
  | TMap m => map_get k m
  | TList l => match list_index k (zlen l) with Some i => l !! i | None => None end
  end.

Fixpoint getIn (p : list key) (t : tree) : option tree :=
  match p with
  | [] => Some t
  | k :: p => match get k t with Some t => getIn p t | None => None end
  end.

Definition invalid_keyPath : jserr := JsError "invalid keyPath".
Definition outside : jserr := JsError "left out of the model".

(** What became of a value: the very same, nothing, or another one. *)
Inductive change := Same | Gone | Put (t : tree).

Definition set (k : key) (v : tree) (t : tree) : res tree :=
  match t with
  | Leaf _ => Throw (TypeError "set is not a function")
  | TMap m => Ok (TMap (map_set k v m))
  | TList l => match list_index k (zlen l) with Some i => Ok (TList (<[i := v]> l)) | None => Throw outside end
  end.
Definition remove (k : key) (t : tree) : res tree :=
  match t with
  | Leaf _ => Throw (TypeError "remove is not a function")
  | TMap m => Ok (TMap (map_remove k m))
  | TList _ => Throw outside
  end.

(** The recursion of updateIn: [t] is the value at the beginning of the path, [None] for
    NOT_SET; [f] gets what is at its end, [None] if there is nothing. *)
Fixpoint update_path (t : option tree) (p : list key) (f : option tree -> res change) : res change :=
  match p with
  | [] => f t
  | k :: p =>
      match t with
      | Some (Leaf _) => Throw invalid_keyPath
      | _ =>
          let c := match t with Some t => get k t | None => None end in
          let! x := update_path c p f in
          match x with
          | Same => Ok Same
          | Gone => match c, t with
                    | Some _, Some t => let! t := remove k t in Ok (Put t)
                    | _, _ => Ok Same
                    end
          | Put v => let! t := set k v (default (TMap []) t) in Ok (Put t)
          end
      end
  end.

(** updateIn of a collection; [None] is undefined. *)
Definition updateIn (p : list key) (f : option tree -> res change) (t : tree) : res (option tree) :=
  let! x := update_path (Some t) p f in
  match x with
  | Same => Ok (Some t)
  | Gone => Ok None
  | Put t => Ok (Some t)
  end.

Definition setIn (p : list key) (v : tree) (t : tree) : res (option tree) := updateIn p (fun _ => Ok (Put v)) t.
Definition deleteIn (p : list key) (t : tree) : res (option tree) := updateIn p (fun _ => Ok Gone) t.

(** merge and mergeWith of a map with the entries of others. *)
Definition merge (m : list (key * tree)) (iters : list (list (key * tree))) : list (key * tree) :=
  foldl (fun m it => foldl (fun m kv => map_set (fst kv) (snd kv) m) m it) m iters.
Definition mergeWith (f : tree -> tree -> tree) (m : list (key * tree)) (iters : list (list (key * tree))) : list (key * tree) :=
  foldl (fun m it => foldl (fun m kv => map_set (fst kv) (match map_get (fst kv) m with Some e => f e (snd kv) | None => snd kv end) m) m it) m iters.

(** Values of the page, and the trees that fromJSOrdered makes of them. *)
Inductive jsdata :=
| DTree (t : tree)
| DLeaf (v : L)
| DArr (l : list jsdata)
| DObj (o : list (jsstring * jsdata)).

Fixpoint fromJSOrdered (d : jsdata) : tree :=
  match d with
  | DTree t => t
  | DLeaf v => Leaf v
  | DArr l => TList (map fromJSOrdered l)
  | DObj o => TMap (map (fun kv => (KStr (fst kv), fromJSOrdered (snd kv))) o)
  end.

(** ** Facts *)

Lemma map_get_set k k' t m : map_get k' (map_set k t m) = if decide (k = k') then Some t else map_get k' m.
Proof.
  induction m as [|[x v] m IH]; cbn; [by destruct (decide (k = k'))|]. destruct (decide (x = k)) as [->|Hx]; cbn.
  - by destruct (decide (k = k')).
  - rewrite IH. destruct (decide (x = k')) as [->|]; [|done]. by rewrite decide_False by congruence.
Qed.

Lemma map_get_none k m : k ∉ map fst m -> map_get k m = None.
Proof. induction m as [|[x v] m IH]; [done|]. cbn. rewrite not_elem_of_cons. intros [Hx Hm]. rewrite decide_False by congruence. auto. Qed.

Lemma map_get_remove k k' m : NoDup (map fst m) -> map_get k' (map_remove k m) = if decide (k = k') then None else map_get k' m.
Proof.
  induction m as [|[x v] m IH]; cbn; [by destruct (decide (k = k'))|]. intros [Hx Hm]%list.NoDup_cons. destruct (decide (x = k)) as [->|Hk]; cbn.
  - destruct (decide (k = k')) as [<-|]; [by apply map_get_none|done].
  - rewrite IH by done. destruct (decide (x = k')) as [->|]; [|done]. by rewrite decide_False by congruence.
Qed.

Lemma map_set_keys k t m : map fst (map_set k t m) = if decide (k ∈ map fst m) then map fst m else map fst m ++ [k].
Proof.
  induction m as [|[x v] m IH]; cbn; [by rewrite decide_False by apply not_elem_of_nil|]. destruct (decide (x = k)) as [->|Hx]; cbn; [by rewrite decide_True by (by left)|].
  rewrite IH. destruct (decide (k ∈ map fst m)) as [H|H]; [rewrite decide_True; [done|by right]|]. rewrite decide_False; [done|]. rewrite elem_of_cons. naive_solver.
Qed.

(** Maps have each key once, at every depth. *)
Fixpoint wf (t : tree) : Prop :=
  match t with
  | Leaf _ => True
  | TMap m => NoDup (map fst m) /\ (fix all m := match m with [] => True | (_, t) :: m => wf t /\ all m end) m
  | TList l => (fix all l := match l with [] => True | t :: l => wf t /\ all l end) l
  end.

Lemma wf_map m : wf (TMap m) <-> NoDup (map fst m) /\ Forall (fun kv => wf (snd kv)) m.
Proof.
  cbn. apply and_iff_compat_l. induction m as [|[k t] m IH]; [split; [constructor|done]|]. rewrite list.Forall_cons, <- IH. done.
Qed.
Lemma wf_list l : wf (TList l) <-> Forall wf l.
Proof. cbn. induction l as [|t l IH]; [split; [constructor|done]|]. rewrite list.Forall_cons, <- IH. done. Qed.

(** Two keys that name different elements of every collection; two paths that part. *)
Definition apart (k k' : key) : Prop := k <> k' /\ forall n i, list_index k n = Some i -> list_index k' n <> Some i.
Fixpoint parted (p q : list key) : Prop :=
  match p, q with
  | k :: p, k' :: q => apart k k' \/ (k = k' /\ parted p q)
  | _, _ => False
  end.

Lemma parted_app p r q : parted p q -> parted (p ++ r) q.
Proof. revert q. induction p as [|k p IH]; intros [|k' q]; cbn; [done..|]. intros [H|[-> H]]; [by left|right; auto]. Qed.

Lemma list_index_lt k n i : list_index k n = Some i -> Z.of_nat i < n.
Proof. unfold list_index. intros H. repeat case_match; simplify_eq; lia. Qed.

Lemma set_get k v t t' : set k v t = Ok t' -> get k t' = Some v.
Proof.
  destruct t as [x|m|l]; cbn; [done|intros [= <-]; cbn; by rewrite map_get_set, decide_True|].
  destruct (list_index k (zlen l)) as [i|] eqn:E; [|done]. intros [= <-]. cbn. unfold zlen in *. rewrite length_insert, E.
  apply list_lookup_insert_eq. apply list_index_lt in E. lia.
Qed.

Lemma set_frame k k' v t t' : set k v t = Ok t' -> apart k k' -> get k' t' = get k' t.
Proof.
  intros H [Hne Hi]. destruct t as [x|m|l]; cbn in *; [done|injection H as <-; cbn; by rewrite map_get_set, decide_False|].
  destruct (list_index k (zlen l)) as [i|] eqn:E; [|done]. injection H as <-. cbn. unfold zlen in *. rewrite length_insert.
  destruct (list_index k' (Z.of_nat (length l))) as [j|] eqn:E'; [|done]. apply list_lookup_insert_ne. intros ->. by eapply Hi.
Qed.

Lemma map_set_forall (P : tree -> Prop) k v m : P v -> Forall (fun kv => P (snd kv)) m -> Forall (fun kv => P (snd kv)) (map_set k v m).
Proof. intros Hv. induction 1 as [|[x t] m Ht Hm IH]; cbn; [by constructor|]. destruct (decide (x = k)); by constructor. Qed.
Lemma map_set_nodup k v m : NoDup (map fst m) -> NoDup (map fst (map_set k v m)).
Proof.
  intros H. rewrite map_set_keys. destruct (decide (k ∈ map fst m)) as [|Hk]; [done|].
  apply list.NoDup_app. split; [done|]. split; [|apply NoDup_singleton]. intros x Hx ->%list_elem_of_singleton. done.
Qed.

Lemma map_remove_forall (P : tree -> Prop) k m : Forall (fun kv => P (snd kv)) m -> Forall (fun kv => P (snd kv)) (map_remove k m).
Proof. induction 1 as [|[x t] m Ht Hm IH]; cbn; [done|]. destruct (decide (x = k)); [done|by constructor]. Qed.
Lemma map_remove_keys k m : sublist (map fst (map_remove k m)) (map fst m).
Proof. induction m as [|[x t] m IH]; cbn; [done|]. destruct (decide (x = k)); by constructor. Qed.

Lemma wf_set k v t t' : set k v t = Ok t' -> wf v -> wf t -> wf t'.
Proof.
  intros H Hv. destruct t as [x|m|l]; [done|..]; cbn [set] in H.
  - injection H as <-. rewrite !wf_map. intros [Hn Hm]. split; [by apply map_set_nodup|by apply map_set_forall].
  - destruct (list_index k (zlen l)) as [i|]; [|done]. injection H as <-. rewrite !wf_list. intros Hl. by apply Forall_insert.
Qed.

Lemma wf_remove k t t' : remove k t = Ok t' -> wf t -> wf t' /\ get k t' = None /\ forall k', apart k k' -> get k' t' = get k' t.
Proof.
  intros H. destruct t as [x|m|l]; [done| |done]. cbn [remove] in H. injection H as <-. rewrite !wf_map. intros [Hn Hm]. split_and!.
  - eapply sublist_NoDup; [exact Hn|]. apply map_remove_keys.
  - by apply map_remove_forall.
  - cbn. by rewrite map_get_remove, decide_True.
  - intros k' [Hk _]. cbn. by rewrite map_get_remove, decide_False.
Qed.

Lemma wf_get k t c : wf t -> get k t = Some c -> wf c.
Proof.
  destruct t as [x|m|l]; [done|..].
  - rewrite wf_map. intros [_ Hm]. cbn. induction Hm as [|[x t] m Ht Hm IH]; [done|]. cbn. destruct (decide (x = k)); [by intros [= ->]|auto].
  - rewrite wf_list. cbn. destruct (list_index k (zlen l)) as [i|]; [|done]. intros Hl Hc. by eapply Forall_lookup_1.
Qed.

(** A path along which there is nothing but collections, with the elements of lists that there
    are; if [removing], the last step is not one to an element of a list. *)
Fixpoint navigable (removing : bool) (p : list key) (t : tree) : Prop :=
  match p with
  | [] => True
  | k :: p =>
      match t with
      | Leaf _ => False
      | TMap m => match map_get k m with Some c => navigable removing p c | None => True end
      | TList l => match get k (TList l) with Some c => navigable removing p c /\ (removing = true -> p <> []) | None => False end
      end
  end.

Definition look (p : list key) (t : option tree) : option tree := match t with Some t => getIn p t | None => None end.
Definition result (old : option tree) (x : change) : option tree := match x with Same => old | Gone => None | Put t => Some t end.
Definition opt_wf (t : option tree) : Prop := match t with Some t => wf t | None => True end.

(** What has become of the value at the end of a path, and of everything off the path. *)
Definition placed (t : option tree) (p : list key) (x y : change) : Prop :=
  opt_wf (result t x) /\ look p (result t x) = result (look p t) y /\ forall q, parted p q -> look q (result t x) = look q t.

Lemma look_step k p t : look (k :: p) t = look p (match t with Some t => get k t | None => None end).
Proof. by destruct t. Qed.

Lemma put_step k p t c t' f :
  c = (match t with Some t => get k t | None => None end) ->
  set k f (default (TMap []) t) = Ok t' -> wf f -> opt_wf t ->
  opt_wf (Some t') /\ look (k :: p) (Some t') = getIn p f /\
  forall q, (forall q', parted p q' -> getIn q' f = look q' c) -> parted (k :: p) q -> look q (Some t') = look q t.
Proof.
  intros -> Hs Hf Ht. split_and!.
  - eapply wf_set; [done..|]. destruct t; [done|]. cbn. split; [constructor|done].
  - cbn. by rewrite (set_get _ _ _ _ Hs).
  - intros q Hq. destruct q as [|k' q]; [done|]. intros [Ha|[-> Hp]]; rewrite !look_step.
    + rewrite (set_frame _ _ _ _ _ Hs Ha). by destruct t.
    + rewrite (set_get _ _ _ _ Hs). by apply Hq.
Qed.

Definition removes (y : change) : bool := match y with Gone => true | _ => false end.

Lemma set_ok k v p r t : navigable r (k :: p) t -> exists t', set k v t = Ok t'.
Proof.
  destruct t as [x|m|l]; cbn; [done|eauto|]. destruct (list_index k (zlen l)) as [i|]; [eauto|done].
Qed.

Lemma navigable_step r k p t c : navigable r (k :: p) t -> get k t = Some c -> navigable r p c.
Proof. destruct t as [x|m|l]; cbn [navigable]; [done|..]; intros H Hc; [cbn in Hc; by rewrite Hc in H|]. rewrite Hc in H. apply H. Qed.

Lemma update_step k p f t x :
  match t with Some (Leaf _) => False | _ => True end ->
  update_path (match t with Some t => get k t | None => None end) p f = Ok x ->
  update_path t (k :: p) f =
  match x with
  | Same => Ok Same
  | Gone => match (match t with Some t => get k t | None => None end), t with
            | Some _, Some t => let! t := remove k t in Ok (Put t)
            | _, _ => Ok Same
            end
  | Put v => let! t := set k v (default (TMap []) t) in Ok (Put t)
  end.
Proof. intros Ht Hx. destruct t as [[v|m|l]|]; [done|..]; cbn [update_path]; by rewrite Hx. Qed.

Lemma gone_step k t c : wf t -> navigable true [k] t -> get k t = Some c -> exists t', remove k t = Ok t' /\ placed (Some t) [k] (Put t') Gone.
Proof.
  intros Hw Hn Hc. destruct t as [v|m|l]; [done| |cbn in Hn; cbn in Hc; rewrite Hc in Hn; naive_solver].
  exists (TMap (map_remove k m)). split; [done|]. destruct (wf_remove k (TMap m) _ eq_refl Hw) as (H1 & H2 & H3). split_and!; [done|cbn [result look getIn]; by rewrite H2|].
  intros [|k' q]; [done|]. intros [Ha|[_ []]]. cbn [result look getIn]. by rewrite (H3 _ Ha).
Qed.

Lemma update_path_placed p f y t :
  opt_wf t -> match t with Some t => navigable (removes y) p t | None => True end -> f (look p t) = Ok y -> opt_wf (result None y) ->
  exists x, update_path t p f = Ok x /\ placed t p x y /\ (x = Gone -> p = []).
Proof.
  revert t. induction p as [|k p IH]; intros t Hw Hn Hf Hy.
  { exists y. assert (E : look [] t = t) by by destruct t. rewrite E in Hf. split_and!; [done| |done].
    split_and!; [by destruct y|by rewrite E; destruct t, y|done]. }
  rewrite look_step in Hf. set (c := match t with Some t => get k t | None => None end) in *.
  assert (Hc : opt_wf c) by (destruct t as [t|]; [|done]; subst c; destruct (get k t) eqn:E; [by eapply wf_get|done]).
  assert (Hnc : match c with Some c => navigable (removes y) p c | None => True end)
    by (destruct t as [t|]; [|done]; subst c; destruct (get k t) eqn:E; [by eapply navigable_step|done]).
  destruct (IH c Hc Hnc Hf Hy) as (x & Hx & (P1 & P2 & P3) & Hg).
  assert (Hl : match t with Some (Leaf _) => False | _ => True end) by by destruct t as [[]|].
  rewrite (update_step _ _ _ _ _ Hl Hx). destruct x as [| |v].
  - exists Same. split; [done|]. split; [|done]. split_and!; [done|cbn [result]; rewrite look_step; exact P2|done].
  - rewrite (Hg eq_refl) in *. cbn in Hx. fold c. destruct t as [t|].
    + assert (y = Gone) as -> by (subst c; destruct (get k t); cbn in Hf, Hx; congruence). destruct c as [c'|] eqn:E.
      * destruct (gone_step k t c' Hw Hn E) as (t' & -> & Hp). exists (Put t'). by split_and!.
      * exists Same. split; [done|]. split; [|done]. split_and!; [done| |done]. cbn. subst c. by rewrite E.
    + exists Same. split; [done|]. split; [|done]. split_and!; [done| |done]. cbn in *. congruence.
  - assert (exists t', set k v (default (TMap []) t) = Ok t') as [t' Ht']
      by (destruct t as [t|]; [by eapply set_ok|cbn; eauto]).
    rewrite Ht'. exists (Put t'). split; [done|]. split; [|done].
    destruct (put_step k p t c t' v eq_refl Ht' P1 Hw) as (Q1 & Q2 & Q3). split_and!; [done| |].
    + cbn [result]. rewrite (look_step k p t), Q2. exact P2.
    + intros q Hq. by apply Q3.
Qed.

(** A value is put at the end of a path, taken from it or left there, and everything off the path
    stays. *)
Lemma updateIn_placed p f y t :
  p <> [] -> wf t -> navigable (removes y) p t -> f (getIn p t) = Ok y -> opt_wf (result None y) ->
  exists t', updateIn p f t = Ok (Some t') /\ wf t' /\ getIn p t' = result (getIn p t) y /\ forall q, parted p q -> getIn q t' = getIn q t.
Proof.
  intros Hp Hw Hn Hf Hy. destruct (update_path_placed p f y (Some t) Hw Hn Hf Hy) as (x & Hx & (P1 & P2 & P3) & Hg).
  unfold updateIn. rewrite Hx. destruct x as [| |t']; [exists t|by destruct Hp, Hg|exists t']; by split_and!.
Qed.

Lemma setIn_placed p v t :
  p <> [] -> wf t -> navigable false p t -> wf v ->
  exists t', setIn p v t = Ok (Some t') /\ wf t' /\ getIn p t' = Some v /\ forall q, parted p q -> getIn q t' = getIn q t.
Proof. intros Hp Hw Hn Hv. exact (updateIn_placed p _ (Put v) t Hp Hw Hn eq_refl Hv). Qed.

(** A path in two parts. *)
Lemma update_path_app p q f t : update_path t (p ++ q) f = update_path t p (fun c => update_path c q f).
Proof. revert t. induction p as [|k p IH]; intros t; [done|]. cbn [app update_path]. destruct t as [[]|]; by rewrite ?IH. Qed.

Lemma updateIn_app p q f y t :
  p <> [] -> wf t -> navigable (removes y) p t -> update_path (getIn p t) q f = Ok y -> opt_wf (result None y) ->
  exists t', updateIn (p ++ q) f t = Ok (Some t') /\ wf t' /\ getIn p t' = result (getIn p t) y /\ forall r, parted p r -> getIn r t' = getIn r t.
Proof.
  intros Hp Hw Hn Hf Hy. unfold updateIn. rewrite update_path_app. by apply (updateIn_placed p (fun c => update_path c q f)).
Qed.

Lemma navigable_app p q t : navigable false (p ++ q) t -> navigable false p t /\ match getIn p t with Some c => navigable false q c | None => True end.
Proof.
  revert t. induction p as [|k p IH]; intros t H; [done|]. destruct t as [v|m|l]; [done|..]; cbn [app navigable getIn get] in *.
  - destruct (map_get k m) as [c|]; [by apply IH|done].
  - destruct (match list_index k (zlen l) with Some i => l !! i | None => None end) as [c|]; [|done]. destruct H as [H Hr]. apply IH in H as [H1 H2]. by repeat split.
Qed.

Lemma map_set_set k v w m : map_set k w (map_set k v m) = map_set k w m.
Proof. induction m as [|[x t] m IH]; cbn; [by rewrite decide_True|]. destruct (decide (x = k)) eqn:E; cbn; rewrite E; [done|by rewrite IH]. Qed.
Lemma map_set_get k v m : map_get k m = Some v -> map_set k v m = m.
Proof. induction m as [|[x t] m IH]; cbn; [done|]. destruct (decide (x = k)); [by intros [= ->]|]. intros H. by rewrite IH. Qed.

Lemma set_set k v w t t' : set k v t = Ok t' -> set k w t' = set k w t.
Proof.
  destruct t as [x|m|l]; cbn; [done|intros [= <-]; cbn; by rewrite map_set_set|].
  destruct (list_index k (zlen l)) as [i|] eqn:E; [|done]. intros [= <-]. cbn. unfold zlen in *. rewrite length_insert, E. by rewrite list_insert_insert_eq.
Qed.
Lemma set_same k v t : get k t = Some v -> set k v t = Ok t.
Proof.
  destruct t as [x|m|l]; cbn; [done|intros H; by rewrite map_set_get|].
  destruct (list_index k (zlen l)) as [i|]; [|done]. intros H. by rewrite list_insert_id.
Qed.

(** Putting a value at the end of a path, step by step. *)
Notation put_path t p v := (update_path t p (fun _ => Ok (Put v))).
Lemma put_is_put p v t x : put_path t p v = Ok x -> exists t', x = Put t'.
Proof.
  revert t x. induction p as [|k p IH]; intros t x; [intros [= <-]; eauto|]. intros H.
  assert (Hl : match t with Some (Leaf _) => False | _ => True end) by by destruct t as [[]|].
  destruct (put_path (match t with Some t => get k t | None => None end) p v) as [y|e] eqn:Ey; [|destruct t as [[]|]; cbn [update_path] in H; rewrite ?Ey in H; done].
  destruct (IH _ _ Ey) as [f ->]. rewrite (update_step _ _ _ _ _ Hl Ey) in H. destruct (set k f _); [injection H as <-; eauto|done].
Qed.

Lemma put_path_step k p v t : match t with Some (Leaf _) => False | _ => True end ->
  put_path t (k :: p) v = let! x := put_path (match t with Some t => get k t | None => None end) p v in
                          match x with Put f => let! t := set k f (default (TMap []) t) in Ok (Put t) | _ => Ok Same end.
Proof.
  intros Hl. set (c := match t with Some t => get k t | None => None end). destruct (put_path c p v) as [x|e] eqn:Ex; [|destruct t as [[]|]; [done|..]; cbn [update_path]; fold c; by rewrite Ex].
  rewrite (update_step _ _ _ _ _ Hl Ex). by destruct (put_is_put _ _ _ _ Ex) as [f ->].
Qed.

Lemma put_path_inv k p v t t' :
  put_path t (k :: p) v = Ok (Put t') ->
  match t with Some (Leaf _) => False | _ => True end /\
  exists f, put_path (match t with Some t => get k t | None => None end) p v = Ok (Put f) /\ set k f (default (TMap []) t) = Ok t'.
Proof.
  intros H. assert (Hl : match t with Some (Leaf _) => False | _ => True end) by by destruct t as [[]|].
  split; [done|]. rewrite (put_path_step _ _ _ _ Hl) in H. destruct (put_path _ p v) as [[| |f]|]; try done. exists f. split; [done|].
  cbn in H. destruct (set k f _); [cbn in H; by simplify_eq|done].
Qed.

Lemma put_put p v w t t' : put_path t p v = Ok (Put t') -> put_path (Some t') p w = put_path t p w.
Proof.
  revert t t'. induction p as [|k p IH]; intros t t'; [done|]. intros (Hl & f & Hf & Hs)%put_path_inv.
  rewrite !put_path_step; [|done|by destruct t as [[]|]; cbn in Hs; repeat case_match; simplify_eq].
  rewrite (set_get _ _ _ _ Hs), (IH _ _ Hf). destruct (put_path _ p w) as [[| |g]|]; try done. cbn. by rewrite (set_set _ _ g _ _ Hs).
Qed.

Lemma get_put p v t : getIn p t = Some v -> exists x, put_path (Some t) p v = Ok x /\ result (Some t) x = Some t.
Proof.
  revert t. induction p as [|k p IH]; intros t Ht; [injection Ht as ->; by exists (Put v)|]. cbn in Ht. destruct (get k t) as [c|] eqn:Ec; [|done].
  destruct (IH c Ht) as (x & Hx & Hr). rewrite put_path_step by by destruct t. rewrite Ec, Hx. cbn. destruct x as [| |f]; [by exists Same|by exists Same|].
  cbn in Hr. injection Hr as ->. rewrite (set_same _ _ _ Ec). by exists (Put t).
Qed.

(** C9: reading and writing through a path obeys the laws of a lens. On well-formed trees, along
    a path that leads through collections, setIn always succeeds and keeps the tree well formed;
    what is read there afterwards is what was written; everything off the path is what it was; a
    second write makes the first one forgotten; and writing what is there already changes
    nothing. *)
Theorem paths_lens p v t :
  p <> [] -> wf t -> navigable false p t -> wf v ->
  exists t', setIn p v t = Ok (Some t') /\ wf t' /\ getIn p t' = Some v /\
             (forall q, parted p q -> getIn q t' = getIn q t) /\
             (forall w, setIn p w t' = setIn p w t) /\
             (getIn p t = Some v -> t' = t).
Proof.
  intros Hp Hw Hn Hv. destruct (setIn_placed p v t Hp Hw Hn Hv) as (t' & Ht' & Hw' & Hg & Hf). exists t'. split_and!; [done..| |].
  - intros w. unfold setIn, updateIn in *. destruct (put_path (Some t) p v) as [x|] eqn:E; [|done].
    destruct (put_is_put _ _ _ _ E) as [t0 ->]. injection Ht' as ->. by rewrite (put_put _ _ w _ _ E); destruct (put_path (Some t) p w) as [y|] eqn:E'; [destruct (put_is_put _ _ _ _ E') as [? ->]|].
  - intros H. destruct (get_put p v t H) as (x & Hx & Hr). unfold setIn, updateIn in Ht'. rewrite Hx in Ht'. destruct x; cbn in *; congruence.
Qed.

(** merge keeps the keys apart, and what it takes for a key is what the last map has. *)
Lemma fold_set_nodup f (it m : list (key * tree)) :
  NoDup (map fst m) -> NoDup (map fst (foldl (fun m kv => map_set (fst kv) (f kv m) m) m it)).
Proof. revert m. induction it as [|kv it IH]; intros m H; cbn; [done|]. by apply IH, map_set_nodup. Qed.

Lemma fold_set_none f k (it m : list (key * tree)) :
  k ∉ map fst it -> map_get k (foldl (fun m kv => map_set (fst kv) (f kv m) m) m it) = map_get k m.
Proof.
  revert m. induction it as [|[x v] it IH]; intros m; cbn; [done|]. rewrite not_elem_of_cons. intros [Hx Hi]. rewrite IH by done. by rewrite map_get_set, decide_False by congruence.
Qed.

Lemma fold_set_get k (it m : list (key * tree)) :
  NoDup (map fst it) ->
  map_get k (foldl (fun m kv => map_set (fst kv) (snd kv) m) m it) = match map_get k it with Some v => Some v | None => map_get k m end.
Proof.
  revert m. induction it as [|[x v] it IH]; intros m; cbn; [done|]. intros [Hx Hn]%list.NoDup_cons. destruct (decide (x = k)) as [->|Hk].
  - rewrite (fold_set_none (fun kv _ => snd kv)) by done. by rewrite map_get_set, decide_True.
  - rewrite IH by done. by rewrite map_get_set, decide_False.
Qed.

Lemma merge_get k its m :
  Forall (fun it => NoDup (map fst it)) its ->
  map_get k (merge m its) = foldl (fun old it => match map_get k it with Some v => Some v | None => old end) (map_get k m) its.
Proof.
  unfold merge. revert m. induction its as [|it its IH]; intros m; cbn; [done|]. intros [Hi Hs]%list.Forall_cons. by rewrite IH, fold_set_get.
Qed.

End Tree.
Arguments tree L : clear implicits.
Arguments jsdata L : clear implicits.
Arguments change L : clear implicits.

Lemma paths_lens_witness :
  exists t', setIn [KStr (js "a"); KNum 1] (Leaf 5) (TMap [(KStr (js "a"), TList [Leaf 1; Leaf 2]); (KStr (js "b"), Leaf 3)]) = Ok (Some t') /\
             getIn [KStr (js "b")] t' = Some (Leaf 3).
Proof.
  destruct (paths_lens [KStr (js "a"); KNum 1] (Leaf 5) (TMap [(KStr (js "a"), TList [Leaf 1; Leaf 2]); (KStr (js "b"), Leaf 3)])) as (t' & H & _ & _ & Hf & _).
  - done.
  - cbn [wf]. split; [|done]. apply (bool_decide_unpack (NoDup _)). by vm_compute.
  - split; [done|by intros].
  - done.
  - exists t'. split; [exact H|]. rewrite Hf; [done|]. left. split; [done|]. intros n i. by unfold list_index.
Defined.

End ImmutableTree.
