(* ===== verification/SpecState.v ===== *)
(** * The state of the page: reducers and selectors of the spec plugin

    Models the reducers of the spec plugin of Swagger UI (lines 11265 to 11369 of
    src/client/docs/swagger-ui/swagger-ui-bundle.js) and the selectors that put the description
    of an operation together with what the user has entered (lines 7588 to 7593, 7724 to 7750, and
    7779 to 7786): the description with its resolved parts, an operation and its parameters with
    their values, the validation of the parameters and the question whether the request may be
    sent.

    The state is a tree of collections (ImmutableTree) whose other values are those of
    UiValidate.  Selectors are memoized, which does not show (Reselect).  The hash code of a
    parameter, which only makes a key, is an argument, as are the engines validateParam uses. *)

From S2P Require Import Prelude.
From S2P Require Import JsString.
From S2P Require Import JsNum.
From S2P Require Import UiValidate.
From S2P Require Import ImmutableTree.
From Stdlib Require Import String.
From stdpp Require Import base numbers list strings option.
Open Scope Z_scope.

Module SpecState.
Import UiValidate ImmutableTree.

Abbreviation node := (tree value).
Abbreviation ks s := (KStr (js s)).

(** ** Values *)

Definition truthy_node (t : option node) : bool :=
  match t with
  | None => false
  | Some (Leaf v) => truthy v
  | Some _ => true
  end.

(** [t.get(k)], where [None] is undefined. *)
Definition get_method (k : key) (t : option node) : res (option node) :=
  match t with
  | Some (TMap _ as t) | Some (TList _ as t) => Ok (get k t)
  | _ => Throw (TypeError "get is not a function")
  end.

(** A value in a concatenation of strings. *)
Definition node_text (t : option node) : res jsstring :=
  match t with
  | None => Ok (js "undefined")
  | Some (Leaf v) => Ok (text v)
  | Some _ => Throw outside
  end.

Definition is_object (v : value) : bool := match v with Array _ | IList _ | File | Object => true | _ => false end.

(** [a === b]; whether two objects are the same one is left out. *)
Definition strict_eq (a b : option node) : res bool :=
  match a, b with
  | (None | Some (Leaf Undefined)), (None | Some (Leaf Undefined)) => Ok true
  | Some (Leaf Null), Some (Leaf Null) => Ok true
  | Some (Leaf (Bool x)), Some (Leaf (Bool y)) => Ok (eqb x y)
  | Some (Leaf (Str x)), Some (Leaf (Str y)) => Ok (bool_decide (x = y))
  | Some (Leaf (Number x)), Some (Leaf (Number y)) =>
      Ok (negb (less x y) && negb (less y x) && negb (bool_decide (x = JNaN)) && negb (bool_decide (y = JNaN)))
  | Some (Leaf x), Some (Leaf y) => if is_object x && is_object y then Throw outside else Ok false
  | Some (TMap _ | TList _), Some (TMap _ | TList _) => Throw outside
  | _, _ => Ok false
  end.

(** The entries of what is merged into a map. *)
Definition entries (t : option node) : res (list (key * node)) :=
  match t with
  | None | Some (Leaf (Undefined | Null)) => Ok []
  | Some (TMap m) => Ok m
  | Some _ => Throw outside
  end.

(** The values that map, find and reduce of a collection go over. *)
Definition members (t : node) : res (list node) :=
  match t with
  | Leaf _ => Throw (TypeError "map is not a function")
  | TMap m => Ok (map snd m)
  | TList l => Ok l
  end.

(** ** The description with its resolved parts *)

(** The function that merges two values; the first of the maps is taken over as it is, since its
    keys are all new ([merge_nodes_eq]). *)
Fixpoint merge_nodes (t n : node) : node :=
  match t, n with
  | TMap mt, TMap mn =>
      if truthy_node (map_get (ks "$$ref") mn) then n
      else TMap (foldl (fun m kv => map_set (fst kv) (match map_get (fst kv) m with Some e => merge_nodes e (snd kv) | None => snd kv end) m) mt mn)
  | _, _ => n
  end.

Definition specJsonWithResolvedSubtrees (e : node) : res node :=
  let! j := entries (get (ks "json") e) in
  let! r := entries (get (ks "resolvedSubtrees") e) in
  Ok (TMap (mergeWith merge_nodes [] [j; r])).

(** ** Operations and parameters *)

Definition getIn_or (p : list key) (d : node) (t : node) : node := default d (getIn p t).

Definition in_paths (pm : list key) : list key := [ks "paths"] ++ pm.
Definition in_meta (pm : list key) : list key := [ks "meta"; ks "paths"] ++ pm.

(** The name of a parameter among the entries of the user. *)
Definition param_key (n : option node) : res jsstring :=
  let! a := get_method (ks "name") n in
  let! b := get_method (ks "in") n in
  let! a := node_text a in
  let! b := node_text b in
  Ok (a ++ js "." ++ b).

Definition same_param (n : option node) (e : node) : res bool :=
  let! a := get_method (ks "in") (Some e) in
  let! b := get_method (ks "in") n in
  let! x := strict_eq a b in
  if x then
    let! a := get_method (ks "name") (Some e) in
    let! b := get_method (ks "name") n in
    strict_eq a b
  else Ok false.

(** find; it gets an empty map for the value [this] of its function, and gives undefined if it
    finds nothing. *)
Fixpoint find_node (f : node -> res bool) (l : list node) : res (option node) :=
  match l with
  | [] => Ok None
  | x :: l => let! b := f x in if b then Ok (Some x) else find_node f l
  end.

(** The first map is taken over as it is. *)
Lemma fold_fresh (f : node -> node -> node) (it m : list (key * node)) :
  NoDup (map fst it) -> (forall k, k ∈ map fst it -> k ∉ map fst m) ->
  foldl (fun m kv => map_set (fst kv) (match map_get (fst kv) m with Some e => f e (snd kv) | None => snd kv end) m) m it = m ++ it.
Proof.
  revert m. induction it as [|[k x] it IH]; intros m Hn Hd; cbn [foldl fst snd]; [by rewrite app_nil_r|]. cbn in Hn. apply list.NoDup_cons in Hn as [Hk Hn].
  assert (Hm : k ∉ map fst m) by (apply Hd; by left). rewrite (map_get_none _ _ Hm).
  assert (map_set k x m = m ++ [(k, x)]) as ->.
  { clear -Hm. induction m as [|[k' y] m IH]; [done|]. cbn in *. apply not_elem_of_cons in Hm as [Hk Hm]. rewrite decide_False by congruence. by rewrite IH. }
  rewrite IH; [by rewrite <- app_assoc|done|]. intros k' Hk'. rewrite map_app, not_elem_of_app. split; [by apply Hd; right|]. cbn. intros E%list_elem_of_singleton. apply Hk. congruence.
Qed.

Lemma merge_nodes_eq mt mn :
  NoDup (map fst mt) -> truthy_node (map_get (ks "$$ref") mn) = false ->
  merge_nodes (TMap mt) (TMap mn) = TMap (mergeWith merge_nodes [] [mt; mn]).
Proof.
  intros Hn Hr. cbn [merge_nodes]. rewrite Hr. unfold mergeWith. cbn [foldl]. rewrite (fold_fresh merge_nodes mt []); [done|done|]. intros k _. apply not_elem_of_nil.
Qed.

Section Page.
Context (matches : jsstring -> jsstring -> res bool) (date : jsstring -> bool) (json : jsstring -> bool).
Context (hashCode : node -> Z).

Definition hash_key (n : node) : res jsstring :=
  let! k := param_key (Some n) in
  Ok (k ++ js ".hash-" ++ num_to_string (hashCode n) 10).

(** The parameter [e] with the entries for [n]. *)
Definition with_meta (o : node) (n : option node) (e : node) : res node :=
  let! k := param_key n in
  let! t := get_method (KStr k) (Some o) in
  let! h := match n with Some n => hash_key n | None => Throw (TypeError "Cannot read property 'get' of undefined") end in
  let! r := get_method (KStr h) (Some o) in
  let! a := entries (Some e) in
  let! b := entries t in
  let! c := entries r in
  Ok (TMap (merge [] [a; b; c])).

Definition parameterWithMetaByIdentity (e : node) (t : list key) (n : option node) : res (option node) :=
  let! d := specJsonWithResolvedSubtrees e in
  let r := getIn_or (in_paths t ++ [ks "parameters"]) (TMap []) d in
  let o := getIn_or (in_meta t ++ [ks "parameters"]) (TMap []) e in
  let! l := members r in
  let! l := res_map (with_meta o n) l in
  find_node (same_param n) l.

Definition parameterWithMeta (e : node) (t : list key) (n r : jsstring) : res (option node) :=
  let! d := specJsonWithResolvedSubtrees e in
  let! l := members (getIn_or (in_paths t ++ [ks "parameters"]) (TMap []) d) in
  let named := Some (TMap [(ks "name", Leaf (Str n)); (ks "in", Leaf (Str r))]) in
  let! o := find_node (same_param named) l in
  parameterWithMetaByIdentity e t o.

(** A parameter that is undefined, among those of an operation. *)
Definition or_undefined (x : option node) : node := default (Leaf Undefined) x.

Definition operationWithMeta (e : node) (t n : key) : res node :=
  let! d := specJsonWithResolvedSubtrees e in
  let r := getIn_or (in_paths [t; n]) (TMap []) d in
  let o := getIn_or (in_meta [t; n]) (TMap []) e in
  let! ps := get_method (ks "parameters") (Some r) in
  let own p := let! x := parameterWithMetaByIdentity e [t; n] (Some p) in Ok (or_undefined x) in
  let! i := match default (TList []) ps with
            | Leaf _ => Throw (TypeError "map is not a function")
            | TMap m => let! l := res_map (fun kp => let! x := own (snd kp) in Ok (fst kp, x)) m in Ok (TMap l)
            | TList l => let! l := res_map own l in Ok (TList l)
            end in
  let! a := entries (Some r) in
  let! b := entries (Some o) in
  Ok (TMap (map_set (ks "parameters") i (merge [] [a; b]))).

Definition parameterInclusionSettingFor (e : node) (t : list key) (n r : jsstring) : node :=
  getIn_or (in_meta t ++ [ks "parameter_inclusions"; KStr (n ++ js "." ++ r)]) (Leaf (Bool false)) e.

(** Whether the entries of the user have no errors. *)
Definition no_errors (e : node) : res bool :=
  let! t := get_method (ks "errors") (Some e) in
  match t with
  | None => Ok true
  | Some (Leaf v) => if truthy v then Throw (TypeError "count is not a function") else Ok true
  | Some (TMap m) => Ok (bool_decide (m = []))
  | Some (TList l) => Ok (bool_decide (l = []))
  end.
Definition validateBeforeExecute (e : node) (t : list key) : res bool :=
  let! l := members (getIn_or (in_meta t ++ [ks "parameters"]) (TList []) e) in
  let! bs := res_map no_errors l in
  Ok (forallb id bs).

(** ** Parameters as validateParam reads them *)

Definition text_member (k : string) (t : node) : res jsstring :=
  match get (ks k) t with
  | None | Some (Leaf (Undefined | Null)) => Ok []
  | Some (Leaf (Str s)) => Ok s
  | _ => Throw outside
  end.
Definition number_member (k : string) (t : node) : res (option jsnum) :=
  match get (ks k) t with
  | None | Some (Leaf (Undefined | Null)) => Ok None
  | Some (Leaf (Number n)) => Ok (Some n)
  | _ => Throw outside
  end.

Fixpoint node_value (t : node) : res value :=
  match t with
  | Leaf v => Ok v
  | TMap _ => Throw outside
  | TList l => let! l := (fix go l := match l with [] => Ok [] | t :: l => let! v := node_value t in let! l := go l in Ok (v :: l) end) l in Ok (IList l)
  end.
Definition value_member (k : string) (t : node) : res value := match get (ks k) t with Some v => node_value v | None => Ok Undefined end.

Definition schema_of (a : node) : res schema :=
  let! maximum := number_member "maximum" a in
  let! minimum := number_member "minimum" a in
  let! type := text_member "type" a in
  let! format := text_member "format" a in
  let! maxLength := number_member "maxLength" a in
  let! minLength := number_member "minLength" a in
  let! pattern := text_member "pattern" a in
  let! items := match get (ks "items") a with Some t => text_member "type" t | None => Ok [] end in
  Ok (Schema maximum minimum type format maxLength minLength pattern items).

Definition param_of (t : node) : res param :=
  match t with
  | TMap _ =>
      let! in_ := text_member "in" t in
      let! value_ := value_member "value" t in
      let! value_xml := value_member "value_xml" t in
      let! own := schema_of t in
      let! schema := match get (ks "schema") t with
                     | None | Some (Leaf (Undefined | Null)) => Ok None
                     | Some (TMap _ as a) => let! a := schema_of a in Ok (Some a)
                     | Some _ => Throw outside
                     end in
      Ok (Param in_ value_ value_xml (truthy_node (get (ks "required") t)) own schema)
  | _ => Throw (TypeError "get is not a function")
  end.

(** fromJS of what validateParam gives. *)
Definition message_node (m : message) : node :=
  match m with
  | Message s => Leaf (Str s)
  | Item i s => TMap [(ks "index", Leaf (Number (JInt i))); (ks "error", Leaf (Str s))]
  end.
Definition validate_node (t : node) (isXml isOAS3 : bool) : res (list message) :=
  let! p := param_of t in validateParam matches date json p isXml isOAS3.

(** ** The reducers *)

(** The member of an object of the page, and an assignment to it. *)
Fixpoint field (k : jsstring) (o : list (jsstring * jsdata value)) : option (jsdata value) :=
  match o with [] => None | (k', v) :: o => if decide (k' = k) then Some v else field k o end.
Fixpoint assign_field (k : jsstring) (v : jsdata value) (o : list (jsstring * jsdata value)) : list (jsstring * jsdata value) :=
  match o with [] => [(k, v)] | (k', v') :: o => if decide (k' = k) then (k', v) :: o else (k', v') :: assign_field k v o end.
Definition truthy_data (d : option (jsdata value)) : bool :=
  match d with
  | None => false
  | Some (DLeaf v) | Some (DTree (Leaf v)) => truthy v
  | Some _ => true
  end.

(** A response: an error with the response it may have, or a response; [blob] if its data is one. *)
Inductive response :=
| Failed (name message statusCode : jsdata value) (resp : list (jsstring * jsdata value)) (blob : option value)
| Received (fields : list (jsstring * jsdata value)) (blob : option value).

Definition response_fields (r : response) : list (jsstring * jsdata value) :=
  let u := match r with
           | Failed n m c resp _ => foldl (fun o kv => assign_field (fst kv) (snd kv) o) [(js "error", DLeaf (Bool true)); (js "name", n); (js "message", m); (js "statusCode", c)] resp
           | Received fields _ => fields
           end in
  let h := field (js "headers") u in
  assign_field (js "headers") (if truthy_data h then default (DObj []) h else DObj []) u.
Definition response_blob (r : response) : option value := match r with Failed _ _ _ _ b | Received _ b => b end.

Inductive action :=
| UPDATE_SPEC (payload : value)
| UPDATE_URL (payload : value)
| UPDATE_JSON (payload : jsdata value)
| UPDATE_RESOLVED (payload : jsdata value)
| UPDATE_RESOLVED_SUBTREE (path : list key) (d : jsdata value)
| UPDATE_PARAM (path : list key) (paramName paramIn : option jsstring) (param : option node) (v : node) (isXml : bool)
| UPDATE_EMPTY_PARAM_INCLUSION (pathMethod : list key) (paramName paramIn : option jsstring) (includeEmptyValue : node)
| VALIDATE_PARAMS (t n : key) (isOAS3 : bool)
| CLEAR_VALIDATE_PARAMS (pathMethod : list key)
| SET_RESPONSE (r : response) (path method : key)
| SET_REQUEST (req : jsdata value) (path method : key)
| SET_MUTATED_REQUEST (req : jsdata value) (path method : key)
| UPDATE_OPERATION_META_VALUE (path : list key) (d : jsdata value) (k : key)
| CLEAR_RESPONSE (path method : key)
| CLEAR_REQUEST (path method : key)
| SET_SCHEME (scheme : node) (path method : option jsstring).

(** Strings that may be missing: whether they are true, and their texts. *)
Definition given (s : option jsstring) : bool := match s with Some (_ :: _) => true | _ => false end.
Definition opt_text (s : option jsstring) : jsstring := default (js "undefined") s.

(** The key of the entries that UPDATE_PARAM changes. *)
Definition updated_key (name in_ : option jsstring) (param : option node) : res jsstring :=
  match param with
  | Some (TMap _ as u) | Some (TList _ as u) => if negb (given in_) && negb (given name) then hash_key u else Ok (opt_text name ++ js "." ++ opt_text in_)
  | _ => Ok (opt_text name ++ js "." ++ opt_text in_)
  end.

(** The errors of the parameters, one after the other. *)
Fixpoint put_errors (isXml isOAS3 : bool) (ps : list node) (e : node) : res node :=
  match ps with
  | [] => Ok e
  | t :: ps =>
      let! n := validate_node t isXml isOAS3 in
      let! k := param_key (Some t) in
      let! e := match e with
                | Leaf _ => Throw (TypeError "setIn is not a function")
                | _ => setIn [KStr k; ks "errors"] (TList (map message_node n)) e
                end in
      put_errors isXml isOAS3 ps (or_undefined e)
  end.

(** [/xml/i] finds its three letters. *)
Definition letter (c : Z) : Z := if (65 <=? c) && (c <=? 90) then c + 32 else c.
Fixpoint has_xml (s : jsstring) : bool :=
  match s with
  | a :: ((b :: c :: _) as r) => (bool_decide (map letter [a; b; c] = js "xml")) || has_xml r
  | _ => false
  end.

Definition consumes_xml (e : node) (t n : key) : res bool :=
  let i := getIn_or (in_meta [t; n]) (TMap []) e in
  let! c := get_method (ks "consumes_value") (Some i) in
  let! c := node_text c in
  Ok (has_xml c).

Definition validate_params (e : node) (t n : key) (isOAS3 : bool) : res (option node) :=
  let! isXml := consumes_xml e t n in
  let! f := operationWithMeta e t n in
  updateIn (in_meta [t; n] ++ [ks "parameters"])
    (fun old =>
       let! ps := members (default (TList []) (get (ks "parameters") f)) in
       if decide (ps = []) then Ok Same
       else let! x := put_errors isXml isOAS3 ps (default (TMap []) old) in Ok (Put x)) e.

Definition clear_errors (old : option node) : res (change value) :=
  let set_empty e := set (ks "errors") (TList []) e in
  match default (TList []) old with
  | Leaf _ => Throw (TypeError "map is not a function")
  | TMap [] | TList [] => Ok Same
  | TMap m => let! m := res_map (fun kv => let! v := set_empty (snd kv) in Ok (fst kv, v)) m in Ok (Put (TMap m))
  | TList l => let! l := res_map set_empty l in Ok (Put (TList l))
  end.

(** The reducer of each action; [None] is undefined. *)
Definition reduce (e : node) (a : action) : res (option node) :=
  match a with
  | UPDATE_SPEC v => match v with Str s => let! e := set (ks "spec") (Leaf (Str s)) e in Ok (Some e) | _ => Ok (Some e) end
  | UPDATE_URL v => let! e := set (ks "url") (Leaf (Str (text v))) e in Ok (Some e)
  | UPDATE_JSON d => let! e := set (ks "json") (fromJSOrdered d) e in Ok (Some e)
  | UPDATE_RESOLVED d => setIn [ks "resolved"] (fromJSOrdered d) e
  | UPDATE_RESOLVED_SUBTREE p d => setIn ([ks "resolvedSubtrees"] ++ p) (fromJSOrdered d) e
  | UPDATE_PARAM r o i u s l =>
      let! c := updated_key o i u in
      setIn (in_meta r ++ [ks "parameters"; KStr c; if l then ks "value_xml" else ks "value"]) s e
  | UPDATE_EMPTY_PARAM_INCLUSION r o i u =>
      if given o && given i then setIn (in_meta r ++ [ks "parameter_inclusions"; KStr (opt_text o ++ js "." ++ opt_text i)]) u e else Ok (Some e)
  | VALIDATE_PARAMS t n isOAS3 => validate_params e t n isOAS3
  | CLEAR_VALIDATE_PARAMS n => updateIn (in_meta n ++ [ks "parameters"]) clear_errors e
  | SET_RESPONSE r o a =>
      let! c := setIn [ks "responses"; o; a] (fromJSOrdered (DObj (response_fields r))) e in
      match response_blob r with
      | Some b => setIn [ks "responses"; o; a; ks "text"] (Leaf b) (or_undefined c)
      | None => Ok c
      end
  | SET_REQUEST r o i => setIn [ks "requests"; o; i] (fromJSOrdered r) e
  | SET_MUTATED_REQUEST r o i => setIn [ks "mutatedRequests"; o; i] (fromJSOrdered r) e
  | UPDATE_OPERATION_META_VALUE r o i =>
      let has t := truthy_node (getIn ([t] ++ in_paths r) e) in
      if has (ks "json") || has (ks "resolved") || has (ks "resolvedSubtrees") then setIn (in_meta r ++ [i]) (fromJSOrdered o) e else Ok (Some e)
  | CLEAR_RESPONSE r o => deleteIn [ks "responses"; r; o] e
  | CLEAR_REQUEST r o => deleteIn [ks "requests"; r; o] e
  | SET_SCHEME r o i =>
      match given o, given i with
      | true, true => setIn [ks "scheme"; KStr (opt_text o); KStr (opt_text i)] r e
      | false, false => setIn [ks "scheme"; ks "_defaultScheme"] r e
      | _, _ => Ok None
      end
  end.

(** ** Validation decides about the request *)

(** Entries as the reducers make them: maps, whose errors are a list. *)
Definition entry_ok (x : node) : Prop :=
  match x with
  | TMap m => match map_get (ks "errors") m with None | Some (TList _) => True | _ => False end
  | _ => False
  end.
Definition errors_of (x : node) : list node := match get (ks "errors") x with Some (TList l) => l | _ => [] end.

Lemma no_errors_ok x : entry_ok x -> no_errors x = Ok (bool_decide (errors_of x = [])).
Proof.
  destruct x as [v|m|l]; [done| |done]. unfold entry_ok, no_errors, errors_of. cbn [get_method get res_bind].
  destruct (map_get (ks "errors") m) as [[| |l]|]; done.
Qed.

Lemma map_get_elem (k : key) (m : list (key * node)) x : map_get k m = Some x -> (k, x) ∈ m.
Proof. induction m as [|[k' y] m IH]; cbn; [done|]. destruct (decide (k' = k)) as [->|]; [intros [= ->]; by left|right; auto]. Qed.
Lemma elem_map_get (k : key) (m : list (key * node)) x : NoDup (map fst m) -> (k, x) ∈ m -> map_get k m = Some x.
Proof.
  induction m as [|[k' y] m IH]; cbn; [by intros _ ?%not_elem_of_nil|]. intros [Hk Hn]%list.NoDup_cons [E|H]%elem_of_cons; [simplify_eq; by rewrite decide_True|].
  rewrite decide_False; [by apply IH|]. intros ->. apply Hk. apply (list_elem_of_fmap_2 fst) in H. done.
Qed.

(** The answer for a map of entries. *)
Lemma answer (m : list (key * node)) :
  Forall (fun kx => entry_ok (snd kx)) m ->
  exists bs, res_map no_errors (map snd m) = Ok bs /\ (forallb id bs = true <-> Forall (fun kx => errors_of (snd kx) = []) m).
Proof.
  induction 1 as [|[k x] m Hx Hm (bs & E & IH)]; [by exists []|]. exists (bool_decide (errors_of x = []) :: bs). cbn [map res_map snd].
  rewrite (no_errors_ok x Hx). cbn [res_bind]. rewrite E. split; [done|]. cbn. rewrite andb_true_iff, IH, list.Forall_cons. unfold id. by rewrite bool_decide_eq_true.
Qed.

Lemma message_wf l : wf (TList (map message_node l)).
Proof.
  apply wf_list. induction l as [|y l IH]; cbn [map]; constructor; [|done]. destruct y; [done|]. apply wf_map. split; [|by repeat constructor].
  apply (bool_decide_unpack (NoDup _)). by vm_compute.
Qed.

Lemma set_errors k E m :
  Forall (fun kx => entry_ok (snd kx)) m -> wf (TMap m) -> wf (TList E) ->
  exists x, setIn [KStr k; ks "errors"] (TList E) (TMap m) = Ok (Some (TMap (map_set (KStr k) x m))) /\
            entry_ok x /\ errors_of x = E /\ wf x.
Proof.
  intros Hm Hw HE. set (c := match map_get (KStr k) m with Some (TMap c) => c | _ => [] end). exists (TMap (map_set (ks "errors") (TList E) c)).
  assert (Hc : wf (TMap c)).
  { subst c. destruct (map_get (KStr k) m) as [[| |]|] eqn:Ex; try (split; [constructor|done]). by apply (wf_get (KStr k) (TMap m)). }
  split_and!.
  - subst c. unfold setIn, updateIn. cbn [update_path get]. destruct (map_get (KStr k) m) as [x|] eqn:Ex; [|done].
    assert (entry_ok x) as Hx by (apply map_get_elem in Ex; rewrite list.Forall_forall in Hm; exact (Hm _ Ex)). by destruct x.
  - unfold entry_ok. by rewrite map_get_set, decide_True.
  - unfold errors_of. cbn [get]. by rewrite map_get_set, decide_True.
  - by eapply (wf_set (ks "errors") (TList E) (TMap c)).
Qed.

Lemma put_errors_ok isXml isOAS3 ps : forall mss keys m,
  Forall (fun kx => entry_ok (snd kx)) m -> wf (TMap m) ->
  res_map (fun p => validate_node p isXml isOAS3) ps = Ok mss -> res_map (fun p => param_key (Some p)) ps = Ok keys -> NoDup keys ->
  exists m', put_errors isXml isOAS3 ps (TMap m) = Ok (TMap m') /\ wf (TMap m') /\ Forall (fun kx => entry_ok (snd kx)) m' /\
             (forall k, k ∉ map KStr keys -> map_get k m' = map_get k m) /\
             Forall2 (fun k ms => exists x, map_get (KStr k) m' = Some x /\ errors_of x = map message_node ms) keys mss.
Proof.
  induction ps as [|p ps IH]; intros mss keys m Hm Hw Hv Hk Hn; cbn [res_map] in Hv, Hk.
  { simplify_eq. exists m. by split_and!. }
  cbn [put_errors]. destruct (validate_node p isXml isOAS3) as [ms|]; [|done]. cbn [res_bind] in Hv |- *. destruct (res_map _ ps) as [mss'|]; [|done]. cbn in Hv.
  destruct (param_key (Some p)) as [k|]; [|done]. cbn [res_bind] in Hk |- *. destruct (res_map _ ps) as [keys'|] eqn:Ek; [|done]. cbn in Hk. simplify_eq.
  apply list.NoDup_cons in Hn as [Hk Hn]. destruct (set_errors k (map message_node ms) m Hm Hw (message_wf ms)) as (x & -> & Hx & He & Hxw). cbn [res_bind or_undefined default].
  assert (Hw' : wf (TMap (map_set (KStr k) x m))) by by eapply (wf_set (KStr k) x (TMap m)).
  destruct (IH mss' keys' (map_set (KStr k) x m)) as (m' & E & H1 & H2 & H3 & H4); [by apply map_set_forall|done..|].
  exists m'. split_and!; [exact E|done..| |].
  - intros k' [Hk' Hks]%not_elem_of_cons. rewrite H3 by done. by rewrite map_get_set, decide_False by congruence.
  - constructor; [|done]. exists x. split; [|done]. rewrite H3, map_get_set, decide_True; [done..|]. intros (y & ? & ?)%list_elem_of_fmap. by simplify_eq.
Qed.

(** The entries of the user for an operation, if they are a map. *)
Definition meta_entries (e : node) (pm : list key) : option (list (key * node)) :=
  match getIn (in_meta pm ++ [ks "parameters"]) e with
  | None => Some []
  | Some (TMap m) => Some m
  | _ => None
  end.

Lemma execute_answer e pm m :
  meta_entries e pm = Some m -> NoDup (map fst m) -> Forall (fun kx => entry_ok (snd kx)) m ->
  exists b, validateBeforeExecute e pm = Ok b /\ (b = true <-> forall k x, map_get k m = Some x -> errors_of x = []).
Proof.
  unfold meta_entries, validateBeforeExecute, getIn_or. intros He Hn Hm.
  destruct (answer m Hm) as (bs & E & Hb). exists (forallb id bs). split.
  - destruct (getIn _ e) as [[|m'|]|]; simplify_eq; cbn [from_option id members res_bind]; [by rewrite E|]. cbn in E. by simplify_eq.
  - rewrite Hb, list.Forall_forall. split; [intros H k x Hx%map_get_elem; exact (H _ Hx)|]. intros H [k x] Hx. by apply (H k), elem_map_get.
Qed.

Lemma wf_getIn p (t c : node) : wf t -> getIn p t = Some c -> wf c.
Proof. revert t. induction p as [|k p IH]; intros t Hw; [by intros [= <-]|]. cbn. destruct (get k t) as [x|] eqn:E; [|done]. apply IH. by eapply wf_get. Qed.

Lemma meta_wf e pm m : wf e -> meta_entries e pm = Some m -> wf (TMap m).
Proof.
  unfold meta_entries. intros Hw H. destruct (getIn _ e) as [[|m'|]|] eqn:E; simplify_eq; [by eapply wf_getIn|]. split; [constructor|done].
Qed.

Lemma answer_split (m m' : list (key * node)) keys mss :
  (forall k, k ∉ map KStr keys -> map_get k m' = map_get k m) ->
  Forall2 (fun k ms => exists x, map_get (KStr k) m' = Some x /\ errors_of x = map message_node ms) keys mss ->
  (forall k x, map_get k m' = Some x -> errors_of x = []) <->
  Forall (fun ms => ms = []) mss /\ (forall k x, map_get k m = Some x -> k ∉ map KStr keys -> errors_of x = []).
Proof.
  intros H3 H4. split.
  - intros H. split.
    + clear H3. induction H4 as [|k ms keys mss (x & Hx & He)]; constructor; [|done]. rewrite (H _ _ Hx) in He. by destruct ms.
    + intros k x Hx Hk. apply (H k). by rewrite H3.
  - intros [Hm Hs] k x Hx. destruct (decide (k ∈ map KStr keys)) as [Hk|Hk]; [|rewrite H3 in Hx by done; eauto].
    clear H3 Hs. induction H4 as [|k' ms keys mss (y & Hy & He) _ IH]; [by apply not_elem_of_nil in Hk|]. apply list.Forall_cons in Hm as [-> Hm].
    apply elem_of_cons in Hk as [->|Hk]; [|auto]. rewrite Hx in Hy. by simplify_eq.
Qed.

(** The state after the validation. *)
Lemma validated e t n isXml isOAS3 ps m m' :
  wf e -> navigable false (in_meta [t; n] ++ [ks "parameters"]) e -> meta_entries e [t; n] = Some m -> wf (TMap m') ->
  put_errors isXml isOAS3 ps (TMap m) = Ok (TMap m') ->
  exists e', updateIn (in_meta [t; n] ++ [ks "parameters"])
               (fun old => if decide (ps = []) then Ok Same else let! x := put_errors isXml isOAS3 ps (default (TMap []) old) in Ok (Put x)) e = Ok (Some e') /\
             meta_entries e' [t; n] = Some m'.
Proof.
  intros Hw Hn Hm Hw' E. set (p := in_meta [t; n] ++ [ks "parameters"]) in *. set (y := if decide (ps = []) then Same else Put (TMap m')).
  edestruct (updateIn_placed p (fun old => if decide (ps = []) then Ok Same else let! x := put_errors isXml isOAS3 ps (default (TMap []) old) in Ok (Put x)) y e)
    as (e' & He' & _ & Hg & _); [done|done|subst y; by destruct (decide (ps = []))| |subst y; by destruct (decide (ps = []))|].
  - subst y. destruct (decide (ps = [])); [done|]. unfold meta_entries in Hm. fold p in Hm. replace (default (TMap []) (getIn p e)) with (TMap (L := value) m); [by rewrite E|].
    destruct (getIn p e) as [[]|]; by simplify_eq.
  - exists e'. split; [exact He'|]. unfold meta_entries in *. fold p in Hm |- *. rewrite Hg. subst y. destruct (decide (ps = [])) as [->|]; [|done]. cbn in E. by simplify_eq.
Qed.

(** C2: validation decides about the request. Let the parameters of an operation, as Swagger UI
    puts them together from the description and from what the user entered, have different names,
    and let validateParam give messages for each of them. Then VALIDATE_PARAMS changes the state
    so that validateBeforeExecute answers yes if and only if there were no messages for any
    parameter, and no errors are left in an entry of a parameter the operation does not have. *)
Theorem execute_gate e t n isOAS3 isXml f ps mss keys m :
  wf e -> navigable false (in_meta [t; n] ++ [ks "parameters"]) e ->
  meta_entries e [t; n] = Some m -> Forall (fun kx => entry_ok (snd kx)) m ->
  consumes_xml e t n = Ok isXml -> operationWithMeta e t n = Ok f -> get (ks "parameters") f = Some (TList ps) ->
  res_map (fun p => validate_node p isXml isOAS3) ps = Ok mss -> res_map (fun p => param_key (Some p)) ps = Ok keys -> NoDup keys ->
  exists e' b, reduce e (VALIDATE_PARAMS t n isOAS3) = Ok (Some e') /\ validateBeforeExecute e' [t; n] = Ok b /\
    (b = true <-> Forall (fun ms => ms = []) mss /\ forall k x, map_get k m = Some x -> k ∉ map KStr keys -> errors_of x = []).
Proof.
  intros Hw Hn Hm Hok Hx Hf Hps Hv Hk Hnd. assert (Hwm := meta_wf _ _ _ Hw Hm).
  cbn [reduce]. unfold validate_params. rewrite Hx, Hf. cbn [res_bind]. rewrite Hps. cbn [from_option id members res_bind].
  destruct (put_errors_ok isXml isOAS3 ps mss keys m Hok Hwm Hv Hk Hnd) as (m' & E & H1 & H2 & H3 & H4).
  destruct (validated e t n isXml isOAS3 ps m m' Hw Hn Hm H1 E) as (e' & -> & Hm').
  destruct (execute_answer e' [t; n] m' Hm') as (b & Hb & Hiff); [by apply wf_map in H1 as [? _]|done|].
  exists e', b. split; [done|]. split; [done|]. by rewrite Hiff, (answer_split m m' keys mss).
Qed.

(** ** What is entered is read *)

(** Literal names of members name different things, also for a list. *)
Lemma apart_literals a b : js a <> js b -> (forall n, list_index (ks a) n = None) -> apart (ks a) (ks b).
Proof. intros Hab Ha. split; [congruence|]. intros n i. by rewrite Ha. Qed.

Lemma spec_frame p e e' :
  (forall q, parted (in_meta p) q -> getIn q e' = getIn q e) -> specJsonWithResolvedSubtrees e' = specJsonWithResolvedSubtrees e.
Proof.
  intros H. assert (Hg : forall k, apart (ks "meta") k -> get k e' = get k e).
  { intros k Hk. specialize (H [k] (or_introl Hk)). cbn [getIn] in H. destruct (get k e'), (get k e); congruence. }
  unfold specJsonWithResolvedSubtrees. rewrite !Hg by (apply apart_literals; [by vm_compute|intros n; vm_compute; reflexivity]). done.
Qed.

Lemma hash_key_longer u k h : param_key (Some u) = Ok k -> hash_key u = Ok h -> k <> h.
Proof. unfold hash_key. intros ->. cbn [res_bind]. intros [= <-] E. apply (f_equal length) in E. rewrite length_app in E. cbn in E. lia. Qed.

(** The entry of a parameter with a member set. *)
Definition entry_set (k q : key) (v : node) (m : list (key * node)) : node :=
  TMap (map_set q v (match map_get k m with Some (TMap c) => c | _ => [] end)).

(** The second of two maps has [v] at [q] and else what the first one has. *)
Definition changed (q : key) (v x y : node) : Prop :=
  exists m n, x = TMap m /\ y = TMap n /\ map_get q n = Some v /\ forall k, k <> q -> map_get k n = map_get k m.

(** The key [c] is one under which entries for the parameter [u] are read: that of its hash, or that
    of its name, and then with no entry of the hash that has the member [q] as well. *)
Definition names_entry (m : list (key * node)) (u : node) (q : key) (c h : jsstring) : Prop :=
  c = h \/ (param_key (Some u) = Ok c /\ forall w, map_get (KStr h) m = Some (TMap w) -> map_get q w = None).

(** The members of an entry. *)
Definition entry_members (c : jsstring) (m : list (key * node)) : list (key * node) := match map_get (KStr c) m with Some (TMap w) => w | _ => [] end.

Lemma entries_members c m :
  Forall (fun kx => entry_ok (snd kx)) m -> wf (TMap m) -> entries (map_get (KStr c) m) = Ok (entry_members c m) /\ NoDup (map fst (entry_members c m)).
Proof.
  intros Hm Hw. unfold entry_members. destruct (map_get (KStr c) m) as [x|] eqn:Ex; [|by split; [|constructor]].
  assert (entry_ok x) as Hx by (apply map_get_elem in Ex; rewrite list.Forall_forall in Hm; exact (Hm _ Ex)).
  destruct x as [|w|]; try done. split; [done|]. by apply (wf_get (KStr c) (TMap m)), wf_map in Ex as [? _].
Qed.

Lemma with_meta_changed m u c h q v e y :
  Forall (fun kx => entry_ok (snd kx)) m -> wf (TMap m) -> hash_key u = Ok h -> names_entry m u q c h ->
  with_meta (TMap m) (Some u) e = Ok y ->
  exists y', with_meta (TMap (map_set (KStr c) (entry_set (KStr c) q v m) m)) (Some u) e = Ok y' /\ changed q v y y'.
Proof.
  intros Hm Hw Hh Hc. unfold with_meta. destruct (param_key (Some u)) as [k|] eqn:Ek; [|done]. cbn [res_bind get_method get]. rewrite Hh. cbn [res_bind get_method get].
  assert (Hkh : k <> h) by by eapply hash_key_longer. rewrite !map_get_set.
  destruct (entries_members k m Hm Hw) as [Ekm Nk], (entries_members h m Hm Hw) as [Ehm Nh]. rewrite Ekm, Ehm.
  destruct (entries (Some e)) as [a|]; [|done]. cbn [res_bind]. intros [= <-]. unfold names_entry in Hc. rewrite Ek in Hc. destruct Hc as [->|[[= <-] Hq]].
  - rewrite decide_False by congruence. rewrite decide_True by done. rewrite Ekm. cbn [res_bind entries entry_set]. eexists. split; [done|]. eexists _, _. split; [done|]. split; [done|].
    fold (entry_members h m). unfold merge. cbn [foldl].
    split; [|intros k' Hk']; rewrite !fold_set_get by (try apply map_set_nodup; done); rewrite map_get_set; [by rewrite decide_True|]. rewrite decide_False by congruence. by rewrite !(fold_set_get _ (entry_members _ _)) by done.
  - rewrite decide_True by done. rewrite decide_False by congruence. rewrite Ehm. cbn [res_bind entries entry_set]. eexists. split; [done|]. eexists _, _. split; [done|]. split; [done|].
    fold (entry_members k m). unfold merge. cbn [foldl].
    assert (Hqh : map_get q (entry_members h m) = None) by (unfold entry_members; destruct (map_get (KStr h) m) as [[]|] eqn:E; try done; by apply Hq).
    split; [|intros k' Hk']; rewrite !(fold_set_get _ (entry_members _ _)), !(fold_set_get _ (map_set _ _ _)), map_get_set by (try apply map_set_nodup; done); [by rewrite Hqh, decide_True|].
    by rewrite decide_False by congruence.
Qed.

Lemma res_map_ext {A B} (f g : A -> res B) l : (forall x, f x = g x) -> res_map f l = res_map g l.
Proof. intros H. induction l as [|x l IH]; cbn; [done|]. by rewrite H, IH. Qed.

Lemma res_map_rel {A B} (f g : A -> res B) (R : B -> B -> Prop) l ys :
  (forall x y, f x = Ok y -> exists y', g x = Ok y' /\ R y y') -> res_map f l = Ok ys -> exists ys', res_map g l = Ok ys' /\ Forall2 R ys ys'.
Proof.
  intros H. revert ys. induction l as [|x l IH]; intros ys; cbn; [intros [= <-]; by exists []|].
  destruct (f x) as [y|] eqn:E; [|done]. cbn. destruct (res_map f l) as [zs|]; [|done]. intros [= <-].
  destruct (H _ _ E) as (y' & -> & Hy). destruct (IH zs eq_refl) as (ys' & -> & Hys). cbn. eexists. split; [done|]. by constructor.
Qed.

Lemma same_param_changed u q v x y : q <> ks "in" -> q <> ks "name" -> changed q v x y -> same_param u y = same_param u x.
Proof. intros Hi Hn (m & n & -> & -> & _ & H). unfold same_param. cbn [get_method get]. by rewrite !H by done. Qed.

Lemma find_changed u q v xs ys x :
  q <> ks "in" -> q <> ks "name" -> Forall2 (changed q v) xs ys -> find_node (same_param u) xs = Ok (Some x) ->
  exists y, find_node (same_param u) ys = Ok (Some y) /\ changed q v x y.
Proof.
  intros Hi Hn. induction 1 as [|a b xs ys Hab _ IH]; [done|]. cbn [find_node]. rewrite (same_param_changed u q v a b Hi Hn Hab).
  destruct (same_param u a) as [[]|]; [|done..]. cbn [res_bind]. intros [= <-]. by exists b.
Qed.

Definition value_key (isXml : bool) : key := if isXml then ks "value_xml" else ks "value".

Lemma value_key_ne b : value_key b <> ks "in" /\ value_key b <> ks "name".
Proof. split; by destruct b; vm_compute. Qed.

(** The state after UPDATE_PARAM. *)
Lemma param_updated e pm m name in_ param h v isXml :
  wf e -> wf v -> navigable false (in_meta pm ++ [ks "parameters"]) e -> meta_entries e pm = Some m -> Forall (fun kx => entry_ok (snd kx)) m ->
  updated_key name in_ param = Ok h ->
  exists e', reduce e (UPDATE_PARAM pm name in_ param v isXml) = Ok (Some e') /\
             meta_entries e' pm = Some (map_set (KStr h) (entry_set (KStr h) (value_key isXml) v m) m) /\
             specJsonWithResolvedSubtrees e' = specJsonWithResolvedSubtrees e.
Proof.
  intros Hw Hv Hn Hm Hok Hh. cbn [reduce]. rewrite Hh. cbn [res_bind].
  set (m1 := map_set (KStr h) (entry_set (KStr h) (value_key isXml) v m) m). assert (Hwm := meta_wf _ _ _ Hw Hm).
  set (p := in_meta pm ++ [ks "parameters"]) in *.
  assert (Hp : update_path (getIn p e) [KStr h; value_key isXml] (fun _ => Ok (Put v)) = Ok (Put (TMap m1))).
  { unfold meta_entries in Hm. fold p in Hm. subst m1. unfold entry_set. destruct (getIn p e) as [[|m'|]|]; simplify_eq; [|done]. cbn [update_path get].
    destruct (map_get (KStr h) m) as [x|] eqn:Ex; [|done].
    assert (entry_ok x) as Hx by (apply map_get_elem in Ex; rewrite list.Forall_forall in Hok; exact (Hok _ Ex)). by destruct x. }
  assert (wf (TMap m1)) as Hw1.
  { eapply (wf_set (KStr h) _ (TMap m)); [done| |done]. eapply (wf_set (value_key isXml) v (TMap _)); [done..|].
    destruct (map_get (KStr h) m) as [[|c|]|] eqn:Ex; try (split; [constructor|done]). by apply (wf_get (KStr h) (TMap m)). }
  destruct (updateIn_app p [KStr h; value_key isXml] (fun _ => Ok (Put v)) (Put (TMap m1)) e) as (e' & He' & _ & Hg & Hf); [by destruct pm|done..|].
  exists e'. split_and!.
  - unfold setIn. rewrite <- He'. subst p. unfold value_key. rewrite <- app_assoc. by destruct isXml.
  - unfold meta_entries. fold p. by rewrite Hg.
  - apply (spec_frame pm). intros q Hq. by apply Hf, parted_app.
Qed.

Lemma entries_or e pm m : meta_entries e pm = Some m -> getIn_or (in_meta pm ++ [ks "parameters"]) (TMap []) e = TMap m.
Proof. unfold meta_entries, getIn_or. destruct (getIn _ e) as [[]|]; by intros [= <-]. Qed.

(** C8: what the user enters for a parameter is what is read, and nothing else is. After
    UPDATE_PARAM for a parameter of an operation, which is given itself, or by its name and
    location when no value was entered before for the parameter itself, the selector gives for that
    parameter the value just entered, with all its other members as before; for any other
    parameter it gives what it gave; and the description of the API has not changed. *)
Theorem update_param_read e pm m name in_ param c u h v isXml x :
  wf e -> wf v -> navigable false (in_meta pm ++ [ks "parameters"]) e -> meta_entries e pm = Some m -> Forall (fun kx => entry_ok (snd kx)) m ->
  updated_key name in_ param = Ok c -> hash_key (TMap u) = Ok h -> names_entry m (TMap u) (value_key isXml) c h ->
  parameterWithMetaByIdentity e pm (Some (TMap u)) = Ok (Some x) ->
  exists e' y, reduce e (UPDATE_PARAM pm name in_ param v isXml) = Ok (Some e') /\
    parameterWithMetaByIdentity e' pm (Some (TMap u)) = Ok (Some y) /\
    get (value_key isXml) y = Some v /\ (forall k, k <> value_key isXml -> get k y = get k x) /\
    (forall n, hash_key n <> Ok c -> param_key (Some n) <> Ok c -> parameterWithMetaByIdentity e' pm (Some n) = parameterWithMetaByIdentity e pm (Some n)) /\
    specJsonWithResolvedSubtrees e' = specJsonWithResolvedSubtrees e.
Proof.
  intros Hw Hv Hn Hm Hok Hc Hh Hce Hx. destruct (param_updated e pm m name in_ param c v isXml Hw Hv Hn Hm Hok Hc) as (e' & He' & Hm' & Hs). exists e'.
  unfold parameterWithMetaByIdentity in *. rewrite Hs, (entries_or _ _ _ Hm), (entries_or _ _ _ Hm') in *.
  destruct (specJsonWithResolvedSubtrees e) as [d|]; [|done]. cbn [res_bind] in *. destruct (members _) as [l|]; [|done]. cbn [res_bind] in *.
  destruct (res_map _ l) as [xs|] eqn:El; [|done]. cbn [res_bind] in *.
  destruct (res_map_rel _ _ _ _ _ (fun e0 y0 => with_meta_changed m (TMap u) c h (value_key isXml) v e0 y0 Hok (meta_wf _ _ _ Hw Hm) Hh Hce) El) as (ys & Ey & HR).
  destruct (find_changed _ _ _ _ _ _ (proj1 (value_key_ne isXml)) (proj2 (value_key_ne isXml)) HR Hx) as (y & Hy & m1 & m2 & -> & -> & H1 & H2).
  exists (TMap m2). rewrite Ey. split_and!; [exact He'|exact Hy|exact H1|exact H2| |done].
  intros n Hnh Hnk. f_equal. apply res_map_ext. intros e0. unfold with_meta. destruct (param_key (Some n)) as [k|]; [|done]. cbn [res_bind get_method get].
  destruct (hash_key n) as [h'|]; cbn [res_bind get_method get]; rewrite ?map_get_set, ?decide_False by congruence; done.
Qed.

(** ** Forgetting the errors *)

Definition cleared (kx : key * node) : key * node := (fst kx, match snd kx with TMap c => TMap (map_set (ks "errors") (TList []) c) | x => x end).

Lemma clear_map m :
  Forall (fun kx => entry_ok (snd kx)) m ->
  res_map (fun kv => let! v := set (ks "errors") (TList []) (snd kv) in Ok (fst kv, v)) m = Ok (map cleared m).
Proof. induction 1 as [|[k x] m Hx _ IH]; [done|]. cbn [res_map map snd fst]. destruct x as [|c|]; try done. cbn [set res_bind]. by rewrite IH. Qed.

Lemma cleared_get k m : map_get k (map cleared m) = option_map (fun x => snd (cleared (k, x))) (map_get k m).
Proof. induction m as [|[k' x] m IH]; [done|]. cbn. by destruct (decide (k' = k)). Qed.

Lemma cleared_ok m : Forall (fun kx => entry_ok (snd kx)) m -> Forall (fun kx => entry_ok (snd kx) /\ errors_of (snd kx) = []) (map cleared m).
Proof.
  induction 1 as [|[k x] m Hx _ IH]; cbn [map]; constructor; [|done]. destruct x as [|c|]; try done. unfold errors_of. cbn [cleared snd entry_ok get].
  by rewrite map_get_set, decide_True.
Qed.

Lemma cleared_wf m : wf (TMap m) -> wf (TMap (map cleared m)).
Proof.
  rewrite !wf_map. intros [Hn Hm]. split; [by rewrite map_map|]. clear Hn. induction Hm as [|[k x] m Hx _ IH]; cbn [map]; constructor; [|done].
  destruct x as [|c|]; [done| |done]. by eapply (wf_set (ks "errors") (TList []) (TMap c)).
Qed.

(** CLEAR_VALIDATE_PARAMS lets the request through: afterwards validateBeforeExecute answers
    yes, and nothing but the errors of the entries has changed, neither in the entries of the
    operation nor anywhere else in the state. *)
Theorem clear_allows e pm m :
  wf e -> navigable false (in_meta pm ++ [ks "parameters"]) e -> meta_entries e pm = Some m -> Forall (fun kx => entry_ok (snd kx)) m ->
  exists e' m', reduce e (CLEAR_VALIDATE_PARAMS pm) = Ok (Some e') /\ validateBeforeExecute e' pm = Ok true /\
    meta_entries e' pm = Some m' /\
    (forall k j, j <> ks "errors" -> (x ← map_get k m'; get j x) = (x ← map_get k m; get j x)) /\
    (forall q, parted (in_meta pm ++ [ks "parameters"]) q -> getIn q e' = getIn q e).
Proof.
  intros Hw Hn Hm Hok. set (p := in_meta pm ++ [ks "parameters"]) in *. assert (Hwm := meta_wf _ _ _ Hw Hm).
  set (y := match m with [] => Same | _ => Put (TMap (map cleared m)) end).
  destruct (updateIn_placed p clear_errors y e) as (e' & He' & _ & Hg & Hf); [by destruct pm|done|by subst y; destruct m| |subst y; destruct m; [done|by apply cleared_wf]|].
  { unfold clear_errors. assert (Hd : getIn p e = Some (TMap m) \/ (getIn p e = None /\ m = [])).
    { unfold meta_entries in Hm. fold p in Hm. destruct (getIn p e) as [[]|]; simplify_eq; auto. }
    destruct Hd as [->|[-> ->]]; [|done]. subst y. destruct m as [|kx m]; [done|]. cbn [from_option id]. by rewrite (clear_map _ Hok). }
  assert (Hm' : meta_entries e' pm = Some (map cleared m)).
  { unfold meta_entries in *. fold p in Hm |- *. rewrite Hg. subst y. by destruct m. }
  exists e', (map cleared m). split_and!; [done| |done| |done].
  - assert (Hc := cleared_ok m Hok). destruct (execute_answer e' pm _ Hm') as (b & -> & Hb); [by apply cleared_wf, wf_map in Hwm as [? _]|by eapply list.Forall_impl; [exact Hc|intros ? [? _]]|].
    f_equal. apply Hb. intros k x Hx%map_get_elem. rewrite list.Forall_forall in Hc. by destruct (Hc _ Hx).
  - intros k j Hj. rewrite cleared_get. destruct (map_get k m) as [[|c|]|]; try done. cbn [option_map cleared snd mbind option_bind get]. by rewrite map_get_set, decide_False by congruence.
Qed.

End Page.
(** ** Examples *)

Definition pet : list key := [ks "/pet"; ks "get"].
Definition param_id : list (key * node) := [(ks "name", Leaf (Str (js "id"))); (ks "in", Leaf (Str (js "query"))); (ks "type", Leaf (Str (js "integer"))); (ks "required", Leaf (Bool true))].
Definition param_q : list (key * node) := [(ks "name", Leaf (Str (js "q"))); (ks "in", Leaf (Str (js "query"))); (ks "type", Leaf (Str (js "string")))].
Definition page (entered : list (key * node)) : node :=
  TMap [(ks "json", TMap [(ks "paths", TMap [(ks "/pet", TMap [(ks "get", TMap [(ks "parameters", TList [TMap param_id; TMap param_q])])])])]);
        (ks "meta", TMap [(ks "paths", TMap [(ks "/pet", TMap [(ks "get", TMap [(ks "parameters", TMap entered)])])])])].
Definition entered : list (key * node) := [(ks "id.query.hash-7", TMap [(ks "value", Leaf (Str (js "x")))]); (ks "old.query", TMap [(ks "errors", TList [])])].
Definition stale : list (key * node) := [(ks "id.query.hash-7", TMap [(ks "value", Leaf (Str (js "1")))]); (ks "old.query", TMap [(ks "errors", TList [Leaf (Str (js "bad"))])])].

Definition engine_match (_ _ : jsstring) : res bool := Ok true.
Definition engine_yes (_ : jsstring) : bool := true.
Definition hash7 (_ : node) : Z := 7.

Ltac nodup := apply (bool_decide_unpack (NoDup _)); by vm_compute.

Lemma page_wf m : wf (TMap m) -> wf (page m).
Proof. intros H. cbn [page wf]. repeat split; try (apply H); nodup. Qed.

Lemma execute_gate_witness :
  exists e' b, reduce engine_match engine_yes engine_yes hash7 (page entered) (VALIDATE_PARAMS (ks "/pet") (ks "get") false) = Ok (Some e') /\
               validateBeforeExecute e' pet = Ok b /\ b = false.
Proof.
  destruct (execute_gate engine_match engine_yes engine_yes hash7 (page entered) (ks "/pet") (ks "get") false false
              (match operationWithMeta hash7 (page entered) (ks "/pet") (ks "get") with Ok f => f | Throw _ => Leaf Undefined end)
              [TMap (param_id ++ [(ks "value", Leaf (Str (js "x")))]); TMap param_q]
              [[Message (js "Value must be an integer")]; []] [js "id.query"; js "q.query"] entered) as (e' & b & H1 & H2 & H3).
  - apply page_wf. cbn [entered wf]. repeat split; nodup.
  - by vm_compute.
  - by vm_compute.
  - repeat constructor.
  - by vm_compute.
  - by vm_compute.
  - by vm_compute.
  - by vm_compute.
  - by vm_compute.
  - nodup.
  - exists e', b. split; [exact H1|]. split; [exact H2|]. destruct b; [|done]. destruct H3 as [H3 _]. destruct (H3 eq_refl) as [H _]. apply list.Forall_cons in H as [H _]. done.
Defined.

(** The parameter itself, and the other one by its name. *)
Lemma update_param_read_witness :
  (exists e' y, reduce engine_match engine_yes engine_yes hash7 (page entered) (UPDATE_PARAM pet None None (Some (TMap param_id)) (Leaf (Str (js "12"))) false) = Ok (Some e') /\
    parameterWithMetaByIdentity hash7 e' pet (Some (TMap param_id)) = Ok (Some y) /\ get (ks "value") y = Some (Leaf (Str (js "12")))) /\
  (exists e' y, reduce engine_match engine_yes engine_yes hash7 (page entered) (UPDATE_PARAM pet (Some (js "q")) (Some (js "query")) None (Leaf (Str (js "12"))) false) = Ok (Some e') /\
    parameterWithMetaByIdentity hash7 e' pet (Some (TMap param_q)) = Ok (Some y) /\ get (ks "value") y = Some (Leaf (Str (js "12")))).
Proof.
  split.
  - destruct (update_param_read engine_match engine_yes engine_yes hash7 (page entered) pet entered None None (Some (TMap param_id)) (js "id.query.hash-7") param_id (js "id.query.hash-7")
                (Leaf (Str (js "12"))) false (TMap (param_id ++ [(ks "value", Leaf (Str (js "x")))]))) as (e' & y & H1 & H2 & H3 & _);
      [apply page_wf; cbn [entered wf]; repeat split; nodup|done|by vm_compute|by vm_compute|repeat constructor|by vm_compute|by vm_compute|by left|by vm_compute|by exists e', y].
  - destruct (update_param_read engine_match engine_yes engine_yes hash7 (page entered) pet entered (Some (js "q")) (Some (js "query")) None (js "q.query") param_q (js "q.query.hash-7")
                (Leaf (Str (js "12"))) false (TMap param_q)) as (e' & y & H1 & H2 & H3 & _);
      [apply page_wf; cbn [entered wf]; repeat split; nodup|done|by vm_compute|by vm_compute|repeat constructor|by vm_compute|by vm_compute| |by vm_compute|by exists e', y].
    right. split; [by vm_compute|]. intros w. by vm_compute.
Defined.

Lemma clear_allows_witness :
  exists e', reduce engine_match engine_yes engine_yes hash7 (page stale) (CLEAR_VALIDATE_PARAMS pet) = Ok (Some e') /\ validateBeforeExecute e' pet = Ok true.
Proof.
  destruct (clear_allows engine_match engine_yes engine_yes hash7 (page stale) pet stale) as (e' & m' & H1 & H2 & _).
  - apply page_wf. cbn [stale wf]. repeat split; nodup.
  - by vm_compute.
  - by vm_compute.
  - repeat constructor.
  - by exists e'.
Defined.

(** Four things go wrong. An error left in an entry whose parameter the operation no longer
    has keeps the request from being sent although every parameter is in order. SET_SCHEME with a
    path and no method makes the whole state undefined. parameterWithMeta throws a TypeError for a
    parameter that the operation does not have, since the map meant for that case is passed to
    find as the value of [this]. And a value entered by name is not read when one was entered
    before for the parameter itself. *)
Theorem spec_defects :
  (exists e', reduce engine_match engine_yes engine_yes hash7 (page stale) (VALIDATE_PARAMS (ks "/pet") (ks "get") false) = Ok (Some e') /\
              getIn (in_meta pet ++ [ks "parameters"; ks "id.query"; ks "errors"]) e' = Some (TList []) /\
              getIn (in_meta pet ++ [ks "parameters"; ks "q.query"; ks "errors"]) e' = Some (TList []) /\
              validateBeforeExecute e' pet = Ok false) /\
  reduce engine_match engine_yes engine_yes hash7 (page entered) (SET_SCHEME (Leaf (Str (js "https"))) (Some (js "/pet")) None) = Ok None /\
  parameterWithMeta hash7 (page entered) pet (js "unknown") (js "query") = Throw (TypeError "get is not a function") /\
  (exists e' y, reduce engine_match engine_yes engine_yes hash7 (page entered) (UPDATE_PARAM pet (Some (js "id")) (Some (js "query")) None (Leaf (Str (js "12"))) false) = Ok (Some e') /\
                parameterWithMetaByIdentity hash7 e' pet (Some (TMap param_id)) = Ok (Some y) /\ get (ks "value") y = Some (Leaf (Str (js "x")))).
Proof. split; [eexists; split; [by vm_compute|]; split_and!; by vm_compute|]. split; [by vm_compute|]. split; [by vm_compute|]. eexists _, _. split; [by vm_compute|]. split; by vm_compute. Qed.

End SpecState.
