(* ===== verification/SpecOps.v ===== *)
(** * The operations of a description, grouped by their tags

    Models the selectors of the spec plugin of Swagger UI that list the operations of the
    description, give them the content types of its root and group them by tags (lines 7569, 7609
    to 7632, and 7649 to 7687 of src/client/docs/swagger-ui/swagger-ui-bundle.js), and those that
    choose the content types of a request (lines 7547 to 7565, and 7756 to 7771).

    An Immutable Set is the list of its members, each once.  The order of the members of a
    plain Set is not modelled; it decides about the order of tags only. *)

From S2P Require Import Prelude.
From S2P Require Import JsString.
From S2P Require Import JsNum.
From S2P Require Import UiValidate.
From S2P Require Import ImmutableTree.
From S2P Require Import SpecState.
From Stdlib Require Import String.
From stdpp Require Import base numbers list strings option.
Open Scope Z_scope.

Module SpecOps.
Import UiValidate ImmutableTree SpecState.

(** ** The list of operations *)

Definition methods : list key := map (fun s => KStr (js s)) ["get"; "put"; "post"; "delete"; "options"; "head"; "patch"; "trace"]%string.

Definition key_node (k : key) : node := match k with KStr s => Leaf (Str s) | KNum z => Leaf (Number (JInt z)) end.
Definition key_text (k : key) : jsstring := match k with KStr s => s | KNum z => num_to_string z 10 end.

(** The entries that forEach of a collection goes over; nothing for what has no forEach. *)
Definition each (t : node) : list (key * node) :=
  match t with
  | Leaf _ => []
  | TMap m => m
  | TList l => imap (fun i x => (KNum (Z.of_nat i), x)) l
  end.

Definition operation (path method : key) (op : node) : node :=
  TMap [(ks "path", key_node path); (ks "method", key_node method); (ks "operation", op); (ks "id", Leaf (Str (key_text method ++ js "-" ++ key_text path)))].

Definition operations_of (paths : option node) : list node :=
  match paths with
  | None => []
  | Some t => flat_map (fun ne => flat_map (fun ro => if decide (fst ro ∈ methods) then [operation (fst ne) (fst ro) (snd ro)] else []) (each (snd ne))) (each t)
  end.

Definition operations (e : node) : res (list node) :=
  let! d := specJsonWithResolvedSubtrees e in
  Ok (operations_of (get (ks "paths") d)).

(** ** Sets *)

(** Set of a value: of the members of a list, of nothing. *)
Definition set_of (t : option node) : res (list value) :=
  match t with
  | None | Some (Leaf (Undefined | Null)) => Ok []
  | Some (TList l) =>
      let! l := res_map (fun x => match x with Leaf (Str s) => Ok (Str s) | _ => Throw outside end) l in
      Ok (foldl (fun r x => if existsb (fun y => match x, y with Str a, Str b => bool_decide (a = b) | _, _ => false end) r then r else r ++ [x]) [] l)
  | Some _ => Throw outside
  end.
Definition set_node (l : list value) : node := TList (map Leaf l).

(** [e.get("json", Map())], which the selector spec gives. *)
Definition spec (e : node) : node := default (TMap []) (get (ks "json") e).

Definition consumes (e : node) : res (list value) := let! x := get_method (ks "consumes") (Some (spec e)) in set_of x.
Definition produces (e : node) : res (list value) := let! x := get_method (ks "produces") (Some (spec e)) in set_of x.

(** What an operation takes over from the root, unless it has it; a Set is made of what it has. *)
Definition fill (k : key) (t : list value) (m : list (key * node)) : res (list (key * node)) :=
  match map_get k m with
  | None | Some (Leaf (Undefined | Null | Str [])) => Ok (map_set k (set_node t) m)
  | Some x => if truthy_node (Some x) then Ok m else Throw (TypeError "Expected Array or iterable object of values")
  end.

Definition inherit (t n : list value) (op : node) : res node :=
  match op with
  | TMap m => let! m := fill (ks "consumes") t m in let! m := fill (ks "produces") n m in Ok (TMap m)
  | _ => Ok (if truthy_node (Some op) then Leaf Undefined else TMap [])
  end.

Definition inherit_in (t n : list value) (o : node) : res node :=
  let! op := get_method (ks "operation") (Some o) in
  let! op := inherit t n (or_undefined op) in
  set (ks "operation") op o.

Definition operationsWithRootInherited (e : node) : res (list node) :=
  let! l := operations e in
  let! t := consumes e in
  let! n := produces e in
  res_map (inherit_in t n) l.

(** ** Tags *)

Definition tags (e : node) : res (list node) := let! t := get_method (ks "tags") (Some (spec e)) in members (default (TList []) t).

(** The groups: a map from tags to lists of operations. *)
Definition groups := list (key * node).
Definition push (g : key) (o : node) (m : groups) : groups :=
  map_set g (TList (match map_get g m with Some (TList l) => l ++ [o] | _ => [o] end)) m.

Definition value_key (v : value) : key := match v with Str s => KStr s | _ => KStr [] end.

Definition operation_tags (o : node) : res (list value) := set_of (getIn [ks "operation"; ks "tags"] o).

Definition add_operation (m : groups) (o : node) : res groups :=
  let! n := operation_tags o in
  match n with
  | [] => Ok (push (ks "default") o m)
  | _ => Ok (foldl (fun m g => push (value_key g) o m) m n)
  end.

Fixpoint add_operations (m : groups) (l : list node) : res groups :=
  match l with
  | [] => Ok m
  | o :: l => let! m := add_operation m o in add_operations m l
  end.

Fixpoint declare (m : groups) (l : list node) : res groups :=
  match l with
  | [] => Ok m
  | t :: l =>
      let! n := get_method (ks "name") (Some t) in
      match n with
      | Some (Leaf (Str s)) => declare (map_set (KStr s) (TList []) m) l
      | _ => Throw outside
      end
  end.

Definition operationsWithTags (e : node) : res groups :=
  let! l := operationsWithRootInherited e in
  let! t := tags e in
  let! m := declare [] t in
  add_operations m l.

Fixpoint find_tag (t : jsstring) (l : list node) : option node :=
  match l with
  | [] => None
  | (TMap m as x) :: l => match map_get (ks "name") m with Some (Leaf (Str s)) => if decide (s = t) then Some x else find_tag t l | _ => find_tag t l end
  | _ :: l => find_tag t l
  end.
Definition tagDetails (e : node) (t : jsstring) : res (option node) :=
  let! ts := get_method (ks "tags") (Some (spec e)) in
  let! l := if truthy_node ts then members (default (TList []) ts) else Ok [] in
  Ok (find_tag t l).

(** ** Content types *)

Definition member_is (k : string) (t : jsstring) (x : node) : bool :=
  match x with TMap m => match map_get (ks k) m with Some (Leaf (Str s)) => bool_decide (s = t) | _ => false end | _ => false end.
Definition parametersIncludeIn (e : node) (t : jsstring) : bool := match e with TList l => existsb (member_is "in" t) l | _ => false end.
Definition parametersIncludeType (e : node) (t : jsstring) : bool := match e with TList l => existsb (member_is "type" t) l | _ => false end.

(** [a || b]. *)
Definition or_else (a b : option node) : option node := if truthy_node a then a else b.

Definition currentProducesFor (e : node) (t : list key) : res (option node) :=
  let! d := specJsonWithResolvedSubtrees e in
  match getIn (in_paths t) d with
  | None | Some (Leaf Null) => Ok None
  | Some (Leaf _) => Throw (TypeError "getIn is not a function")
  | Some n =>
      let r := getIn (in_meta t ++ [ks "produces_value"]) e in
      let o := getIn [ks "produces"; KNum 0] n in
      Ok (or_else r (or_else o (Some (Leaf (Str (js "application/json"))))))
  end.

Definition requestContentType (a : node) (chosen : option node) : option node :=
  if truthy_node chosen then chosen
  else if parametersIncludeType a (js "file") then Some (Leaf (Str (js "multipart/form-data")))
  else if parametersIncludeType a (js "formData") then Some (Leaf (Str (js "application/x-www-form-urlencoded")))
  else None.

Definition contentTypeValues (e : node) (t : list key) : res (option node * option node) :=
  let! d := specJsonWithResolvedSubtrees e in
  let n := getIn_or (in_paths t) (TMap []) d in
  let r := getIn_or (in_meta t) (TMap []) e in
  let! o := currentProducesFor e t in
  let! a := get_method (ks "parameters") (Some n) in
  let! c := get_method (ks "consumes_value") (Some r) in
  Ok (requestContentType (default (TList []) (or_else a (Some (TList [])))) c, o).

Definition operationConsumes (e : node) (t : list key) : res node :=
  let! d := specJsonWithResolvedSubtrees e in
  Ok (getIn_or (in_paths t ++ [ks "consumes"]) (TMap []) d).

(** ** Every operation is under each of its tags *)

Lemma operations_complete paths o :
  o ∈ operations_of (Some (TMap paths)) <->
  exists p item r op, (p, item) ∈ paths /\ (r, op) ∈ each item /\ r ∈ methods /\ o = operation p r op.
Proof.
  unfold operations_of. cbn [each]. rewrite list_elem_of_In, in_flat_map. split.
  - intros ([p item] & Hp & ([r op] & Hr & Ho)%in_flat_map). cbn [fst snd] in *. destruct (decide (r ∈ methods)); [|done]. destruct Ho as [<-|[]].
    exists p, item, r, op. split_and!; [by apply list_elem_of_In..|done|done].
  - intros (p & item & r & op & Hp & Hr & Hm & ->). exists (p, item). split; [by apply list_elem_of_In|]. apply in_flat_map. exists (r, op). split; [by apply list_elem_of_In|].
    cbn [fst snd]. rewrite decide_True by done. by left.
Qed.

(** The keys of the groups an operation belongs to. *)
Definition group_keys (o : node) : list key :=
  match operation_tags o with Ok [] => [ks "default"] | Ok n => map value_key n | Throw _ => [] end.

Lemma push_get g g' o m :
  map_get g' (push g o m) = if decide (g = g') then Some (TList (match map_get g m with Some (TList l) => l ++ [o] | _ => [o] end)) else map_get g' m.
Proof. unfold push. apply map_get_set. Qed.

(** What a group holds. *)
Definition held (m : groups) (g : key) : list node := match map_get g m with Some (TList l) => l | _ => [] end.

Lemma push_held g g' o m : held (push g o m) g' = held m g' ++ (if decide (g = g') then [o] else []).
Proof. unfold held. rewrite push_get. destruct (decide (g = g')) as [<-|]; [|by rewrite app_nil_r]. by destruct (map_get g m) as [[]|]. Qed.
Lemma push_some g g' o m : is_Some (map_get g' (push g o m)) <-> g = g' \/ is_Some (map_get g' m).
Proof. rewrite push_get. destruct (decide (g = g')); [|tauto]. split; [by left|eauto]. Qed.

Lemma pushes n o : forall m g, NoDup n ->
  held (foldl (fun m g => push g o m) m n) g = held m g ++ (if decide (g ∈ n) then [o] else []) /\
  (is_Some (map_get g (foldl (fun m g => push g o m) m n)) <-> g ∈ n \/ is_Some (map_get g m)).
Proof.
  induction n as [|x n IH]; intros m g Hn; cbn [foldl].
  { rewrite decide_False by apply not_elem_of_nil. rewrite app_nil_r. split; [done|]. split; [by right|]. intros [?%not_elem_of_nil|?]; done. }
  apply list.NoDup_cons in Hn as [Hx Hn]. destruct (IH (push x o m) g Hn) as [IH1 IH2]. rewrite IH1, IH2. split; [rewrite push_held|rewrite push_some, elem_of_cons; naive_solver].
  rewrite <- app_assoc. f_equal. destruct (decide (x = g)) as [<-|Hxg]; [rewrite decide_False by done; by rewrite decide_True by (by left)|].
  destruct (decide (g ∈ n)); [by rewrite decide_True by (by right)|]. rewrite decide_False; [done|]. intros [?|?]%elem_of_cons; congruence.
Qed.

Lemma set_of_strings t n : set_of t = Ok n -> Forall (fun v => exists s, v = Str s) n /\ NoDup (map value_key n).
Proof.
  destruct t as [[[]| |l]|]; cbn [set_of]; try done; try (intros [= <-]; split; constructor).
  destruct (res_map _ l) as [vs|] eqn:E; [|done]. cbn [res_bind]. intros [= <-].
  assert (Hs : Forall (fun v => exists s, v = Str s) vs).
  { clear -E. revert vs E. induction l as [|x l IH]; intros vs; cbn [res_map]; [by intros [= <-]|]. destruct x as [[]| |]; try done. cbn [res_bind].
    destruct (res_map _ l) as [ws|]; [|done]. intros [= <-]. constructor; eauto. }
  clear E. set (add := fun _ _ => _). assert (H0 : Forall (fun v => exists s, v = Str s) [] /\ NoDup (map value_key [])) by (split; constructor).
  revert H0. generalize (@nil value) as r. induction Hs as [|x vs [s ->] Hs IH]; intros r [Hr Hn]; [done|]. cbn [foldl]. apply IH. subst add. cbn beta.
  destruct (existsb _ r) eqn:Ex; [done|]. split; [by apply Forall_app_2; [|repeat econstructor]|]. rewrite map_app. apply list.NoDup_app. split; [done|]. split; [|apply NoDup_singleton].
  intros k (v & -> & Hv)%list_elem_of_fmap E%list_elem_of_singleton. apply not_true_iff_false in Ex. apply Ex, existsb_exists. exists v. split; [by apply list_elem_of_In|].
  rewrite list.Forall_forall in Hr. destruct (Hr v Hv) as [s' ->]. cbn in E. apply bool_decide_eq_true. congruence.
Qed.

(** One operation, and all of them. *)
Lemma add_operation_held m o n g :
  operation_tags o = Ok n ->
  exists m', add_operation m o = Ok m' /\ held m' g = held m g ++ (if decide (g ∈ group_keys o) then [o] else []) /\
             (is_Some (map_get g m') <-> g ∈ group_keys o \/ is_Some (map_get g m)).
Proof.
  intros Ho. destruct (set_of_strings _ _ Ho) as [_ Hn]. unfold add_operation, group_keys. rewrite Ho. cbn [res_bind].
  destruct n as [|v n]; [exists (foldl (fun m g => push g o m) m [ks "default"]); split; [done|]; apply pushes, NoDup_singleton|].
  exists (foldl (fun m g => push g o m) m (map value_key (v :: n))). split; [|by apply pushes].
  f_equal. generalize (v :: n). intros l. clear. revert m. induction l as [|x l IH]; intros m; cbn; [done|]. apply IH.
Qed.

Lemma add_operations_held l : forall m,
  Forall (fun o => exists n, operation_tags o = Ok n) l ->
  exists m', add_operations m l = Ok m' /\ forall g, held m' g = held m g ++ filter (fun o => g ∈ group_keys o) l /\
             (is_Some (map_get g m') <-> Exists (fun o => g ∈ group_keys o) l \/ is_Some (map_get g m)).
Proof.
  induction l as [|o l IH]; intros m Hl.
  { exists m. split; [done|]. intros g. rewrite app_nil_r, Exists_nil. tauto. }
  apply list.Forall_cons in Hl as [[n Ho] Hl]. destruct (add_operation_held m o n (ks "default") Ho) as (m1 & E1 & _).
  destruct (IH m1 Hl) as (m' & E & H). exists m'. cbn [add_operations]. rewrite E1. cbn [res_bind]. split; [done|]. intros g.
  destruct (add_operation_held m o n g Ho) as (m2 & E2 & H2 & H3). rewrite E1 in E2. injection E2 as <-. destruct (H g) as [H4 H5].
  rewrite H4, H5, H2, H3, Exists_cons. split; [|tauto]. rewrite <- app_assoc. f_equal. cbn [filter list_filter]. by destruct (decide (g ∈ group_keys o)).
Qed.

(** The declared tags start empty. *)
Definition tag_name (t : node) : option jsstring := match t with TMap m => match map_get (ks "name") m with Some (Leaf (Str s)) => Some s | _ => None end | _ => None end.
Lemma declared l : forall m names, map tag_name l = map Some names ->
  exists m', declare m l = Ok m' /\ forall g, (held m g = [] -> held m' g = []) /\ (is_Some (map_get g m') <-> g ∈ map KStr names \/ is_Some (map_get g m)).
Proof.
  induction l as [|t l IH]; intros m [|s names]; try done; cbn [map].
  { intros _. exists m. split; [done|]. intros g. split; [done|]. split; [by right|]. by intros [?%not_elem_of_nil|?]. }
  intros E. injection E as Et El. destruct t as [|x|]; try done. cbn [tag_name] in Et. destruct (map_get (ks "name") x) as [[[]| |]|] eqn:Ex; try done. injection Et as ->.
  destruct (IH (map_set (KStr s) (TList []) m) names El) as (m' & E' & H). exists m'. cbn [declare get_method get]. rewrite Ex. cbn [res_bind]. split; [done|].
  intros g. destruct (H g) as [H1 H2]. rewrite H2, map_get_set, elem_of_cons. split; [|destruct (decide (KStr s = g)); naive_solver].
  intros Hg. apply H1. unfold held in *. rewrite map_get_set. by destruct (decide (KStr s = g)).
Qed.

(** C10: the page shows every operation under each of its tags, and nowhere else. Let the tags of
    the operations and of the description be texts. Then there are groups for exactly the declared
    tags and the tags of operations, where an operation without tags counts as one with the tag
    default; and the group of a tag holds exactly the operations with that tag, each once and in
    the order of the description. *)
Theorem tags_complete e l ts names :
  operationsWithRootInherited e = Ok l -> Forall (fun o => exists n, operation_tags o = Ok n) l ->
  tags e = Ok ts -> map tag_name ts = map Some names ->
  exists m, operationsWithTags e = Ok m /\ forall g,
    held m g = filter (fun o => g ∈ group_keys o) l /\
    (is_Some (map_get g m) <-> g ∈ map KStr names \/ Exists (fun o => g ∈ group_keys o) l).
Proof.
  intros Hl Ho Ht Hn. unfold operationsWithTags. rewrite Hl, Ht. cbn [res_bind]. destruct (declared ts [] names Hn) as (m0 & -> & H0). cbn [res_bind].
  destruct (add_operations_held l m0 Ho) as (m & E & H). exists m. split; [done|]. intros g. destruct (H g) as [-> ->], (H0 g) as [H1 ->]. rewrite H1 by done.
  split; [done|]. assert (~ is_Some (map_get (L := value) g [])) by (intros [? [=]]). tauto.
Qed.

(** ** Examples *)

Definition str (s : string) : node := Leaf (Str (js s)).
Definition form_param : node := TMap [(ks "name", str "f"); (ks "in", str "formData"); (ks "type", str "string")].
Definition described : node :=
  TMap [(ks "json", TMap [(ks "tags", TList [TMap [(ks "name", str "pets")]]); (ks "consumes", TList [str "text/plain"]);
    (ks "paths", TMap [(ks "/pet", TMap [(ks "get", TMap [(ks "tags", TList [str "pets"; str "old"])]);
                                         (ks "post", TMap [(ks "parameters", TList [form_param])]); (ks "x-note", str "n")])])])].

Definition inherited_ops : list node := match operationsWithRootInherited described with Ok l => l | Throw _ => [] end.

Lemma tags_complete_witness :
  exists m, operationsWithTags described = Ok m /\ length (held m (ks "pets")) = 1%nat /\ length (held m (ks "old")) = 1%nat /\ length (held m (ks "default")) = 1%nat.
Proof.
  destruct (tags_complete described inherited_ops [TMap [(ks "name", str "pets")]] [js "pets"]) as (m & E & H).
  - by vm_compute.
  - repeat constructor; eexists; by vm_compute.
  - by vm_compute.
  - by vm_compute.
  - exists m. split; [exact E|]. destruct (H (ks "pets")) as [-> _], (H (ks "old")) as [-> _], (H (ks "default")) as [-> _]. split_and!; by vm_compute.
Defined.

(** No content type is chosen for a form. The selector asks whether a parameter has the type
    formData, which is a value of [in], so for every list of parameters none of which has such a
    type, whatever their places, there is no content type unless one of them is a file. *)
Theorem form_type_unset l :
  Forall (fun x => forall m s, x = TMap m -> map_get (ks "type") m = Some (Leaf (Str s)) -> s <> js "file" /\ s <> js "formData") l ->
  requestContentType (TList l) None = None.
Proof.
  intros H. unfold requestContentType, parametersIncludeType. cbn [truthy_node].
  assert (Hn : forall t, t = js "file" \/ t = js "formData" -> existsb (member_is "type" t) l = false).
  { intros t Ht. induction H as [|x l Hx _ IH]; [done|]. cbn [existsb]. rewrite IH, orb_false_r. destruct x as [|m|]; try done. unfold member_is.
    destruct (map_get (ks "type") m) as [[[]| |]|] eqn:E; try done. apply bool_decide_eq_false. destruct (Hx _ _ eq_refl E). naive_solver. }
  by rewrite !Hn by auto.
Qed.

Lemma form_type_unset_witness : requestContentType (TList [form_param]) None = None /\ parametersIncludeIn (TList [form_param]) (js "formData") = true.
Proof.
  split; [|by vm_compute]. apply (form_type_unset [form_param]). constructor; [|constructor]. intros m s [= <-]. vm_compute. intros [= <-]. done.
Defined.

End SpecOps.
