(* ===== verification/ClientStyle.v ===== *)
(** * The style serializer of swagger-client

    Models encodeDisallowedCharacters and the serialization of parameters by styles (lines 15238 to
    15344 of src/client/docs/swagger-ui/swagger-ui-bundle.js), with toByteArray (lines 33372 to
    33386) and stringToCharArray (lines 33476 to 33484) which they call, and shows that what is
    escaped can be decoded and taken apart again.

    Values are those of UiValidate.  The third argument of encodeDisallowedCharacters, which makes
    it parse JSON instead, is not given by the serializer and left out. *)

From S2P Require Import Prelude.
From S2P Require Import JsString.
From S2P Require Import JsNum.
From S2P Require Import Utf8.
From S2P Require Import Uri.
From S2P Require Import QueryString.
From S2P Require Import UiUtils.
From S2P Require Import UiValidate.
From Stdlib Require Import String.
From stdpp Require Import base numbers list strings option.
Open Scope Z_scope.

Module ClientStyle.
Import Utf8 Uri QueryString UiValidate.

(** ** Characters *)

(** stringToCharArray: a pair of surrogates, or else one unit. *)
Fixpoint stringToCharArray (e : jsstring) : list jsstring :=
  match e with
  | [] => []
  | r :: s =>
      match s with
      | o :: s' => if is_lead r && is_trail o then [r; o] :: stringToCharArray s' else [r] :: stringToCharArray s
      | [] => [[r]]
      end
  end.

(** toByteArray; surrogates that are not in pairs are written like other units. *)
Definition unit_bytes (r : Z) : list Z :=
  if 2048 <=? r then [224 + r / 64 / 64; 128 + r / 64 mod 64; 128 + r mod 64]
  else if 128 <=? r then [192 + r / 64; 128 + r mod 64]
  else [r].
Fixpoint toByteArray (e : jsstring) : list Z :=
  match e with
  | [] => []
  | r :: s =>
      match s with
      | o :: s' =>
          if (55296 <=? r) && (r <=? 56319) && ((56320 <=? o) && (o <=? 57343)) then
            let i := 1024 * (r - 55296) + o - 56320 + 65536 in
            [240 + i / 64 / 64 / 64; 128 + i / 64 / 64 mod 64; 128 + i / 64 mod 64; 128 + i mod 64] ++ toByteArray s'
          else unit_bytes r ++ toByteArray s
      | [] => unit_bytes r
      end
  end.

Definition letter_or_digit (c : Z) : bool := ((48 <=? c) && (c <=? 57)) || ((65 <=? c) && (c <=? 90)) || ((97 <=? c) && (c <=? 122)).
Definition unreserved_unit (c : Z) : bool := letter_or_digit c || bool_decide (c ∈ js "-._~").
Definition isRfc3986Unreserved (e : jsstring) : bool := negb (bool_decide (e = [])) && forallb unreserved_unit e.
Definition isRfc3986Reserved (e : jsstring) : bool := match e with [c] => bool_decide (c ∈ js ":/?#[]@!$&'()*+,;=") | _ => false end.

(** [toString(16).toUpperCase()] of a byte: no leading zero. *)
Definition hex_text (b : Z) : jsstring := if b <? 16 then [hex_upper b] else [hex_upper (b / 16); hex_upper (b mod 16)].

Inductive escape := NoEscape | Unsafe | Reserved.

Definition encode_char (t : escape) (e : jsstring) : jsstring :=
  if isRfc3986Unreserved e then e
  else if isRfc3986Reserved e && match t with Unsafe => true | _ => false end then e
  else flat_map (fun b => [37] ++ hex_text b) (toByteArray e).

Definition encode_text (t : escape) (s : jsstring) : jsstring := flat_map (encode_char t) (stringToCharArray s).

Definition encodeDisallowedCharacters (e : value) (t : escape) : value :=
  let e := match e with Number n => Str (jn_to_string n) | _ => e end in
  match e, t with
  | Str ((_ :: _) as s), (Unsafe | Reserved) => Str (encode_text t s)
  | _, _ => e
  end.

(** ** Styles *)

Inductive style := Simple | Label | Matrix | Form | SpaceDelimited | PipeDelimited | DeepObject | OtherStyle.

(** [l.join(t)]: null and undefined are empty. *)
Definition join_item (v : value) : jsstring := match v with Undefined | Null => [] | _ => text v end.
Definition join (t : jsstring) (l : list value) : jsstring := join_with t (map join_item l).

(** The loop of the matrix style. *)
Definition matrix_step (key : jsstring) (explode : bool) (e : jsstring) (n : value) : jsstring :=
  if bool_decide (e = []) || explode then e ++ js ";" ++ key ++ js "=" ++ text n else e ++ js "," ++ text n.

Definition encodeArray (key : jsstring) (l : list value) (r : style) (explode : bool) (t : escape) : value :=
  let u := map (fun e => encodeDisallowedCharacters e t) l in
  match r with
  | Simple => Str (join (js ",") u)
  | Label => Str (js "." ++ join (js ".") u)
  | Matrix => Str (foldl (matrix_step key explode) [] u)
  | Form => Str (join (if explode then js "&" ++ key ++ js "=" else js ",") u)
  | SpaceDelimited => Str (join (js " " ++ if explode then key ++ js "=" else []) u)
  | PipeDelimited => Str (join (js "|" ++ if explode then key ++ js "=" else []) u)
  | _ => Undefined
  end.

(** The loops over the members of an object: what begins the text, what separates members, and
    what separates a key from its value. *)
Definition member_step (first sep eq : jsstring) (t : escape) (e : jsstring) (kv : jsstring * value) : jsstring :=
  (if bool_decide (e = []) then first else e ++ sep) ++ fst kv ++ eq ++ text (encodeDisallowedCharacters (snd kv) t).
Definition encodeObject (key : jsstring) (o : list (jsstring * value)) (r : style) (explode : bool) (t : escape) : value :=
  match r with
  | Simple => Str (foldl (member_step [] (js ",") (if explode then js "=" else js ",") t) [] o)
  | Label => Str (foldl (member_step (js ".") (js ".") (if explode then js "=" else js ".") t) [] o)
  | Matrix => Str (if explode then foldl (member_step (js ";") (js ";") (js "=") t) [] o
                    else foldl (member_step (js ";" ++ key ++ js "=") (js ",") (js ",") t) [] o)
  | Form => Str (foldl (member_step [] (if explode then js "&" else js ",") (if explode then js "=" else js ",") t) [] o)
  | _ => Undefined
  end.

Definition encodePrimitive (key : jsstring) (v : value) (r : style) (t : escape) : value :=
  let a := encodeDisallowedCharacters v t in
  match r with
  | Simple | Form | DeepObject => a
  | Label => Str (js "." ++ text a)
  | Matrix => Str (js ";" ++ key ++ js "=" ++ text a)
  | _ => Undefined
  end.

(** The default export: an array, an object with its enumerable own members [members], or
    another value.  The keys of [null], which is an object too, cannot be listed. *)
Definition serialize (key : jsstring) (v : value) (members : list (jsstring * value)) (r : style) (explode : bool) (t : escape) : res value :=
  match v with
  | Array l => Ok (encodeArray key l r explode t)
  | Null => Throw (TypeError "Can't call method on null")
  | IList _ | File | Object => Ok (encodeObject key members r explode t)
  | _ => Ok (encodePrimitive key v r t)
  end.

(** ** Escaping can be undone *)

(** The characters that are left as they are. *)
Definition plain (t : escape) (c : Z) : bool :=
  unreserved_unit c || (isRfc3986Reserved [c] && match t with Unsafe => true | _ => false end).

Lemma listed_ascii c s : forallb (fun x => (0 <=? x) && (x <? 128) && negb (x =? 37)) s = true -> c ∈ s -> 0 <= c < 128 /\ c <> 37.
Proof. intros H Hin. rewrite forallb_forall in H. apply list_elem_of_In, H in Hin. lia. Qed.

Lemma plain_ascii t c : plain t c = true -> 0 <= c < 128 /\ c <> 37.
Proof.
  unfold plain, unreserved_unit, letter_or_digit, isRfc3986Reserved. rewrite !orb_true_iff, !andb_true_iff, !Z.leb_le, !bool_decide_eq_true.
  intros [[[[H|H]|H]|H]|[H _]]; [lia..| |]; revert H; by apply listed_ascii.
Qed.

Lemma chars_scalar c s : scalar c -> stringToCharArray (utf16_ref c ++ s) = utf16_ref c :: stringToCharArray s.
Proof.
  intros Hc. unfold utf16_ref. destruct (Z.ltb_spec c 65536); cbn [app stringToCharArray].
  - assert (is_lead c = false) as -> by (unfold is_lead; destruct Hc; lia). by destruct s.
  - assert (is_lead (55296 + (c - 65536) / 1024) && is_trail (56320 + (c - 65536) mod 1024) = true) as ->; [|done].
    unfold is_lead, is_trail. destruct Hc; [lia|]. dlia.
Qed.

Lemma bytes_scalar c : scalar c -> toByteArray (utf16_ref c) = utf8_ref c.
Proof.
  intros Hc. unfold utf16_ref, utf8_ref. destruct (Z.ltb_spec c 65536); cbn [toByteArray].
  - unfold unit_bytes. destruct (Z.leb_spec 2048 c), (Z.leb_spec 128 c), (Z.ltb_spec c 128), (Z.ltb_spec c 2048); try lia; rewrite ?Z.div_div by lia; done.
  - destruct (Z.ltb_spec c 128), (Z.ltb_spec c 2048); try lia.
    assert ((55296 <=? 55296 + (c - 65536) / 1024) && (55296 + (c - 65536) / 1024 <=? 56319) && ((56320 <=? 56320 + (c - 65536) mod 1024) && (56320 + (c - 65536) mod 1024 <=? 57343)) = true) as ->.
    { destruct Hc; [lia|]. dlia. }
    cbn [app]. replace (1024 * (55296 + (c - 65536) / 1024 - 55296) + (56320 + (c - 65536) mod 1024) - 56320 + 65536) with c by dlia.
    by rewrite !Z.div_div by lia.
Qed.

Lemma hex_percent b : 16 <= b -> [37] ++ hex_text b = percent b.
Proof. intros. unfold hex_text. by rewrite (proj2 (Z.ltb_ge _ _)) by lia. Qed.

Lemma utf8_ref_high c : 16 <= c < 1114112 -> Forall (fun b => 16 <= b) (utf8_ref c).
Proof. intros Hc. unfold utf8_ref. repeat case_match; repeat constructor; dlia. Qed.

Lemma encode_char_scalar t c : scalar c -> 16 <= c -> encode_char t (utf16_ref c) = encode_with (plain t) c.
Proof.
  intros Hc H16. unfold encode_char. rewrite bytes_scalar by done.
  assert (flat_map (fun b => [37] ++ hex_text b) (utf8_ref c) = flat_map percent (utf8_ref c)) as ->.
  { assert (16 <= c < 1114112) as Hr by (destruct Hc; lia). induction (utf8_ref_high c Hr) as [|b l Hb _ IH]; [done|]. cbn [flat_map]. by rewrite hex_percent, IH. }
  unfold encode_with, utf16_ref. destruct (Z.ltb_spec c 65536).
  - unfold plain, isRfc3986Unreserved. rewrite bool_decide_eq_false_2 by done. cbn [forallb negb andb]. rewrite andb_true_r.
    by destruct (unreserved_unit c), (isRfc3986Reserved [c] && _).
  - destruct (plain t c) eqn:E; [apply plain_ascii in E; lia|]. cbn [isRfc3986Reserved andb]. unfold isRfc3986Unreserved. cbn [forallb].
    destruct (unreserved_unit (55296 + (c - 65536) / 1024)) eqn:E'; [|done].
    assert (plain t (55296 + (c - 65536) / 1024) = true) as Hp by (unfold plain; by rewrite E'). apply plain_ascii in Hp. dlia.
Qed.

(** A text that can be written: no lone surrogate, no character that has one hexadecimal digit. *)
Definition writable (s : jsstring) : Prop := units_ok s /\ well_formed s = true /\ Forall (fun c => 16 <= c) s.

Lemma scalars_high s : writable s -> Forall (fun c => scalar c /\ 16 <= c) (scalars s).
Proof.
  intros (Hu & Hw & Hs). apply list.Forall_forall. intros c Hc. pose proof (scalars_scalar s Hu) as Hsc. rewrite list.Forall_forall in Hsc, Hs.
  split; [by apply Hsc|]. destruct (Z.le_gt_cases 16 c); [done|]. apply Hs. rewrite <- (well_formed_utf16 s) by done.
  apply list_elem_of_In, in_flat_map. exists c. split; [by apply list_elem_of_In|]. unfold utf16_ref. rewrite (proj2 (Z.ltb_lt _ _)) by lia. by left.
Qed.

Lemma encode_text_with t s : writable s -> encode_text t s = flat_map (encode_with (plain t)) (scalars s).
Proof.
  intros Hs. pose proof (scalars_high s Hs) as H. destruct Hs as (Hu & Hw & _). unfold encode_text. rewrite <- (well_formed_utf16 s) at 1 by done.
  induction H as [|c cs [Hc H16] _ IH]; [done|]. cbn [flat_map]. rewrite chars_scalar by done. cbn [flat_map]. by rewrite encode_char_scalar, IH.
Qed.

Lemma encode_text_decodes t s : writable s -> decodeURIComponent (encode_text t s) = Ok s.
Proof.
  intros Hs. rewrite encode_text_with by done. destruct Hs as (Hu & Hw & _). unfold decodeURIComponent.
  rewrite decode_loop_with; [by rewrite well_formed_utf16|apply plain_ascii|by apply scalars_scalar|done].
Qed.

Definition escape_chars : jsstring := js "%0123456789ABCDEF".

Lemma percent_chars b : byte_ok b -> Forall (fun c => c ∈ escape_chars) (percent b).
Proof.
  intros Hb. unfold byte_ok in Hb. assert (forall d, 0 <= d < 16 -> hex_upper d ∈ escape_chars) as Hh.
  { intros d Hd. assert (d ∈ seqZ 0 16) as Hi by (apply elem_of_seqZ; lia). clear Hd. revert d Hi. apply list.Forall_forall. by apply (bool_decide_unpack _). }
  unfold percent. rewrite !list.Forall_cons. split_and!; [by apply (bool_decide_unpack _)|apply Hh; dlia..|constructor].
Qed.

(** What an escaped text is made of. *)
Lemma encode_text_chars s c : writable s -> c ∈ encode_text Reserved s -> c ∈ escape_chars \/ (c ∈ s /\ unreserved_unit c = true).
Proof.
  intros Hs Hc. rewrite encode_text_with in Hc by done. pose proof (scalars_high s Hs) as H. destruct Hs as (Hu & Hw & _). rewrite <- (well_formed_utf16 s) by done.
  apply list_elem_of_In, in_flat_map in Hc as (x & Hx & Hc). rewrite <- list_elem_of_In in Hx, Hc. rewrite list.Forall_forall in H. destruct (H x Hx) as [Hsc H16].
  unfold encode_with in Hc. destruct (plain Reserved x) eqn:E.
  - right. apply list_elem_of_singleton in Hc as ->. pose proof (plain_ascii _ _ E) as [Ha _]. unfold plain in E. rewrite andb_false_r, orb_false_r in E. split; [|done].
    apply list_elem_of_In, in_flat_map. exists x. rewrite <- !list_elem_of_In. split; [done|]. unfold utf16_ref. rewrite (proj2 (Z.ltb_lt _ _)) by lia. by left.
  - left. apply list_elem_of_In, in_flat_map in Hc as (b & Hb & Hc). rewrite <- list_elem_of_In in Hb, Hc.
    assert (byte_ok b) as Hbo. { assert (0 <= x < 1114112) as Hr by (destruct Hsc; lia). pose proof (utf8_ref_bytes x Hr) as Hy. unfold bytes_ok in Hy. rewrite list.Forall_forall in Hy. by apply Hy. }
    pose proof (percent_chars b Hbo) as Hp. rewrite list.Forall_forall in Hp. by apply Hp.
Qed.

(** ** Arrays can be taken apart *)

(** What a style puts before an array and between its items. *)
Definition lead_in (key : jsstring) (r : style) : jsstring :=
  match r with Label => js "." | Matrix => js ";" ++ key ++ js "=" | _ => [] end.
Definition separator (key : jsstring) (r : style) (explode : bool) : jsstring :=
  match r with
  | Label => js "."
  | Matrix => if explode then js ";" ++ key ++ js "=" else js ","
  | Form => if explode then js "&" ++ key ++ js "=" else js ","
  | SpaceDelimited => js " " ++ if explode then key ++ js "=" else []
  | PipeDelimited => js "|" ++ if explode then key ++ js "=" else []
  | _ => js ","
  end.
Definition array_style (r : style) : bool := match r with DeepObject | OtherStyle => false | _ => true end.

(** Reading back what [serialize] writes. *)
Definition read_array (key : jsstring) (r : style) (explode : bool) (s : jsstring) : res (list jsstring) :=
  res_map decodeURIComponent (split_str (separator key r explode) 0 (drop (length (lead_in key r)) s)).

Lemma split_str_skip t n s : (n <= length s)%nat -> split_str t n s = split_str t 0 (drop n s).
Proof. revert s. induction n as [|n IH]; intros [|x s] H; try done. cbn in H. cbn [drop]. rewrite <- IH by lia. done. Qed.

Lemma split_str_piece c t p : c ∉ p -> split_str (c :: t) 0 p = [p].
Proof.
  induction p as [|x p IH]; intros H; [done|]. apply not_elem_of_cons in H as [Hx Hp]. cbn [split_str starts_with].
  by rewrite (proj2 (Z.eqb_neq c x)), IH.
Qed.

Lemma split_str_app c t p s : c ∉ p -> split_str (c :: t) 0 (p ++ (c :: t) ++ s) = p :: split_str (c :: t) 0 s.
Proof.
  induction p as [|x p IH]; intros H.
  - cbn [app split_str]. pose proof (UiUtils.starts_with_app (c :: t) s) as Hs. cbn [app] in Hs. rewrite Hs. cbn [length Nat.sub]. rewrite Nat.sub_0_r, split_str_skip by (rewrite length_app; lia).
    by rewrite drop_app_length.
  - apply not_elem_of_cons in H as [Hx Hp]. cbn [app split_str starts_with]. cbn [app] in IH. by rewrite (proj2 (Z.eqb_neq c x)), IH.
Qed.

(** Pieces without the first unit of the separator. *)
Lemma split_str_join c t l : l <> [] -> Forall (fun p => c ∉ p) l -> split_str (c :: t) 0 (join_with (c :: t) l) = l.
Proof.
  intros Hne H. induction H as [|p l Hp H IH]; [done|]. destruct l as [|q l]; [by apply split_str_piece|].
  change (join_with (c :: t) (p :: q :: l)) with (p ++ (c :: t) ++ join_with (c :: t) (q :: l)). by rewrite split_str_app, IH.
Qed.

Lemma encode_strings t l : t <> NoEscape -> map (fun e => encodeDisallowedCharacters e t) (map Str l) = map Str (map (encode_text t) l).
Proof. intros Ht. rewrite !map_map. apply map_ext. intros [|c s]; by destruct t. Qed.

Lemma join_strings sep l : join sep (map Str l) = join_with sep l.
Proof. unfold join. rewrite map_map. f_equal. apply map_id. Qed.

Lemma matrix_strings key explode l e : e <> [] ->
  foldl (matrix_step key explode) e (map Str l) = e ++ flat_map (fun x => separator key Matrix explode ++ x) l.
Proof.
  revert e. induction l as [|x l IH]; intros e He; [by rewrite app_nil_r|]. cbn [map foldl flat_map].
  assert (matrix_step key explode e (Str x) = e ++ separator key Matrix explode ++ x) as ->.
  { unfold matrix_step, separator. rewrite bool_decide_eq_false_2 by done. destruct explode; cbn [orb text]; by rewrite <- ?app_assoc. }
  rewrite IH by by destruct e. by rewrite <- !app_assoc.
Qed.

Lemma join_flat sep x l : join_with sep (x :: l) = x ++ flat_map (fun y => sep ++ y) l.
Proof.
  revert x. induction l as [|y l IH]; intros x; [by rewrite app_nil_r|].
  change (join_with sep (x :: y :: l)) with (x ++ sep ++ join_with sep (y :: l)). rewrite IH. cbn [flat_map]. by rewrite <- app_assoc.
Qed.

Lemma encodeArray_text key r explode t l : array_style r = true -> t <> NoEscape -> l <> [] ->
  encodeArray key (map Str l) r explode t = Str (lead_in key r ++ join_with (separator key r explode) (map (encode_text t) l)).
Proof.
  intros Hr Ht Hl. unfold encodeArray. rewrite encode_strings by done. destruct r; try done; rewrite ?join_strings; try done.
  destruct l as [|x l]; [done|]. cbn [map foldl]. rewrite join_flat. f_equal. unfold matrix_step at 2. rewrite bool_decide_eq_true_2 by done.
  cbn [orb text app]. rewrite matrix_strings by done. cbn [lead_in]. by rewrite <- ?app_assoc.
Qed.

(** The unit a separator begins with is never written by escaping. *)
Lemma separator_head key r explode : array_style r = true ->
  exists c t, separator key r explode = c :: t /\ c ∉ escape_chars /\ (r = Label /\ c = 46 \/ unreserved_unit c = false).
Proof.
  intros Hr. destruct r, explode; try done; eexists _, _; (split; [reflexivity|]); (split; [by apply (bool_decide_unpack _)|]); (by right) || by left.
Qed.

Lemma res_map_decode t l : Forall writable l -> res_map decodeURIComponent (map (encode_text t) l) = Ok l.
Proof. induction 1 as [|s l Hs _ IH]; [done|]. cbn [map res_map]. rewrite encode_text_decodes by done. cbn [res_bind]. by rewrite IH. Qed.

(** C18: a non-empty array of texts serialized in any of the styles for arrays, with the escaping of reserved
    characters, can be taken apart again: dropping what the style puts first, splitting at its separator and
    decoding each piece gives the texts, whatever reserved characters they hold.  The texts have no lone
    surrogate and no control character below 16, whose escape has one digit only; in the label style they
    have no period, which separates them there and is not escaped. *)
Theorem style_array_roundtrip key r explode l : array_style r = true -> l <> [] -> Forall writable l ->
  (r = Label -> Forall (fun s => 46 ∉ s) l) ->
  exists s, serialize key (Array (map Str l)) [] r explode Reserved = Ok (Str s) /\ read_array key r explode s = Ok l.
Proof.
  intros Hr Hne Hl Hlabel. eexists. split; [cbn [serialize]; by rewrite encodeArray_text|].
  unfold read_array. rewrite drop_app_length. destruct (separator_head key r explode Hr) as (c & t & -> & Hc & Hc').
  rewrite split_str_join; [by apply res_map_decode|by destruct l|].
  apply Forall_map. rewrite list.Forall_forall in Hl |- *. intros s Hs Hin. apply encode_text_chars in Hin as [Hin|[Hin Hun]]; [done| |by apply Hl].
  destruct Hc' as [[-> ->]|Hc']; [|congruence]. specialize (Hlabel eq_refl). rewrite list.Forall_forall in Hlabel. by apply (Hlabel s).
Qed.

Lemma style_array_roundtrip_witness :
  exists s, serialize (js "k") (Array (map Str [js "a,b;k=c"; []; [233; 55357; 56832]])) [] Matrix true Reserved = Ok (Str s)
  /\ read_array (js "k") Matrix true s = Ok [js "a,b;k=c"; []; [233; 55357; 56832]].
Proof.
  apply style_array_roundtrip; [done|done| |done].
  repeat constructor; unfold unit_ok; cbn; lia.
Defined.

(** Where the serializer falls short: a character below 16 is escaped with one digit, which cannot be
    decoded; keys of objects are not escaped, so that two objects have one text; and [null] throws. *)
Theorem style_defects :
  encode_text Reserved [10] = js "%A" /\ decodeURIComponent (js "%A") = Throw URIError
  /\ serialize [] Object [(js "a,1,b", Str (js "2"))] Simple false Reserved
     = serialize [] Object [(js "a", Str (js "1")); (js "b", Str (js "2"))] Simple false Reserved
  /\ (forall key members r explode t, exists m, serialize key Null members r explode t = Throw (TypeError m)).
Proof. split_and!; [reflexivity..|]. intros. by eexists. Qed.

End ClientStyle.
