(* ===== verification/ClientParams.v ===== *)
(** * The parameters of a request in swagger-client

    Models the builders that put the values of parameters into a request (lines 15081 to 15122 for
    Swagger 2 and 15137 to 15227 for OpenAPI 3 of src/client/docs/swagger-ui/swagger-ui-bundle.js)
    and the part of buildRequest that finds the parameters of an operation and their values and
    runs the builders on them (lines 14912 to 14931, with A of lines 15051 to 15062).

    A value is plain data: a value of UiValidate or an object with members, listed in the order of
    Object.keys.  Immutable lists are not given to requests.  The request is a record that every
    builder changes; its objects are lists of members, as in YamlSchema. *)

From S2P Require Import Prelude.
From S2P Require Import JsString.
From S2P Require Import JsNum.
From S2P Require Import Utf8.
From S2P Require Import Uri.
From S2P Require Import QueryString.
From S2P Require Import Cookie.
From S2P Require Import YamlSchema.
From S2P Require Import UiUtils.
From S2P Require Import UiValidate.
From S2P Require Import ClientStyle.
From Stdlib Require Import String.
From stdpp Require Import base numbers list strings option.
Open Scope Z_scope.

Module ClientParams.
Import Utf8 Uri QueryString UiValidate ClientStyle.
Abbreviation own := YamlSchema.own.
Abbreviation assign := YamlSchema.assign.

(** ** Values, parameters and requests *)

Inductive pval := Leaf (v : value) | Rec (o : list (jsstring * pval)).

Definition as_value (v : pval) : value := match v with Leaf v => v | Rec _ => Object end.
Definition members (v : pval) : list (jsstring * value) :=
  match v with Leaf _ => [] | Rec o => map (fun kv => (fst kv, as_value (snd kv))) o end.

(** [Object.keys] with the members they name; those of a text are its units. *)
Definition entries (v : pval) : list (jsstring * pval) :=
  match v with
  | Rec o => o
  | Leaf (Str s) => imap (fun i c => (digits 10 (Z.of_nat i), Leaf (Str [c]))) s
  | Leaf (Array l) => imap (fun i x => (digits 10 (Z.of_nat i), Leaf x)) l
  | Leaf _ => []
  end.

(** [typeof v === "object"] and not an array, for a value that is not null. *)
Definition is_object (v : pval) : bool :=
  match v with Rec _ => true | Leaf (IList _ | File | Object) => true | Leaf _ => false end.

Definition serial (key : jsstring) (v : pval) : style -> bool -> escape -> res value :=
  ClientStyle.serialize key (as_value v) (members v).

Inductive location := InPath | InQuery | InHeader | InCookie | InBody | InFormData.
#[export] Instance location_eq_dec : EqDecision location.
Proof. solve_decision. Defined.

Definition location_name (i : location) : jsstring :=
  js (match i with InPath => "path" | InQuery => "query" | InHeader => "header" | InCookie => "cookie" | InBody => "body" | InFormData => "formData" end).

(** A parameter of the document; [p_type] is its type, [p_object] whether its schema is of type
    object, [p_default] is undefined where there is none. *)
Record param := Param {
  p_name : jsstring; p_in : location; p_type : jsstring; p_style : option style; p_explode : option bool;
  p_allowReserved : bool; p_allowEmptyValue : bool; p_required : bool; p_object : bool; p_default : pval; p_collection : value }.

(** A member of the query; an inherited function that was made a member; [q_allowEmpty] is set
    where the value was empty. *)
Record qentry := QEntry { q_value : value; q_skip : bool; q_collection : value; q_allowEmpty : bool }.
Inductive qmember := QOwn (e : qentry) | QInherited.
Record fentry := FEntry { f_value : value; f_allowEmpty : bool; f_collection : value }.

(** [polluted] lists the names of Object.prototype whose values were written to. *)
Record req := Req {
  url : jsstring; query : option (list (jsstring * qmember)); headers : list (jsstring * value); cookies : list (jsstring * value);
  form : option (list (jsstring * fentry)); body : pval; polluted : list jsstring }.

Definition set_url (s : jsstring) (q : req) : req := Req s (query q) (headers q) (cookies q) (form q) (body q) (polluted q).
Definition set_query (m : list (jsstring * qmember)) (q : req) : req := Req (url q) (Some m) (headers q) (cookies q) (form q) (body q) (polluted q).
Definition set_headers (h : list (jsstring * value)) (q : req) : req := Req (url q) (query q) h (cookies q) (form q) (body q) (polluted q).
Definition set_form (f : list (jsstring * fentry)) (q : req) : req := Req (url q) (query q) (headers q) (cookies q) (Some f) (body q) (polluted q).
Definition set_body (b : pval) (q : req) : req := Req (url q) (query q) (headers q) (cookies q) (form q) b (polluted q).
Definition pollute (k : jsstring) (q : req) : req := Req (url q) (query q) (headers q) (cookies q) (form q) (body q) (k :: polluted q).

Definition query_of (q : req) : list (jsstring * qmember) := default [] (query q).

(** ** Strings *)

(** What stands for the pattern in [replace]: [$$], [$&], [$`] and [$'] have a meaning; [before]
    and [after] are the text around the match. *)
Fixpoint substitution (before pat after s : jsstring) : jsstring :=
  match s with
  | 36 :: 36 :: s => 36 :: substitution before pat after s
  | 36 :: 38 :: s => pat ++ substitution before pat after s
  | 36 :: 96 :: s => before ++ substitution before pat after s
  | 36 :: 39 :: s => after ++ substitution before pat after s
  | c :: s => c :: substitution before pat after s
  | [] => []
  end.

(** [s.replace(pat, t)] for two strings: the first occurrence, [before] being passed. *)
Fixpoint replace_from (before pat t s : jsstring) : jsstring :=
  if starts_with pat s then let after := drop (length pat) s in substitution before pat after t ++ after
  else match s with
       | [] => []
       | c :: s => c :: replace_from (before ++ [c]) pat t s
       end.
Definition replace (s pat t : jsstring) : jsstring := replace_from [] pat t s.

Definition braced (name : jsstring) : jsstring := js "{" ++ name ++ js "}".

(** A function that may throw, along a list. *)
Fixpoint res_foldl {A B} (f : A -> B -> res A) (a : A) (l : list B) : res A :=
  match l with
  | [] => Ok a
  | x :: l => let! a := f a x in res_foldl f a l
  end.

(** [t.query[s] = t.query[s] || {}, t.query[s].allowEmptyValue = true]; what every object inherits
    is found too. *)
Definition allow_empty (s : jsstring) (q : req) : req :=
  match own s (query_of q) with
  | Some (QOwn e) => set_query (assign s (QOwn (QEntry (q_value e) (q_skip e) (q_collection e) true)) (query_of q)) q
  | Some QInherited => pollute s q
  | None =>
      if decide (s ∈ inherited) then pollute s (set_query (assign s QInherited (query_of q)) q)
      else set_query (assign s (QOwn (QEntry Undefined false Undefined true)) (query_of q)) q
  end.

Definition or_style (s : option style) (d : style) : style := default d s.

Definition builder := param -> pval -> req -> res req.

(** ** The builders for Swagger 2 *)
Definition body2 : builder := fun _ v q => Ok (set_body v q).

Definition header2 : builder := fun p v q =>
  match v with
  | Leaf Undefined => Ok q
  | _ => Ok (set_headers (assign (p_name p) (as_value v) (headers q)) q)
  end.

(** False and zero are written out where the type is theirs. *)
Definition query_value2 (p : param) (v : pval) : pval :=
  match v with
  | Leaf (Bool false) => if decide (p_type p = js "boolean") then Leaf (Str (js "false")) else v
  | Leaf (Number n) => if is_zero n && bool_decide (p_type p ∈ [js "number"; js "integer"]) then Leaf (Str (js "0")) else v
  | _ => v
  end.

Definition query2 : builder := fun p v q =>
  let q := set_query (query_of q) q in
  let v := query_value2 p v in
  if truthy (as_value v) then Ok (set_query (assign (p_name p) (QOwn (QEntry (as_value v) false (p_collection p) false)) (query_of q)) q)
  else match v with
       | Leaf Undefined => Ok q
       | _ => Ok (if p_allowEmptyValue p then allow_empty (p_name p) q else q)
       end.

Definition path2 : builder := fun p v q =>
  let! s := encodeURIComponent (text (as_value v)) in
  Ok (set_url (replace (url q) (braced (p_name p)) s) q).

Definition formData2 : builder := fun p v q =>
  if truthy (as_value v) || p_allowEmptyValue p
  then Ok (set_form (assign (p_name p) (FEntry (as_value v) (p_allowEmptyValue p) (p_collection p)) (default [] (form q))) q)
  else Ok q.

Definition builders2 (i : location) : option builder :=
  match i with
  | InBody => Some body2 | InHeader => Some header2 | InQuery => Some query2 | InPath => Some path2 | InFormData => Some formData2
  | InCookie => None
  end.

(** ** The builders for OpenAPI 3 *)
Definition path3 : builder := fun p v q =>
  let! s := serial (p_name p) v (or_style (p_style p) Simple) (default false (p_explode p)) NoEscape in
  Ok (set_url (replace (url q) (braced (p_name p)) (text s)) q).

Definition query_value3 (v : pval) : pval :=
  match v with
  | Leaf (Bool false) => Leaf (Str (js "false"))
  | Leaf (Number n) => if is_zero n then Leaf (Str (js "0")) else v
  | _ => v
  end.

Definition query_escape (p : param) : escape := if p_allowReserved p then Unsafe else Reserved.

(** A member of the query with what [serialize] gives. *)
Definition add (name key : jsstring) (v : pval) (r : style) (explode : bool) (t : escape) (q : req) : res req :=
  let! s := serial key v r explode t in
  Ok (set_query (assign name (QOwn (QEntry s true Undefined false)) (query_of q)) q).

(** Whether the members of the value become members of the query. *)
Definition spread (p : param) (v : pval) : bool :=
  is_object v && match p_style p with None | Some Form => true | Some _ => false end && default true (p_explode p).

Definition query3 : builder := fun p v q =>
  let q := set_query (query_of q) q in
  let v := query_value3 v in
  if truthy (as_value v) then
    match p_style p with
    | Some DeepObject =>
        res_foldl (fun q kv => add (p_name p ++ js "[" ++ fst kv ++ js "]") (fst kv) (snd kv) DeepObject false (query_escape p) q) q (entries v)
    | _ =>
        if spread p v then res_foldl (fun q kv => add (fst kv) (fst kv) (snd kv) (or_style (p_style p) Form) false (query_escape p) q) q (entries v)
        else add (p_name p) (p_name p) v (or_style (p_style p) Form) (default true (p_explode p)) (query_escape p) q
    end
  else match v with
       | Leaf Undefined => Ok q
       | _ => Ok (if p_allowEmptyValue p then allow_empty (p_name p) q else q)
       end.

(** Headers that other parts of the document describe. *)
Definition ignored_headers : list jsstring := [js "accept"; js "authorization"; js "content-type"].

Definition header3 : builder := fun p v q =>
  if decide (Cookie.lower_case (p_name p) ∈ ignored_headers) then Ok q
  else match v with
       | Leaf Undefined => Ok q
       | _ =>
           let! s := serial (p_name p) v (or_style (p_style p) Simple) (default false (p_explode p)) NoEscape in
           Ok (set_headers (assign (p_name p) s (headers q)) q)
       end.

Definition cookie3 : builder := fun p v q =>
  match v with
  | Leaf Undefined => Ok q
  | _ =>
      let prefix := if is_object v && default false (p_explode p) then [] else p_name p ++ js "=" in
      let! s := serial (p_name p) v (or_style (p_style p) Form) (default false (p_explode p)) NoEscape in
      Ok (set_headers (assign (js "Cookie") (Str (prefix ++ text s)) (headers q)) q)
  end.

Definition builders3 (i : location) : option builder :=
  match i with
  | InPath => Some path3 | InQuery => Some query3 | InHeader => Some header3 | InCookie => Some cookie3
  | InBody | InFormData => None
  end.

(** ** The parameters of an operation *)

(** One object per location and in it one member per name: a later parameter takes the place of
    an earlier one. *)
Definition table := list (location * list (jsstring * param)).
Fixpoint add_param (t : table) (p : param) : table :=
  match t with
  | [] => [(p_in p, assign (p_name p) p [])]
  | (i, m) :: t => if decide (i = p_in p) then (i, assign (p_name p) p m) :: t else (i, m) :: add_param t p
  end.
Definition listed (m : list (jsstring * param)) : list param := omap (fun k => own k m) (YamlSchema.object_keys m).
Definition A (l : list param) : list param := flat_map (fun im => listed (snd im)) (foldl add_param [] l).

Section build.
(** [g[k]] of the values given, and JSON.parse. *)
Context (oas3 : bool) (g : jsstring -> pval) (parse : jsstring -> option pval).

Definition given (p : param) : pval :=
  if decide (p_name p = []) then Leaf (Str [])
  else match g (p_name p) with
       | Leaf Undefined => g (location_name (p_in p) ++ js "." ++ p_name p)
       | v => v
       end.

Definition missing (v : pval) : bool := match v with Leaf Undefined => true | _ => false end.

Definition parsed (p : param) (v : pval) : res pval :=
  match v with
  | Leaf (Str s) =>
      if oas3 && p_object p then
        match parse s with Some v => Ok v | None => Throw (JsError "Could not parse object parameter value string as JSON") end
      else Ok v
  | _ => Ok v
  end.

Definition build_param (q : req) (p : param) : res req :=
  match given p with
  | Leaf Null => Ok q
  | v =>
      let v := if missing v then p_default p else v in
      if missing v && p_required p && negb (p_allowEmptyValue p) then Throw (JsError "Required parameter is not provided")
      else
        let! v := parsed p v in
        match (if oas3 then builders3 else builders2) (p_in p) with
        | Some b => b p v q
        | None => Ok q
        end
  end.

(** The parameters of the operation and of its path. *)
Definition build_params (operation_params path_params : list param) (q : req) : res req :=
  res_foldl build_param q (A (operation_params ++ path_params)).
End build.

(** ** The last parameter of a name counts *)

Lemma own_elem {B} k (m : list (jsstring * B)) v : own k m = Some v -> k ∈ map fst m.
Proof. induction m as [|[x w] m IH]; cbn; [done|]. destruct (decide (x = k)) as [->|]; [by left|]. intros H. right. by apply IH. Qed.

Lemma put_fst {B} k (v : B) m : map fst (YamlSchema.put k v m) = if decide (k ∈ map fst m) then map fst m else map fst m ++ [k].
Proof.
  induction m as [|[x w] m IH]; cbn [YamlSchema.put map fst app]; [done|].
  destruct (decide (x = k)) as [->|Hx]; cbn [map fst]; [by rewrite decide_True by left|].
  rewrite IH. destruct (decide (k ∈ map fst m)) as [Hk|Hk]; [by rewrite decide_True by by right|]. rewrite decide_False; [done|]. by intros [?|?]%elem_of_cons.
Qed.

Lemma assign_nodup {B} k (v : B) m : NoDup (map fst m) -> NoDup (map fst (assign k v m)).
Proof.
  intros H. unfold YamlSchema.assign. destruct (decide _); [done|]. rewrite put_fst. destruct (decide _); [done|].
  apply list.NoDup_app. split_and!; [done| |apply NoDup_singleton]. by intros x Hx ->%list_elem_of_singleton.
Qed.

Lemma insert_index_snd z k l : map snd (YamlSchema.insert_index z k l) ≡ₚ k :: map snd l.
Proof. induction l as [|[z' k'] l IH]; cbn; [done|]. destruct (z <? z'); [done|]. cbn. rewrite IH. apply perm_swap. Qed.

(** The keys listed are the names, each once. *)
Lemma object_keys_perm {B} (m : list (jsstring * B)) : YamlSchema.object_keys m ≡ₚ map fst m.
Proof.
  unfold YamlSchema.object_keys. induction (map fst m) as [|k ks IH]; [done|]. cbn [foldr List.filter].
  destruct (YamlSchema.array_index k); [rewrite insert_index_snd; cbn [app]; by rewrite IH|].
  rewrite <- Permutation_middle. by rewrite IH.
Qed.

Definition look (t : table) (i : location) (k : jsstring) : option param :=
  match List.find (fun im => bool_decide (fst im = i)) t with Some (_, m) => own k m | None => None end.

Lemma look_add t p i k : look (add_param t p) i k = if decide (p_in p = i /\ p_name p = k /\ k <> js "__proto__") then Some p else look t i k.
Proof.
  induction t as [|[j m] t IH]; cbn [add_param].
  - unfold look. cbn [List.find fst]. case_bool_decide as H; [|rewrite decide_False by naive_solver; done].
    rewrite YamlSchema.own_assign. subst i. cbn [YamlSchema.own]. repeat case_decide; naive_solver.
  - destruct (decide (j = p_in p)) as [->|Hj]; unfold look in *; cbn [List.find fst]; case_bool_decide as H.
    + rewrite YamlSchema.own_assign. repeat case_decide; naive_solver.
    + rewrite decide_False by naive_solver. done.
    + rewrite decide_False by naive_solver. done.
    + apply IH.
Qed.

(** What a table holds is where it belongs, once. *)
Definition table_ok (t : table) : Prop :=
  NoDup (map fst t) /\ Forall (fun im => NoDup (map fst (snd im)) /\ forall k p, own k (snd im) = Some p -> p_in p = fst im /\ p_name p = k) t.

Lemma add_param_fst t p : map fst (add_param t p) = if decide (p_in p ∈ map fst t) then map fst t else map fst t ++ [p_in p].
Proof.
  induction t as [|[i m] t IH]; cbn [add_param map fst app]; [done|].
  destruct (decide (i = p_in p)) as [->|Hx]; cbn [map fst]; [by rewrite decide_True by left|].
  rewrite IH. destruct (decide (p_in p ∈ map fst t)) as [Hk|Hk]; [by rewrite decide_True by by right|]. rewrite decide_False; [done|]. by intros [?|?]%elem_of_cons.
Qed.

Lemma assign_ok p m : NoDup (map fst m) -> (forall k x, own k m = Some x -> p_in x = p_in p /\ p_name x = k) ->
  NoDup (map fst (assign (p_name p) p m)) /\ forall k x, own k (assign (p_name p) p m) = Some x -> p_in x = p_in p /\ p_name x = k.
Proof.
  intros Hn Hm. split; [by apply assign_nodup|]. intros k x. rewrite YamlSchema.own_assign. case_decide as H; [|apply Hm]. intros [= <-]. by destruct H.
Qed.

Lemma add_param_ok t p : table_ok t -> table_ok (add_param t p).
Proof.
  intros [Hn Hf]. split.
  - rewrite add_param_fst. case_decide; [done|]. apply list.NoDup_app. split_and!; [done| |apply NoDup_singleton]. by intros x Hx ->%list_elem_of_singleton.
  - clear Hn. induction Hf as [|[i m] t [Hm Ho] Hf IH]; cbn [add_param].
    + constructor; [|constructor]. by apply assign_ok; [constructor|].
    + destruct (decide (i = p_in p)) as [->|Hi]; (constructor; [|done]); [by apply assign_ok|done].
Qed.

Lemma table_of_ok l : table_ok (foldl add_param [] l).
Proof. induction l as [|p l IH] using rev_ind; [by split; constructor|]. rewrite foldl_app. by apply add_param_ok. Qed.

Lemma elem_of_listed m p : p ∈ listed m <-> exists k, own k m = Some p.
Proof.
  unfold listed. rewrite list_elem_of_omap. split; [intros (k & _ & H); eauto|]. intros (k & H). exists k. split; [|done].
  rewrite object_keys_perm. by eapply own_elem.
Qed.

Lemma look_elem t i m k : NoDup (map fst t) -> (i, m) ∈ t -> look t i k = own k m.
Proof.
  unfold look. induction t as [|[j n] t IH]; intros Hn Hin; [by apply elem_of_nil in Hin|]. cbn [map fst] in Hn. apply list.NoDup_cons in Hn as [Hj Hn]. cbn [List.find fst].
  apply elem_of_cons in Hin as [[= <- <-]|Hin]; [by rewrite bool_decide_eq_true_2|]. rewrite bool_decide_eq_false_2; [by apply IH|].
  intros ->. apply Hj. by apply (list_elem_of_fmap_2 fst) in Hin.
Qed.

Lemma look_inv t i k p : look t i k = Some p -> exists m, (i, m) ∈ t /\ own k m = Some p.
Proof.
  unfold look. destruct (List.find _ _) as [[j m]|] eqn:E; [|done]. intros H. apply find_some in E as [Hin Hj]. cbn in Hj. apply bool_decide_eq_true in Hj as ->.
  exists m. split; [by apply list_elem_of_In|done].
Qed.

Lemma elem_of_A l p : p ∈ A l <-> look (foldl add_param [] l) (p_in p) (p_name p) = Some p.
Proof.
  pose proof (table_of_ok l) as [Hn Hf]. unfold A. rewrite list_elem_of_In, in_flat_map. rewrite list.Forall_forall in Hf. split.
  - intros ([i m] & Hin & Hp). apply list_elem_of_In in Hin, Hp. apply elem_of_listed in Hp as (k & Hk). destruct (proj2 (Hf _ Hin) k p Hk) as [-> ->]. by rewrite (look_elem _ _ m).
  - intros H. apply look_inv in H as (m & Hin & Hk). exists (p_in p, m). rewrite <- !list_elem_of_In. split; [done|]. apply elem_of_listed. eauto.
Qed.

Definition same_param (p p' : param) : Prop := p_in p' = p_in p /\ p_name p' = p_name p.

Lemma look_last l i k p : look (foldl add_param [] l) i k = Some p <->
  k <> js "__proto__" /\ exists l1 l2, l = l1 ++ p :: l2 /\ p_in p = i /\ p_name p = k /\ Forall (fun p' => ~ same_param p p') l2.
Proof.
  induction l as [|x l IH] using rev_ind.
  - split; [done|]. intros (_ & [|? ?] & ? & ? & _); done.
  - rewrite foldl_app. cbn [foldl]. rewrite look_add. case_decide as H.
    + destruct H as (<- & <- & Hk). split; [intros [= <-]; split; [done|]; exists l, []; by split_and!|].
      intros (_ & l1 & l2 & E & Hi & Hn & Hl). destruct l2 as [|y l2 _] using rev_ind; [by apply app_inj_2 in E as [_ [= ->]]|].
      rewrite app_comm_cons, app_assoc in E. apply app_inj_2 in E as [_ [= <-]]; [|done]. apply Forall_app in Hl as [_ Hl]. apply Forall_cons_iff in Hl as [Hl _]. by destruct Hl.
    + rewrite IH. split; intros (Hk & l1 & l2 & E & Hi & Hn & Hl); (split; [done|]).
      * exists l1, (l2 ++ [x]). rewrite E, <- app_assoc. split_and!; [done..|]. apply Forall_app. split; [done|]. constructor; [|done]. intros [? ?]. naive_solver.
      * destruct l2 as [|y l2 _] using rev_ind; [apply app_inj_2 in E as [_ [= ->]]; naive_solver|].
        rewrite app_comm_cons, app_assoc in E. apply app_inj_2 in E as [-> _]; [|done]. apply Forall_app in Hl as [Hl _]. eauto 10.
Qed.

Definition param_key (p : param) : location * jsstring := (p_in p, p_name p).

Lemma listed_keys m : NoDup (map fst m) -> (forall k p, own k m = Some p -> p_name p = k) -> map p_name (listed m) = YamlSchema.object_keys m.
Proof.
  intros Hn Ho. unfold listed. assert (Forall (fun k => k ∈ map fst m) (YamlSchema.object_keys m)) as H.
  { apply list.Forall_forall. intros k. by rewrite object_keys_perm. }
  induction H as [|k ks Hk _ IH]; [done|]. cbn [omap list_omap]. assert (exists p, own k m = Some p) as (p & E).
  { clear IH Ho Hn. induction m as [|[x w] m IH]; [by apply elem_of_nil in Hk|]. cbn. case_decide; [eauto|]. apply IH. cbn in Hk. apply elem_of_cons in Hk as [?|?]; congruence. }
  rewrite E. cbn [map]. by rewrite IH, (Ho k p).
Qed.

Lemma keys_nodup t : table_ok t -> NoDup (map param_key (flat_map (fun im => listed (snd im)) t)).
Proof.
  intros [Hn Hf]. induction Hf as [|[i m] t [Hm Ho] Hf IH]; [constructor|]. cbn [flat_map snd map fst] in *. apply list.NoDup_cons in Hn as [Hi Hn].
  assert (map param_key (listed m) = map (pair i) (YamlSchema.object_keys m)) as E.
  { rewrite <- listed_keys, map_map by (done || naive_solver). apply map_ext_in. intros p Hp. apply list_elem_of_In, elem_of_listed in Hp as (k & Hk).
    unfold param_key. by destruct (Ho k p Hk) as [-> _]. }
  rewrite map_app, E. apply list.NoDup_app. split_and!; [|intros x Hx Hin|by apply IH].
  - apply (NoDup_fmap_2 (pair i)). by rewrite object_keys_perm.
  - apply (list_elem_of_fmap_1 (pair i)) in Hx as (k & -> & _). apply (list_elem_of_fmap_1 param_key) in Hin as (p & E' & Hp). apply list_elem_of_In, in_flat_map in Hp as ([j n] & Hj & Hp).
    apply list_elem_of_In in Hj, Hp. apply elem_of_listed in Hp as (k' & Hk'). rewrite list.Forall_forall in Hf. destruct (proj2 (Hf _ Hj) k' p Hk') as [Hpi _]. cbn in Hpi.
    apply Hi. injection E' as -> _. rewrite Hpi. by apply (list_elem_of_fmap_2 fst) in Hj.
Qed.

(** C33: of the parameters that an operation and its path list, one of each location and name is used: the
    last in the list, so that a parameter of the path takes the place of the parameter of the operation. *)
Theorem params_last_wins l : NoDup (map param_key (A l)) /\
  forall p, p ∈ A l <-> p_name p <> js "__proto__" /\ exists l1 l2, l = l1 ++ p :: l2 /\ Forall (fun p' => ~ same_param p p') l2.
Proof.
  split; [apply keys_nodup, table_of_ok|]. intros p. rewrite elem_of_A, look_last. naive_solver.
Qed.

(** ** The address of a request *)









Section address.
Context (g : jsstring -> pval) (parse : jsstring -> option pval).

(** The value of a parameter, its default included; [None] where it is null and skipped. *)
Definition settled (p : param) : option pval :=
  match given g p with
  | Leaf Null => None
  | v => Some (if missing v then p_default p else v)
  end.



Lemma build_param_settled oas3 q p : build_param oas3 g parse q p =
  match settled p with
  | None => Ok q
  | Some v =>
      if missing v && p_required p && negb (p_allowEmptyValue p) then Throw (JsError "Required parameter is not provided")
      else let! v := parsed oas3 parse p v in
           match (if oas3 then builders3 else builders2) (p_in p) with Some b => b p v q | None => Ok q end
  end.
Proof. unfold build_param, settled. destruct (given g p) as [[]|]; done. Qed.









(** A required parameter that has neither a value nor a default stops the request, in both versions. *)
Theorem required_stops oas3 ops paths q p : p ∈ A (ops ++ paths) -> p_required p = true -> p_allowEmptyValue p = false ->
  settled p = Some (Leaf Undefined) -> exists e, build_params oas3 g parse ops paths q = Throw e.
Proof.
  intros Hin Hr Ha Hs. unfold build_params. revert q Hin. induction (A (ops ++ paths)) as [|x ps IH]; intros q Hin; [by apply elem_of_nil in Hin|]. cbn [res_foldl].
  apply elem_of_cons in Hin as [<-|Hin]; [rewrite build_param_settled, Hs, Hr, Ha; cbn; by eexists|].
  destruct (build_param oas3 g parse q x) as [q'|e]; cbn [res_bind]; [by apply IH|by eexists].
Qed.

End address.

(** ** Concrete requests *)

Definition simple_param (i : location) (name : jsstring) : param := Param name i (js "string") None None false false true false (Leaf Undefined) Undefined.
Definition optional_param (i : location) (name : jsstring) : param := Param name i (js "string") None None false true false false (Leaf Undefined) Undefined.
Definition new_req (u : jsstring) : req := Req u None [] [] None (Leaf Undefined) [].
Definition sample_values (k : jsstring) : pval :=
  if decide (k = js "pool") then Leaf (Str (js "a/{id}$&")) else if decide (k = js "path.id") then Leaf (Number (JInt 7)) else Leaf Undefined.


Lemma required_stops_witness : exists e, build_params true sample_values (fun _ => None) [simple_param InHeader (js "X-Zone")] [] (new_req []) = Throw e.
Proof. apply (required_stops sample_values (fun _ => None) true _ _ _ (simple_param InHeader (js "X-Zone"))); [by left|done..]. Defined.

(** Where the builders fall short.  For OpenAPI 3 a value in the path is not escaped, so that it adds
    segments and a query, and a dollar pattern in it is expanded; of two cookie parameters only the last is
    sent.  For Swagger 2 an optional parameter of the path without a value is written "undefined".  An empty
    value for a query parameter named __proto__ writes to the prototype of all objects. *)
Theorem params_defects :
  (exists q, path3 (simple_param InPath (js "id")) (Leaf (Str (js "a/b?c=d"))) (new_req (js "/x/{id}")) = Ok q /\ url q = js "/x/a/b?c=d")
  /\ (exists q, path3 (simple_param InPath (js "id")) (Leaf (Str (js "5$$"))) (new_req (js "/x/{id}")) = Ok q /\ url q = js "/x/5$")
  /\ (exists q, build_params true (fun k => Leaf (Str (js "v"))) (fun _ => None) [simple_param InCookie (js "a"); simple_param InCookie (js "b")] [] (new_req []) = Ok q
       /\ headers q = [(js "Cookie", Str (js "b=v"))])
  /\ (exists q, build_params false (fun _ => Leaf Undefined) (fun _ => None) [optional_param InPath (js "id")] [] (new_req (js "/x/{id}")) = Ok q /\ url q = js "/x/undefined")
  /\ (exists q, query2 (optional_param InQuery (js "__proto__")) (Leaf (Str [])) (new_req []) = Ok q /\ polluted q = [js "__proto__"]).
Proof. split_and!; (eexists; split; vm_compute; reflexivity). Qed.

End ClientParams.
