(* ===== verification/ClientAuth.v ===== *)
(** * Securities and the end of a request in swagger-client

    Models applySecurities for OpenAPI 3 (lines 15360 to 15398 of
    src/client/docs/swagger-ui/swagger-ui-bundle.js) and for Swagger 2 (lines 15452 to 15485), which
    put what the user has logged in with into a request; the cookies of buildRequest (lines 14935 to
    14941); the media type and the body of the request (lines 15406 to 15436 for OpenAPI 3, 15490
    to 15515 for Swagger 2); and btoa of lines 32074 to 32076.

    What the user logged in with, and the schemes of the document, are plain data as in
    ClientParams; a name that every object inherits is not looked for in them. *)

From S2P Require Import Prelude.
From S2P Require Import JsString.
From S2P Require Import JsNum.
From S2P Require Import Utf8.
From S2P Require Import Uri.
From S2P Require Import Base64.
From S2P Require Import BufferInt.
From S2P Require Import BufferOps.
From S2P Require Import BufferText.
From S2P Require Import QueryString.
From S2P Require Import Cookie.
From S2P Require Import YamlSchema.
From S2P Require Import UiValidate.
From S2P Require Import ClientParams.
From Stdlib Require Import String.
From stdpp Require Import base numbers list strings option.
Open Scope Z_scope.

Module ClientAuth.
Import Uri UiValidate ClientParams.

(** The parts of a request that securities change; a member of the query may be the entry of a
    parameter or a bare value. *)
Inductive qvalue := Entry (m : qmember) | Bare (v : pval).
Record sreq := SReq { s_headers : list (jsstring * pval); s_query : list (jsstring * qvalue); s_cookies : list (jsstring * pval) }.

Definition of_req (q : req) : sreq :=
  SReq (map (fun kv => (fst kv, Leaf (snd kv))) (headers q)) (map (fun kv => (fst kv, Entry (snd kv))) (query_of q))
    (map (fun kv => (fst kv, Leaf (snd kv))) (cookies q)).

Definition set_header (k : jsstring) (v : pval) (q : sreq) : sreq := SReq (assign k v (s_headers q)) (s_query q) (s_cookies q).
Definition set_qvalue (k : jsstring) (v : pval) (q : sreq) : sreq := SReq (s_headers q) (assign k (Bare v) (s_query q)) (s_cookies q).
Definition set_cookie (k : jsstring) (v : pval) (q : sreq) : sreq := SReq (s_headers q) (s_query q) (assign k v (s_cookies q)).

(** [v.k] of a value that is not null or undefined. *)
Definition member (k : string) (v : pval) : pval :=
  match v with Rec o => default (Leaf Undefined) (own (js k) o) | Leaf _ => Leaf Undefined end.
Definition ptruthy (v : pval) : bool := truthy (as_value v).
Definition ptext (v : pval) : jsstring := text (as_value v).
Definition is_text (s : string) (v : pval) : bool := match v with Leaf (Str x) => bool_decide (x = js s) | _ => false end.
Definition por (a b : pval) : pval := if ptruthy a then a else b.
Definition put_text (s : jsstring) : pval := Leaf (Str s).

Section securities.
(** Whether there are typed arrays, for the Buffer that btoa makes. *)
Context (tas : bool).

(** btoa of the package of that name: the lower bytes of the units. *)
Definition btoa (t : jsstring) : res jsstring :=
  let! b := BufferText.from tas t (Some "binary"%string) in BufferText.toString b "base64" None None.

(** The kind of a token, Bearer where there is none. *)
Definition token_type (v : pval) : res jsstring :=
  if ptruthy v then
    match v with
    | Leaf (Str s) => Ok (if decide (Cookie.lower_case s = js "bearer") then js "Bearer" else s)
    | _ => Throw (TypeError "toLowerCase is not a function")
    end
  else Ok (js "Bearer").

(** *** OpenAPI 3 *)

(** A scheme [o] with what was authorized for it, [r]. *)
Definition apply_scheme3 (r o : pval) (f : sreq) : res sreq :=
  let i := por (member "value" r) r in
  let a := member "type" o in
  if is_text "apiKey" a then
    let name := ptext (member "name" o) in
    let f := if is_text "query" (member "in" o) then set_qvalue name i f else f in
    let f := if is_text "header" (member "in" o) then set_header name i f else f in
    Ok (if is_text "cookie" (member "in" o) then set_cookie name i f else f)
  else if is_text "http" a then
    let! f := if is_text "basic" (member "scheme" o) then
                let! l := btoa (ptext (member "username" i) ++ js ":" ++ ptext (member "password" i)) in
                Ok (set_header (js "Authorization") (put_text (js "Basic " ++ l)) f)
              else Ok f in
    Ok (if is_text "bearer" (member "scheme" o) then set_header (js "Authorization") (put_text (js "Bearer " ++ ptext i)) f else f)
  else if is_text "oauth2" a then
    let p := por (member "token" r) (Rec []) in
    let! v := token_type (member "token_type" p) in
    Ok (set_header (js "Authorization") (put_text (v ++ js " " ++ ptext (member "access_token" p))) f)
  else Ok f.

(** *** Swagger 2 *)

Definition apply_scheme2 (r u : pval) (c : sreq) : res sreq :=
  let o := member "token" r in
  let i := por (member "value" r) r in
  let s := member "type" u in
  let l := if ptruthy o then member "access_token" o else o in
  let f := if ptruthy o then member "token_type" o else o in
  if is_text "apiKey" s then
    let name := ptext (member "name" u) in
    Ok (if is_text "query" (member "in" u) then set_qvalue name i c else set_header name i c)
  else if is_text "basic" s then
    if ptruthy (member "header" i) then Ok (set_header (js "authorization") (member "header" i) c)
    else
      let! b := btoa (ptext (member "username" i) ++ js ":" ++ ptext (member "password" i)) in
      match i with
      | Leaf (Str _ | Number _ | Bool _) => Throw (TypeError "Cannot create property 'base64'")
      | _ => Ok (set_header (js "authorization") (put_text (js "Basic " ++ b)) c)
      end
  else if is_text "oauth2" s && ptruthy l then
    let! f := token_type f in
    Ok (set_header (js "authorization") (put_text (f ++ js " " ++ ptext l)) c)
  else Ok c.

(** The loops over the requirements and over their names: [schemes] is [None] where the document
    has none. *)
Definition apply_name (scheme : pval -> pval -> sreq -> res sreq) (authorized : list (jsstring * pval)) (schemes : option (list (jsstring * pval)))
    (f : sreq) (n : jsstring) : res sreq :=
  match own n authorized with
  | Some r =>
      if ptruthy r then
        match schemes with
        | Some m => match own n m with
                    | Some (Leaf (Undefined | Null)) | None => Throw (TypeError "Cannot read property 'type' of undefined")
                    | Some o => scheme r o f
                    end
        | None => Throw (TypeError "Cannot read property of undefined")
        end
      else Ok f
  | None => Ok f
  end.

(** [operation_security] and [spec_security] are [None] where there are none, and lists of the
    names of each requirement otherwise; [authorized] is what the user has logged in with. *)
Definition applySecurities (scheme : pval -> pval -> sreq -> res sreq) (schemes : option (list (jsstring * pval)))
    (operation_security spec_security : option (list (list jsstring))) (authorized : list (jsstring * pval)) (t : sreq) : res sreq :=
  let h := default (default [] spec_security) operation_security in
  if negb (bool_decide (authorized = [])) && match operation_security with Some [] => false | _ => true end
  then res_foldl (apply_name scheme authorized schemes) t (concat h)
  else Ok t.

(** The documents of OpenAPI 3 without schemes have an empty object of them. *)
Definition applySecurities3 (schemes : option (list (jsstring * pval))) := applySecurities apply_scheme3 (Some (default [] schemes)).
Definition applySecurities2 := applySecurities apply_scheme2.

(** *** Cookies *)

Definition cookie_step (q : sreq) (e t : jsstring) : res jsstring :=
  let n := default (Leaf Undefined) (own t (s_cookies q)) in
  let! s := Cookie.serialize t (ptext n) encodeURIComponent Cookie.no_options in
  Ok (e ++ (if decide (e = []) then [] else js "&") ++ s).
Definition write_cookies (q : sreq) : res sreq :=
  match YamlSchema.object_keys (s_cookies q) with
  | [] => Ok q
  | keys => let! u := res_foldl (cookie_step q) [] keys in Ok (set_header (js "Cookie") (put_text u) q)
  end.

(** *** The media type of a request *)

Definition set_type (v : pval) (q : sreq) : sreq := set_header (js "Content-Type") v q.
Definition first_type (l : list jsstring) : pval := match l with t :: _ => put_text t | [] => Leaf Undefined end.

(** For Swagger 2: [payload] says whether the request has a body or a form, [a] is the media type
    that was asked for, empty if none was. *)
Definition finish2 (payload attach : bool) (a : jsstring) (operation_consumes spec_consumes : option (list jsstring)) (parameters : list param) (t : sreq) : sreq :=
  if payload || attach then
    if negb (bool_decide (a = [])) then set_type (put_text a) t
    else match operation_consumes, spec_consumes with
         | Some l, _ => set_type (first_type l) t
         | None, Some l => set_type (first_type l) t
         | None, None =>
             if existsb (fun p => bool_decide (p_type p = js "file")) parameters then set_type (put_text (js "multipart/form-data")) t
             else if existsb (fun p => bool_decide (p_in p = InFormData)) parameters then set_type (put_text (js "application/x-www-form-urlencoded")) t
             else t
         end
  else if negb (bool_decide (a = [])) && existsb (fun p => bool_decide (p_in p = InBody \/ p_in p = InFormData)) parameters then set_type (put_text a) t
  else t.

(** For OpenAPI 3: the media types [h] that the operation takes, and the one asked for; the result
    has the one that is used. *)
Definition finish3_type (payload attach : bool) (h : list jsstring) (p : jsstring) (t : sreq) : sreq * jsstring :=
  let v := negb (bool_decide (p = [])) && bool_decide (p ∈ h) in
  if payload || attach then
    if v then (set_type (put_text p) t, p)
    else if decide (p = []) then
      match h with
      | m :: _ => if decide (m = []) then (t, p) else (set_type (put_text m) t, m)
      | [] => (t, p)
      end
    else (t, p)
  else (if v then set_type (put_text p) t else t, p).

(** What the body of a request becomes: nothing, a form of members, the value as a form, or the
    body itself; [stringify] is JSON.stringify. *)
Inductive payload3 := NoPayload | FormOf (l : list (jsstring * pval)) | FormIs (v : pval) | BodyIs (v : pval).
Definition form_value (stringify : pval -> jsstring) (o : pval) : pval :=
  match o with
  | Leaf (Array l) => put_text (text (Array l))
  | Leaf (Null | IList _ | Object) | Rec _ => put_text (stringify o)
  | Leaf _ => o
  end.
Definition form_members (stringify : pval -> jsstring) (r : pval) : list (jsstring * pval) :=
  foldl (fun f kv => assign (fst kv) (form_value stringify (snd kv)) f) [] (entries r).
Definition finish3_payload (stringify : pval -> jsstring) (r : pval) (h : list jsstring) (p : jsstring) : payload3 :=
  if negb (ptruthy r) then NoPayload
  else if decide (p = []) then BodyIs r
  else if decide (p ∈ h) then
    if decide (p = js "application/x-www-form-urlencoded") then
      match r with Rec _ | Leaf (Array _ | IList _ | File | Object) => FormOf (form_members stringify r) | _ => FormIs r end
    else if QueryString.starts_with (js "multipart/") p then
      match r with Rec _ | Leaf (Array _ | IList _ | File | Object) => FormOf (form_members stringify r) | _ => FormIs r end
    else BodyIs r
  else NoPayload.

(** ** What is sent *)

Lemma fold_names scheme a a' schemes l t : (forall n, n ∈ l -> own n a = own n a') ->
  res_foldl (apply_name scheme a schemes) t l = res_foldl (apply_name scheme a' schemes) t l.
Proof.
  revert t. induction l as [|n l IH]; intros t H; [done|]. cbn [res_foldl].
  assert (apply_name scheme a schemes t n = apply_name scheme a' schemes t n) as -> by (unfold apply_name; by rewrite H by left).
  destruct (apply_name scheme a' schemes t n); [|done]. cbn [res_bind]. apply IH. intros m Hm. apply H. by right.
Qed.

(** C7: no credentials leave the page but those that are asked for: the request, in both versions, is the same
    for two users who have logged in with the same credentials to the schemes that the operation requires,
    whatever else they have logged in to; and an operation that requires nothing gets the request as it was. *)
Theorem credentials_confined schemes operation_security spec_security a a' t : a <> [] -> a' <> [] ->
  (forall n, n ∈ concat (default (default [] spec_security) operation_security) -> own n a = own n a') ->
  applySecurities3 schemes operation_security spec_security a t = applySecurities3 schemes operation_security spec_security a' t
  /\ applySecurities2 schemes operation_security spec_security a t = applySecurities2 schemes operation_security spec_security a' t
  /\ applySecurities3 schemes (Some []) spec_security a t = Ok t /\ applySecurities2 schemes (Some []) spec_security a t = Ok t.
Proof.
  intros Ha Ha' H. unfold applySecurities3, applySecurities2, applySecurities. rewrite !bool_decide_eq_false_2 by done. cbn [negb andb].
  split_and!; [..|done|done]; (destruct (match operation_security with Some [] => false | _ => true end); [|done]); by apply fold_names.
Qed.

(** The text of bytes in base64. *)
Lemma btoa_bytes s : bytes_ok s -> 4 * zlen s <= BufferOps.kMaxLength tas -> btoa s = Ok (Base64.ref_encode s).
Proof.
  intros Hs Hmax. pose proof (zlen_nonneg s). unfold btoa. destruct (BufferText.from_latin1 tas "binary" s BufferText.Latin1) as [Hf _]; [done|by left|done|lia|]. rewrite Hf. cbn [res_bind].
  rewrite (BufferText.toString_all s "base64" BufferText.Base64E); [|done|].
  - cbn. unfold BufferText.base64Slice. rewrite !Z.eqb_refl. cbn. by rewrite Base64.encode_is_ref.
  - unfold pow32. destruct tas; cbn in Hmax; lia.
Qed.

(** Basic authentication sends the credentials in base64, where all their characters are bytes. *)
Lemma basic_header r o f : is_text "http" (member "type" o) = true -> is_text "apiKey" (member "type" o) = false ->
  is_text "basic" (member "scheme" o) = true -> is_text "bearer" (member "scheme" o) = false ->
  let i := por (member "value" r) r in let s := ptext (member "username" i) ++ js ":" ++ ptext (member "password" i) in
  bytes_ok s -> 4 * zlen s <= BufferOps.kMaxLength tas ->
  exists f', apply_scheme3 r o f = Ok f' /\ own (js "Authorization") (s_headers f') = Some (put_text (js "Basic " ++ Base64.ref_encode s)).
Proof.
  intros H1 H2 H3 H4 i s Hs Hmax. unfold apply_scheme3. rewrite H1, H2, H3, H4. fold i s. rewrite btoa_bytes by done. cbn [res_bind]. eexists. split; [done|].
  cbn [set_header s_headers]. by rewrite YamlSchema.own_assign, decide_True.
Qed.

End securities.

(** ** Concrete requests *)

Definition scheme (l : list (string * string)) : pval := Rec (map (fun kv => (js (fst kv), put_text (js (snd kv)))) l).
Definition some_schemes : list (jsstring * pval) :=
  [(js "login", scheme [("type", "http"); ("scheme", "basic")]%string); (js "key", scheme [("type", "apiKey"); ("in", "cookie"); ("name", "k")]%string);
   (js "other", scheme [("type", "apiKey"); ("in", "cookie"); ("name", "o")]%string)].
Definition joe : pval := Rec [(js "value", scheme [("username", "joe"); ("password", "pass")]%string)].
Definition empty_req : sreq := SReq [] [] [].

Lemma credentials_confined_witness :
  applySecurities3 true (Some some_schemes) (Some [[js "login"]]) None [(js "login", joe); (js "key", put_text (js "secret"))] empty_req
  = Ok (SReq [(js "Authorization", put_text (js "Basic am9lOnBhc3M="))] [] []).
Proof.
  destruct (credentials_confined true (Some some_schemes) (Some [[js "login"]]) None [(js "login", joe); (js "key", put_text (js "secret"))] [(js "login", joe)] empty_req)
    as [-> _]; [done|done| |vm_compute; reflexivity].
  intros n Hn. apply list_elem_of_singleton in Hn as ->. reflexivity.
Defined.

(** The flaws in what is sent: two cookies are joined with an ampersand, which the second cookie is lost in
    when the header is parsed; a cookie of a scheme takes the place of the cookies of parameters; and the
    credentials of basic authentication lose the upper bytes of their characters. *)
Theorem securities_defects :
  (let! q := applySecurities3 true (Some some_schemes) (Some [[js "key"; js "other"]]) None [(js "key", put_text (js "1")); (js "other", put_text (js "2"))]
     (SReq [(js "Cookie", put_text (js "session=9"))] [] []) in
   let! q := write_cookies q in Ok (own (js "Cookie") (s_headers q))) = Ok (Some (put_text (js "k=1&o=2")))
  /\ btoa true [256; 58; 257] = btoa true [0; 58; 1].
Proof. split; vm_compute; reflexivity. Qed.

End ClientAuth.
