(* ===== verification/UiAuth.v ===== *)
(** * The auth plugin of Swagger UI

    Models the reducers of the auth plugin (lines 15941 to 15981 of
    src/client/docs/swagger-ui/swagger-ui-bundle.js) and its selectors (lines 15999 to 16051, but
    for getDefinitionsByNames, which is deprecated): what the user has logged in to, and whether
    that satisfies the security requirements of an operation.

    The state is a tree of collections (ImmutableTree).  The values that are no collections are
    those of UiValidate and the plain objects that AUTHORIZE makes for basic authentication. *)

From S2P Require Import Prelude.
From S2P Require Import JsString.
From S2P Require Import JsNum.
From S2P Require Import Utf8.
From S2P Require Import BufferOps.
From S2P Require Import UiUtils.
From S2P Require Import UiValidate.
From S2P Require Import ImmutableTree.
From Stdlib Require Import String.
From stdpp Require Import base numbers list strings option.
Open Scope Z_scope.

Module UiAuth.
Import UiValidate ImmutableTree.

Inductive leaf := Val (v : value) | Credentials (username : value) (header : jsstring).
Abbreviation node := (tree leaf).
Abbreviation ks s := (KStr (js s)).

Definition truthy_node (t : option node) : bool :=
  match t with
  | None => false
  | Some (Leaf (Val v)) => truthy v
  | Some _ => true
  end.

(** What a value is, where a plain value is needed. *)
Definition plain_value (t : option node) : res value :=
  match t with
  | None => Ok Undefined
  | Some (Leaf (Val v)) => Ok v
  | Some (Leaf (Credentials _ _)) => Ok Object
  | Some _ => Throw outside
  end.

(** ** Reducers *)

Section reducers.
(** Whether there are typed arrays, for the Buffer that btoa makes. *)
Context (tas : bool).

Definition SHOW_AUTH_POPUP (payload : node) (e : node) : res node := set (ks "showDefinitions") payload e.
Definition CONFIGURE_AUTH (payload : node) (e : node) : res node := set (ks "configs") payload e.

(** The map of what is authorized. *)
Definition authorized (e : node) : node :=
  match get (ks "authorized") e with
  | Some t => if truthy_node (Some t) then t else TMap []
  | None => TMap []
  end.

(** [setIn] of a collection with something at the end of the path. *)
Definition set_in (p : list key) (v : node) (o : node) : res node :=
  let! t := setIn p v o in match t with Some t => Ok t | None => Throw outside end.

Definition schema_type (r : node) : res (option node) :=
  match r with
  | Leaf _ => Throw (TypeError "r.getIn is not a function")
  | _ => Ok (getIn [ks "schema"; ks "type"] r)
  end.
Definition is_type (s : string) (t : option node) : bool :=
  match t with Some (Leaf (Val (Str x))) => bool_decide (x = js s) | _ => false end.

(** One entry of what the user entered. *)
Definition authorize_entry (o : node) (nr : key * node) : res node :=
  let '(n, r) := nr in
  let! i := schema_type r in
  if is_type "apiKey" i || is_type "http" i then set n r o
  else if is_type "basic" i then
    let! u := plain_value (getIn [ks "value"; ks "username"] r) in
    let! l := plain_value (getIn [ks "value"; ks "password"] r) in
    let! b := UiUtils.btoa tas (text u ++ js ":" ++ text l) in
    let! o := set_in [n; ks "value"] (Leaf (Credentials u (js "Basic " ++ b))) o in
    match get (ks "schema") r with
    | Some c => set_in [n; ks "schema"] c o
    | None => Throw outside
    end
  else Ok o.

Fixpoint authorize_entries (o : node) (l : list (key * node)) : res node :=
  match l with
  | [] => Ok o
  | nr :: l => let! o := authorize_entry o nr in authorize_entries o l
  end.

(** [payload] is the map that fromJS makes. *)
Definition AUTHORIZE (payload : list (key * node)) (e : node) : res node :=
  let! o := authorize_entries (authorized e) payload in set (ks "authorized") o e.

(** [auth] and [token] are the maps that fromJS makes of the parts of the payload. *)
Definition AUTHORIZE_OAUTH2 (auth : list (key * node)) (token : node) (e : node) : res node :=
  let a := map_set (ks "token") token auth in
  match map_get (ks "name") a with
  | Some (Leaf (Val (Str n))) => set_in [ks "authorized"; KStr n] (TMap a) e
  | _ => Throw outside
  end.

Definition LOGOUT (names : list jsstring) (e : node) : res node :=
  match get (ks "authorized") e with
  | Some (TMap m) => set (ks "authorized") (TMap (foldl (fun m t => map_remove (KStr t) m) m names)) e
  | Some (TList _) => Throw outside
  | _ => Throw (TypeError "Cannot read property 'withMutations' of undefined")
  end.

End reducers.

(** ** Selectors *)

Definition shownDefinitions (e : node) : option node := get (ks "showDefinitions") e.
Definition getConfigs (e : node) : option node := get (ks "configs") e.

(** A map with one entry for each of the definitions of the document. *)
Definition definitionsToAuthorize (securityDefinitions : list (key * node)) : list (list (key * node)) :=
  foldl (fun n e => n ++ [map_set (fst e) (snd e) []]) [] securityDefinitions.

(** A requirement: the names that must be authorized together, with their scopes. *)
Definition requirement := list (key * node).

Definition definitionsForRequirements (securityDefinitions : list (key * node)) (t : list requirement) : list (list (key * node)) :=
  List.filter (fun e => existsb (fun r => match map fst e with k :: _ => truthy_node (map_get k r) | [] => false end) t)
    (definitionsToAuthorize securityDefinitions).

(** [t] is [None] if it is no list, and so is then the result. *)
Definition isAuthorized (e : node) (t : option (list requirement)) : option bool :=
  let n := authorized e in
  match t with
  | Some t => Some (negb (bool_decide (List.filter (fun r => forallb (fun k => truthy_node (get k n)) (map fst r)) t = [])))
  | None => None
  end.

(** ** Logging in and out *)

(** What the page knows of a name. *)
Definition session (e : node) (n : jsstring) : option node := get (KStr n) (authorized e).

(** The types that AUTHORIZE takes up. *)
Definition known_type (r : node) : bool :=
  let i := getIn [ks "schema"; ks "type"] r in is_type "apiKey" i || is_type "http" i || is_type "basic" i.

Definition distinct (o : node) (m : list (key * node)) : Prop := o = TMap m /\ NoDup (map fst m).

Lemma bind_inv {X Y} (m : res X) (k : X -> res Y) b : (let! a := m in k a) = Ok b -> exists a, m = Ok a /\ k a = Ok b.
Proof. destruct m; [eauto|done]. Qed.

Lemma set_truthy k v (t t' : node) : set k v t = Ok t' -> truthy_node (Some t') = true.
Proof. destruct t as [|m|l]; cbn; [done|by intros [= <-]|]. destruct (list_index _ _); [by intros [= <-]|done]. Qed.

Lemma set_in_map n p v m o : set_in (n :: p) v (TMap m) = Ok o -> p <> [] -> exists c, o = TMap (map_set n c m) /\ truthy_node (Some c) = true.
Proof.
  unfold set_in, setIn, updateIn. intros H Hp. destruct (update_path (Some (TMap m)) (n :: p) (fun _ => Ok (Put v))) as [x|] eqn:E; [|done]. cbn [res_bind] in H.
  destruct (put_is_put _ _ _ _ E) as [t ->]. injection H as ->. apply put_path_inv in E as (_ & c & Ec & Es). injection Es as <-. exists c. split; [done|].
  destruct p as [|k p]; [done|]. apply put_path_inv in Ec as (_ & f & _ & Es). by eapply set_truthy.
Qed.

(** A map of which one entry was set to something. *)
Definition updated (n : key) (m : list (key * node)) (o : node) : Prop :=
  exists m', distinct o m' /\ truthy_node (map_get n m') = true /\ forall k, k <> n -> map_get k m' = map_get k m.

Lemma map_set_updated n c m : NoDup (map fst m) -> truthy_node (Some c) = true -> updated n m (TMap (map_set n c m)).
Proof.
  intros Hn Hc. exists (map_set n c m). split_and!; [split; [done|by apply map_set_nodup]|by rewrite map_get_set, decide_True|]. intros k Hk. by rewrite map_get_set, decide_False.
Qed.

(** An entry touches nothing but its name. *)
Lemma authorize_entry_step tas n r m o : authorize_entry tas (TMap m) (n, r) = Ok o -> NoDup (map fst m) ->
  if known_type r then updated n m o else o = TMap m.
Proof.
  intros H Hn. unfold authorize_entry in H. apply bind_inv in H as (i & Ei & H).
  assert (i = getIn [ks "schema"; ks "type"] r /\ truthy_node (Some r) = true) as [-> Hr] by (destruct r; [done|by injection Ei as <-..]).
  unfold known_type. destruct (is_type "apiKey" _ || is_type "http" _); cbn [orb]; [injection H as <-; by apply map_set_updated|].
  destruct (is_type "basic" _); [|congruence]. apply bind_inv in H as (u & _ & H). apply bind_inv in H as (w & _ & H). apply bind_inv in H as (b & _ & H).
  apply bind_inv in H as (o1 & E1 & H). apply set_in_map in E1 as (c1 & -> & _); [|done]. destruct (get _ _) as [c|]; [|done].
  apply set_in_map in H as (c2 & -> & Hc2); [|done]. rewrite map_set_set. by apply map_set_updated.
Qed.

Lemma authorize_entries_step tas l m o : authorize_entries tas (TMap m) l = Ok o -> NoDup (map fst m) ->
  exists m', distinct o m' /\ (forall k, k ∉ map fst l -> map_get k m' = map_get k m)
  /\ forall k, (exists r, (k, r) ∈ l /\ known_type r = true) \/ truthy_node (map_get k m) = true -> truthy_node (map_get k m') = true.
Proof.
  revert m. induction l as [|[n r] l IH]; intros m H Hn.
  - injection H as <-. exists m. split_and!; [done..|]. intros k [(r & Hr & _)|Hk]; [by apply elem_of_nil in Hr|done].
  - cbn [authorize_entries] in H. destruct (authorize_entry tas (TMap m) (n, r)) as [o1|] eqn:E; [|done]. cbn [res_bind] in H. apply authorize_entry_step in E; [|done].
    assert (exists m1, distinct o1 m1 /\ (known_type r = true -> truthy_node (map_get n m1) = true) /\ (forall k, k <> n -> map_get k m1 = map_get k m)
      /\ forall k, truthy_node (map_get k m) = true -> truthy_node (map_get k m1) = true) as (m1 & [-> Hn1] & Hr & Hf & Hk).
    { destruct (known_type r); [|subst; by exists m]. destruct E as (m1 & Hd & Ht & Hf). exists m1. split_and!; [done..|]. intros k. destruct (decide (k = n)) as [->|?]; [done|by rewrite Hf]. }
    destruct (IH m1 H Hn1) as (m' & Hd & Hf' & Hk'). exists m'. split_and!; [done| |].
    + cbn. intros k [Hkn Hkl]%not_elem_of_cons. by rewrite Hf', Hf.
    + intros k [(r' & Hin & Hr')|Ht]; apply Hk'; [|by right; apply Hk]. apply elem_of_cons in Hin as [[= -> ->]|Hin]; [right; by apply Hr|left; eauto].
Qed.

Lemma removes_get names (m : list (key * node)) k : NoDup (map fst m) ->
  map_get k (foldl (fun m t => map_remove (KStr t) m) m names) = if decide (k ∈ map KStr names) then None else map_get k m.
Proof.
  revert m. induction names as [|t names IH]; intros m Hn; [done|]. cbn [foldl map]. rewrite IH by (eapply sublist_NoDup; [done|apply map_remove_keys]).
  rewrite map_get_remove by done. destruct (decide (KStr t = k)) as [<-|Hk]; [by rewrite (decide_True (P := KStr t ∈ KStr t :: _)) by left; case_decide|].
  destruct (decide (k ∈ map KStr names)) as [Hin|Hin]; [by rewrite decide_True by by right|]. rewrite decide_False; [done|]. by intros [?|?]%elem_of_cons.
Qed.

(** The state of the plugin: nothing is authorized yet, or a map is. *)
Definition auth_ok (e : node) : Prop :=
  exists me, e = TMap me /\ match map_get (ks "authorized") me with Some t => exists m, distinct t m | None => True end.

Lemma authorized_map e : auth_ok e -> exists m, distinct (authorized e) m.
Proof.
  intros (me & -> & H). unfold authorized. cbn [get]. destruct (map_get _ me) as [t|]; [|exists []; by split; [|constructor]]. destruct H as (m & -> & Hm). by exists m.
Qed.

Lemma authorized_set e o e' m : set (ks "authorized") o e = Ok e' -> distinct o m -> authorized e' = o.
Proof. intros H [-> _]. apply set_get in H. unfold authorized. by rewrite H. Qed.

Lemma isAuthorized_true e t : isAuthorized e (Some t) = Some true <-> exists r, r ∈ t /\ Forall (fun k => truthy_node (get k (authorized e)) = true) (map fst r).
Proof.
  unfold isAuthorized. match goal with |- context [List.filter ?g t] => set (f := g) end. split.
  - intros [= H]. apply negb_true_iff, bool_decide_eq_false in H. destruct (List.filter f t) as [|r l] eqn:E; [done|]. exists r.
    assert (In r (List.filter f t)) as Hr by (rewrite E; by left). apply filter_In in Hr as [Hr Hf]. split; [by apply list_elem_of_In|]. by apply Forall_forall, forallb_forall.
  - intros (r & Hr & Hf). f_equal. apply negb_true_iff, bool_decide_eq_false. intros E. assert (In r (List.filter f t)) as Hin; [|by rewrite E in Hin].
    apply filter_In. split; [by apply list_elem_of_In|]. by apply forallb_forall, Forall_forall.
Qed.

(** C17: logging in and out.  AUTHORIZE makes every scheme of a type it knows authorized and leaves no
    requirement that was satisfied unsatisfied; LOGOUT of the same names then takes away exactly these: every
    other scheme is as it was before the login. *)
Theorem login_logout tas payload names e e1 : auth_ok e -> map fst payload = map KStr names -> AUTHORIZE tas payload e = Ok e1 ->
  (forall n r, (KStr n, r) ∈ payload -> known_type r = true -> truthy_node (session e1 n) = true)
  /\ (forall t, isAuthorized e t = Some true -> isAuthorized e1 t = Some true)
  /\ exists e2, LOGOUT names e1 = Ok e2 /\ forall n, session e2 n = if decide (n ∈ names) then None else session e n.
Proof.
  intros Hok Hnames H. destruct (authorized_map e Hok) as (m & Em & Hm). unfold AUTHORIZE in H. rewrite Em in H. apply bind_inv in H as (o & Eo & Es).
  apply authorize_entries_step in Eo as (m1 & [-> Hm1] & Hf & Hk); [|done]. assert (authorized e1 = TMap m1) as E1 by (by eapply authorized_set).
  unfold session. rewrite Em, E1. cbn [get]. split_and!.
  - intros n r Hin Hr. apply Hk. left. eauto.
  - intros [t|]; [|done]. rewrite !isAuthorized_true, Em, E1. intros (r & Hr & Ht). exists r. split; [done|]. refine (List.Forall_impl _ _ Ht). cbn [get]. intros k Hkt. apply Hk. by right.
  - destruct Hok as (me & -> & _). injection Es as <-. unfold LOGOUT. cbn [get]. rewrite map_get_set, decide_True by done. eexists. split; [done|]. intros n.
    unfold authorized. cbn [get]. rewrite map_get_set, decide_True by done. cbn [truthy_node get]. rewrite removes_get by done.
    destruct (decide (n ∈ names)) as [Hin|Hin]; [rewrite decide_True; [done|by apply (list_elem_of_fmap_2 KStr)]|].
    rewrite decide_False; [|intros (x & [= <-] & Hx)%(list_elem_of_fmap_1 KStr); done]. apply Hf. rewrite Hnames. by intros (x & [= <-] & Hx)%(list_elem_of_fmap_1 KStr).
Qed.

Definition basic_scheme : node := TMap [(ks "schema", TMap [(ks "type", Leaf (Val (Str (js "basic"))))]);
  (ks "value", TMap [(ks "username", Leaf (Val (Str (js "joe")))); (ks "password", Leaf (Val (Str (js "pass"))))])].

Lemma login_logout_witness : let e := TMap [(ks "authorized", TMap [(ks "key", basic_scheme)])] in
  exists e1, AUTHORIZE true [(ks "login", basic_scheme)] e = Ok e1
  /\ getIn [ks "value"] (default (TMap []) (session e1 (js "login"))) = Some (Leaf (Credentials (Str (js "joe")) (js "Basic am9lOnBhc3M=")))
  /\ truthy_node (session e1 (js "login")) = true
  /\ exists e2, LOGOUT [js "login"] e1 = Ok e2 /\ forall n, session e2 n = if decide (n ∈ [js "login"]) then None else session e n.
Proof.
  intros e. destruct (AUTHORIZE true [(ks "login", basic_scheme)] e) as [e1|] eqn:E; [|vm_compute in E; discriminate]. exists e1. split; [done|].
  destruct (login_logout true [(ks "login", basic_scheme)] [js "login"] e e1) as (H1 & _ & H3); [|done|done|].
  - exists [(ks "authorized", TMap [(ks "key", basic_scheme)])]. split; [done|]. exists [(ks "key", basic_scheme)]. split; [done|]. apply NoDup_singleton.
  - split; [vm_compute in E; by injection E as <-|]. split; [|exact H3]. apply (H1 _ basic_scheme); [by left|done].
Defined.

(** LOGOUT before any login throws, and an entry of another type than the three, such as oauth2, leaves
    AUTHORIZE without effect. *)
Theorem auth_defects : LOGOUT [] (TMap []) = Throw (TypeError "Cannot read property 'withMutations' of undefined")
  /\ forall tas n e, auth_ok e -> get (ks "authorized") e <> None ->
     AUTHORIZE tas [(n, TMap [(ks "schema", TMap [(ks "type", Leaf (Val (Str (js "oauth2"))))])])] e = Ok e.
Proof.
  split; [done|]. intros tas n e (me & -> & H) Hn. unfold AUTHORIZE. cbn [get] in Hn. destruct (map_get (ks "authorized") me) as [t|] eqn:E; [|done].
  destruct H as (m & -> & _). unfold authorized. cbn [get]. rewrite E. change (set (ks "authorized") (TMap m) (TMap me) = Ok (TMap me)). by apply set_same.
Qed.

End UiAuth.
