(* ===== verification/UiErrors.v ===== *)
(** * The err plugin of Swagger UI

    Models the reducers of the err plugin (lines 10909 to 10998 of
    src/client/docs/swagger-ui/swagger-ui-bundle.js), the transformers of the messages they run on
    all errors (lines 11003 to 11020, 11039 to 11052 and 11067 to 11072), and the selectors (lines
    11080 to 11087).

    An error is a map; its values are trees of collections (ImmutableTree) as fromJS makes them.
    The object of defaults is shared by all errors and written to, so that it is part of the
    state.  sortBy is modelled for errors whose lines are integers. *)

From S2P Require Import Prelude.
From S2P Require Import JsString.
From S2P Require Import JsNum.
From S2P Require Import QueryString.
From S2P Require Import UiValidate.
From S2P Require Import ImmutableTree.
From S2P Require Import SpecState.
From Stdlib Require Import String Sorting.Sorted.
From stdpp Require Import base numbers list strings option.
Open Scope Z_scope.

Module UiErrors.
Import QueryString UiValidate ImmutableTree SpecState.

Abbreviation error := (list (key * node)).

(** The errors, [None] before the first, and the object of defaults. *)
Record state := State { errors : option (list error); defaults : error }.

Definition text_node (s : jsstring) : node := Leaf (Str s).
Definition DEFAULT_ERROR : error :=
  [(ks "line", Leaf (Number (JInt 0))); (ks "level", text_node (js "error")); (ks "message", text_node (js "Unknown error"))].

(** ** Transformers *)

Definition not_a_function : jserr := TypeError "not a function".

(** The list of types as a sentence: the function given to reduce. *)
Fixpoint type_sentence (l : list jsstring) (n len : nat) (e : jsstring) : jsstring :=
  match l with
  | [] => e
  | t :: l =>
      let next := match l with u :: _ => negb (bool_decide (u = [])) | [] => false end in
      let e :=
        if bool_decide (n = len - 1)%nat && (1 <? len)%nat then e ++ js "or " ++ t
        else if next && (2 <? len)%nat then e ++ t ++ js ", "
        else if next then e ++ t ++ js " "
        else e ++ t in
      type_sentence l (S n) len e
  end.

Definition not_of_type : jsstring := js "is not of a type(s)".

Definition not_of_type_message (s : jsstring) : jsstring :=
  let t := str_index not_of_type s 0 in
  if -1 <? t then
    let n := split_str (js ",") 0 (drop (Z.to_nat t + length not_of_type) s) in
    take (Z.to_nat t) s ++ type_sentence n 0 (length n) (js "should be a")
  else s.

(** Lists and arrays have indexOf too, which looks for an element, but no split. *)
Definition phrase (v : value) : bool := match v with Str s => bool_decide (s = not_of_type) | _ => false end.
Definition node_phrase (x : node) : bool := match x with Leaf v => phrase v | _ => false end.
Definition transform_not_of_type (e : error) : res error :=
  match map_get (ks "message") e with
  | Some (Leaf (Str s)) => Ok (if -1 <? str_index not_of_type s 0 then map_set (ks "message") (text_node (not_of_type_message s)) e else e)
  | Some (TList l) => if existsb node_phrase l then Throw not_a_function else Ok e
  | Some (Leaf (Array l | IList l)) => if existsb phrase l then Throw not_a_function else Ok e
  | _ => Throw not_a_function
  end.

(** [replace(/instance./g, "")]: the period stands for any unit that ends no line; [skip] units
    are passed. *)
Definition line_end (c : Z) : bool := bool_decide (c ∈ [10; 13; 8232; 8233]).
Fixpoint strip_instance (skip : nat) (s : jsstring) : jsstring :=
  match s with
  | [] => []
  | c :: s' =>
      match skip with
      | S skip => strip_instance skip s'
      | O => if starts_with (js "instance") s && match s !! 8%nat with Some x => negb (line_end x) | None => false end
             then strip_instance 8 s' else c :: strip_instance 0 s'
      end
  end.
Definition transform_strip_instance (e : error) : res error :=
  match map_get (ks "message") e with
  | Some (Leaf (Str s)) => Ok (map_set (ks "message") (text_node (strip_instance 0 s)) e)
  | _ => Throw not_a_function
  end.

(** A transformer that throws changes nothing. *)
Definition run_transformer (f : error -> res error) (l : list error) : list error :=
  match res_map f l with Ok l => l | Throw _ => l end.
Definition transformErrors (l : list error) : list error :=
  run_transformer transform_strip_instance (run_transformer (fun e => Ok e) (run_transformer transform_not_of_type l)).

(** ** Reducers *)

(** [Object.assign(e, r)], with the values that fromJS makes of the members. *)
Definition assign_all (e r : error) : error := foldl (fun e kv => map_set (fst kv) (snd kv) e) e r.
Definition typed (s : string) : error := [(ks "type", text_node (js s))].

Definition old (t : state) : list error := default [] (errors t).

(** The defaults are the target of the assignment. *)
Definition NEW_THROWN_ERR (r : error) (t : state) : state :=
  let i := assign_all (assign_all (defaults t) r) (typed "thrown") in
  State (Some (transformErrors (old t ++ [i]))) i.

(** [r.map(...)], each error through the defaults. *)
Fixpoint assign_batch (s : string) (l : error) (r : list error) : list error * error :=
  match r with
  | [] => ([], l)
  | e :: r => let l := assign_all (assign_all l e) (typed s) in let '(es, l') := assign_batch s l r in (l :: es, l')
  end.
Definition new_batch (s : string) (r : list error) (t : state) : state :=
  let '(es, l) := assign_batch s (defaults t) r in State (Some (transformErrors (old t ++ es))) l.
Definition NEW_THROWN_ERR_BATCH := new_batch "thrown".
Definition NEW_SPEC_ERR_BATCH := new_batch "spec".

(** sortBy the line, equal ones in their order. *)
Definition line_of (e : error) : option Z := match map_get (ks "line") e with Some (Leaf (Number (JInt z))) => Some z | _ => None end.
Fixpoint insert_line (e : error) (l : list error) : list error :=
  match l with
  | [] => [e]
  | x :: l' => if default 0 (line_of e) <=? default 0 (line_of x) then e :: l else x :: insert_line e l'
  end.
Definition sort_lines (l : list error) : res (list error) :=
  if forallb (fun e => match line_of e with Some _ => true | None => false end) l then Ok (foldr insert_line [] l) else Throw outside.

Definition NEW_SPEC_ERR (r : error) (t : state) : res state :=
  let o := map_set (ks "type") (text_node (js "spec")) r in
  let! l := sort_lines (old t ++ [o]) in Ok (State (Some (transformErrors l)) (defaults t)).

Definition NEW_AUTH_ERR (r : error) (t : state) : state :=
  State (Some (transformErrors (old t ++ [map_set (ks "type") (text_node (js "auth")) r]))) (defaults t).

(** [r !== o] for a value of the state and one of the payload; collections are not in the payload. *)
Definition same (r : option node) (o : value) : bool := match strict_eq r (Some (Leaf o)) with Ok b => b | Throw _ => false end.

(** Whether an error has none of the members of the payload. *)
Definition kept (n : key -> value) (e : error) : bool :=
  forallb (fun t => let o := n t in negb (truthy o) || negb (same (map_get t e) o)) (map fst e).

(** [n] reads the payload, [None] if there is none. *)
Definition CLEAR (n : option (key -> value)) (t : state) : state :=
  match n, errors t with
  | Some n, Some l => State (Some (List.filter (kept n) l)) (defaults t)
  | _, _ => t
  end.

(** [n] is the function of the payload, [None] if it is no function. *)
Definition CLEAR_BY (n : option (error -> bool)) (t : state) : res state :=
  match n with
  | None => Ok t
  | Some n => match errors t with
              | Some l => Ok (State (Some (List.filter n l)) (defaults t))
              | None => Throw (TypeError "Cannot read property 'filter' of undefined")
              end
  end.

(** ** Selectors *)

Definition allErrors (t : state) : list error := default [] (errors t).
Definition lastError (t : state) : option error := list.last (allErrors t).

(** ** Transformers touch nothing but messages *)

Definition message_only (f : error -> res error) : Prop := forall e e' k, f e = Ok e' -> k <> ks "message" -> map_get k e' = map_get k e.

Lemma not_of_type_only : message_only transform_not_of_type.
Proof.
  intros e e' k H Hk. unfold transform_not_of_type in H. destruct (map_get (ks "message") e) as [[[]| |]|]; try done; try (by destruct (existsb _ _); simplify_eq).
  destruct (_ <? _); injection H as <-; [|done]. by rewrite map_get_set, decide_False.
Qed.

Lemma strip_instance_only : message_only transform_strip_instance.
Proof.
  intros e e' k H Hk. unfold transform_strip_instance in H. destruct (map_get (ks "message") e) as [[[]| |]|]; try done.
  injection H as <-. by rewrite map_get_set, decide_False.
Qed.

Lemma run_transformer_get f l k : message_only f -> k <> ks "message" -> map (map_get k) (run_transformer f l) = map (map_get k) l.
Proof.
  intros Hf Hk. unfold run_transformer. destruct (res_map f l) as [l'|] eqn:E; [|done]. revert l' E. induction l as [|e l IH]; intros l' E; [by injection E as <-|].
  cbn [res_map] in E. destruct (f e) as [e'|] eqn:Ee; [|done]. cbn [res_bind] in E. destruct (res_map f l) as [m|]; [|done]. injection E as <-. cbn [map]. by rewrite (Hf _ _ k Ee), IH.
Qed.

Lemma transformErrors_get l k : k <> ks "message" -> map (map_get k) (transformErrors l) = map (map_get k) l.
Proof.
  intros Hk. unfold transformErrors. rewrite !run_transformer_get; [done|apply not_of_type_only|done| |done|apply strip_instance_only|done]. by intros e e' k' [= <-].
Qed.

Lemma transformErrors_length l : length (transformErrors l) = length l.
Proof. rewrite <- (length_map (map_get (ks "line")) l), <- (transformErrors_get l) by done. by rewrite length_map. Qed.

Lemma assign_all_get e r k : NoDup (map fst r) -> map_get k (assign_all e r) = match map_get k r with Some v => Some v | None => map_get k e end.
Proof.
  revert e. induction r as [|[k' v] r IH]; intros e Hn; [done|]. cbn [map fst] in Hn. apply list.NoDup_cons in Hn as [Hk' Hn]. unfold assign_all in *. cbn [foldl fst snd map_get].
  rewrite IH, map_get_set by done. destruct (decide (k' = k)) as [->|Hk]; [|done]. by rewrite map_get_none.
Qed.

(** ** What becomes of the messages *)

(** The first transformer takes a message that is a text, or a list without the phrase; the last
    one a text. *)
Definition searchable (m : option node) : bool :=
  match m with
  | Some (Leaf (Str _)) => true
  | Some (TList l) => negb (existsb node_phrase l)
  | Some (Leaf (Array l | IList l)) => negb (existsb phrase l)
  | _ => false
  end.
Definition is_text (m : option node) : bool := match m with Some (Leaf (Str _)) => true | _ => false end.

(** A message with its text changed. *)
Definition on_text (f : jsstring -> jsstring) (m : option node) : option node := match m with Some (Leaf (Str s)) => Some (text_node (f s)) | _ => m end.

Lemma is_text_on f m : is_text (on_text f m) = is_text m.
Proof. by destruct m as [[[]| |]|]. Qed.

Lemma run_transformer_messages f (p : option node -> bool) g l :
  (forall e, match f e with
             | Ok e' => p (map_get (ks "message") e) = true /\ map_get (ks "message") e' = on_text g (map_get (ks "message") e)
             | Throw _ => p (map_get (ks "message") e) = false
             end) ->
  let ms := map (map_get (ks "message")) l in
  map (map_get (ks "message")) (run_transformer f l) = if forallb p ms then map (on_text g) ms else ms.
Proof.
  intros Hf. cbv zeta. unfold run_transformer. assert (match res_map f l with
    | Ok l' => forallb p (map (map_get (ks "message")) l) = true /\ map (map_get (ks "message")) l' = map (on_text g) (map (map_get (ks "message")) l)
    | Throw _ => forallb p (map (map_get (ks "message")) l) = false
    end) as H; [|destruct (res_map f l) as [l'|]; [destruct H as [-> ->]; done|by rewrite H]].
  induction l as [|e l IH]; [done|]. cbn [res_map map forallb]. specialize (Hf e). destruct (f e) as [e'|]; cbn [res_bind]; [|by rewrite Hf]. destruct Hf as [-> He].
  destruct (res_map f l); cbn [res_bind map andb]; [|done]. destruct IH as [-> ->]. by rewrite He.
Qed.

Lemma transformErrors_messages l :
  let ms := map (map_get (ks "message")) l in
  let ms1 := if forallb searchable ms then map (on_text not_of_type_message) ms else ms in
  map (map_get (ks "message")) (transformErrors l) = if forallb is_text ms1 then map (on_text (strip_instance 0)) ms1 else ms1.
Proof.
  intros ms ms1. unfold transformErrors. rewrite (run_transformer_messages transform_strip_instance is_text (strip_instance 0)).
  2: { intros e. unfold transform_strip_instance. destruct (map_get (ks "message") e) as [[[]| |]|]; try done. by rewrite map_get_set, decide_True. }
  assert (run_transformer (fun e => Ok e) (run_transformer transform_not_of_type l) = run_transformer transform_not_of_type l) as ->.
  { unfold run_transformer at 1. generalize (run_transformer transform_not_of_type l). intros m. assert (res_map (fun e : error => Ok e) m = Ok m) as ->; [|done].
    induction m as [|e m IH]; [done|]. cbn [res_map res_bind]. by rewrite IH. }
  rewrite (run_transformer_messages transform_not_of_type searchable not_of_type_message); [done|].
  intros e. unfold transform_not_of_type. destruct (map_get (ks "message") e) as [[[]| |]|] eqn:E; try done; cbn [searchable]; try (by destruct (existsb _ _)).
  split; [done|]. cbn [on_text]. unfold not_of_type_message. destruct (-1 <? _); [by rewrite map_get_set, decide_True|done].
Qed.

(** What a member of a new error is: its own, its type, or the one of the shared defaults. *)
Definition thrown_member (r : error) (t : state) (k : key) : option node :=
  if decide (k = ks "type") then Some (text_node (js "thrown"))
  else match map_get k r with Some v => Some v | None => map_get k (defaults t) end.

Lemma thrown_get r t k : NoDup (map fst r) -> map_get k (assign_all (assign_all (defaults t) r) (typed "thrown")) = thrown_member r t k.
Proof.
  intros Hn. unfold thrown_member. rewrite assign_all_get by apply NoDup_singleton. unfold typed. cbn [map_get].
  destruct (decide (ks "type" = k)) as [<-|Ht]; [by rewrite decide_True|]. rewrite decide_False by done. by apply assign_all_get.
Qed.

(** C34: an error that was thrown is recorded. It is put behind the errors there are; its type is
    thrown, and each other member is the one given, or that of the defaults if none is given,
    which hold the members of all errors thrown before. Only messages change: if those of all
    the errors, the new one included, are texts, then in each the list of types is made a sentence
    and what the expression for the instance finds is taken out; if one is neither a text nor a
    list, or a list with the phrase itself, they stay as they are; and between these, if some are
    lists, only the types of the others are reworded. *)
Theorem thrown_recorded r t : NoDup (map fst r) ->
  let t' := NEW_THROWN_ERR r t in
  let members k := map (map_get k) (allErrors t) ++ [thrown_member r t k] in
  let messages := members (ks "message") in
  (forall k, k <> ks "message" -> map (map_get k) (allErrors t') = members k)
  /\ (forall ss, messages = map (fun s => Some (text_node s)) ss ->
        map (map_get (ks "message")) (allErrors t') = map (fun s => Some (text_node (strip_instance 0 (not_of_type_message s)))) ss)
  /\ (forallb searchable messages = false -> map (map_get (ks "message")) (allErrors t') = messages)
  /\ (forallb searchable messages = true -> forallb is_text messages = false ->
        map (map_get (ks "message")) (allErrors t') = map (on_text not_of_type_message) messages)
  /\ lastError t' = allErrors t' !! length (allErrors t)
  /\ (forall k, map_get k (defaults t') = thrown_member r t k).
Proof.
  intros Hn t' members messages. set (i := assign_all (assign_all (defaults t) r) (typed "thrown")).
  assert (Hi : forall k, map_get k i = thrown_member r t k) by (intros k; by apply thrown_get).
  assert (Hm : forall k, map (map_get k) (old t ++ [i]) = members k) by (intros k; rewrite map_app; cbn [map]; by rewrite Hi).
  assert (Ha : allErrors t' = transformErrors (old t ++ [i])) by done.
  assert (Ht := transformErrors_messages (old t ++ [i])). cbv zeta in Ht. rewrite Hm, <- Ha in Ht. fold messages in Ht.
  assert (Hs : forallb is_text (map (on_text not_of_type_message) messages) = forallb is_text messages) by (generalize messages; intros l; induction l as [|m l IH]; [done|]; cbn [map forallb]; by rewrite is_text_on, IH).
  assert (Hst : forallb is_text messages = true -> forallb searchable messages = true).
  { rewrite !forallb_forall. intros H m Hin. specialize (H m Hin). by destruct m as [[[]| |]|]. }
  split_and!.
  - intros k Hk. rewrite Ha, transformErrors_get by done. apply Hm.
  - intros ss E. assert (forallb is_text messages = true) as Hx by (rewrite E, forallb_forall; intros m [? [<- _]]%in_map_iff; done).
    rewrite Ht, (Hst Hx), Hs, Hx, E, !map_map. done.
  - intros E. rewrite Ht, E. destruct (forallb is_text messages); [|done]. by rewrite Hst in E.
  - intros E Hx. by rewrite Ht, E, Hs, Hx.
  - unfold lastError. rewrite last_lookup. f_equal. rewrite Ha, transformErrors_length, length_app. cbn. unfold allErrors, old. lia.
  - exact Hi.
Qed.

Lemma thrown_recorded_witness : let r := [(ks "source", text_node (js "resolver")); (ks "message", text_node (js "instance.x is not of a type(s) string,null"))] in
  let t := State None DEFAULT_ERROR in
  map (map_get (ks "level")) (allErrors (NEW_THROWN_ERR r t)) = [Some (text_node (js "error"))] /\
  map (map_get (ks "message")) (allErrors (NEW_THROWN_ERR r t)) = [Some (text_node (js "x should be a string or null"))].
Proof.
  intros r t. destruct (thrown_recorded r t) as (H1 & H2 & _); [apply (bool_decide_unpack (NoDup _)); by vm_compute|].
  split; [exact (H1 (ks "level") ltac:(done))|]. exact (H2 [js "instance.x is not of a type(s) string,null"] ltac:(by vm_compute)).
Defined.

(** ** Errors of the document are sorted *)

Lemma insert_line_perm e l : insert_line e l ≡ₚ e :: l.
Proof. induction l as [|x l IH]; cbn; [done|]. destruct (_ <=? _); [done|]. rewrite IH. apply perm_swap. Qed.

Definition by_line (a b : error) : Prop := default 0 (line_of a) <= default 0 (line_of b).

Lemma insert_line_sorted e l : StronglySorted by_line l -> StronglySorted by_line (insert_line e l).
Proof.
  induction 1 as [|x l Hl IH Hx]; cbn [insert_line]; [repeat constructor|]. destruct (Z.leb_spec (default 0 (line_of e)) (default 0 (line_of x))) as [Hle|Hlt].
  - constructor; [by constructor|]. constructor; [done|]. refine (List.Forall_impl _ _ Hx). unfold by_line. intros. lia.
  - constructor; [done|]. apply Forall_forall. intros y Hy. apply list_elem_of_In in Hy. rewrite insert_line_perm in Hy. apply elem_of_cons in Hy as [->|Hy]; [unfold by_line; lia|].
    rewrite list.Forall_forall in Hx. by apply Hx.
Qed.

Lemma sort_lines_ok l l' : sort_lines l = Ok l' -> l' ≡ₚ l /\ StronglySorted by_line l'.
Proof.
  unfold sort_lines. destruct (forallb _ l); [|done]. intros [= <-]. induction l as [|e l [Hp Hs]]; cbn [foldr]; [by split; [|constructor]|].
  split; [by rewrite insert_line_perm, Hp|by apply insert_line_sorted].
Qed.

Lemma sorted_map {X} (f : X -> Z) l : StronglySorted (fun a b => f a <= f b) l -> StronglySorted Z.le (map f l).
Proof. induction 1 as [|x l _ IH Hx]; cbn [map]; constructor; [done|]. by apply Forall_map. Qed.

Lemma lines_of_transformed l : map line_of (transformErrors l) = map line_of l.
Proof.
  assert (forall m, map line_of m = map (fun v => match v with Some (Leaf (Number (JInt z))) => Some z | _ => None end) (map (map_get (ks "line")) m)) as H by (intros m; by rewrite map_map).
  by rewrite H, transformErrors_get, <- H.
Qed.

(** An error found in the document is put in its place: the lines of the errors are in order, and they are
    those there were and the new one; the defaults are not touched. *)
Theorem spec_err_sorted r t t' : NEW_SPEC_ERR r t = Ok t' ->
  StronglySorted Z.le (map (fun e => default 0 (line_of e)) (allErrors t'))
  /\ map line_of (allErrors t') ≡ₚ map line_of (allErrors t) ++ [line_of r] /\ defaults t' = defaults t.
Proof.
  unfold NEW_SPEC_ERR. set (o := map_set _ _ _). destruct (sort_lines (old t ++ [o])) as [l|] eqn:E; [|done]. intros [= <-]. cbn [allErrors errors defaults from_option id].
  apply sort_lines_ok in E as [Hp Hs]. assert (line_of o = line_of r) as Hr by (unfold line_of, o; by rewrite map_get_set, decide_False).
  split_and!; [|by rewrite lines_of_transformed, Hp, map_app, <- Hr|done].
  rewrite <- (map_map line_of (default 0)), lines_of_transformed, map_map. by apply (sorted_map (fun e => default 0 (line_of e))).
Qed.

Definition at_line (z : Z) : error := [(ks "line", Leaf (Number (JInt z))); (ks "message", text_node (js "bad"))].
Lemma spec_err_sorted_witness : exists t', NEW_SPEC_ERR (at_line 3) (State (Some [at_line 2; at_line 7]) DEFAULT_ERROR) = Ok t'
  /\ map line_of (allErrors t') = [Some 2; Some 3; Some 7] /\ StronglySorted Z.le (map (fun e => default 0 (line_of e)) (allErrors t')).
Proof.
  eexists. split; [vm_compute; reflexivity|]. split; [vm_compute; reflexivity|].
  apply (spec_err_sorted (at_line 3) (State (Some [at_line 2; at_line 7]) DEFAULT_ERROR)). vm_compute. reflexivity.
Defined.

(** The flaws of the plugin: the path of one thrown error shows up in the next, which has none, since both
    are assigned to the shared defaults; and the expression meant for "instance." also takes "instances" and
    "instance " out of messages. *)
Theorem errors_defects :
  (let t := NEW_THROWN_ERR [(ks "message", text_node (js "second"))] (NEW_THROWN_ERR [(ks "path", text_node (js "paths./a"))] (State None DEFAULT_ERROR)) in
   option_map (map_get (ks "path")) (lastError t) = Some (Some (text_node (js "paths./a"))))
  /\ strip_instance 0 (js "no instances of instance type") = js "no  of type".
Proof. split; vm_compute; reflexivity. Qed.

End UiErrors.
