(* ===== verification/UiPlugins.v ===== *)
(** * The layout, configs and oas3 plugins of Swagger UI

    Models the reducers and selectors of three plugins of
    src/client/docs/swagger-ui/swagger-ui-bundle.js: layout (lines 11128 to 11142 and 11155 to
    11170, with the actions of lines 7505 to 7523), configs (lines 16280 to 16286) and oas3 (lines
    20491 to 20520, all but serverEffectiveValue, and 20546 to 20582), which keep what is shown, the configuration, and the server, request body and media types that
    the user has chosen.

    The states are trees of collections (ImmutableTree).  What is shown is a map whose keys are
    lists, compared by their elements. *)

From S2P Require Import Prelude.
From S2P Require Import JsString.
From S2P Require Import JsNum.
From S2P Require Import UiValidate.
From S2P Require Import ImmutableTree.
From S2P Require Import SpecState.
From Stdlib Require Import String.
From stdpp Require Import base numbers list strings option.
Open Scope Z_scope.

(** ** layout *)
Module Layout.
Import UiValidate ImmutableTree SpecState.

(** What is shown or hidden: a text, or a list of texts. *)
Inductive thing := Text (s : jsstring) | Path (l : list jsstring).

(** normalizeArray. *)
Definition normalizeArray (t : thing) : list jsstring := match t with Text s => [s] | Path l => l end.

(** The map of what is shown, and the tree of all else. *)
Record state := State { rest : node; shown : list (list jsstring * value) }.

Fixpoint find (t : list jsstring) (l : list (list jsstring * value)) : option value :=
  match l with
  | [] => None
  | (t', v) :: l => if decide (t' = t) then Some v else find t l
  end.
Fixpoint put (t : list jsstring) (v : value) (l : list (list jsstring * value)) : list (list jsstring * value) :=
  match l with
  | [] => [(t, v)]
  | (t', v') :: l => if decide (t' = t) then (t', v) :: l else (t', v') :: put t v l
  end.

(** Reducers with the actions that lead to them: show and changeMode normalize what they get. *)
Definition UPDATE_LAYOUT (p : node) (e : state) : res state := let! t := set (ks "layout") p (rest e) in Ok (State t (shown e)).
Definition UPDATE_FILTER (p : node) (e : state) : res state := let! t := set (ks "filter") p (rest e) in Ok (State t (shown e)).
Definition show (t : thing) (n : value) (e : state) : state := State (rest e) (put (normalizeArray t) n (shown e)).
Definition mode_path (t : thing) : list key := ks "modes" :: map KStr (normalizeArray t).
Definition changeMode (t : thing) (r : value) (e : state) : res state :=
  let! x := setIn (mode_path t) (Leaf (Str (if truthy r then text r else []))) (rest e) in
  match x with Some x => Ok (State x (shown e)) | None => Throw outside end.

Definition current (e : state) : option node := get (ks "layout") (rest e).
Definition currentFilter (e : state) : option node := get (ks "filter") (rest e).
Definition isShown (e : state) (t : thing) (n : value) : value := default n (find (normalizeArray t) (shown e)).
Definition whatMode (e : state) (t : thing) (n : value) : node := default (Leaf n) (getIn (mode_path t) (rest e)).
Definition showSummary (e : state) : bool := negb (truthy (isShown e (Text (js "editor")) Undefined)).

Lemma find_put t t' v l : find t (put t' v l) = if decide (t' = t) then Some v else find t l.
Proof.
  induction l as [|[x w] l IH]; cbn [put find]; [done|]. destruct (decide (x = t')) as [->|Hx]; cbn [find]; [by destruct (decide (t' = t))|].
  rewrite IH. destruct (decide (x = t)), (decide (t' = t)); congruence.
Qed.

(** What is shown or hidden is found so, by a text or by the list of it, and nothing else changes. *)
Lemma show_shown e t t' n d : isShown (show t n e) t' d = if decide (normalizeArray t = normalizeArray t') then n else isShown e t' d.
Proof. unfold isShown, show. cbn [shown]. rewrite find_put. by destruct (decide _). Qed.

(** A mode is found so. *)
Lemma mode_found e t r d : wf (rest e) -> navigable false (mode_path t) (rest e) ->
  exists e', changeMode t r e = Ok e' /\ whatMode e' t d = Leaf (Str (if truthy r then text r else [])) /\ shown e' = shown e.
Proof.
  intros Hw Hn. destruct (setIn_placed (mode_path t) (Leaf (Str (if truthy r then text r else []))) (rest e)) as (x & E & _ & Hg & _); [done..|].
  unfold changeMode. rewrite E. cbn [res_bind]. eexists. split; [reflexivity|]. split; [|done]. unfold whatMode. cbn [rest]. by rewrite Hg.
Qed.
End Layout.

(** ** configs *)
Module Configs.
Import UiValidate ImmutableTree SpecState.

(** [payload] holds the entries of what fromJS makes. *)
Definition UPDATE_CONFIGS (payload : list (key * node)) (e : list (key * node)) : list (key * node) := merge e [payload].
Definition TOGGLE_CONFIGS (n : key) (e : list (key * node)) : list (key * node) := map_set n (Leaf (Bool (negb (truthy_node (map_get n e))))) e.

(** Toggling twice gives the truth value there was, and changes nothing else. *)
Lemma toggle_twice n k e : let e' := TOGGLE_CONFIGS n (TOGGLE_CONFIGS n e) in
  map_get k e' = if decide (n = k) then Some (Leaf (Bool (truthy_node (map_get n e)))) else map_get k e.
Proof.
  intros e'. unfold e', TOGGLE_CONFIGS at 1. rewrite map_get_set. destruct (decide (n = k)) as [_|Hk]; unfold TOGGLE_CONFIGS; rewrite map_get_set; [|by rewrite decide_False].
  rewrite decide_True by done. cbn [truthy_node truthy]. by rewrite negb_involutive.
Qed.
End Configs.

(** ** oas3 *)
Module Oas3.
Import UiValidate ImmutableTree SpecState.

(** [o ? [o].concat(p) : p]. *)
Definition in_namespace (o : jsstring) (p : list key) : list key := if decide (o = []) then p else KStr o :: p.

Definition UPDATE_SELECTED_SERVER (selectedServerUrl : node) (namespace : jsstring) (e : node) : res (option node) :=
  setIn (in_namespace namespace [ks "selectedServer"]) selectedServerUrl e.
Definition UPDATE_REQUEST_BODY_VALUE (value : node) (path method : jsstring) (e : node) : res (option node) :=
  setIn [ks "requestData"; KStr path; KStr method; ks "bodyValue"] value e.
Definition UPDATE_REQUEST_CONTENT_TYPE (value : node) (path method : jsstring) (e : node) : res (option node) :=
  setIn [ks "requestData"; KStr path; KStr method; ks "requestContentType"] value e.
Definition UPDATE_RESPONSE_CONTENT_TYPE (value : node) (path method : jsstring) (e : node) : res (option node) :=
  setIn [ks "requestData"; KStr path; KStr method; ks "responseContentType"] value e.
Definition UPDATE_SERVER_VARIABLE_VALUE (val : node) (server namespace k : jsstring) (e : node) : res (option node) :=
  setIn (in_namespace namespace [ks "serverVariableValues"; KStr server; KStr k]) val e.

Section selectors.
(** Whether the document is one of OpenAPI 3; the selectors give null for others. *)
Context (oas3 : bool).

Definition or_else (t : option node) (d : node) : node :=
  match t with Some t => if truthy_node (Some t) then t else d | None => d end.
Definition selecting (t : node) : node := if oas3 then t else Leaf Null.

Definition selectedServer (e : node) (t : jsstring) : node := selecting (or_else (getIn (in_namespace t [ks "selectedServer"]) e) (Leaf (Str []))).
Definition requestBodyValue (e : node) (t n : jsstring) : node := selecting (or_else (getIn [ks "requestData"; KStr t; KStr n; ks "bodyValue"] e) (Leaf Null)).
Definition requestContentType (e : node) (t n : jsstring) : node := selecting (or_else (getIn [ks "requestData"; KStr t; KStr n; ks "requestContentType"] e) (Leaf Null)).
Definition responseContentType (e : node) (t n : jsstring) : node := selecting (or_else (getIn [ks "requestData"; KStr t; KStr n; ks "responseContentType"] e) (Leaf Null)).
(** The first argument is a text, or an object with a namespace. *)
Definition serverVariableValue (e : node) (server namespace n : jsstring) : node :=
  selecting (or_else (getIn (in_namespace namespace [ks "serverVariableValues"; KStr server; KStr n]) e) (Leaf Null)).
Definition serverVariables (e : node) (server namespace : jsstring) : node :=
  selecting (or_else (getIn (in_namespace namespace [ks "serverVariableValues"; KStr server]) e) (TMap [])).
End selectors.

(** *** What was chosen last is read *)

(** A choice of the user, and where the state keeps it. *)
Inductive choice :=
| Server (namespace : jsstring)
| Body (path method : jsstring)
| RequestType (path method : jsstring)
| ResponseType (path method : jsstring)
| ServerVar (server namespace k : jsstring).

Definition choose (c : choice) (v : node) (e : node) : res (option node) :=
  match c with
  | Server o => UPDATE_SELECTED_SERVER v o e
  | Body p m => UPDATE_REQUEST_BODY_VALUE v p m e
  | RequestType p m => UPDATE_REQUEST_CONTENT_TYPE v p m e
  | ResponseType p m => UPDATE_RESPONSE_CONTENT_TYPE v p m e
  | ServerVar s o k => UPDATE_SERVER_VARIABLE_VALUE v s o k e
  end.
Definition read (oas3 : bool) (c : choice) (e : node) : node :=
  match c with
  | Server o => selectedServer oas3 e o
  | Body p m => requestBodyValue oas3 e p m
  | RequestType p m => requestContentType oas3 e p m
  | ResponseType p m => responseContentType oas3 e p m
  | ServerVar s o k => serverVariableValue oas3 e s o k
  end.
Definition place (c : choice) : list key :=
  match c with
  | Server o => in_namespace o [ks "selectedServer"]
  | Body p m => [ks "requestData"; KStr p; KStr m; ks "bodyValue"]
  | RequestType p m => [ks "requestData"; KStr p; KStr m; ks "requestContentType"]
  | ResponseType p m => [ks "requestData"; KStr p; KStr m; ks "responseContentType"]
  | ServerVar s o k => in_namespace o [ks "serverVariableValues"; KStr s; KStr k]
  end.
Definition unset (c : choice) : node := match c with Server _ => Leaf (Str []) | _ => Leaf Null end.

#[export] Instance choice_eq_dec : EqDecision choice.
Proof. solve_decision. Defined.

(** Namespaces that are no names of the state itself. *)
Definition namespace_of (c : choice) : jsstring := match c with Server o | ServerVar _ o _ => o | _ => [] end.
Definition choice_ok (c : choice) : Prop := namespace_of c ∉ [js "requestData"; js "serverVariableValues"; js "selectedServer"].

(** Paths of which none begins the other. *)
Fixpoint diverge (p q : list key) : Prop :=
  match p, q with
  | k :: p, k' :: q => k <> k' \/ diverge p q
  | _, _ => False
  end.

Lemma diverge_cons k k' p q : (k = k' -> diverge p q) -> diverge (k :: p) (k' :: q).
Proof. intros H. cbn. destruct (decide (k = k')); auto. Qed.

Ltac part := apply diverge_cons; let E := fresh in intros E; first [exfalso; congruence | exfalso; vm_compute in E; discriminate E | idtac].

Lemma choices_diverge c c' : choice_ok c -> choice_ok c' -> c = c' \/ diverge (place c) (place c').
Proof.
  unfold choice_ok. rewrite !not_elem_of_cons. intros (H1 & H2 & H3 & _) (H1' & H2' & H3' & _). destruct (decide (c = c')) as [|Hne]; [by left|right].
  destruct c, c'; cbn [namespace_of place] in *; unfold in_namespace; repeat case_decide; subst; try done; repeat part.
Qed.

(** A path along which there is nothing but maps, and the value put at its end. *)
Fixpoint along_maps (p : list key) (t : node) : Prop :=
  match p with
  | [] => True
  | k :: p => match t with TMap m => along_maps p (default (TMap []) (map_get k m)) | _ => False end
  end.
Fixpoint put_at (p : list key) (v t : node) : node :=
  match p with
  | [] => v
  | k :: p => match t with TMap m => TMap (map_set k (put_at p v (default (TMap []) (map_get k m))) m) | _ => t end
  end.

Lemma along_empty p : along_maps p (TMap []).
Proof. induction p; done. Qed.

Lemma put_path_maps p v t : along_maps p (default (TMap []) t) -> update_path t p (fun _ => Ok (Put v)) = Ok (Put (put_at p v (default (TMap []) t))).
Proof.
  revert t. induction p as [|k p IH]; intros t H; [done|]. destruct t as [[|m|]|]; cbn [from_option id along_maps] in H; try done; cbn [update_path get from_option id put_at].
  - rewrite IH by done. done.
  - by rewrite (IH None) by apply along_empty.
Qed.

Lemma setIn_maps p v t : along_maps p t -> setIn p v t = Ok (Some (put_at p v t)).
Proof. intros H. unfold setIn, updateIn. by rewrite put_path_maps. Qed.

Lemma put_at_read p v t : along_maps p t -> getIn p (put_at p v t) = Some v.
Proof.
  revert t. induction p as [|k p IH]; intros t H; [done|]. destruct t as [|m|]; try done. cbn [along_maps] in H. cbn [put_at getIn get]. rewrite map_get_set, decide_True by done. by apply IH.
Qed.

Lemma put_at_other p q v t : along_maps p t -> diverge p q -> getIn q (put_at p v t) = getIn q t.
Proof.
  revert q t. induction p as [|k p IH]; intros [|k' q] t H Hd; try done. destruct t as [|m|]; try done. cbn [along_maps] in H. cbn [put_at getIn get]. rewrite map_get_set.
  destruct (decide (k = k')) as [->|Hk]; [|done]. destruct Hd as [?|Hd]; [done|]. rewrite IH by done. destruct (map_get k' m); [done|]. cbn. by destruct q, p.
Qed.

Lemma put_at_along p q v t : along_maps p t -> along_maps q t -> p = q \/ diverge p q -> along_maps q (put_at p v t).
Proof.
  revert q t. induction p as [|k p IH]; intros [|k' q] t Hp Hq Hd; [by destruct Hd|by destruct Hd|done|]. destruct t as [|m|]; try done. cbn [along_maps put_at] in *. rewrite map_get_set.
  destruct (decide (k = k')) as [->|Hk]; [|done]. cbn [from_option id]. apply IH; [done..|]. destruct Hd as [[= <-]|[?|Hd]]; [by left|done|by right].
Qed.

(** The choices one after the other. *)
Fixpoint choose_all (l : list (choice * node)) (e : node) : res node :=
  match l with
  | [] => Ok e
  | (c, v) :: l => let! t := choose c v e in match t with Some t => choose_all l t | None => Throw outside end
  end.

(** The value chosen last. *)
Definition chosen (c : choice) (l : list (choice * node)) (d : option node) : option node :=
  foldl (fun d cv => if decide (fst cv = c) then Some (snd cv) else d) d l.

Lemma choose_place c v e : choose c v e = setIn (place c) v e.
Proof. by destruct c. Qed.

Lemma choose_all_ok l e : Forall (fun cv => choice_ok (fst cv)) l -> (forall c, choice_ok c -> along_maps (place c) e) ->
  exists e', choose_all l e = Ok e' /\ forall c, choice_ok c -> getIn (place c) e' = chosen c l (getIn (place c) e).
Proof.
  intros Hl. revert e. induction Hl as [|[c v] l Hc _ IH]; intros e He; [by exists e|]. cbn [choose_all fst] in *. rewrite choose_place, setIn_maps by auto. cbn [res_bind].
  destruct (IH (put_at (place c) v e)) as (e' & E & H).
  - intros c' Hc'. apply put_at_along; auto. destruct (choices_diverge c c') as [->|?]; auto.
  - exists e'. split; [done|]. intros c' Hc'. rewrite H by done. unfold chosen at 2. cbn [foldl fst snd]. fold (chosen c' l). destruct (decide (c = c')) as [<-|Hne].
    + by rewrite put_at_read by auto.
    + destruct (choices_diverge c c') as [?|?]; [done..|]. by rewrite put_at_other by auto.
Qed.

(** C19: whatever the user chooses, in any order (servers and their variables, request bodies and media types,
    each for its namespace or its operation), the reducers accept it, and every selector then gives the value
    that was chosen last for its own question and its default where none was: no choice disturbs another. *)
Theorem last_choice_read l : Forall (fun cv => choice_ok (fst cv)) l ->
  exists e, choose_all l (TMap []) = Ok e /\ forall c, choice_ok c -> read true c e = or_else (chosen c l None) (unset c).
Proof.
  intros Hl. destruct (choose_all_ok l (TMap []) Hl) as (e & E & H); [intros; apply along_empty|]. exists e. split; [done|]. intros c Hc. specialize (H c Hc).
  assert (getIn (place c) (TMap [] : node) = None) as Hn. { destruct c; cbn [place]; try done; unfold in_namespace; by destruct (decide _). }
  rewrite Hn in H. rewrite <- H. by destruct c.
Qed.

Lemma last_choice_read_witness : let l := [(Server (js "/pools"), Leaf (Str (js "https://a"))); (Body (js "/x") (js "post"), Leaf (Str (js "1"))); (Server (js "/pools"), Leaf (Str (js "https://b")))] in
  exists e, choose_all l (TMap []) = Ok e /\ read true (Server (js "/pools")) e = Leaf (Str (js "https://b")) /\ read true (Server []) e = Leaf (Str []).
Proof.
  intros l. destruct (last_choice_read l) as (e & E & H); [repeat constructor; by apply (bool_decide_unpack _)|]. exists e. split; [done|].
  split; [apply (H (Server (js "/pools")))|apply (H (Server []))]; by apply (bool_decide_unpack _).
Defined.

End Oas3.
