(* ===== verification/SchemaSample.v ===== *)
(** * Samples of schemas

    Models sampleFromSchema with the samples of primitive types (lines 6990 to 7053 of
    src/client/docs/swagger-ui/swagger-ui-bundle.js), which makes the example of a request or a
    response that the page shows, and deeplyStripKey with its predicate (lines 2795 to 2804).

    A schema is a tree with the members the code reads; the time of the sample of a date is an
    argument.  Types that are names every object inherits are left out. *)

From S2P Require Import Prelude.
From S2P Require Import JsString.
From S2P Require Import JsonPatch.
From S2P Require Import YamlSchema.
From Stdlib Require Import String.
From stdpp Require Import base numbers list strings option.
Open Scope Z_scope.

Module SchemaSample.
Import JsonPatch.

(** The members of a schema that are read; an absent text is empty.  additionalProperties is true
    if [anything], and the schema [additional] otherwise. *)
Inductive schema := Schema
  (type format : jsstring) (example : option json) (enum : option (list json)) (default_ : json) (deprecated readOnly writeOnly : bool)
  (properties : option (list (jsstring * schema))) (anything : bool) (additional : option schema)
  (items : option schema) (anyOf oneOf : option (list schema)).

Definition truthy_json (j : json) : bool :=
  match j with
  | JUndef | JNull => false
  | JBool b => b
  | JNum z => negb (z =? 0)
  | JStr s => negb (bool_decide (s = []))
  | JArr _ | JObj _ => true
  end.

(** deeplyStripKey of the key $$ref where it is a text with a number sign. *)
Definition is_ref (k : jsstring) (j : json) : bool :=
  bool_decide (k = js "$$ref") && match j with JStr s => bool_decide (35 ∈ s) | _ => false end.
Fixpoint strip_refs (t : json) : json :=
  match t with
  | JObj o => JObj ((fix go o := match o with
                                 | [] => []
                                 | (k, v) :: o => if is_ref k v then go o else (k, strip_refs v) :: go o
                                 end) o)
  | _ => t
  end.

Definition outside : jserr := JsError "left out of the model".

Section sampling.
(** The time, and the options. *)
Context (now : jsstring) (includeReadOnly includeWriteOnly : bool).

(** The samples of primitive types, by type and format; that of a boolean is its default. *)
Definition primitives (d : json) : list (jsstring * json) :=
  [(js "string", JStr (js "string")); (js "string_email", JStr (js "user@example.com")); (js "string_date-time", JStr now);
   (js "number", JNum 0); (js "number_float", JNum 0); (js "integer", JNum 0); (js "boolean", match d with JBool b => JBool b | _ => JBool true end)].
Definition primitive (type format : jsstring) (d : json) : res json :=
  let u := primitives d in
  match (if decide (format = []) then None else YamlSchema.own (type ++ js "_" ++ format) u) with
  | Some j => Ok j
  | None => match YamlSchema.own type u with
            | Some j => Ok j
            | None => if decide (type ∈ inherited) then Throw outside else Ok (JStr (js "Unknown Type: " ++ type))
            end
  end.

(** Whether a property is left out. *)
Definition hidden (s : schema) : bool :=
  let '(Schema _ _ _ _ _ deprecated readOnly writeOnly _ _ _ _ _ _) := s in
  deprecated || readOnly && negb includeReadOnly || writeOnly && negb includeWriteOnly.

(** The type, found by the other members where it is not given. *)
Definition kind_of (type : jsstring) (properties : option (list (jsstring * schema))) (items : option schema) : option jsstring :=
  if decide (type = []) then
    match properties, items with
    | Some _, _ => Some (js "object")
    | None, Some _ => Some (js "array")
    | None, None => None
    end
  else Some type.

Definition additionalProp (y : Z) : jsstring := js "additionalProp" ++ digits 10 y.
Definition add_samples (g : json) (h : list (jsstring * json)) : list (jsstring * json) :=
  foldl (fun h y => YamlSchema.assign (additionalProp y) g h) h [1; 2; 3].

(** The loops over the properties and over the alternatives. *)
Definition sample_members (f : schema -> res json) : list (jsstring * json) -> list (jsstring * schema) -> res (list (jsstring * json)) :=
  fix members h d :=
    match d with
    | [] => Ok h
    | (v, p) :: d => if hidden p then members h d else let! x := f p in members (YamlSchema.assign v x h) d
    end.
Definition sample_all (f : schema -> res json) : list schema -> res (list json) :=
  fix all l :=
    match l with
    | [] => Ok []
    | x :: l => let! y := f x in let! ys := all l in Ok (y :: ys)
    end.

Fixpoint sampleFromSchema (t : schema) : res json :=
  let '(Schema type format example enum d _ _ _ properties anything additional items _ _) := t in
  match example with
  | Some a => Ok (strip_refs a)
  | None =>
      match kind_of type properties items with
      | None => Ok JUndef
      | Some i =>
          if decide (i = js "object") then
            let! h := match properties with
                      | None => Ok []
                      | Some d => sample_members sampleFromSchema [] d
                      end in
            if anything then Ok (JObj (YamlSchema.assign (additionalProp 1) (JObj []) h))
            else match additional with
                 | Some m => let! g := sampleFromSchema m in Ok (JObj (add_samples g h))
                 | None => Ok (JObj h)
                 end
          else if decide (i = js "array") then
            match items with
            | None => Throw (TypeError "Cannot read property 'anyOf' of undefined")
            | Some c =>
                match c with
                | Schema _ _ _ _ _ _ _ _ _ _ _ _ (Some l) _ => let! l := sample_all sampleFromSchema l in Ok (JArr l)
                | Schema _ _ _ _ _ _ _ _ _ _ _ _ None (Some l) => let! l := sample_all sampleFromSchema l in Ok (JArr l)
                | _ => let! x := sampleFromSchema c in Ok (JArr [x])
                end
            end
          else match enum with
               | Some l => Ok (if truthy_json d then d else hd JUndef l)
               | None => if decide (i = js "file") then Ok JUndef else primitive type format d
               end
      end
  end.

(** ** Every well-made schema has a sample *)

Definition opt_all {X} (P : X -> Prop) (o : option X) : Prop := match o with Some x => P x | None => True end.

(** Induction with the parts of a schema. *)
Lemma schema_parts (P : schema -> Prop) :
  (forall type format ex en d dp ro wo props any add it anyo oneo,
    opt_all (Forall (fun kv => P (snd kv))) props -> opt_all P add -> opt_all P it -> opt_all (Forall P) anyo -> opt_all (Forall P) oneo ->
    P (Schema type format ex en d dp ro wo props any add it anyo oneo)) ->
  forall s, P s.
Proof.
  intros H. fix IH 1. intros [type format ex en d dp ro wo props any add it anyo oneo]. apply H.
  - destruct props as [l|]; [|exact I]. cbn. revert l. fix go 1. intros [|[k x] l]; constructor; [apply IH|apply go].
  - destruct add as [x|]; [apply IH|exact I].
  - destruct it as [x|]; [apply IH|exact I].
  - destruct anyo as [l|]; [|exact I]. cbn. revert l. fix go 1. intros [|x l]; constructor; [apply IH|apply go].
  - destruct oneo as [l|]; [|exact I]. cbn. revert l. fix go 1. intros [|x l]; constructor; [apply IH|apply go].
Qed.

(** An array says what its items are, and no type is the name of an inherited member. *)
Definition type_ok (type : jsstring) (items : option schema) : bool :=
  negb (bool_decide (type ∈ inherited)) && (negb (bool_decide (type = js "array")) || match items with Some _ => true | None => false end).
Definition opt_test {X} (f : X -> bool) (o : option X) : bool := match o with Some x => f x | None => true end.
Fixpoint well_made (s : schema) : bool :=
  let '(Schema type _ _ _ _ _ _ _ properties _ additional items anyOf oneOf) := s in
  type_ok type items && opt_test (forallb (fun kv => well_made (snd kv))) properties && opt_test well_made additional
  && opt_test well_made items && opt_test (forallb well_made) anyOf && opt_test (forallb well_made) oneOf.

Definition sampled (s : schema) : Prop := exists j, sampleFromSchema s = Ok j.

Lemma primitive_ok type format d : type ∉ inherited -> exists j, primitive type format d = Ok j.
Proof. intros H. unfold primitive. destruct (if decide (format = []) then None else _); [eauto|]. destruct (YamlSchema.own _ _); [eauto|]. rewrite decide_False by done. eauto. Qed.

Lemma sample_members_ok l : Forall (fun kv => sampled (snd kv)) l -> forall h, exists h', sample_members sampleFromSchema h l = Ok h'.
Proof.
  induction 1 as [|[v p] l [j Hp] _ IH]; intros h; cbn [sample_members]; [eauto|]. destruct (hidden p); [apply IH|]. cbn [snd] in Hp. rewrite Hp. apply IH.
Qed.

Lemma sample_all_ok l : Forall sampled l -> exists l', sample_all sampleFromSchema l = Ok l'.
Proof. induction 1 as [|x l [j Hj] _ [l' IH]]; cbn [sample_all]; [eauto|]. rewrite Hj. cbn [res_bind]. rewrite IH. cbn [res_bind]. eauto. Qed.

Definition alternatives (s : schema) : Prop :=
  let '(Schema _ _ _ _ _ _ _ _ _ _ _ _ anyOf oneOf) := s in opt_all (Forall sampled) anyOf /\ opt_all (Forall sampled) oneOf.

Lemma forall_test (P : schema -> Prop) l : Forall (fun x => well_made x = true -> P x) l -> forallb well_made l = true -> Forall P l.
Proof. induction 1 as [|x l Hx _ IH]; [constructor|]. cbn [forallb]. intros [? ?]%andb_true_iff. constructor; auto. Qed.

Lemma object_ok properties anything additional : opt_all (Forall (fun kv => sampled (snd kv))) properties -> opt_all sampled additional ->
  exists j, (let! h := match properties with None => Ok [] | Some d => sample_members sampleFromSchema [] d end in
             if anything : bool then Ok (JObj (YamlSchema.assign (additionalProp 1) (JObj []) h))
             else match additional with
                  | Some m => let! g := sampleFromSchema m in Ok (JObj (add_samples g h))
                  | None => Ok (JObj h)
                  end) = Ok j.
Proof.
  intros Hp Ha. assert (exists h, match properties with None => Ok [] | Some d => sample_members sampleFromSchema [] d end = Ok h) as [h ->].
  { destruct properties; [by apply sample_members_ok|eauto]. }
  cbn [res_bind]. destruct anything; [eauto|]. destruct additional as [m|]; [|eauto]. destruct Ha as [g ->]. cbn [res_bind]. eauto.
Qed.

Lemma sampled_both s : well_made s = true -> sampled s /\ alternatives s.
Proof.
  induction s as [type format ex en d dp ro wo props any add it anyo oneo Hprops Hadd Hit Hany Hone] using schema_parts.
  cbn [well_made]. rewrite !andb_true_iff. intros [[[[[Ht Wp] Wa] Wi] Wany] Wone].
  assert (opt_all (Forall sampled) anyo /\ opt_all (Forall sampled) oneo) as Halt.
  { split; [destruct anyo as [l|]|destruct oneo as [l|]]; try done; cbn in *; (apply forall_test; [|done]); refine (List.Forall_impl _ _ _); try eassumption; intros x Hx Hw; by apply Hx. }
  split; [|done]. unfold sampled. cbn [sampleFromSchema]. destruct ex as [a|]; [eauto|]. destruct (kind_of type props it) as [i|] eqn:Ek; [|eauto].
  case_decide as Hobj.
  - apply object_ok.
    + destruct props as [l|]; [|done]. cbn in *. clear -Hprops Wp. induction Hprops as [|[k x] l Hx _ IH]; [constructor|]. cbn [forallb snd] in *. apply andb_true_iff in Wp as [? ?]. constructor; [by apply Hx|by apply IH].
    + destruct add as [m|]; [|done]. by apply Hadd.
  - case_decide as Harr.
    + assert (exists c, it = Some c) as [c ->]. { unfold kind_of in Ek. unfold type_ok in Ht. destruct it; [eauto|]. case_decide; [by destruct props; simplify_eq|]. injection Ek as ->. subst i. by rewrite andb_false_r in Ht. }
      cbn in Hit, Wi. destruct (Hit Wi) as [[j Hj] Ha]. destruct c as [? ? ? ? ? ? ? ? ? ? ? ? anyc onec]. destruct Ha as [Ha1 Ha2].
      destruct anyc as [l|]; [destruct (sample_all_ok l Ha1) as [l' ->]; cbn [res_bind]; eauto|]. destruct onec as [l|]; [destruct (sample_all_ok l Ha2) as [l' ->]; cbn [res_bind]; eauto|].
      rewrite Hj. cbn [res_bind]. eauto.
    + destruct en; [eauto|]. case_decide; [eauto|]. apply primitive_ok. unfold type_ok in Ht. apply andb_true_iff in Ht as [Ht _]. by apply negb_true_iff, bool_decide_eq_false in Ht.
Qed.

(** Every well-made schema has a sample: no type, no nesting and no choice of alternatives makes the
    code throw. *)
Theorem sample_total s : well_made s = true -> exists j, sampleFromSchema s = Ok j.
Proof. intros H. by apply sampled_both. Qed.

(** ** What the sample of an object has *)




End sampling.

(** A property that is read-only or not. *)
Definition text_schema (ro : bool) : schema := Schema (js "string") [] None None JUndef false ro false None false None None None None.


Lemma sample_total_witness : exists j, sampleFromSchema [] false false (Schema (js "array") [] None None JUndef false false false None false None (Some (text_schema true)) None None) = Ok j.
Proof. apply sample_total. reflexivity. Defined.

(** A schema with additional properties and without a type has no sample, although the sampler of XML takes
    it for an object; and an array without items throws. *)
Theorem sample_defects :
  sampleFromSchema [] false false (Schema [] [] None None JUndef false false false None true None None None None) = Ok JUndef
  /\ (exists m, sampleFromSchema [] false false (Schema (js "array") [] None None JUndef false false false None false None None None None) = Throw (TypeError m)).
Proof. split; [reflexivity|by eexists]. Qed.

End SchemaSample.
